(* ===== verification/_CoqProject ===== *)
-Q . S2P
Prelude.v
UnicodeCase.v
GoStrings.v
GoURL.v
GoIP.v
Queue.v
RuntimeStore.v
StoreTheorems.v
Outbox.v
OutboxLoop.v
Materializer.v
RWMutex.v
Tenant.v
Agent.v
GoFloat.v
Sha256.v
Ranking.v
GoJson.v
AgentRevision.v
AgentRepository.v
AgentRuntime.v
OptionMaps.v
ProfileStore.v
ModelProfile.v
ModelRepository.v
ModelRuntime.v
BackendProfile.v
BackendRepository.v
BackendRuntime.v
Bindings.v
Routing.v
BindingRepository.v
Gateway.v
Plan.v
Registry.v
RegistryCallers.v
AuditLog.v
Migration.v
DispatchClaim.v
Dispatch.v
Http.v
HttpTheorems.v
Capabilities.v
CapabilityTheorems.v
Telegram.v
TelegramTheorems.v
