(* ===== verification/Prelude.v ===== *)
(** * A multi-tenant agent service: verification of its core

    The service under [src/trpcservice] receives messages of many tenants from chat channels
    and an HTTP API, routes each one to an agent app of its tenant, executes it with a Runner,
    and delivers the reply segments back.  The control plane keeps tenants, apps with their
    published revisions, and channel bindings; the data plane keeps sessions, message events,
    histories and a reply outbox, and hands out work under leases with fencing tokens.

    The development is a shallow embedding: Go values are Rocq values, a fallible function
    returns a [result], a method that locks a mutex is one atomic action [act] on the state
    it protects.  Strings are byte strings with the UTF-8 decoding of Go, integers that the
    code increments wrap at 64 bits ([wrap64]), times are nanoseconds since Go's zero time,
    the readings of clocks, contexts and random sources are arguments, and where the order of
    a map iteration matters it is one too.  Everything is executable.

    ** Files

    - [Prelude]: results, actions, integers, times and contexts, the tactics that open a
      body, and generic lemmas.  [GoStrings] and [UnicodeCase], [GoFloat], [Sha256]: what
      the code uses of Go's strings, of float formatting, of SHA-256 and of JSON text.
      [GoURL], [GoIP], [GoJson]: net/url, net.IP, the number parsers and the JSON decoder,
      with the proof that what is printed is read back.  [Ranking]: what sort.Slice
      promises and the orders it is used with.
    - [Queue] (runtime/queue/queue.go): the task store and its worker.  The worker is
      verified against an interface of stores, which the in-memory store implements.
    - [RuntimeStore], [StoreTheorems] (runtime/storage, storage/inmemory): sessions, message
      events, histories, replies and correlations.  Each operation implements one rule of an
      abstract transition relation, over which the guarantees are proved.
    - [Capabilities], [CapabilityTheorems] (runtime/storage/capabilities.go and its in-memory
      implementation): memories with their asynchronous index, knowledge, artifacts, audit
      facts, vectors and objects of the same store, and the life cycle of shared backends.
      A run interleaves the operations of tenants with the waiting sends and the worker.
    - [Outbox], [OutboxLoop], [Materializer] (runtime/outbox): cutting a reply into stored
      segments, delivering them while other workers use the same store, and the life of the
      poll loop with any number of calls that start and close it.
    - [RWMutex] (tenant/inmemory/rwmutex.go and its copies): the context-aware lock as a
      transition system of threads.
    - [Tenant], [Agent], [AgentRevision], [AgentRepository], [AgentRuntime] (tenant, agent and
      their in-memory repositories): the aggregates, their identifiers, validation, digests
      and life cycles, and the snapshots that an execution starts from.
    - [OptionMaps], [ProfileStore]: the loops over option maps and the shape of the stores
      that both kinds of profiles share; each repository shows that its operations are
      effects of the shared store.
    - [ModelProfile], [ModelRepository], [ModelRuntime] (model and model/inmemory): the
      provider catalog, normalization, digests and life cycle of model profiles, their
      repository, and the secrets and factories that an execution builds a model with.
    - [BackendProfile], [BackendRepository], [BackendRuntime] (backend and backend/inmemory):
      the same for backend profiles, and the sets of storage capabilities made from them.
    - [Bindings], [Routing], [BindingRepository] (channels, channels/inmemory): bindings,
      single-use candidates and routing targets.  Resolution is verified against an interface
      of the control plane, which the repository implements.
    - [Gateway], [Registry], [RegistryCallers] (gateway): principals, authentication,
      admission limits, idempotency, the cache of Runners with leases, and the concurrent
      calls that acquire them, build them and wait for each other.
    - [Plan] (runtime/plan.go, gateway/resolver.go): the composition of tenant, revision and
      profiles into an execution plan.  The resolver is verified against the interfaces of
      the four repositories, which the in-memory ones implement.
    - [AuditLog] (audit): events, their digest, the append-only store, usage totals, the
      recorder and the hand-off records.
    - [Migration] (runtime/migration): moving a tenant to another backend, over interfaces of
      source, destination and router, and the adapters in memory.
    - [DispatchClaim], [Dispatch] (gateway/dispatch.go): one execution from the request to
      the end of its event stream, composed with the runtime store (claims, settlement,
      replies), the audit events and the hand-offs.
    - [Http], [HttpTheorems] (gateway/http.go): the HTTP surface.  A chat request passes
      through phases; a run of the server interleaves the steps of requests in any order.
    - [Telegram], [TelegramTheorems] (channels/telegram, channels/replies): the adapter that
      turns updates into messages and sends the replies, over the idempotency store and the
      audit log, with its webhook and its provider for the reply outbox.

    ** What is shown

    - Exclusive work: one fencing token settles at most one outcome, a takeover shuts out the
      earlier holder, settled work is final, an oldest eligible task is claimed, retry delays
      are bounded, and a worker pass settles what it claimed ([Queue]).
    - Durable state: referential integrity, tenant isolation, exactly-once recording, ordered
      and idempotent histories, all-or-nothing reply batches, fenced execution and delivery,
      and the cascade of a deletion ([StoreTheorems]).  The capabilities of one tenant are
      out of reach of the others, the index of memories converges to the current versions
      of the live ones, searches return exactly what matches in their order, and a shared
      backend ends once, with its last owner ([CapabilityTheorems]).
    - Delivery: a pass delivers only what it listed as pending or retryable and leased
      itself, what it listed as being sent is only reconciled, outcomes are recorded as the
      provider answered, an event is replied when all its segments are sent, and segments
      concatenate to the reply; a worker has one poll loop at a time, and closing it waits
      for its end ([Outbox], [Materializer], [OutboxLoop]).
    - The lock excludes writers from all others, and no sleeper is forgotten ([RWMutex]).
    - The control plane: reachable repositories are valid and their indexes agree, updates
      are not lost, published revisions never change, an app only points to published
      revisions and those can be executed, candidates are used once and within their
      lifetime, routing targets carry exactly the verified binding, and Runner identities
      do not collide ([Tenant], [AgentRepository], [AgentRuntime], [BindingRepository],
      [Routing]).
    - Profiles: what normalization accepts conforms to the schema of a registered provider,
      with endpoints that read back as themselves, typed options and no sensitive ones; the
      bytes under a backend digest determine the configuration; repositories hold valid
      profiles, lose no update and record every change; a secret, a provider or a capability
      of another tenant is never used; a set of capabilities is built completely or closed
      again, and closed once ([ModelProfile], [ModelRepository], [ModelRuntime],
      [BackendProfile], [BackendRepository], [BackendRuntime]).
    - Plans: a resolved plan consists of the active objects of the principal's tenant that
      select each other, every plan there is can be resolved, and failures tell nothing
      apart ([Plan]).
    - The gateway: admission stays within its limits, a message executes once within the
      idempotency window, no Runner is closed under a lease or twice, and none is lost
      unless closing another failed; one call per key builds, the others wait for it, and
      their retry loops end ([Gateway], [Registry], [RegistryCallers]).
    - Migrations: the destination never holds anything but versions of the source, a copied
      migration whose keys were written at most once since the barrier catches up exactly and
      can be cut over unless the tenant is routed there already, and traffic only moves with
      equal digests ([Migration]).
    - The audit log only grows, is scoped to tenants and idempotent, and usage totals equal
      the sums of their groups ([AuditLog]).
    - Executions: a channel message is executed by one gateway at a time and a gateway that
      lost its lease settles nothing ([DispatchClaim]); an event stream is redacted, ends
      exactly when it should, and settles success only with the streamed reply after the
      audit; a refused request leaves nothing behind ([Dispatch]).
    - The HTTP surface: requests give back their slots and claims in any interleaving, each
      is answered once, with fixed error texts or redacted events; repeated messages are
      answered from the record; the response agrees with the execution; message bodies and
      event streams read back as what was written ([HttpTheorems]).
    - The Telegram channel: only the bot of the binding is served, the accepted updates
      are exactly those in scope and become messages of their chat, while a claim is alive no
      update that comes later executes its message again (one whose own claim ran out in
      flight is not stopped), claims are settled and replies arrive whole, and the webhook
      admits authenticated updates only and drains before it closes ([TelegramTheorems]).

    ** Bounds

    Theorems over counters that the code does not check for overflow carry a hypothesis
    ([room]) that the counter is as far below 2^63 as the run is long.  Where the code
    validates after incrementing (agent apps and revisions) there is no such hypothesis.
    Loops are structural over the data that they visit; the search for float digits stops
    after seventeen digits, which determine every binary64 number; the JSON parser has fuel
    for twice the length of its input, which never runs out.  Hypotheses on parameters
    state what the callee documents: a random source returns bytes, a clock is not the zero
    time, the tests of a worker's store interface.

    ** Not modelled

    Code that is I/O or wiring: the SQL adapters (the logic is in database functions),
    the protocols of the other channels, bootstrap, metrics and tracing, the Vault client, the third-party
    Runner.  Of the modelled packages, what is left out is named in the header of the file:
    telemetry spans, context values that only label them, and UnmarshalJSON of channel
    protocols.  Next in line are the admin API and the WeCom adapter. *)
From stdpp Require Export base gmap strings list fin_maps sorting.
From Stdlib Require Export ZArith Lia.

(** * Go values shared by every component *)

(** ** Results: a Go pair [(value, error)] in which exactly one side matters. *)
Inductive result (E A : Type) : Type :=
| Ok (a : A)
| Err (e : E).
Arguments Ok {E A} a.
Arguments Err {E A} e.

#[export] Instance result_ret {E} : MRet (result E) := λ A a, Ok a.
#[export] Instance result_bind {E} : MBind (result E) := λ A B f r,
  match r with Ok a => f a | Err e => Err e end.
#[export] Instance result_eq_dec {E A} `{EqDecision E, EqDecision A} :
  EqDecision (result E A).
Proof. solve_decision. Defined.

(** [guard_ok b e] is the statement [if !b { return e }]. *)
Definition guard_ok {E} (b : bool) (e : E) : result E unit :=
  if b then Ok () else Err e.

Definition is_ok {E A} (r : result E A) : bool :=
  match r with Ok _ => true | Err _ => false end.

(** ** Stateful operations: a method on a shared object.  The state comes back
    on every path, because some methods change it before they report an error. *)
Definition act (S E A : Type) : Type := S → S * result E A.

#[export] Instance act_ret {S E} : MRet (act S E) := λ A a s, (s, Ok a).
#[export] Instance act_bind {S E} : MBind (act S E) := λ A B f m s,
  match m s with
  | (s', Ok a) => f a s'
  | (s', Err e) => (s', Err e)
  end.

Definition throw {S E A} (e : E) : act S E A := λ s, (s, Err e).
Definition lift {S E A} (r : result E A) : act S E A := λ s, (s, r).
Definition get {S E} : act S E S := λ s, (s, Ok s).
Definition put {S E} (s : S) : act S E unit := λ _, (s, Ok ()).
Definition ensure {S E} (b : bool) (e : E) : act S E unit := lift (guard_ok b e).

(** ** Machine integers: Go [int64] and [int] (64-bit targets). *)
Definition int64_min : Z := -9223372036854775808.
Definition int64_max : Z := 9223372036854775807.
Definition wrap64 (z : Z) : Z :=
  (z + 9223372036854775808) `mod` 18446744073709551616 - 9223372036854775808.
Definition incr64 (z : Z) : Z := wrap64 (z + 1).

(** ** Time: nanoseconds since Go's zero [time.Time]; durations in nanoseconds. *)
Notation time := Z (only parsing).
Notation duration := Z (only parsing).
Definition zero_time : time := 0%Z.
Definition is_zero (t : time) : bool := (t =? 0)%Z.
Definition after (t u : time) : bool := (u <? t)%Z.
Definition before (t u : time) : bool := (t <? u)%Z.
Definition add_duration (t : time) (d : duration) : time := (t + d)%Z.
Definition millisecond : duration := 1000000%Z.
Definition second : duration := 1000000000%Z.
Definition minute : duration := 60000000000%Z.

(** A [time.Time] whose location is inspected: the instant, and whether the location is UTC. *)
Record stamp := mkStamp { instant : time; utc : bool }.
#[export] Instance stamp_eq_dec : EqDecision stamp.
Proof. solve_decision. Defined.
Definition to_utc (t : stamp) : stamp := mkStamp (instant t) true.
Definition stamp_zero (t : stamp) : bool := is_zero (instant t).
Definition stamp_before (t u : stamp) : bool := before (instant t) (instant u).


(** ** Contexts.  A context may be canceled between two reads of [ctx.Err()], so
    a non-nil context answers each read of one operation separately. *)
Inductive ctx_error := Canceled | DeadlineExceeded.
#[export] Instance ctx_error_eq_dec : EqDecision ctx_error.
Proof. solve_decision. Defined.

Notation context := (option (nat → option ctx_error)) (only parsing).
Definition background : context := Some (λ _, None).
Definition canceled_ctx : context := Some (λ _, Some Canceled).

(** What is left of a context after [n] of its reads. *)
Definition ctx_from (n : nat) (ctx : context) : context :=
  (λ c i, c (n + i)%nat) <$> ctx.

(** A clock answers the successive calls of [time.Now] in one operation. *)
Notation clock := (nat → Z) (only parsing).

(** [opt_is_nil p] is the test [p == nil]. *)
Definition opt_is_nil {A} (o : option A) : bool :=
  match o with None => true | Some _ => false end.

(** * Automation *)

(** Case analysis of a Go body: open the monads, split on every test. *)
Ltac go_unfold :=
  unfold mbind, mret, act_bind, act_ret, result_bind, result_ret,
    ensure, throw, lift, get, put, guard_ok in *.

Ltac go_cases :=
  repeat (case_match; simplify_eq/=);
  repeat match goal with u : unit |- _ => destruct u end.

Ltac go_step := go_unfold; simplify_eq/=; go_cases.

(** Turn boolean tests in the context into propositions. *)
Ltac bool_prop :=
  repeat match goal with
  | H : (_ && _)%bool = true |- _ => apply andb_true_iff in H; destruct H
  | H : (_ || _)%bool = false |- _ => apply orb_false_iff in H; destruct H
  | H : negb _ = true |- _ => apply negb_true_iff in H
  | H : negb _ = false |- _ => apply negb_false_iff in H
  | H : bool_decide _ = true |- _ => apply bool_decide_eq_true_1 in H
  | H : bool_decide _ = false |- _ => apply bool_decide_eq_false_1 in H
  | H : (_ <? _)%Z = true |- _ => apply Z.ltb_lt in H
  | H : (_ <? _)%Z = false |- _ => apply Z.ltb_ge in H
  | H : (_ <=? _)%Z = true |- _ => apply Z.leb_le in H
  | H : (_ <=? _)%Z = false |- _ => apply Z.leb_gt in H
  | H : (_ =? _)%Z = true |- _ => apply Z.eqb_eq in H
  | H : (_ =? _)%Z = false |- _ => apply Z.eqb_neq in H
  | H : (_ =? _)%string = true |- _ => apply String.eqb_eq in H
  | H : (_ =? _)%string = false |- _ => apply String.eqb_neq in H
  end.

(** Linear arithmetic with division and remainder by constants. *)
Ltac divlia := Z.to_euclidean_division_equations; lia.

Create HintDb golang.

(** * Generic lemmas *)

Lemma wrap64_id z : (int64_min ≤ z ≤ int64_max)%Z → wrap64 z = z.
Proof. unfold wrap64, int64_min, int64_max. intros. rewrite Z.mod_small; lia. Qed.

Lemma wrap64_range z : (int64_min ≤ wrap64 z ≤ int64_max)%Z.
Proof.
  unfold wrap64, int64_min, int64_max.
  pose proof (Z.mod_pos_bound (z + 9223372036854775808) 18446744073709551616). lia.
Qed.

Lemma wrap64_add a b : wrap64 (wrap64 a + b) = wrap64 (a + b).
Proof.
  unfold wrap64. f_equal.
  replace ((a + 9223372036854775808) `mod` 18446744073709551616 - 9223372036854775808 + b + 9223372036854775808)%Z
    with ((a + 9223372036854775808) `mod` 18446744073709551616 + b)%Z by lia.
  rewrite Zplus_mod_idemp_l. f_equal. lia.
Qed.

Lemma incr64_small z : (int64_min ≤ z < int64_max)%Z → incr64 z = (z + 1)%Z.
Proof. intros. unfold incr64. apply wrap64_id. unfold int64_min, int64_max in *. lia. Qed.

Lemma incr64_overflow : incr64 int64_max = int64_min.
Proof. reflexivity. Qed.

(** The first element of a sorted list is a least element of the input. *)
Lemma merge_sort_head {A} (R : relation A) `{!RelDecision R, !Transitive R, !Total R}
    (l r : list A) x :
  merge_sort R l = x :: r → x ∈ l ∧ ∀ y, y ∈ l → R x y.
Proof.
  intros H. pose proof (merge_sort_Permutation R l) as Hp.
  pose proof (StronglySorted_merge_sort R l) as Hs. rewrite H in Hp, Hs.
  inversion Hs as [|?? _ Hall]; subst. split.
  - rewrite <- Hp. by left.
  - intros y Hy. rewrite <- Hp in Hy. apply elem_of_cons in Hy as [->|Hy].
    + by destruct (total R x x).
    + rewrite Forall_forall in Hall. auto.
Qed.

Lemma merge_sort_nil {A} (R : relation A) `{!RelDecision R} (l : list A) :
  merge_sort R l = [] → l = [].
Proof.
  intros H. apply Permutation_nil. rewrite <- H. apply merge_sort_Permutation.
Qed.

Lemma filter_ext_in {A} (P Q : A → Prop) (dP : ∀ x, Decision (P x)) (dQ : ∀ x, Decision (Q x)) (l : list A) :
  (∀ x, x ∈ l → (P x ↔ Q x)) → filter P l = filter Q l.
Proof.
  induction l as [|x l IH]; intros Hl; [done|].
  rewrite !filter_cons, IH by (intros y Hy; apply Hl; by right).
  pose proof (Hl x ltac:(left)) as Hx. repeat case_decide; naive_solver.
Qed.

Lemma filter_all {A} (P : A → Prop) `{∀ x, Decision (P x)} (l : list A) : Forall P l → filter P l = l.
Proof. induction 1 as [|x l Hx _ IH]; [done|]. by rewrite filter_cons_True, IH. Qed.

Lemma filter_none {A} (P : A → Prop) `{∀ x, Decision (P x)} (l : list A) : Forall (λ x, ¬ P x) l → filter P l = [].
Proof. induction 1 as [|x l Hx _ IH]; [done|]. by rewrite filter_cons_False, IH. Qed.

Lemma elem_of_values {A} (m : gmap string A) t : t ∈ (map_to_list m).*2 ↔ ∃ k, m !! k = Some t.
Proof.
  rewrite list_elem_of_fmap. split.
  - intros ([k t'] & -> & Hk%elem_of_map_to_list). eauto.
  - intros [k Hk]. exists (k, t). by rewrite elem_of_map_to_list.
Qed.

(** Values that know their keys have different keys. *)
Lemma keyed_NoDup {A} (m : gmap string A) (f : A → string) (l : list A) :
  (∀ k t, m !! k = Some t → f t = k) → l ≡ₚ (map_to_list m).*2 → NoDup (f <$> l).
Proof.
  intros Hf ->. rewrite <- list_fmap_compose.
  rewrite (list_fmap_ext _ fst).
  - apply NoDup_fst_map_to_list.
  - intros i [k t] Hi%list_elem_of_lookup_2%elem_of_map_to_list. by apply Hf.
Qed.

Lemma map_Forall_delete_2 `{Countable K} {A} (P : K → A → Prop) (m : gmap K A) k :
  map_Forall P m → map_Forall P (delete k m).
Proof. intros Hm i x [??]%lookup_delete_Some. by apply Hm. Qed.

Lemma map_Forall_insert_at `{Countable K} {A} (P : K → A → Prop) (m : gmap K A) k x :
  map_Forall P m → P k x → map_Forall P (<[k := x]> m).
Proof. intros. by apply map_Forall_insert_2. Qed.

#[export] Hint Resolve map_Forall_insert_at map_Forall_delete_2 map_Forall_empty : golang.
#[export] Hint Rewrite @lookup_insert_eq @lookup_delete_eq @lookup_empty : golang.
