(* ===== verification/GoStrings.v ===== *)
(** Go strings: byte sequences, UTF-8 decoding as [range] and [[]rune] do it,
    [strings.TrimSpace], [strings.ToLower], decimal printing, and the
    length-prefixed encoding that several packages use to build map keys. *)
From Stdlib Require Import Ascii String DecimalString DecimalNat DecimalZ Decimal.
From S2P Require Import Prelude UnicodeCase.
Local Open Scope Z_scope.

(** * Bytes *)
Definition byte_val (a : ascii) : Z := Z.of_N (N_of_ascii a).
Definition byte_of (z : Z) : ascii := ascii_of_N (Z.to_N z).

(** [len(s)]: the number of bytes. *)
Definition len (s : string) : Z := Z.of_nat (String.length s).

Fixpoint bytes (s : string) : list Z :=
  match s with
  | EmptyString => []
  | String a s' => byte_val a :: bytes s'
  end.

(** [strings.HasPrefix] and [strings.TrimPrefix]. *)
Fixpoint has_prefix (s p : string) : bool :=
  match p, s with
  | EmptyString, _ => true
  | String a p', String b s' => Ascii.eqb a b && has_prefix s' p'
  | _, EmptyString => false
  end.

Fixpoint drop_bytes (n : nat) (s : string) : string :=
  match n, s with
  | S n', String _ s' => drop_bytes n' s'
  | _, _ => s
  end.

Definition trim_prefix (s p : string) : string :=
  if has_prefix s p then drop_bytes (String.length p) s else s.

(** [strings.Contains]. *)
Fixpoint contains (s sub : string) : bool :=
  has_prefix s sub || match s with EmptyString => false | String _ s' => contains s' sub end.

(** * UTF-8 *)
Definition rune_error : Z := 65533.

(** A byte that may continue a multi-byte sequence whose first byte is [a]:
    the second byte has a range of its own for E0, ED, F0 and F4. *)
Definition cont (b : Z) : bool := (128 <=? b) && (b <=? 191).
Definition second_ok (a b : Z) : bool :=
  if a =? 224 then (160 <=? b) && (b <=? 191)
  else if a =? 237 then (128 <=? b) && (b <=? 159)
  else if a =? 240 then (144 <=? b) && (b <=? 191)
  else if a =? 244 then (128 <=? b) && (b <=? 143)
  else cont b.

(** The width of the first rune of a non-empty byte sequence; an ill-formed
    first byte is one [rune_error] of width 1. *)
Definition rune_width (s : list Z) : nat :=
  match s with
  | a :: b :: rest =>
      if (194 <=? a) && (a <=? 223) && cont b then 2%nat
      else match rest with
      | c :: rest' =>
          if (224 <=? a) && (a <=? 239) && second_ok a b && cont c then 3%nat
          else match rest' with
          | d :: _ =>
              if (240 <=? a) && (a <=? 244) && second_ok a b && cont c && cont d
              then 4%nat else 1%nat
          | [] => 1%nat
          end
      | [] => 1%nat
      end
  | _ => 1%nat
  end.

Definition rune1 (a : Z) : Z := if a <? 128 then a else rune_error.
Definition rune2 (a b : Z) : Z := (a - 192) * 64 + (b - 128).
Definition rune3 (a b c : Z) : Z := (a - 224) * 4096 + (b - 128) * 64 + (c - 128).
Definition rune4 (a b c d : Z) : Z :=
  (a - 240) * 262144 + (b - 128) * 4096 + (c - 128) * 64 + (d - 128).

(** The runes of a byte sequence, each with the bytes it was decoded from. *)
Fixpoint chunks (s : list Z) : list (Z * list Z) :=
  match s with
  | [] => []
  | a :: s1 =>
      match rune_width s, s1 with
      | 2%nat, b :: s2 => (rune2 a b, [a; b]) :: chunks s2
      | 3%nat, b :: c :: s3 => (rune3 a b c, [a; b; c]) :: chunks s3
      | 4%nat, b :: c :: d :: s4 => (rune4 a b c d, [a; b; c; d]) :: chunks s4
      | _, _ => (rune1 a, [a]) :: chunks s1
      end
  end.

(** The rune that a decoding step yields. *)
Definition head_rune (l : list Z) : Z :=
  match take (rune_width l) l with
  | [a] => rune1 a
  | [a; b] => rune2 a b
  | [a; b; c] => rune3 a b c
  | [a; b; c; d] => rune4 a b c d
  | _ => rune_error
  end.

(** [[]rune(s)] and [len([]rune(s))]. *)
Definition runes (s : string) : list Z := (chunks (bytes s)).*1.
Definition rune_count (s : string) : Z := Z.of_nat (length (runes s)).

(** The bytes of one rune, as [string([]rune{r})] writes them. *)
Definition scalar (r : Z) : bool :=
  ((0 <=? r) && (r <? 55296)) || ((57343 <? r) && (r <=? 1114111)).
Definition encode_scalar (r : Z) : list Z :=
  if r <? 128 then [r]
  else if r <? 2048 then [192 + r `div` 64; 128 + r `mod` 64]
  else if r <? 65536 then
    [224 + r `div` 4096; 128 + (r `div` 64) `mod` 64; 128 + r `mod` 64]
  else [240 + r `div` 262144; 128 + (r `div` 4096) `mod` 64;
        128 + (r `div` 64) `mod` 64; 128 + r `mod` 64].
Definition encode_rune (r : Z) : list Z :=
  encode_scalar (if scalar r then r else rune_error).
Definition string_of_bytes (l : list Z) : string :=
  string_of_list_ascii (byte_of <$> l).
Definition string_of_runes (rs : list Z) : string :=
  string_of_bytes (rs ≫= encode_rune).

(** [utf8.ValidString]. *)
Definition valid_utf8 (s : string) : bool :=
  forallb (λ c : Z * list Z, negb ((c.1 =? rune_error) && (Nat.eqb (length c.2) 1)))
    (chunks (bytes s)).

(** * Classes of runes, trimming, lower case *)

(** [unicode.IsSpace]. *)
Definition is_space (r : Z) : bool :=
  ((9 <=? r) && (r <=? 13)) || (r =? 32) || (r =? 133) || (r =? 160) ||
  (r =? 5760) || ((8192 <=? r) && (r <=? 8202)) || (r =? 8232) || (r =? 8233) ||
  (r =? 8239) || (r =? 8287) || (r =? 12288).

Fixpoint drop_space (cs : list (Z * list Z)) : list (Z * list Z) :=
  match cs with
  | c :: cs' => if is_space c.1 then drop_space cs' else cs
  | [] => []
  end.

(** The bytes of [strings.TrimSpace(s)]. *)
Definition trim_chunks (cs : list (Z * list Z)) : list (Z * list Z) :=
  rev (drop_space (rev (drop_space cs))).
Definition join_chunks (cs : list (Z * list Z)) : list Z := cs ≫= snd.
Definition trim_space (s : string) : string :=
  string_of_bytes (join_chunks (trim_chunks (chunks (bytes s)))).

(** [unicode.IsControl]. *)
Definition is_control (r : Z) : bool :=
  ((0 <=? r) && (r <=? 31)) || ((127 <=? r) && (r <=? 159)).

(** [unicode.ToLower] and [strings.ToLower]. *)
Definition lower_rune (r : Z) : Z :=
  if r <? 128 then if (65 <=? r) && (r <=? 90) then r + 32 else r
  else lower_in_ranges r.
Definition to_lower (s : string) : string :=
  string_of_runes (lower_rune <$> runes s).

(** * Decimal printing and length-prefixed keys *)

(** [strconv.Itoa]. *)
Definition itoa (z : Z) : string := NilZero.string_of_int (Z.to_int z).
Definition itoa_nat (n : nat) : string := NilEmpty.string_of_uint (Nat.to_uint n).

(** One field of a composite key: its length in decimal, a colon, its bytes. *)
Definition len_prefixed (p : string) : string :=
  (itoa_nat (String.length p) ++ ":" ++ p)%string.
Fixpoint len_prefixed_all (ps : list string) : string :=
  match ps with
  | [] => ""%string
  | p :: ps' => (len_prefixed p ++ len_prefixed_all ps')%string
  end.

(** * Decoding: one step, and what it depends on *)

Lemma rune_width_bounds l :
  l ≠ [] → (1 ≤ rune_width l ≤ length l)%nat.
Proof.
  destruct l as [|a [|b [|c [|d l]]]]; simpl; intros; try done;
    repeat case_match; simpl; lia.
Qed.

Lemma chunks_step l :
  l ≠ [] →
  chunks l = (head_rune l, take (rune_width l) l) :: chunks (drop (rune_width l) l).
Proof.
  destruct l as [|a l]; [done|]; intros _.
  pose proof (rune_width_bounds (a :: l) ltac:(done)) as Hw.
  unfold head_rune. cbn [chunks].
  destruct (rune_width (a :: l)) as [|[|[|[|[|n]]]]] eqn:E.
  - lia.
  - done.
  - by destruct l as [|b l]; simpl in *; [lia|].
  - by destruct l as [|b [|c l]]; simpl in *; [lia..|].
  - by destruct l as [|b [|c [|d l]]]; simpl in *; [lia..|].
  - exfalso. clear Hw. revert E. unfold rune_width. repeat case_match; lia.
Qed.

(** Strong induction along the decoding steps. *)
Lemma chunks_ind (P : list Z → Prop) :
  P [] → (∀ l, l ≠ [] → P (drop (rune_width l) l) → P l) → ∀ l, P l.
Proof.
  intros Hnil Hstep l. remember (length l) as n eqn:Hn.
  revert l Hn. induction n as [n IH] using lt_wf_ind; intros l ->.
  destruct (decide (l = [])) as [->|Hl]; [done|].
  apply Hstep; [done|]. eapply IH; [|done].
  pose proof (rune_width_bounds l Hl). rewrite length_drop. lia.
Qed.

Lemma chunks_nil_inv l : chunks l = [] → l = [].
Proof. destruct l as [|a l]; [done|]. by rewrite chunks_step. Qed.

Lemma join_chunks_cons c cs : join_chunks (c :: cs) = c.2 ++ join_chunks cs.
Proof. done. Qed.

Lemma join_chunks_app cs1 cs2 :
  join_chunks (cs1 ++ cs2) = join_chunks cs1 ++ join_chunks cs2.
Proof. unfold join_chunks. by rewrite bind_app. Qed.

(** Decoding loses no byte. *)
Lemma chunks_join l : join_chunks (chunks l) = l.
Proof.
  induction l as [|l Hl IH] using chunks_ind; [done|].
  rewrite chunks_step by done. rewrite join_chunks_cons, IH. apply take_drop.
Qed.

Lemma rune_width_prefix l k :
  (2 ≤ rune_width l)%nat → rune_width (l ++ k) = rune_width l.
Proof.
  destruct l as [|a [|b [|c [|d l]]]]; cbn; try lia;
    repeat (case_match; cbn; try lia).
Qed.

Lemma rune_width_take l n :
  l ≠ [] → (rune_width l ≤ n)%nat → rune_width (take n l) = rune_width l.
Proof.
  intros Hl Hn. pose proof (rune_width_bounds l Hl).
  assert (take n l ≠ []) as Hne by (destruct l, n; simpl in *; [done|done|lia|done]).
  pose proof (rune_width_bounds _ Hne) as Hb.
  destruct (decide (2 ≤ rune_width (take n l))%nat) as [H2|H2].
  { rewrite <- (rune_width_prefix (take n l) (drop n l)) by done.
    by rewrite take_drop. }
  destruct (decide (rune_width l = 1%nat)) as [->|H1]; [lia|].
  exfalso. apply H2. clear H2 Hb.
  destruct l as [|a [|b [|c [|d l]]]]; cbn in *; try lia;
  destruct n as [|[|[|[|n]]]]; cbn in *; repeat (case_match; cbn in *; try lia).
Qed.

Lemma head_rune_take l n :
  l ≠ [] → (rune_width l ≤ n)%nat → head_rune (take n l) = head_rune l.
Proof.
  intros Hl Hn. unfold head_rune. rewrite rune_width_take by done.
  by rewrite take_take, Nat.min_l by lia.
Qed.

(** Re-decoding a suffix or a prefix of the chunks gives the same chunks back. *)
Lemma chunks_suffix l cs1 cs2 :
  chunks l = cs1 ++ cs2 → chunks (join_chunks cs2) = cs2.
Proof.
  revert l. induction cs1 as [|c cs1 IH]; simpl; intros l H.
  { by rewrite <- H, chunks_join. }
  destruct (decide (l = [])) as [->|Hl]; [done|].
  rewrite chunks_step in H by done. simplify_eq. eauto.
Qed.

Lemma chunks_prefix l cs1 cs2 :
  chunks l = cs1 ++ cs2 → chunks (join_chunks cs1) = cs1.
Proof.
  revert cs1. induction l as [|l Hl IH] using chunks_ind; intros cs1 H.
  { by destruct cs1. }
  destruct cs1 as [|c cs1]; [done|].
  rewrite chunks_step in H by done. simpl in H. injection H as <- H.
  pose proof (rune_width_bounds l Hl) as Hw.
  assert (l = take (rune_width l) l ++ join_chunks cs1 ++ join_chunks cs2) as Hsplit.
  { rewrite <- join_chunks_app, <- H, chunks_join. symmetry. apply take_drop. }
  set (w := rune_width l) in *.
  assert (join_chunks ((head_rune l, take w l) :: cs1)
            = take (w + length (join_chunks cs1)) l) as Hjoin.
  { rewrite join_chunks_cons. simpl. rewrite Hsplit at 2.
    rewrite app_assoc, take_app_length'; [done|].
    rewrite length_app, length_take. lia. }
  rewrite Hjoin. rewrite chunks_step.
  2:{ intros E. apply (f_equal length) in E. rewrite length_take in E. simpl in E. lia. }
  rewrite rune_width_take, head_rune_take by (done || lia). fold w.
  rewrite take_take, Nat.min_l by lia. f_equal.
  rewrite skipn_firstn_comm. replace (w + length (join_chunks cs1) - w)%nat
    with (length (join_chunks cs1)) by lia.
  rewrite Hsplit, drop_app_length' by (rewrite length_take; lia).
  rewrite take_app_length. eauto.
Qed.

(** * Bytes and strings *)

Lemma byte_val_range a : 0 ≤ byte_val a < 256.
Proof.
  unfold byte_val. pose proof (N_ascii_bounded a). lia.
Qed.

Lemma byte_of_val a : byte_of (byte_val a) = a.
Proof. unfold byte_of, byte_val. rewrite N2Z.id. apply ascii_N_embedding. Qed.

Lemma byte_val_of z : 0 ≤ z < 256 → byte_val (byte_of z) = z.
Proof.
  intros. unfold byte_of, byte_val. rewrite N_ascii_embedding by lia. lia.
Qed.

Lemma bytes_of_list l :
  Forall (λ z, 0 ≤ z < 256) l → bytes (string_of_bytes l) = l.
Proof.
  unfold string_of_bytes. induction 1 as [|z l Hz _ IH]; [done|].
  cbn. rewrite byte_val_of by done. by f_equal.
Qed.

Lemma string_of_bytes_bytes s : string_of_bytes (bytes s) = s.
Proof.
  unfold string_of_bytes. induction s as [|a s IH]; [done|].
  cbn. rewrite byte_of_val. by f_equal.
Qed.

Lemma bytes_inj s t : bytes s = bytes t → s = t.
Proof. intros H. by rewrite <- (string_of_bytes_bytes s), H, string_of_bytes_bytes. Qed.

Lemma bytes_app s t : bytes (s ++ t) = bytes s ++ bytes t.
Proof. induction s as [|a s IH]; [done|]. simpl. by rewrite IH. Qed.

Lemma bytes_range s : Forall (λ z, 0 ≤ z < 256) (bytes s).
Proof. induction s; simpl; constructor; auto using byte_val_range. Qed.

Lemma bytes_length s : length (bytes s) = String.length s.
Proof. induction s; simpl; auto. Qed.

(** * Trimming *)

Lemma drop_space_suffix cs : ∃ k, cs = k ++ drop_space cs.
Proof.
  induction cs as [|c cs [k IH]]; simpl; [by exists []|].
  case_match; [|by exists []]. exists (c :: k). simpl. by f_equal.
Qed.

Lemma drop_space_fix cs :
  match cs with c :: _ => is_space c.1 = false | [] => True end → drop_space cs = cs.
Proof. destruct cs as [|c cs]; simpl; [done|]. by intros ->. Qed.

Lemma drop_space_head cs :
  match drop_space cs with c :: _ => is_space c.1 = false | [] => True end.
Proof. induction cs as [|c cs IH]; simpl; [done|]. by destruct (is_space c.1) eqn:?. Qed.

Lemma trim_chunks_middle cs : ∃ k1 k2, cs = k1 ++ trim_chunks cs ++ k2.
Proof.
  unfold trim_chunks. destruct (drop_space_suffix cs) as [k1 H1].
  destruct (drop_space_suffix (rev (drop_space cs))) as [k2 H2].
  exists k1, (rev k2). rewrite H1 at 1. f_equal.
  rewrite <- rev_app_distr, <- H2. by rewrite rev_involutive.
Qed.

Lemma trim_chunks_idem cs : trim_chunks (trim_chunks cs) = trim_chunks cs.
Proof.
  unfold trim_chunks.
  set (l := drop_space cs). set (r := drop_space (rev l)).
  assert (drop_space (rev r) = rev r) as ->.
  { apply drop_space_fix.
    destruct (drop_space_suffix (rev l)) as [k Hk]. fold r in Hk.
    assert (l = rev r ++ rev k) as Hl
      by (rewrite <- rev_app_distr, <- Hk; by rewrite rev_involutive).
    destruct (rev r) as [|c r'] eqn:E; [done|].
    pose proof (drop_space_head cs) as Hh. fold l in Hh. by rewrite Hl in Hh. }
  rewrite rev_involutive.
  by rewrite (drop_space_fix r) by (unfold r; apply drop_space_head).
Qed.

Lemma chunks_trim l :
  chunks (join_chunks (trim_chunks (chunks l))) = trim_chunks (chunks l).
Proof.
  destruct (trim_chunks_middle (chunks l)) as (k1 & k2 & H).
  eapply chunks_prefix, chunks_suffix. exact H.
Qed.

Lemma trim_bytes_range s :
  Forall (λ z, 0 ≤ z < 256) (join_chunks (trim_chunks (chunks (bytes s)))).
Proof.
  destruct (trim_chunks_middle (chunks (bytes s))) as (k1 & k2 & H).
  pose proof (bytes_range s) as Hr. rewrite <- (chunks_join (bytes s)), H in Hr.
  rewrite !join_chunks_app, !Forall_app in Hr. tauto.
Qed.

(** [strings.TrimSpace] is idempotent, also on ill-formed UTF-8. *)
Lemma trim_space_idem s : trim_space (trim_space s) = trim_space s.
Proof.
  unfold trim_space. rewrite bytes_of_list by apply trim_bytes_range.
  by rewrite chunks_trim, trim_chunks_idem.
Qed.

(** * Encoding and decoding *)

Lemma scalar_spec r :
  scalar r = true ↔ (0 ≤ r < 55296 ∨ 57343 < r ≤ 1114111).
Proof. unfold scalar. rewrite orb_true_iff, !andb_true_iff, !Z.ltb_lt, !Z.leb_le. lia. Qed.

Lemma encode_rune_range r : Forall (λ z, 0 ≤ z < 256) (encode_rune r).
Proof.
  assert (∀ q, scalar q = true → Forall (λ z, 0 ≤ z < 256) (encode_scalar q)) as Hs.
  { intros q Hq%scalar_spec. unfold encode_scalar.
    repeat case_match; bool_prop; rewrite !Forall_cons; split_and!; done || divlia. }
  unfold encode_rune. destruct (scalar r) eqn:E; [auto|by apply Hs].
Qed.

(** Decoding the bytes of a scalar gives the scalar back, whatever follows. *)
Lemma chunks_encode r l :
  scalar r = true → chunks (encode_scalar r ++ l) = (r, encode_scalar r) :: chunks l.
Proof.
  intros Hr%scalar_spec. rewrite chunks_step.
  2:{ unfold encode_scalar. by repeat case_match. }
  enough (rune_width (encode_scalar r ++ l) = length (encode_scalar r)
          ∧ head_rune (encode_scalar r ++ l) = r) as [Hw ->].
  { by rewrite Hw, take_app_length, drop_app_length. }
  unfold head_rune.
  enough (rune_width (encode_scalar r ++ l) = length (encode_scalar r)) as Hw.
  { split; [done|]. rewrite Hw, take_app_length. clear Hw.
    unfold encode_scalar, rune1, rune2, rune3, rune4 in *.
    repeat case_match; simplify_eq; bool_prop; divlia. }
  unfold encode_scalar.
  destruct (r <? 128) eqn:H1; [|destruct (r <? 2048) eqn:H2;
    [|destruct (r <? 65536) eqn:H3]]; bool_prop; cbn.
  all: unfold cont, second_ok.
  all: repeat case_match; bool_prop; unfold cont in *; try done; try divlia.
Qed.

Lemma encode_rune_scalar r : scalar r = true → encode_rune r = encode_scalar r.
Proof. unfold encode_rune. by intros ->. Qed.

Lemma chunks_encode_all rs :
  forallb scalar rs = true → (chunks (rs ≫= encode_rune)).*1 = rs.
Proof.
  induction rs as [|r rs IH]; [done|]. cbn. intros [Hr Hrs]%andb_true_iff.
  rewrite encode_rune_scalar, chunks_encode by done. cbn. f_equal. by apply IH.
Qed.

(** [[]rune(string(rs))] is [rs] for a sequence of Unicode scalar values. *)
Lemma runes_of_string_of_runes rs :
  forallb scalar rs = true → runes (string_of_runes rs) = rs.
Proof.
  intros. unfold runes, string_of_runes. rewrite bytes_of_list.
  - by apply chunks_encode_all.
  - apply Forall_bind. apply Forall_true. intros. apply encode_rune_range.
Qed.

(** A well-formed step re-encodes to the bytes it was decoded from. *)
Lemma encode_by_range r bs :
  scalar r = true →
  bs = (if r <? 128 then [r]
        else if r <? 2048 then [192 + r `div` 64; 128 + r `mod` 64]
        else if r <? 65536 then
          [224 + r `div` 4096; 128 + (r `div` 64) `mod` 64; 128 + r `mod` 64]
        else [240 + r `div` 262144; 128 + (r `div` 4096) `mod` 64;
              128 + (r `div` 64) `mod` 64; 128 + r `mod` 64]) →
  encode_rune r = bs.
Proof. intros Hr ->. by rewrite encode_rune_scalar. Qed.

Lemma encode_rune1 a : 0 ≤ a < 128 → encode_rune a = [a].
Proof.
  intros. apply encode_by_range; [apply scalar_spec; lia|].
  by destruct (Z.ltb_spec a 128); [|lia].
Qed.

Lemma encode_rune2 a b :
  (194 <=? a) && (a <=? 223) && cont b = true → encode_rune (rune2 a b) = [a; b].
Proof.
  unfold cont, rune2. intros; bool_prop.
  apply encode_by_range; [apply scalar_spec; lia|].
  repeat (case_match; bool_prop; try lia); repeat f_equal; divlia.
Qed.

Lemma encode_rune3 a b c :
  (224 <=? a) && (a <=? 239) && second_ok a b && cont c = true →
  encode_rune (rune3 a b c) = [a; b; c].
Proof.
  unfold second_ok, cont, rune3. intros; bool_prop.
  assert (128 ≤ b ≤ 191 ∧ (a = 224 → 160 ≤ b) ∧ (a = 237 → b ≤ 159))
    by (repeat case_match; bool_prop; lia).
  apply encode_by_range; [apply scalar_spec; lia|].
  repeat (case_match; bool_prop; try lia); repeat f_equal; divlia.
Qed.

Lemma encode_rune4 a b c d :
  (240 <=? a) && (a <=? 244) && second_ok a b && cont c && cont d = true →
  encode_rune (rune4 a b c d) = [a; b; c; d].
Proof.
  unfold second_ok, cont, rune4. intros; bool_prop.
  assert (128 ≤ b ≤ 191 ∧ (a = 240 → 144 ≤ b) ∧ (a = 244 → b ≤ 143))
    by (repeat case_match; bool_prop; lia).
  apply encode_by_range; [apply scalar_spec; lia|].
  repeat (case_match; bool_prop; try lia); repeat f_equal; divlia.
Qed.

Lemma encode_head_rune l :
  l ≠ [] → Forall (λ z, 0 ≤ z < 256) l →
  (head_rune l =? rune_error) && (Nat.eqb (rune_width l) 1) = false →
  encode_rune (head_rune l) = take (rune_width l) l.
Proof.
  intros Hne Hl Hok.
  assert (H1 : ∀ a, 0 ≤ a < 256 → (rune1 a =? rune_error) && true = false →
                    encode_rune (rune1 a) = [a]).
  { unfold rune1. intros a Ha ?. case_match; bool_prop; [|done].
    apply encode_rune1. lia. }
  destruct l as [|a [|b [|c [|d l]]]]; [done|..];
    rewrite ?Forall_cons in Hl; unfold head_rune in *; cbn [rune_width] in *;
    repeat (case_match; cbn [take Nat.eqb] in *; simplify_eq);
    auto using encode_rune2, encode_rune3, encode_rune4; apply H1; tauto.
Qed.

(** [string([]rune(s))] is [s] exactly when it is lossless: on well-formed UTF-8. *)
Lemma string_of_runes_of_string s :
  valid_utf8 s = true → string_of_runes (runes s) = s.
Proof.
  unfold valid_utf8, string_of_runes, runes. intros Hv.
  rewrite <- (string_of_bytes_bytes s) at 2. f_equal.
  pose proof (bytes_range s) as Hr. revert Hv Hr. generalize (bytes s) as l.
  induction l as [|l Hl IH] using chunks_ind; [done|].
  rewrite chunks_step by done. cbn [forallb fmap list_fmap fst snd].
  intros [Hh Ht]%andb_true_iff Hr. apply negb_true_iff in Hh.
  rewrite bind_cons.
  rewrite encode_head_rune, IH; [by rewrite take_drop|done|by apply Forall_drop|done..|].
  pose proof (rune_width_bounds l Hl). by rewrite length_take, Nat.min_l in Hh by lia.
Qed.

(** * Length-prefixed keys are unambiguous *)

Lemma string_app_nil_r (s : string) : (s ++ "")%string = s.
Proof. induction s as [|a s IH]; [done|]. change (String a (s ++ "")%string = String a s). by rewrite IH. Qed.

Lemma string_app_inj_length (s1 s2 r1 r2 : string) :
  String.length s1 = String.length s2 →
  (s1 ++ r1 = s2 ++ r2)%string → s1 = s2 ∧ r1 = r2.
Proof.
  revert s2. induction s1 as [|a s1 IH]; intros [|b s2]; simpl; intros; try done.
  simplify_eq. by destruct (IH s2) as [-> ->].
Qed.

(** * NUL-free strings *)

Definition nul : string := String Ascii.zero "".
Fixpoint nul_free (s : string) : bool :=
  match s with
  | EmptyString => true
  | String a s' => negb (Ascii.eqb a Ascii.zero) && nul_free s'
  end.

(** A NUL ends a NUL-free prefix. *)
Lemma nul_split_inj (a b x y : string) :
  nul_free a = true → nul_free b = true →
  (a ++ String Ascii.zero x = b ++ String Ascii.zero y)%string → a = b ∧ x = y.
Proof.
  revert b. induction a as [|c a IH]; intros [|d b] H1 H2 Heq; cbn in Heq.
  - by simplify_eq.
  - injection Heq as <- _. done.
  - injection Heq as -> _. done.
  - injection Heq as <- Heq. simpl in H1, H2. bool_prop. by destruct (IH b) as [-> ->].
Qed.

Lemma nul_free_bytes s : 0 ∉ bytes s → nul_free s = true.
Proof.
  induction s as [|a s IH]; [done|]. simpl. intros [Ha Hs]%not_elem_of_cons.
  rewrite IH by done. rewrite andb_true_r. apply negb_true_iff, Ascii.eqb_neq. by intros ->.
Qed.

(** The byte 0 is always a rune of its own. *)
Lemma zero_byte_rune l : 0 ∈ l → 0 ∈ (chunks l).*1.
Proof.
  induction l as [|l Hl IH] using chunks_ind; [done|]. rewrite chunks_step by done. simpl.
  rewrite <- (take_drop (rune_width l) l) at 1. intros [H|H]%elem_of_app; apply elem_of_cons; [left|right; auto].
  clear IH. unfold head_rune, rune_width in *. destruct l as [|a [|b [|c [|d l]]]]; simpl in *; try done;
    repeat (case_match; simpl in * ); unfold cont, second_ok in *;
    repeat (apply elem_of_cons in H as [<-|H]; [done || (exfalso; bool_prop; repeat case_match; bool_prop; done || lia)|]);
    by apply elem_of_nil in H.
Qed.

Lemma control_free_nul_free s : existsb is_control (runes s) = false → nul_free s = true.
Proof.
  intros H. apply nul_free_bytes. intros H0%zero_byte_rune. apply not_true_iff_false in H. apply H.
  apply existsb_exists. exists 0. split; [by apply list_elem_of_In|done].
Qed.

Lemma uint_colon_inj d1 d2 s1 s2 :
  (NilEmpty.string_of_uint d1 ++ ":" ++ s1 = NilEmpty.string_of_uint d2 ++ ":" ++ s2)%string →
  d1 = d2 ∧ s1 = s2.
Proof.
  revert d2. induction d1; intros d2 H; destruct d2; simpl in H; simplify_eq;
    try (by split); by destruct (IHd1 _ H) as [-> ->].
Qed.

Lemma string_app_assoc (a b c : string) : ((a ++ b) ++ c = a ++ b ++ c)%string.
Proof. induction a as [|x a IH]; [done|]. exact (f_equal (String x) IH). Qed.

Lemma len_prefixed_app_inj p q r1 r2 :
  (len_prefixed p ++ r1 = len_prefixed q ++ r2)%string → p = q ∧ r1 = r2.
Proof.
  unfold len_prefixed, itoa_nat. rewrite !string_app_assoc. intros H.
  apply uint_colon_inj in H as [Hd H].
  apply DecimalNat.Unsigned.to_uint_inj in Hd.
  by apply string_app_inj_length in H.
Qed.

Lemma len_prefixed_ne p r : (len_prefixed p ++ r)%string ≠ ""%string.
Proof.
  unfold len_prefixed. destruct (itoa_nat (String.length p)); discriminate.
Qed.

(** The composite keys built field by field determine the fields. *)
Lemma len_prefixed_all_inj ps qs : len_prefixed_all ps = len_prefixed_all qs → ps = qs.
Proof.
  revert qs. induction ps as [|p ps IH]; intros [|q qs]; simpl; intros H; try done.
  - symmetry in H. by apply len_prefixed_ne in H.
  - by apply len_prefixed_ne in H.
  - apply len_prefixed_app_inj in H as [-> ?]. f_equal; auto.
Qed.

Lemma to_int_not_nil z : Z.to_int z ≠ Pos Nil ∧ Z.to_int z ≠ Neg Nil.
Proof.
  split; intros H; pose proof (DecimalZ.of_to z) as Hz; rewrite H in Hz;
    cbn in Hz; by subst.
Qed.

Lemma itoa_inj z1 z2 : itoa z1 = itoa z2 → z1 = z2.
Proof.
  unfold itoa. intros H%(f_equal NilZero.int_of_string).
  rewrite !NilZero.isi in H; [|apply to_int_not_nil..].
  apply DecimalZ.to_int_inj. by injection H.
Qed.

(** * ASCII text: one rune per byte, and when trimming and lowering leave it alone *)

Lemma chunks_ascii l : Forall (λ b, 0 ≤ b < 128) l → chunks l = (λ b, (b, [b])) <$> l.
Proof.
  induction 1 as [|b l Hb Hl IH]; [done|].
  rewrite chunks_step by done. assert (rune_width (b :: l) = 1%nat) as Hw.
  { unfold rune_width. destruct l as [|c [|d [|e l]]]; try done;
      rewrite (proj2 (Z.leb_gt 194 b)) by lia; simpl; try done;
      rewrite (proj2 (Z.leb_gt 224 b)) by lia; simpl; try done;
      rewrite (proj2 (Z.leb_gt 240 b)) by lia; done. }
  unfold head_rune. rewrite Hw. cbn [take drop]. rewrite drop_0, IH. unfold rune1.
  by rewrite (proj2 (Z.ltb_lt b 128)) by lia.
Qed.

Lemma runes_ascii s : Forall (λ b, 0 ≤ b < 128) (bytes s) → runes s = bytes s.
Proof.
  intros H. unfold runes. rewrite chunks_ascii by done.
  induction (bytes s) as [|b l IH]; [done|]. inversion H; subst. simpl. by f_equal; auto.
Qed.

Lemma bytes_string l : bytes (string_of_list_ascii l) = byte_val <$> l.
Proof. induction l as [|c l IH]; [done|]. simpl. by rewrite IH. Qed.

Lemma length_string_of_list l : String.length (string_of_list_ascii l) = length l.
Proof. induction l as [|c l IH]; [done|]. simpl. by rewrite IH. Qed.

Lemma drop_space_none cs : Forall (λ c, is_space c.1 = false) cs → drop_space cs = cs.
Proof. intros H. apply drop_space_fix. by destruct H. Qed.

Lemma trim_space_id s :
  Forall (λ b, 0 ≤ b < 128 ∧ is_space b = false) (bytes s) → trim_space s = s.
Proof.
  intros H. unfold trim_space. rewrite chunks_ascii by (eapply Forall_impl; [done|]; by intros ? []).
  unfold trim_chunks.
  assert (Forall (λ c : Z * list Z, is_space c.1 = false) ((λ b, (b, [b])) <$> bytes s)) as Hs.
  { apply Forall_fmap. eapply Forall_impl; [done|]. by intros ? []. }
  rewrite (drop_space_none (_ <$> _)) by done. rewrite (drop_space_none (rev _)) by (by apply Forall_rev).
  rewrite rev_involutive. rewrite <- (string_of_bytes_bytes s) at 2. f_equal.
  unfold join_chunks. generalize (bytes s) as l. induction l as [|b l IH]; [done|].
  by rewrite fmap_cons, bind_cons, IH.
Qed.

Lemma to_lower_id s :
  Forall (λ b, 0 ≤ b < 128 ∧ lower_rune b = b) (bytes s) → to_lower s = s.
Proof.
  intros H. assert (Forall (λ b, 0 ≤ b < 128) (bytes s)) as Ha
    by (eapply Forall_impl; [done|]; by intros ? []).
  unfold to_lower. rewrite <- (string_of_runes_of_string s) at 2.
  - f_equal. rewrite runes_ascii by done. induction H as [|b l [_ Hb] _ IH]; [done|].
    inversion Ha; subst. cbn [fmap list_fmap]. by rewrite Hb, IH.
  - unfold valid_utf8. rewrite chunks_ascii by done. apply forallb_forall.
    intros c Hc%list_elem_of_In. apply list_elem_of_fmap in Hc as (b & -> & Hb).
    rewrite Forall_forall in Ha. specialize (Ha _ Hb). unfold rune_error. simpl.
    by rewrite (proj2 (Z.eqb_neq b 65533)) by lia.
Qed.

(** Conversely, only ASCII bytes decode to ASCII runes. *)
Lemma head_rune_ascii l :
  l ≠ [] → head_rune l < 128 → take (rune_width l) l = [head_rune l].
Proof.
  intros Hl. unfold head_rune, rune_width.
  destruct l as [|a [|b [|c [|d l]]]]; [done|..]; cbn [take];
    repeat (case_match; cbn [take]); unfold rune1, rune2, rune3, rune4, rune_error, cont, second_ok in *;
    simplify_eq/=; bool_prop; intros; repeat case_match; unfold cont in *; bool_prop; try done; lia.
Qed.

Lemma runes_ascii_bytes s : Forall (λ r, r < 128) (runes s) → runes s = bytes s.
Proof.
  unfold runes. generalize (bytes s) as l. intros l.
  induction l as [|l Hl IH] using chunks_ind; [done|]. rewrite chunks_step by done. cbn.
  intros [Hh Ht]%Forall_cons. rewrite (IH Ht).
  transitivity (take (rune_width l) l ++ drop (rune_width l) l); [by rewrite head_rune_ascii|apply take_drop].
Qed.

Lemma string_of_runes_app a b : string_of_runes (a ++ b) = (string_of_runes a ++ string_of_runes b)%string.
Proof.
  unfold string_of_runes, string_of_bytes. rewrite bind_app, fmap_app.
  induction (byte_of <$> (a ≫= encode_rune)) as [|x l IH]; [done|]. simpl. by rewrite IH.
Qed.

Lemma head_rune_scalar l : l ≠ [] → Forall (λ z, 0 ≤ z < 256) l → scalar (head_rune l) = true.
Proof.
  intros Hne Hl. destruct ((head_rune l =? rune_error) && (Nat.eqb (rune_width l) 1)) eqn:E.
  { apply andb_true_iff in E as [->%Z.eqb_eq _]. done. }
  apply scalar_spec. destruct l as [|a [|b [|c [|d l]]]]; [done|..];
    rewrite ?Forall_cons in Hl; unfold head_rune, rune_width, second_ok, cont in *;
    repeat (case_match; cbn [take] in *; simplify_eq);
    unfold rune1, rune2, rune3, rune4, rune_error in *; repeat case_match; bool_prop; lia.
Qed.
