(* ===== verification/GoURL.v ===== *)
(** The package [net/url] of the Go standard library: parsing, percent encoding and printing of
    URLs, with the searching and splitting of byte strings it is written in.

    The main results are about canonical text: percent decoding undoes percent encoding, and
    a URL built from a scheme, a host of plain characters and an escaped path is read back by
    the parser as the same scheme, host and path, with no user, query or fragment. *)
From Stdlib Require Import Ascii String DecimalString Decimal.
From S2P Require Import Prelude GoStrings.
Local Open Scope Z_scope.

(** * Searching byte strings *)

(** [strings.IndexByte(s, c) >= 0], and the first and last occurrence of a byte as the text
    before it and the text behind it ([strings.Cut], [strings.LastIndex]). *)
Definition has_byte (c : Z) (s : string) : bool := existsb (Z.eqb c) (bytes s).

Fixpoint cut (c : Z) (s : string) : string * option string :=
  match s with
  | EmptyString => (EmptyString, None)
  | String a s' =>
      if byte_val a =? c then (EmptyString, Some s')
      else let '(before, behind) := cut c s' in (String a before, behind)
  end.

Fixpoint cut_last (c : Z) (s : string) : option (string * string) :=
  match s with
  | EmptyString => None
  | String a s' =>
      match cut_last c s' with
      | Some (before, behind) => Some (String a before, behind)
      | None => if byte_val a =? c then Some (EmptyString, s') else None
      end
  end.

(** [strings.Split(s, string(c))], [strings.Count(s, string(c))], [strings.TrimSuffix] by one
    byte and the removal of every byte of a class. *)
Fixpoint split (c : Z) (s : string) : list string :=
  match s with
  | EmptyString => [EmptyString]
  | String a s' =>
      if byte_val a =? c then EmptyString :: split c s'
      else match split c s' with
      | part :: parts => String a part :: parts
      | [] => [String a EmptyString]
      end
  end.

Definition count_byte (c : Z) (s : string) : nat := length (filter (λ b, b = c) (bytes s)).

Fixpoint last_byte (s : string) : option Z :=
  match s with
  | EmptyString => None
  | String a EmptyString => Some (byte_val a)
  | String _ s' => last_byte s'
  end.

Fixpoint drop_last (s : string) : string :=
  match s with
  | EmptyString => EmptyString
  | String _ EmptyString => EmptyString
  | String a s' => String a (drop_last s')
  end.

Definition trim_suffix_byte (s : string) (c : Z) : string :=
  if match last_byte s with Some b => b =? c | None => false end then drop_last s else s.

Fixpoint remove_bytes (p : Z → bool) (s : string) : string :=
  match s with
  | EmptyString => EmptyString
  | String a s' => if p (byte_val a) then remove_bytes p s' else String a (remove_bytes p s')
  end.

Fixpoint replace_byte (c d : Z) (s : string) : string :=
  match s with
  | EmptyString => EmptyString
  | String a s' => String (if byte_val a =? c then byte_of d else a) (replace_byte c d s')
  end.

(** ** Facts about searching *)

Lemma has_byte_cons c a s : has_byte c (String a s) = (byte_val a =? c) || has_byte c s.
Proof. unfold has_byte. simpl. by rewrite Z.eqb_sym. Qed.

Lemma has_byte_app c s t : has_byte c (s ++ t) = has_byte c s || has_byte c t.
Proof. unfold has_byte. by rewrite bytes_app, existsb_app. Qed.

(** Every byte of [s] is in the class [p]. *)
Definition all_bytes (p : Z → bool) (s : string) : bool := forallb p (bytes s).

Lemma all_bytes_cons p a s : all_bytes p (String a s) = p (byte_val a) && all_bytes p s.
Proof. done. Qed.

Lemma all_bytes_app p s t : all_bytes p (s ++ t) = all_bytes p s && all_bytes p t.
Proof. unfold all_bytes. by rewrite bytes_app, forallb_app. Qed.

Lemma all_bytes_impl (p q : Z → bool) s :
  (∀ b, 0 ≤ b < 256 → p b = true → q b = true) → all_bytes p s = true → all_bytes q s = true.
Proof.
  intros Hpq. unfold all_bytes. rewrite !forallb_forall. intros H b Hb. apply Hpq; [|by apply H].
  pose proof (bytes_range s) as Hr. rewrite Forall_forall in Hr. by apply Hr, list_elem_of_In.
Qed.

Lemma all_bytes_absent p c s : all_bytes p s = true → p c = false → has_byte c s = false.
Proof.
  intros H Hc. apply not_true_is_false. intros Hb. apply existsb_exists in Hb as (b & Hin & ->%Z.eqb_eq).
  unfold all_bytes in H. rewrite forallb_forall in H. rewrite H in Hc; congruence.
Qed.

(** The parts of a split hold what the text holds besides the separator. *)
Lemma split_class (p : Z → bool) c s :
  Forall (λ part, all_bytes p part = true) (split c s) → all_bytes (λ b, p b || (b =? c)) s = true.
Proof.
  induction s as [|a s IH]; [done|]. cbn [split]. rewrite all_bytes_cons. destruct (byte_val a =? c) eqn:E.
  - intros [_ H]%Forall_cons. by rewrite orb_true_r, IH.
  - destruct (split c s) as [|part parts] eqn:Es.
    { destruct s as [|b s]; cbn in Es; [done|]. destruct (byte_val b =? c); [done|]. by destruct (split c s). }
    rewrite orb_false_r. intros [Ha H]%Forall_cons. rewrite all_bytes_cons in Ha. apply andb_true_iff in Ha as [-> Ha].
    apply IH. by apply Forall_cons.
Qed.

Lemma bytes_ends s : match s with
  | EmptyString => True
  | String a s' => bytes s = byte_val a :: bytes s' ∧ ∃ b, last_byte s = Some b ∧ bytes s = bytes (drop_last s) ++ [b]
  end.
Proof.
  destruct s as [|a s]; [done|]. split; [done|]. revert a. induction s as [|b s IH]; intros a; [by eexists|].
  destruct (IH b) as (c & Hc & Hb). exists c. split; [done|].
  change (byte_val a :: bytes (String b s) = byte_val a :: bytes (drop_last (String b s)) ++ [c]). by rewrite Hb.
Qed.

Lemma cut_absent c s : has_byte c s = false → cut c s = (s, None).
Proof.
  induction s as [|a s IH]; [done|]. rewrite has_byte_cons. intros [Ha Hs]%orb_false_iff.
  simpl. by rewrite Ha, IH.
Qed.

Lemma cut_app c s t :
  has_byte c s = false → 0 ≤ c < 256 → cut c (s ++ String (byte_of c) t) = (s, Some t).
Proof.
  intros Hs Hc. induction s as [|a s IH].
  - simpl. by rewrite byte_val_of, Z.eqb_refl.
  - rewrite has_byte_cons in Hs. apply orb_false_iff in Hs as [Ha Hs]. simpl. by rewrite Ha, IH.
Qed.

Lemma cut_spec c s x y :
  cut c s = (x, y) →
  has_byte c x = false
  ∧ match y with Some t => 0 ≤ c < 256 ∧ s = (x ++ String (byte_of c) t)%string | None => s = x end.
Proof.
  revert x y. induction s as [|a s IH]; intros x y H; simpl in H; [by simplify_eq|].
  destruct (byte_val a =? c) eqn:E; simplify_eq.
  - apply Z.eqb_eq in E as <-. split; [done|]. split; [apply byte_val_range|]. by rewrite byte_of_val.
  - destruct (cut c s) as [x' y'] eqn:Ec. simplify_eq. destruct (IH x' y eq_refl) as [Hx Hy].
    rewrite has_byte_cons, E, Hx. split; [done|]. destruct y; [destruct Hy as [? ->]|by subst]. done.
Qed.

Lemma cut_last_absent c s : has_byte c s = false → cut_last c s = None.
Proof.
  induction s as [|a s IH]; [done|]. rewrite has_byte_cons. intros [Ha Hs]%orb_false_iff.
  simpl. by rewrite IH, Ha.
Qed.

Lemma cut_last_app c s t :
  has_byte c t = false → 0 ≤ c < 256 → cut_last c (s ++ String (byte_of c) t) = Some (s, t).
Proof.
  intros Ht Hc. induction s as [|a s IH]; simpl; [|by rewrite IH].
  by rewrite cut_last_absent, byte_val_of, Z.eqb_refl.
Qed.

Lemma cut_last_spec c s x y :
  cut_last c s = Some (x, y) →
  has_byte c y = false ∧ 0 ≤ c < 256 ∧ s = (x ++ String (byte_of c) y)%string.
Proof.
  revert x y. induction s as [|a s IH]; intros x y H; simpl in H; [done|].
  destruct (cut_last c s) as [[x' y']|] eqn:Ec; simplify_eq.
  { destruct (IH x' y eq_refl) as (Hy & Hc & ->). done. }
  destruct (byte_val a =? c) eqn:E; simplify_eq. apply Z.eqb_eq in E as <-. split_and!.
  - clear IH. induction y as [|b y IHy]; [done|]. simpl in Ec. rewrite has_byte_cons.
    destruct (cut_last _ y) as [[]|]; [done|]. destruct (byte_val b =? byte_val a); [done|]. by apply IHy.
  - apply byte_val_range.
  - apply byte_val_range.
  - simpl. by rewrite byte_of_val.
Qed.

(** * Percent encoding *)

(** The components of a URL with an escaping rule of their own; path segments and query
    components are not used in this repository. *)
Inductive encoding := encodePath | encodeHost | encodeZone | encodeUserPassword | encodeFragment.
#[export] Instance encoding_eq_dec : EqDecision encoding.
Proof. solve_decision. Defined.

Definition is_digit (c : Z) : bool := (48 <=? c) && (c <=? 57).
Definition is_lower (c : Z) : bool := (97 <=? c) && (c <=? 122).
Definition is_upper (c : Z) : bool := (65 <=? c) && (c <=? 90).
Definition is_alnum (c : Z) : bool := is_lower c || is_upper c || is_digit c.
Definition one_of_bytes (l : list Z) (c : Z) : bool := existsb (Z.eqb c) l.

Definition ishex (c : Z) : bool :=
  is_digit c || ((97 <=? c) && (c <=? 102)) || ((65 <=? c) && (c <=? 70)).
Definition unhex (c : Z) : Z :=
  if is_digit c then c - 48
  else if (97 <=? c) && (c <=? 102) then c - 97 + 10
  else if (65 <=? c) && (c <=? 70) then c - 65 + 10 else 0.

(** The bytes written as they are: [! $ & ' ( ) * + , ; = : [ ] < >] and the double quote in
    a host, [- _ . ~] everywhere, and of [$ & + , / : ; = ? @] what the component allows. *)
Definition shouldEscape (c : Z) (mode : encoding) : bool :=
  if is_alnum c then false
  else if (bool_decide (mode = encodeHost) || bool_decide (mode = encodeZone))
    && one_of_bytes [33; 36; 38; 39; 40; 41; 42; 43; 44; 59; 61; 58; 91; 93; 60; 62; 34] c then false
  else if one_of_bytes [45; 95; 46; 126] c then false
  else if one_of_bytes [36; 38; 43; 44; 47; 58; 59; 61; 63; 64] c
    && negb (bool_decide (mode = encodeHost) || bool_decide (mode = encodeZone)) then
    match mode with
    | encodePath => c =? 63
    | encodeUserPassword => one_of_bytes [64; 47; 63; 58] c
    | _ => false
    end
  else if bool_decide (mode = encodeFragment) && one_of_bytes [33; 40; 41; 42] c then false
  else true.

Fixpoint unescape (mode : encoding) (s : string) : option string :=
  match s with
  | EmptyString => Some EmptyString
  | String a s' =>
      if byte_val a =? 37 then
        match s' with
        | String x (String y rest) =>
            let x := byte_val x in let y := byte_val y in
            let v := unhex x * 16 + unhex y in
            let percent := (x =? 50) && (y =? 53) in
            if negb (ishex x) || negb (ishex y) then None
            else if bool_decide (mode = encodeHost) && (unhex x <? 8) && negb percent then None
            else if bool_decide (mode = encodeZone) && negb percent && negb (v =? 32)
              && shouldEscape v encodeHost then None
            else rest' ← unescape mode rest; Some (String (byte_of v) rest')
        | _ => None
        end
      else if (bool_decide (mode = encodeHost) || bool_decide (mode = encodeZone))
        && (byte_val a <? 128) && shouldEscape (byte_val a) mode then None
      else rest' ← unescape mode s'; Some (String a rest')
  end.

Definition upper_hex (d : Z) : ascii := byte_of (if d <? 10 then 48 + d else 55 + d).

Fixpoint escape (s : string) (mode : encoding) : string :=
  match s with
  | EmptyString => EmptyString
  | String a s' =>
      if shouldEscape (byte_val a) mode
      then String (byte_of 37) (String (upper_hex (byte_val a / 16))
             (String (upper_hex (byte_val a mod 16)) (escape s' mode)))
      else String a (escape s' mode)
  end.

(** [! $ & ' ( ) * + , ; = : @ [ ] %] may stand unescaped in an encoded component. *)
Definition validEncoded (s : string) (mode : encoding) : bool :=
  all_bytes (λ c, one_of_bytes [33; 36; 38; 39; 40; 41; 42; 43; 44; 59; 61; 58; 64; 91; 93; 37] c
    || negb (shouldEscape c mode)) s.

(** * [net/url] *)

(** A [*Userinfo]: the name and the password when one is set. *)
Definition Userinfo : Type := string * option string.

Record URL := mkURL {
  Scheme : string; OpaqueData : string; User : option Userinfo; Host : string; Path : string;
  RawPath : string; OmitHost : bool; ForceQuery : bool; RawQuery : string; Fragment : string;
  RawFragment : string }.

Definition with_host (u : URL) (host : string) : URL :=
  mkURL (Scheme u) (OpaqueData u) (User u) host (Path u) (RawPath u) (OmitHost u) (ForceQuery u)
    (RawQuery u) (Fragment u) (RawFragment u).
Definition with_scheme (u : URL) (scheme : string) : URL :=
  mkURL scheme (OpaqueData u) (User u) (Host u) (Path u) (RawPath u) (OmitHost u) (ForceQuery u)
    (RawQuery u) (Fragment u) (RawFragment u).
Definition with_fragment (u : URL) (fragment raw : string) : URL :=
  mkURL (Scheme u) (OpaqueData u) (User u) (Host u) (Path u) (RawPath u) (OmitHost u) (ForceQuery u)
    (RawQuery u) fragment raw.

Definition contains_ctl (s : string) : bool := existsb (λ b, (b <? 32) || (b =? 127)) (bytes s).

(** [getScheme]: [None] is the error of a URL that starts with a colon. *)
Fixpoint scan_scheme (first : bool) (s : string) : option (option (string * string)) :=
  match s with
  | EmptyString => Some None
  | String a s' =>
      let c := byte_val a in
      let continue := match scan_scheme false s' with
        | Some (Some (scheme, rest)) => Some (Some (String a scheme, rest))
        | r => r
        end in
      if is_lower c || is_upper c then continue
      else if is_digit c || one_of_bytes [43; 45; 46] c then if first then Some None else continue
      else if c =? 58 then if first then None else Some (Some (EmptyString, s'))
      else Some None
  end.
Definition getScheme (rawURL : string) : option (string * string) :=
  match scan_scheme true rawURL with
  | None => None
  | Some None => Some (EmptyString, rawURL)
  | Some (Some r) => Some r
  end.

Definition validOptionalPort (port : string) : bool :=
  match port with
  | EmptyString => true
  | String a digits => (byte_val a =? 58) && all_bytes is_digit digits
  end.

(** [strings.Index(s, "%25")]: the text before the first occurrence and the text from it on. *)
Fixpoint cut_zone (s : string) : option (string * string) :=
  match s with
  | EmptyString => None
  | String a s' =>
      if has_prefix s "%25" then Some (EmptyString, s)
      else match cut_zone s' with
      | Some (before, from) => Some (String a before, from)
      | None => None
      end
  end.

Definition parseHost (host : string) : option string :=
  if has_prefix host "[" then
    match cut_last 93 host with
    | None => None
    | Some (inside, colonPort) =>
        if negb (validOptionalPort colonPort) then None
        else match cut_zone inside with
        | Some (address, zone) =>
            host1 ← unescape encodeHost address;
            host2 ← unescape encodeZone zone;
            host3 ← unescape encodeHost (String (byte_of 93) colonPort);
            Some (host1 ++ host2 ++ host3)%string
        | None => unescape encodeHost host
        end
    end
  else
    if match cut_last 58 host with
       | Some (_, port) => negb (validOptionalPort (String (byte_of 58) port))
       | None => false
       end
    then None else unescape encodeHost host.

(** The punctuation that may stand in user information. *)
Definition validUserinfo (s : string) : bool :=
  forallb (λ r, is_alnum r
    || one_of_bytes [45; 46; 95; 58; 126; 33; 36; 38; 39; 40; 41; 42; 43; 44; 59; 61; 37; 64] r) (runes s).

Definition parseAuthority (authority : string) : option (option Userinfo * string) :=
  match cut_last 64 authority with
  | None => host ← parseHost authority; Some (None, host)
  | Some (userinfo, hostText) =>
      host ← parseHost hostText;
      if negb (validUserinfo userinfo) then None
      else match cut 58 userinfo with
      | (username, None) =>
          username ← unescape encodeUserPassword username; Some (Some (username, None), host)
      | (username, Some password) =>
          username ← unescape encodeUserPassword username;
          password ← unescape encodeUserPassword password;
          Some (Some (username, Some password), host)
      end
  end.

(** [setPath] and [setFragment]: the decoded text, and the text as written when it is not the
    default encoding. *)
Definition set_encoded (mode : encoding) (p : string) : option (string * string) :=
  path ← unescape mode p;
  Some (path, if (p =? escape path mode)%string then EmptyString else p).

Definition has_suffix_byte (s : string) (c : Z) : bool :=
  match last_byte s with Some b => b =? c | None => false end.

(** The authority and path of a URL whose scheme and query have been split off. *)
Definition parse_hierarchy (scheme : string) (force : bool) (query rest : string) : option URL :=
  if (negb (scheme =? "")%string || negb (has_prefix rest "///")) && has_prefix rest "//" then
    let '(authority, tail) := cut 47 (drop_bytes 2 rest) in
    let rest := match tail with Some t => String (byte_of 47) t | None => EmptyString end in
    '(user, host) ← parseAuthority authority;
    '(path, raw) ← set_encoded encodePath rest;
    Some (mkURL scheme "" user host path raw false force query "" "")
  else
    '(path, raw) ← set_encoded encodePath rest;
    Some (mkURL scheme "" None "" path raw
      (negb (scheme =? "")%string && has_prefix rest "/") force query "" "").

Definition parse (rawURL : string) : option URL :=
  if contains_ctl rawURL then None
  else if (rawURL =? "*")%string
    then Some (mkURL "" "" None "" "*" "" false false "" "" "")
  else
    '(scheme, rest) ← getScheme rawURL;
    let scheme := to_lower scheme in
    let '(force, rest, query) :=
      if has_suffix_byte rest 63 && (count_byte 63 rest =? 1)%nat then (true, drop_last rest, ""%string)
      else match cut 63 rest with
      | (rest, None) => (false, rest, ""%string)
      | (rest, Some query) => (false, rest, query)
      end in
    if negb (has_prefix rest "/") && negb (scheme =? "")%string
    then Some (mkURL scheme rest None "" "" "" false force query "" "")
    else if negb (has_prefix rest "/") && has_byte 58 (cut 47 rest).1 then None
    else parse_hierarchy scheme force query rest.

Definition url_Parse (rawURL : string) : option URL :=
  let '(text, fragment) := cut 35 rawURL in
  u ← parse text;
  match fragment with
  | None => Some u
  | Some f =>
      if (f =? "")%string then Some u
      else '(fragment, raw) ← set_encoded encodeFragment f; Some (with_fragment u fragment raw)
  end.

Definition splitHostPort (hostPort : string) : string * string :=
  let '(host, port) := match cut_last 58 hostPort with
    | Some (h, p) => if validOptionalPort (String (byte_of 58) p) then (h, p) else (hostPort, ""%string)
    | None => (hostPort, ""%string)
    end in
  if has_prefix host "[" && has_suffix_byte host 93 then (drop_last (drop_bytes 1 host), port)
  else (host, port).
Definition Hostname (u : URL) : string := (splitHostPort (Host u)).1.
Definition Port (u : URL) : string := (splitHostPort (Host u)).2.

(** [EscapedPath] and [EscapedFragment]. *)
Definition escaped_component (mode : encoding) (value raw : string) : string :=
  if negb (raw =? "")%string && validEncoded raw mode
    && match unescape mode raw with Some p => (p =? value)%string | None => false end then raw
  else if bool_decide (mode = encodePath) && (value =? "*")%string then "*"
  else escape value mode.
Definition EscapedPath (u : URL) : string := escaped_component encodePath (Path u) (RawPath u).
Definition EscapedFragment (u : URL) : string :=
  escaped_component encodeFragment (Fragment u) (RawFragment u).

Definition userinfo_String (user : Userinfo) : string :=
  let '(username, password) := user in
  (escape username encodeUserPassword
   ++ match password with Some p => ":" ++ escape p encodeUserPassword | None => "" end)%string.

Definition url_String (u : URL) : string :=
  let scheme := if (Scheme u =? "")%string then ""%string else (Scheme u ++ ":")%string in
  let no_host := (Host u =? "")%string && opt_is_nil (User u) in
  let middle :=
    if negb (OpaqueData u =? "")%string then OpaqueData u
    else
      let authority :=
        if (Scheme u =? "")%string && no_host then ""%string
        else if OmitHost u && no_host then ""%string
        else ((if negb no_host || negb (Path u =? "")%string then "//" else "")
              ++ match User u with Some ui => userinfo_String ui ++ "@" | None => "" end
              ++ escape (Host u) encodeHost)%string in
      let path := EscapedPath u in
      let slash := if negb (path =? "")%string && negb (has_prefix path "/") && negb (Host u =? "")%string
        then "/"%string else ""%string in
      let dot := if ((scheme ++ authority ++ slash)%string =? "")%string && has_byte 58 (cut 47 path).1
        then "./"%string else ""%string in
      (authority ++ slash ++ dot ++ path)%string in
  (scheme ++ middle
   ++ (if ForceQuery u || negb (RawQuery u =? "")%string then "?" ++ RawQuery u else "")
   ++ (if negb (Fragment u =? "")%string then "#" ++ EscapedFragment u else ""))%string.

(** * Canonical text is read back *)

(** A property of bytes that holds of the 256 values. *)
Lemma byte_cases (p : Z → bool) :
  forallb p (seqZ 0 256) = true → ∀ b, 0 ≤ b < 256 → p b = true.
Proof. rewrite forallb_forall. intros H b Hb. apply H, list_elem_of_In, elem_of_seqZ. lia. Qed.

Lemma implb_true a b : implb a b = true → a = true → b = true.
Proof. by destruct a, b. Qed.

(** Decides an implication between byte classes by evaluating it on all bytes. *)
Ltac byte_classes :=
  let b := fresh "b" in let Hb := fresh "Hb" in
  intros b Hb; apply implb_true; revert b Hb; apply byte_cases; vm_compute; reflexivity.

Lemma upper_hex_spec d :
  0 ≤ d < 16 → ishex (byte_val (upper_hex d)) = true ∧ unhex (byte_val (upper_hex d)) = d.
Proof.
  intros Hd. unfold upper_hex. rewrite byte_val_of by (destruct (d <? 10) eqn:E; bool_prop; lia).
  assert (forallb (λ d, ishex (if d <? 10 then 48 + d else 55 + d)
    && (unhex (if d <? 10 then 48 + d else 55 + d) =? d)) (seqZ 0 16) = true) as H by (vm_compute; reflexivity).
  rewrite forallb_forall in H. specialize (H d). rewrite andb_true_iff, Z.eqb_eq in H.
  apply H, list_elem_of_In, elem_of_seqZ. lia.
Qed.

(** Percent decoding undoes percent encoding in every component but the host, where the
    encoder leaves no choice. *)
Lemma unescape_escape mode s :
  mode ≠ encodeHost → mode ≠ encodeZone → unescape mode (escape s mode) = Some s.
Proof.
  intros Hh Hz. induction s as [|a s IH]; [done|]. simpl.
  destruct (shouldEscape (byte_val a) mode) eqn:E.
  - pose proof (byte_val_range a) as Hr.
    destruct (upper_hex_spec (byte_val a / 16)) as [Hx1 Hx2];
      [split; [apply Z.div_pos|apply Z.div_lt_upper_bound]; lia|].
    destruct (upper_hex_spec (byte_val a mod 16)) as [Hy1 Hy2]; [apply Z.mod_pos_bound; lia|].
    cbn [unescape]. rewrite byte_val_of by lia. simpl (37 =? 37). cbv iota zeta.
    rewrite Hx1, Hy1, Hx2, Hy2, !bool_decide_eq_false_2 by done. cbn [negb orb andb].
    rewrite IH. cbn. do 2 f_equal. rewrite <- (byte_of_val a) at 3. f_equal. divlia.
  - cbn [unescape]. rewrite !bool_decide_eq_false_2 by done. cbn [orb andb]. rewrite IH.
    destruct (byte_val a =? 37) eqn:E37; [|done].
    apply Z.eqb_eq in E37. rewrite E37 in E. by destruct mode.
Qed.

Lemma escape_plain mode s : all_bytes (λ c, negb (shouldEscape c mode)) s = true → escape s mode = s.
Proof.
  induction s as [|a s IH]; [done|]. rewrite all_bytes_cons. intros [Ha Hs]%andb_true_iff.
  apply negb_true_iff in Ha. simpl. by rewrite Ha, IH.
Qed.

(** The bytes of an escaped path: neither control, nor [?], nor [#]. *)
Definition path_text (c : Z) : bool :=
  (32 <? c) && negb (c =? 127) && negb (c =? 63) && negb (c =? 35).

Lemma escape_all (q : Z → bool) mode s :
  (∀ b, 0 ≤ b < 256 → negb (shouldEscape b mode) = true → q b = true) →
  q 37 = true → (∀ b, 0 ≤ b < 256 → is_digit b || is_upper b = true → q b = true) →
  all_bytes q (escape s mode) = true.
Proof.
  intros Hplain Hp Hhex. induction s as [|a s IH]; [done|]. simpl. pose proof (byte_val_range a) as Hr.
  assert (∀ d, 0 ≤ d < 16 → q (byte_val (upper_hex d)) = true) as Hd.
  { intros d Hd. unfold upper_hex. rewrite byte_val_of by (destruct (d <? 10) eqn:E; bool_prop; lia).
    apply Hhex; [destruct (d <? 10) eqn:E; bool_prop; lia|].
    unfold is_digit, is_upper. destruct (d <? 10) eqn:E; bool_prop.
    - rewrite (proj2 (Z.leb_le 48 _)), (proj2 (Z.leb_le _ 57)) by lia. done.
    - rewrite (proj2 (Z.leb_le 65 _)), (proj2 (Z.leb_le _ 90)) by lia. by rewrite orb_true_r. }
  destruct (shouldEscape (byte_val a) mode) eqn:E; rewrite ?all_bytes_cons, IH, ?andb_true_r.
  - rewrite byte_val_of by lia. rewrite Hp, !Hd; [done|..].
    + apply Z.mod_pos_bound; lia.
    + split; [apply Z.div_pos|apply Z.div_lt_upper_bound]; lia.
  - by rewrite Hplain by (rewrite ?E; done).
Qed.

Lemma escape_path_text s : all_bytes path_text (escape s encodePath) = true.
Proof. apply escape_all; [byte_classes|done|byte_classes]. Qed.

Lemma valid_path_text s : validEncoded s encodePath = true → all_bytes path_text s = true.
Proof. apply all_bytes_impl. byte_classes. Qed.

(** The first byte of a path is kept by decoding and encoding when it is a slash. *)
Lemma unescape_slash mode s p :
  mode ≠ encodeHost → mode ≠ encodeZone →
  unescape mode (String (byte_of 47) s) = Some p → ∃ p', p = String (byte_of 47) p'.
Proof.
  intros Hh Hz. cbn [unescape]. rewrite byte_val_of by lia. simpl (47 =? 37). cbv iota.
  rewrite !bool_decide_eq_false_2 by done. cbn [orb andb].
  destruct (unescape mode s) as [r|]; [|done]. intros [= <-]. by exists r.
Qed.

(** A scheme as the parser accepts one, in lower case. *)
Definition scheme_rest (c : Z) : bool := is_lower c || is_digit c || one_of_bytes [43; 45; 46] c.
Definition canonical_scheme (s : string) : bool :=
  match s with EmptyString => false | String a s' => is_lower (byte_val a) && all_bytes scheme_rest s' end.

Lemma scan_scheme_rest s t :
  all_bytes scheme_rest s = true →
  scan_scheme false (s ++ String (byte_of 58) t) = Some (Some (s, t)).
Proof.
  induction s as [|a s IH]; intros H.
  { reflexivity. }
  rewrite all_bytes_cons in H. apply andb_true_iff in H as [Ha Hs].
  change ((String a s ++ String (byte_of 58) t)%string) with (String a (s ++ String (byte_of 58) t)).
  cbn [scan_scheme]. rewrite IH by done. unfold scheme_rest in Ha.
  destruct (is_lower _); [done|]. simpl in Ha. destruct (is_upper _); [done|]. simpl. by rewrite Ha.
Qed.

Lemma getScheme_canonical s t :
  canonical_scheme s = true → getScheme (s ++ String (byte_of 58) t) = Some (s, t).
Proof.
  destruct s as [|a s]; [done|]. intros [Ha Hs]%andb_true_iff. unfold getScheme.
  change ((String a s ++ String (byte_of 58) t)%string) with (String a (s ++ String (byte_of 58) t)).
  cbn [scan_scheme]. by rewrite Ha, scan_scheme_rest.
Qed.

Lemma canonical_scheme_bytes s :
  canonical_scheme s = true → all_bytes scheme_rest s = true.
Proof.
  destruct s as [|a s]; [done|]. intros [Ha Hs]%andb_true_iff. rewrite all_bytes_cons, Hs.
  unfold scheme_rest. by rewrite Ha.
Qed.

Lemma canonical_scheme_lower s : canonical_scheme s = true → to_lower s = s.
Proof.
  intros H%canonical_scheme_bytes. apply to_lower_id. apply Forall_forall. intros b Hb.
  unfold all_bytes in H. rewrite forallb_forall in H. specialize (H b (proj1 (list_elem_of_In _ _) Hb)).
  pose proof (bytes_range s) as Hr. rewrite Forall_forall in Hr. specialize (Hr b Hb).
  assert (((b <? 128) && (lower_rune b =? b)) = true) as [? ?]%andb_true_iff; [|bool_prop; split; [lia|done]].
  clear Hb. revert b Hr H. byte_classes.
Qed.

(** The bytes of an authority that has no user: not [/], [?], [#], [@] or control. *)
Definition authority_text (c : Z) : bool := path_text c && negb (c =? 47) && negb (c =? 64).

Lemma has_suffix_absent c s : has_byte c s = false → has_suffix_byte s c = false.
Proof.
  unfold has_suffix_byte. induction s as [|a s IH]; [done|].
  rewrite has_byte_cons. intros [Ha Hs]%orb_false_iff. destruct s as [|b s]; [done|].
  exact (IH Hs).
Qed.

Lemma path_text_no_ctl s : all_bytes path_text s = true → contains_ctl s = false.
Proof.
  unfold all_bytes, contains_ctl. rewrite forallb_forall. intros H. apply not_true_is_false.
  intros (b & Hb & Hc)%existsb_exists. specialize (H b Hb). revert H Hc.
  unfold path_text. rewrite !andb_true_iff, orb_true_iff, !negb_true_iff, Z.ltb_lt, Z.ltb_lt, Z.eqb_eq, !Z.eqb_neq.
  lia.
Qed.

Lemma has_prefix_nil s : has_prefix s "" = true.
Proof. by destruct s. Qed.

Lemma has_prefix_slash s : has_prefix (String (byte_of 47) s) "/" = true.
Proof. apply has_prefix_nil. Qed.

Lemma has_prefix_slashes s : has_prefix (String (byte_of 47) (String (byte_of 47) s)) "//" = true.
Proof. apply has_prefix_nil. Qed.

Lemma parse_authority_path scheme htext host ptext path :
  (scheme =? "")%string = false →
  all_bytes authority_text htext = true → parseHost htext = Some host →
  (ptext = ""%string ∨ ∃ t, ptext = String (byte_of 47) t) →
  unescape encodePath ptext = Some path →
  parse_hierarchy scheme false "" (String (byte_of 47) (String (byte_of 47) (htext ++ ptext)))
  = Some (mkURL scheme "" None host path
      (if (ptext =? escape path encodePath)%string then "" else ptext) false false "" "" "").
Proof.
  intros Hs Hh Hhost Hp Hpath. unfold parse_hierarchy. rewrite Hs.
  rewrite has_prefix_slashes.
  cbn [negb orb andb drop_bytes].
  assert (cut 47 (htext ++ ptext) = (htext, match ptext with EmptyString => None | String _ t => Some t end)) as ->.
  { destruct Hp as [->|[t ->]]; [rewrite string_app_nil_r; apply cut_absent|apply cut_app; [|lia]];
      by eapply all_bytes_absent. }
  unfold parseAuthority. rewrite cut_last_absent by (by eapply all_bytes_absent).
  rewrite Hhost. cbn [mbind option_bind].
  assert (match match ptext with EmptyString => None | String _ t => Some t end with
    | Some t => String (byte_of 47) t | None => ""%string end = ptext) as ->
    by (destruct Hp as [->|[t ->]]; done).
  unfold set_encoded. by rewrite Hpath.
Qed.

(** A URL printed from a lower-case scheme, the text of an authority and the text of a path
    is read back with that scheme, the decoded host and the decoded path and nothing else. *)
Lemma parse_canonical scheme htext host ptext path :
  canonical_scheme scheme = true →
  all_bytes authority_text htext = true → parseHost htext = Some host →
  (ptext = ""%string ∨ ∃ t, ptext = String (byte_of 47) t) →
  all_bytes path_text ptext = true → unescape encodePath ptext = Some path →
  url_Parse (scheme ++ "://" ++ htext ++ ptext)
  = Some (mkURL scheme "" None host path
      (if (ptext =? escape path encodePath)%string then "" else ptext) false false "" "" "").
Proof.
  intros Hs Hh Hhost Hp Hpt Hpath.
  set (rest := String (byte_of 47) (String (byte_of 47) (htext ++ ptext))).
  change (scheme ++ "://" ++ htext ++ ptext)%string with (scheme ++ String (byte_of 58) rest)%string.
  assert (all_bytes path_text rest = true) as Hrest.
  { unfold rest. rewrite !all_bytes_cons, all_bytes_app, Hpt.
    rewrite (all_bytes_impl authority_text path_text htext); [done| |done].
    intros b _ [[? _]%andb_true_iff _]%andb_true_iff. done. }
  assert (all_bytes path_text (scheme ++ String (byte_of 58) rest) = true) as Hall.
  { rewrite all_bytes_app, all_bytes_cons, Hrest, andb_true_r.
    rewrite (all_bytes_impl scheme_rest path_text scheme); [done|byte_classes|].
    by apply canonical_scheme_bytes. }
  unfold url_Parse. rewrite (cut_absent 35) by (by eapply all_bytes_absent).
  unfold parse. rewrite path_text_no_ctl by done. rewrite (proj2 (String.eqb_neq _ _)).
  2:{ destruct scheme as [|a s]; [done|]. intros [= -> _]. by apply andb_true_iff in Hs as [? _]. }
  rewrite getScheme_canonical by done. cbn [mbind option_bind]. rewrite canonical_scheme_lower by done.
  rewrite has_suffix_absent by (by eapply all_bytes_absent). cbn [andb].
  rewrite (cut_absent 63) by (by eapply all_bytes_absent).
  unfold rest. rewrite has_prefix_slash. cbn [negb andb].
  rewrite (parse_authority_path scheme htext host ptext path); try done.
  by destruct scheme.
Qed.

(** ** What the parser returns for a network URL *)

Lemma to_lower_ascii s :
  all_bytes (λ b, b <? 128) s = true → bytes (to_lower s) = lower_rune <$> bytes s.
Proof.
  intros H. assert (Forall (λ b, 0 ≤ b < 128) (bytes s)) as Ha.
  { apply Forall_forall. intros b Hb. unfold all_bytes in H. rewrite forallb_forall in H.
    specialize (H b (proj1 (list_elem_of_In _ _) Hb)). apply Z.ltb_lt in H.
    pose proof (bytes_range s) as Hr. rewrite Forall_forall in Hr. specialize (Hr b Hb). lia. }
  assert (∀ b, 0 ≤ b < 128 → 0 ≤ lower_rune b < 128) as Hl.
  { intros b Hb. unfold lower_rune. rewrite (proj2 (Z.ltb_lt b 128)) by lia.
    destruct (_ && _) eqn:E; bool_prop; lia. }
  unfold to_lower. rewrite runes_ascii by done. unfold string_of_runes.
  assert ((lower_rune <$> bytes s) ≫= encode_rune = lower_rune <$> bytes s) as ->.
  { induction Ha as [|b l Hb Hl' IH]; [done|]. rewrite fmap_cons, bind_cons, IH.
    by rewrite encode_rune1 by auto. }
  unfold string_of_bytes. rewrite bytes_string. induction Ha as [|b l Hb Hl' IH]; [done|].
  rewrite !fmap_cons, IH. f_equal. apply byte_val_of. specialize (Hl b Hb). lia.
Qed.

(** Lowering keeps a class of bytes that lowering of ASCII keeps. *)
Lemma to_lower_class (p q : Z → bool) s :
  (∀ b, 0 ≤ b < 256 → p b = true → (b <? 128) && q (lower_rune b) = true) →
  all_bytes p s = true → all_bytes q (to_lower s) = true.
Proof.
  intros Hpq Hs. unfold all_bytes. rewrite to_lower_ascii.
  - apply forallb_forall. intros c Hc%list_elem_of_In.
    apply list_elem_of_fmap in Hc as (b & -> & Hb). unfold all_bytes in Hs. rewrite forallb_forall in Hs.
    pose proof (bytes_range s) as Hr. rewrite Forall_forall in Hr.
    specialize (Hpq b (Hr b Hb) (Hs b (proj1 (list_elem_of_In _ _) Hb))).
    by apply andb_true_iff in Hpq as [_ ?].
  - revert Hs. apply all_bytes_impl. intros b Hb Hp. by apply (Hpq b) in Hp as [? _]%andb_true_iff.
Qed.

Definition scheme_byte (c : Z) : bool := is_alnum c || one_of_bytes [43; 45; 46] c.

Lemma scan_scheme_spec first s x rest :
  scan_scheme first s = Some (Some (x, rest)) →
  all_bytes scheme_byte x = true
  ∧ (first = true → ∃ a x', x = String a x' ∧ is_lower (byte_val a) || is_upper (byte_val a) = true).
Proof.
  revert first x. induction s as [|a s IH]; intros first x H; [done|]. cbn [scan_scheme] in H.
  assert (∀ y, scan_scheme false s = Some (Some (y, rest)) → all_bytes scheme_byte y = true) as IH'.
  { intros y Hy. by apply IH in Hy as [? _]. }
  unfold scheme_byte, is_alnum in *.
  destruct (is_lower _ || is_upper _) eqn:El.
  - destruct (scan_scheme false s) as [[[y ?]|]|]; simplify_eq. rewrite all_bytes_cons, (IH' _ eq_refl), El.
    split; [done|]. intros _. by exists a, y.
  - destruct (is_digit _ || _) eqn:Ed.
    + destruct first; [done|]. destruct (scan_scheme false s) as [[[y ?]|]|]; simplify_eq.
      rewrite all_bytes_cons, (IH' _ eq_refl), El, orb_false_l. by rewrite Ed.
    + destruct (_ =? 58); [|done]. destruct first; by simplify_eq.
Qed.

Lemma getScheme_lower raw x rest :
  getScheme raw = Some (x, rest) → x = ""%string ∨ canonical_scheme (to_lower x) = true.
Proof.
  unfold getScheme. intros H. destruct (scan_scheme true raw) as [[[y r]|]|] eqn:E; simplify_eq; [|by left].
  right. apply scan_scheme_spec in E as [Hx Hf]. destruct Hf as (a & x' & -> & Ha); [done|].
  assert (all_bytes scheme_rest (to_lower (String a x')) = true) as Hr
    by (revert Hx; apply to_lower_class; byte_classes).
  assert (bytes (to_lower (String a x')) = lower_rune <$> bytes (String a x')) as Hb.
  { apply to_lower_ascii. revert Hx. apply all_bytes_impl. byte_classes. }
  destruct (to_lower (String a x')) as [|c t]; [done|]. simpl in Hb. injection Hb as Hc _.
  rewrite all_bytes_cons in Hr. apply andb_true_iff in Hr as [_ Hr]. unfold canonical_scheme. rewrite Hr, andb_true_r.
  rewrite Hc. revert Ha. pose proof (byte_val_range a) as Hra. revert Hra. generalize (byte_val a). byte_classes.
Qed.

(** The path fields of a parsed URL come from a text that is empty or starts with a slash. *)
Definition path_shape (u : URL) : Prop :=
  ∃ p, (p = ""%string ∨ ∃ t, p = String (byte_of 47) t) ∧ unescape encodePath p = Some (Path u)
    ∧ (RawPath u = ""%string ∨ RawPath u = p).

Lemma set_encoded_Some mode p path raw :
  set_encoded mode p = Some (path, raw) →
  unescape mode p = Some path ∧ (raw = ""%string ∨ raw = p).
Proof.
  unfold set_encoded. destruct (unescape mode p) as [q|]; [|done]. cbn. intros [= <- <-].
  split; [done|]. destruct (_ =? _)%string; auto.
Qed.

Lemma parse_hierarchy_spec scheme force query rest u :
  parse_hierarchy scheme force query rest = Some u →
  Scheme u = scheme ∧ OpaqueData u = ""%string ∧ (Host u ≠ ""%string → path_shape u).
Proof.
  unfold parse_hierarchy. destruct (_ && _) eqn:E; intros H.
  - destruct (cut 47 _) as [authority tail] eqn:Ec.
    destruct (parseAuthority authority) as [[user host]|]; [|done]. cbn in H.
    destruct (set_encoded _ _) as [[path raw]|] eqn:Ep; [|done]. cbn in H. simplify_eq. cbn.
    split_and!; [done..|]. intros _. apply set_encoded_Some in Ep as [Hu Hr].
    eexists. split; [|split; [exact Hu|exact Hr]]. destruct tail; eauto.
  - destruct (set_encoded _ _) as [[path raw]|] eqn:Ep; [|done]. cbn in H. by simplify_eq.
Qed.

Lemma url_Parse_network e u :
  url_Parse e = Some u → Scheme u ≠ ""%string → Host u ≠ ""%string →
  canonical_scheme (Scheme u) = true ∧ path_shape u.
Proof.
  unfold url_Parse. destruct (cut 35 e) as [text fragment]. intros H Hs Hh.
  assert (∃ v, parse text = Some v ∧ Scheme v = Scheme u ∧ Host v = Host u ∧ Path v = Path u
    ∧ RawPath v = RawPath u) as (v & Hp & Es & Eh & Epath & Eraw).
  { destruct (parse text) as [v|]; [|done]. exists v. cbn in H. destruct fragment as [f|]; [|by simplify_eq].
    destruct (f =? "")%string; [by simplify_eq|]. destruct (set_encoded _ _) as [[]|]; [|done].
    cbn in H. by simplify_eq. }
  assert (path_shape v → path_shape u) as Hshape by (unfold path_shape; by rewrite Epath, Eraw).
  rewrite <- Es in Hs |- *. rewrite <- Eh in Hh. clear H Es Eh Epath Eraw.
  unfold parse in Hp. destruct (contains_ctl text); [done|]. destruct (_ =? "*")%string; [by simplify_eq|].
  destruct (getScheme text) as [[scheme rest]|] eqn:Eg; [|done]. cbn [mbind option_bind] in Hp.
  apply getScheme_lower in Eg. destruct (if has_suffix_byte rest 63 && _ then _ else _) as [[force rest'] query].
  destruct (negb _ && negb _) in Hp; [by simplify_eq|]. destruct (negb _ && _) in Hp; [done|].
  apply parse_hierarchy_spec in Hp as (Es & _ & Hp). split; [|by auto]. rewrite Es in Hs |- *.
  destruct Eg as [->|?]; [|done]. done.
Qed.

(** The escaped path of such a URL reads back as its path. *)
Lemma EscapedPath_text u :
  path_shape u →
  (EscapedPath u = ""%string ∨ ∃ t, EscapedPath u = String (byte_of 47) t)
  ∧ all_bytes path_text (EscapedPath u) = true ∧ unescape encodePath (EscapedPath u) = Some (Path u).
Proof.
  intros (p & Hp & Hu & Hr). unfold EscapedPath, escaped_component.
  destruct (negb (RawPath u =? "")%string && validEncoded (RawPath u) encodePath && _) eqn:E.
  - bool_prop. destruct Hr as [Hr|Hr]; [done|]. rewrite Hr in *. split_and!; [done|by apply valid_path_text|done].
  - assert (Path u = ""%string ∨ ∃ t, Path u = String (byte_of 47) t) as Hpath.
    { destruct Hp as [->|[t ->]]; [left; by injection Hu|]. right.
      eapply unescape_slash; [| |exact Hu]; done. }
    rewrite bool_decide_eq_true_2 by done. rewrite (proj2 (String.eqb_neq (Path u) "*")).
    2:{ by destruct Hpath as [->|[t ->]]. }
    cbn [andb]. split_and!; [|apply escape_path_text|by apply unescape_escape].
    destruct Hpath as [->|[t ->]]; [by left|]. right. by eexists.
Qed.

(** The text of a network URL without user, query and fragment. *)
Definition bare (u : URL) : Prop :=
  OpaqueData u = ""%string ∧ User u = None ∧ ForceQuery u = false ∧ RawQuery u = ""%string ∧ Fragment u = ""%string.

Lemma url_String_bare u :
  bare u → Scheme u ≠ ""%string → Host u ≠ ""%string → path_shape u →
  url_String u = (Scheme u ++ "://" ++ escape (Host u) encodeHost ++ EscapedPath u)%string.
Proof.
  intros (Ho & Hu & Hf & Hq & Hfr) Hs Hh Hp. apply String.eqb_neq in Hs, Hh.
  destruct (EscapedPath_text u Hp) as (Hslash & _ & _).
  unfold url_String. rewrite Ho, Hu, Hf, Hq, Hfr, Hs, Hh. cbn [String.eqb negb andb orb opt_is_nil].
  rewrite andb_false_r. cbn [negb orb].
  assert ((if negb (EscapedPath u =? "")%string && negb (has_prefix (EscapedPath u) "/") && true
    then "/"%string else ""%string) = ""%string) as ->.
  { destruct Hslash as [->|[t ->]]; [done|]. by rewrite has_prefix_slash, andb_false_r. }
  rewrite (proj2 (String.eqb_neq _ "")).
  2:{ by destruct (Scheme u) as [|a s]. }
  cbn [andb]. rewrite !string_app_assoc, !string_app_nil_r. reflexivity.
Qed.

(** Printing and parsing again: the host may have been replaced by any text whose escaped
    form the host parser accepts. *)
Lemma url_String_Parse u :
  bare u → canonical_scheme (Scheme u) = true → Host u ≠ ""%string → path_shape u →
  all_bytes authority_text (escape (Host u) encodeHost) = true →
  parseHost (escape (Host u) encodeHost) = Some (Host u) →
  ∃ v, url_Parse (url_String u) = Some v ∧ bare v ∧ Scheme v = Scheme u ∧ Host v = Host u
    ∧ Path v = Path u.
Proof.
  intros Hb Hs Hh Hp Hat Hph. destruct (EscapedPath_text u Hp) as (H1 & H2 & H3).
  rewrite url_String_bare; [|done| |done|done].
  - rewrite (parse_canonical _ _ _ _ _ Hs Hat Hph H1 H2 H3). eexists. split; [done|]. done.
  - intros E. by rewrite E in Hs.
Qed.
