(* ===== verification/GoIP.v ===== *)
(** IP addresses as [net.ParseIP] reads and [net.IP.String] prints them, [net.JoinHostPort] and
    the integer and boolean readers of [strconv] of the Go standard library, and the hosts that
    endpoint normalization builds from them: each is printed into a URL and read back unchanged.
    At the end, bounds on the length and the bytes of printed numbers and composite keys. *)
From Stdlib Require Import Ascii String DecimalString DecimalZ Decimal.
From Stdlib Require DecimalFacts.
From S2P Require Import Prelude GoStrings GoURL.
Local Open Scope Z_scope.

(** * IP addresses *)

(** An address is its sixteen bytes, as [net.ParseIP] returns it: an IPv4 address is the
    mapped IPv6 address. *)
Fixpoint ipv4_scan (s : string) (fields : list Z) (val : Z) (digLen : nat) : option (list Z) :=
  match s with
  | EmptyString => if (length fields <? 3)%nat then None else Some (fields ++ [val])
  | String a s' =>
      let c := byte_val a in
      if is_digit c then
        if (digLen =? 1)%nat && (val =? 0) then None
        else if 255 <? val * 10 + (c - 48) then None
        else ipv4_scan s' fields (val * 10 + (c - 48)) (S digLen)
      else if c =? 46 then
        if (digLen =? 0)%nat || (s' =? "")%string then None
        else if (length fields =? 3)%nat then None
        else ipv4_scan s' (fields ++ [val]) 0 0
      else None
  end.
Definition parseIPv4 (s : string) : option (list Z) := ipv4_scan s [] 0 0.

(** The hexadecimal digits at the start: how many, their value (of at most sixteen bits) and
    the text behind them; a fifth digit is an error. *)
Fixpoint hex_group (off : nat) (acc : Z) (s : string) : option (nat * Z * string) :=
  match s with
  | EmptyString => Some (off, acc, EmptyString)
  | String a s' =>
      if ishex (byte_val a) then
        if (3 <? off)%nat then None else hex_group (S off) (acc * 16 + unhex (byte_val a)) s'
      else Some (off, acc, s)
  end.

Fixpoint ipv6_groups (n : nat) (ip : list Z) (ellipsis : option nat) (s : string)
    : option (list Z * option nat * string) :=
  match n with
  | O => Some (ip, ellipsis, s)
  | S n' =>
      '(off, acc, rest) ← hex_group 0 0 s;
      if (off =? 0)%nat then None
      else if has_prefix rest "." then
        if opt_is_nil ellipsis && negb (length ip =? 12)%nat then None
        else if (16 <? length ip + 4)%nat then None
        else fields ← parseIPv4 s; Some (ip ++ fields, ellipsis, EmptyString)
      else
        let ip := ip ++ [acc / 256; acc mod 256] in
        match rest with
        | EmptyString => Some (ip, ellipsis, EmptyString)
        | String c rest =>
            if negb (byte_val c =? 58) then None
            else match rest with
            | EmptyString => None
            | String d rest' =>
                if byte_val d =? 58 then
                  if negb (opt_is_nil ellipsis) then None
                  else if (rest' =? "")%string then Some (ip, Some (length ip), EmptyString)
                  else ipv6_groups n' ip (Some (length ip)) rest'
                else ipv6_groups n' ip ellipsis rest
            end
        end
  end.

(** Sixteen bytes are at most eight groups. *)
Definition parseIPv6 (s : string) : option (list Z) :=
  let leading := has_prefix s "::" in
  let body := if leading then drop_bytes 2 s else s in
  if leading && (body =? "")%string then Some (replicate 16 0)
  else
    '(ip, ellipsis, rest) ← ipv6_groups 8 [] (if leading then Some 0%nat else None) body;
    if negb (rest =? "")%string then None
    else if (length ip <? 16)%nat then
      match ellipsis with
      | None => None
      | Some e => Some (take e ip ++ replicate (16 - length ip) 0 ++ drop e ip)
      end
    else if opt_is_nil ellipsis then Some ip else None.

Definition mapped_prefix : list Z := replicate 10 0 ++ [255; 255].

(** [netip.ParseAddr]: the first dot, colon or percent sign decides. *)
Fixpoint addr_kind (s : string) : option Z :=
  match s with
  | EmptyString => None
  | String a s' => let c := byte_val a in if one_of_bytes [46; 58; 37] c then Some c else addr_kind s'
  end.

(** [net.ParseIP]: an address with a zone is not an IP address. *)
Definition ParseIP (s : string) : option (list Z) :=
  match addr_kind s with
  | Some 46 => fields ← parseIPv4 s; Some (mapped_prefix ++ fields)
  | Some 58 => if has_byte 37 s then None else parseIPv6 s
  | _ => None
  end.

Definition To4 (ip : list Z) : option (list Z) :=
  if bool_decide (take 12 ip = mapped_prefix) then Some (drop 12 ip) else None.

Definition dotted (fields : list Z) : string := String.concat "." (itoa <$> fields).

(** [appendHex]: lower-case digits without leading zeros. *)
Definition lower_hex (d : Z) : ascii := byte_of (if d <? 10 then 48 + d else 87 + d).
Fixpoint hex_digits (n : nat) (z : Z) (rest : string) : string :=
  match n with
  | O => rest
  | S n' =>
      let rest := String (lower_hex (z mod 16)) rest in
      if z / 16 =? 0 then rest else hex_digits n' (z / 16) rest
  end.
Definition hex16 (z : Z) : string := hex_digits 4 z "".

Fixpoint groups16 (ip : list Z) : list Z :=
  match ip with
  | hi :: lo :: ip' => (hi * 256 + lo) :: groups16 ip'
  | _ => []
  end.

Fixpoint zero_run (gs : list Z) : nat :=
  match gs with
  | g :: gs' => if g =? 0 then S (zero_run gs') else O
  | [] => O
  end.

(** The first longest run of at least two zero groups, as its start and length. *)
Fixpoint longest_run (i : nat) (gs : list Z) (best : nat * nat) : nat * nat :=
  match gs with
  | [] => best
  | _ :: gs' =>
      let l := zero_run gs in
      longest_run (S i) gs' (if (2 <=? l)%nat && (best.2 <? l)%nat then (i, l) else best)
  end.

Definition appendTo6 (ip : list Z) : string :=
  let gs := groups16 ip in
  let '(start, l) := longest_run 0 gs (0%nat, 0%nat) in
  if (l =? 0)%nat then String.concat ":" (hex16 <$> gs)
  else (String.concat ":" (hex16 <$> take start gs) ++ "::"
        ++ String.concat ":" (hex16 <$> drop (start + l) gs))%string.

Definition IP_String (ip : list Z) : string :=
  match To4 ip with Some fields => dotted fields | None => appendTo6 ip end.

Definition JoinHostPort (host port : string) : string :=
  if has_byte 58 host then ("[" ++ host ++ "]:" ++ port)%string else (host ++ ":" ++ port)%string.

(** * [strconv] *)

Definition digits_value (s : string) : Z := foldl (λ acc c, acc * 10 + (c - 48)) 0 (bytes s).

(** [strconv.ParseUint(s, 10, 16)] and [strconv.ParseInt(s, 10, 64)]. *)
Definition ParseUint16 (s : string) : option Z :=
  if (s =? "")%string || negb (all_bytes is_digit s) || (65535 <? digits_value s) then None
  else Some (digits_value s).

Definition ParseInt64 (s : string) : option Z :=
  let '(negative, digits) := match s with
    | String a s' => if byte_val a =? 45 then (true, s') else if byte_val a =? 43 then (false, s') else (false, s)
    | EmptyString => (false, s)
    end in
  if (digits =? "")%string || negb (all_bytes is_digit digits) then None
  else
    let z := if negative : bool then - digits_value digits else digits_value digits in
    if (z <? int64_min) || (int64_max <? z) then None else Some z.

(** [strconv.ParseBool] and [strconv.FormatBool]. *)
Definition ParseBool (s : string) : option bool :=
  if existsb (String.eqb s) ["1"; "t"; "T"; "TRUE"; "true"; "True"]%string then Some true
  else if existsb (String.eqb s) ["0"; "f"; "F"; "FALSE"; "false"; "False"]%string then Some false
  else None.
Definition FormatBool (b : bool) : string := if b then "true" else "false".

(** ** The text of an address *)

Definition ip_char (c : Z) : bool := is_digit c || ((97 <=? c) && (c <=? 102)) || (c =? 58) || (c =? 46).
Definition digit_dot (c : Z) : bool := is_digit c || (c =? 46).

Example ip_examples :
  IP_String <$> ParseIP "2001:DB8:0:0:1:0:0:1" = Some "2001:db8::1:0:0:1"%string
  ∧ IP_String <$> ParseIP "::" = Some "::"%string
  ∧ IP_String <$> ParseIP "1:2:3:4:5:6:7::" = Some "1:2:3:4:5:6:7:0"%string
  ∧ IP_String <$> ParseIP "::ffff:10.0.0.1" = Some "10.0.0.1"%string
  ∧ ParseIP "fe80::1%eth0" = None ∧ ParseIP "10.0.0.01" = None ∧ ParseIP "1::2::3" = None
  ∧ ParseIP "1:2:3:4:5:6:7:8:9" = None ∧ ParseIP "12345::" = None.
Proof. vm_compute. done. Qed.

Definition name_char (c : Z) : bool := is_alnum c || (c =? 45) || (c =? 46).
Definition address_char (c : Z) : bool := name_char c || (c =? 58).

Lemma all_bytes_concat p sep l :
  all_bytes p sep = true → Forall (λ s, all_bytes p s = true) l → all_bytes p (String.concat sep l) = true.
Proof.
  intros Hsep Hl. induction Hl as [|x l Hx Hl IH]; [done|]. destruct l as [|y l]; [done|].
  change (String.concat sep (x :: y :: l)) with (x ++ sep ++ String.concat sep (y :: l))%string.
  by rewrite !all_bytes_app, Hx, Hsep, IH.
Qed.

Lemma uint_digits d : all_bytes is_digit (NilEmpty.string_of_uint d) = true.
Proof. induction d; [done|..]; simpl; rewrite all_bytes_cons, IHd; done. Qed.

Lemma itoa_digits z : 0 ≤ z → all_bytes is_digit (itoa z) = true.
Proof.
  intros Hz. unfold itoa. destruct (Z.to_int z) as [d|d] eqn:E.
  - unfold NilZero.string_of_int, NilZero.string_of_uint. destruct d; try apply uint_digits. done.
  - destruct z; simpl in E; simplify_eq; lia.
Qed.

Lemma itoa_name z : all_bytes name_char (itoa z) = true.
Proof.
  unfold itoa. destruct (Z.to_int z) as [d|d].
  - apply (all_bytes_impl is_digit); [byte_classes|].
    unfold NilZero.string_of_int, NilZero.string_of_uint. destruct d; try apply uint_digits. done.
  - unfold NilZero.string_of_int. rewrite all_bytes_cons. change (name_char (byte_val "-")) with true. cbn [andb].
    apply (all_bytes_impl is_digit); [byte_classes|].
    unfold NilZero.string_of_uint. destruct d; try apply uint_digits. done.
Qed.

Lemma dotted_name fields : all_bytes name_char (dotted fields) = true.
Proof. apply all_bytes_concat; [done|]. apply Forall_fmap, Forall_true. intros z. apply itoa_name. Qed.

Lemma hex_digits_name n z rest :
  all_bytes name_char rest = true → all_bytes name_char (hex_digits n z rest) = true.
Proof.
  revert z rest. induction n as [|n IH]; intros z rest Hr; [done|]. cbn [hex_digits].
  assert (all_bytes name_char (String (lower_hex (z mod 16)) rest) = true) as H.
  { rewrite all_bytes_cons, Hr, andb_true_r. unfold lower_hex.
    pose proof (Z.mod_pos_bound z 16 ltac:(lia)) as Hb. revert Hb. generalize (z mod 16). intros d Hd.
    rewrite byte_val_of by (destruct (d <? 10) eqn:E; bool_prop; lia).
    unfold name_char, is_alnum, is_lower, is_digit. destruct (d <? 10) eqn:E; bool_prop.
    - rewrite (proj2 (Z.leb_le 48 _)), (proj2 (Z.leb_le _ 57)) by lia. by rewrite !orb_true_r.
    - by rewrite (proj2 (Z.leb_le 97 _)), (proj2 (Z.leb_le _ 122)) by lia. }
  destruct (_ =? 0); [done|]. by apply IH.
Qed.

Lemma IP_String_address ip : all_bytes address_char (IP_String ip) = true.
Proof.
  assert (∀ s, all_bytes name_char s = true → all_bytes address_char s = true) as Hn
    by (intros s; apply all_bytes_impl; byte_classes).
  assert (∀ gs, all_bytes address_char (String.concat ":" (hex16 <$> gs)) = true) as Hg.
  { intros gs. apply all_bytes_concat; [done|]. apply Forall_fmap, Forall_true. intros z.
    apply Hn. by apply hex_digits_name. }
  unfold IP_String. destruct (To4 ip); [apply Hn, dotted_name|]. unfold appendTo6.
  destruct (longest_run _ _ _) as [start l]. destruct (l =? 0)%nat; [apply Hg|].
  by rewrite !all_bytes_app, !Hg.
Qed.

(** An address written without a colon is printed without one. *)
Lemma ParseIP_dotted s ip : has_byte 58 s = false → ParseIP s = Some ip → all_bytes name_char (IP_String ip) = true.
Proof.
  intros Hc H. unfold ParseIP in H.
  assert (addr_kind s ≠ Some 58) as Hk.
  { clear H. induction s as [|a s IH]; [done|]. rewrite has_byte_cons in Hc. apply orb_false_iff in Hc as [Ha Hs].
    cbn [addr_kind]. destruct (one_of_bytes _ _); [|by apply IH]. intros [= E]. by apply Z.eqb_neq in Ha. }
  destruct (addr_kind s) as [k|]; [|done].
  destruct (decide (k = 46)) as [->|Hk46].
  - destruct (parseIPv4 s) as [fs|]; [|done].
    assert (ip = mapped_prefix ++ fs) as -> by (symmetry in H; by injection H). unfold IP_String, To4.
    rewrite (take_app_length' mapped_prefix fs 12), bool_decide_eq_true_2 by done. apply dotted_name.
  - repeat (case_match; try done; try congruence).
Qed.

(** * Hosts that read back *)

(** A host that a printed URL carries unchanged. *)
Definition good_host (h : string) : Prop :=
  all_bytes authority_text (escape h encodeHost) = true
  ∧ parseHost (escape h encodeHost) = Some h.

Lemma escape_app s t mode : escape (s ++ t) mode = (escape s mode ++ escape t mode)%string.
Proof.
  induction s as [|a s IH]; [done|].
  change ((String a s ++ t)%string) with (String a (s ++ t)). cbn [escape]. rewrite IH.
  by destruct (shouldEscape _ _).
Qed.

(** Text that neither the encoder nor the decoder of a host changes. *)
Definition host_plain (c : Z) : bool := negb (shouldEscape c encodeHost) && negb (c =? 37).

Lemma shouldEscape_zone c : shouldEscape c encodeZone = shouldEscape c encodeHost.
Proof. reflexivity. Qed.

Lemma unescape_plain mode s t :
  mode = encodeHost ∨ mode = encodeZone → all_bytes host_plain s = true →
  unescape mode (s ++ t) = r ← unescape mode t; Some (s ++ r)%string.
Proof.
  intros Hm. induction s as [|a s IH].
  { intros _. change ("" ++ t)%string with t. by destruct (unescape mode t). }
  rewrite all_bytes_cons. intros [Ha Hs]%andb_true_iff.
  change ((String a s ++ t)%string) with (String a (s ++ t)). cbn [unescape]. rewrite IH by done.
  assert (negb (shouldEscape (byte_val a) mode) && negb (byte_val a =? 37) = true) as [H1 H2]%andb_true_iff
    by (destruct Hm as [->| ->]; [done|by rewrite shouldEscape_zone]).
  apply negb_true_iff in H1, H2. rewrite H1, H2, andb_false_r. by destruct (unescape mode t).
Qed.

Lemma unescape_plain_all s : all_bytes host_plain s = true → unescape encodeHost s = Some s.
Proof. intros H. rewrite <- (string_app_nil_r s) at 1. rewrite unescape_plain by auto. cbn. by rewrite string_app_nil_r. Qed.

Lemma has_prefix_bracket s : has_byte 91 s = false → has_prefix s "[" = false.
Proof.
  destruct s as [|a s]; [done|]. rewrite has_byte_cons. intros [Ha _]%orb_false_iff. cbn [has_prefix].
  rewrite has_prefix_nil, andb_true_r. apply Z.eqb_neq in Ha. destruct (Ascii.eqb_spec "[" a) as [<-|]; [|done].
  by destruct Ha.
Qed.

Lemma good_plain h :
  all_bytes authority_text h = true → all_bytes host_plain h = true →
  parseHost h = unescape encodeHost h → good_host h.
Proof.
  intros Ha Hp Hh.
  assert (escape h encodeHost = h) as E.
  { apply escape_plain. revert Hp. apply all_bytes_impl. by intros b _ [? _]%andb_true_iff. }
  unfold good_host. rewrite E, Hh, unescape_plain_all; done.
Qed.

Lemma good_name h : all_bytes name_char h = true → good_host h.
Proof.
  intros H. apply good_plain.
  - revert H. apply all_bytes_impl. byte_classes.
  - revert H. apply all_bytes_impl. byte_classes.
  - unfold parseHost. rewrite has_prefix_bracket by (by eapply all_bytes_absent).
    by rewrite cut_last_absent by (by eapply all_bytes_absent).
Qed.

Lemma good_name_port h port :
  all_bytes name_char h = true → all_bytes is_digit port = true → good_host (h ++ ":" ++ port).
Proof.
  intros H Hp. apply good_plain.
  - rewrite all_bytes_app. change (":" ++ port)%string with (String (byte_of 58) port). rewrite all_bytes_cons.
    rewrite (all_bytes_impl name_char _ h), (all_bytes_impl is_digit _ port); [done|byte_classes|done|byte_classes|done].
  - rewrite all_bytes_app. change (":" ++ port)%string with (String (byte_of 58) port). rewrite all_bytes_cons.
    rewrite (all_bytes_impl name_char _ h), (all_bytes_impl is_digit _ port); [done|byte_classes|done|byte_classes|done].
  - change (":" ++ port)%string with (String (byte_of 58) port). unfold parseHost.
    rewrite has_prefix_bracket.
    2:{ rewrite has_byte_app, has_byte_cons. rewrite (all_bytes_absent name_char _ h) by done.
        by rewrite (all_bytes_absent is_digit _ port) by done. }
    rewrite cut_last_app by (try lia; by eapply all_bytes_absent).
    cbn [validOptionalPort]. by rewrite Hp.
Qed.

(** The bytes of a zone, and a bracketed address with an optional zone and port. *)
Definition zone_char (c : Z) : bool := is_alnum c || (c =? 95) || (c =? 45) || (c =? 46).
Definition zone_text (zone : option string) : string :=
  match zone with Some z => ("%" ++ z)%string | None => "" end.
Definition port_text (port : option string) : string :=
  match port with Some p => (":" ++ p)%string | None => "" end.
Definition bracketed (address : string) (zone port : option string) : string :=
  ("[" ++ address ++ zone_text zone ++ "]" ++ port_text port)%string.

Definition text_ok (p : Z → bool) (o : option string) : Prop :=
  match o with Some s => all_bytes p s = true | None => True end.

Lemma cut_zone_plain s : has_byte 37 s = false → cut_zone s = None.
Proof.
  induction s as [|a s IH]; [done|]. rewrite has_byte_cons. intros [Ha Hs]%orb_false_iff.
  cbn [cut_zone]. rewrite IH by done.
  assert (has_prefix (String a s) "%25" = false) as ->; [|done].
  cbn [has_prefix]. destruct (Ascii.eqb_spec "%" a) as [<-|]; [by apply Z.eqb_neq in Ha|done].
Qed.

Lemma cut_zone_app s t : has_byte 37 s = false → cut_zone (s ++ "%25" ++ t) = Some (s, "%25" ++ t)%string.
Proof.
  induction s as [|a s IH].
  { intros _. change ("" ++ "%25" ++ t)%string with (String "%" (String "2" (String "5" t))).
    cbn [cut_zone has_prefix]. by rewrite has_prefix_nil. }
  rewrite has_byte_cons. intros [Ha Hs]%orb_false_iff.
  change ((String a s ++ "%25" ++ t)%string) with (String a (s ++ "%25" ++ t)).
  cbn [cut_zone]. rewrite IH by done.
  assert (has_prefix (String a (s ++ "%25" ++ t)) "%25" = false) as ->; [|done].
  cbn [has_prefix]. destruct (Ascii.eqb_spec "%" a) as [<-|]; [by apply Z.eqb_neq in Ha|done].
Qed.

Lemma port_text_facts port :
  text_ok is_digit port →
  all_bytes authority_text (port_text port) = true ∧ all_bytes host_plain (port_text port) = true
  ∧ validOptionalPort (port_text port) = true ∧ has_byte 93 (port_text port) = false.
Proof.
  destruct port as [p|]; [|done]. cbn [text_ok port_text]. intros Hp.
  change (":" ++ p)%string with (String (byte_of 58) p). rewrite !all_bytes_cons, has_byte_cons.
  rewrite !(all_bytes_impl is_digit _ p) by (try done; byte_classes).
  rewrite (all_bytes_absent is_digit 93 p) by done. cbn [validOptionalPort]. by rewrite Hp.
Qed.

Lemma address_facts a :
  all_bytes address_char a = true →
  all_bytes authority_text a = true ∧ all_bytes host_plain a = true ∧ has_byte 37 a = false.
Proof.
  intros H. split_and!; [..|by eapply all_bytes_absent]; revert H; apply all_bytes_impl; byte_classes.
Qed.

Lemma zone_facts z :
  all_bytes zone_char z = true →
  all_bytes authority_text z = true ∧ all_bytes host_plain z = true.
Proof. intros H. split; revert H; apply all_bytes_impl; byte_classes. Qed.

Lemma escape_host_plain s : all_bytes host_plain s = true → escape s encodeHost = s.
Proof. intros H. apply escape_plain. revert H. apply all_bytes_impl. by intros b _ [? _]%andb_true_iff. Qed.

(** In the printed form the percent sign in front of a zone is itself escaped. *)
Lemma escape_bracketed address zone port :
  all_bytes address_char address = true → text_ok zone_char zone → text_ok is_digit port →
  escape (bracketed address zone port) encodeHost
  = ("[" ++ address ++ match zone with Some z => "%25" ++ z | None => "" end ++ "]" ++ port_text port)%string.
Proof.
  intros Ha Hz Hp. apply address_facts in Ha as (_ & Ha & _). apply port_text_facts in Hp as (_ & Hp & _).
  unfold bracketed. rewrite !escape_app, (escape_host_plain address), (escape_host_plain (port_text port)) by done.
  destruct zone as [z|]; [|done]. cbn [zone_text text_ok] in *. apply zone_facts in Hz as [_ Hz].
  by rewrite escape_app, (escape_host_plain z).
Qed.

Lemma good_bracketed address zone port :
  all_bytes address_char address = true → text_ok zone_char zone → text_ok is_digit port →
  good_host (bracketed address zone port).
Proof.
  intros Ha Hz Hp. unfold good_host. rewrite escape_bracketed by done.
  apply address_facts in Ha as (Ha1 & Ha2 & Ha3). apply port_text_facts in Hp as (Hp1 & Hp2 & Hp3 & Hp4).
  assert (has_byte 37 ("[" ++ address) = false) as Hpct by (by rewrite has_byte_app, Ha3).
  assert (all_bytes host_plain ("[" ++ address) = true) as Hpl by (by rewrite all_bytes_app, Ha2).
  assert (∀ t, has_prefix ("[" ++ t) "[" = true) as Hpre by (intros t; apply has_prefix_nil).
  assert (unescape encodeHost (String (byte_of 93) (port_text port)) = Some (String (byte_of 93) (port_text port))) as Hclose.
  { apply unescape_plain_all. by rewrite all_bytes_cons, Hp2. }
  destruct zone as [z|].
  - apply zone_facts in Hz as [Hz1 Hz2]. split; [by rewrite !all_bytes_app, Ha1, Hz1, Hp1|].
    unfold parseHost. rewrite Hpre.
    replace ("[" ++ address ++ ("%25" ++ z) ++ "]" ++ port_text port)%string
      with (("[" ++ address ++ "%25" ++ z) ++ String (byte_of 93) (port_text port))%string
      by (by rewrite !string_app_assoc).
    rewrite cut_last_app by (try lia; done). rewrite Hp3. cbn [negb].
    rewrite <- (string_app_assoc "[" address), cut_zone_app by done.
    rewrite (unescape_plain_all ("[" ++ address)) by done. cbn [mbind option_bind].
    assert (unescape encodeZone ("%25" ++ z) = Some ("%" ++ z)%string) as ->.
    { change ("%25" ++ z)%string with (String "%" (String "2" (String "5" z))). cbn [unescape].
      rewrite <- (string_app_nil_r z) at 1. rewrite unescape_plain by auto. cbn. by rewrite string_app_nil_r. }
    cbn [mbind option_bind]. rewrite Hclose. cbn [mbind option_bind]. reflexivity.
  - split; [by rewrite !all_bytes_app, Ha1, Hp1|]. unfold parseHost. rewrite Hpre.
    replace ("[" ++ address ++ "" ++ "]" ++ port_text port)%string
      with (("[" ++ address) ++ String (byte_of 93) (port_text port))%string
      by (by rewrite !string_app_assoc).
    rewrite cut_last_app by (try lia; done). rewrite Hp3, cut_zone_plain by done. cbn [negb].
    rewrite unescape_plain_all; [|by rewrite all_bytes_app, Hpl, all_bytes_cons, Hp2].
    reflexivity.
Qed.

Lemma good_join address zone port :
  all_bytes address_char address = true → text_ok zone_char zone → all_bytes is_digit port = true →
  (zone ≠ None → has_byte 58 address = true) →
  good_host (JoinHostPort (address ++ zone_text zone) port).
Proof.
  intros Ha Hz Hp Hc. unfold JoinHostPort. destruct (has_byte 58 (address ++ zone_text zone)) eqn:E.
  - replace ("[" ++ (address ++ zone_text zone) ++ "]:" ++ port)%string with (bracketed address zone (Some port))
      by (unfold bracketed, port_text; by rewrite !string_app_assoc).
    by apply good_bracketed.
  - rewrite has_byte_app in E. apply orb_false_iff in E as [E _].
    destruct zone as [z|]; [by rewrite Hc in E|]. cbn [zone_text]. rewrite string_app_nil_r.
    apply good_name_port; [|done]. unfold all_bytes, has_byte in *. rewrite forallb_forall in *. intros b Hb.
    specialize (Ha b Hb). apply orb_true_iff in Ha as [Ha|Ha]; [done|].
    exfalso. rewrite <- not_true_iff_false in E. apply E. apply existsb_exists. exists b. split; [done|].
    rewrite Z.eqb_sym. done.
Qed.

Lemma ParseUint16_digits s v : ParseUint16 s = Some v → all_bytes is_digit (itoa v) = true ∧ 0 ≤ v ≤ 65535.
Proof.
  unfold ParseUint16. destruct (_ || _) eqn:E; [done|]. intros [= <-]. bool_prop.
  assert (0 ≤ digits_value s) as Hv; [|split; [by apply itoa_digits|lia]].
  match goal with H : all_bytes is_digit s = true |- _ => revert H end.
  unfold digits_value, all_bytes. generalize (bytes s). intros l.
  assert (∀ acc, 0 ≤ acc → forallb is_digit l = true → 0 ≤ foldl (λ acc c, acc * 10 + (c - 48)) acc l) as Hf; [|by apply Hf].
  induction l as [|c l IH]; intros acc Hacc; [done|]. cbn. intros [Hc Hl]%andb_true_iff. apply IH; [|done].
  unfold is_digit in Hc. bool_prop. lia.
Qed.

(** ** Host names *)

(** A label with letters or digits at both ends and letters, digits or hyphens in between. *)
Lemma label_bytes label :
  match label with String a _ => is_alnum (byte_val a) | EmptyString => false end = true →
  match last_byte label with Some b => is_alnum b | None => false end = true →
  all_bytes (λ b, is_alnum b || (b =? 45)) (drop_last (drop_bytes 1 label)) = true →
  all_bytes (λ b, is_alnum b || (b =? 45)) label = true.
Proof.
  intros Hfirst Hlast Hmid. pose proof (bytes_ends label) as Hends. destruct label as [|a s]; [done|].
  destruct Hends as [_ (b & Hb & Hbs)].
  rewrite Hb in Hlast. rewrite all_bytes_cons, Hfirst. cbn [orb andb drop_bytes] in *.
  pose proof (bytes_ends s) as Hs. destruct s as [|c s]; [done|]. destruct Hs as [_ (d & Hd & Hds)].
  change (last_byte (String a (String c s))) with (last_byte (String c s)) in Hb. simplify_eq.
  unfold all_bytes in *. rewrite Hds, forallb_app, Hmid. simpl. by rewrite Hlast.
Qed.

Lemma labels_name h :
  (∀ label, label ∈ split 46 h →
     match label with String a _ => is_alnum (byte_val a) | EmptyString => false end = true
     ∧ match last_byte label with Some b => is_alnum b | None => false end = true
     ∧ all_bytes (λ b, is_alnum b || (b =? 45)) (drop_last (drop_bytes 1 label)) = true) →
  all_bytes name_char h = true.
Proof.
  intros H. apply (all_bytes_impl (λ b, (is_alnum b || (b =? 45)) || (b =? 46))); [byte_classes|].
  apply split_class, Forall_forall. intros part Hp. destruct (H part Hp) as (? & ? & ?). by apply label_bytes.
Qed.

Lemma lower_name h : all_bytes name_char h = true → all_bytes name_char (to_lower h) = true.
Proof. apply to_lower_class. byte_classes. Qed.

(** ** The shape of parsed addresses *)

Lemma ipv4_scan_spec s fields val n r :
  ipv4_scan s fields val n = Some r → (length fields ≤ 3)%nat →
  length r = 4%nat ∧ all_bytes digit_dot s = true.
Proof.
  revert fields val n. induction s as [|a s IH]; intros fields val n H Hf; cbn [ipv4_scan] in H.
  { destruct (Nat.ltb_spec (length fields) 3); [done|]. injection H as <-. rewrite length_app. split; [cbn; lia|done]. }
  rewrite all_bytes_cons. unfold digit_dot at 1. destruct (is_digit (byte_val a)) eqn:Ed.
  - destruct (_ && _); [done|]. destruct (255 <? _); [done|]. by apply IH in H as [? ->].
  - destruct (byte_val a =? 46) eqn:E46; [|done]. destruct (_ || _); [done|].
    destruct (Nat.eqb_spec (length fields) 3); [done|]. apply IH in H as [? ->]; [done|]. rewrite length_app. cbn. lia.
Qed.

Lemma parseIPv4_spec s r : parseIPv4 s = Some r → length r = 4%nat ∧ all_bytes digit_dot s = true.
Proof. intros H. eapply ipv4_scan_spec; [exact H|]. cbn. lia. Qed.

Lemma ipv6_groups_length n ip e s r e' rest :
  ipv6_groups n ip e s = Some (r, e', rest) → (length ip + 2 * n ≤ 16)%nat → (length r ≤ 16)%nat.
Proof.
  revert ip e s. induction n as [|n IH]; intros ip e s H Hl; cbn [ipv6_groups] in H.
  { injection H as <- _ _. lia. }
  destruct (hex_group 0 0 s) as [[[off acc] rest0]|]; [|done]. cbn [mbind option_bind] in H.
  destruct (off =? 0)%nat; [done|]. assert (∀ x y : Z, length (ip ++ [x; y]) = (length ip + 2)%nat) as Hip
    by (intros; by rewrite length_app).
  destruct (has_prefix rest0 ".").
  - destruct (_ && _); [done|]. destruct (Nat.ltb_spec 16 (length ip + 4)); [done|].
    destruct (parseIPv4 s) as [f|] eqn:Ef; [|done]. injection H as <- _ _.
    apply parseIPv4_spec in Ef as [? _]. rewrite length_app. lia.
  - destruct rest0 as [|c rest1]; [injection H as <- _ _; rewrite Hip; lia|].
    destruct (negb _); [done|]. destruct rest1 as [|d rest2]; [done|]. destruct (byte_val d =? 58).
    + destruct (negb _); [done|]. destruct (_ =? "")%string; [injection H as <- _ _; rewrite Hip; lia|].
      eapply IH; [exact H|]. rewrite Hip. lia.
    + eapply IH; [exact H|]. rewrite Hip. lia.
Qed.

Lemma ParseIP_length s ip : ParseIP s = Some ip → length ip = 16%nat.
Proof.
  unfold ParseIP. destruct (addr_kind s) as [k|]; [|done]. destruct (decide (k = 46)) as [->|].
  { destruct (parseIPv4 s) as [f|] eqn:Ef; [|done]. intros [= <-]. apply parseIPv4_spec in Ef as [Hf _].
    cbn. by rewrite Hf. }
  destruct (decide (k = 58)) as [->|]; [|intros H; by repeat (case_match; try done)].
  destruct (has_byte 37 s); [done|]. unfold parseIPv6. destruct (_ && _); [by intros [= <-]|].
  destruct (ipv6_groups _ _ _ _) as [[[r e] rest]|] eqn:Eg; [|done]. cbn [mbind option_bind].
  apply ipv6_groups_length in Eg; [|cbn; lia]. destruct (negb _); [done|].
  destruct (Nat.ltb_spec (length r) 16).
  - destruct e as [e|]; [|done]. intros [= <-].
    rewrite !length_app, length_take, length_replicate, length_drop. lia.
  - destruct (opt_is_nil e); [|done]. intros [= <-]. lia.
Qed.

Lemma concat_nonempty sep x l : x ≠ ""%string → String.concat sep (x :: l) ≠ ""%string.
Proof. destruct x as [|a x]; [done|]. by destruct l. Qed.

Lemma itoa_nonempty z : itoa z ≠ ""%string.
Proof.
  unfold itoa, NilZero.string_of_int, NilZero.string_of_uint.
  destruct (Z.to_int z) as [d|d]; [|done]. by destruct d.
Qed.

Lemma dotted_nonempty fields : fields ≠ [] → dotted fields ≠ ""%string.
Proof. destruct fields as [|z l]; [done|]. intros _. apply concat_nonempty, itoa_nonempty. Qed.

Lemma groups16_length n ip : length ip = (2 * n)%nat → length (groups16 ip) = n.
Proof.
  revert ip. induction n as [|n IH]; intros ip Hl; [by destruct ip|].
  destruct ip as [|x [|y ip]]; cbn in Hl; [lia|lia|]. cbn. f_equal. apply IH. lia.
Qed.

(** An address that is not a mapped IPv4 address is printed with a colon. *)
Lemma appendTo6_colon ip : length ip = 16%nat → has_byte 58 (appendTo6 ip) = true.
Proof.
  intros Hl. unfold appendTo6. destruct (longest_run _ _ _) as [start l]. destruct (l =? 0)%nat.
  - pose proof (groups16_length 8 ip Hl) as Hg. destruct (groups16 ip) as [|x [|y gs]]; [done|done|].
    change (String.concat ":" (hex16 <$> x :: y :: gs))
      with (hex16 x ++ ":" ++ String.concat ":" (hex16 <$> y :: gs))%string.
    rewrite !has_byte_app. by rewrite orb_true_r.
  - rewrite !has_byte_app. by rewrite orb_true_r.
Qed.

(** A text that is an address without a colon consists of digits and dots. *)
Lemma ParseIP_plain s ip : has_byte 58 s = false → ParseIP s = Some ip → all_bytes digit_dot s = true.
Proof.
  intros Hc H. unfold ParseIP in H.
  assert (addr_kind s ≠ Some 58) as Hk.
  { clear H. induction s as [|a s IH]; [done|]. rewrite has_byte_cons in Hc. apply orb_false_iff in Hc as [Ha Hs].
    cbn [addr_kind]. destruct (one_of_bytes _ _); [|by apply IH]. intros [= E]. by apply Z.eqb_neq in Ha. }
  destruct (addr_kind s) as [k|]; [|done]. destruct (decide (k = 46)) as [->|].
  - destruct (parseIPv4 s) as [f|] eqn:Ef; [|done]. by apply parseIPv4_spec in Ef as [_ ?].
  - repeat (case_match; try done; try congruence).
Qed.

(** ** Ports *)

Lemma count_byte_app c s t : count_byte c (s ++ t) = (count_byte c s + count_byte c t)%nat.
Proof. unfold count_byte. by rewrite bytes_app, filter_app, length_app. Qed.

Lemma count_byte_zero c s : count_byte c s = O → has_byte c s = false.
Proof.
  unfold count_byte, has_byte. intros H%nil_length_inv. apply not_true_is_false.
  intros (b & Hb & ->%Z.eqb_eq)%existsb_exists. eapply not_elem_of_nil. rewrite <- H.
  apply list_elem_of_filter. split; [done|]. by apply list_elem_of_In.
Qed.

(** The host name of an authority without brackets and with at most one colon, in front of a
    port, has no colon. *)
Lemma hostname_no_colon h :
  has_prefix h "[" = false → (count_byte 58 h ≤ 1)%nat →
  (has_byte 58 h = true → (splitHostPort h).2 ≠ ""%string) → has_byte 58 (splitHostPort h).1 = false.
Proof.
  intros Hb Hc Hp. unfold splitHostPort in *. destruct (cut_last 58 h) as [[x p]|] eqn:Ec.
  - apply cut_last_spec in Ec as (Hpn & _ & ->). rewrite count_byte_app in Hc.
    assert (has_byte 58 x = false) as Hx.
    { apply count_byte_zero. change (count_byte 58 (String (byte_of 58) p)) with (S (count_byte 58 p)) in Hc. lia. }
    assert (has_byte 58 (x ++ String (byte_of 58) p) = true) as Hh by (by rewrite has_byte_app, has_byte_cons, orb_true_r).
    destruct (validOptionalPort _).
    + assert (has_prefix x "[" = false) as ->; [|done]. destruct x as [|a x]; [done|].
      change (has_prefix (String a (x ++ String (byte_of 58) p)) "[" = false) in Hb.
      cbn [has_prefix] in Hb |- *. rewrite has_prefix_nil in Hb |- *. done.
    + rewrite Hb in Hp. cbn in Hp. by destruct (Hp Hh).
  - assert (has_byte 58 h = false) as Hh.
    { clear -Ec. induction h as [|a h IH]; [done|]. cbn in Ec. rewrite has_byte_cons.
      destruct (cut_last 58 h) as [[]|]; [done|]. destruct (byte_val a =? 58); [done|]. by apply IH. }
    by rewrite Hb.
Qed.

Lemma ParseInt64_range s z : ParseInt64 s = Some z → int64_min ≤ z ≤ int64_max.
Proof.
  unfold ParseInt64. intros H. repeat case_match; simplify_eq; bool_prop; lia.
Qed.

(** * How long printed numbers are, and of which bytes *)

(** Decimal notation has at most one digit per bit. *)
Lemma nb_digits_double d :
  (Decimal.nb_digits (Decimal.Little.double d) ≤ S (Decimal.nb_digits d)
   ∧ Decimal.nb_digits (Decimal.Little.succ_double d) ≤ S (Decimal.nb_digits d))%nat.
Proof. induction d; cbn; lia. Qed.

Lemma nb_digits_little p : (Decimal.nb_digits (Pos.to_little_uint p) ≤ Pos.size_nat p)%nat.
Proof. induction p as [p IH|p IH|]; [..|done]; cbn; pose proof (nb_digits_double (Pos.to_little_uint p)); lia. Qed.

Lemma length_string_of_uint d : String.length (NilEmpty.string_of_uint d) = Decimal.nb_digits d.
Proof. induction d; cbn; congruence. Qed.

Lemma length_uint_zero d : (String.length (NilZero.string_of_uint d) ≤ S (Decimal.nb_digits d))%nat.
Proof. unfold NilZero.string_of_uint. destruct d; rewrite ?length_string_of_uint; cbn; lia. Qed.

Lemma length_pos p : Z.pos p ≤ 2 ^ 63 → (String.length (NilZero.string_of_uint (Pos.to_uint p)) ≤ 66)%nat.
Proof.
  intros Hp. pose proof (length_uint_zero (Pos.to_uint p)) as H. unfold Pos.to_uint in H at 2. rewrite DecimalFacts.nb_digits_rev in H.
  pose proof (nb_digits_little p). pose proof (Pos.size_nat_monotone p (2 ^ 64)) as Hm.
  change (Pos.size_nat (2 ^ 64)) with 65%nat in Hm. lia.
Qed.

Lemma itoa_length z : int64_min ≤ z ≤ int64_max → (String.length (itoa z) ≤ 67)%nat.
Proof.
  unfold int64_min, int64_max. intros Hz. unfold itoa, NilZero.string_of_int. destruct z as [|p|p]; cbn -[NilZero.string_of_uint].
  - cbn. lia.
  - pose proof (length_pos p). lia.
  - pose proof (length_pos p). lia.
Qed.

Lemma string_length_app (s t : string) : String.length (s ++ t) = (String.length s + String.length t)%nat.
Proof. by rewrite <- !bytes_length, bytes_app, length_app. Qed.

Lemma has_prefix_split s p : has_prefix s p = true → s = (p ++ drop_bytes (String.length p) s)%string.
Proof.
  revert s. induction p as [|a p IH]; intros [|b s]; cbn [has_prefix]; try done.
  intros [->%Ascii.eqb_eq H]%andb_true_iff. change (String b s = String b (p ++ drop_bytes (String.length p) s)). f_equal. by apply IH.
Qed.

Lemma itoa_nat_short n : (n < 100)%nat → (String.length (itoa_nat n) ≤ 2)%nat.
Proof.
  intros Hn. assert (Forall (λ n, String.length (itoa_nat n) ≤ 2)%nat (seq 0 100)) as H.
  { apply (bool_decide_unpack _). by vm_compute. }
  rewrite Forall_forall in H. apply H, elem_of_seq. lia.
Qed.

(** ASCII without spaces and control characters. *)
Definition graphic (c : Z) : bool := (33 <=? c) && (c <=? 126).

Lemma itoa_graphic z : all_bytes graphic (itoa z) = true.
Proof. apply (all_bytes_impl name_char); [byte_classes|apply itoa_name]. Qed.

Lemma part_graphic p :
  all_bytes graphic p = true → (String.length p < 100)%nat →
  all_bytes graphic (len_prefixed p) = true ∧ (String.length (len_prefixed p) ≤ 3 + String.length p)%nat.
Proof.
  intros Hg Hl. unfold len_prefixed. rewrite !all_bytes_app, !string_length_app, Hg. split.
  - change (all_bytes graphic ":") with true. rewrite !andb_true_r. apply (all_bytes_impl is_digit); [byte_classes|apply uint_digits].
  - pose proof (itoa_nat_short _ Hl). cbn. lia.
Qed.
