(* ===== verification/Queue.v ===== *)
(** The durable execution queue, [trpcservice/runtime/queue/queue.go]: the task
    record and its lease, the in-memory store shared by several views, and the
    worker that claims, handles and settles one task at a time.

    A method that takes the backend mutex is one atomic action on [Backend].
    [time.Now] readings are arguments; [cloneTask] is the identity on values. *)
From Stdlib Require Import Ascii String.
From S2P Require Import Prelude GoStrings.
Local Open Scope Z_scope.

(** * Data *)

Inductive error :=
| ErrInvalid | ErrNotFound | ErrConflict | ErrClosed
| ErrContext (e : ctx_error).

Inductive Status :=
| StatusQueued | StatusLeased | StatusRetryable | StatusCompleted | StatusFailed.

#[export] Instance error_eq_dec : EqDecision error.
Proof. solve_decision. Defined.
#[export] Instance Status_eq_dec : EqDecision Status.
Proof. solve_decision. Defined.

Record Task := mkTask {
  TenantID : string;
  TaskID : string;
  Kind : string;
  Payload : string;
  TStatus : Status;
  Attempts : Z;
  FencingToken : Z;
  LeaseOwner : string;
  LeaseExpiresAt : option time;
  NextAttemptAt : time;
  LastErrorClass : string;
  CreatedAt : time;
  UpdatedAt : time
}.
#[export] Instance Task_eq_dec : EqDecision Task.
Proof. solve_decision. Defined.

Record TaskInput := mkTaskInput {
  in_TenantID : string;
  in_TaskID : string;
  in_Kind : string;
  in_Payload : string
}.

Record Backend := mkBackend {
  tasks : gmap string Task;
  refs : Z;
  closed : bool
}.

(** A store view: the shared backend and whether this view was closed. *)
Record MemoryStore := mkMemoryStore {
  closeDone : bool
}.

Definition set_tasks (m : gmap string Task) (b : Backend) : Backend :=
  mkBackend m (refs b) (closed b).

(** * The in-memory store *)

Definition NewBackend : Backend := mkBackend ∅ 1 false.

Definition NewMemoryWithBackend (b : option Backend) : Backend * MemoryStore :=
  match b with
  | None => (NewBackend, mkMemoryStore false)
  | Some b =>
      (if negb (closed b) then mkBackend (tasks b) (incr64 (refs b)) (closed b) else b,
       mkMemoryStore false)
  end.

Definition contextErr (ctx : context) : result error unit :=
  match ctx with
  | None => Err ErrInvalid
  | Some c => match c 0%nat with Some e => Err (ErrContext e) | None => Ok () end
  end.

Definition validateInput (value : TaskInput) : result error unit :=
  if (in_TenantID value =? "")%string || (in_TaskID value =? "")%string
     || (in_Kind value =? "")%string || (len (in_Payload value) =? 0)
  then Err ErrInvalid else Ok ().

(** [tenantID + "\x00" + taskID]. *)
Definition task_key (tenantID taskID : string) : string :=
  (tenantID ++ String Ascii.zero taskID)%string.

Definition Enqueue (ctx : context) (now : time) (input : TaskInput)
    : act Backend error (Task * bool) :=
  _ ← lift (contextErr ctx);
  _ ← lift (validateInput input);
  b ← get;
  _ ← ensure (negb (closed b)) ErrClosed;
  let k := task_key (in_TenantID input) (in_TaskID input) in
  match tasks b !! k with
  | Some existing =>
      if negb (Kind existing =? in_Kind input)%string
         || negb (Payload existing =? in_Payload input)%string
      then throw ErrConflict
      else mret (existing, true)
  | None =>
      let task := mkTask (in_TenantID input) (in_TaskID input) (in_Kind input)
        (in_Payload input) StatusQueued 0 0 "" None now "" now now in
      _ ← put (set_tasks (<[k := task]> (tasks b)) b);
      mret (task, false)
  end.

Definition Get (ctx : context) (tenantID taskID : string) : act Backend error Task :=
  _ ← lift (contextErr ctx);
  _ ← ensure (negb ((tenantID =? "")%string || (taskID =? "")%string)) ErrInvalid;
  b ← get;
  match tasks b !! task_key tenantID taskID with
  | None => throw ErrNotFound
  | Some task => mret task
  end.

(** The tests of the loop over the task map in [Claim]. *)
Definition claimable (tenantID : string) (now : time) (task : Task) : bool :=
  if negb (tenantID =? "")%string && negb (TenantID task =? tenantID)%string then false
  else
    let eligible :=
      (bool_decide (TStatus task = StatusQueued) || bool_decide (TStatus task = StatusRetryable))
        && negb (after (NextAttemptAt task) now) in
    match LeaseExpiresAt task with
    | Some e => if bool_decide (TStatus task = StatusLeased) && negb (after e now)
                then true else eligible
    | None => eligible
    end.

(** The comparison function given to [sort.Slice]: older first, then by key. *)
Definition claim_le (x y : string * Task) : Prop :=
  CreatedAt x.2 < CreatedAt y.2 ∨ (CreatedAt x.2 = CreatedAt y.2 ∧ String.le x.1 y.1).

#[export] Instance claim_le_dec : RelDecision claim_le.
Proof. intros x y. unfold claim_le. apply _. Defined.

(** The assignments that lease a task, and those that settle a leased one. *)
Definition lease_task (now : time) (owner : string) (leaseDuration : duration)
    (task : Task) : Task :=
  mkTask (TenantID task) (TaskID task) (Kind task) (Payload task)
    StatusLeased (incr64 (Attempts task)) (incr64 (FencingToken task))
    owner (Some (add_duration now leaseDuration)) (NextAttemptAt task)
    (LastErrorClass task) (CreatedAt task) now.

Definition settle_task (stamp : time) (status : Status) (class : string) (next : time)
    (task : Task) : Task :=
  mkTask (TenantID task) (TaskID task) (Kind task) (Payload task)
    status (Attempts task) (FencingToken task) "" None next class
    (CreatedAt task) stamp.

Definition Claim (ctx : context) (now : time) (tenantID owner : string)
    (leaseDuration : duration) : act Backend error Task :=
  _ ← lift (contextErr ctx);
  _ ← ensure (negb ((owner =? "")%string || (leaseDuration <=? 0))) ErrInvalid;
  b ← get;
  _ ← ensure (negb (closed b)) ErrClosed;
  let keys := filter (λ kt, claimable tenantID now kt.2) (map_to_list (tasks b)) in
  match merge_sort claim_le keys with
  | [] => throw ErrNotFound
  | (key, task) :: _ =>
      let task' := lease_task now owner leaseDuration task in
      _ ← put (set_tasks (<[key := task']> (tasks b)) b);
      mret task'
  end.

(** [check] and [stamp] are the two [time.Now] readings of [transition]. *)
Definition transition (ctx : context) (check stamp : time)
    (tenantID taskID owner : string) (fence : Z) (status : Status) (class : string)
    (next : time) : act Backend error Task :=
  _ ← lift (contextErr ctx);
  _ ← ensure (negb ((tenantID =? "")%string || (taskID =? "")%string
                    || (owner =? "")%string || (fence <=? 0))) ErrInvalid;
  b ← get;
  let k := task_key tenantID taskID in
  match tasks b !! k with
  | None => throw ErrNotFound
  | Some task =>
      if bool_decide (TStatus task ≠ StatusLeased)
         || negb (LeaseOwner task =? owner)%string
         || negb (FencingToken task =? fence)
         || match LeaseExpiresAt task with
            | Some e => negb (after e check)
            | None => false
            end
      then throw ErrConflict
      else
        let task' := settle_task stamp status class next task in
        _ ← put (set_tasks (<[k := task']> (tasks b)) b);
        mret task'
  end.

Definition Complete ctx check stamp tenantID taskID owner fence :=
  transition ctx check stamp tenantID taskID owner fence StatusCompleted "" zero_time.
Definition Retry ctx check stamp tenantID taskID owner fence next class :=
  transition ctx check stamp tenantID taskID owner fence StatusRetryable class next.
Definition Fail_ ctx check stamp tenantID taskID owner fence class :=
  transition ctx check stamp tenantID taskID owner fence StatusFailed class zero_time.

Definition Close (v : MemoryStore) (b : Backend) : MemoryStore * Backend :=
  if closeDone v then (v, b)
  else
    let refs' := if 0 <? refs b then refs b - 1 else refs b in
    (mkMemoryStore true,
     mkBackend (tasks b) refs' (if refs' =? 0 then true else closed b)).

(** * Interleavings: a run is a sequence of atomic store operations *)

Inductive op :=
| OpEnqueue (ctx : context) (now : time) (input : TaskInput)
| OpClaim (ctx : context) (now : time) (tenantID owner : string) (lease : duration)
| OpTransition (ctx : context) (check stamp : time) (tenantID taskID owner : string)
    (fence : Z) (status : Status) (class : string) (next : time)
| OpRetain
| OpClose (v : MemoryStore).

(** [transition] is only reached through [Complete], [Retry] and [Fail]. *)
Definition settles (st : Status) : bool :=
  match st with
  | StatusCompleted | StatusRetryable | StatusFailed => true
  | StatusQueued | StatusLeased => false
  end.

Definition exec (o : op) (b : Backend) : Backend :=
  match o with
  | OpEnqueue ctx now input => (Enqueue ctx now input b).1
  | OpClaim ctx now tenantID owner lease => (Claim ctx now tenantID owner lease b).1
  | OpTransition ctx check stamp tenantID taskID owner fence status class next =>
      if settles status
      then (transition ctx check stamp tenantID taskID owner fence status class next b).1
      else b
  | OpRetain => (NewMemoryWithBackend (Some b)).1
  | OpClose v => (Close v b).2
  end.

Definition run (os : list op) (b : Backend) : Backend := foldl (λ b o, exec o b) b os.

(** * The worker *)

(** Handler errors: what [errors.Is] and [errors.As] see through [Unwrap]. *)
Inductive herror :=
| HContext (e : ctx_error)
| HOther
| HWrap (cause : herror)
| HRetryable (cause : option herror).

Fixpoint errors_is_ctx (err : herror) (target : ctx_error) : bool :=
  match err with
  | HContext e => bool_decide (e = target)
  | HOther => false
  | HWrap cause => errors_is_ctx cause target
  | HRetryable (Some cause) => errors_is_ctx cause target
  | HRetryable None => false
  end.

Fixpoint isRetryable (err : herror) : bool :=
  match err with
  | HContext _ | HOther => false
  | HWrap cause => isRetryable cause
  | HRetryable _ => true
  end.

(** The package-level constructor [Retry] of retryable errors. *)
Definition RetryErr (err : option herror) : option herror :=
  match err with
  | None => None
  | Some e => Some (HRetryable (Some e))
  end.

Definition errorClass (err : option herror) : string :=
  match err with
  | None => ""
  | Some e =>
      if errors_is_ctx e Canceled then "canceled"
      else if errors_is_ctx e DeadlineExceeded then "deadline_exceeded"
      else "handler_error"
  end.

Record Config := mkConfig {
  cfg_hasStore : bool;
  cfg_hasHandler : bool;
  cfg_TenantID : string;
  cfg_Owner : string;
  cfg_LeaseDuration : duration;
  cfg_PollInterval : duration;
  cfg_MaxAttempts : Z;
  cfg_BackoffBase : duration;
  cfg_BackoffMax : duration
}.

Record Worker := mkWorker {
  w_tenantID : string;
  w_owner : string;
  w_leaseDuration : duration;
  w_pollInterval : duration;
  w_maxAttempts : Z;
  w_backoffBase : duration;
  w_backoffMax : duration;
  w_started : bool;
  w_closed : bool
}.

Definition default_pos (v dflt : Z) : Z := if v <=? 0 then dflt else v.

Definition New (config : Config) : result error Worker :=
  if negb (cfg_hasStore config) || negb (cfg_hasHandler config)
     || (cfg_Owner config =? "")%string || (cfg_LeaseDuration config <=? 0)
  then Err ErrInvalid
  else
    let poll := default_pos (cfg_PollInterval config) (100 * millisecond) in
    let maxAttempts := default_pos (cfg_MaxAttempts config) 3 in
    let base := default_pos (cfg_BackoffBase config) (100 * millisecond) in
    let max := default_pos (cfg_BackoffMax config) (10 * second) in
    if max <? base then Err ErrInvalid
    else Ok (mkWorker (cfg_TenantID config) (cfg_Owner config) (cfg_LeaseDuration config)
      poll maxAttempts base max false false).

(** [Start] and [Close] of the run loop, as changes of the worker's flags. *)
Definition Start (ctx : context) (w : Worker) : Worker * result error unit :=
  match ctx with
  | None => (w, Err ErrInvalid)
  | Some _ =>
      if w_closed w || w_started w then (w, Err ErrClosed)
      else (mkWorker (w_tenantID w) (w_owner w) (w_leaseDuration w) (w_pollInterval w)
              (w_maxAttempts w) (w_backoffBase w) (w_backoffMax w) true (w_closed w), Ok ())
  end.

Definition CloseWorker (w : Worker) : Worker :=
  if w_closed w then w
  else mkWorker (w_tenantID w) (w_owner w) (w_leaseDuration w) (w_pollInterval w)
         (w_maxAttempts w) (w_backoffBase w) (w_backoffMax w) (w_started w) true.

(** The loop of [backoff]: [n] is the number of iterations left. *)
Fixpoint backoff_loop (n : nat) (max d : duration) : duration :=
  match n with
  | O => if max <? d then max else d
  | S n' => if max `quot` 2 <=? d then max else backoff_loop n' max (wrap64 (d * 2))
  end.

Definition backoff (w : Worker) (attempt : Z) : duration :=
  backoff_loop (Z.to_nat (attempt - 1)) (w_backoffMax w) (w_backoffBase w).

(** The store surface that a worker uses, as operations on a shared state. *)
Class Store (S : Type) := {
  st_Claim : context → time → string → string → duration → act S error Task;
  st_Complete : context → time → time → string → string → string → Z → act S error Task;
  st_Retry : context → time → time → string → string → string → Z → time → string →
    act S error Task;
  st_Fail : context → time → time → string → string → string → Z → string →
    act S error Task
}.

#[export] Instance memory_store : Store Backend := {|
  st_Claim := Claim;
  st_Complete := Complete;
  st_Retry := Retry;
  st_Fail := Fail_
|}.

(** One pass of the worker; the result is Go's [(bool, error)].  The handler
    runs without the store's lock: [others] is what the rest of the system does
    to the shared state meanwhile.  [clk 0] is read by [Claim], [clk 1] for the
    retry time, [clk 2] and [clk 3] by the settling transition.  [hint] is the
    tenant carried by the context. *)
Definition RunOnce {S} `{Store S} (w : Worker) (ctx : context) (hint : string)
    (clk : clock) (handler : Task → option herror) (others : S → S) (s : S)
    : S * (bool * option error) :=
  match ctx with
  | None => (s, (false, Some ErrInvalid))
  | Some c =>
      if w_closed w then (s, (false, Some ErrClosed))
      else match c 0%nat with
      | Some e => (s, (false, Some (ErrContext e)))
      | None =>
          let tenantID := if (w_tenantID w =? "")%string then hint else w_tenantID w in
          match st_Claim (ctx_from 1 ctx) (clk 0%nat) tenantID (w_owner w)
                  (w_leaseDuration w) s with
          | (s1, Err e) => (s1, (false, if bool_decide (e = ErrNotFound) then None else Some e))
          | (s1, Ok task) =>
              let err := handler task in
              let settle (m : act S error Task) := match m (others s1) with
                | (s3, Ok _) => (s3, (true, None))
                | (s3, Err e) => (s3, (true, Some e))
                end in
              match err with
              | None => settle (st_Complete (ctx_from 2 ctx) (clk 2%nat) (clk 3%nat)
                          (TenantID task) (TaskID task) (w_owner w) (FencingToken task))
              | Some e =>
                  let class := errorClass err in
                  if (errors_is_ctx e Canceled || errors_is_ctx e DeadlineExceeded
                      || isRetryable e) && (Attempts task <? w_maxAttempts w)
                  then settle (st_Retry background (clk 2%nat) (clk 3%nat)
                         (TenantID task) (TaskID task) (w_owner w) (FencingToken task)
                         (add_duration (clk 1%nat) (backoff w (Attempts task))) class)
                  else settle (st_Fail background (clk 2%nat) (clk 3%nat)
                         (TenantID task) (TaskID task) (w_owner w) (FencingToken task) class)
              end
          end
      end
  end.

(** * The store invariant *)

(** A stored task sits under its own key, has its identity and payload, counts
    attempts by its fence, and carries a lease exactly while it is leased. *)
Definition task_ok (k : string) (t : Task) : Prop :=
  k = task_key (TenantID t) (TaskID t)
  ∧ TenantID t ≠ "" ∧ TaskID t ≠ "" ∧ Kind t ≠ "" ∧ Payload t ≠ ""
  ∧ 0 ≤ FencingToken t ∧ Attempts t = FencingToken t
  ∧ (TStatus t = StatusQueued → FencingToken t = 0)
  ∧ (TStatus t ≠ StatusQueued → 1 ≤ FencingToken t)
  ∧ (TStatus t = StatusLeased → LeaseOwner t ≠ "" ∧ is_Some (LeaseExpiresAt t))
  ∧ (TStatus t ≠ StatusLeased → LeaseOwner t = "" ∧ LeaseExpiresAt t = None).

Definition wf (b : Backend) : Prop := map_Forall task_ok (tasks b).

(** Every fence can still be advanced [n] times within [int64]. *)
Definition fence_room (n : nat) (b : Backend) : Prop :=
  Z.of_nat n ≤ int64_max ∧
  map_Forall (λ _ t, FencingToken t + Z.of_nat n ≤ int64_max) (tasks b).

(** Fence [f] of the task under [k] can no longer settle anything. *)
Definition spent (f : Z) (k : string) (b : Backend) : Prop :=
  ∃ t, tasks b !! k = Some t ∧
    (f < FencingToken t ∨ (FencingToken t = f ∧ TStatus t ≠ StatusLeased)).

Definition terminal (st : Status) : bool :=
  match st with StatusCompleted | StatusFailed => true | _ => false end.

(** [t] is leased by its owner and the lease is still running at [check]. *)
Definition holds_lease (t : Task) (check : time) : Prop :=
  TenantID t ≠ "" ∧ TaskID t ≠ "" ∧ TStatus t = StatusLeased ∧ LeaseOwner t ≠ ""
  ∧ 0 < FencingToken t ∧ (∀ e, LeaseExpiresAt t = Some e → check < e).

(** What a worker relies on: a claimed task is visible under its identity, and a
    settling call made by the holder of a live lease takes effect. *)
Class StoreLaws (S : Type) `{Store S} := {
  st_inv : S → Prop;
  st_lookup : S → string → string → option Task;
  st_Claim_law ctx now tn owner d s s1 t :
    st_inv s → st_Claim ctx now tn owner d s = (s1, Ok t) →
    st_lookup s1 (TenantID t) (TaskID t) = Some t ∧ LeaseOwner t = owner
    ∧ (∀ check, check < now + d → holds_lease t check);
  st_Complete_law ctx check stamp t s :
    contextErr ctx = Ok () → holds_lease t check →
    st_lookup s (TenantID t) (TaskID t) = Some t →
    let t' := settle_task stamp StatusCompleted "" zero_time t in
    ∃ s', st_Complete ctx check stamp (TenantID t) (TaskID t) (LeaseOwner t)
            (FencingToken t) s = (s', Ok t')
          ∧ st_lookup s' (TenantID t) (TaskID t) = Some t';
  st_Retry_law ctx check stamp next class t s :
    contextErr ctx = Ok () → holds_lease t check →
    st_lookup s (TenantID t) (TaskID t) = Some t →
    let t' := settle_task stamp StatusRetryable class next t in
    ∃ s', st_Retry ctx check stamp (TenantID t) (TaskID t) (LeaseOwner t)
            (FencingToken t) next class s = (s', Ok t')
          ∧ st_lookup s' (TenantID t) (TaskID t) = Some t';
  st_Fail_law ctx check stamp class t s :
    contextErr ctx = Ok () → holds_lease t check →
    st_lookup s (TenantID t) (TaskID t) = Some t →
    let t' := settle_task stamp StatusFailed class zero_time t in
    ∃ s', st_Fail ctx check stamp (TenantID t) (TaskID t) (LeaseOwner t)
            (FencingToken t) class s = (s', Ok t')
          ∧ st_lookup s' (TenantID t) (TaskID t) = Some t'
}.

(** * Lemmas on single operations *)

#[export] Instance claim_le_trans : Transitive claim_le.
Proof.
  intros x y z [?|[??]] [?|[??]]; unfold claim_le; [lia..|].
  right. split; [lia|]. by etrans.
Qed.

#[export] Instance claim_le_total : Total claim_le.
Proof.
  intros x y. unfold claim_le.
  destruct (Z.lt_total (CreatedAt x.2) (CreatedAt y.2)) as [?|[?|?]]; [auto| |auto].
  destruct (total String.le x.1 y.1); auto.
Qed.

(** Everything a successful [Claim] does, and that a failing one does nothing. *)
Lemma Claim_inv ctx now tn owner d b b' r :
  Claim ctx now tn owner d b = (b', r) →
  (b' = b ∧ ∃ e, r = Err e) ∨
  ∃ k t, tasks b !! k = Some t ∧ claimable tn now t = true
    ∧ (∀ k2 t2, tasks b !! k2 = Some t2 → claimable tn now t2 = true →
         claim_le (k, t) (k2, t2))
    ∧ owner ≠ "" ∧ 0 < d ∧ closed b = false
    ∧ r = Ok (lease_task now owner d t)
    ∧ b' = set_tasks (<[k := lease_task now owner d t]> (tasks b)) b.
Proof.
  unfold Claim. intros H. go_step; try (left; by eauto).
  match goal with H : merge_sort _ _ = _ |- _ =>
    apply (merge_sort_head claim_le) in H as [Hin Hmin] end.
  apply list_elem_of_filter in Hin as [Hc Hin]. apply elem_of_map_to_list in Hin.
  bool_prop. right. eexists _, _. split_and!; eauto.
  - by destruct (claimable _ _ _).
  - intros k2 t2 Hk Hc2. apply Hmin, list_elem_of_filter.
    split; [simpl; by rewrite Hc2|by apply elem_of_map_to_list].
Qed.

Lemma transition_inv ctx check stamp tn id owner f st class next b b' r :
  transition ctx check stamp tn id owner f st class next b = (b', r) →
  (b' = b ∧ ∃ e, r = Err e) ∨
  ∃ t, tasks b !! task_key tn id = Some t ∧ TStatus t = StatusLeased
    ∧ LeaseOwner t = owner ∧ FencingToken t = f ∧ 0 < f
    ∧ (∀ e, LeaseExpiresAt t = Some e → check < e)
    ∧ r = Ok (settle_task stamp st class next t)
    ∧ b' = set_tasks (<[task_key tn id := settle_task stamp st class next t]> (tasks b)) b.
Proof.
  unfold transition. intros H. go_step; try (left; by eauto).
  all: right; eexists; bool_prop; unfold after in *; bool_prop;
    split_and!; eauto; try lia; try congruence.
  all: by apply dec_stable.
Qed.

Lemma Enqueue_inv ctx now input b b' r :
  Enqueue ctx now input b = (b', r) →
  b' = b ∨
  (validateInput input = Ok () ∧
   tasks b !! task_key (in_TenantID input) (in_TaskID input) = None ∧
   b' = set_tasks (<[task_key (in_TenantID input) (in_TaskID input) :=
      mkTask (in_TenantID input) (in_TaskID input) (in_Kind input)
        (in_Payload input) StatusQueued 0 0 "" None now "" now now]> (tasks b)) b).
Proof.
  unfold Enqueue. intros H. go_step; auto.
Qed.

Lemma validateInput_ok input :
  validateInput input = Ok () ↔
  in_TenantID input ≠ "" ∧ in_TaskID input ≠ "" ∧ in_Kind input ≠ "" ∧ in_Payload input ≠ "".
Proof.
  unfold validateInput.
  assert ((len (in_Payload input) =? 0) = (in_Payload input =? "")%string) as ->.
  { by destruct (in_Payload input). }
  split.
  - intros. go_step; bool_prop; by split_and!.
  - intros (?&?&?&?). by rewrite !(proj2 (String.eqb_neq _ _)).
Qed.

(** * Preservation of the invariant *)

Lemma wf_Enqueue ctx now input b : wf b → wf (Enqueue ctx now input b).1.
Proof.
  intros Hwf. destruct (Enqueue ctx now input b) as [b' r] eqn:E. simpl.
  apply Enqueue_inv in E as [->|(Hin & _ & ->)]; [done|].
  apply validateInput_ok in Hin as (?&?&?&?).
  apply map_Forall_insert_at; [done|]. repeat split; naive_solver lia.
Qed.

Lemma wf_Claim ctx now tn owner d b :
  wf b → fence_room 1 b → wf (Claim ctx now tn owner d b).1.
Proof.
  intros Hwf [_ Hroom]. destruct (Claim ctx now tn owner d b) as [b' r] eqn:E. simpl.
  apply Claim_inv in E as [[-> _]|(k & t & Ht & _ & _ & Ho & _ & _ & _ & ->)]; [done|].
  apply map_Forall_insert_at; [done|].
  specialize (Hroom _ _ Ht). simpl in Hroom.
  destruct (Hwf _ _ Ht) as (-> & ? & ? & ? & ? & ? & Ha & _).
  unfold int64_min, int64_max, task_ok in *; simpl.
  rewrite !incr64_small by (unfold int64_min, int64_max; lia).
  split_and!; auto; naive_solver lia.
Qed.

Lemma wf_transition ctx check stamp tn id owner f st class next b :
  settles st = true → wf b →
  wf (transition ctx check stamp tn id owner f st class next b).1.
Proof.
  intros Hst Hwf.
  destruct (transition ctx check stamp tn id owner f st class next b) as [b' r] eqn:E.
  simpl. apply transition_inv in E
    as [[-> _]|(t & Ht & Hl & _ & <- & ? & _ & _ & ->)]; [done|].
  apply map_Forall_insert_at; [done|].
  destruct (Hwf _ _ Ht) as (? & ? & ? & ? & ? & ? & ? & _).
  unfold task_ok; simpl. split_and!; auto; destruct st; naive_solver lia.
Qed.

(** The fence of a task under [k] after one operation. *)
Lemma exec_cases o b k t :
  tasks b !! k = Some t →
  ∃ t', tasks (exec o b) !! k = Some t' ∧
    (t' = t
     ∨ (∃ now owner d tn, t' = lease_task now owner d t ∧ claimable tn now t = true)
     ∨ (TStatus t = StatusLeased ∧
        ∃ stamp st class next, settles st = true ∧ t' = settle_task stamp st class next t)).
Proof.
  intros Ht. destruct o; simpl.
  - destruct (Enqueue ctx now input b) as [b' r] eqn:E. simpl.
    apply Enqueue_inv in E as [->|(_ & Hn & ->)]; [by eauto|].
    exists t. split; [|by auto]. simpl. rewrite lookup_insert_ne; [done|]. congruence.
  - destruct (Claim ctx now tenantID owner lease b) as [b' r] eqn:E. simpl.
    apply Claim_inv in E as [[-> _]|(k2 & t2 & Ht2 & Hc & _ & _ & _ & _ & _ & ->)];
      [by eauto|]. simpl.
    destruct (decide (k2 = k)) as [->|]; simplify_map_eq; eauto 10.
  - destruct (settles status) eqn:Hst; [|by eauto].
    destruct (transition ctx check stamp tenantID taskID owner fence status class next b)
      as [b' r] eqn:E. simpl.
    apply transition_inv in E as [[-> _]|(t2 & Ht2 & Hl & _ & _ & _ & _ & _ & ->)];
      [by eauto|]. simpl.
    destruct (decide (task_key tenantID taskID = k)) as [<-|]; simplify_map_eq; [|by eauto].
    eexists. split; [done|]. right; right. eauto 10.
  - exists t. split; [|by auto]. by destruct (closed b).
  - exists t. split; [|by auto]. unfold Close. by destruct (closeDone v).
Qed.

Lemma fence_room_exec n o b :
  fence_room (S n) b → wf b → fence_room n (exec o b).
Proof.
  intros [Hn Hroom] Hwf. split; [unfold int64_max in *; lia|].
  intros k t' Ht'. destruct (tasks b !! k) as [t|] eqn:Ht.
  - destruct (exec_cases o b k t Ht) as (t2 & Ht2 & Hcase). simplify_eq.
    specialize (Hroom _ _ Ht). simpl in Hroom. destruct (Hwf _ _ Ht) as (_&_&_&_&_&?&_).
    destruct Hcase as [->|[(?&?&?&?&->&_)|(_&?&?&?&?&_&->)]]; simpl; try lia.
    rewrite incr64_small by (unfold int64_min, int64_max in *; lia). lia.
  - destruct o; simpl in Ht'.
    + destruct (Enqueue ctx now input b) as [b' r] eqn:E.
      apply Enqueue_inv in E as [->|(_ & Hnone & ->)]; simpl in *; [congruence|].
      apply lookup_insert_Some in Ht' as [[_ <-]|[_ ?]]; simpl; [lia|congruence].
    + destruct (Claim ctx now tenantID owner lease b) as [b' r] eqn:E.
      apply Claim_inv in E as [[-> _]|(k2 & t2 & Ht2 & _ & _ & _ & _ & _ & _ & ->)];
        simpl in *; [congruence|].
      apply lookup_insert_Some in Ht' as [[? <-]|[_ ?]]; congruence.
    + destruct (settles status); [|congruence].
      destruct (transition ctx check stamp tenantID taskID owner fence status class next b)
        as [b' r] eqn:E.
      apply transition_inv in E as [[-> _]|(t2 & Ht2 & _ & _ & _ & _ & _ & _ & ->)];
        simpl in *; [congruence|].
      apply lookup_insert_Some in Ht' as [[? <-]|[_ ?]]; congruence.
    + destruct (closed b); simpl in *; congruence.
    + unfold Close in Ht'. destruct (closeDone v); simpl in *; congruence.
Qed.

Lemma wf_exec o b : wf b → fence_room 1 b → wf (exec o b).
Proof.
  intros Hwf Hroom. destruct o; simpl; auto using wf_Enqueue, wf_Claim.
  - destruct (settles status) eqn:?; auto using wf_transition.
  - by destruct (closed b).
  - unfold Close. by destruct (closeDone v).
Qed.

Lemma fence_room_le m n b : (m ≤ n)%nat → fence_room n b → fence_room m b.
Proof.
  intros Hle [Hn Hr]. split; [lia|]. intros k t Ht. specialize (Hr k t Ht). simpl in *. lia.
Qed.

Lemma run_app os1 os2 b : run (os1 ++ os2) b = run os2 (run os1 b).
Proof. apply foldl_app. Qed.

Lemma run_preserves os n b :
  wf b → fence_room (length os + n) b → wf (run os b) ∧ fence_room n (run os b).
Proof.
  revert b. induction os as [|o os IH]; intros b Hwf Hroom; [done|].
  apply IH; [|by apply fence_room_exec].
  eapply wf_exec, fence_room_le; [done| |done]. simpl. lia.
Qed.

(** * Fencing *)

Lemma spent_exec f k o b :
  wf b → fence_room 1 b → spent f k b → spent f k (exec o b).
Proof.
  intros Hwf [_ Hroom] (t & Ht & Hs).
  destruct (exec_cases o b k t Ht) as (t' & Ht' & Hcase). exists t'. split; [done|].
  specialize (Hroom _ _ Ht). simpl in Hroom. destruct (Hwf _ _ Ht) as (_&_&_&_&_&?&_).
  destruct Hcase as [->|[(?&?&?&?&->&_)|(Hl&?&?&?&?&?&->)]]; simpl; [done| |naive_solver].
  left. rewrite incr64_small by (unfold int64_min, int64_max in *; lia). lia.
Qed.

Lemma spent_run f k os b :
  wf b → fence_room (length os) b → spent f k b → spent f k (run os b).
Proof.
  revert b. induction os as [|o os IH]; intros b Hwf Hroom Hs; [done|].
  assert (fence_room 1 b) by (eapply fence_room_le; [|done]; simpl; lia).
  apply IH; auto using wf_exec, spent_exec, fence_room_exec.
Qed.

Lemma spent_rejects f f' ctx check stamp tn id owner st class next b :
  spent f (task_key tn id) b → f' ≤ f →
  ∃ e, transition ctx check stamp tn id owner f' st class next b = (b, Err e).
Proof.
  intros (t & Ht & Hs) Hle.
  destruct (transition ctx check stamp tn id owner f' st class next b) as [b' r] eqn:E.
  apply transition_inv in E as [[-> [e ->]]|(t2 & Ht2 & Hl & _ & Hf & _)]; [by eauto|].
  simplify_eq. destruct Hs as [?|[? ?]]; [lia|done].
Qed.

(** C1: one fence settles at most one outcome.  After [Complete], [Retry] or
    [Fail] succeeds under fence [f], no sequence of operations by any clients
    ever lets a transition on that task succeed again under [f] or an older
    fence; the attempt changes nothing.  Bounded only by the [int64] fence. *)
Theorem fence_settles_once ctx check stamp tn id owner f st class next b b1 t os
    ctx' check' stamp' owner' f' st' class' next' :
  wf b → fence_room (S (length os)) b → settles st = true →
  transition ctx check stamp tn id owner f st class next b = (b1, Ok t) →
  f' ≤ f →
  ∃ e, transition ctx' check' stamp' tn id owner' f' st' class' next' (run os b1)
       = (run os b1, Err e).
Proof.
  intros Hwf Hroom Hst Hok Hle. eapply spent_rejects; [|done].
  assert (b1 = exec (OpTransition ctx check stamp tn id owner f st class next) b) as Hb1.
  { simpl. by rewrite Hst, Hok. }
  apply spent_run.
  - rewrite Hb1. apply wf_exec; [done|]. eapply fence_room_le; [|done]. lia.
  - rewrite Hb1. by apply fence_room_exec.
  - apply transition_inv in Hok
      as [[_ [??]]|(t0 & Ht0 & _ & _ & <- & _ & _ & _ & ->)]; [done|].
    exists (settle_task stamp st class next t0). split; [apply lookup_insert_eq|].
    right. split; [done|]. by destruct st.
Qed.

(** A lease taken over fences out the previous holder.  Once a task is
    claimed again, every transition that carries an older fence fails, however
    the operations of other clients interleave. *)
Theorem takeover_fences_out ctx now tn owner d b b1 t os
    ctx' check' stamp' owner' f' st' class' next' :
  wf b → fence_room (S (length os)) b →
  Claim ctx now tn owner d b = (b1, Ok t) →
  f' < FencingToken t →
  ∃ e, transition ctx' check' stamp' (TenantID t) (TaskID t) owner' f' st' class' next'
         (run os b1) = (run os b1, Err e).
Proof.
  intros Hwf Hroom Hok Hlt. eapply (spent_rejects (FencingToken t - 1)); [|lia].
  assert (b1 = exec (OpClaim ctx now tn owner d) b) as Hb1 by (simpl; by rewrite Hok).
  apply spent_run.
  - rewrite Hb1. apply wf_exec; [done|]. eapply fence_room_le; [|done]. lia.
  - rewrite Hb1. by apply fence_room_exec.
  - apply Claim_inv in Hok
      as [[_ [??]]|(k & t0 & Ht0 & _ & _ & _ & _ & _ & [= ->] & ->)]; [done|].
    destruct (Hwf _ _ Ht0) as [-> _].
    exists (lease_task now owner d t0). split; [apply lookup_insert_eq|]. left. lia.
Qed.

(** The store invariant holds after every sequence of operations on a fresh
    backend: a task is stored under its own key with a non-empty identity and
    payload, its attempt count is its fence, and it carries an owner and an
    expiry exactly while it is leased. *)
Theorem run_wf os : Z.of_nat (length os) ≤ int64_max → wf (run os NewBackend).
Proof.
  intros Hlen. apply (run_preserves os 0).
  - apply map_Forall_empty.
  - split; [lia|apply map_Forall_empty].
Qed.

(** A completed or dead-lettered task is final: no sequence of operations
    changes any field of it. *)
Theorem terminal_task_final os b k t :
  tasks b !! k = Some t → terminal (TStatus t) = true → tasks (run os b) !! k = Some t.
Proof.
  revert b. induction os as [|o os IH]; intros b Ht Hterm; [done|].
  apply IH; [|done]. destruct (exec_cases o b k t Ht) as (t' & Ht' & Hcase).
  destruct Hcase as [->|[(now&?&?&tn&->&Hc)|(Hl&_)]]; [done| |by rewrite Hl in Hterm].
  exfalso. unfold claimable in Hc. destruct (TStatus t); simpl in *; try done;
    repeat case_match; done.
Qed.

(** [Claim] is complete and fair.  With valid arguments on an open store it
    fails exactly when no task is eligible; otherwise it leases an eligible task
    of the requested tenant that no other eligible task precedes by creation
    time, advances its fence, and changes no other task. *)
Theorem Claim_oldest_eligible now tn owner d b :
  owner ≠ "" → 0 < d → closed b = false →
  (Claim background now tn owner d b = (b, Err ErrNotFound)
     ∧ ∀ k t, tasks b !! k = Some t → claimable tn now t = false) ∨
  (∃ k t, tasks b !! k = Some t ∧ claimable tn now t = true
     ∧ (tn ≠ "" → TenantID t = tn)
     ∧ (∀ k2 t2, tasks b !! k2 = Some t2 → claimable tn now t2 = true →
          CreatedAt t ≤ CreatedAt t2)
     ∧ Claim background now tn owner d b =
         (set_tasks (<[k := lease_task now owner d t]> (tasks b)) b,
          Ok (lease_task now owner d t))).
Proof.
  intros Ho Hd Hc.
  assert (Hok : Claim background now tn owner d b = (b, Err ErrNotFound)
            ∧ filter (λ kt : string * Task, claimable tn now kt.2) (map_to_list (tasks b)) = []
          ∨ ∃ t, (Claim background now tn owner d b).2 = Ok t).
  { unfold Claim. go_unfold. simpl.
    rewrite (proj2 (String.eqb_neq _ _) Ho), (proj2 (Z.leb_gt _ _) Hd), Hc. simpl.
    destruct (merge_sort claim_le _) as [|[k t] l] eqn:E; [left|right; by eauto].
    split; [done|]. by apply merge_sort_nil in E. }
  destruct Hok as [[Hnf Hnil]|[t' Ht']].
  - left. split; [done|]. intros k t Ht. destruct (claimable tn now t) eqn:Hcl; [|done].
    assert ((k, t) ∈ ([] : list (string * Task))) as []%elem_of_nil.
    rewrite <- Hnil. apply list_elem_of_filter. simpl. rewrite Hcl.
    split; [done|by apply elem_of_map_to_list].
  - right. destruct (Claim background now tn owner d b) as [b' r] eqn:E. simpl in Ht'.
    apply Claim_inv in E as [[_ [e ->]]|(k & t & Ht & Hcl & Hmin & _ & _ & _ & -> & ->)];
      [done|]. exists k, t. split_and!; try done.
    + intros Htn. unfold claimable in Hcl. rewrite (proj2 (String.eqb_neq _ _) Htn) in Hcl.
      destruct (TenantID t =? tn)%string eqn:Et; [by bool_prop|done].
    + intros k2 t2 Hk2 Hc2. destruct (Hmin k2 t2 Hk2 Hc2) as [?|[??]]; simpl in *; lia.
Qed.

(** * Idempotent enqueue *)

Lemma run_identity os b k t :
  tasks b !! k = Some t →
  ∃ t', tasks (run os b) !! k = Some t' ∧ TenantID t' = TenantID t ∧ TaskID t' = TaskID t
    ∧ Kind t' = Kind t ∧ Payload t' = Payload t ∧ CreatedAt t' = CreatedAt t.
Proof.
  revert b t. induction os as [|o os IH]; intros b t Ht; [by eauto 10|].
  destruct (exec_cases o b k t Ht) as (t1 & Ht1 & Hcase).
  destruct (IH (exec o b) t1 Ht1) as (t' & Ht' & H1 & H2 & H3 & H4 & H5).
  exists t'. split; [done|].
  destruct Hcase as [->|[(?&?&?&?&->&_)|(_&?&?&?&?&_&->)]]; simpl in *; by split_and!.
Qed.

(** Enqueueing is idempotent for the life of the store.  Once a task was
    accepted, however the store is used in between, submitting the same input
    again reports a duplicate with the recorded identity and payload and changes
    nothing, and submitting another kind or payload under that identity is a
    conflict that changes nothing. *)
Theorem Enqueue_idempotent ctx now input b b1 t dup os now' input' :
  Enqueue ctx now input b = (b1, Ok (t, dup)) → closed (run os b1) = false →
  in_TenantID input' = in_TenantID input → in_TaskID input' = in_TaskID input →
  validateInput input' = Ok () →
  (input' = input →
     ∃ t', Enqueue background now' input' (run os b1) = (run os b1, Ok (t', true))
       ∧ TenantID t' = TenantID t ∧ TaskID t' = TaskID t ∧ Kind t' = in_Kind input
       ∧ Payload t' = in_Payload input) ∧
  (in_Kind input' ≠ in_Kind input ∨ in_Payload input' ≠ in_Payload input →
     Enqueue background now' input' (run os b1) = (run os b1, Err ErrConflict)).
Proof.
  intros Hok Hopen Htn Hid Hval.
  assert (Hstored : tasks b1 !! task_key (in_TenantID input) (in_TaskID input) = Some t
                    ∧ Kind t = in_Kind input ∧ Payload t = in_Payload input).
  { unfold Enqueue in Hok. go_step; bool_prop; [done|].
    split; [apply lookup_insert_eq|done]. }
  destruct Hstored as (Ht & Hk & Hp).
  destruct (run_identity os b1 _ t Ht) as (t' & Ht' & H1 & H2 & H3 & H4 & _).
  unfold Enqueue. go_unfold. rewrite Hval, Htn, Hid. simpl. rewrite Hopen. simpl.
  rewrite Ht', H3, H4, Hk, Hp. split.
  - intros ->. rewrite !String.eqb_refl. simpl. eexists. split_and!; try done; congruence.
  - intros Hne. destruct (in_Kind input =? in_Kind input')%string eqn:E1; simpl; [|done].
    destruct (in_Payload input =? in_Payload input')%string eqn:E2; simpl; [|done].
    bool_prop. destruct Hne; congruence.
Qed.

(** * Tenant scope of the composite key *)

Lemma task_key_inj tn1 id1 tn2 id2 :
  nul_free tn1 = true → nul_free tn2 = true →
  task_key tn1 id1 = task_key tn2 id2 → tn1 = tn2 ∧ id1 = id2.
Proof. apply nul_split_inj. Qed.

(** Reads are tenant-scoped while tenant identifiers hold no NUL byte: [Get]
    returns a task only to the tenant that enqueued it. *)
Theorem Get_tenant_scoped ctx tn id b b' t :
  wf b → map_Forall (λ _ t, nul_free (TenantID t) = true) (tasks b) → nul_free tn = true →
  Get ctx tn id b = (b', Ok t) → b' = b ∧ TenantID t = tn ∧ TaskID t = id.
Proof.
  intros Hwf Hnul Htn H. unfold Get in H. go_step.
  match goal with Ht : tasks _ !! _ = Some _ |- _ =>
    destruct (Hwf _ _ Ht) as [Hk _]; specialize (Hnul _ _ Ht) end. simpl in Hnul.
  apply task_key_inj in Hk as [-> ->]; auto.
Qed.

(** Without that restriction the key is ambiguous.  Two tenants whose
    identifiers differ by a NUL byte share a key, and one of them reads the task
    that the other enqueued. *)
Theorem task_key_crosses_tenants :
  ∃ (input : TaskInput) (tn id : string),
    tn ≠ in_TenantID input ∧
    (Get background tn id (Enqueue background 1 input NewBackend).1).2
      = Ok (mkTask (in_TenantID input) (in_TaskID input) (in_Kind input) (in_Payload input)
              StatusQueued 0 0 "" None 1 "" 1 1).
Proof.
  exists (mkTaskInput "a" (String "b" (String Ascii.zero "c")) "chat" "p"),
    (String "a" (String Ascii.zero "b")), "c"%string.
  split; [done|]. vm_compute. reflexivity.
Qed.

(** * Retry backoff *)

Lemma backoff_loop_spec n max d :
  0 < d ≤ max → max ≤ int64_max →
  d ≤ backoff_loop n max d ≤ max
  ∧ Z.min (d * 2 ^ Z.of_nat n) max ≤ backoff_loop n max d
  ∧ (backoff_loop n max d = max ∨ backoff_loop n max d = d * 2 ^ Z.of_nat n).
Proof.
  revert d. induction n as [|n IH]; intros d Hd Hmax.
  { simpl. destruct (Z.ltb_spec max d); lia. }
  cbn [backoff_loop]. destruct (Z.leb_spec (max `quot` 2) d) as [Hle|Hgt]; [lia|].
  assert (d * 2 < max) by (rewrite Z.quot_div_nonneg in Hgt by lia; divlia).
  rewrite wrap64_id by (unfold int64_min, int64_max in *; lia).
  destruct (IH (d * 2)) as (Hr & Hm & Hc); [lia..|].
  replace (d * 2 ^ Z.of_nat (S n)) with (d * 2 * 2 ^ Z.of_nat n)
    by (rewrite Nat2Z.inj_succ, Z.pow_succ_r by lia; ring).
  split_and!; [lia..|done].
Qed.

Lemma New_backoff config w :
  New config = Ok w →
  0 < w_backoffBase w ≤ w_backoffMax w ∧ 0 < w_maxAttempts w ∧ 0 < w_leaseDuration w
  ∧ w_owner w ≠ "".
Proof.
  unfold New, default_pos. intros. go_step; bool_prop;
    unfold millisecond, second in *; lia || naive_solver lia.
Qed.

(** The retry delay of a worker that [New] accepted is exponential and
    capped: for attempt [n] it never leaves [base, max], it is at least
    [base * 2^(n-1)] unless that exceeds [max], it is exactly that power or the
    cap, and the doubling never overflows [int64]. *)
Theorem backoff_bounds config w n :
  New config = Ok w → w_backoffMax w ≤ int64_max → 1 ≤ n →
  w_backoffBase w ≤ backoff w n ≤ w_backoffMax w
  ∧ Z.min (w_backoffBase w * 2 ^ (n - 1)) (w_backoffMax w) ≤ backoff w n
  ∧ (backoff w n = w_backoffMax w ∨ backoff w n = w_backoffBase w * 2 ^ (n - 1)).
Proof.
  intros (Hb & _)%New_backoff Hmax Hn. unfold backoff.
  pose proof (backoff_loop_spec (Z.to_nat (n - 1)) (w_backoffMax w) (w_backoffBase w)
    Hb Hmax) as Hl.
  by rewrite Z2Nat.id in Hl by lia.
Qed.

(** * The in-memory store discharges the worker's interface *)

Lemma transition_applies ctx check stamp st class next t b :
  contextErr ctx = Ok () → holds_lease t check →
  tasks b !! task_key (TenantID t) (TaskID t) = Some t →
  transition ctx check stamp (TenantID t) (TaskID t) (LeaseOwner t) (FencingToken t)
    st class next b
  = (set_tasks (<[task_key (TenantID t) (TaskID t) := settle_task stamp st class next t]>
       (tasks b)) b, Ok (settle_task stamp st class next t)).
Proof.
  intros Hctx (Htn & Hid & Hst & Ho & Hf & He) Ht. unfold transition. go_unfold.
  rewrite Hctx, !(proj2 (String.eqb_neq _ _)), (proj2 (Z.leb_gt _ _) Hf) by done.
  cbn. rewrite Ht. rewrite Hst, String.eqb_refl, Z.eqb_refl. cbn.
  destruct (LeaseExpiresAt t) as [e|]; [|done].
  unfold after. by rewrite (proj2 (Z.ltb_lt _ _) (He e eq_refl)).
Qed.

Lemma transition_law ctx check stamp st class next t b :
  contextErr ctx = Ok () → holds_lease t check →
  tasks b !! task_key (TenantID t) (TaskID t) = Some t →
  ∃ b', transition ctx check stamp (TenantID t) (TaskID t) (LeaseOwner t) (FencingToken t)
          st class next b = (b', Ok (settle_task stamp st class next t))
        ∧ tasks b' !! task_key (TenantID t) (TaskID t)
            = Some (settle_task stamp st class next t).
Proof.
  intros. eexists. split; [by apply transition_applies|]. apply lookup_insert_eq.
Qed.

#[export] Program Instance memory_store_laws : StoreLaws Backend := {|
  st_inv b := wf b ∧ fence_room 1 b;
  st_lookup b tn id := tasks b !! task_key tn id
|}.
Next Obligation.
  intros ctx now tn owner d b b1 t [Hwf [_ Hroom]] H. simpl in H.
  apply Claim_inv in H
    as [[_ [??]]|(k & t0 & Ht0 & _ & _ & Ho & Hd & _ & [= ->] & ->)]; [done|].
  specialize (Hroom _ _ Ht0). destruct (Hwf _ _ Ht0) as (-> & ? & ? & _ & _ & ? & _).
  split; [apply lookup_insert_eq|]. split; [done|]. intros check Hc.
  unfold holds_lease; simpl in *.
  rewrite incr64_small by (unfold int64_min, int64_max in *; lia).
  split_and!; try done; [lia|]. unfold add_duration. intros; simplify_eq; lia.
Qed.
Next Obligation. intros. by apply transition_law. Qed.
Next Obligation. intros. by apply transition_law. Qed.
Next Obligation. intros. by apply transition_law. Qed.

(** The record that a worker pass leaves behind for a claimed task. *)
Definition settled_by (w : Worker) (clk : clock) (err : option herror) (t : Task) : Task :=
  match err with
  | None => settle_task (clk 3%nat) StatusCompleted "" zero_time t
  | Some e =>
      if (errors_is_ctx e Canceled || errors_is_ctx e DeadlineExceeded || isRetryable e)
         && (Attempts t <? w_maxAttempts w)
      then settle_task (clk 3%nat) StatusRetryable (errorClass err)
             (clk 1%nat + backoff w (Attempts t)) t
      else settle_task (clk 3%nat) StatusFailed (errorClass err) zero_time t
  end.

(** C2: a worker pass settles what it claimed, over any store that keeps the
    interface's promises.  If the claimed task is still in place when the handler
    returns and the lease has not run out, the pass reports success and the task
    is completed after a success, scheduled for retry after a retryable failure
    with attempts left, and dead-lettered otherwise; in particular a task whose
    attempts reached the maximum is never scheduled again. *)
Theorem RunOnce_settles {S} `{StoreLaws S} w hint clk handler others (s s1 : S) t :
  st_inv s → w_closed w = false →
  st_Claim background (clk 0%nat) (if (w_tenantID w =? "")%string then hint else w_tenantID w)
    (w_owner w) (w_leaseDuration w) s = (s1, Ok t) →
  st_lookup (others s1) (TenantID t) (TaskID t) = Some t →
  clk 2%nat < clk 0%nat + w_leaseDuration w →
  ∃ s', RunOnce w background hint clk handler others s = (s', (true, None))
    ∧ st_lookup s' (TenantID t) (TaskID t) = Some (settled_by w clk (handler t) t)
    ∧ (w_maxAttempts w ≤ Attempts t →
         TStatus (settled_by w clk (handler t) t) ≠ StatusRetryable).
Proof.
  intros Hinv Hopen Hclaim Hkeep Hlive.
  destruct (st_Claim_law _ _ _ _ _ _ _ _ Hinv Hclaim) as (_ & Ho & Hlease).
  specialize (Hlease _ Hlive). unfold RunOnce.
  change (ctx_from 1 background) with background.
  change (ctx_from 2 background) with background.
  unfold background at 1. rewrite Hopen. cbv beta iota zeta. rewrite Hclaim.
  unfold settled_by. destruct (handler t) as [e|]; [|].
  - destruct ((errors_is_ctx e Canceled || errors_is_ctx e DeadlineExceeded || isRetryable e)
      && (Attempts t <? w_maxAttempts w)) eqn:E.
    + destruct (st_Retry_law background (clk 2%nat) (clk 3%nat)
        (add_duration (clk 1%nat) (backoff w (Attempts t))) (errorClass (Some e)) t (others s1)
        eq_refl Hlease Hkeep) as (s' & Hs' & Hl). rewrite <- Ho, Hs'.
      exists s'. split_and!; [done..|]. intros. bool_prop. lia.
    + destruct (st_Fail_law background (clk 2%nat) (clk 3%nat) (errorClass (Some e)) t
        (others s1) eq_refl Hlease Hkeep) as (s' & Hs' & Hl). rewrite <- Ho, Hs'.
      by exists s'.
  - destruct (st_Complete_law background (clk 2%nat) (clk 3%nat) t (others s1)
      eq_refl Hlease Hkeep) as (s' & Hs' & Hl).
    rewrite <- Ho, Hs'. by exists s'.
Qed.

(** * Witnesses: one task, claimed by one worker and then by another *)

Definition ex_input : TaskInput := mkTaskInput "t" "1" "chat" "hello".
Definition ex_queued : Backend := run [OpEnqueue background 1 ex_input] NewBackend.
Definition ex_leased : Backend :=
  run [OpEnqueue background 1 ex_input; OpClaim background 2 "t" "w1" 10] NewBackend.
Definition ex_task : Task :=
  mkTask "t" "1" "chat" "hello" StatusLeased 1 1 "w1" (Some 12) 1 "" 1 2.
Definition ex_worker : Worker := mkWorker "t" "w1" 10 100 3 100 1000 false false.

Lemma NewBackend_ok n : Z.of_nat n ≤ int64_max → wf NewBackend ∧ fence_room n NewBackend.
Proof. split; [apply map_Forall_empty|split; [done|apply map_Forall_empty]]. Qed.

Lemma ex_ok os : (length os < 100)%nat →
  wf (run os NewBackend) ∧ fence_room 100 (run os NewBackend).
Proof.
  intros. apply run_preserves; apply (NewBackend_ok (length os + 100)); unfold int64_max; lia.
Qed.

Lemma fence_settles_once_witness :
  ∃ e, transition background 3 3 "t" "1" "w1" 1 StatusFailed "late" 0
         (run [OpClaim background 20 "t" "w2" 10]
            (transition background 3 3 "t" "1" "w1" 1 StatusRetryable "x" 4 ex_leased).1)
       = (run [OpClaim background 20 "t" "w2" 10]
            (transition background 3 3 "t" "1" "w1" 1 StatusRetryable "x" 4 ex_leased).1, Err e).
Proof.
  eapply (fence_settles_once background 3 3 "t" "1" "w1" 1 StatusRetryable "x" 4 ex_leased
    (transition background 3 3 "t" "1" "w1" 1 StatusRetryable "x" 4 ex_leased).1
    (settle_task 3 StatusRetryable "x" 4 ex_task)
    [OpClaim background 20 "t" "w2" 10]).
  - apply ex_ok. simpl. lia.
  - eapply fence_room_le; [|apply ex_ok]; simpl; lia.
  - reflexivity.
  - vm_compute. reflexivity.
  - lia.
Defined.

Lemma takeover_fences_out_witness :
  ∃ e, transition background 21 21 "t" "1" "w1" 1 StatusCompleted "" 0
         (run [OpEnqueue background 5 ex_input] (Claim background 20 "t" "w2" 10 ex_leased).1)
       = (run [OpEnqueue background 5 ex_input] (Claim background 20 "t" "w2" 10 ex_leased).1,
          Err e).
Proof.
  eapply (takeover_fences_out background 20 "t" "w2" 10 ex_leased
    (Claim background 20 "t" "w2" 10 ex_leased).1 (lease_task 20 "w2" 10 ex_task)
    [OpEnqueue background 5 ex_input]).
  - apply ex_ok. simpl. lia.
  - eapply fence_room_le; [|apply ex_ok]; simpl; lia.
  - vm_compute. reflexivity.
  - vm_compute. reflexivity.
Defined.

Lemma run_wf_witness : wf ex_leased.
Proof. apply (run_wf [_; _]). unfold int64_max. simpl. lia. Defined.

Lemma terminal_task_final_witness :
  tasks (run [OpClaim background 50 "t" "w2" 10]
    (transition background 3 3 "t" "1" "w1" 1 StatusCompleted "" 0 ex_leased).1)
    !! task_key "t" "1" = Some (settle_task 3 StatusCompleted "" 0 ex_task).
Proof. apply terminal_task_final; vm_compute; reflexivity. Defined.

Lemma Claim_oldest_eligible_witness :
  (Claim background 2 "t" "w1" 10 ex_queued = (ex_queued, Err ErrNotFound)
     ∧ ∀ k t, tasks ex_queued !! k = Some t → claimable "t" 2 t = false) ∨
  (∃ k t, tasks ex_queued !! k = Some t ∧ claimable "t" 2 t = true
     ∧ ("t" ≠ "" → TenantID t = "t"%string)
     ∧ (∀ k2 t2, tasks ex_queued !! k2 = Some t2 → claimable "t" 2 t2 = true →
          CreatedAt t ≤ CreatedAt t2)
     ∧ Claim background 2 "t" "w1" 10 ex_queued =
         (set_tasks (<[k := lease_task 2 "w1" 10 t]> (tasks ex_queued)) ex_queued,
          Ok (lease_task 2 "w1" 10 t))).
Proof. apply (Claim_oldest_eligible 2 "t" "w1" 10 ex_queued); [done|lia|reflexivity]. Defined.

Lemma Enqueue_idempotent_witness :
  (mkTaskInput "t" "1" "chat" "bye" = ex_input →
     ∃ t', Enqueue background 9 (mkTaskInput "t" "1" "chat" "bye") ex_leased
             = (ex_leased, Ok (t', true))
       ∧ TenantID t' = "t"%string ∧ TaskID t' = "1"%string ∧ Kind t' = in_Kind ex_input
       ∧ Payload t' = in_Payload ex_input) ∧
  (("chat"%string ≠ in_Kind ex_input ∨ "bye"%string ≠ in_Payload ex_input) →
     Enqueue background 9 (mkTaskInput "t" "1" "chat" "bye") ex_leased
       = (ex_leased, Err ErrConflict)).
Proof.
  apply (Enqueue_idempotent background 1 ex_input NewBackend ex_queued
    (mkTask "t" "1" "chat" "hello" StatusQueued 0 0 "" None 1 "" 1 1) false
    [OpClaim background 2 "t" "w1" 10] 9 (mkTaskInput "t" "1" "chat" "bye"));
    vm_compute; reflexivity.
Defined.

Lemma Get_tenant_scoped_witness :
  ex_leased = ex_leased ∧ TenantID ex_task = "t"%string ∧ TaskID ex_task = "1"%string.
Proof.
  apply (Get_tenant_scoped background "t" "1" ex_leased ex_leased ex_task).
  - apply ex_ok. simpl. lia.
  - apply map_Forall_to_list. vm_compute. repeat constructor.
  - reflexivity.
  - vm_compute. reflexivity.
Defined.

Lemma backoff_bounds_witness :
  (100 * millisecond ≤ backoff (mkWorker "t" "w" 10 (100 * millisecond) 3 (100 * millisecond)
      (10 * second) false false) 4 ≤ 10 * second)
  ∧ Z.min (100 * millisecond * 2 ^ (4 - 1)) (10 * second)
      ≤ backoff (mkWorker "t" "w" 10 (100 * millisecond) 3 (100 * millisecond)
          (10 * second) false false) 4
  ∧ (backoff (mkWorker "t" "w" 10 (100 * millisecond) 3 (100 * millisecond)
        (10 * second) false false) 4 = 10 * second
     ∨ backoff (mkWorker "t" "w" 10 (100 * millisecond) 3 (100 * millisecond)
        (10 * second) false false) 4 = 100 * millisecond * 2 ^ (4 - 1)).
Proof.
  apply (backoff_bounds (mkConfig true true "t" "w" 10 0 0 0 0)
    (mkWorker "t" "w" 10 (100 * millisecond) 3 (100 * millisecond) (10 * second) false false)).
  - reflexivity.
  - vm_compute. discriminate.
  - lia.
Defined.

Lemma RunOnce_settles_witness :
  ∃ b', RunOnce ex_worker background "" (λ i, 2 + Z.of_nat i)
          (λ _, Some (HRetryable None)) (λ b, b) ex_queued = (b', (true, None))
    ∧ st_lookup b' "t" "1"
        = Some (settled_by ex_worker (λ i, 2 + Z.of_nat i) (Some (HRetryable None)) ex_task)
    ∧ (3 ≤ 1 → TStatus (settled_by ex_worker (λ i, 2 + Z.of_nat i)
                 (Some (HRetryable None)) ex_task) ≠ StatusRetryable).
Proof.
  apply (RunOnce_settles ex_worker "" (λ i, 2 + Z.of_nat i)
    (λ _, Some (HRetryable None)) (λ b, b) ex_queued ex_leased ex_task).
  - split; [apply ex_ok; simpl; lia|]. eapply fence_room_le; [|apply ex_ok]; simpl; lia.
  - reflexivity.
  - vm_compute. reflexivity.
  - vm_compute. reflexivity.
  - simpl. lia.
Defined.
