(* ===== verification/RuntimeStore.v ===== *)
(** The tenant-scoped runtime store: the contract of
    [trpcservice/runtime/storage/storage.go] and its in-memory implementation
    [trpcservice/runtime/storage/inmemory/inmemory.go] (sessions, inbound message
    events, session histories, the reply outbox, reply correlations; summaries of
    [capabilities.go]).

    A method that takes the store mutex is one atomic action on [Store].  Status
    values are strings, as in the source.  The i-th [time.Now] in the text of a
    method reads [clk i].  A session state is kept as its JSON document, which is
    all that the store's copying ([cloneMap]) preserves of it; the other defensive
    copies are the identity on values.  The theorems are in [StoreTheorems.v]. *)
From Stdlib Require Import Ascii String.
From S2P Require Import Prelude GoStrings.
Local Open Scope Z_scope.

(** * The contract: storage.go *)

Inductive error :=
| ErrNotFound | ErrDuplicate | ErrConflict | ErrInvalid | ErrIllegalTransition | ErrStorage
| ErrContext (e : ctx_error).
#[export] Instance error_eq_dec : EqDecision error.
Proof. solve_decision. Defined.

Definition SessionActive : string := "active".
Definition EventReceived : string := "received".
Definition EventRunning : string := "running".
Definition EventCompleted : string := "completed".
Definition EventExecutionReconciling : string := "execution_reconciling".
Definition EventReplyPending : string := "reply_pending".
Definition EventReplied : string := "replied".
Definition EventFailed : string := "failed".
Definition ReplyPending : string := "pending".
Definition ReplySending : string := "sending".
Definition ReplySent : string := "sent".
Definition ReplyRetryable : string := "retryable".
Definition ReplyDeadLetter : string := "dead_letter".

Definition maxReplyTargetIDRunes : Z := 1024.

Record ReplyTarget := mkReplyTarget {
  rt_BindingID : string;
  rt_ConversationKind : string;
  rt_ReceiverID : string;
  rt_ThreadID : string
}.
#[export] Instance ReplyTarget_eq_dec : EqDecision ReplyTarget.
Proof. solve_decision. Defined.
Definition zero_target : ReplyTarget := mkReplyTarget "" "" "" "".

(** A [map[string]any] as the store sees it: nil, a JSON document, or a map that
    [encoding/json] cannot represent. *)
Inductive any_map := NilMap | JSONMap (doc : string) | NotJSON.
#[export] Instance any_map_eq_dec : EqDecision any_map.
Proof. solve_decision. Defined.

Record Session := mkSession {
  s_TenantID : string;
  s_SessionID : string;
  s_Status : string;
  s_Version : Z;
  s_State : any_map;
  s_CreatedAt : time;
  s_UpdatedAt : time
}.

Record MessageEvent := mkMessageEvent {
  e_TenantID : string;
  e_EventID : string;
  e_SessionID : string;
  e_BindingID : string;
  e_ExternalMessageID : string;
  e_IdempotencyKey : string;
  e_EventSeq : Z;
  e_Status : string;
  e_FencingToken : Z;
  e_LeaseOwner : string;
  e_LeaseExpiresAt : option time;
  e_ReplyID : string;
  e_SegmentCount : Z;
  e_ReplyTarget : ReplyTarget;
  e_CreatedAt : time;
  e_UpdatedAt : time
}.

Record MessageEventInput := mkMessageEventInput {
  i_TenantID : string;
  i_EventID : string;
  i_SessionID : string;
  i_BindingID : string;
  i_ExternalMessageID : string;
  i_IdempotencyKey : string;
  i_ReplyTarget : ReplyTarget
}.

Record EventPayload := mkEventPayload {
  p_TenantID : string;
  p_SessionID : string;
  p_EventID : string;
  p_Payload : string;
  p_HistorySeq : Z;
  p_CreatedAt : time
}.

Record MessageTransition := mkMessageTransition {
  mt_TenantID : string;
  mt_EventID : string;
  mt_From : string;
  mt_To : string;
  mt_Owner : string;
  mt_FencingToken : Z;
  mt_LeaseDuration : duration;
  mt_ReplyID : string;
  mt_SegmentCount : Z
}.

Record ReplyOutbox := mkReplyOutbox {
  r_TenantID : string;
  r_ReplyID : string;
  r_EventID : string;
  r_SegmentIndex : Z;
  r_SegmentCount : Z;
  r_Payload : string;
  r_ReplyTarget : ReplyTarget;
  r_Status : string;
  r_Attempts : Z;
  r_FencingToken : Z;
  r_LeaseOwner : string;
  r_LeaseExpiresAt : option time;
  r_ProviderMessageID : string;
  r_LastErrorClass : string;
  r_CreatedAt : time;
  r_UpdatedAt : time
}.

Record ReplyCorrelation := mkReplyCorrelation {
  c_TenantID : string;
  c_EventID : string;
  c_RequestID : string;
  c_TraceID : string;
  c_TraceParent : string
}.

Record ReplyTransition := mkReplyTransition {
  t_TenantID : string;
  t_ReplyID : string;
  t_SegmentIndex : Z;
  t_From : string;
  t_To : string;
  t_Owner : string;
  t_FencingToken : Z;
  t_LeaseDuration : duration;
  t_ErrorClass : string;
  t_ProviderID : string
}.

Record SummaryRecord := mkSummaryRecord {
  su_TenantID : string;
  su_SessionID : string;
  su_FilterKey : string;
  su_Text : string;
  su_EventSeq : Z;
  su_Version : Z;
  su_CreatedAt : time;
  su_UpdatedAt : time
}.

#[export] Instance Session_eq_dec : EqDecision Session.
Proof. solve_decision. Defined.
#[export] Instance MessageEvent_eq_dec : EqDecision MessageEvent.
Proof. solve_decision. Defined.
#[export] Instance EventPayload_eq_dec : EqDecision EventPayload.
Proof. solve_decision. Defined.
#[export] Instance ReplyOutbox_eq_dec : EqDecision ReplyOutbox.
Proof. solve_decision. Defined.
#[export] Instance ReplyCorrelation_eq_dec : EqDecision ReplyCorrelation.
Proof. solve_decision. Defined.

Definition str_empty (s : string) : bool := (s =? "")%string.

Definition ValidateTenant (tenantID : string) : result error unit :=
  if str_empty tenantID then Err ErrInvalid else Ok ().

Definition ValidateSession (tenantID sessionID : string) : result error unit :=
  if negb (is_ok (ValidateTenant tenantID)) || str_empty sessionID
  then Err ErrInvalid else Ok ().

Definition validReplyTargetID (value : string) : bool :=
  if str_empty (trim_space value) || (maxReplyTargetIDRunes <? rune_count value) then false
  else forallb (λ c, negb ((c <? 32) || (c =? 127))) (runes value).

Definition ValidateReplyTarget (target : ReplyTarget) : result error unit :=
  if bool_decide (target = zero_target) then Ok ()
  else if negb (validReplyTargetID (rt_BindingID target))
          || negb (validReplyTargetID (rt_ReceiverID target)) then Err ErrInvalid
  else if negb ((rt_ConversationKind target =? "direct")%string
                || (rt_ConversationKind target =? "group")%string) then Err ErrInvalid
  else if negb (str_empty (rt_ThreadID target))
          && negb (validReplyTargetID (rt_ThreadID target)) then Err ErrInvalid
  else Ok ().

(** Legal reply transitions. *)
Definition ValidateTransition (from to : string) : bool :=
  if (from =? ReplyPending)%string then (to =? ReplySending)%string || (to =? ReplyRetryable)%string
  else if (from =? ReplySending)%string then
    (to =? ReplySent)%string || (to =? ReplyRetryable)%string || (to =? ReplyDeadLetter)%string
  else if (from =? ReplyRetryable)%string then
    (to =? ReplySending)%string || (to =? ReplyDeadLetter)%string
  else false.

(** Legal inbound execution transitions. *)
Definition ValidateMessageTransition (from to : string) : bool :=
  if (from =? EventReceived)%string then
    (to =? EventRunning)%string || (to =? EventFailed)%string
  else if (from =? EventRunning)%string then
    (to =? EventCompleted)%string || (to =? EventExecutionReconciling)%string
      || (to =? EventFailed)%string
  else if (from =? EventExecutionReconciling)%string then
    (to =? EventRunning)%string || (to =? EventFailed)%string
  else if (from =? EventCompleted)%string then
    (to =? EventReplyPending)%string || (to =? EventFailed)%string
  else if (from =? EventReplyPending)%string then
    (to =? EventReplied)%string || (to =? EventFailed)%string
  else false.

(** * The in-memory store: state, keys *)

Record Store := mkStore {
  sessions : gmap string Session;
  events : gmap string MessageEvent;
  histories : gmap string (list EventPayload);
  messages : gmap string string;
  replies : gmap string ReplyOutbox;
  correlations : gmap string ReplyCorrelation;
  summaries : gmap string SummaryRecord
}.

Definition newStore : Store := mkStore ∅ ∅ ∅ ∅ ∅ ∅ ∅.

Definition set_sessions m s := mkStore m (events s) (histories s) (messages s) (replies s)
  (correlations s) (summaries s).
Definition set_events m s := mkStore (sessions s) m (histories s) (messages s) (replies s)
  (correlations s) (summaries s).
Definition set_histories m s := mkStore (sessions s) (events s) m (messages s) (replies s)
  (correlations s) (summaries s).
Definition set_messages m s := mkStore (sessions s) (events s) (histories s) m (replies s)
  (correlations s) (summaries s).
Definition set_replies m s := mkStore (sessions s) (events s) (histories s) (messages s) m
  (correlations s) (summaries s).
Definition set_correlations m s := mkStore (sessions s) (events s) (histories s) (messages s)
  (replies s) m (summaries s).
Definition set_summaries m s := mkStore (sessions s) (events s) (histories s) (messages s)
  (replies s) (correlations s) m.

Definition check (ctx : context) : result error unit :=
  match ctx with
  | None => Err ErrInvalid
  | Some c => match c 0%nat with Some e => Err (ErrContext e) | None => Ok () end
  end.

(** [key] writes each part as its byte length, a colon and the part. *)
Definition key (parts : list string) : string := len_prefixed_all parts.
Definition replyKey (tenant reply : string) (segment : Z) : string :=
  key [tenant; reply; itoa segment].
#[global] Arguments key : simpl never.
#[global] Arguments replyKey : simpl never.

Definition cloneMap (input : any_map) : any_map :=
  match input with NilMap => NilMap | JSONMap d => JSONMap d | NotJSON => NilMap end.

(** [!value.LeaseExpiresAt.After(now)] for a non-nil deadline. *)
Definition lease_over (lease : option time) (now : time) : bool :=
  match lease with Some e => negb (after e now) | None => false end.

(** * Operations: sessions *)

Definition GetSession (ctx : context) (tenantID sessionID : string) : act Store error Session :=
  _ ← lift (check ctx);
  _ ← lift (ValidateSession tenantID sessionID);
  s ← get;
  match sessions s !! key [tenantID; sessionID] with
  | None => throw ErrNotFound
  | Some value => mret value
  end.

Definition CreateSession (ctx : context) (clk : clock) (tenantID sessionID : string)
    (state : any_map) : act Store error Session :=
  _ ← lift (check ctx);
  _ ← lift (ValidateSession tenantID sessionID);
  let now := clk 0%nat in
  let value := mkSession tenantID sessionID SessionActive 1 (cloneMap state) now now in
  s ← get;
  match sessions s !! key [tenantID; sessionID] with
  | Some _ => throw ErrDuplicate
  | None =>
      _ ← put (set_sessions (<[key [tenantID; sessionID] := value]> (sessions s)) s);
      mret value
  end.

Definition UpdateSessionState (ctx : context) (clk : clock) (tenantID sessionID : string)
    (expectedVersion : Z) (state : any_map) : act Store error Session :=
  _ ← lift (check ctx);
  _ ← lift (ValidateSession tenantID sessionID);
  s ← get;
  let k := key [tenantID; sessionID] in
  match sessions s !! k with
  | None => throw ErrNotFound
  | Some value =>
      if negb (s_Version value =? expectedVersion) then throw ErrConflict
      else
        let value' := mkSession (s_TenantID value) (s_SessionID value) (s_Status value)
          (incr64 (s_Version value)) (cloneMap state) (s_CreatedAt value) (clk 0%nat) in
        _ ← put (set_sessions (<[k := value']> (sessions s)) s);
        mret value'
  end.

(** The events of one session, and what deleting the session keeps of the maps
    that refer to them. *)
Definition of_session (tenantID sessionID : string) (e : MessageEvent) : bool :=
  (e_TenantID e =? tenantID)%string && (e_SessionID e =? sessionID)%string.

Definition session_events (tenantID sessionID : string) (s : Store)
    : list (string * MessageEvent) :=
  filter (λ ke, of_session tenantID sessionID ke.2) (map_to_list (events s)).

(** The body of the loop over [s.events] for one event of the session. *)
Definition drop_event (tenantID : string) (s : Store) (ke : string * MessageEvent) : Store :=
  let e := ke.2 in
  mkStore (sessions s) (delete ke.1 (events s)) (histories s)
    (delete (key [tenantID; e_BindingID e; e_ExternalMessageID e]) (messages s))
    (filter (λ kr, ¬ (r_TenantID kr.2 = tenantID ∧ r_EventID kr.2 = e_EventID e)) (replies s))
    (correlations s) (summaries s).

Definition DeleteSession (ctx : context) (tenantID sessionID : string)
    : act Store error unit :=
  _ ← lift (check ctx);
  _ ← lift (ValidateSession tenantID sessionID);
  s ← get;
  match sessions s !! key [tenantID; sessionID] with
  | None => throw ErrNotFound
  | Some _ =>
      let s1 := mkStore (delete (key [tenantID; sessionID]) (sessions s)) (events s)
        (delete (key [tenantID; sessionID]) (histories s)) (messages s) (replies s)
        (correlations s)
        (filter (λ ks, ¬ (su_TenantID ks.2 = tenantID ∧ su_SessionID ks.2 = sessionID))
           (summaries s)) in
      put (foldl (drop_event tenantID) s1 (session_events tenantID sessionID s))
  end.

(** * Operations: inbound message events *)

(** The guard of [RecordMessage] on its input. *)
Definition record_input_ok (input : MessageEventInput) : bool :=
  negb (negb (is_ok (ValidateSession (i_TenantID input) (i_SessionID input)))
        || str_empty (i_BindingID input) || str_empty (i_ExternalMessageID input)
        || str_empty (i_EventID input)
        || negb (is_ok (ValidateReplyTarget (i_ReplyTarget input)))
        || (negb (bool_decide (i_ReplyTarget input = zero_target))
            && negb (rt_BindingID (i_ReplyTarget input) =? i_BindingID input)%string)).

Definition RecordMessage (ctx : context) (clk : clock) (input : MessageEventInput)
    : act Store error (MessageEvent * bool) :=
  _ ← lift (check ctx);
  _ ← ensure (record_input_ok input) ErrInvalid;
  s ← get;
  let unique := key [i_TenantID input; i_BindingID input; i_ExternalMessageID input] in
  let ek := key [i_TenantID input; i_EventID input] in
  match messages s !! unique with
  | Some existingID =>
      match events s !! existingID with
      | Some e => mret (e, true)
      | None => (* the zero MessageEvent of a map read that misses *)
          mret (mkMessageEvent "" "" "" "" "" "" 0 "" 0 "" None "" 0 zero_target 0 0, true)
      end
  | None =>
      match events s !! ek with
      | Some _ => throw ErrDuplicate
      | None =>
          let sessionKey := key [i_TenantID input; i_SessionID input] in
          match sessions s !! sessionKey with
          | None => throw ErrNotFound
          | Some sess =>
              let sess' := mkSession (s_TenantID sess) (s_SessionID sess) (s_Status sess)
                (incr64 (s_Version sess)) (s_State sess) (s_CreatedAt sess) (clk 0%nat) in
              let event := mkMessageEvent (i_TenantID input) (i_EventID input)
                (i_SessionID input) (i_BindingID input) (i_ExternalMessageID input)
                (i_IdempotencyKey input) (s_Version sess') EventReceived 0 "" None "" 0
                (i_ReplyTarget input) (clk 1%nat) (clk 2%nat) in
              _ ← put (set_messages (<[unique := ek]> (messages s))
                    (set_events (<[ek := event]> (events s))
                      (set_sessions (<[sessionKey := sess']> (sessions s)) s)));
              mret (event, false)
          end
      end
  end.

Definition GetMessage (ctx : context) (tenantID eventID : string)
    : act Store error MessageEvent :=
  _ ← lift (check ctx);
  _ ← ensure (is_ok (ValidateTenant tenantID) && negb (str_empty eventID)) ErrInvalid;
  s ← get;
  match events s !! key [tenantID; eventID] with
  | None => throw ErrNotFound
  | Some value => mret value
  end.

Definition validateMessageTransition (t : MessageTransition) : result error unit :=
  if negb (is_ok (ValidateTenant (mt_TenantID t))) || str_empty (mt_EventID t)
     || str_empty (mt_Owner t) then Err ErrInvalid
  else if negb (ValidateMessageTransition (mt_From t) (mt_To t)) then Err ErrIllegalTransition
  else Ok ().

Definition validateMessageLease (now : time) (value : MessageEvent) (t : MessageTransition)
    : result error unit :=
  if (mt_To t =? EventRunning)%string && (mt_LeaseDuration t <=? 0) then Err ErrInvalid
  else if negb (mt_From t =? EventRunning)%string then Ok ()
  else if (mt_To t =? EventExecutionReconciling)%string then
    match e_LeaseExpiresAt value with
    | None => Err ErrConflict
    | Some e => if after e now then Err ErrConflict else Ok ()
    end
  else if negb (e_LeaseOwner value =? mt_Owner t)%string || (mt_FencingToken t =? 0)
          || negb (e_FencingToken value =? mt_FencingToken t)
          || lease_over (e_LeaseExpiresAt value) now then Err ErrConflict
  else Ok ().

Definition applyMessageTransition (now stamp : time) (t : MessageTransition)
    (value : MessageEvent) : MessageEvent :=
  let running := (mt_To t =? EventRunning)%string in
  mkMessageEvent (e_TenantID value) (e_EventID value) (e_SessionID value) (e_BindingID value)
    (e_ExternalMessageID value) (e_IdempotencyKey value) (e_EventSeq value)
    (mt_To t) (incr64 (e_FencingToken value))
    (if running then mt_Owner t else "")
    (if running then Some (add_duration now (mt_LeaseDuration t)) else None)
    (if negb (str_empty (mt_ReplyID t)) then mt_ReplyID t else e_ReplyID value)
    (if 0 <? mt_SegmentCount t then mt_SegmentCount t else e_SegmentCount value)
    (e_ReplyTarget value) (e_CreatedAt value) stamp.

Definition TransitionMessage (ctx : context) (clk : clock) (t : MessageTransition)
    : act Store error MessageEvent :=
  _ ← lift (check ctx);
  _ ← lift (validateMessageTransition t);
  s ← get;
  let k := key [mt_TenantID t; mt_EventID t] in
  match events s !! k with
  | None => throw ErrNotFound
  | Some value =>
      if negb (e_Status value =? mt_From t)%string then throw ErrConflict
      else
        _ ← lift (validateMessageLease (clk 0%nat) value t);
        let value' := applyMessageTransition (clk 1%nat) (clk 2%nat) t value in
        _ ← put (set_events (<[k := value']> (events s)) s);
        mret value'
  end.

(** * Operations: session history *)

(** What the store uses of [encoding/json] on payload bytes (a syntax check, and
    decoding into a value, which also fails on numbers outside [float64]) and of the
    tracing library on a traceparent header. *)
Class Codec := {
  json_value : Type;
  json_value_eq_dec :: EqDecision json_value;
  json_valid : string → bool;
  json_unmarshal : string → option json_value;
  NormalizeTraceParent : string → string
}.

(** [reflect.DeepEqual] on decoded documents is equality of their values. *)
Definition jsonEqual `{Codec} (left right : string) : bool :=
  match json_unmarshal left, json_unmarshal right with
  | Some l, Some r => bool_decide (l = r)
  | _, _ => false
  end.

Definition validatePayload `{Codec} (value : EventPayload) : result error unit :=
  if negb (is_ok (ValidateSession (p_TenantID value) (p_SessionID value)))
     || str_empty (p_EventID value) || (len (p_Payload value) =? 0)
     || negb (json_valid (p_Payload value))
  then Err ErrInvalid else Ok ().

(** The first history entry with the event's identifier. *)
Fixpoint find_entry (eventID : string) (entries : list EventPayload) : option EventPayload :=
  match entries with
  | [] => None
  | e :: entries' =>
      if negb (p_EventID e =? eventID)%string then find_entry eventID entries' else Some e
  end.

Definition history (s : Store) (k : string) : list EventPayload :=
  default [] (histories s !! k).

Definition AppendEventPayload `{Codec} (ctx : context) (clk : clock) (payload : EventPayload)
    : act Store error EventPayload :=
  _ ← lift (check ctx);
  _ ← lift (validatePayload payload);
  s ← get;
  let k := key [p_TenantID payload; p_SessionID payload] in
  match sessions s !! k with
  | None => throw ErrNotFound
  | Some _ =>
      let entries := history s k in
      match find_entry (p_EventID payload) entries with
      | Some existing =>
          if negb (jsonEqual (p_Payload existing) (p_Payload payload)) then throw ErrConflict
          else mret existing
      | None =>
          let payload' := mkEventPayload (p_TenantID payload) (p_SessionID payload)
            (p_EventID payload) (p_Payload payload)
            (wrap64 (Z.of_nat (length entries) + 1)) (clk 0%nat) in
          _ ← put (set_histories (<[k := entries ++ [payload']]> (histories s)) s);
          mret payload'
      end
  end.

Definition ListEventPayloads (ctx : context) (tenantID sessionID : string)
    : act Store error (list EventPayload) :=
  _ ← lift (check ctx);
  _ ← lift (ValidateSession tenantID sessionID);
  s ← get;
  let k := key [tenantID; sessionID] in
  match sessions s !! k with
  | None => throw ErrNotFound
  | Some _ => mret (history s k)
  end.

(** * Operations: the reply outbox *)

Definition with_pending (now : time) (v : ReplyOutbox) : ReplyOutbox :=
  mkReplyOutbox (r_TenantID v) (r_ReplyID v) (r_EventID v) (r_SegmentIndex v)
    (r_SegmentCount v) (r_Payload v) (r_ReplyTarget v) ReplyPending (r_Attempts v)
    (r_FencingToken v) (r_LeaseOwner v) (r_LeaseExpiresAt v) (r_ProviderMessageID v)
    (r_LastErrorClass v) now now.

(** The fields on which a repeated segment must agree with the stored one. *)
Definition same_segment (existing value : ReplyOutbox) : bool :=
  (r_EventID existing =? r_EventID value)%string
  && (r_SegmentCount existing =? r_SegmentCount value)
  && (r_Payload existing =? r_Payload value)%string
  && bool_decide (r_ReplyTarget existing = r_ReplyTarget value).

Definition reply_key_of (v : ReplyOutbox) : string :=
  replyKey (r_TenantID v) (r_ReplyID v) (r_SegmentIndex v).

Definition EnqueueReply (ctx : context) (clk : clock) (value : ReplyOutbox)
    : act Store error ReplyOutbox :=
  _ ← lift (check ctx);
  _ ← ensure (negb (negb (is_ok (ValidateTenant (r_TenantID value)))
        || str_empty (r_ReplyID value) || str_empty (r_EventID value)
        || (r_SegmentIndex value <? 0) || (r_SegmentCount value <=? r_SegmentIndex value)
        || negb (is_ok (ValidateReplyTarget (r_ReplyTarget value))))) ErrInvalid;
  _ ← ensure (str_empty (r_Status value) || (r_Status value =? ReplyPending)%string) ErrInvalid;
  let value' := with_pending (clk 0%nat) value in
  s ← get;
  match events s !! key [r_TenantID value; r_EventID value] with
  | None => throw ErrNotFound
  | Some event =>
      if negb (bool_decide (e_ReplyTarget event = r_ReplyTarget value)) then throw ErrConflict
      else match replies s !! reply_key_of value with
      | Some existing =>
          if negb (same_segment existing value) then throw ErrConflict else mret existing
      | None =>
          _ ← put (set_replies (<[reply_key_of value := value']> (replies s)) s);
          mret value'
      end
  end.

(** The tests of [validateReplyBatch] on one value of the batch. *)
Definition batch_member_ok (first value : ReplyOutbox) : bool :=
  negb (negb (is_ok (ValidateTenant (r_TenantID value))) || str_empty (r_ReplyID value)
    || str_empty (r_EventID value) || (r_SegmentIndex value <? 0)
    || (r_SegmentCount value <=? r_SegmentIndex value)
    || (negb (str_empty (r_Status value)) && negb (r_Status value =? ReplyPending)%string)
    || negb (is_ok (ValidateReplyTarget (r_ReplyTarget value)))
    || negb (r_TenantID value =? r_TenantID first)%string
    || negb (r_ReplyID value =? r_ReplyID first)%string
    || negb (r_EventID value =? r_EventID first)%string
    || negb (r_SegmentCount value =? r_SegmentCount first)
    || negb (bool_decide (r_ReplyTarget value = r_ReplyTarget first))).

Fixpoint batch_seen (first : ReplyOutbox) (values : list ReplyOutbox) (seen : gset Z)
    : option (gset Z) :=
  match values with
  | [] => Some seen
  | value :: values' =>
      if negb (batch_member_ok first value) then None
      else if bool_decide (r_SegmentIndex value ∈ seen) then None
      else batch_seen first values' ({[r_SegmentIndex value]} ∪ seen)
  end.

(** Whether the indices [i], ..., [i + n - 1] were all seen. *)
Fixpoint all_present (n : nat) (i : Z) (seen : gset Z) : bool :=
  match n with
  | O => true
  | S n' => bool_decide (i ∈ seen) && all_present n' (i + 1) seen
  end.

Definition validateReplyBatch (values : list ReplyOutbox) : result error ReplyOutbox :=
  match values with
  | [] => Err ErrInvalid
  | first :: _ =>
      match batch_seen first values ∅ with
      | None => Err ErrInvalid
      | Some seen =>
          if negb (Z.of_nat (size seen) =? r_SegmentCount first) then Err ErrInvalid
          else if negb (all_present (Z.to_nat (r_SegmentCount first)) 0 seen)
          then Err ErrInvalid
          else Ok first
      end
  end.

Definition validateExistingReplies (rs : gmap string ReplyOutbox) (values : list ReplyOutbox)
    : result error unit :=
  if forallb (λ v, match rs !! reply_key_of v with
                   | Some existing => same_segment existing v
                   | None => true
                   end) values
  then Ok () else Err ErrConflict.

(** The loop that stores the new segments of a checked batch. *)
Fixpoint store_segments (now : time) (values : list ReplyOutbox)
    (rs : gmap string ReplyOutbox) : gmap string ReplyOutbox * list ReplyOutbox :=
  match values with
  | [] => (rs, [])
  | value :: values' =>
      match rs !! reply_key_of value with
      | Some existing =>
          let '(rs', out) := store_segments now values' rs in (rs', existing :: out)
      | None =>
          let v := with_pending now value in
          let '(rs', out) := store_segments now values' (<[reply_key_of value := v]> rs) in
          (rs', v :: out)
      end
  end.

Definition enqueueReplies (ctx : context) (clk : clock) (correlation : ReplyCorrelation)
    (values : list ReplyOutbox) : act Store error (list ReplyOutbox) :=
  _ ← lift (check ctx);
  first ← lift (validateReplyBatch values);
  s ← get;
  let ck := key [c_TenantID correlation; c_EventID correlation] in
  match events s !! key [r_TenantID first; r_EventID first] with
  | None => throw ErrNotFound
  | Some event =>
      _ ← ensure (bool_decide (e_ReplyTarget event = r_ReplyTarget first)) ErrConflict;
      _ ← (if negb (str_empty (c_RequestID correlation)) then
             if negb (c_TenantID correlation =? r_TenantID first)%string
                || negb (c_EventID correlation =? r_EventID first)%string
             then throw ErrInvalid
             else match correlations s !! ck with
             | Some existing =>
                 if bool_decide (existing = correlation) then mret () else throw ErrConflict
             | None => mret ()
             end
           else mret ());
      _ ← lift (validateExistingReplies (replies s) values);
      let '(rs, result) := store_segments (clk 0%nat) values (replies s) in
      let s1 := set_replies rs s in
      _ ← put (if negb (str_empty (c_RequestID correlation))
               then set_correlations (<[ck := correlation]> (correlations s1)) s1 else s1);
      mret result
  end.

Definition zero_correlation : ReplyCorrelation := mkReplyCorrelation "" "" "" "" "".

Definition EnqueueReplies (ctx : context) (clk : clock) (values : list ReplyOutbox)
    : act Store error (list ReplyOutbox) :=
  enqueueReplies ctx clk zero_correlation values.

Definition EnqueueRepliesWithCorrelation `{Codec} (ctx : context) (clk : clock)
    (c : ReplyCorrelation) (values : list ReplyOutbox) : act Store error (list ReplyOutbox) :=
  _ ← ensure (negb (str_empty (c_TenantID c) || str_empty (c_EventID c)
                    || str_empty (c_RequestID c))) ErrInvalid;
  enqueueReplies ctx clk
    (mkReplyCorrelation (c_TenantID c) (c_EventID c) (c_RequestID c) (c_TraceID c)
       (NormalizeTraceParent (c_TraceParent c))) values.

Definition GetReplyCorrelation `{Codec} (ctx : context) (tenantID eventID : string)
    : act Store error ReplyCorrelation :=
  _ ← lift (check ctx);
  _ ← ensure (negb (str_empty tenantID || str_empty eventID)) ErrInvalid;
  s ← get;
  match correlations s !! key [tenantID; eventID] with
  | None => throw ErrNotFound
  | Some v => mret (mkReplyCorrelation (c_TenantID v) (c_EventID v) (c_RequestID v)
                (c_TraceID v) (NormalizeTraceParent (c_TraceParent v)))
  end.

Definition GetReply (ctx : context) (tenantID replyID : string) (segment : Z)
    : act Store error ReplyOutbox :=
  _ ← lift (check ctx);
  _ ← ensure (negb (negb (is_ok (ValidateTenant tenantID)) || str_empty replyID
                    || (segment <? 0))) ErrInvalid;
  s ← get;
  match replies s !! replyKey tenantID replyID segment with
  | None => throw ErrNotFound
  | Some value => mret value
  end.

(** [order] is the order in which the map iteration visits the replies. *)
Definition ListReplyCandidates (order : list ReplyOutbox → list ReplyOutbox)
    (ctx : context) (tenantID : string) : act Store error (list ReplyOutbox) :=
  _ ← lift (check ctx);
  _ ← lift (ValidateTenant tenantID);
  s ← get;
  mret (order (filter (λ r, r_TenantID r = tenantID) ((map_to_list (replies s)).*2))).

Definition claim_reply (deadline_base stamp : time) (owner : string)
    (leaseDuration : duration) (v : ReplyOutbox) : ReplyOutbox :=
  mkReplyOutbox (r_TenantID v) (r_ReplyID v) (r_EventID v) (r_SegmentIndex v)
    (r_SegmentCount v) (r_Payload v) (r_ReplyTarget v) ReplySending
    (incr64 (r_Attempts v)) (incr64 (r_FencingToken v)) owner
    (Some (add_duration deadline_base leaseDuration)) (r_ProviderMessageID v)
    (r_LastErrorClass v) (r_CreatedAt v) stamp.

Definition ClaimReply (ctx : context) (clk : clock) (tenantID replyID : string) (segment : Z)
    (owner : string) (leaseDuration : duration) : act Store error ReplyOutbox :=
  _ ← lift (check ctx);
  _ ← ensure (negb (negb (is_ok (ValidateTenant tenantID)) || str_empty replyID
        || str_empty owner || (leaseDuration <=? 0))) ErrInvalid;
  s ← get;
  let k := replyKey tenantID replyID segment in
  match replies s !! k with
  | None => throw ErrNotFound
  | Some value =>
      let leaseExpired := (r_Status value =? ReplySending)%string
        && lease_over (r_LeaseExpiresAt value) (clk 0%nat) in
      if negb (r_Status value =? ReplyPending)%string
         && negb (r_Status value =? ReplyRetryable)%string && negb leaseExpired
      then throw ErrConflict
      else
        let value' := claim_reply (clk 1%nat) (clk 2%nat) owner leaseDuration value in
        _ ← put (set_replies (<[k := value']> (replies s)) s);
        mret value'
  end.

Definition apply_reply (deadline_base stamp : time) (t : ReplyTransition) (v : ReplyOutbox)
    : ReplyOutbox :=
  let sending := (t_To t =? ReplySending)%string in
  mkReplyOutbox (r_TenantID v) (r_ReplyID v) (r_EventID v) (r_SegmentIndex v)
    (r_SegmentCount v) (r_Payload v) (r_ReplyTarget v) (t_To t)
    (if sending then incr64 (r_Attempts v) else r_Attempts v) (incr64 (r_FencingToken v))
    (t_Owner t)
    (if sending && (0 <? t_LeaseDuration t)
     then Some (add_duration deadline_base (t_LeaseDuration t)) else r_LeaseExpiresAt v)
    (t_ProviderID t) (t_ErrorClass t) (r_CreatedAt v) stamp.

Definition TransitionReply (ctx : context) (clk : clock) (t : ReplyTransition)
    : act Store error ReplyOutbox :=
  _ ← lift (check ctx);
  _ ← ensure (negb (negb (is_ok (ValidateTenant (t_TenantID t))) || str_empty (t_ReplyID t)
        || str_empty (t_Owner t))) ErrInvalid;
  _ ← ensure (ValidateTransition (t_From t) (t_To t)) ErrIllegalTransition;
  s ← get;
  let k := replyKey (t_TenantID t) (t_ReplyID t) (t_SegmentIndex t) in
  match replies s !! k with
  | None => throw ErrNotFound
  | Some value =>
      if negb (r_Status value =? t_From t)%string
         || (negb (str_empty (r_LeaseOwner value))
             && negb (r_LeaseOwner value =? t_Owner t)%string)
         || (negb (t_FencingToken t =? 0) && negb (r_FencingToken value =? t_FencingToken t))
      then throw ErrConflict
      else if (r_Status value =? ReplySending)%string
              && lease_over (r_LeaseExpiresAt value) (clk 0%nat) then throw ErrConflict
      else
        let value' := apply_reply (clk 1%nat) (clk 2%nat) t value in
        _ ← put (set_replies (<[k := value']> (replies s)) s);
        mret value'
  end.

(** * Operations: summaries (capabilities.go) *)

Definition PutSummary (ctx : context) (clk : clock) (value : SummaryRecord)
    : act Store error SummaryRecord :=
  _ ← lift (check ctx);
  _ ← ensure (negb (negb (is_ok (ValidateSession (su_TenantID value) (su_SessionID value)))
        || str_empty (trim_space (su_Text value)) || (su_EventSeq value <? 0))) ErrInvalid;
  s ← get;
  match sessions s !! key [su_TenantID value; su_SessionID value] with
  | None => throw ErrNotFound
  | Some _ =>
      let k := key [su_TenantID value; su_SessionID value; su_FilterKey value] in
      let store (version : Z) (created updated : time) : act Store error SummaryRecord :=
        let v := mkSummaryRecord (su_TenantID value) (su_SessionID value) (su_FilterKey value)
          (su_Text value) (su_EventSeq value) version created updated in
        _ ← put (set_summaries (<[k := v]> (summaries s)) s);
        mret v in
      match summaries s !! k with
      | Some existing =>
          if su_EventSeq value <? su_EventSeq existing then throw ErrConflict
          else store (wrap64 (su_Version existing + 1)) (su_CreatedAt existing) (clk 0%nat)
      | None => store 1 (clk 0%nat) (clk 1%nat)
      end
  end.

Definition GetSummary (ctx : context) (tenantID sessionID filterKey : string)
    : act Store error SummaryRecord :=
  _ ← lift (check ctx);
  _ ← ensure (is_ok (ValidateSession tenantID sessionID)) ErrInvalid;
  s ← get;
  match summaries s !! key [tenantID; sessionID; filterKey] with
  | None => throw ErrNotFound
  | Some value => mret value
  end.

Lemma key_inj ps qs : key ps = key qs → ps = qs.
Proof. apply len_prefixed_all_inj. Qed.
