(* ===== verification/StoreTheorems.v ===== *)
(** What the runtime store of [RuntimeStore.v] guarantees over every interleaving
    of its operations: an abstract transition relation that each operation
    implements, referential integrity as an invariant of that relation, tenant
    isolation, exactly-once recording, execution fencing, ordered histories, atomic
    reply batches and the cascade of a session's deletion. *)
From Stdlib Require Import Ascii String.
From S2P Require Import Prelude GoStrings RuntimeStore.
Local Open Scope Z_scope.

(** * Interleavings: a run is a sequence of operations of any callers *)

Section Runs.
Context `{Codec}.

Inductive op :=
| OpCreateSession (ctx : context) (clk : clock) (tenantID sessionID : string) (state : any_map)
| OpUpdateSessionState (ctx : context) (clk : clock) (tenantID sessionID : string)
    (expectedVersion : Z) (state : any_map)
| OpDeleteSession (ctx : context) (tenantID sessionID : string)
| OpRecordMessage (ctx : context) (clk : clock) (input : MessageEventInput)
| OpTransitionMessage (ctx : context) (clk : clock) (t : MessageTransition)
| OpAppendEventPayload (ctx : context) (clk : clock) (payload : EventPayload)
| OpEnqueueReply (ctx : context) (clk : clock) (value : ReplyOutbox)
| OpEnqueueReplies (ctx : context) (clk : clock) (values : list ReplyOutbox)
| OpEnqueueCorrelated (ctx : context) (clk : clock) (c : ReplyCorrelation)
    (values : list ReplyOutbox)
| OpClaimReply (ctx : context) (clk : clock) (tenantID replyID : string) (segment : Z)
    (owner : string) (lease : duration)
| OpTransitionReply (ctx : context) (clk : clock) (t : ReplyTransition)
| OpPutSummary (ctx : context) (clk : clock) (value : SummaryRecord).

Definition exec (o : op) (s : Store) : Store :=
  match o with
  | OpCreateSession ctx clk tn sid st => (CreateSession ctx clk tn sid st s).1
  | OpUpdateSessionState ctx clk tn sid v st => (UpdateSessionState ctx clk tn sid v st s).1
  | OpDeleteSession ctx tn sid => (DeleteSession ctx tn sid s).1
  | OpRecordMessage ctx clk i => (RecordMessage ctx clk i s).1
  | OpTransitionMessage ctx clk t => (TransitionMessage ctx clk t s).1
  | OpAppendEventPayload ctx clk p => (AppendEventPayload ctx clk p s).1
  | OpEnqueueReply ctx clk v => (EnqueueReply ctx clk v s).1
  | OpEnqueueReplies ctx clk vs => (EnqueueReplies ctx clk vs s).1
  | OpEnqueueCorrelated ctx clk c vs => (EnqueueRepliesWithCorrelation ctx clk c vs s).1
  | OpClaimReply ctx clk tn rid seg owner d => (ClaimReply ctx clk tn rid seg owner d s).1
  | OpTransitionReply ctx clk t => (TransitionReply ctx clk t s).1
  | OpPutSummary ctx clk v => (PutSummary ctx clk v s).1
  end.

(** The tenant on whose behalf an operation runs. *)
Definition op_tenant (o : op) : string :=
  match o with
  | OpCreateSession _ _ tn _ _ | OpUpdateSessionState _ _ tn _ _ _
  | OpDeleteSession _ tn _ | OpClaimReply _ _ tn _ _ _ _ => tn
  | OpRecordMessage _ _ i => i_TenantID i
  | OpTransitionMessage _ _ t => mt_TenantID t
  | OpAppendEventPayload _ _ p => p_TenantID p
  | OpEnqueueReply _ _ v => r_TenantID v
  | OpEnqueueReplies _ _ vs | OpEnqueueCorrelated _ _ _ vs =>
      match vs with v :: _ => r_TenantID v | [] => "" end
  | OpTransitionReply _ _ t => t_TenantID t
  | OpPutSummary _ _ v => su_TenantID v
  end.

Definition deletes (o : op) : bool :=
  match o with OpDeleteSession _ _ _ => true | _ => false end.

Definition run (os : list op) (s : Store) : Store := foldl (λ s o, exec o s) s os.

End Runs.

(** * Well-formed stores *)

Definition session_ok (k : string) (v : Session) : Prop :=
  k = key [s_TenantID v; s_SessionID v] ∧ s_TenantID v ≠ "" ∧ s_SessionID v ≠ "".

(** An event belongs to a stored session, its sequence number was drawn from that
    session's version counter, the idempotency index leads back to it, and it has a
    lease exactly while it runs. *)
Definition event_ok (s : Store) (k : string) (e : MessageEvent) : Prop :=
  k = key [e_TenantID e; e_EventID e]
  ∧ (∃ v, sessions s !! key [e_TenantID e; e_SessionID e] = Some v
          ∧ e_EventSeq e ≤ s_Version v)
  ∧ messages s !! key [e_TenantID e; e_BindingID e; e_ExternalMessageID e] = Some k
  ∧ (e_Status e = EventRunning ↔ is_Some (e_LeaseExpiresAt e))
  ∧ (e_Status e = EventRunning ↔ e_LeaseOwner e ≠ "").

Definition message_ok (s : Store) (u k : string) : Prop :=
  ∃ e, events s !! k = Some e
       ∧ u = key [e_TenantID e; e_BindingID e; e_ExternalMessageID e].

(** A reply segment belongs to a stored event and goes to that event's target. *)
Definition reply_ok (s : Store) (k : string) (r : ReplyOutbox) : Prop :=
  k = reply_key_of r ∧ 0 ≤ r_SegmentIndex r < r_SegmentCount r
  ∧ ∃ e, events s !! key [r_TenantID r; r_EventID r] = Some e
         ∧ e_ReplyTarget e = r_ReplyTarget r.

(** A history belongs to a stored session; its entries are numbered 1, 2, ... and
    no event occurs twice. *)
Definition history_ok (s : Store) (k : string) (entries : list EventPayload) : Prop :=
  is_Some (sessions s !! k)
  ∧ Forall (λ p, k = key [p_TenantID p; p_SessionID p]) entries
  ∧ NoDup (p_EventID <$> entries)
  ∧ p_HistorySeq <$> entries = (λ i, Z.of_nat i + 1) <$> seq 0 (length entries).

Definition summary_ok (s : Store) (k : string) (v : SummaryRecord) : Prop :=
  k = key [su_TenantID v; su_SessionID v; su_FilterKey v]
  ∧ is_Some (sessions s !! key [su_TenantID v; su_SessionID v]).

Record wf (s : Store) : Prop := {
  wf_sessions : map_Forall session_ok (sessions s);
  wf_events : map_Forall (event_ok s) (events s);
  wf_messages : map_Forall (message_ok s) (messages s);
  wf_replies : map_Forall (reply_ok s) (replies s);
  wf_histories : map_Forall (history_ok s) (histories s);
  wf_summaries : map_Forall (summary_ok s) (summaries s);
  (** Sequence numbers are unique within a session. *)
  wf_seq : ∀ k1 k2 e1 e2,
    events s !! k1 = Some e1 → events s !! k2 = Some e2 →
    e_TenantID e1 = e_TenantID e2 → e_SessionID e1 = e_SessionID e2 →
    e_EventSeq e1 = e_EventSeq e2 → k1 = k2
}.

(** Room for [n] more increments of each counter below the [int64] limit. *)
Definition room (n : nat) (s : Store) : Prop :=
  Z.of_nat n ≤ int64_max
  ∧ map_Forall (λ _ v, 1 ≤ s_Version v ≤ int64_max - Z.of_nat n) (sessions s)
  ∧ map_Forall (λ _ e, 0 ≤ e_FencingToken e ≤ int64_max - Z.of_nat n) (events s)
  ∧ map_Forall (λ _ es, Z.of_nat (length es) ≤ int64_max - Z.of_nat n) (histories s).

(** * The abstract transition relation *)

Definition same_event (e e' : MessageEvent) : Prop :=
  e_TenantID e' = e_TenantID e ∧ e_EventID e' = e_EventID e ∧ e_SessionID e' = e_SessionID e
  ∧ e_BindingID e' = e_BindingID e ∧ e_ExternalMessageID e' = e_ExternalMessageID e
  ∧ e_EventSeq e' = e_EventSeq e ∧ e_ReplyTarget e' = e_ReplyTarget e.

Definition lease_shape (e : MessageEvent) : Prop :=
  (e_Status e = EventRunning ↔ is_Some (e_LeaseExpiresAt e))
  ∧ (e_Status e = EventRunning ↔ e_LeaseOwner e ≠ "").

Definition same_reply (r r' : ReplyOutbox) : Prop :=
  r_TenantID r' = r_TenantID r ∧ r_ReplyID r' = r_ReplyID r ∧ r_EventID r' = r_EventID r
  ∧ r_SegmentIndex r' = r_SegmentIndex r ∧ r_SegmentCount r' = r_SegmentCount r
  ∧ r_Payload r' = r_Payload r ∧ r_ReplyTarget r' = r_ReplyTarget r.

(** Moves of a reply: a legal transition, or a takeover of an expired sending. *)
Definition reply_move (from to : string) : Prop :=
  ValidateTransition from to = true ∨ (from = ReplySending ∧ to = ReplySending).

(** A segment that a batch of tenant [tn] may add. *)
Definition new_segment (tn : string) (s : Store) (k : string) (r : ReplyOutbox) : Prop :=
  replies s !! k = None ∧ r_TenantID r = tn ∧ r_Status r = ReplyPending ∧ reply_ok s k r.

Inductive step (tn : string) (d : bool) (s : Store) : Store → Prop :=
| step_stutter : step tn d s s
| step_session sid v :
    tn ≠ "" → sid ≠ "" → s_TenantID v = tn → s_SessionID v = sid →
    s_Version v = match sessions s !! key [tn; sid] with
                  | Some old => s_Version old + 1
                  | None => 1
                  end →
    step tn d s (set_sessions (<[key [tn; sid] := v]> (sessions s)) s)
| step_record v v' e :
    sessions s !! key [tn; e_SessionID e] = Some v →
    s_TenantID v' = s_TenantID v → s_SessionID v' = s_SessionID v →
    s_Version v' = s_Version v + 1 → e_EventSeq e = s_Version v' →
    e_TenantID e = tn → e_Status e = EventReceived → e_FencingToken e = 0 →
    lease_shape e →
    events s !! key [tn; e_EventID e] = None →
    messages s !! key [tn; e_BindingID e; e_ExternalMessageID e] = None →
    step tn d s
      (set_messages (<[key [tn; e_BindingID e; e_ExternalMessageID e] := key [tn; e_EventID e]]>
         (messages s))
        (set_events (<[key [tn; e_EventID e] := e]> (events s))
          (set_sessions (<[key [tn; e_SessionID e] := v']> (sessions s)) s)))
| step_message e e' :
    e_TenantID e = tn → events s !! key [tn; e_EventID e] = Some e →
    same_event e e' → lease_shape e' →
    ValidateMessageTransition (e_Status e) (e_Status e') = true →
    e_FencingToken e' = e_FencingToken e + 1 →
    step tn d s (set_events (<[key [tn; e_EventID e] := e']> (events s)) s)
| step_append p :
    p_TenantID p = tn → is_Some (sessions s !! key [tn; p_SessionID p]) →
    p_EventID p ∉ p_EventID <$> history s (key [tn; p_SessionID p]) →
    p_HistorySeq p = Z.of_nat (length (history s (key [tn; p_SessionID p]))) + 1 →
    step tn d s (set_histories (<[key [tn; p_SessionID p] :=
      history s (key [tn; p_SessionID p]) ++ [p]]> (histories s)) s)
| step_enqueue rs cs :
    replies s ⊆ rs →
    (∀ k r, rs !! k = Some r → replies s !! k = Some r ∨ new_segment tn s k r) →
    (∀ k, (∀ ev, k ≠ key [tn; ev]) → cs !! k = correlations s !! k) →
    step tn d s (set_correlations cs (set_replies rs s))
| step_reply r r' :
    r_TenantID r = tn → replies s !! reply_key_of r = Some r → same_reply r r' →
    reply_move (r_Status r) (r_Status r') →
    r_FencingToken r' = incr64 (r_FencingToken r) →
    step tn d s (set_replies (<[reply_key_of r := r']> (replies s)) s)
| step_delete sid s' :
    d = true →
    sessions s' = delete (key [tn; sid]) (sessions s) →
    histories s' = delete (key [tn; sid]) (histories s) →
    summaries s' = filter (λ kv, ¬ (su_TenantID kv.2 = tn ∧ su_SessionID kv.2 = sid))
                     (summaries s) →
    correlations s' = correlations s →
    (∀ k e, events s' !! k = Some e ↔
       events s !! k = Some e ∧ of_session tn sid e = false) →
    (∀ u k, messages s' !! u = Some k ↔
       messages s !! u = Some k ∧
       ∀ k0 e0, events s !! k0 = Some e0 → of_session tn sid e0 = true →
         u ≠ key [tn; e_BindingID e0; e_ExternalMessageID e0]) →
    (∀ k r, replies s' !! k = Some r ↔
       replies s !! k = Some r ∧
       ∀ k0 e0, events s !! k0 = Some e0 → of_session tn sid e0 = true →
         ¬ (r_TenantID r = tn ∧ r_EventID r = e_EventID e0)) →
    step tn d s s'
| step_summary v :
    su_TenantID v = tn → is_Some (sessions s !! key [tn; su_SessionID v]) →
    step tn d s (set_summaries
      (<[key [tn; su_SessionID v; su_FilterKey v] := v]> (summaries s)) s).

(** * Keys *)

Lemma replyKey_inj t1 r1 i1 t2 r2 i2 :
  replyKey t1 r1 i1 = replyKey t2 r2 i2 → t1 = t2 ∧ r1 = r2 ∧ i1 = i2.
Proof. intros [= -> -> Hi%itoa_inj]%key_inj. done. Qed.

(** Solve goals about equal or different keys. *)
Ltac keys :=
  repeat match goal with
  | H : key _ = key _ |- _ => apply key_inj in H; simplify_eq/=
  | H : replyKey _ _ _ = replyKey _ _ _ |- _ => apply replyKey_inj in H as (? & ? & ?); simplify_eq/=
  end.

Lemma room_le n m s : (m ≤ n)%nat → room n s → room m s.
Proof.
  intros ? (? & Hs & He & Hh). split_and!; [lia|..]; intros k v Hv; simpl;
    [specialize (Hs _ _ Hv)|specialize (He _ _ Hv)|specialize (Hh _ _ Hv)]; simpl in *; lia.
Qed.

Lemma check_ok ctx : check ctx = Ok () ∨ ∃ e, check ctx = Err e.
Proof. destruct (check ctx) as [[]|e]; eauto. Qed.

Lemma ValidateSession_ok tn sid u : ValidateSession tn sid = Ok u → tn ≠ "" ∧ sid ≠ "".
Proof.
  unfold ValidateSession, ValidateTenant, str_empty. intros. go_step. bool_prop.
  destruct (String.eqb_spec tn ""); done.
Qed.

Lemma set_correlations_id s : set_correlations (correlations s) s = s.
Proof. by destruct s. Qed.

(** * Each operation implements the transition relation *)

Lemma CreateSession_step d ctx clk tn sid st s : step tn d s (CreateSession ctx clk tn sid st s).1.
Proof.
  unfold CreateSession. go_step; try apply step_stutter.
  match goal with Hv : ValidateSession _ _ = _ |- _ => apply ValidateSession_ok in Hv as [??] end.
  apply step_session; try done. by case_match.
Qed.

Lemma UpdateSessionState_step d ctx clk tn sid ver st s :
  wf s → room 1 s → step tn d s (UpdateSessionState ctx clk tn sid ver st s).1.
Proof.
  intros Hwf (_ & Hroom & _). unfold UpdateSessionState. go_step; try apply step_stutter.
  match goal with Hv : sessions s !! _ = Some _ |- _ =>
    destruct (wf_sessions _ Hwf _ _ Hv) as (? & ? & ?); specialize (Hroom _ _ Hv);
    rename Hv into Hold end. keys.
  apply step_session; try done. rewrite Hold. simpl.
  apply incr64_small. unfold int64_min, int64_max in *. lia.
Qed.

Lemma RecordMessage_step d ctx clk i s :
  wf s → room 1 s → step (i_TenantID i) d s (RecordMessage ctx clk i s).1.
Proof.
  intros Hwf (_ & Hroom & _). unfold RecordMessage. go_step; try apply step_stutter.
  match goal with Hv : sessions s !! _ = Some ?v |- _ =>
    specialize (Hroom _ _ Hv); rename Hv into Hold; rename v into v0 end.
  match goal with |- step _ _ _ (set_messages _ (set_events (<[_ := ?e]> _)
      (set_sessions (<[_ := ?v']> _) _))) =>
    apply (step_record _ _ s v0 v' e) end; try done; simpl.
  - apply incr64_small. unfold int64_min, int64_max in *. simpl in *. lia.
  - split; simpl; split; try done.
Qed.

Lemma validateMessageTransition_ok t u :
  validateMessageTransition t = Ok u →
  mt_TenantID t ≠ "" ∧ mt_EventID t ≠ "" ∧ mt_Owner t ≠ ""
  ∧ ValidateMessageTransition (mt_From t) (mt_To t) = true.
Proof.
  unfold validateMessageTransition, ValidateTenant, str_empty. intros. go_step; bool_prop; done.
Qed.

Lemma apply_lease_shape now stamp t e :
  mt_Owner t ≠ "" → lease_shape (applyMessageTransition now stamp t e).
Proof.
  intros. unfold lease_shape, applyMessageTransition. simpl.
  destruct (String.eqb_spec (mt_To t) EventRunning) as [->|Hn]; [by split|].
  by split; split; try done; intros [].
Qed.

Lemma TransitionMessage_step d ctx clk t s :
  wf s → room 1 s → step (mt_TenantID t) d s (TransitionMessage ctx clk t s).1.
Proof.
  intros Hwf (_ & _ & Hroom & _). unfold TransitionMessage. go_step; try apply step_stutter.
  match goal with Hv : events s !! _ = Some ?v |- _ =>
    destruct (wf_events _ Hwf _ _ Hv) as (? & _ & _ & Hl); specialize (Hroom _ _ Hv);
    rename Hv into Hold; rename v into e0 end. keys. bool_prop.
  match goal with Hv : validateMessageTransition _ = _ |- _ =>
    apply validateMessageTransition_ok in Hv as (? & ? & ? & ?) end.
  rewrite H1, H4 in *. apply step_message; try done.
  - by apply apply_lease_shape.
  - simpl. congruence.
  - apply incr64_small. unfold int64_min, int64_max in *. lia.
Qed.

Lemma find_entry_None ev es : find_entry ev es = None ↔ ev ∉ p_EventID <$> es.
Proof.
  induction es as [|e es IH]; simpl; [set_solver|].
  destruct (String.eqb_spec (p_EventID e) ev); simpl; set_solver.
Qed.

Lemma AppendEventPayload_step `{Codec} d ctx clk p s :
  wf s → room 1 s → step (p_TenantID p) d s (AppendEventPayload ctx clk p s).1.
Proof.
  intros Hwf (_ & _ & _ & Hroom). unfold AppendEventPayload. go_step; try apply step_stutter.
  match goal with |- step _ _ _ (set_histories (<[_ := _ ++ [?q]]> _) _) =>
    apply (step_append _ _ s q) end; simpl; [done|by eauto|by apply find_entry_None|].
  apply wrap64_id. unfold history, int64_min, int64_max in *.
  destruct (histories s !! _) as [es|] eqn:Hh; simpl; [|lia]. specialize (Hroom _ _ Hh). simpl in *. lia.
Qed.

Lemma with_pending_key now v : reply_key_of (with_pending now v) = reply_key_of v.
Proof. done. Qed.

Lemma EnqueueReply_step d ctx clk v s : step (r_TenantID v) d s (EnqueueReply ctx clk v s).1.
Proof.
  unfold EnqueueReply. go_step; try apply step_stutter.
  match goal with |- step _ _ _ ?s' =>
    replace s' with (set_correlations (correlations s) s') by done end.
  apply step_enqueue.
  - by apply insert_subseteq.
  - intros k r [[<- <-]|[??]]%lookup_insert_Some; [right|by left].
    bool_prop. split_and!; try done. split_and!; simpl; eauto; lia.
  - done.
Qed.

Lemma batch_member_ok_spec first v :
  batch_member_ok first v = true →
  0 ≤ r_SegmentIndex v < r_SegmentCount v ∧ r_TenantID v = r_TenantID first
  ∧ r_ReplyID v = r_ReplyID first ∧ r_EventID v = r_EventID first
  ∧ r_SegmentCount v = r_SegmentCount first ∧ r_ReplyTarget v = r_ReplyTarget first.
Proof. unfold batch_member_ok. intros. bool_prop. split_and!; done || lia. Qed.

Lemma batch_seen_spec first vs : ∀ seen seen',
  batch_seen first vs seen = Some seen' →
  Forall (λ v, batch_member_ok first v = true) vs
  ∧ seen' = list_to_set (r_SegmentIndex <$> vs) ∪ seen
  ∧ NoDup (r_SegmentIndex <$> vs) ∧ ∀ v, v ∈ vs → r_SegmentIndex v ∉ seen.
Proof.
  induction vs as [|v vs IH]; simpl; intros seen seen' Hs; simplify_eq.
  - split_and!; [done|set_solver|constructor|set_solver].
  - go_cases. bool_prop. apply IH in Hs as (? & -> & ? & Hfresh). split_and!.
    + by constructor.
    + set_solver.
    + constructor; [|done]. rewrite list_elem_of_fmap. intros (w & Hw & Hin).
      apply (Hfresh _ Hin). set_solver.
    + intros w [->|Hw]%elem_of_cons; [done|]. specialize (Hfresh _ Hw). set_solver.
Qed.

(** What the storing loop does: it keeps what is there and adds the other segments. *)
Lemma store_segments_spec now vs : ∀ rs rs' out,
  store_segments now vs rs = (rs', out) →
  rs ⊆ rs' ∧
  (∀ k r, rs' !! k = Some r → rs !! k = Some r ∨
     (rs !! k = None ∧ ∃ v, v ∈ vs ∧ k = reply_key_of v ∧ r = with_pending now v)) ∧
  Forall2 (λ v r, rs' !! reply_key_of v = Some r ∧
     (rs !! reply_key_of v = Some r ∨ rs !! reply_key_of v = None)) vs out.
Proof.
  induction vs as [|v vs IH]; simpl; intros rs rs' out Hs; simplify_eq.
  { split_and!; [done|by left|constructor]. }
  destruct (rs !! reply_key_of v) as [old|] eqn:Hold.
  - destruct (store_segments now vs rs) as [rs1 out1] eqn:E. simplify_eq.
    destruct (IH _ _ _ E) as (Hsub & Hnew & Hall). split_and!; [done|..].
    + intros k r Hk. destruct (Hnew _ _ Hk) as [?|(? & w & ? & ? & ?)]; [by left|right].
      split; [done|]. exists w. split; [by right|done].
    + constructor; [|done]. split; [by eapply lookup_weaken|by left].
  - destruct (store_segments now vs _) as [rs1 out1] eqn:E. simplify_eq.
    destruct (IH _ _ _ E) as (Hsub & Hnew & Hall).
    assert (rs ⊆ rs') by (etrans; [by apply insert_subseteq|done]). split_and!; [done|..].
    + intros k r Hk. destruct (Hnew _ _ Hk) as [Hk'|(Hk' & w & ? & ? & ?)].
      * apply lookup_insert_Some in Hk' as [[<- <-]|[??]]; [right|by left].
        split; [done|]. exists v. split; [by left|done].
      * apply lookup_insert_None in Hk' as [??]. right. split; [done|].
        exists w. split; [by right|done].
    + constructor.
      * split; [|by right]. eapply lookup_weaken; [|exact Hsub]. apply lookup_insert_eq.
      * eapply Forall2_impl; [exact Hall|]. intros w r [? Hr]. split; [done|].
        destruct Hr as [[[Hk <-]|[??]]%lookup_insert_Some|[??]%lookup_insert_None];
          [right; by rewrite <- Hk|by left|by right].
Qed.

Lemma all_present_spec n i seen :
  all_present n i seen = true ↔ ∀ j, i ≤ j < i + Z.of_nat n → j ∈ seen.
Proof.
  revert i. induction n as [|n IH]; intros i; simpl.
  { split; [lia|done]. }
  rewrite andb_true_iff, bool_decide_eq_true, IH. split.
  - intros [Hi Hrest] j Hj. destruct (decide (j = i)) as [->|]; [done|]. apply Hrest. lia.
  - intros Hall. split; [apply Hall; lia|]. intros j Hj. apply Hall. lia.
Qed.

Lemma validateReplyBatch_ok vs first :
  validateReplyBatch vs = Ok first →
  (∃ vs', vs = first :: vs') ∧ Forall (λ v, batch_member_ok first v = true) vs
  ∧ NoDup (r_SegmentIndex <$> vs)
  ∧ Z.of_nat (length vs) = r_SegmentCount first
  ∧ ∀ i, 0 ≤ i < r_SegmentCount first ↔ i ∈ r_SegmentIndex <$> vs.
Proof.
  unfold validateReplyBatch. intros Hs. destruct vs as [|v vs]; [done|].
  destruct (batch_seen v (v :: vs) ∅) as [seen|] eqn:Hseen; [|done].
  apply batch_seen_spec in Hseen as (Hall & -> & Hnd & _). go_step. bool_prop.
  rewrite union_empty_r_L in *.
  match goal with He : all_present _ _ _ = true |- _ => rewrite all_present_spec in He;
    rename He into Hp end.
  change ({[r_SegmentIndex first]} ∪ list_to_set (r_SegmentIndex <$> vs) : gset Z)
    with (list_to_set (r_SegmentIndex <$> first :: vs) : gset Z) in *.
  rewrite size_list_to_set, length_fmap in * by done.
  split_and!; [by eexists|done|done|done|]. intros i. split.
  - intros Hi. eapply (elem_of_list_to_set (C:=gset Z)). apply Hp. lia.
  - change (i ∈ r_SegmentIndex <$> first :: vs → 0 ≤ i < r_SegmentCount first). rewrite list_elem_of_fmap. intros (w & -> & Hw). rewrite Forall_forall in Hall.
    destruct (batch_member_ok_spec _ _ (Hall _ Hw)) as (? & _ & _ & _ & ? & _). lia.
Qed.

(** A batch is either refused without any change, or stored as a whole. *)
Lemma enqueueReplies_inv ctx clk c vs s s' out :
  enqueueReplies ctx clk c vs s = (s', out) →
  (∃ e, out = Err e ∧ s' = s) ∨
  (∃ first e rs res, out = Ok res ∧ validateReplyBatch vs = Ok first
     ∧ events s !! key [r_TenantID first; r_EventID first] = Some e
     ∧ e_ReplyTarget e = r_ReplyTarget first
     ∧ validateExistingReplies (replies s) vs = Ok ()
     ∧ store_segments (clk 0%nat) vs (replies s) = (rs, res)
     ∧ ((c_RequestID c = "" ∧ s' = set_replies rs s) ∨
        (c_RequestID c ≠ "" ∧ c_TenantID c = r_TenantID first
         ∧ c_EventID c = r_EventID first
         ∧ correlations s !! key [c_TenantID c; c_EventID c] ∈ [None; Some c]
         ∧ s' = set_correlations (<[key [c_TenantID c; c_EventID c] := c]> (correlations s))
                  (set_replies rs s)))).
Proof.
  unfold enqueueReplies, str_empty. intros Hs. go_step; try (left; by eauto); right;
    bool_prop; (do 4 eexists; split_and!; [done..|]); bool_prop; auto;
    right; (split_and!; [done..| |done]); set_solver.
Qed.

Lemma enqueueReplies_step d ctx clk c vs s :
  step (match vs with v :: _ => r_TenantID v | [] => "" end) d s
    (enqueueReplies ctx clk c vs s).1.
Proof.
  destruct (enqueueReplies ctx clk c vs s) as [s' out] eqn:E.
  apply enqueueReplies_inv in E as [(e & -> & ->)|
    (first & e & rs & res & -> & Hb & He & Ht & _ & Hst & Hs')]; [apply step_stutter|].
  destruct (validateReplyBatch_ok _ _ Hb) as ((vs' & ->) & Hall & _).
  rewrite Forall_forall in Hall. destruct (store_segments_spec _ _ _ _ _ Hst) as (? & Hn & _).
  assert (∀ k r, rs !! k = Some r →
    replies s !! k = Some r ∨ new_segment (r_TenantID first) s k r) as Hnew.
  { intros k r Hk. destruct (Hn _ _ Hk) as [?|(? & v & Hv & -> & ->)]; [by left|right].
    destruct (batch_member_ok_spec _ _ (Hall _ Hv)) as ([??] & Htn & _ & Hev & _ & Htg).
    unfold new_segment, reply_ok. split_and!; try done. exists e. simpl. rewrite Htn, Hev. by split; [|congruence]. }
  destruct Hs' as [[_ ->]|(_ & -> & -> & _ & ->)].
  - change (set_replies rs s) with (set_correlations (correlations s) (set_replies rs s)).
    by apply step_enqueue.
  - apply step_enqueue; [done..|]. intros k Hk. apply lookup_insert_ne. by apply not_eq_sym.
Qed.

Lemma ClaimReply_step d ctx clk tn rid seg owner lease s :
  wf s → step tn d s (ClaimReply ctx clk tn rid seg owner lease s).1.
Proof.
  intros Hwf. unfold ClaimReply. go_step; try apply step_stutter.
  match goal with Hv : replies s !! _ = Some ?v |- _ =>
    destruct (wf_replies _ Hwf _ _ Hv) as (Hk & _ & _); rename Hv into Hold;
    rename v into r0 end.
  rewrite Hk in *. unfold reply_key_of in Hk. keys.
  match goal with |- step _ _ _ (set_replies (<[_ := ?r']> _) _) =>
    apply (step_reply _ _ s r0 r') end; try done. simpl.
  match goal with Hg : (_ && _ && _)%bool = false |- _ => rename Hg into Hg' end.
  destruct (String.eqb_spec (r_Status r0) ReplyPending) as [->|]; [by left|].
  destruct (String.eqb_spec (r_Status r0) ReplyRetryable) as [->|]; [by left|].
  simpl in Hg'. bool_prop. by right.
Qed.

Lemma TransitionReply_step d ctx clk t s :
  wf s → step (t_TenantID t) d s (TransitionReply ctx clk t s).1.
Proof.
  intros Hwf. unfold TransitionReply. go_step; try apply step_stutter.
  match goal with Hv : replies s !! _ = Some ?v |- _ =>
    destruct (wf_replies _ Hwf _ _ Hv) as (Hk & _ & _); rename Hv into Hold;
    rename v into r0 end.
  rewrite Hk in *. unfold reply_key_of in Hk. keys. bool_prop.
  match goal with |- step _ _ _ (set_replies (<[_ := ?r']> _) _) =>
    apply (step_reply _ _ s r0 r') end; try done. left. simpl. congruence.
Qed.

Lemma PutSummary_step d ctx clk v s : step (su_TenantID v) d s (PutSummary ctx clk v s).1.
Proof.
  unfold PutSummary. go_step; try apply step_stutter;
  match goal with |- step _ _ _ (set_summaries (<[_ := ?w]> _) _) =>
    apply (step_summary _ _ s w) end; simpl; eauto.
Qed.

(** The deletion loop: what is left after dropping a list of events. *)
Lemma drop_events_spec tn l : ∀ s,
  let s' := foldl (drop_event tn) s l in
  sessions s' = sessions s ∧ histories s' = histories s ∧ summaries s' = summaries s
  ∧ correlations s' = correlations s
  ∧ (∀ k e, events s' !! k = Some e ↔ events s !! k = Some e ∧ k ∉ l.*1)
  ∧ (∀ u k, messages s' !! u = Some k ↔ messages s !! u = Some k ∧
       ∀ ke, ke ∈ l → u ≠ key [tn; e_BindingID ke.2; e_ExternalMessageID ke.2])
  ∧ (∀ k r, replies s' !! k = Some r ↔ replies s !! k = Some r ∧
       ∀ ke, ke ∈ l → ¬ (r_TenantID r = tn ∧ r_EventID r = e_EventID ke.2)).
Proof.
  induction l as [|ke l IH]; intros s; simpl.
  { split_and!; try done; intros; split; try naive_solver; intros; split; auto; set_solver. }
  destruct (IH (drop_event tn s ke)) as (-> & -> & -> & -> & He & Hm & Hr). simpl in *.
  split_and!; try done.
  - intros k e. rewrite He, lookup_delete_Some, elem_of_cons. naive_solver.
  - intros u k. rewrite Hm, lookup_delete_Some. setoid_rewrite elem_of_cons. naive_solver.
  - intros k r. rewrite Hr, map_lookup_filter_Some. setoid_rewrite elem_of_cons. naive_solver.
Qed.

Lemma elem_of_session_events tn sid s k e :
  (k, e) ∈ session_events tn sid s ↔ events s !! k = Some e ∧ of_session tn sid e = true.
Proof.
  unfold session_events. rewrite list_elem_of_filter, elem_of_map_to_list. simpl.
  rewrite Is_true_true. naive_solver.
Qed.

Lemma DeleteSession_step ctx tn sid s : step tn true s (DeleteSession ctx tn sid s).1.
Proof.
  unfold DeleteSession. go_step; try apply step_stutter.
  match goal with |- step _ _ _ (foldl _ ?s1 _) =>
    destruct (drop_events_spec tn (session_events tn sid s) s1)
      as (Hs & Hh & Hu & Hc & He & Hm & Hr) end. simpl in *.
  apply (step_delete _ _ _ sid); try done.
  - intros k e. rewrite He. split; intros [Hk Hn]; (split; [done|]).
    + apply not_true_is_false. intros Ho. apply Hn, list_elem_of_fmap.
      exists (k, e). by rewrite elem_of_session_events.
    + intros ((k' & e') & -> & [Hk' Ho]%elem_of_session_events)%list_elem_of_fmap.
      simpl in *. simplify_eq. congruence.
  - intros u k. rewrite Hm. split; intros [Hk Hn]; (split; [done|]).
    + intros k0 e0 He0 Ho. apply (Hn (k0, e0)). by apply elem_of_session_events.
    + intros [k0 e0] [He0 Ho]%elem_of_session_events. by eapply Hn.
  - intros k r. rewrite Hr. split; intros [Hk Hn]; (split; [done|]).
    + intros k0 e0 He0 Ho. apply (Hn (k0, e0)). by apply elem_of_session_events.
    + intros [k0 e0] [He0 Ho]%elem_of_session_events. by eapply Hn.
Qed.

Lemma exec_step `{Codec} o s : wf s → room 1 s → step (op_tenant o) (deletes o) s (exec o s).
Proof.
  intros Hwf Hr. destruct o; simpl.
  - apply CreateSession_step.
  - by apply UpdateSessionState_step.
  - apply DeleteSession_step.
  - by apply RecordMessage_step.
  - by apply TransitionMessage_step.
  - by apply AppendEventPayload_step.
  - apply EnqueueReply_step.
  - apply enqueueReplies_step.
  - unfold EnqueueRepliesWithCorrelation, ensure, lift. unfold mbind at 1, act_bind.
    destruct (guard_ok _ _); [apply enqueueReplies_step|apply step_stutter].
  - by apply ClaimReply_step.
  - by apply TransitionReply_step.
  - apply PutSummary_step.
Qed.

(** * The invariant is kept by every transition *)

(** Sessions that stay, with versions that do not go back, keep what refers to them. *)
Definition sessions_grow (s s' : Store) : Prop :=
  ∀ k v, sessions s !! k = Some v → ∃ v', sessions s' !! k = Some v' ∧ s_Version v ≤ s_Version v'.

Lemma event_ok_grow s s' k e :
  sessions_grow s s' → messages s ⊆ messages s' → event_ok s k e → event_ok s' k e.
Proof.
  intros Hg Hm (? & (v & Hv & ?) & ? & ?). split; [done|]. split; [|split; [|done]].
  - destruct (Hg _ _ Hv) as (v' & ? & ?). exists v'. split; [done|lia].
  - by eapply lookup_weaken.
Qed.

Lemma history_ok_grow s s' k es : sessions_grow s s' → history_ok s k es → history_ok s' k es.
Proof. intros Hg ([v Hv] & ?). destruct (Hg _ _ Hv) as (v' & ? & _). split; eauto. Qed.

Lemma summary_ok_grow s s' k v : sessions_grow s s' → summary_ok s k v → summary_ok s' k v.
Proof. intros Hg (? & [w Hw]). destruct (Hg _ _ Hw) as (v' & ? & _). split; eauto. Qed.

Lemma sessions_grow_insert s s' k v :
  sessions s' = <[k := v]> (sessions s) →
  (∀ old, sessions s !! k = Some old → s_Version old ≤ s_Version v) → sessions_grow s s'.
Proof.
  intros Hs Hv k' v' Hk. rewrite Hs. destruct (decide (k = k')) as [<-|].
  - exists v. rewrite lookup_insert_eq. auto.
  - exists v'. rewrite lookup_insert_ne by done. split; [done|lia].
Qed.

Lemma sessions_grow_same s s' : sessions s' = sessions s → sessions_grow s s'.
Proof. intros Hs k v Hk. exists v. rewrite Hs. split; [done|lia]. Qed.

Lemma wf_session_step tn s sid v :
  wf s → tn ≠ "" → sid ≠ "" → s_TenantID v = tn → s_SessionID v = sid →
  s_Version v = match sessions s !! key [tn; sid] with
                | Some old => s_Version old + 1 | None => 1 end →
  wf (set_sessions (<[key [tn; sid] := v]> (sessions s)) s).
Proof.
  intros [] ?? Ht Hs Hv.
  assert (sessions_grow s (set_sessions (<[key [tn; sid] := v]> (sessions s)) s)) as Hg.
  { eapply sessions_grow_insert; [done|]. intros old Hold. rewrite Hold in Hv. lia. }
  split; simpl; try done.
  - apply map_Forall_insert_at; [done|]. by subst.
  - intros k e He. eapply event_ok_grow; eauto.
  - intros k es He. eapply history_ok_grow; eauto.
  - intros k w He. eapply summary_ok_grow; eauto.
Qed.

Lemma wf_record_step tn s v v' e :
  wf s →
  sessions s !! key [tn; e_SessionID e] = Some v →
  s_TenantID v' = s_TenantID v → s_SessionID v' = s_SessionID v →
  s_Version v' = s_Version v + 1 → e_EventSeq e = s_Version v' →
  e_TenantID e = tn → lease_shape e →
  events s !! key [tn; e_EventID e] = None →
  messages s !! key [tn; e_BindingID e; e_ExternalMessageID e] = None →
  wf (set_messages (<[key [tn; e_BindingID e; e_ExternalMessageID e] := key [tn; e_EventID e]]>
        (messages s))
       (set_events (<[key [tn; e_EventID e] := e]> (events s))
         (set_sessions (<[key [tn; e_SessionID e] := v']> (sessions s)) s))).
Proof.
  intros Hwf Hv Ht Hs Hver Hseq Htn Hl Hnew Hfresh. pose proof Hwf as [].
  match goal with |- wf ?s' => set (s1 := s') end.
  assert (sessions_grow s s1) as Hg.
  { eapply sessions_grow_insert; [done|]. intros old Hold. simplify_eq. lia. }
  destruct (wf_sessions0 _ _ Hv) as (Hkv & ? & ?).
  split; simpl.
  - apply map_Forall_insert_at; [done|]. by unfold session_ok; rewrite Ht, Hs.
  - apply map_Forall_insert_at.
    + intros k e' He'. eapply event_ok_grow; [done| |by eauto]. by apply insert_subseteq.
    + split; [by rewrite Htn|]. split; [|split; [|done]].
      * exists v'. rewrite Htn. simpl. rewrite lookup_insert_eq. split; [done|lia].
      * rewrite Htn. apply lookup_insert_eq.
  - apply map_Forall_insert_at.
    + intros u k Hu. destruct (wf_messages0 _ _ Hu) as (e' & He' & ->). exists e'.
      split; [|done]. simpl. rewrite lookup_insert_ne; [done|]. intros <-. by simplify_eq.
    + exists e. simpl. rewrite lookup_insert_eq. split; [done|by rewrite Htn].
  - intros k r Hr. destruct (wf_replies0 _ _ Hr) as (? & ? & e' & He' & ?).
    split; [done|]. split; [done|]. exists e'. split; [|done]. simpl.
    rewrite lookup_insert_ne; [done|]. intros Heq. rewrite <- Heq in He'. simplify_eq.
  - intros k es Hk. eapply history_ok_grow; eauto.
  - intros k w Hk. eapply summary_ok_grow; eauto.
  - assert (∀ k2 e2, events s !! k2 = Some e2 → e_TenantID e = e_TenantID e2 →
      e_SessionID e = e_SessionID e2 → e_EventSeq e = e_EventSeq e2 → False) as Hgt.
    { intros k2 e2 H2 Ht2 Hs2 Hq. destruct (wf_events0 _ _ H2) as (_ & (v2 & Hv2 & ?) & _).
      rewrite <- Ht2, <- Hs2, Htn in Hv2. simplify_eq. lia. }
    intros k1 k2 e1 e2 H1 H2. apply lookup_insert_Some in H1 as [[<- <-]|[? H1]];
      apply lookup_insert_Some in H2 as [[<- <-]|[? H2]]; intros; try done.
    + exfalso. by eapply Hgt.
    + exfalso. by eapply (Hgt k1 e1).
    + by eapply wf_seq0.
Qed.

Lemma wf_message_step tn s e e' :
  wf s → e_TenantID e = tn → events s !! key [tn; e_EventID e] = Some e →
  same_event e e' → lease_shape e' →
  wf (set_events (<[key [tn; e_EventID e] := e']> (events s)) s).
Proof.
  intros [] Htn He (Ht & Hid & Hs & Hb & Hx & Hq & Htg) Hl.
  destruct (wf_events0 _ _ He) as (Hk & Hsess & Hm & _).
  assert (∀ k2 e2, <[key [tn; e_EventID e] := e']> (events s) !! k2 = Some e2 →
    ∃ e0, events s !! k2 = Some e0 ∧ e_TenantID e2 = e_TenantID e0
      ∧ e_SessionID e2 = e_SessionID e0 ∧ e_EventSeq e2 = e_EventSeq e0) as Hback.
  { intros k2 e2 [[<- <-]|[? H2]]%lookup_insert_Some; [by exists e|by exists e2]. }
  split; simpl; try done.
  - apply map_Forall_insert_at; [done|].
    split; [by rewrite Ht, Hid|]. split; [by rewrite Ht, Hs, Hq|].
    split; [by rewrite Ht, Hb, Hx|done].
  - intros u k Hu. destruct (wf_messages0 _ _ Hu) as (e0 & He0 & ->).
    destruct (decide (key [tn; e_EventID e] = k)) as [<-|].
    + exists e'. simpl. rewrite lookup_insert_eq. simplify_eq. by rewrite Ht, Hb, Hx.
    + exists e0. simpl. by rewrite lookup_insert_ne.
  - intros k r Hr. destruct (wf_replies0 _ _ Hr) as (? & ? & e0 & He0 & Htr).
    split; [done|]. split; [done|]. simpl.
    destruct (decide (key [tn; e_EventID e] = key [r_TenantID r; r_EventID r])) as [Heq|].
    + exists e'. rewrite Heq, lookup_insert_eq. rewrite <- Heq in He0. simplify_eq.
      split; [done|congruence].
    + exists e0. by rewrite lookup_insert_ne.
  - intros k1 k2 e1 e2 (e3 & ? & ? & ? & ?)%Hback (e4 & ? & ? & ? & ?)%Hback ???.
    eapply (wf_seq0 _ _ e3 e4); congruence.
Qed.

Lemma wf_append_step tn s p :
  wf s → p_TenantID p = tn → is_Some (sessions s !! key [tn; p_SessionID p]) →
  p_EventID p ∉ p_EventID <$> history s (key [tn; p_SessionID p]) →
  p_HistorySeq p = Z.of_nat (length (history s (key [tn; p_SessionID p]))) + 1 →
  wf (set_histories (<[key [tn; p_SessionID p] :=
        history s (key [tn; p_SessionID p]) ++ [p]]> (histories s)) s).
Proof.
  intros [] Htn Hs Hnew Hseq. split; simpl; try done.
  apply map_Forall_insert_at; [done|]. set (k := key [tn; p_SessionID p]) in *.
  assert (history_ok s k (history s k)) as (_ & Hall & Hnd & Hq).
  { unfold history. destruct (histories s !! k) as [es|] eqn:E; simpl; [by eauto|].
    split; [done|]. split; [constructor|]. split; [constructor|done]. }
  split; [done|]. rewrite !fmap_app, length_app. cbn. rewrite Hq, Hseq, seq_app, fmap_app. cbn.
  split; [|split; [|done]].
  - apply Forall_app. split; [done|]. constructor; [by rewrite Htn|constructor].
  - apply NoDup_app. split; [done|]. split; [set_solver|]. apply NoDup_singleton.
Qed.

Lemma wf_enqueue_step tn s rs cs :
  wf s → (∀ k r, rs !! k = Some r → replies s !! k = Some r ∨ new_segment tn s k r) →
  wf (set_correlations cs (set_replies rs s)).
Proof.
  intros [] Hnew. split; simpl; try done. intros k r Hk.
  destruct (Hnew _ _ Hk) as [Hr|(_ & _ & _ & Hr)]; [by apply wf_replies0|done].
Qed.

Lemma reply_ok_same s k r r' : same_reply r r' → reply_ok s k r → reply_ok s k r'.
Proof.
  intros (Ht & Hi & He & Hs & Hc & Hp & Hg) (-> & ? & ?). unfold reply_ok, reply_key_of.
  by rewrite Ht, Hi, He, Hs, Hc, Hg.
Qed.

Lemma wf_reply_step s r r' :
  wf s → replies s !! reply_key_of r = Some r → same_reply r r' →
  wf (set_replies (<[reply_key_of r := r']> (replies s)) s).
Proof.
  intros [] Hr Hsame. split; simpl; try done. apply map_Forall_insert_at; [done|].
  eapply reply_ok_same; [done|]. by apply wf_replies0.
Qed.

Lemma of_session_spec tn sid e :
  of_session tn sid e = true ↔ e_TenantID e = tn ∧ e_SessionID e = sid.
Proof. unfold of_session. by rewrite andb_true_iff, !String.eqb_eq. Qed.

Lemma wf_delete_step tn s sid s' :
  wf s →
  sessions s' = delete (key [tn; sid]) (sessions s) →
  histories s' = delete (key [tn; sid]) (histories s) →
  summaries s' = filter (λ kv, ¬ (su_TenantID kv.2 = tn ∧ su_SessionID kv.2 = sid))
                   (summaries s) →
  (∀ k e, events s' !! k = Some e ↔ events s !! k = Some e ∧ of_session tn sid e = false) →
  (∀ u k, messages s' !! u = Some k ↔ messages s !! u = Some k ∧
     ∀ k0 e0, events s !! k0 = Some e0 → of_session tn sid e0 = true →
       u ≠ key [tn; e_BindingID e0; e_ExternalMessageID e0]) →
  (∀ k r, replies s' !! k = Some r ↔ replies s !! k = Some r ∧
     ∀ k0 e0, events s !! k0 = Some e0 → of_session tn sid e0 = true →
       ¬ (r_TenantID r = tn ∧ r_EventID r = e_EventID e0)) →
  wf s'.
Proof.
  intros [] Hs Hh Hu He Hm Hr. split.
  - rewrite Hs. by apply map_Forall_delete_2.
  - intros k e [Hk Ho]%He. destruct (wf_events0 _ _ Hk) as (? & (v & Hv & ?) & Hmk & ?).
    split; [done|]. split; [|split; [|done]].
    + exists v. split; [|done]. rewrite Hs, lookup_delete_ne; [done|]. intros ?. keys.
      unfold of_session in Ho. by rewrite !String.eqb_refl in Ho.
    + apply Hm. split; [done|]. intros k0 e0 Hk0 Ho0 Heq.
      destruct (wf_events0 _ _ Hk0) as (_ & _ & Hmk0 & _).
      pose proof (proj1 (of_session_spec _ _ _) Ho0) as [Ht0 _]. rewrite Ht0, <- Heq in Hmk0.
      simplify_eq. congruence.
  - intros u k [Huk Hn]%Hm. destruct (wf_messages0 _ _ Huk) as (e & Hk & ->). exists e.
    split; [|done]. apply He. split; [done|]. apply not_true_is_false. intros Ho.
    apply (Hn _ _ Hk Ho). apply of_session_spec in Ho as [-> _]. done.
  - intros k r [Hk Hn]%Hr. destruct (wf_replies0 _ _ Hk) as (? & ? & e & Hke & ?).
    split; [done|]. split; [done|]. exists e. split; [|done]. apply He. split; [done|].
    apply not_true_is_false. intros Ho. apply (Hn _ _ Hke Ho).
    destruct (wf_events0 _ _ Hke) as (? & _). keys. apply of_session_spec in Ho as [? _]. split; congruence.
  - rewrite Hh. intros k es [Hne Hk]%lookup_delete_Some.
    destruct (wf_histories0 _ _ Hk) as (? & ?). split; [|done].
    by rewrite Hs, lookup_delete_ne.
  - rewrite Hu. intros k v [Hk Hne]%map_lookup_filter_Some.
    destruct (wf_summaries0 _ _ Hk) as (? & ?). split; [done|].
    rewrite Hs, lookup_delete_ne; [done|]. intros ?. keys. by apply Hne.
  - intros k1 k2 e1 e2 [??]%He [??]%He. by eapply wf_seq0.
Qed.

Lemma wf_step tn d s s' : wf s → step tn d s s' → wf s'.
Proof.
  intros Hwf Hstep. destruct Hstep.
  - done.
  - by apply wf_session_step.
  - by eapply wf_record_step.
  - by eapply wf_message_step.
  - by apply wf_append_step.
  - by eapply wf_enqueue_step.
  - by apply wf_reply_step.
  - by eapply (wf_delete_step tn s sid).
  - destruct Hwf. split; simpl; try done. apply map_Forall_insert_at; [done|].
    by split; simpl; [congruence|subst].
Qed.

Lemma room_step n tn d s s' : room (S n) s → step tn d s s' → room n s'.
Proof.
  intros Hr Hstep. pose proof (room_le (S n) n s ltac:(lia) Hr) as Hr'.
  destruct Hr as (? & Hs & He & Hh). destruct Hr' as (? & Hs' & He' & Hh').
  destruct Hstep; split_and!; simpl in *; try done;
    try (apply map_Forall_insert_at; [done|]); simpl in *.
  - destruct (sessions s !! _) as [old|] eqn:E; [specialize (Hs _ _ E); simpl in Hs|];
      unfold int64_max in *; lia.
  - match goal with Hv : sessions s !! _ = Some _ |- _ => specialize (Hs _ _ Hv) end.
    simpl in *. lia.
  - unfold int64_max in *. lia.
  - match goal with Hv : events s !! _ = Some _ |- _ => specialize (He _ _ Hv) end.
    simpl in *. lia.
  - rewrite length_app. unfold history. simpl.
    destruct (histories s !! _) as [es|] eqn:E; [specialize (Hh _ _ E)|]; simpl in *;
      unfold int64_max in *; lia.
  - match goal with Heq : sessions _ = _ |- _ => rewrite Heq end. by apply map_Forall_delete_2.
  - intros k e Hk. apply (He' k). naive_solver.
  - match goal with Heq : histories _ = _ |- _ => rewrite Heq end. by apply map_Forall_delete_2.
Qed.

Section RunFacts.
Context `{Codec}.

Lemma run_keeps_wf os n s : wf s → room (length os + n) s → wf (run os s) ∧ room n (run os s).
Proof.
  revert s. induction os as [|o os IH]; intros s Hwf Hr; [done|]. simpl in *.
  assert (step (op_tenant o) (deletes o) s (exec o s)) as Hst.
  { apply exec_step; [done|]. eapply room_le; [|done]. lia. }
  apply IH; [by eapply wf_step|by eapply room_step].
Qed.

(** A relation kept by every step is kept by every run. *)
Lemma run_steps (R : Store → Store → Prop) `{!PreOrder R} (ok : op → bool) os s :
  (∀ o s, wf s → ok o = true → step (op_tenant o) (deletes o) s (exec o s) → R s (exec o s)) →
  wf s → room (length os) s → forallb ok os = true → R s (run os s).
Proof.
  intros HR. revert s. induction os as [|o os IH]; intros s Hwf Hr Hok; [done|].
  simpl in *. apply andb_true_iff in Hok as [Ho Hok].
  assert (step (op_tenant o) (deletes o) s (exec o s)) as Hst.
  { apply exec_step; [done|]. eapply room_le; [|done]. lia. }
  etrans; [by apply HR|]. apply IH; [by eapply wf_step|by eapply room_step|done].
Qed.

Lemma newStore_wf : wf newStore.
Proof. split; try apply map_Forall_empty. done. Qed.

Lemma newStore_room n : Z.of_nat n ≤ int64_max → room n newStore.
Proof. split; [done|]. split_and!; apply map_Forall_empty. Qed.


(** * Records persist along runs without deletions *)

Definition terminal_event (e : MessageEvent) : bool :=
  (e_Status e =? EventReplied)%string || (e_Status e =? EventFailed)%string.
Definition terminal_reply (r : ReplyOutbox) : bool :=
  (r_Status r =? ReplySent)%string || (r_Status r =? ReplyDeadLetter)%string.

Lemma terminal_event_stuck e to :
  terminal_event e = true → ValidateMessageTransition (e_Status e) to = false.
Proof. unfold terminal_event. intros [Hs|Hs]%orb_true_iff; bool_prop; by rewrite Hs. Qed.

Lemma terminal_reply_stuck r to : terminal_reply r = true → ¬ reply_move (r_Status r) to.
Proof.
  unfold terminal_reply, reply_move. intros [Hs|Hs]%orb_true_iff; bool_prop; rewrite Hs;
    intros [[=]|[[=] _]].
Qed.

(** How a step without deletion acts on one stored event. *)
Definition events_persist (s s' : Store) : Prop :=
  ∀ k e, events s !! k = Some e →
    ∃ e', events s' !! k = Some e' ∧ same_event e e' ∧ e_FencingToken e ≤ e_FencingToken e'
          ∧ (terminal_event e = true → e' = e).

#[local] Instance events_persist_preorder : PreOrder events_persist.
Proof.
  split.
  - intros s k e He. exists e. split_and!; [done..|lia|done].
  - intros s1 s2 s3 H12 H23 k e He. destruct (H12 _ _ He) as (e2 & He2 & Hs2 & ? & Ht2).
    destruct (H23 _ _ He2) as (e3 & He3 & Hs3 & ? & Ht3). exists e3.
    split_and!; [done| |lia|].
    + unfold same_event in *. naive_solver congruence.
    + intros Ht. rewrite (Ht2 Ht) in *. by apply Ht3.
Qed.

Lemma events_persist_step tn s s' : step tn false s s' → events_persist s s'.
Proof.
  intros Hst k e He.
  assert (∃ e', events s !! k = Some e' ∧ same_event e e' ∧ e_FencingToken e ≤ e_FencingToken e'
    ∧ (terminal_event e = true → e' = e)) as Hsame by (exists e; split_and!; done || lia).
  destruct Hst; simpl; try done.
  - exists e. split; [|split_and!; done || lia]. rewrite lookup_insert_ne; [done|].
    intros <-. congruence.
  - destruct (decide (key [tn; e_EventID e0] = k)) as [<-|].
    + rewrite lookup_insert_eq. exists e'. simplify_eq. split_and!; [done..|lia|].
      intros Ht. by rewrite terminal_event_stuck in * by done.
    + by rewrite lookup_insert_ne.
Qed.

(** The same for replies; a reply's token may start anywhere, since a segment is
    stored with the token its caller gave it, so the bound is per step. *)
Definition reply_next (r r' : ReplyOutbox) : Prop :=
  same_reply r r' ∧ reply_move (r_Status r) (r_Status r')
  ∧ r_FencingToken r' = incr64 (r_FencingToken r).

Lemma replies_persist_step tn s s' k r :
  step tn false s s' → replies s !! k = Some r →
  ∃ r', replies s' !! k = Some r' ∧ (r' = r ∨ reply_next r r').
Proof.
  intros Hst Hr. destruct Hst; simpl; eauto.
  - exists r. split; [by eapply lookup_weaken|by left].
  - destruct (decide (reply_key_of r0 = k)) as [<-|].
    + rewrite lookup_insert_eq. simplify_eq. exists r'. split; [done|by right].
    + rewrite lookup_insert_ne by done. eauto.
  - done.
Qed.

Lemma run_reply os : ∀ s k r,
  wf s → room (length os) s → forallb (λ o, negb (deletes o)) os = true →
  replies s !! k = Some r →
  0 ≤ r_FencingToken r → r_FencingToken r + Z.of_nat (length os) ≤ int64_max →
  ∃ r', replies (run os s) !! k = Some r' ∧ same_reply r r'
    ∧ r_FencingToken r ≤ r_FencingToken r' ∧ (terminal_reply r = true → r' = r).
Proof.
  induction os as [|o os IH]; intros s k r Hwf Hroom Hdel Hr Hpos Hmax.
  { exists r. split_and!; [done..|lia|done]. }
  simpl in *. apply andb_true_iff in Hdel as [Ho%negb_true_iff Hdel].
  assert (step (op_tenant o) (deletes o) s (exec o s)) as Hst.
  { apply exec_step; [done|]. eapply room_le; [|done]. lia. }
  pose proof (room_step _ _ _ _ _ Hroom Hst). pose proof (wf_step _ _ _ _ Hwf Hst).
  rewrite Ho in Hst. destruct (replies_persist_step _ _ _ _ _ Hst Hr) as (r1 & Hr1 & Hnext).
  destruct Hnext as [->|(Hsame & Hmove & Hfence)].
  - apply IH; auto; lia.
  - rewrite incr64_small in Hfence by (unfold int64_min, int64_max in *; lia).
    destruct (IH _ _ _ ltac:(done) ltac:(done) Hdel Hr1) as (r' & ? & Hs' & ? & Ht); [lia..|].
    exists r'. split_and!; [done| |lia|].
    + unfold same_reply in *. naive_solver congruence.
    + intros Hterm. by destruct (terminal_reply_stuck _ _ Hterm Hmove).
Qed.

Lemma run_event os s k e :
  wf s → room (length os) s → forallb (λ o, negb (deletes o)) os = true →
  events s !! k = Some e →
  ∃ e', events (run os s) !! k = Some e' ∧ same_event e e'
    ∧ e_FencingToken e ≤ e_FencingToken e' ∧ (terminal_event e = true → e' = e).
Proof.
  intros Hwf Hroom Hdel. revert k e.
  apply (run_steps events_persist (λ o, negb (deletes o))); [|done..].
  intros o s' _ Ho%negb_true_iff Hst. rewrite Ho in Hst. by eapply events_persist_step.
Qed.

(** C3: referential integrity.  In every state that any interleaving of the
    store's operations reaches from an empty store (fewer operations than an [int64]
    counts): each record is stored under its own key; each event belongs to a stored
    session, has a sequence number drawn from that session that no other event of the
    session has, is found through the idempotency index, and holds a lease exactly
    while it runs; each reply belongs to a stored event and goes to that event's
    target; each history belongs to a stored session, is numbered 1, 2, 3, ... and
    repeats no event; each summary belongs to a stored session. *)
Theorem store_integrity os :
  Z.of_nat (length os) ≤ int64_max → wf (run os newStore).
Proof.
  intros. apply (run_keeps_wf os 0); [apply newStore_wf|]. apply newStore_room. lia.
Qed.

(** * Tenant isolation *)

(** The part of a store that belongs to one tenant. *)
Record same_view (tn : string) (s s' : Store) : Prop := {
  sv_sessions sid : sessions s' !! key [tn; sid] = sessions s !! key [tn; sid];
  sv_histories sid : histories s' !! key [tn; sid] = histories s !! key [tn; sid];
  sv_events ev : events s' !! key [tn; ev] = events s !! key [tn; ev];
  sv_replies rid i : replies s' !! replyKey tn rid i = replies s !! replyKey tn rid i;
  sv_correlations ev : correlations s' !! key [tn; ev] = correlations s !! key [tn; ev];
  sv_summaries sid f : summaries s' !! key [tn; sid; f] = summaries s !! key [tn; sid; f]
}.

#[local] Instance same_view_preorder tn : PreOrder (same_view tn).
Proof.
  split; [by split|]. intros s1 s2 s3 [] []. split; intros; etrans; eauto.
Qed.

Lemma same_view_step t tn d s s' : wf s → t ≠ tn → step t d s s' → same_view tn s s'.
Proof.
  intros Hwf Hne Hst. destruct Hst.
  1-5, 9: split; intros; simpl; try done; apply lookup_insert_ne; intros ?; by keys.
  - split; intros; simpl; try done.
    + destruct (replies s !! _) as [r|] eqn:Hr; [by eapply lookup_weaken|].
      destruct (rs !! _) as [r|] eqn:Hr'; [|done].
      match goal with Hn : ∀ k r, rs !! k = Some r → _ |- _ =>
        destruct (Hn _ _ Hr') as [?|(_ & Ht & _ & Hk & _)] end; [congruence|].
      unfold reply_key_of in Hk. by keys.
    + match goal with Hc : ∀ k, _ → cs !! k = _ |- _ => apply Hc end.
      intros ev' ?. by keys.
  - split; intros; simpl; try done. apply lookup_insert_ne. unfold reply_key_of.
    intros ?. by keys.
  - split; intros; try congruence.
    + match goal with Hq : sessions s' = _ |- _ => rewrite Hq end.
      apply lookup_delete_ne. intros ?. by keys.
    + match goal with Hq : histories s' = _ |- _ => rewrite Hq end.
      apply lookup_delete_ne. intros ?. by keys.
    + apply option_eq. intros e. match goal with Hq : ∀ k e, events s' !! k = _ ↔ _ |- _ =>
        rewrite Hq end. split; [by intros [? _]|]. intros He. split; [done|].
      apply not_true_is_false. intros [? _]%of_session_spec.
      destruct (wf_events _ Hwf _ _ He) as (? & _). by keys.
    + apply option_eq. intros r. match goal with Hq : ∀ k r, replies s' !! k = _ ↔ _ |- _ =>
        rewrite Hq end. split; [by intros [? _]|]. intros Hr. split; [done|].
      intros k0 e0 _ _ [? _]. destruct (wf_replies _ Hwf _ _ Hr) as (Hk & _).
      unfold reply_key_of in Hk. by keys.
    + match goal with Hq : summaries s' = _ |- _ => rewrite Hq end.
      apply option_eq. intros v. rewrite map_lookup_filter_Some.
      split; [by intros [? _]|]. intros Hv. split; [done|]. simpl. intros [? _].
      destruct (wf_summaries _ Hwf _ _ Hv) as (? & _). by keys.
Qed.

(** C4: tenant isolation.  Whatever other tenants do, in any number and order of
    operations, every read of a tenant returns what it returned before: its
    sessions, events, histories, replies, correlations and summaries. *)
Theorem tenant_isolation os s tn :
  wf s → room (length os) s → Forall (λ o, op_tenant o ≠ tn) os →
  let s' := run os s in
  (∀ ctx sid, (GetSession ctx tn sid s').2 = (GetSession ctx tn sid s).2)
  ∧ (∀ ctx ev, (GetMessage ctx tn ev s').2 = (GetMessage ctx tn ev s).2)
  ∧ (∀ ctx sid, (ListEventPayloads ctx tn sid s').2 = (ListEventPayloads ctx tn sid s).2)
  ∧ (∀ ctx rid i, (GetReply ctx tn rid i s').2 = (GetReply ctx tn rid i s).2)
  ∧ (∀ ctx ev, (GetReplyCorrelation ctx tn ev s').2 = (GetReplyCorrelation ctx tn ev s).2)
  ∧ (∀ ctx sid f, (GetSummary ctx tn sid f s').2 = (GetSummary ctx tn sid f s).2).
Proof.
  intros Hwf Hroom Hother. assert (same_view tn s (run os s)) as [Hs Hh He Hr Hc Hu].
  { apply (run_steps (same_view tn) (λ o, negb (op_tenant o =? tn)%string)); [|done..|].
    - intros o s' ? Ho%negb_true_iff%String.eqb_neq Hst. by eapply same_view_step.
    - apply forallb_forall. intros o Ho%list_elem_of_In. rewrite Forall_forall in Hother.
      by rewrite (proj2 (String.eqb_neq _ _) (Hother _ Ho)). }
  unfold GetSession, GetMessage, ListEventPayloads, GetReply, GetReplyCorrelation, GetSummary,
    history. go_unfold. unfold lift. split_and!; intros; destruct (check ctx); try done.
  all: rewrite ?Hs, ?Hh, ?He, ?Hr, ?Hc, ?Hu; repeat (case_match; simplify_eq/=; try done).
Qed.

(** * Recording inbound messages *)

(** C5: an inbound message is recorded exactly once.  After a message of
    (tenant, binding, external id) was accepted, a redelivery is reported as a
    duplicate of the same event and changes nothing, whatever happened in between
    short of deleting a session, and even if the redelivery names another session or
    event identifier.  A newly recorded event is numbered after every earlier event
    of its session. *)
Theorem record_exactly_once ctx clk i s s1 e dup os ctx' clk' i' :
  wf s → room (S (length os)) s →
  RecordMessage ctx clk i s = (s1, Ok (e, dup)) →
  forallb (λ o, negb (deletes o)) os = true →
  i_TenantID i' = i_TenantID i → i_BindingID i' = i_BindingID i →
  i_ExternalMessageID i' = i_ExternalMessageID i →
  check ctx' = Ok () → record_input_ok i' = true →
  (∃ e', RecordMessage ctx' clk' i' (run os s1) = (run os s1, Ok (e', true))
     ∧ same_event e e')
  ∧ (dup = false → ∀ k e0, events s !! k = Some e0 → e_TenantID e0 = e_TenantID e →
       e_SessionID e0 = e_SessionID e → e_EventSeq e0 < e_EventSeq e).
Proof.
  intros Hwf Hroom Hrec Hdel Ht Hb Hx Hctx Hin.
  pose proof (RecordMessage_step true ctx clk i s Hwf
    (room_le (S (length os)) 1 s ltac:(lia) Hroom)) as Hst. rewrite Hrec in Hst. simpl in Hst.
  pose proof (wf_step _ _ _ _ Hwf Hst) as Hwf1. pose proof (room_step _ _ _ _ _ Hroom Hst) as Hr1.
  assert (∃ k, messages s1 !! key [i_TenantID i; i_BindingID i; i_ExternalMessageID i] = Some k
    ∧ events s1 !! k = Some e) as (k & Hm & He).
  { clear Hst. unfold RecordMessage in Hrec. go_step.
    - eauto.
    - match goal with Hu : messages _ !! _ = Some _ |- _ =>
        destruct (wf_messages _ Hwf _ _ Hu) as (e0 & ? & _) end. congruence.
    - eexists. by rewrite !lookup_insert_eq. }
  destruct (run_event os s1 k e Hwf1 Hr1 Hdel He) as (e' & He' & Hsame & _).
  split.
  - exists e'. split; [|done]. unfold RecordMessage. go_unfold. rewrite Hctx, Hin, Ht, Hb, Hx.
    destruct (run_keeps_wf os 0 s1 Hwf1 ltac:(by rewrite Nat.add_0_r)) as [Hwf2 _].
    destruct (wf_messages _ Hwf1 _ _ Hm) as (e1 & He1 & Hk). simplify_eq.
    destruct (wf_events _ Hwf2 _ _ He') as (_ & _ & Hm' & _).
    destruct Hsame as (-> & _ & _ & -> & -> & _) in Hm'. simpl. rewrite Hk, Hm', He'. done.
  - intros -> k0 e0 Hk0 Ht0 Hs0. destruct (wf_events _ Hwf _ _ Hk0) as (_ & (v & Hv & Hle) & _).
    rewrite Ht0, Hs0 in Hv. unfold RecordMessage in Hrec. destruct Hroom as (_ & Hs & _).
    specialize (Hs _ _ Hv). simpl in Hs. go_step. rewrite incr64_small; [lia|].
    unfold int64_min, int64_max in *. lia.
Qed.

(** * Fencing of executions *)

Lemma TransitionMessage_ok ctx clk t s s1 e1 :
  TransitionMessage ctx clk t s = (s1, Ok e1) →
  ∃ e, events s !! key [mt_TenantID t; mt_EventID t] = Some e ∧ e_Status e = mt_From t
    ∧ ValidateMessageTransition (mt_From t) (mt_To t) = true
    ∧ validateMessageLease (clk 0%nat) e t = Ok ()
    ∧ e1 = applyMessageTransition (clk 1%nat) (clk 2%nat) t e
    ∧ s1 = set_events (<[key [mt_TenantID t; mt_EventID t] := e1]> (events s)) s.
Proof.
  unfold TransitionMessage. intros. go_step. bool_prop.
  match goal with Hv : validateMessageTransition _ = _ |- _ =>
    apply validateMessageTransition_ok in Hv as (_ & _ & _ & ?) end. eauto 10.
Qed.

Lemma TransitionMessage_cases ctx clk t s :
  (∃ err, TransitionMessage ctx clk t s = (s, Err err)) ∨
  (∃ s1 e1, TransitionMessage ctx clk t s = (s1, Ok e1)).
Proof.
  unfold TransitionMessage. go_unfold.
  repeat (case_match; simplify_eq/=; try (left; by eauto)). eauto.
Qed.

(** Leaving [running] for an outcome needs the current token. *)
Lemma settle_needs_token now e t :
  mt_From t = EventRunning → mt_To t ≠ EventExecutionReconciling → mt_To t ≠ EventRunning →
  validateMessageLease now e t = Ok () →
  e_FencingToken e = mt_FencingToken t ∧ e_LeaseOwner e = mt_Owner t
  ∧ lease_over (e_LeaseExpiresAt e) now = false.
Proof.
  unfold validateMessageLease. intros -> Hr%String.eqb_neq Hn%String.eqb_neq.
  rewrite Hr, Hn. simpl. intros. go_step. by bool_prop.
Qed.

(** A token older than the event's settles nothing, now or later. *)
Lemma stale_settlement_fails s e os ctx clk t :
  wf s → room (length os) s → forallb (λ o, negb (deletes o)) os = true →
  events s !! key [mt_TenantID t; mt_EventID t] = Some e →
  mt_From t = EventRunning → mt_To t ≠ EventExecutionReconciling →
  mt_FencingToken t < e_FencingToken e →
  ∃ err, TransitionMessage ctx clk t (run os s) = (run os s, Err err).
Proof.
  intros Hwf Hroom Hdel He Hfrom Hto Hlt.
  destruct (run_event os s _ e Hwf Hroom Hdel He) as (e2 & He2 & _ & Hf & _).
  destruct (TransitionMessage_cases ctx clk t (run os s)) as [?|(s2 & e3 & Hok)]; [done|].
  apply TransitionMessage_ok in Hok as (e4 & He4 & _ & Hlegal & Hlease & _).
  simplify_eq. rewrite Hfrom in Hlegal.
  destruct (settle_needs_token (clk 0%nat) e2 t) as (? & _); try done; [|lia].
  intros Hrun. by rewrite Hrun in Hlegal.
Qed.

(** C6: an execution is settled once, and a worker that lost its lease settles
    nothing.  After any transition of an event, every attempt to move it out of
    [running] with a token from before that transition fails and changes nothing,
    whatever other operations short of a deletion come in between.  In particular
    the same lease cannot both complete and fail an event, and once an expired
    lease was taken over for reconciling, its holder can do neither. *)
Theorem execution_fenced ctx clk t s s1 e1 os ctx' clk' t' :
  wf s → room (S (length os)) s →
  TransitionMessage ctx clk t s = (s1, Ok e1) →
  forallb (λ o, negb (deletes o)) os = true →
  mt_TenantID t' = mt_TenantID t → mt_EventID t' = mt_EventID t →
  mt_From t' = EventRunning → mt_To t' ≠ EventExecutionReconciling →
  mt_FencingToken t' < e_FencingToken e1 →
  ∃ err, TransitionMessage ctx' clk' t' (run os s1) = (run os s1, Err err).
Proof.
  intros Hwf Hroom Htr Hdel Ht Hid Hfrom Hto Hlt.
  pose proof (TransitionMessage_step true ctx clk t s Hwf
    (room_le (S (length os)) 1 s ltac:(lia) Hroom)) as Hst. rewrite Htr in Hst. simpl in Hst.
  apply TransitionMessage_ok in Htr as (e & _ & _ & _ & _ & _ & Hs1).
  assert (events s1 !! key [mt_TenantID t; mt_EventID t] = Some e1) as He1
    by (rewrite Hs1; apply lookup_insert_eq).
  apply (stale_settlement_fails s1 e1); try done; [by eapply wf_step|by eapply room_step|].
  by rewrite Ht, Hid.
Qed.

(** * Histories *)

Lemma find_entry_app ev es es' e :
  find_entry ev es = Some e → find_entry ev (es ++ es') = Some e.
Proof. induction es as [|x es IH]; simpl; [done|]. case_match; auto. Qed.

Lemma find_entry_snoc es e :
  find_entry (p_EventID e) es = None → find_entry (p_EventID e) (es ++ [e]) = Some e.
Proof.
  induction es as [|x es IH]; simpl; [by rewrite String.eqb_refl|]. by case_match; auto.
Qed.

Definition histories_grow (s s' : Store) : Prop :=
  (∀ k, is_Some (sessions s !! k) → is_Some (sessions s' !! k)) ∧
  ∀ k, ∃ new, history s' k = history s k ++ new.

#[local] Instance histories_grow_preorder : PreOrder histories_grow.
Proof.
  split; [by split; [|exists []; rewrite app_nil_r]|].
  intros s1 s2 s3 [Hs Hh] [Hs' Hh']. split; [eauto|]. intros k.
  destruct (Hh k) as [n1 H1]. destruct (Hh' k) as [n2 H2]. exists (n1 ++ n2).
  by rewrite H2, H1, app_assoc.
Qed.

Lemma histories_grow_step tn s s' : step tn false s s' → histories_grow s s'.
Proof.
  intros Hst. destruct Hst; try done;
    (split; [intros k Hk|intros k]; simpl; [try done|try (by exists []; rewrite app_nil_r)]).
  1, 2: by apply lookup_insert_is_Some'; right.
  unfold history. simpl. destruct (decide (key [tn; p_SessionID p] = k)) as [<-|].
  - exists [p]. by rewrite lookup_insert_eq.
  - exists []. by rewrite lookup_insert_ne, app_nil_r.
Qed.

Lemma run_histories os s :
  wf s → room (length os) s → forallb (λ o, negb (deletes o)) os = true →
  histories_grow s (run os s).
Proof.
  intros Hwf Hroom Hdel.
  apply (run_steps histories_grow (λ o, negb (deletes o))); [|done..].
  intros o s' _ Ho%negb_true_iff Hst. rewrite Ho in Hst. by eapply histories_grow_step.
Qed.

Lemma AppendEventPayload_ok ctx clk p s s1 p1 :
  AppendEventPayload ctx clk p s = (s1, Ok p1) →
  find_entry (p_EventID p) (history s1 (key [p_TenantID p; p_SessionID p])) = Some p1
  ∧ is_Some (sessions s1 !! key [p_TenantID p; p_SessionID p]).
Proof.
  unfold AppendEventPayload. intros. go_step; eauto. split; [|by eauto].
  unfold history at 1. simpl. rewrite lookup_insert_eq. simpl.
  by apply (find_entry_snoc _ (mkEventPayload _ _ (p_EventID p) _ _ _)).
Qed.

(** Appending to a session history is idempotent and keeps its order.  After an
    event's payload was accepted, and whatever operations short of a deletion follow,
    appending the event again returns the stored entry, with its sequence number,
    when the payload is the same JSON document, is a conflict otherwise, and changes
    nothing; and the history read at that point starts with the history read right
    after the first append. *)
Theorem append_idempotent ctx clk p s s1 p1 os ctx' clk' p' :
  wf s → room (S (length os)) s →
  AppendEventPayload ctx clk p s = (s1, Ok p1) →
  forallb (λ o, negb (deletes o)) os = true →
  p_TenantID p' = p_TenantID p → p_SessionID p' = p_SessionID p → p_EventID p' = p_EventID p →
  check ctx' = Ok () → validatePayload p' = Ok () →
  AppendEventPayload ctx' clk' p' (run os s1)
    = (run os s1, if jsonEqual (p_Payload p1) (p_Payload p') then Ok p1 else Err ErrConflict)
  ∧ ∃ old new, ListEventPayloads background (p_TenantID p) (p_SessionID p) s1 = (s1, Ok old)
      ∧ ListEventPayloads background (p_TenantID p) (p_SessionID p) (run os s1)
          = (run os s1, Ok (old ++ new)).
Proof.
  intros Hwf Hroom Happ Hdel Ht Hs He Hctx Hval.
  pose proof (AppendEventPayload_step true ctx clk p s Hwf
    (room_le (S (length os)) 1 s ltac:(lia) Hroom)) as Hst. rewrite Happ in Hst. simpl in Hst.
  apply AppendEventPayload_ok in Happ as [Hfind Hsess].
  destruct (run_histories os s1 (wf_step _ _ _ _ Hwf Hst) (room_step _ _ _ _ _ Hroom Hst) Hdel)
    as [Hgrow Hext]. set (k := key [p_TenantID p; p_SessionID p]) in *.
  destruct (Hext k) as [new Hnew]. destruct (Hgrow k Hsess) as [v2 Hv2].
  destruct Hsess as [v1 Hv1]. split.
  - unfold AppendEventPayload. go_unfold. rewrite Hctx, Hval, Ht, Hs, He. fold k.
    rewrite Hv2, Hnew, (find_entry_app _ _ _ _ Hfind). by destruct (jsonEqual _ _).
  - unfold ListEventPayloads. go_unfold. fold k.
    assert (ValidateSession (p_TenantID p) (p_SessionID p) = Ok ()) as ->.
    { unfold validatePayload in Hval. go_step. bool_prop. rewrite <- Ht, <- Hs.
      by destruct (ValidateSession _ _) as [[]|]. }
    simpl. rewrite Hv1, Hv2, Hnew. eauto.
Qed.

(** * Reply batches *)

Lemma same_segment_pending now v : same_segment (with_pending now v) v = true.
Proof.
  unfold same_segment. simpl. by rewrite !String.eqb_refl, Z.eqb_refl, bool_decide_true.
Qed.

Lemma store_segments_again now vs rs out :
  Forall2 (λ v r, rs !! reply_key_of v = Some r) vs out → store_segments now vs rs = (rs, out).
Proof. induction 1 as [|v r vs out Hr _ IH]; simpl; [done|]. by rewrite Hr, IH. Qed.

Lemma validateExistingReplies_after now vs rs rs' out :
  store_segments now vs rs = (rs', out) → validateExistingReplies rs vs = Ok () →
  Forall (λ v, ∃ r, rs' !! reply_key_of v = Some r) vs →
  (∀ k v1 v2, v1 ∈ vs → v2 ∈ vs → reply_key_of v1 = k → reply_key_of v2 = k → v1 = v2) →
  validateExistingReplies rs' vs = Ok ().
Proof.
  intros Hst Hv Hin Huniq. destruct (store_segments_spec _ _ _ _ _ Hst) as (Hsub & Hnew & _).
  unfold validateExistingReplies in *. destruct (forallb _ _) eqn:Ha in Hv; [|done].
  rewrite forallb_forall in Ha. rewrite Forall_forall in Hin.
  assert (forallb (λ v, match rs' !! reply_key_of v with
    | Some existing => same_segment existing v | None => true end) vs = true) as ->; [|done].
  apply forallb_forall. intros v Hv'. destruct (Hin v) as [r Hr]; [by apply list_elem_of_In|].
  rewrite Hr. destruct (Hnew _ _ Hr) as [Hold|(_ & w & Hw & Hk & ->)].
  - specialize (Ha _ Hv'). by rewrite Hold in Ha.
  - assert (v = w) as -> by (eapply Huniq; eauto; by apply list_elem_of_In).
    apply same_segment_pending.
Qed.

Lemma batch_keys_unique vs first :
  validateReplyBatch vs = Ok first →
  ∀ k v1 v2, v1 ∈ vs → v2 ∈ vs → reply_key_of v1 = k → reply_key_of v2 = k → v1 = v2.
Proof.
  intros (_ & _ & Hnd & _)%validateReplyBatch_ok k v1 v2 H1 H2 <- Hk.
  unfold reply_key_of in Hk. apply replyKey_inj in Hk as (_ & _ & Hi).
  apply list_elem_of_lookup in H1 as [i1 H1]. apply list_elem_of_lookup in H2 as [i2 H2].
  assert (i1 = i2) as ->.
  { eapply NoDup_lookup; [exact Hnd|..]; rewrite list_lookup_fmap.
    - by rewrite H1.
    - rewrite H2. simpl. by rewrite Hi. }
  congruence.
Qed.

(** Every segment of the reply is stored with the content the batch gave it. *)
Definition batch_stored (vs : list ReplyOutbox) (first : ReplyOutbox) (s : Store) : Prop :=
  ∀ i, 0 ≤ i < r_SegmentCount first → ∃ v r, v ∈ vs ∧ r_SegmentIndex v = i
    ∧ replies s !! replyKey (r_TenantID first) (r_ReplyID first) i = Some r
    ∧ same_segment r v = true.

Lemma enqueueReplies_atomic ctx clk c vs s s' out :
  enqueueReplies ctx clk c vs s = (s', out) →
  match out with
  | Err _ => s' = s
  | Ok res =>
      ∃ first, head vs = Some first ∧ r_SegmentCount first = Z.of_nat (length vs)
      ∧ batch_stored vs first s'
      ∧ replies s ⊆ replies s'
      ∧ (∀ k r, replies s' !! k = Some r → replies s !! k = Some r
           ∨ (r_ReplyID r = r_ReplyID first ∧ r_TenantID r = r_TenantID first
              ∧ r_Status r = ReplyPending))
      ∧ ∀ ctx' clk', check ctx' = Ok () → enqueueReplies ctx' clk' c vs s' = (s', Ok res)
  end.
Proof.
  intros Henq. apply enqueueReplies_inv in Henq as [(e & -> & ->)|
    (first & e & rs & res & -> & Hb & He & Ht & Hex & Hst & Hs')]; [done|].
  pose proof (batch_keys_unique _ _ Hb) as Huniq.
  pose proof (validateReplyBatch_ok _ _ Hb) as ((vs' & Hvs) & Hall & Hnd & Hlen & Hidx).
  destruct (store_segments_spec _ _ _ _ _ Hst) as (Hsub & Hnew & Hres).
  rewrite Forall_forall in Hall.
  assert (replies s' = rs ∧ events s' = events s) as [Hrs Hev].
  { by destruct Hs' as [[_ ->]|(_ & _ & _ & _ & ->)]. }
  assert (Forall2 (λ v r, rs !! reply_key_of v = Some r) vs res) as Hin.
  { eapply Forall2_impl; [exact Hres|]. by intros ?? [? _]. }
  assert (validateExistingReplies rs vs = Ok ()) as Hex'.
  { eapply validateExistingReplies_after; eauto. apply Forall_forall. intros v Hv.
    apply list_elem_of_lookup in Hv as [j Hj].
    destruct (Forall2_lookup_l _ _ _ _ _ Hin Hj) as (r & _ & ?). eauto. }
  exists first. split; [by rewrite Hvs|]. split; [done|]. unfold batch_stored. rewrite Hrs.
  split; [|split; [done|split]].
  - intros i Hi. apply Hidx, list_elem_of_fmap in Hi as (v & -> & Hv).
    destruct (batch_member_ok_spec _ _ (Hall _ Hv)) as (_ & <- & <- & _).
    pose proof Hv as [j Hj]%list_elem_of_lookup.
    destruct (Forall2_lookup_l _ _ _ _ _ Hin Hj) as (r & _ & Hr). exists v, r.
    split_and!; [done..|]. unfold validateExistingReplies in Hex'.
    destruct (forallb _ _) eqn:Ha in Hex'; [|done]. rewrite forallb_forall in Ha.
    specialize (Ha v ltac:(by apply list_elem_of_In)). by rewrite Hr in Ha.
  - intros k r Hk. destruct (Hnew _ _ Hk) as [?|(_ & v & Hv & _ & ->)]; [by left|right].
    by destruct (batch_member_ok_spec _ _ (Hall _ Hv)) as (_ & ? & ? & _).
  - intros ctx' clk' Hctx. unfold enqueueReplies. go_unfold. rewrite Hctx, Hb, Hev, He.
    rewrite bool_decide_true by done. rewrite Hrs, Hex', (store_segments_again _ _ _ _ Hin).
    unfold str_empty. destruct Hs' as [[Hc ->]|(Hc & Htn & Hev' & _ & ->)].
    + by rewrite Hc.
    + rewrite (proj2 (String.eqb_neq _ _) Hc), Htn, Hev', !String.eqb_refl. simpl.
      rewrite lookup_insert_eq, bool_decide_true by done. unfold set_replies, set_correlations.
      simpl. by rewrite insert_insert_eq.
Qed.

(** A reply is materialized as a whole.  A batch is refused without changing
    anything; or every segment index 0 .. n-1 of the reply is stored afterwards with
    the payload, event, count and target that the batch gave it, nothing stored
    before is lost or altered, nothing else is added, and repeating the batch returns
    the same rows and changes nothing. *)
Theorem reply_batch_atomic ctx clk c vs s s' out :
  enqueueReplies ctx clk c vs s = (s', out) →
  match out with
  | Err _ => s' = s
  | Ok res =>
      ∃ first, head vs = Some first ∧ r_SegmentCount first = Z.of_nat (length vs)
      ∧ batch_stored vs first s'
      ∧ replies s ⊆ replies s'
      ∧ (∀ k r, replies s' !! k = Some r → replies s !! k = Some r
           ∨ (r_ReplyID r = r_ReplyID first ∧ r_TenantID r = r_TenantID first
              ∧ r_Status r = ReplyPending))
      ∧ ∀ ctx' clk', check ctx' = Ok () → enqueueReplies ctx' clk' c vs s' = (s', Ok res)
  end.
Proof. apply enqueueReplies_atomic. Qed.

(** * Delivery of replies *)

Lemma ClaimReply_ok ctx clk tn rid seg owner d s s1 r1 :
  ClaimReply ctx clk tn rid seg owner d s = (s1, Ok r1) →
  ∃ r, replies s !! replyKey tn rid seg = Some r ∧ terminal_reply r = false
    ∧ r1 = claim_reply (clk 1%nat) (clk 2%nat) owner d r
    ∧ s1 = set_replies (<[replyKey tn rid seg := r1]> (replies s)) s.
Proof.
  unfold ClaimReply. intros. go_step. eexists. split; [done|]. split; [|done].
  unfold terminal_reply. apply not_true_is_false. intros [Hs|Hs]%orb_true_iff; bool_prop;
    rewrite Hs in *; done.
Qed.

Lemma TransitionReply_cases ctx clk t s :
  (∃ err, TransitionReply ctx clk t s = (s, Err err)) ∨
  (∃ s1 r r1, TransitionReply ctx clk t s = (s1, Ok r1)
     ∧ replies s !! replyKey (t_TenantID t) (t_ReplyID t) (t_SegmentIndex t) = Some r
     ∧ r_Status r = t_From t
     ∧ (t_FencingToken t = 0 ∨ r_FencingToken r = t_FencingToken t)
     ∧ (r_LeaseOwner r = "" ∨ r_LeaseOwner r = t_Owner t)
     ∧ (r_Status r = ReplySending → lease_over (r_LeaseExpiresAt r) (clk 0%nat) = false)
     ∧ ValidateTransition (t_From t) (t_To t) = true
     ∧ r1 = apply_reply (clk 1%nat) (clk 2%nat) t r
     ∧ s1 = set_replies (<[replyKey (t_TenantID t) (t_ReplyID t) (t_SegmentIndex t) := r1]>
              (replies s)) s).
Proof.
  unfold TransitionReply. go_unfold.
  repeat (case_match; simplify_eq/=; try (left; by eauto)). right. do 3 eexists.
  split; [done|]. split; [done|]. bool_prop.
  match goal with
  | Hg : (negb (_ =? 0) && _)%bool = false, Ho : (negb (str_empty _) && _)%bool = false,
    Hl : (_ && lease_over _ _)%bool = false |- _ =>
      apply andb_false_iff in Hg; apply andb_false_iff in Ho; apply andb_false_iff in Hl end.
  unfold str_empty in *. split_and!; try done.
  - naive_solver (bool_prop; eauto).
  - naive_solver (bool_prop; eauto).
  - intros Hsend. rewrite Hsend, String.eqb_refl in *. naive_solver.
Qed.

(** Delivery is fenced.  After a worker claimed a reply segment, a transition
    that carries a (non-zero) token from before the claim fails and changes nothing,
    whatever operations short of a deletion come in between: a worker whose lease
    was taken over cannot record an outcome. *)
Theorem delivery_fenced ctx clk tn rid seg owner d s s1 r1 os ctx' clk' t :
  wf s → room (S (length os)) s →
  ClaimReply ctx clk tn rid seg owner d s = (s1, Ok r1) →
  forallb (λ o, negb (deletes o)) os = true →
  t_TenantID t = tn → t_ReplyID t = rid → t_SegmentIndex t = seg →
  0 < t_FencingToken t < r_FencingToken r1 →
  r_FencingToken r1 + Z.of_nat (length os) ≤ int64_max →
  ∃ err, TransitionReply ctx' clk' t (run os s1) = (run os s1, Err err).
Proof.
  intros Hwf Hroom Hcl Hdel Ht Hid Hseg Hlt Hmax.
  pose proof (ClaimReply_step true ctx clk tn rid seg owner d s Hwf) as Hst.
  rewrite Hcl in Hst. simpl in Hst.
  apply ClaimReply_ok in Hcl as (r & _ & _ & _ & Hs1).
  assert (replies s1 !! replyKey tn rid seg = Some r1) as Hr1
    by (rewrite Hs1; apply lookup_insert_eq).
  destruct (run_reply os s1 _ r1 (wf_step _ _ _ _ Hwf Hst) (room_step _ _ _ _ _ Hroom Hst)
    Hdel Hr1) as (r2 & Hr2 & _ & Hf & _); [lia..|].
  destruct (TransitionReply_cases ctx' clk' t (run os s1))
    as [?|(s2 & r3 & r4 & _ & Hr3 & _ & Htok & _)]; [done|].
  rewrite Ht, Hid, Hseg in Hr3. simplify_eq. lia.
Qed.

(** A sent or dead-lettered reply is final.  No operation short of a deletion
    changes its record, and it cannot be claimed again, so a delivered segment is
    never sent a second time through the store. *)
Theorem delivered_reply_final s tn rid seg r os ctx clk owner d :
  wf s → room (length os) s →
  replies s !! replyKey tn rid seg = Some r → terminal_reply r = true →
  0 ≤ r_FencingToken r → r_FencingToken r + Z.of_nat (length os) ≤ int64_max →
  forallb (λ o, negb (deletes o)) os = true →
  replies (run os s) !! replyKey tn rid seg = Some r
  ∧ ∃ err, (ClaimReply ctx clk tn rid seg owner d (run os s)).2 = Err err.
Proof.
  intros Hwf Hroom Hr Hterm Hpos Hmax Hdel.
  destruct (run_reply os s _ r Hwf Hroom Hdel Hr Hpos Hmax) as (r' & Hr' & _ & _ & Hfin).
  rewrite (Hfin Hterm) in Hr'. split; [done|].
  destruct (ClaimReply ctx clk tn rid seg owner d (run os s)) as [s2 [r2|err]] eqn:E; [|eauto].
  apply ClaimReply_ok in E as (r3 & Hr3 & Hnt & _). simplify_eq. congruence.
Qed.

(** * Deletion of a session *)

Lemma DeleteSession_cases ctx tn sid s :
  (∃ err, DeleteSession ctx tn sid s = (s, Err err)) ∨
  (∃ s', DeleteSession ctx tn sid s = (s', Ok ())
     ∧ sessions s' = delete (key [tn; sid]) (sessions s)
     ∧ histories s' = delete (key [tn; sid]) (histories s)
     ∧ summaries s' = filter (λ kv, ¬ (su_TenantID kv.2 = tn ∧ su_SessionID kv.2 = sid))
                        (summaries s)
     ∧ correlations s' = correlations s
     ∧ (∀ k e, events s' !! k = Some e ↔ events s !! k = Some e ∧ of_session tn sid e = false)
     ∧ (∀ k r, replies s' !! k = Some r ↔ replies s !! k = Some r ∧
          ∀ k0 e0, events s !! k0 = Some e0 → of_session tn sid e0 = true →
            ¬ (r_TenantID r = tn ∧ r_EventID r = e_EventID e0))).
Proof.
  pose proof (DeleteSession_step ctx tn sid s) as Hst. unfold DeleteSession in *. go_unfold.
  destruct (check ctx) as [[]|]; [|by eauto].
  destruct (ValidateSession tn sid) as [[]|]; [|by eauto].
  destruct (sessions s !! key [tn; sid]) eqn:Hs; [|by eauto]. right. clear Hst.
  match goal with |- ∃ s', (foldl _ ?s1 _, _) = _ ∧ _ =>
    destruct (drop_events_spec tn (session_events tn sid s) s1)
      as (Hs1 & Hh & Hu & Hc & He & _ & Hr) end. simpl in *.
  eexists. split; [done|]. split_and!; try done.
  - intros k e. rewrite He. split; intros [Hk Hn]; (split; [done|]).
    + apply not_true_is_false. intros Ho. apply Hn, list_elem_of_fmap.
      exists (k, e). by rewrite elem_of_session_events.
    + intros ((k' & e') & -> & [Hk' Ho]%elem_of_session_events)%list_elem_of_fmap.
      simpl in *. simplify_eq. congruence.
  - intros k r. rewrite Hr. split; intros [Hk Hn]; (split; [done|]).
    + intros k0 e0 He0 Ho. apply (Hn (k0, e0)). by apply elem_of_session_events.
    + intros [k0 e0] [He0 Ho]%elem_of_session_events. by eapply Hn.
Qed.

(** Deleting a session removes all of it and nothing else.  Afterwards the
    session, its history, its events, the replies to those events and its summaries
    are gone, the idempotency index leads to none of its events, and the events of
    other sessions, their replies, the other sessions and histories are as before. *)
Theorem delete_cascades ctx tn sid s s' :
  wf s → DeleteSession ctx tn sid s = (s', Ok ()) →
  wf s' ∧ sessions s' !! key [tn; sid] = None ∧ histories s' !! key [tn; sid] = None
  ∧ (∀ k e, events s' !! k = Some e → ¬ (e_TenantID e = tn ∧ e_SessionID e = sid))
  ∧ (∀ k r, replies s' !! k = Some r → ∃ e,
       events s' !! key [r_TenantID r; r_EventID r] = Some e
       ∧ ¬ (e_TenantID e = tn ∧ e_SessionID e = sid))
  ∧ (∀ u k, messages s' !! u = Some k → ∃ e,
       events s' !! k = Some e ∧ ¬ (e_TenantID e = tn ∧ e_SessionID e = sid))
  ∧ (∀ k v, summaries s' !! k = Some v → ¬ (su_TenantID v = tn ∧ su_SessionID v = sid))
  ∧ (∀ k, k ≠ key [tn; sid] →
       sessions s' !! k = sessions s !! k ∧ histories s' !! k = histories s !! k)
  ∧ (∀ k e, events s !! k = Some e → ¬ (e_TenantID e = tn ∧ e_SessionID e = sid) →
       events s' !! k = Some e
       ∧ ∀ k' r, replies s !! k' = Some r → k = key [r_TenantID r; r_EventID r] →
           replies s' !! k' = Some r).
Proof.
  intros Hwf Hd. pose proof (wf_step _ _ _ _ Hwf (DeleteSession_step ctx tn sid s)) as Hwf'.
  rewrite Hd in Hwf'. simpl in Hwf'.
  destruct (DeleteSession_cases ctx tn sid s) as [[err Herr]|
    (s1 & Hok & Hs & Hh & Hu & _ & He & Hr)]; [by rewrite Herr in Hd|].
  rewrite Hok in Hd. simplify_eq.
  assert (∀ k e, events s' !! k = Some e → ¬ (e_TenantID e = tn ∧ e_SessionID e = sid)) as Hgone.
  { intros k e [_ Ho]%He Hin%of_session_spec. congruence. }
  split; [done|]. rewrite Hs, Hh. split_and!; try apply lookup_delete_eq; try done.
  - intros k r Hk. destruct (wf_replies _ Hwf' _ _ Hk) as (_ & _ & e & Hek & _). eauto.
  - intros u k Hu'. destruct (wf_messages _ Hwf' _ _ Hu') as (e & ? & _). eauto.
  - rewrite Hu. intros k v [_ ?]%map_lookup_filter_Some. done.
  - intros k Hne. by rewrite !lookup_delete_ne.
  - intros k e Hk Hout. assert (of_session tn sid e = false) as Ho.
    { apply not_true_is_false. by rewrite of_session_spec. }
    split; [by apply He|]. intros k' r Hk' ->. apply Hr. split; [done|].
    intros k0 e0 He0 Ho0 [Htn Hev]. apply Hout, of_session_spec.
    destruct (wf_events _ Hwf _ _ He0) as (Hk0 & _).
    pose proof Ho0 as [Ht0 _]%of_session_spec.
    rewrite Htn, Hev, <- Ht0, <- Hk0 in Hk. congruence.
Qed.
End RunFacts.

(** * A run of the witnesses: one session, one message, one reply of two segments *)

#[local] Instance ex_codec : Codec := {|
  json_value := string;
  json_valid d := negb (str_empty d);
  json_unmarshal d := Some d;
  NormalizeTraceParent v := v
|}.

Definition ex_clk : clock := λ i, 1000 + Z.of_nat i.
Definition ex_message : MessageEventInput :=
  mkMessageEventInput "t" "e1" "s1" "b" "m1" "" zero_target.
Definition ex_segment (i : Z) (text : string) : ReplyOutbox :=
  mkReplyOutbox "t" "r1" "e1" i 2 text zero_target "" 0 0 "" None "" "" 0 0.
Definition ex_correlation (request : string) : ReplyCorrelation :=
  mkReplyCorrelation "t" "e1" request "" "".
Definition ex_payload (doc : string) : EventPayload := mkEventPayload "t" "s1" "p1" doc 0 0.
Definition ex_start : MessageTransition :=
  mkMessageTransition "t" "e1" EventReceived EventRunning "w1" 0 10 "" 0.
Definition ex_takeover : MessageTransition :=
  mkMessageTransition "t" "e1" EventRunning EventExecutionReconciling "w2" 0 0 "" 0.
Definition ex_complete : MessageTransition :=
  mkMessageTransition "t" "e1" EventRunning EventCompleted "w1" 1 0 "" 0.

Section Survives.
Context `{Codec}.
Definition ex_session_ops : list op :=
  [OpCreateSession background ex_clk "t" "s1" NilMap; OpRecordMessage background ex_clk ex_message].

(** The in-memory store keeps the reply correlation of a deleted session, which
    the database schema deletes with the event.  After the session is deleted, created
    again and the same message recorded again under the same event identifier, a reply
    batch with the new request's correlation is refused as a conflict with the
    correlation of the deleted event. *)
Theorem correlation_survives_delete :
  let s := run (ex_session_ops ++ [
    OpEnqueueCorrelated background ex_clk (ex_correlation "q1") [ex_segment 0 "a"; ex_segment 1 "b"];
    OpDeleteSession background "t" "s1"]) newStore in
  events s = ∅ ∧ replies s = ∅ ∧ is_Some (correlations s !! key ["t"%string; "e1"%string])
  ∧ (EnqueueRepliesWithCorrelation background ex_clk (ex_correlation "q2")
       [ex_segment 0 "a"; ex_segment 1 "b"] (run ex_session_ops s)).2 = Err ErrConflict.
Proof. vm_compute. split_and!; try reflexivity. eexists. reflexivity. Qed.
End Survives.

Definition ex_recorded : Store := run ex_session_ops newStore.
Definition ex_running : Store :=
  run (ex_session_ops ++ [OpTransitionMessage background ex_clk ex_start]) newStore.
Definition ex_reply_ops : list op :=
  ex_session_ops ++
  [OpEnqueueReplies background ex_clk [ex_segment 0 "a"; ex_segment 1 "b"]].
Definition ex_replies : Store := run ex_reply_ops newStore.
Definition ex_claim_ops : list op :=
  ex_reply_ops ++ [OpClaimReply background ex_clk "t" "r1" 0 "w1" 10].
Definition ex_claimed : Store := run ex_claim_ops newStore.
Definition ex_sent : Store := run (ex_claim_ops ++ [OpTransitionReply background (λ _, 1005)
  (mkReplyTransition "t" "r1" 0 ReplySending ReplySent "w1" 1 0 "" "p")]) newStore.
Definition ex_sent_reply : ReplyOutbox :=
  mkReplyOutbox "t" "r1" "e1" 0 2 "a" zero_target ReplySent 1 2 "w1" (Some 1011) "p" "" 1000 1005.

(** Evaluate the hypotheses that are equations. *)
Ltac ex_eval := lazymatch goal with |- @eq _ _ _ => vm_compute; reflexivity end.

(** Every store that a short run reaches is well formed and has room. *)
Lemma ex_store_ok os : (length os < 100)%nat → wf (run os newStore) ∧ room 100 (run os newStore).
Proof.
  intros. apply run_keeps_wf; [apply newStore_wf|]. apply newStore_room.
  unfold int64_max. lia.
Qed.


Lemma ex_recorded_ok : wf ex_recorded ∧ room 100 ex_recorded.
Proof. apply ex_store_ok. simpl. lia. Qed.
Lemma ex_running_ok : wf ex_running ∧ room 100 ex_running.
Proof. apply ex_store_ok. simpl. lia. Qed.
Lemma ex_claimed_ok : wf ex_claimed ∧ room 100 ex_claimed.
Proof. apply ex_store_ok. simpl. lia. Qed.
Lemma ex_sent_ok : wf ex_sent ∧ room 100 ex_sent.
Proof. apply ex_store_ok. simpl. lia. Qed.

Lemma store_integrity_witness : wf ex_claimed.
Proof.
  apply (store_integrity ex_claim_ops).
  vm_compute. discriminate.
Defined.

Lemma tenant_isolation_witness :
  (GetSession background "t" "s1"
     (run [OpCreateSession background ex_clk "u" "s1" NilMap; OpDeleteSession background "u" "s1"]
        ex_recorded)).2 = (GetSession background "t" "s1" ex_recorded).2.
Proof.
  apply (tenant_isolation
    [OpCreateSession background ex_clk "u" "s1" NilMap; OpDeleteSession background "u" "s1"]
    ex_recorded "t").
  - apply ex_recorded_ok.
  - eapply room_le; [|apply ex_recorded_ok]. simpl. lia.
  - repeat constructor; simpl; discriminate.
Defined.

Lemma record_exactly_once_witness :
  ∃ e', RecordMessage background ex_clk (mkMessageEventInput "t" "e2" "s1" "b" "m1" "" zero_target)
          (run [OpTransitionMessage background ex_clk ex_start] ex_recorded)
        = (run [OpTransitionMessage background ex_clk ex_start] ex_recorded, Ok (e', true))
     ∧ same_event (mkMessageEvent "t" "e1" "s1" "b" "m1" "" 2 EventReceived 0 "" None "" 0
                     zero_target 1001 1002) e'.
Proof.
  refine (proj1 (record_exactly_once background ex_clk ex_message
    (run [OpCreateSession background ex_clk "t" "s1" NilMap] newStore) ex_recorded
    (mkMessageEvent "t" "e1" "s1" "b" "m1" "" 2 EventReceived 0 "" None "" 0 zero_target 1001 1002)
    false [OpTransitionMessage background ex_clk ex_start] background ex_clk
    (mkMessageEventInput "t" "e2" "s1" "b" "m1" "" zero_target) _ _ _ _ _ _ _ _ _));
    try ex_eval.
  - apply (ex_store_ok [_]). simpl. lia.
  - eapply room_le; [|apply (ex_store_ok [_]); simpl; lia]. simpl. lia.
Defined.

Lemma execution_fenced_witness :
  ∃ err, TransitionMessage background (λ _, 5000) ex_complete
           (run [] (TransitionMessage background (λ _, 5000) ex_takeover ex_running).1)
         = (run [] (TransitionMessage background (λ _, 5000) ex_takeover ex_running).1, Err err).
Proof.
  eapply (execution_fenced background (λ _, 5000) ex_takeover ex_running
    (TransitionMessage background (λ _, 5000) ex_takeover ex_running).1
    (mkMessageEvent "t" "e1" "s1" "b" "m1" "" 2 EventExecutionReconciling 2 "" None "" 0
       zero_target 1001 5000) []); try ex_eval.
  - apply ex_running_ok.
  - eapply room_le; [|apply ex_running_ok]. simpl. lia.
  - discriminate.
  - simpl. lia.
Defined.

Lemma append_idempotent_witness :
  AppendEventPayload background ex_clk (ex_payload "{}")
    (run [OpTransitionMessage background ex_clk ex_start]
       (AppendEventPayload background ex_clk (ex_payload "[]") ex_recorded).1)
  = (run [OpTransitionMessage background ex_clk ex_start]
       (AppendEventPayload background ex_clk (ex_payload "[]") ex_recorded).1,
     if jsonEqual "[]" "{}" then Ok (mkEventPayload "t" "s1" "p1" "[]" 1 1000)
     else Err ErrConflict).
Proof.
  refine (proj1 (append_idempotent background ex_clk (ex_payload "[]") ex_recorded
    (AppendEventPayload background ex_clk (ex_payload "[]") ex_recorded).1
    (mkEventPayload "t" "s1" "p1" "[]" 1 1000)
    [OpTransitionMessage background ex_clk ex_start] background ex_clk (ex_payload "{}")
    _ _ _ _ _ _ _ _ _)); try ex_eval.
  - apply ex_recorded_ok.
  - eapply room_le; [|apply ex_recorded_ok]. simpl. lia.
Defined.

Lemma reply_batch_atomic_witness :
  ∃ first, head [ex_segment 0 "a"; ex_segment 1 "b"] = Some first
    ∧ r_SegmentCount first = Z.of_nat (length [ex_segment 0 "a"; ex_segment 1 "b"]).
Proof.
  destruct (reply_batch_atomic background ex_clk zero_correlation
    [ex_segment 0 "a"; ex_segment 1 "b"] ex_recorded ex_replies
    (Ok [with_pending 1000 (ex_segment 0 "a"); with_pending 1000 (ex_segment 1 "b")]))
    as (first & Hh & Hc & _); [vm_compute; reflexivity|]. exists first. by split.
Defined.

Lemma delivery_fenced_witness :
  ∃ err, TransitionReply background (λ _, 5000)
           (mkReplyTransition "t" "r1" 0 ReplySending ReplySent "w1" 1 0 "" "p")
           (run [] (ClaimReply background (λ _, 5000) "t" "r1" 0 "w2" 10 ex_claimed).1)
         = (run [] (ClaimReply background (λ _, 5000) "t" "r1" 0 "w2" 10 ex_claimed).1, Err err).
Proof.
  eapply (delivery_fenced background (λ _, 5000) "t" "r1" 0 "w2" 10 ex_claimed
    (ClaimReply background (λ _, 5000) "t" "r1" 0 "w2" 10 ex_claimed).1
    (mkReplyOutbox "t" "r1" "e1" 0 2 "a" zero_target ReplySending 2 2 "w2" (Some 5010) "" ""
       1000 5000) []); try ex_eval.
  - apply ex_claimed_ok.
  - eapply room_le; [|apply ex_claimed_ok]. simpl. lia.
  - simpl. lia.
  - vm_compute. discriminate.
Defined.

Lemma delivered_reply_final_witness :
  replies (run [OpClaimReply background (λ _, 5000) "t" "r1" 0 "w2" 10] ex_sent)
    !! replyKey "t" "r1" 0 = Some ex_sent_reply
  ∧ ∃ err, (ClaimReply background (λ _, 5000) "t" "r1" 0 "w2" 10
      (run [OpClaimReply background (λ _, 5000) "t" "r1" 0 "w2" 10] ex_sent)).2 = Err err.
Proof.
  apply (delivered_reply_final ex_sent "t" "r1" 0 ex_sent_reply); try ex_eval.
  - apply ex_sent_ok.
  - eapply room_le; [|apply ex_sent_ok]. simpl. lia.
  - vm_compute. discriminate.
  - vm_compute. discriminate.
Defined.

Lemma delete_cascades_witness :
  sessions (DeleteSession background "t" "s1" ex_sent).1 !! key ["t"%string; "s1"%string] = None.
Proof.
  apply (delete_cascades background "t" "s1" ex_sent (DeleteSession background "t" "s1" ex_sent).1).
  - apply ex_sent_ok.
  - vm_compute. reflexivity.
Defined.
