(* ===== verification/Outbox.v ===== *)
(** Durable reply delivery, [trpcservice/runtime/outbox/worker.go]: the worker that
    lists reply segments, claims them, delivers or reconciles them through a channel
    provider, settles them and advances the event they answer.

    One pass makes many calls on a store that other workers use at the same time.
    An [Env] fixes what the pass meets: at tick [n], which operations others perform
    on the store just before, what the clock and the context show, and how the
    provider and the audit writer answer.  The pass is a function on a [World]: the
    store, the tick, and a log of the provider calls, metrics and audit facts in
    order.  Telemetry spans carry no state and are left out, with them the
    correlation lookup that only labels the span ([restoreCorrelationContext]). *)
From Stdlib Require Import Ascii String.
From Corelib Require Import SpecFloat.
From S2P Require Import Prelude GoStrings RuntimeStore StoreTheorems.
Local Open Scope Z_scope.

(** * Floating point: Go's [float64] is IEEE binary64, rounding to nearest even *)

Notation float64 := spec_float (only parsing).
Definition f64 (z : Z) : float64 := binary_normalize 53 1024 z 0 false.
Definition fmul : float64 → float64 → float64 := SFmul 53 1024.
Definition fadd : float64 → float64 → float64 := SFadd 53 1024.
Definition fsub : float64 → float64 → float64 := SFsub 53 1024.
Definition fdiv : float64 → float64 → float64 := SFdiv 53 1024.
(** [math.Pow(2, k)] for a whole [k >= 0]. *)
Definition fpow2 (k : Z) : float64 :=
  if k <=? 1023 then f64 (2 ^ k) else S754_infinity false.
(** [int64(x)]: truncation; what does not fit gives the smallest value (amd64). *)
Definition f64_to_int64 (x : float64) : Z :=
  match x with
  | S754_zero _ => 0
  | S754_finite s m e =>
      let v := if 0 <=? e then Zpos m * 2 ^ e else Zpos m / 2 ^ (- e) in
      let v := if s then - v else v in
      if (int64_min <=? v) && (v <=? int64_max) then v else int64_min
  | S754_infinity _ | S754_nan => int64_min
  end.

(** [hash/fnv] New32a. *)
Definition fnv32a (data : list Z) : Z :=
  foldl (λ h b, (Z.lxor h b * 16777619) `mod` 4294967296) 2166136261 data.

(** * Data *)

Inductive DeliveryStatus := DeliveryAccepted | DeliveryRejected | DeliveryUnknown.
#[export] Instance DeliveryStatus_eq_dec : EqDecision DeliveryStatus.
Proof. solve_decision. Defined.

(** What [errors.Is] and [errors.As] see of a provider error: the two context
    errors and a [DeliveryError] with its class and whether it may be retried. *)
Record perror := mkPError {
  pe_deadline : bool;
  pe_canceled : bool;
  pe_delivery : option (string * bool)
}.

Inductive oerror :=
| OInvalid | OAlreadyRunning
| OContext (e : ctx_error)
| OStore (e : error)
| OAudit (conflict : bool).
#[export] Instance oerror_eq_dec : EqDecision oerror.
Proof. solve_decision. Defined.

(** [errors.Is(err, ErrConflict)] and [errors.Is(err, ErrNotFound)]. *)
Definition is_conflict (e : oerror) : bool :=
  match e with OStore ErrConflict => true | OAudit b => b | _ => false end.
Definition is_not_found (e : oerror) : bool :=
  match e with OStore ErrNotFound => true | _ => false end.

Inductive audit_event := EventIMDeliverySent | EventIMDeliveryRetryScheduled
| EventIMDeliveryDeadLettered.

Inductive entry :=
| LDeliver (r : ReplyOutbox)
| LReconcile (r : ReplyOutbox)
| LMetricDelivery (status class : string)
| LMetricRetry (class : string)
| LAudit (event : audit_event) (requestID traceID : string) (accepted : bool) (class : string).

Record Worker := mkWorker {
  w_tenantID : string;
  w_owner : string;
  w_leaseDuration : duration;
  w_maxAttempts : Z;
  w_backoffBase : duration;
  w_backoffMax : duration;
  w_jitter : float64
}.

Record Config := mkConfig {
  cf_Store : bool;
  cf_Provider : bool;
  cf_TenantID : string;
  cf_Owner : string;
  cf_LeaseDuration : duration;
  cf_MaxAttempts : Z;
  cf_BackoffBase : duration;
  cf_BackoffMax : duration;
  cf_Jitter : float64
}.

(** [cf_Store] and [cf_Provider] tell whether the interface values are non-nil. *)
Definition New (config : Config) : result oerror Worker :=
  if negb (cf_Store config) || negb (cf_Provider config)
     || negb (is_ok (ValidateTenant (cf_TenantID config)))
     || str_empty (cf_Owner config) || (cf_LeaseDuration config <=? 0) then Err OInvalid
  else
    let maxAttempts := if cf_MaxAttempts config <=? 0 then 3 else cf_MaxAttempts config in
    if (cf_BackoffBase config <? 0) || (cf_BackoffMax config <? 0)
       || SFltb (cf_Jitter config) (f64 0) || SFltb (f64 1) (cf_Jitter config)
    then Err OInvalid
    else
      let base := if cf_BackoffBase config =? 0 then 100 * millisecond
                  else cf_BackoffBase config in
      let max := if cf_BackoffMax config =? 0 then 30 * second else cf_BackoffMax config in
      if max <? base then Err OInvalid
      else Ok (mkWorker (cf_TenantID config) (cf_Owner config) (cf_LeaseDuration config)
                 maxAttempts base max (cf_Jitter config)).

(** * Classification of provider errors *)

Definition class_in (class : string) (classes : list string) : bool :=
  existsb (String.eqb class) classes.

Definition normalizeErrorClass (class : string) : string :=
  if class_in class ["rate_limited"; "timeout"; "canceled"; "invalid"; "unauthenticated";
                     "not_ready"; "unavailable"; "provider_rejected"; "provider_error"]%string
  then class else "provider_error".

Definition metricErrorClass (class : string) : string :=
  if class_in (normalizeErrorClass class) ["rate_limited"; "timeout"; "canceled"; "invalid";
                     "unauthenticated"; "not_ready"; "unavailable"]%string
  then normalizeErrorClass class else "error".

Definition classify (e : perror) : string * bool :=
  if pe_deadline e then ("timeout"%string, true)
  else if pe_canceled e then ("canceled"%string, true)
  else match pe_delivery e with
  | Some (class, retryable) =>
      if negb (str_empty class) then (normalizeErrorClass class, retryable)
      else ("provider_error"%string, true)
  | None => ("provider_error"%string, true)
  end.

(** * Which candidates are due *)

Definition eligible (now : time) (value : ReplyOutbox) : bool :=
  if (r_Status value =? ReplyPending)%string || (r_Status value =? ReplyRetryable)%string
  then true
  else (r_Status value =? ReplySending)%string && lease_over (r_LeaseExpiresAt value) now.

Definition retry_delay (w : Worker) (value : ReplyOutbox) : duration :=
  let attempt := if r_Attempts value <? 1 then 1 else r_Attempts value in
  let delay := fmul (f64 (w_backoffBase w)) (fpow2 (attempt - 1)) in
  let delay := if SFltb (f64 (w_backoffMax w)) delay then f64 (w_backoffMax w) else delay in
  let delay :=
    if SFltb (f64 0) (w_jitter w) then
      let h := fnv32a (bytes (r_ReplyID value)) in
      let half := fdiv (f64 1) (f64 2) in
      let factor := fadd (f64 1)
        (fmul (fmul (fsub (fdiv (f64 (h `mod` 1000)) (f64 999)) half) (f64 2)) (w_jitter w)) in
      fmul delay factor
    else delay in
  f64_to_int64 delay.

Definition retryDue (w : Worker) (value : ReplyOutbox) (now : time) : bool :=
  if negb (r_Status value =? ReplyRetryable)%string || (w_backoffBase w <=? 0)
     || is_zero (r_UpdatedAt value) then true
  else negb (before now (add_duration (r_UpdatedAt value) (retry_delay w value))).

(** * One pass of the worker *)

Record World := mkWorld {
  wd_store : Store;
  wd_tick : nat;
  wd_log : list entry
}.

(** Everything outside the worker, by tick: operations of others on the store, the
    visiting order of map iterations, clock and context readings, the provider and
    the audit writer. *)
Record Env `{Codec} := mkEnv {
  env_others : nat → list op;
  env_order : nat → list ReplyOutbox → list ReplyOutbox;
  env_clk : nat → time;
  env_ctx : context;
  env_deliver : nat → ReplyOutbox → result perror string;
  env_reconcile : nat → ReplyOutbox → option (DeliveryStatus * string);
  env_audit : nat → option bool
}.
#[global] Arguments mkEnv {_}.

Section Pass.
Context `{Codec}.
Variable env : Env.
Variable w : Worker.

(** A call on the store: what others did since the last call comes first. *)
Definition observeStorage {A} (f : context → clock → act Store error A) (wd : World)
    : World * result oerror A :=
  let n := wd_tick wd in
  let '(s, r) := f (ctx_from n (env_ctx env)) (λ i, env_clk env (n + i)%nat)
                   (run (env_others env n) (wd_store wd)) in
  (mkWorld s (n + 4) (wd_log wd), match r with Ok a => Ok a | Err e => Err (OStore e) end).

Definition log (e : entry) (wd : World) : World :=
  mkWorld (wd_store wd) (wd_tick wd) (wd_log wd ++ [e]).

(** A reading of the clock or an answer of the provider or the audit writer. *)
Definition tick (wd : World) : World := mkWorld (wd_store wd) (S (wd_tick wd)) (wd_log wd).

Definition claimCandidate (candidate : ReplyOutbox) (wd : World)
    : World * result oerror (option ReplyOutbox) :=
  if negb (eligible (env_clk env (wd_tick wd)) candidate)
     || negb (retryDue w candidate (env_clk env (S (wd_tick wd))))
  then (tick (tick wd), Ok None)
  else
    match observeStorage (λ ctx clk, ClaimReply ctx clk (r_TenantID candidate)
            (r_ReplyID candidate) (r_SegmentIndex candidate) (w_owner w) (w_leaseDuration w))
            (tick (tick wd)) with
    | (wd', Ok claimed) => (wd', Ok (Some claimed))
    | (wd', Err e) => if is_conflict e || is_not_found e then (wd', Ok None) else (wd', Err e)
    end.

(** The transitions a worker asks for on a segment it claimed. *)
Definition settle_transition (claimed : ReplyOutbox) (to providerID class : string)
    : ReplyTransition :=
  mkReplyTransition (r_TenantID claimed) (r_ReplyID claimed) (r_SegmentIndex claimed)
    ReplySending to (w_owner w) (r_FencingToken claimed) 0 class providerID.

Definition recordDelivery (event : audit_event) (value : ReplyOutbox) (class : string)
    (wd : World) : World * result oerror unit :=
  let accepted := match event with EventIMDeliverySent => true | _ => false end in
  let '(wd1, c) := observeStorage (λ ctx _, GetReplyCorrelation ctx (r_TenantID value)
                     (r_EventID value)) wd in
  let '(requestID, traceID) := match c with
    | Ok c => (c_RequestID c, c_TraceID c)
    | Err _ => (r_ReplyID value, ""%string)
    end in
  let wd2 := tick (log (LAudit event requestID traceID accepted class) wd1) in
  (wd2, match env_audit env (wd_tick wd1) with None => Ok () | Some b => Err (OAudit b) end).

Definition event_transition (eventID from to : string) : MessageTransition :=
  mkMessageTransition (w_tenantID w) eventID from to (w_owner w) 0 0 "" 0.

(** The loop over the candidates: [None] when a segment of the event is not sent. *)
Fixpoint all_sent (eventID : string) (candidates : list ReplyOutbox) (hasEvent : bool)
    : option bool :=
  match candidates with
  | [] => Some hasEvent
  | value :: rest =>
      if negb (r_EventID value =? eventID)%string then all_sent eventID rest hasEvent
      else if negb (r_Status value =? ReplySent)%string then None
      else all_sent eventID rest true
  end.

Definition advanceEvent (eventID : string) (wd : World) : World :=
  if str_empty eventID then wd
  else
    match observeStorage (λ ctx _, ListReplyCandidates (env_order env (wd_tick wd)) ctx
            (w_tenantID w)) wd with
    | (wd1, Err _) => wd1
    | (wd1, Ok candidates) =>
        match all_sent eventID candidates false with
        | None | Some false => wd1
        | Some true =>
            match observeStorage (λ ctx _, GetMessage ctx (w_tenantID w) eventID) wd1 with
            | (wd2, Err _) => wd2
            | (wd2, Ok event) =>
                let reply_pending wd3 :=
                  (observeStorage (λ ctx clk, TransitionMessage ctx clk
                     (event_transition eventID EventReplyPending EventReplied)) wd3).1 in
                if (e_Status event =? EventCompleted)%string then
                  match observeStorage (λ ctx clk, TransitionMessage ctx clk
                          (event_transition eventID EventCompleted EventReplyPending)) wd2 with
                  | (wd3, Err _) => wd3
                  | (wd3, Ok _) => reply_pending wd3
                  end
                else if (e_Status event =? EventReplyPending)%string then reply_pending wd2
                else wd2
            end
        end
    end.

Definition reconcile (claimed : ReplyOutbox) (wd : World) : World * bool :=
  let wd1 := tick (log (LReconcile claimed) wd) in
  match env_reconcile env (wd_tick wd) claimed with
  | None | Some (DeliveryUnknown, _) => (wd1, false)
  | Some (status, providerID) =>
      let '(to, class) := match status with
        | DeliveryRejected => (ReplyRetryable, "provider_rejected"%string)
        | _ => (ReplySent, ""%string)
        end in
      let '(wd2, r) := observeStorage (λ ctx clk, TransitionReply ctx clk
                         (settle_transition claimed to providerID class)) wd1 in
      (wd2, is_ok r)
  end.

Definition acceptDelivery (claimed : ReplyOutbox) (providerID : string) (wd : World)
    : World * result oerror unit :=
  let wd0 := log (LMetricDelivery "success" "") wd in
  match observeStorage (λ ctx clk, TransitionReply ctx clk
          (settle_transition claimed ReplySent providerID "")) wd0 with
  | (wd1, Err e) => (wd1, Err e)
  | (wd1, Ok _) =>
      match recordDelivery EventIMDeliverySent claimed "" wd1 with
      | (wd2, Err e) => (wd2, Err e)
      | (wd2, Ok _) => (advanceEvent (r_EventID claimed) wd2, Ok ())
      end
  end.

Definition rejectDelivery (claimed : ReplyOutbox) (deliveryErr : perror) (wd : World)
    : World * result oerror unit :=
  let '(class, retryable) := classify deliveryErr in
  let to := if negb retryable || (w_maxAttempts w <=? r_Attempts claimed)
            then ReplyDeadLetter else ReplyRetryable in
  let dead := (to =? ReplyDeadLetter)%string in
  let '(wd1, r1) := observeStorage (λ ctx clk, TransitionReply ctx clk
                      (settle_transition claimed to "" class)) wd in
  let '(wd2, r2) := match r1 with
    | Err e => (wd1, Err e)
    | Ok _ => recordDelivery (if dead then EventIMDeliveryDeadLettered
                              else EventIMDeliveryRetryScheduled) claimed class wd1
    end in
  let wd3 := if retryable && negb dead then log (LMetricRetry (metricErrorClass class)) wd2
             else wd2 in
  (log (LMetricDelivery (if dead then "dead_letter" else "retry") (metricErrorClass class)) wd3,
   r2).

Definition processClaimed (candidate claimed : ReplyOutbox) (wd : World)
    : World * result oerror unit :=
  if (r_Status candidate =? ReplySending)%string then
    match reconcile claimed wd with
    | (wd1, true) =>
        (log (LMetricDelivery "success" "") (advanceEvent (r_EventID claimed) wd1), Ok ())
    | (wd1, false) => (log (LMetricDelivery "retry" "error") wd1, Ok ())
    end
  else
    let wd1 := tick (log (LDeliver claimed) wd) in
    match env_deliver env (wd_tick wd) claimed with
    | Ok providerID => acceptDelivery claimed providerID wd1
    | Err e => rejectDelivery claimed e wd1
    end.

(** The loop of [RunOnce]: the number of segments processed, and the error that
    stopped it. *)
Fixpoint process_all (candidates : list ReplyOutbox) (processed : Z) (wd : World)
    : World * (Z * option oerror) :=
  match candidates with
  | [] => (wd, (processed, None))
  | candidate :: rest =>
      match claimCandidate candidate wd with
      | (wd1, Err e) => (wd1, (processed, Some e))
      | (wd1, Ok None) => process_all rest processed wd1
      | (wd1, Ok (Some claimed)) =>
          match processClaimed candidate claimed wd1 with
          | (wd2, Err e) =>
              if is_conflict e then process_all rest (processed + 1) wd2
              else (wd2, (processed + 1, Some e))
          | (wd2, Ok _) => process_all rest (processed + 1) wd2
          end
      end
  end.

Definition RunOnce (wd : World) : World * (Z * option oerror) :=
  match env_ctx env with
  | None => (wd, (0, Some OInvalid))
  | Some _ =>
      match observeStorage (λ ctx _, ListReplyCandidates (env_order env (wd_tick wd)) ctx
              (w_tenantID w)) wd with
      | (wd1, Err e) => (wd1, (0, Some e))
      | (wd1, Ok candidates) => process_all candidates 0 wd1
      end
  end.

End Pass.

(** * Lifecycle of the poll loop: whether a loop is reserved *)

Definition beginRun (running : bool) (ctx : context) : bool * option oerror :=
  match ctx with
  | None => (running, Some OInvalid)
  | Some c =>
      match c 0%nat with
      | Some e => (running, Some (OContext e))
      | None => if running then (running, Some OAlreadyRunning) else (true, None)
      end
  end.

(** * What a pass may deliver *)

Section Facts.
Context `{Codec}.
Variable env : Env.
Variable w : Worker.

Lemma observeStorage_log {A} (f : context → clock → act Store error A) wd :
  wd_log (observeStorage env f wd).1 = wd_log wd.
Proof. unfold observeStorage. by destruct (f _ _ _). Qed.

(** What the listing of the candidates returns. *)
Lemma observe_candidates wd wd' cs :
  observeStorage env (λ ctx _, ListReplyCandidates (env_order env (wd_tick wd)) ctx
    (w_tenantID w)) wd = (wd', Ok cs) →
  wd' = mkWorld (run (env_others env (wd_tick wd)) (wd_store wd)) (wd_tick wd + 4) (wd_log wd)
  ∧ cs = env_order env (wd_tick wd) (filter (λ r, r_TenantID r = w_tenantID w)
      (map_to_list (replies (run (env_others env (wd_tick wd)) (wd_store wd)))).*2).
Proof. unfold observeStorage, ListReplyCandidates. intros. by go_step. Qed.

(** ** Segments are stored under their own keys *)

Definition keyed (s : Store) : Prop := ∀ k r, replies s !! k = Some r → reply_key_of r = k.

Lemma keyed_step tn d s s' : step tn d s s' → keyed s → keyed s'.
Proof.
  intros Hstep Hk. destruct Hstep as [| | | | |rs cs _ Hnew _|r r' _ Hr Hsame _ _|sid s' _ _ _ _ _ _ _ Hr|]; try done.
  - intros k r [Hr|(_ & _ & _ & Hr & _)]%Hnew; [by apply Hk|done].
  - intros k x. cbn. intros [[<- <-]|[_ Hx]]%lookup_insert_Some; [|by apply Hk].
    destruct Hsame as (H1 & H2 & _ & H3 & _). unfold reply_key_of. by rewrite H1, H2, H3.
  - intros k x [Hx _]%Hr. by apply Hk.
Qed.

Lemma keyed_replies s s' : replies s' = replies s → keyed s → keyed s'.
Proof. unfold keyed. by intros ->. Qed.

Lemma keyed_rewrite k r r' s :
  replies s !! k = Some r → reply_key_of r' = reply_key_of r → keyed s →
  keyed (set_replies (<[k := r']> (replies s)) s).
Proof.
  intros Hr Heq Hk k' x. cbn. intros [[<- <-]|[_ Hx]]%lookup_insert_Some; [|by apply Hk]. rewrite Heq. by apply Hk.
Qed.

(** Calls on the store that keep it keyed. *)
Class Keeps {A} (f : context → clock → act Store error A) : Prop :=
  keeps ctx clk s : keyed s → keyed (f ctx clk s).1.

#[local] Instance keeps_claim tn rid seg owner d : Keeps (λ ctx clk, ClaimReply ctx clk tn rid seg owner d).
Proof.
  intros ctx clk s Hk. unfold ClaimReply. go_step; try done. by eapply keyed_rewrite.
Qed.
#[local] Instance keeps_transition t : Keeps (λ ctx clk, TransitionReply ctx clk t).
Proof.
  intros ctx clk s Hk. unfold TransitionReply. go_step; try done. by eapply keyed_rewrite.
Qed.
#[local] Instance keeps_message t : Keeps (λ ctx clk, TransitionMessage ctx clk t).
Proof. intros ctx clk s. apply keyed_replies. unfold TransitionMessage. by go_step. Qed.
#[local] Instance keeps_list order tn : Keeps (λ ctx _, ListReplyCandidates order ctx tn).
Proof. intros ctx clk s. apply keyed_replies. unfold ListReplyCandidates. by go_step. Qed.
#[local] Instance keeps_get tn ev : Keeps (λ ctx _, GetMessage ctx tn ev).
Proof. intros ctx clk s. apply keyed_replies. unfold GetMessage. by go_step. Qed.
#[local] Instance keeps_correlation tn ev : Keeps (λ ctx _, GetReplyCorrelation ctx tn ev).
Proof. intros ctx clk s. apply keyed_replies. unfold GetReplyCorrelation. by go_step. Qed.

Lemma keyed_exec o s : keyed s → keyed (exec o s).
Proof.
  destruct o; simpl.
  - eapply keyed_step, (CreateSession_step false).
  - apply keyed_replies. unfold UpdateSessionState. by go_step.
  - eapply keyed_step, DeleteSession_step.
  - apply keyed_replies. unfold RecordMessage. by go_step.
  - apply keeps_message.
  - apply keyed_replies. unfold AppendEventPayload. by go_step.
  - eapply keyed_step, (EnqueueReply_step false).
  - eapply keyed_step, (enqueueReplies_step false).
  - unfold EnqueueRepliesWithCorrelation, ensure, lift. unfold mbind at 1, act_bind.
    destruct (guard_ok _ _); [eapply keyed_step, (enqueueReplies_step false)|done].
  - apply keeps_claim.
  - apply keeps_transition.
  - eapply keyed_step, (PutSummary_step false).
Qed.
Lemma keyed_run os s : keyed s → keyed (run os s).
Proof. revert s. induction os as [|o os IH]; intros s Hk; [done|]. by apply IH, keyed_exec. Qed.

(** ** What is asked of the provider *)

Definition is_contact (e : entry) : bool := match e with LDeliver _ | LReconcile _ => true | _ => false end.

(** The log grew by entries of which [calls] are those to the provider, in order. *)
Definition adds (calls : list entry) (wd wd' : World) : Prop :=
  (keyed (wd_store wd) → keyed (wd_store wd'))
  ∧ ∃ new, wd_log wd' = wd_log wd ++ new ∧ filter is_contact new = calls.
Notation quiet := (adds []).

Lemma adds_trans l1 l2 wd1 wd2 wd3 : adds l1 wd1 wd2 → adds l2 wd2 wd3 → adds (l1 ++ l2) wd1 wd3.
Proof.
  intros [Hk1 (n1 & H1 & <-)] [Hk2 (n2 & H2 & <-)]. split; [auto|]. exists (n1 ++ n2).
  by rewrite H2, H1, app_assoc, filter_app.
Qed.

#[local] Instance quiet_preorder : PreOrder quiet.
Proof.
  split; [intros wd; split; [done|exists []; by rewrite app_nil_r]|]. intros wd1 wd2 wd3. apply adds_trans.
Qed.

Lemma quiet_observe {A} (f : context → clock → act Store error A) `{!Keeps f} wd wd' r :
  observeStorage env f wd = (wd', r) → quiet wd wd'.
Proof.
  intros Hf. pose proof (observeStorage_log f wd) as Hl. rewrite Hf in Hl. simpl in Hl. split.
  - intros Hk. unfold observeStorage in Hf.
    pose proof (keeps (f := f) (ctx_from (wd_tick wd) (env_ctx env)) (λ i, env_clk env (wd_tick wd + i)%nat)
      _ (keyed_run (env_others env (wd_tick wd)) _ Hk)) as Hk'.
    destruct (f _ _ _). by injection Hf as <- _.
  - exists []. by rewrite Hl, app_nil_r.
Qed.

Lemma adds_log e wd : adds (filter is_contact [e]) wd (log e wd).
Proof. split; [done|]. by exists [e]. Qed.
Lemma quiet_log e wd : is_contact e = false → quiet wd (log e wd).
Proof. intros He. split; [done|]. exists [e]. split; [done|]. rewrite filter_cons_False; [done|]. rewrite He. by intros []. Qed.

Lemma quiet_tick wd : quiet wd (tick wd).
Proof. split; [done|]. exists []. by rewrite app_nil_r. Qed.

Lemma recordDelivery_quiet event value class wd wd' r :
  recordDelivery env event value class wd = (wd', r) → quiet wd wd'.
Proof.
  unfold recordDelivery. destruct (observeStorage _ _ _) as [wd1 c] eqn:E.
  apply quiet_observe in E; [|apply _]. intros. go_cases; (etrans; [exact E|]);
    (etrans; [|apply quiet_tick]); by apply quiet_log.
Qed.

Lemma advanceEvent_quiet ev wd : quiet wd (advanceEvent env w ev wd).
Proof.
  unfold advanceEvent. repeat case_match; try done;
    repeat match goal with
    | Hq : observeStorage _ _ _ = _ |- _ => apply quiet_observe in Hq; [|apply _] end;
    try done; repeat (etrans; [eassumption|]); try done.
  all: match goal with |- quiet _ (observeStorage _ ?f ?x).1 =>
    destruct (observeStorage env f x) eqn:Hq; by apply quiet_observe in Hq; [|apply _] end.
Qed.

Lemma acceptDelivery_quiet claimed pid wd wd' r :
  acceptDelivery env w claimed pid wd = (wd', r) → quiet wd wd'.
Proof.
  unfold acceptDelivery. intros Hd. etrans; [by apply (quiet_log (LMetricDelivery "success" ""))|].
  repeat case_match; simplify_eq;
    repeat match goal with
    | Hq : observeStorage _ _ _ = _ |- _ => apply quiet_observe in Hq; [|apply _]
    | Hq : recordDelivery _ _ _ _ _ = _ |- _ => apply recordDelivery_quiet in Hq end;
    repeat (etrans; [eassumption|]); try done. apply advanceEvent_quiet.
Qed.

Lemma rejectDelivery_quiet claimed e wd wd' r :
  rejectDelivery env w claimed e wd = (wd', r) → quiet wd wd'.
Proof.
  unfold rejectDelivery. intros Hd. destruct (classify e) as [class retryable].
  destruct (observeStorage _ _ _) as [wd1 r1] eqn:E. apply quiet_observe in E; [|apply _].
  match type of Hd with (let '(_, _) := ?m in _) = _ => destruct m as [wd2 r2] eqn:E2 end.
  simplify_eq. etrans; [exact E|]. etrans; [|by apply quiet_log].
  assert (quiet wd1 wd2) as Hq.
  { destruct r1; simplify_eq; [by eapply recordDelivery_quiet|done]. }
  etrans; [exact Hq|]. destruct (retryable && _); [by apply quiet_log|done].
Qed.

Lemma reconcile_adds claimed wd wd' b :
  reconcile env w claimed wd = (wd', b) → adds [LReconcile claimed] wd wd'.
Proof.
  unfold reconcile. intros Hr.
  assert (adds [LReconcile claimed] wd (tick (log (LReconcile claimed) wd))) as Hq.
  { apply (adds_trans [LReconcile claimed] [] _ (log (LReconcile claimed) wd)); [apply adds_log|apply quiet_tick]. }
  repeat case_match; simplify_eq; try done;
    (apply (adds_trans [LReconcile claimed] [] _ _ _ Hq));
    match goal with Hq : observeStorage _ _ _ = _ |- _ => by apply quiet_observe in Hq; [|apply _] end.
Qed.

(** The one call that is made for a claimed segment. *)
Definition call_for (c claimed : ReplyOutbox) : entry :=
  if (r_Status c =? ReplySending)%string then LReconcile claimed else LDeliver claimed.

(** A claimed segment is reconciled if it was listed as [sending] and delivered otherwise,
    once. *)
Lemma processClaimed_adds c claimed wd wd' r :
  processClaimed env w c claimed wd = (wd', r) → adds [call_for c claimed] wd wd'.
Proof.
  unfold processClaimed, call_for. intros Hp. destruct (r_Status c =? ReplySending)%string.
  - destruct (reconcile env w claimed wd) as [wd1 []] eqn:E; simplify_eq; apply reconcile_adds in E;
      apply (adds_trans [LReconcile claimed] [] _ _ _ E); [etrans; [apply advanceEvent_quiet|]|]; by apply quiet_log.
  - apply (adds_trans [LDeliver claimed] [] _ (log (LDeliver claimed) wd)); [apply adds_log|].
    etrans; [apply quiet_tick|].
    destruct (env_deliver _ _ _); [by eapply acceptDelivery_quiet|by eapply rejectDelivery_quiet].
Qed.

(** [x] is the segment that [c] names, under a lease of this worker. *)
Definition leased_from (c x : ReplyOutbox) : Prop :=
  reply_key_of x = reply_key_of c ∧ r_Status x = ReplySending ∧ r_LeaseOwner x = w_owner w.

Lemma claimCandidate_spec c wd wd' r :
  claimCandidate env w c wd = (wd', r) →
  quiet wd wd' ∧ ∀ x, r = Ok (Some x) →
    eligible (env_clk env (wd_tick wd)) c = true
    ∧ retryDue w c (env_clk env (S (wd_tick wd))) = true ∧ (keyed (wd_store wd) → leased_from c x).
Proof.
  unfold claimCandidate. intros Hc. destruct (eligible _ _), (retryDue _ _ _); simpl in Hc;
    [|simplify_eq; split; [split; [done|exists []; by rewrite app_nil_r]|naive_solver]..].
  destruct (observeStorage _ _ _) as [wd1 r1] eqn:E.
  assert (quiet wd wd1) as Hq.
  { apply quiet_observe in E; [|apply _]. etrans; [|exact E]. etrans; [|apply quiet_tick]. apply quiet_tick. }
  destruct r1 as [x|e].
  - simplify_eq. split; [done|]. intros ? [= ->]. split_and!; [done..|]. intros Hk.
    unfold observeStorage in E. destruct (ClaimReply _ _ _ _ _ _ _ _) as [s1 r1] eqn:Ec.
    go_cases. apply ClaimReply_ok in Ec as (v & Hv & _ & -> & _).
    apply (keyed_run (env_others env (wd_tick (tick (tick wd)))) _ Hk) in Hv. by split.
  - destruct (is_conflict e || is_not_found e); simplify_eq; by split.
Qed.

(** A call to the provider for a candidate of the list. *)
Definition call_of (cs : list ReplyOutbox) (e : entry) : Prop :=
  ∃ c x n, c ∈ cs ∧ eligible (env_clk env n) c = true ∧ leased_from c x ∧ e = call_for c x.
Definition call_key (e : entry) : option string :=
  match e with LDeliver x | LReconcile x => Some (reply_key_of x) | _ => None end.

Lemma call_of_cons c cs e : call_of cs e → call_of (c :: cs) e.
Proof. intros (c' & x & now & ? & ?). exists c', x, now. by split; [right|]. Qed.

Lemma process_all_calls cs : ∀ n wd wd' out,
  process_all env w cs n wd = (wd', out) → keyed (wd_store wd) →
  ∃ calls, adds calls wd wd' ∧ Forall (call_of cs) calls
    ∧ omap call_key calls `sublist_of` (reply_key_of <$> cs).
Proof.
  induction cs as [|c cs IH]; simpl; intros n wd wd' out Hp Hk.
  { simplify_eq. exists []. split_and!; [reflexivity|constructor..]. }
  assert (∀ wd1 n', quiet wd wd1 → process_all env w cs n' wd1 = (wd', out) →
    ∃ calls, adds calls wd wd' ∧ Forall (call_of (c :: cs)) calls
      ∧ omap call_key calls `sublist_of` (reply_key_of c :: (reply_key_of <$> cs))) as Hrest.
  { intros wd1 n' Hq Hp1. destruct (IH _ _ _ _ Hp1 (proj1 Hq Hk)) as (calls & Ha & Hf & Hs).
    exists calls. split_and!; [by apply (adds_trans [] calls _ wd1)| |by apply sublist_cons].
    eapply Forall_impl; [done|]. apply call_of_cons. }
  destruct (claimCandidate env w c wd) as [wd1 r] eqn:E.
  destruct (claimCandidate_spec _ _ _ _ E) as [Hq Hcl]. destruct r as [[claimed|]|e].
  - destruct (Hcl _ eq_refl) as (He & _ & Hl). specialize (Hl Hk).
    destruct (processClaimed env w c claimed wd1) as [wd2 r2] eqn:E2.
    assert (adds [call_for c claimed] wd wd2) as Ha2.
    { apply (adds_trans [] [call_for c claimed] _ wd1); [done|]. by eapply processClaimed_adds. }
    assert (call_of (c :: cs) (call_for c claimed)) as Hof by (eexists c, _, _; split; [by left|done]).
    assert (call_key (call_for c claimed) = Some (reply_key_of c)) as Hkey.
    { destruct Hl as [Hkx _]. rewrite <- Hkx. unfold call_for. by destruct (r_Status c =? ReplySending)%string. }
    assert (∀ n', process_all env w cs n' wd2 = (wd', out) →
      ∃ calls, adds calls wd wd' ∧ Forall (call_of (c :: cs)) calls
        ∧ omap call_key calls `sublist_of` (reply_key_of c :: (reply_key_of <$> cs))) as Hgo.
    { intros n' Hp1. destruct (IH _ _ _ _ Hp1 (proj1 Ha2 Hk)) as (calls & Ha & Hf & Hs).
      exists (call_for c claimed :: calls). split_and!; [exact (adds_trans _ _ _ _ _ Ha2 Ha)| |].
      - constructor; [done|]. eapply Forall_impl; [done|]. apply call_of_cons.
      - simpl. rewrite Hkey. by apply sublist_skip. }
    destruct r2 as [|e]; [by eapply Hgo|]. destruct (is_conflict e); [by eapply Hgo|].
    simplify_eq. exists [call_for c claimed]. split_and!; [done|by constructor|]. simpl. rewrite Hkey.
    apply sublist_skip, sublist_nil_l.
  - by eapply Hrest.
  - simplify_eq. exists []. split_and!; [done|constructor|apply sublist_nil_l].
Qed.

Lemma listed_keys l (s : Store) :
  keyed s → l ≡ₚ (map_to_list (replies s)).*2 → NoDup (reply_key_of <$> l).
Proof.
  intros Hk ->. rewrite <- list_fmap_compose.
  assert (reply_key_of ∘ snd <$> map_to_list (replies s) = (map_to_list (replies s)).*1) as ->.
  { apply list_fmap_ext. intros i [k r] Hi%list_elem_of_lookup_2%elem_of_map_to_list. simpl. by apply Hk. }
  apply NoDup_fst_map_to_list.
Qed.

Lemma contact_keys (new : list entry) : omap call_key new = omap call_key (filter is_contact new).
Proof.
  induction new as [|e new IH]; [done|]. destruct (is_contact e) eqn:He.
  - rewrite filter_cons_True by (by rewrite He). cbn [omap list_omap]. fold (omap (M := list) call_key). by rewrite IH.
  - rewrite filter_cons_False by (rewrite He; by intros []). rewrite <- IH. by destruct e.
Qed.

(** The calls of a pass, over the candidates that it listed. *)
Lemma RunOnce_calls wd wd' out :
  (∀ n l, env_order env n l ≡ₚ l) → RunOnce env w wd = (wd', out) → keyed (wd_store wd) →
  let listed := replies (run (env_others env (wd_tick wd)) (wd_store wd)) in
  ∃ cs calls, adds calls wd wd'
    ∧ (∀ c, c ∈ cs → listed !! reply_key_of c = Some c ∧ r_TenantID c = w_tenantID w)
    ∧ NoDup (reply_key_of <$> cs) ∧ Forall (call_of cs) calls
    ∧ omap call_key calls `sublist_of` (reply_key_of <$> cs).
Proof.
  intros Hperm Hrun Hk listed. unfold RunOnce in Hrun.
  assert (quiet wd wd' → ∃ cs calls, adds calls wd wd'
    ∧ (∀ c, c ∈ cs → listed !! reply_key_of c = Some c ∧ r_TenantID c = w_tenantID w)
    ∧ NoDup (reply_key_of <$> cs) ∧ Forall (call_of cs) calls
    ∧ omap call_key calls `sublist_of` (reply_key_of <$> cs)) as Hquiet.
  { intros Hq. exists [], []. split_and!; [done| |constructor..]. by intros c []%elem_of_nil. }
  destruct (env_ctx env); [|simplify_eq; by apply Hquiet].
  destruct (observeStorage _ _ _) as [wd1 r1] eqn:E. pose proof (quiet_observe _ _ _ _ E) as Hq.
  destruct r1 as [cs|e]; [|simplify_eq; by apply Hquiet].
  destruct (process_all_calls _ _ _ _ _ Hrun (proj1 Hq Hk)) as (calls & Ha & Hf & Hs).
  apply observe_candidates in E as [_ Hcs].
  pose proof (keyed_run (env_others env (wd_tick wd)) _ Hk) as Hk1. fold listed in Hcs.
  exists cs, calls. split_and!; try done.
  - exact (adds_trans [] calls _ _ _ Hq Ha).
  - intros c. rewrite Hcs, Hperm, list_elem_of_filter. intros [Ht Hc]. split; [|done].
    apply list_elem_of_fmap in Hc as ([k c'] & -> & Hc%elem_of_map_to_list). simpl.
    by rewrite (Hk1 _ _ Hc).
  - rewrite Hcs, Hperm. eapply sublist_NoDup; [exact (listed_keys _ _ Hk1 (reflexivity _))|].
    apply fmap_sublist, sublist_filter.
Qed.

(** C7: a segment that a pass listed as being sent is never delivered by that pass: the
    previous holder may have reached the provider, so it is only reconciled.  Whatever
    operations others perform on the store before and during the pass: every delivery that
    the pass attempts is of a segment that it had listed, under the same key, as pending or
    retryable; every reconciliation is of one that it had listed as sending, with a lease that
    was over on the clock of the pass; in both cases the segment is under a lease of this worker.  The provider is
    asked at most once for each segment. *)
Theorem sending_only_reconciled os wd wd' out :
  (∀ n l, env_order env n l ≡ₚ l) → wd_store wd = run os newStore →
  RunOnce env w wd = (wd', out) →
  let listed := replies (run (env_others env (wd_tick wd)) (wd_store wd)) in
  ∃ new, wd_log wd' = wd_log wd ++ new
    ∧ (∀ x, LDeliver x ∈ new →
        r_Status x = ReplySending ∧ r_LeaseOwner x = w_owner w
        ∧ ∃ c, listed !! reply_key_of x = Some c ∧ r_TenantID c = w_tenantID w
          ∧ (r_Status c = ReplyPending ∨ r_Status c = ReplyRetryable))
    ∧ (∀ x, LReconcile x ∈ new →
        r_Status x = ReplySending ∧ r_LeaseOwner x = w_owner w
        ∧ ∃ c n, listed !! reply_key_of x = Some c ∧ r_TenantID c = w_tenantID w
          ∧ r_Status c = ReplySending ∧ lease_over (r_LeaseExpiresAt c) (env_clk env n) = true)
    ∧ NoDup (omap call_key new).
Proof.
  intros Hperm Hstore Hrun listed.
  assert (keyed (wd_store wd)) as Hk.
  { rewrite Hstore. apply keyed_run. intros k r Hr. cbn in Hr. by rewrite lookup_empty in Hr. }
  destruct (RunOnce_calls wd wd' out Hperm Hrun Hk) as (cs & calls & [_ (new & Hlog & Hnew)] & Hcs & Hnd & Hcalls & Hsub).
  assert (∀ e, e ∈ new → is_contact e = true → ∃ c x now, listed !! reply_key_of x = Some c
    ∧ r_TenantID c = w_tenantID w ∧ eligible (env_clk env now) c = true ∧ leased_from c x ∧ e = call_for c x) as Hin.
  { intros e He Hc. assert (e ∈ calls) as Hec by (rewrite <- Hnew; apply list_elem_of_filter; by rewrite Hc).
    rewrite Forall_forall in Hcalls. destruct (Hcalls _ Hec) as (c & x & now & Hcc & Hel & Hle & ->).
    destruct (Hcs _ Hcc) as [Hlk Ht]. exists c, x, now. split_and!; try done. by destruct Hle as [-> _]. }
  exists new. split_and!; [done| | |].
  - intros x Hx. destruct (Hin _ Hx eq_refl) as (c & y & now & Hl & Ht & Hel & (_ & Hs & Ho) & Heq).
    unfold call_for in Heq. destruct (String.eqb_spec (r_Status c) ReplySending) as [|Hne]; [done|].
    injection Heq as ->. split_and!; [done..|]. exists c. split_and!; try done. unfold eligible in Hel.
    destruct (String.eqb_spec (r_Status c) ReplyPending); [by left|].
    destruct (String.eqb_spec (r_Status c) ReplyRetryable); [by right|].
    by destruct (String.eqb_spec (r_Status c) ReplySending).
  - intros x Hx. destruct (Hin _ Hx eq_refl) as (c & y & now & Hl & Ht & Hel & (_ & Hs & Ho) & Heq).
    unfold call_for in Heq. destruct (String.eqb_spec (r_Status c) ReplySending) as [Hse|]; [|done].
    injection Heq as ->. split_and!; [done..|]. exists c, now. split_and!; try done.
    unfold eligible in Hel. by rewrite Hse in Hel.
  - rewrite contact_keys, Hnew. by eapply sublist_NoDup.
Qed.

(** * Settling a claimed segment *)

(** The reply row that a delivery attempt leaves, by the provider's answer. *)
Definition settled_reply (stamp : time) (claimed : ReplyOutbox)
    (answer : result perror string) : ReplyOutbox :=
  let t := match answer with
    | Ok providerID => settle_transition w claimed ReplySent providerID ""
    | Err e =>
        let '(class, retryable) := classify e in
        settle_transition w claimed
          (if negb retryable || (w_maxAttempts w <=? r_Attempts claimed)
           then ReplyDeadLetter else ReplyRetryable) "" class
    end in
  apply_reply stamp stamp t claimed.

Hypothesis alone : ∀ n, env_others env n = [].

Lemma observe_alone {A} (f : context → clock → act Store error A) wd wd' r :
  observeStorage env f wd = (wd', r) →
  (f (ctx_from (wd_tick wd) (env_ctx env)) (λ i, env_clk env (wd_tick wd + i)%nat)
     (wd_store wd)).1 = wd_store wd'
  ∧ r = match (f (ctx_from (wd_tick wd) (env_ctx env)) (λ i, env_clk env (wd_tick wd + i)%nat)
                 (wd_store wd)).2 with Ok a => Ok a | Err e => Err (OStore e) end
  ∧ wd_tick wd' = (wd_tick wd + 4)%nat.
Proof.
  unfold observeStorage. rewrite alone. simpl. destruct (f _ _ _). intros. by simplify_eq.
Qed.

Lemma recordDelivery_store event value class wd wd' r :
  recordDelivery env event value class wd = (wd', r) → wd_store wd' = wd_store wd.
Proof.
  unfold recordDelivery. destruct (observeStorage _ _ _) as [wd1 c] eqn:E.
  apply observe_alone in E as (Hs & _). unfold GetReplyCorrelation in Hs. 
  intros. go_step; congruence.
Qed.

Lemma TransitionMessage_replies ctx clk t s :
  replies (TransitionMessage ctx clk t s).1 = replies s.
Proof. unfold TransitionMessage. by go_step. Qed.

Lemma observe_keeps {A} (f : context → clock → act Store error A) wd wd' r :
  (∀ ctx clk s, replies (f ctx clk s).1 = replies s) →
  observeStorage env f wd = (wd', r) → replies (wd_store wd') = replies (wd_store wd).
Proof. intros Hf (<- & _)%observe_alone. apply Hf. Qed.

Lemma advanceEvent_replies ev wd :
  replies (wd_store (advanceEvent env w ev wd)) = replies (wd_store wd).
Proof.
  unfold advanceEvent. repeat case_match; try done;
    repeat match goal with
    | Hq : observeStorage _ (λ _ _, ListReplyCandidates _ _ _) _ = _ |- _ =>
        apply observe_keeps in Hq; [|intros; unfold ListReplyCandidates; by go_step]
    | Hq : observeStorage _ (λ _ _, GetMessage _ _ _) _ = _ |- _ =>
        apply observe_keeps in Hq; [|intros; unfold GetMessage; by go_step]
    | Hq : observeStorage _ (λ _ _, TransitionMessage _ _ _) _ = _ |- _ =>
        apply observe_keeps in Hq; [|intros; apply TransitionMessage_replies]
    | |- context [(observeStorage ?e ?f ?x).1] => destruct (observeStorage e f x) eqn:?; simpl
    end; congruence.
Qed.

Hypothesis live : env_ctx env = background.

(** A transition by the holder of a live lease succeeds. *)
Lemma settle_applies claimed to pid class wd wd' r :
  replies (wd_store wd) !! reply_key_of claimed = Some claimed →
  r_Status claimed = ReplySending → r_LeaseOwner claimed = w_owner w →
  w_owner w ≠ "" → r_TenantID claimed ≠ "" → r_ReplyID claimed ≠ "" →
  lease_over (r_LeaseExpiresAt claimed) (env_clk env (wd_tick wd)) = false →
  ValidateTransition ReplySending to = true → to ≠ ReplySending →
  observeStorage env (λ ctx clk, TransitionReply ctx clk
    (settle_transition w claimed to pid class)) wd = (wd', r) →
  is_ok r = true ∧ replies (wd_store wd') !! reply_key_of claimed
    = Some (apply_reply (env_clk env (wd_tick wd + 2)) (env_clk env (wd_tick wd + 2))
              (settle_transition w claimed to pid class) claimed).
Proof.
  intros Hr Hs Ho Hne Ht Hid Hlive Hval Hto (Hst & -> & _)%observe_alone.
  destruct (TransitionReply_cases (ctx_from (wd_tick wd) (env_ctx env))
    (λ i, env_clk env (wd_tick wd + i)%nat) (settle_transition w claimed to pid class)
    (wd_store wd)) as [[err Herr]|(s1 & r0 & r1 & Hok & Hr0 & _ & _ & _ & _ & _ & -> & ->)].
  - exfalso. revert Herr. unfold TransitionReply, settle_transition, reply_key_of in *. simpl.
    go_unfold. rewrite live. unfold ctx_from, background. simpl. unfold ValidateTenant, str_empty.
    rewrite (proj2 (String.eqb_neq _ _) Hne), (proj2 (String.eqb_neq _ _) Ht),
      (proj2 (String.eqb_neq _ _) Hid). simpl. rewrite Hval, Hr, Hs, Ho. simpl.
    rewrite !String.eqb_refl, Z.eqb_refl. simpl. rewrite !andb_false_r. simpl.
    rewrite Nat.add_0_r, Hlive. done.
  - rewrite Hok in *. split; [done|]. rewrite <- Hst. unfold reply_key_of in *.
    simpl in *. rewrite lookup_insert_eq. rewrite Hr in Hr0. simplify_eq. f_equal.
    unfold apply_reply. simpl. by rewrite (proj2 (String.eqb_neq _ _) Hto).
Qed.

(** A delivery attempt is settled by the provider's answer.  A worker that holds
    the lease and is not interrupted records the segment as sent with the provider's
    identifier, or after a failure as retryable with the error's class when the error
    may be retried and attempts are left, and as dead-lettered otherwise; a segment
    that used up its attempts is never scheduled again. *)
Theorem delivery_settles c claimed wd wd' r :
  r_Status c ≠ ReplySending →
  replies (wd_store wd) !! reply_key_of claimed = Some claimed →
  r_Status claimed = ReplySending → r_LeaseOwner claimed = w_owner w →
  w_owner w ≠ "" → r_TenantID claimed ≠ "" → r_ReplyID claimed ≠ "" →
  lease_over (r_LeaseExpiresAt claimed) (env_clk env (S (wd_tick wd))) = false →
  processClaimed env w c claimed wd = (wd', r) →
  let row := settled_reply (env_clk env (S (wd_tick wd) + 2)) claimed
               (env_deliver env (wd_tick wd) claimed) in
  replies (wd_store wd') !! reply_key_of claimed = Some row
  ∧ (w_maxAttempts w ≤ r_Attempts claimed → r_Status row ≠ ReplyRetryable).
Proof.
  intros Hc Hr Hs Ho Hne Ht Hid Hlive Hp row. unfold processClaimed in Hp.
  rewrite (proj2 (String.eqb_neq _ _) Hc) in Hp.
  unfold row, settled_reply. destruct (env_deliver env (wd_tick wd) claimed) as [pid|e].
  - split; [|done]. unfold acceptDelivery in Hp.
    destruct (observeStorage _ _ _) as [wd1 r1] eqn:E.
    apply (settle_applies claimed) in E as [Hok Hrow]; try done.
    destruct r1; [|done]. destruct (recordDelivery _ _ _ _ _) as [wd2 [|e]] eqn:E2;
      apply recordDelivery_store in E2; simplify_eq.
    + rewrite advanceEvent_replies. by rewrite E2.
    + by rewrite E2.
  - unfold rejectDelivery in Hp. destruct (classify e) as [class retryable]. split.
    + destruct (observeStorage _ _ _) as [wd1 r1] eqn:E.
      apply (settle_applies claimed) in E as [Hok Hrow]; try done; try (by destruct (negb retryable || _)).
      destruct r1; [|done]. destruct (recordDelivery _ _ _ _ _) as [wd2 r2] eqn:E2.
      apply recordDelivery_store in E2. simplify_eq. rewrite <- E2 in Hrow.
      by destruct (retryable && _).
    + intros Hle. simpl. by rewrite (proj2 (Z.leb_le _ _) Hle), orb_true_r.
Qed.

(** * Advancing the event *)

Definition event_answered (ev : string) (s : Store) : Prop :=
  (∃ k r, replies s !! k = Some r ∧ r_TenantID r = w_tenantID w ∧ r_EventID r = ev)
  ∧ ∀ k r, replies s !! k = Some r → r_TenantID r = w_tenantID w → r_EventID r = ev →
      r_Status r = ReplySent.

Lemma all_sent_spec ev cs : ∀ b,
  all_sent ev cs b = Some true ↔
    (b = true ∨ ∃ r, r ∈ cs ∧ r_EventID r = ev)
    ∧ ∀ r, r ∈ cs → r_EventID r = ev → r_Status r = ReplySent.
Proof.
  induction cs as [|c cs IH]; intros b; simpl.
  - split; [intros [= ->]; split; [by left|set_solver]|].
    intros [[->|(r & Hr & _)] _]; [done|set_solver].
  - destruct (String.eqb_spec (r_EventID c) ev) as [He|He]; simpl.
    + destruct (String.eqb_spec (r_Status c) ReplySent) as [Hs|Hs]; simpl.
      * rewrite IH. setoid_rewrite elem_of_cons. naive_solver.
      * split; [done|]. intros [_ Hall]. destruct Hs. apply Hall; [by left|done].
    + rewrite IH. setoid_rewrite elem_of_cons. naive_solver.
Qed.

Hypothesis order_perm : ∀ n l, env_order env n l ≡ₚ l.

Lemma all_sent_candidates ev s n :
  all_sent ev (env_order env n (filter (λ r, r_TenantID r = w_tenantID w)
    (map_to_list (replies s)).*2)) false = Some true ↔ event_answered ev s.
Proof.
  rewrite all_sent_spec. unfold event_answered.
  assert (∀ r, r ∈ env_order env n (filter (λ r, r_TenantID r = w_tenantID w)
    (map_to_list (replies s)).*2) ↔ r_TenantID r = w_tenantID w ∧ ∃ k, replies s !! k = Some r)
    as Hin.
  { intros r. rewrite order_perm, list_elem_of_filter, list_elem_of_fmap. split.
    - intros [? ([k r'] & -> & ?%elem_of_map_to_list)]. eauto.
    - intros [? [k Hk]]. split; [done|]. exists (k, r). by rewrite elem_of_map_to_list. }
  setoid_rewrite Hin. naive_solver.
Qed.

(** The transitions of [advanceEvent] succeed on an event in their source state. *)
Lemma advance_applies ev from to wd wd' r e :
  events (wd_store wd) !! key [w_tenantID w; ev] = Some e → e_Status e = from →
  w_tenantID w ≠ "" → ev ≠ "" → w_owner w ≠ "" →
  ValidateMessageTransition from to = true → from ≠ EventRunning → to ≠ EventRunning →
  observeStorage env (λ ctx clk, TransitionMessage ctx clk (event_transition w ev from to)) wd
    = (wd', r) →
  is_ok r = true ∧ ∃ e', events (wd_store wd') !! key [w_tenantID w; ev] = Some e'
    ∧ e_Status e' = to.
Proof.
  intros He Hf Ht Hev Ho Hval Hnf Hnt (Hst & -> & _)%observe_alone.
  destruct (TransitionMessage_cases (ctx_from (wd_tick wd) (env_ctx env))
    (λ i, env_clk env (wd_tick wd + i)%nat) (event_transition w ev from to) (wd_store wd))
    as [[err Herr]|(s1 & e1 & Hok)].
  - exfalso. revert Herr. unfold TransitionMessage, event_transition. simpl. go_unfold.
    rewrite live. unfold ctx_from, background. simpl.
    unfold validateMessageTransition, ValidateTenant, str_empty. simpl.
    rewrite (proj2 (String.eqb_neq _ _) Ht), (proj2 (String.eqb_neq _ _) Hev),
      (proj2 (String.eqb_neq _ _) Ho). simpl. rewrite Hval. simpl. rewrite He, Hf, String.eqb_refl.
    simpl. unfold validateMessageLease. simpl.
    by rewrite (proj2 (String.eqb_neq _ _) Hnf), (proj2 (String.eqb_neq _ _) Hnt).
  - rewrite Hok in *. split; [done|]. rewrite <- Hst.
    apply TransitionMessage_ok in Hok as (e0 & _ & _ & _ & _ & -> & ->). simpl.
    rewrite lookup_insert_eq. eauto.
Qed.

(** An event counts as replied exactly when its whole reply is out.  When a
    worker that is not interrupted advances a completed event, the event becomes
    [replied] if it has reply segments and all of them are sent, and nothing at all
    changes otherwise. *)
Theorem event_replied_iff_all_sent ev wd e :
  w_tenantID w ≠ "" → ev ≠ "" → w_owner w ≠ "" →
  events (wd_store wd) !! key [w_tenantID w; ev] = Some e →
  e_Status e = EventCompleted ∨ e_Status e = EventReplyPending →
  let s' := wd_store (advanceEvent env w ev wd) in
  (event_answered ev (wd_store wd) → ∃ e',
     events s' !! key [w_tenantID w; ev] = Some e' ∧ e_Status e' = EventReplied)
  ∧ (¬ event_answered ev (wd_store wd) → s' = wd_store wd).
Proof.
  intros Ht Hev Ho He Hst. unfold advanceEvent, str_empty.
  rewrite (proj2 (String.eqb_neq _ _) Hev).
  destruct (observeStorage _ _ wd) as [wd1 r1] eqn:E1.
  assert (∃ cs, r1 = Ok cs) as [cs ->].
  { apply observe_alone in E1 as (_ & -> & _). unfold ListReplyCandidates, ValidateTenant, str_empty.
    rewrite live, (proj2 (String.eqb_neq _ _) Ht). by eexists. }
  apply observe_candidates in E1 as [-> ->]. rewrite alone in *. simpl.
  destruct (all_sent _ _ _) as [[]|] eqn:Ea.
  2-3: split; [|intros _; reflexivity]; intros Hans%(all_sent_candidates _ _ (wd_tick wd)); congruence.
  apply all_sent_candidates in Ea. split; [intros _|by intros []].
  destruct (observeStorage _ _ _) as [wd2 r2] eqn:E2.
  assert (wd_store wd2 = wd_store wd ∧ r2 = Ok e) as [Hs2 ->].
  { apply observe_alone in E2 as (<- & -> & _). unfold GetMessage, ValidateTenant, str_empty.
    go_unfold. rewrite live, (proj2 (String.eqb_neq _ _) Ht), (proj2 (String.eqb_neq _ _) Hev).
    simpl. by rewrite He. }
  rewrite <- Hs2 in He. destruct Hst as [Hst|Hst]; rewrite Hst; simpl.
  - destruct (observeStorage _ _ wd2) as [wd3 r3] eqn:E3.
    apply (advance_applies _ _ _ _ _ _ e) in E3 as (Hok & e3 & He3 & Hs3); try done.
    destruct r3; [|done]. destruct (observeStorage _ _ wd3) as [wd4 r4] eqn:E4.
    by apply (advance_applies _ _ _ _ _ _ e3) in E4 as (_ & ?).
  - destruct (observeStorage _ _ wd2) as [wd3 r3] eqn:E3.
    by apply (advance_applies _ _ _ _ _ _ e) in E3 as (_ & ?).
Qed.

End Facts.

(** * A listing can be stale *)

Section Stale.
Context `{Codec}.

Definition ex_single : ReplyOutbox :=
  mkReplyOutbox "t" "r1" "e1" 0 1 "hi" zero_target "" 0 0 "" None "" "" 0 0.
Definition ex_outbox_ops : list op :=
  [OpCreateSession background ex_clk "t" "s1" NilMap;
   OpRecordMessage background ex_clk ex_message;
   OpTransitionMessage background ex_clk ex_start;
   OpTransitionMessage background (λ _, 1005) ex_complete;
   OpEnqueueReplies background ex_clk [ex_single]].
Definition ex_outbox : Store := run ex_outbox_ops newStore.
Definition ex_outbox_worker : Worker :=
  mkWorker "t" "w1" 10 3 (100 * millisecond) (30 * second) (f64 0).

(** Before the claim, at tick 6, another worker claims the segment for 10 units; the
    clock of this worker is already past that lease. *)
Definition ex_stale_env : Env :=
  mkEnv (λ n, if (n =? 6)%nat then [OpClaimReply background (λ _, 2000) "t" "r1" 0 "w2" 10] else [])
    (λ _ l, l) (λ n, 5000 + Z.of_nat n) background (λ _ _, Ok "m1"%string)
    (λ _ _, Some (DeliveryAccepted, "m1"%string)) (λ _, None).
Definition ex_world : World := mkWorld ex_outbox 0 [].

(** The pass decides between delivering and reconciling by the status it listed,
    not by the status it claimed.  When another worker leases a listed segment and
    loses the lease before this worker claims it, the row is [sending] at the claim,
    and this worker delivers it all the same, although the other worker may already
    have reached the provider. *)
Theorem stale_listing_redelivers :
  ∃ held x,
    replies (run (env_others ex_stale_env 6) (wd_store ex_world)) !! replyKey "t" "r1" 0
      = Some held
    ∧ r_Status held = ReplySending ∧ r_LeaseOwner held = "w2"%string
    ∧ reply_key_of x = replyKey "t" "r1" 0
    ∧ LDeliver x ∈ wd_log (RunOnce ex_stale_env ex_outbox_worker ex_world).1.
Proof.
  do 2 eexists. split; [vm_compute; reflexivity|]. split; [reflexivity|]. split; [reflexivity|].
  split; [|vm_compute; by left]. reflexivity.
Qed.
End Stale.

(** * Witnesses *)

#[local] Instance ex_codec : Codec := {|
  json_value := string;
  json_valid d := negb (str_empty d);
  json_unmarshal d := Some d;
  NormalizeTraceParent v := v
|}.

Definition ex_env : Env :=
  mkEnv (λ _, []) (λ _ l, l) (λ n, 1000 + Z.of_nat n) background
    (λ _ _, Err (mkPError false false (Some ("rate_limited"%string, true))))
    (λ _ _, Some (DeliveryAccepted, "m1"%string)) (λ _, None).
Definition ex_lease : ReplyOutbox :=
  mkReplyOutbox "t" "r1" "e1" 0 1 "hi" zero_target ReplySending 1 1 "w1" (Some 2000) "" "" 1000 1000.
Definition ex_held : World :=
  mkWorld (set_replies {[replyKey "t" "r1" 0 := ex_lease]} ex_outbox) 0 [].

Lemma sending_only_reconciled_witness :
  let x := claim_reply 1007 1008 "w1" 10 (with_pending 1000 ex_single) in
  LDeliver x ∈ wd_log (RunOnce ex_env ex_outbox_worker ex_world).1
  ∧ ∃ c, replies ex_outbox !! reply_key_of x = Some c ∧ r_TenantID c = "t"%string
    ∧ (r_Status c = ReplyPending ∨ r_Status c = ReplyRetryable).
Proof.
  intros x. assert (LDeliver x ∈ wd_log (RunOnce ex_env ex_outbox_worker ex_world).1) as Hx by (vm_compute; by left).
  split; [exact Hx|].
  destruct (sending_only_reconciled ex_env ex_outbox_worker ex_outbox_ops ex_world
    (RunOnce ex_env ex_outbox_worker ex_world).1 (RunOnce ex_env ex_outbox_worker ex_world).2)
    as (new & Hlog & Hdel & _).
  - done.
  - reflexivity.
  - by destruct (RunOnce ex_env ex_outbox_worker ex_world).
  - rewrite Hlog in Hx. exact (proj2 (proj2 (Hdel x Hx))).
Defined.

Lemma delivery_settles_witness :
  replies (wd_store (processClaimed ex_env ex_outbox_worker ex_single ex_lease ex_held).1)
    !! reply_key_of ex_lease
    = Some (settled_reply ex_outbox_worker 1003 ex_lease
        (Err (mkPError false false (Some ("rate_limited"%string, true)))))
  ∧ (3 ≤ 1 → r_Status (settled_reply ex_outbox_worker 1003 ex_lease
        (Err (mkPError false false (Some ("rate_limited"%string, true))))) ≠ ReplyRetryable).
Proof.
  refine (delivery_settles ex_env ex_outbox_worker (λ _, eq_refl) eq_refl ex_single ex_lease
    ex_held _ (processClaimed ex_env ex_outbox_worker ex_single ex_lease ex_held).2
    _ _ _ _ _ _ _ _ _); try (vm_compute; reflexivity); try discriminate.
Defined.

Definition ex_done : World :=
  mkWorld (set_replies {[replyKey "t" "r1" 0 :=
    apply_reply 1003 1003 (settle_transition ex_outbox_worker ex_lease ReplySent "m1" "") ex_lease]}
    ex_outbox) 0 [].

Lemma event_replied_iff_all_sent_witness :
  ∃ e', events (wd_store (advanceEvent ex_env ex_outbox_worker "e1" ex_done))
          !! key ["t"%string; "e1"%string] = Some e' ∧ e_Status e' = EventReplied.
Proof.
  refine (proj1 (event_replied_iff_all_sent ex_env ex_outbox_worker (λ _, eq_refl) eq_refl
    (λ _ _, reflexivity _) "e1" ex_done
    (mkMessageEvent "t" "e1" "s1" "b" "m1" "" 2 EventCompleted 2 "" None "" 0 zero_target
       1001 1005) _ _ _ _ _) _); try discriminate; try (vm_compute; reflexivity).
  - by left.
  - split.
    + exists (replyKey "t" "r1" 0). eexists. split; [apply lookup_singleton_eq|]. by split.
    + intros k r Hr _ _. unfold ex_done in Hr. cbn [wd_store replies set_replies] in Hr. apply lookup_singleton_Some in Hr as [_ <-]. reflexivity.
Defined.
