(* ===== verification/OutboxLoop.v ===== *)
(** The life of the poll loop of the outbox worker, [trpcservice/runtime/outbox/worker.go]:
    [Run], [Start], [runLoop] and [Close] for any number of callers of one worker.

    A pass of the loop is [Outbox.RunOnce]; here only its error matters.  A run is known by
    its number: the same number stands for the context that [beginRun] derives and for the
    channel it makes.  Every critical section of [w.mu], every cancellation and every
    closing of a channel is a turn of its own. *)
From S2P Require Import Prelude GoStrings RuntimeStore Outbox.
Local Open Scope Z_scope.

(** The deferred function of [runLoop] is three turns: it takes the fields, cancels, and
    closes the channel. *)
Inductive loop_phase :=
| Polling
| Selecting
| Ending (ret : oerror)
| Taken (ret : oerror) (cancel done : option nat)
| Canceling (ret : oerror) (done : option nat)
| Over (ret : oerror).

Record loop := mkLoop { l_phase : loop_phase; l_canceled : bool; l_done : bool }.

Inductive closer :=
| CloseCalled
| CloseCancels (cancel : nat) (done : option nat)
| CloseWaits (done : option nat)
| CloseReturned.

Record life := mkLife {
  runCancel : option nat; runDone : option nat; loops : list loop; closers : list closer }.

Definition update_loop (g : nat) (f : loop → loop) (s : life) : life :=
  mkLife (runCancel s) (runDone s) (alter f g (loops s)) (closers s).
Definition set_phase (ph : loop_phase) (l : loop) : loop := mkLoop ph (l_canceled l) (l_done l).
Definition mark_canceled (l : loop) : loop := mkLoop (l_phase l) true (l_done l).
Definition mark_done (l : loop) : loop := mkLoop (l_phase l) (l_canceled l) true.
Definition set_closer (i : nat) (c : closer) (s : life) : life :=
  mkLife (runCancel s) (runDone s) (loops s) (<[i := c]> (closers s)).

(** [Run] and [Start] up to the loop. *)
Definition Start (ctx : context) (s : life) : life * option oerror :=
  match beginRun (bool_decide (is_Some (runCancel s))) ctx with
  | (_, Some e) => (s, Some e)
  | (_, None) =>
      let g := length (loops s) in
      (mkLife (Some g) (Some g) (loops s ++ [mkLoop Polling false false]) (closers s), None)
  end.

(** [errors.Is(err, context.Canceled) || errors.Is(err, context.DeadlineExceeded)]. *)
Definition ended_by_context (e : oerror) : bool :=
  match e with
  | OContext _ | OStore (ErrContext _) => true
  | _ => false
  end.

(** What a loop meets: the error of its pass, a tick, or the end of its context. *)
Inductive stimulus := Passed (err : option oerror) | Ticked | ContextDone (why : ctx_error).

(** [None] is blocked, [Some None] is the panic of closing a closed channel. *)
Definition runLoop_turn (g : nat) (st : stimulus) (s : life) : option (option life) :=
  match loops s !! g with
  | None => None
  | Some l =>
      match l_phase l, st with
      | Polling, Passed err =>
          Some (Some (update_loop g (set_phase
            (match err with
             | Some e => if ended_by_context e then Selecting else Ending e
             | None => Selecting
             end)) s))
      | Selecting, Ticked => Some (Some (update_loop g (set_phase Polling) s))
      | Selecting, ContextDone why =>
          if l_canceled l then Some (Some (update_loop g (set_phase (Ending (OContext why))) s)) else None
      | Ending ret, _ =>
          let s' := update_loop g (set_phase (Taken ret (runCancel s) (runDone s))) s in
          Some (Some (mkLife None None (loops s') (closers s')))
      | Taken ret cancel done, _ =>
          let s' := match cancel with Some c => update_loop c mark_canceled s | None => s end in
          Some (Some (update_loop g (set_phase (Canceling ret done)) s'))
      | Canceling ret done, _ =>
          match done with
          | None => Some (Some (update_loop g (set_phase (Over ret)) s))
          | Some d =>
              if default true (l_done <$> loops s !! d) then Some None
              else Some (Some (update_loop g (set_phase (Over ret)) (update_loop d mark_done s)))
          end
      | _, _ => None
      end
  end.

(** [Close] of a worker that is not nil. *)
Definition Close_turn (i : nat) (s : life) : option life :=
  match closers s !! i with
  | Some CloseCalled =>
      Some (set_closer i (match runCancel s with
                          | None => CloseReturned
                          | Some c => CloseCancels c (runDone s)
                          end) s)
  | Some (CloseCancels c done) => Some (set_closer i (CloseWaits done) (update_loop c mark_canceled s))
  | Some (CloseWaits (Some d)) =>
      if default false (l_done <$> loops s !! d) then Some (set_closer i CloseReturned s) else None
  | _ => None
  end.

Inductive life_step : life → life → Prop :=
| life_start ctx s : life_step s (Start ctx s).1
| life_loop g st s s' : runLoop_turn g st s = Some (Some s') → life_step s s'
(* the context of the caller ends *)
| life_parent g s : life_step s (update_loop g mark_canceled s)
| life_close s : life_step s (mkLife (runCancel s) (runDone s) (loops s) (closers s ++ [CloseCalled]))
| life_close_turn i s s' : Close_turn i s = Some s' → life_step s s'.

Definition new_life : life := mkLife None None [] [].
Definition life_reachable : life → Prop := rtc life_step new_life.

(** A loop whose run is still the worker's. *)
Definition active (ph : loop_phase) : bool :=
  match ph with Polling | Selecting | Ending _ => true | _ => false end.

(** How many turns a loop needs to its end when it meets no further tick. *)
Definition turns_left (ph : loop_phase) : nat :=
  match ph with
  | Polling => 5 | Selecting => 4 | Ending _ => 3 | Taken _ _ _ => 2 | Canceling _ _ => 1 | Over _ => 0
  end.

(** * The invariant *)

(** The fields that the deferred function took are those of its own run. *)
Definition own_fields (g : nat) (ph : loop_phase) : Prop :=
  match ph with
  | Taken _ c d => c = Some g ∧ d = Some g
  | Canceling _ d => d = Some g
  | _ => True
  end.
Definition is_over (ph : loop_phase) : bool := match ph with Over _ => true | _ => false end.

Definition loop_ok (run : option nat) (g : nat) (l : loop) : Prop :=
  (active (l_phase l) = true ↔ run = Some g) ∧ l_done l = is_over (l_phase l) ∧ own_fields g (l_phase l).
Definition closer_ok (ls : list loop) (c : closer) : Prop :=
  match c with
  | CloseCancels g d => d = Some g ∧ is_Some (ls !! g)
  | CloseWaits d => ∃ g l, d = Some g ∧ ls !! g = Some l ∧ l_canceled l = true
  | _ => True
  end.

Record life_ok (s : life) : Prop := {
  life_fields : runDone s = runCancel s;
  life_run g : runCancel s = Some g → is_Some (loops s !! g);
  life_loops g l : loops s !! g = Some l → loop_ok (runCancel s) g l;
  life_closers i c : closers s !! i = Some c → closer_ok (loops s) c }.

Lemma update_loop_lookup g f s h :
  loops (update_loop g f s) !! h = if decide (g = h) then f <$> loops s !! g else loops s !! h.
Proof. cbn. destruct (decide (g = h)) as [<-|]; [apply list_lookup_alter_eq|by apply list_lookup_alter_ne]. Qed.

Lemma closer_ok_mono ls ls' c :
  (∀ g l, ls !! g = Some l → ∃ l', ls' !! g = Some l' ∧ (l_canceled l = true → l_canceled l' = true)) →
  closer_ok ls c → closer_ok ls' c.
Proof.
  intros Hls. destruct c as [|g d|d|]; try done; simpl.
  - intros [-> [l Hl]]. destruct (Hls _ _ Hl) as (l' & Hl' & _). by split; [|exists l'].
  - intros (g & l & -> & Hl & Hc). destruct (Hls _ _ Hl) as (l' & Hl' & Hc'). exists g, l'. auto.
Qed.

(** One loop changes and is still right. *)
Lemma life_ok_update g f s :
  life_ok s →
  (∀ l, loops s !! g = Some l →
     loop_ok (runCancel s) g (f l) ∧ (l_canceled l = true → l_canceled (f l) = true)) →
  life_ok (update_loop g f s).
Proof.
  intros [Hf Hr Hl Hc] Hg. split.
  - done.
  - intros h Hh. destruct (Hr h Hh) as [l Hh']. rewrite update_loop_lookup.
    destruct (decide (g = h)) as [<-|]; [rewrite Hh'; by eexists|by exists l].
  - intros h l. rewrite update_loop_lookup. destruct (decide (g = h)) as [<-|]; [|apply Hl].
    intros (l0 & Hl0 & ->)%fmap_Some. by apply Hg.
  - intros i c Hi. eapply closer_ok_mono; [|by eapply Hc]. intros h l Hh. rewrite update_loop_lookup.
    destruct (decide (g = h)) as [<-|]; [|by exists l]. rewrite Hh. exists (f l). split; [done|]. by apply Hg.
Qed.

Lemma life_ok_cancel g s : life_ok s → life_ok (update_loop g mark_canceled s).
Proof. intros Hok. apply life_ok_update; [done|]. intros l Hl. split; [exact (life_loops _ Hok _ _ Hl)|done]. Qed.

(** A loop goes from one phase of its run to another. *)
Lemma life_ok_phase g l ph s :
  life_ok s → loops s !! g = Some l → active ph = active (l_phase l) →
  is_over ph = is_over (l_phase l) → own_fields g ph → life_ok (update_loop g (set_phase ph) s).
Proof.
  intros Hok Hl Ha Ho Hown. apply life_ok_update; [done|]. intros l' Hl'. assert (l' = l) as -> by congruence.
  split; [|done]. destruct (life_loops _ Hok _ _ Hl) as (H1 & H2 & _). unfold loop_ok. cbn. by rewrite Ha, Ho.
Qed.

Lemma life_ok_start ctx s : life_ok s → life_ok (Start ctx s).1.
Proof.
  intros Hok. unfold Start. destruct (beginRun _ ctx) as [b [e|]] eqn:Hb; [done|]. cbn.
  assert (runCancel s = None) as Hnone.
  { destruct (runCancel s); [|done]. unfold beginRun in Hb. by repeat case_match. }
  destruct Hok as [Hf Hr Hl Hc]. split; cbn.
  - done.
  - intros g [= <-]. rewrite list_lookup_middle by done. by eexists.
  - intros g l [Hg|[Hg Hl']]%lookup_app_Some.
    + destruct (Hl _ _ Hg) as (Ha & H2 & H3). split; [|done]. rewrite Ha, Hnone. split; [done|].
      intros [= Heq]. apply lookup_lt_Some in Hg. lia.
    + apply list_lookup_singleton_Some in Hl' as [Hz <-]. split; [|done]. cbn. split; [|done]. intros _. f_equal. lia.
  - intros i c Hi. eapply closer_ok_mono; [|by eapply Hc]. intros g l Hg. exists l. split; [|done].
    by apply lookup_app_l_Some.
Qed.

(** The deferred function takes the fields. *)
Lemma life_ok_take g l ret s :
  life_ok s → loops s !! g = Some l → l_phase l = Ending ret →
  let s' := update_loop g (set_phase (Taken ret (runCancel s) (runDone s))) s in
  life_ok (mkLife None None (loops s') (closers s')).
Proof.
  intros [Hf Hr Hl Hc] Hg Hph s'. destruct (Hl _ _ Hg) as (Ha & Hd & _). rewrite Hph in Ha, Hd.
  assert (runCancel s = Some g) as Hrun by (by apply Ha).
  split; cbn [runCancel runDone loops closers].
  - done.
  - done.
  - intros h l'. subst s'. rewrite update_loop_lookup. destruct (decide (g = h)) as [<-|Hne].
    + rewrite Hg. intros [= <-]. split; [done|]. split; [done|]. cbn. by rewrite Hf, Hrun.
    + intros Hh. destruct (Hl _ _ Hh) as (Ha' & H2 & H3). split; [|done]. rewrite Ha', Hrun. split; [congruence|done].
  - intros i c Hi. eapply closer_ok_mono; [|by eapply Hc]. intros h l' Hh. subst s'. rewrite update_loop_lookup.
    destruct (decide (g = h)) as [<-|]; [|by exists l']. rewrite Hh. by eexists.
Qed.

Lemma runLoop_turn_ok g st s :
  life_ok s → match runLoop_turn g st s with Some (Some s') => life_ok s' | Some None => False | None => True end.
Proof.
  intros Hok. unfold runLoop_turn. destruct (loops s !! g) as [l|] eqn:Hg; [|done].
  destruct (life_loops _ Hok _ _ Hg) as (Ha & Hd & Hown). destruct (l_phase l) as [| |ret|ret c d|ret d|ret] eqn:Hph.
  - destruct st as [err| |]; [|done..]. eapply life_ok_phase; [done..| | |]; rewrite ?Hph; by repeat case_match.
  - destruct st as [| |why]; [done| |destruct (l_canceled l); [|done]]; eapply life_ok_phase; rewrite ?Hph; done.
  - by eapply life_ok_take.
  - destruct Hown as [-> ->]. set (s1 := update_loop g mark_canceled s).
    assert (loops s1 !! g = Some (mark_canceled l)) as Hg1 by (subst s1; by rewrite update_loop_lookup, decide_True, Hg).
    eapply life_ok_phase; [by apply life_ok_cancel|exact Hg1|..]; cbn; by rewrite ?Hph.
  - cbn in Hown. subst d. rewrite Hg. cbn. rewrite Hd. cbn.
    assert (update_loop g (set_phase (Over ret)) (update_loop g mark_done s)
      = update_loop g (λ l, mkLoop (Over ret) (l_canceled l) true) s) as ->.
    { unfold update_loop. cbn. f_equal. apply list_eq. intros h. destruct (decide (g = h)) as [<-|].
      - rewrite !list_lookup_alter_eq. by destruct (loops s !! g).
      - by rewrite !list_lookup_alter_ne. }
    apply life_ok_update; [done|]. intros l' Hl'. assert (l' = l) as -> by congruence. split; [|done]. by split.
  - by destruct st.
Qed.

Lemma life_ok_closer i c s : life_ok s → closer_ok (loops s) c → life_ok (set_closer i c s).
Proof.
  intros [Hf Hr Hl Hc] Hok. split; try done. intros j x Hj. cbn in Hj.
  apply list_lookup_insert_Some in Hj as [(_ & <- & _)|[_ Hj]]; [done|by eapply Hc].
Qed.

Lemma Close_turn_ok i s s' : life_ok s → Close_turn i s = Some s' → life_ok s'.
Proof.
  intros Hok. unfold Close_turn. destruct (closers s !! i) as [[|g d|[d|]|]|] eqn:Hi; try done.
  - intros [= <-]. apply life_ok_closer; [done|]. destruct (runCancel s) as [g|] eqn:Hr; [|done]. cbn.
    rewrite (life_fields _ Hok), Hr. split; [done|by apply (life_run _ Hok)].
  - intros [= <-]. destruct (life_closers _ Hok _ _ Hi) as [-> [l Hl]]. apply life_ok_closer; [by apply life_ok_cancel|].
    exists g, (mark_canceled l). by rewrite update_loop_lookup, decide_True, Hl.
  - destruct (default _ _); [|done]. intros [= <-]. by apply life_ok_closer.
Qed.

Lemma life_step_ok s s' : life_step s s' → life_ok s → life_ok s'.
Proof.
  intros [ctx s0|g st s0 s1 Ht|g s0|s0|i s0 s1 Ht] Hok.
  - by apply life_ok_start.
  - pose proof (runLoop_turn_ok g st s0 Hok) as H. by rewrite Ht in H.
  - by apply life_ok_cancel.
  - destruct Hok as [Hf Hr Hl Hc]. split; try done. cbn. intros i c [Hi|[_ Hi]]%lookup_app_Some; [by eapply Hc|].
    by apply list_lookup_singleton_Some in Hi as [_ <-].
  - by eapply Close_turn_ok.
Qed.

Lemma life_reachable_ok s : life_reachable s → life_ok s.
Proof.
  assert (life_ok new_life) as Hnew by (split; cbn; intros *; rewrite ?lookup_nil; done).
  unfold life_reachable. intros Hsteps. revert Hnew. induction Hsteps; eauto using life_step_ok.
Qed.

(** A turn that is not a tick brings a loop nearer to its end. *)
Lemma runLoop_turn_left g st s s' l l' :
  loops s !! g = Some l → runLoop_turn g st s = Some (Some s') → loops s' !! g = Some l' → st ≠ Ticked →
  (turns_left (l_phase l') < turns_left (l_phase l))%nat.
Proof.
  intros Hg. unfold runLoop_turn. rewrite Hg. intros Ht Hl' Htick.
  assert (∀ f s1, s' = update_loop g f s1 → ∃ l1, l' = f l1) as Hf.
  { intros f s1 ->. rewrite update_loop_lookup, decide_True in Hl' by done. apply fmap_Some in Hl' as (l1 & _ & ->). eauto. }
  destruct (l_phase l) as [| |ret|ret c d|ret d|ret]; [destruct st as [err| |]..|]; try done;
    repeat (case_match; try done); simplify_eq/=;
    try (edestruct Hf as [l1 ->]; [reflexivity|]; cbn; repeat case_match; cbn; lia).
  all: rewrite list_lookup_alter_eq, Hg in Hl'; injection Hl' as <-; cbn; lia.
Qed.

Lemma runLoop_proceeds g l s :
  life_ok s → loops s !! g = Some l → l_canceled l = true → is_over (l_phase l) = false →
  ∃ st s' l', st ≠ Ticked ∧ runLoop_turn g st s = Some (Some s') ∧ loops s' !! g = Some l'.
Proof.
  intros Hok Hg Hc Ho.
  assert (∃ st, st ≠ Ticked ∧ is_Some (runLoop_turn g st s)) as (st & Hst & [o Ht]).
  { unfold runLoop_turn. rewrite Hg, Hc. destruct (l_phase l) as [| |ret|ret c d|ret d|ret]; try done.
    - exists (Passed None). by split; [|eexists].
    - exists (ContextDone Canceled). by split; [|eexists].
    - exists (Passed None). by split; [|eexists].
    - exists (Passed None). by split; [|eexists].
    - exists (Passed None). split; [done|]. destruct d; [case_match|]; by eexists. }
  pose proof (runLoop_turn_ok g st s Hok) as Hok'. rewrite Ht in Hok'. destruct o as [s'|]; [|done].
  assert (is_Some (loops s' !! g)) as [l' Hl'].
  { apply lookup_lt_is_Some_2. unfold runLoop_turn in Ht. rewrite Hg in Ht. apply lookup_lt_Some in Hg.
    repeat case_match; simplify_eq/=; by rewrite ?length_alter. }
  by exists st, s', l'.
Qed.

(** The worker has one poll loop at a time: in every reachable state at most one run owns
    the worker, [Start] and [Run] are refused exactly while one does, and the channel of no
    run is closed twice.  A [Close] that waits has canceled the run it waits for and
    returns once that run is over, and not before.  A canceled loop can always go on, and
    each of its turns other than a tick brings it nearer to its end, at most five turns
    away. *)
Theorem poll_loop_owned s :
  life_reachable s →
  (∀ g g' l l', loops s !! g = Some l → loops s !! g' = Some l' →
     active (l_phase l) = true → active (l_phase l') = true → g = g')
  ∧ (∀ c : nat → option ctx_error, c 0%nat = None →
      (Start (Some c) s).2 = Some OAlreadyRunning ↔ ∃ g l, loops s !! g = Some l ∧ active (l_phase l) = true)
  ∧ (∀ g st, runLoop_turn g st s ≠ Some None)
  ∧ (∀ i d, closers s !! i = Some (CloseWaits d) →
      ∃ g l, d = Some g ∧ loops s !! g = Some l ∧ l_canceled l = true
        ∧ (is_Some (Close_turn i s) ↔ is_over (l_phase l) = true))
  ∧ (∀ g l, loops s !! g = Some l → l_canceled l = true → is_over (l_phase l) = false →
      ∃ st s' l', st ≠ Ticked ∧ runLoop_turn g st s = Some (Some s') ∧ loops s' !! g = Some l')
  ∧ (∀ g st s' l l', loops s !! g = Some l → runLoop_turn g st s = Some (Some s') → loops s' !! g = Some l' →
      st ≠ Ticked → (turns_left (l_phase l') < turns_left (l_phase l) ≤ 5)%nat).
Proof.
  intros Hok%life_reachable_ok. split_and!.
  - intros g g' l l' Hg Hg' Ha Ha'. apply (life_loops _ Hok _ _ Hg) in Ha. apply (life_loops _ Hok _ _ Hg') in Ha'.
    congruence.
  - intros c Hc. unfold Start, beginRun. rewrite Hc. destruct (runCancel s) as [g|] eqn:Hr; cbn.
    + split; [|done]. intros _. destruct (life_run _ Hok _ Hr) as [l Hl]. exists g, l. split; [done|].
      by apply (life_loops _ Hok _ _ Hl).
    + split; [done|]. intros (g & l & Hl & Ha). apply (life_loops _ Hok _ _ Hl) in Ha. congruence.
  - intros g st Ht. pose proof (runLoop_turn_ok g st s Hok) as H. by rewrite Ht in H.
  - intros i d Hi. destruct (life_closers _ Hok _ _ Hi) as (g & l & -> & Hl & Hc). exists g, l. split_and!; try done.
    destruct (life_loops _ Hok _ _ Hl) as (_ & Hd & _). unfold Close_turn. rewrite Hi, Hl. cbn. rewrite Hd.
    destruct (is_over (l_phase l)); split; try done; by eexists || by intros [].
  - intros g l. by apply runLoop_proceeds.
  - intros g st s' l l' Hg Ht Hl' Hst. pose proof (runLoop_turn_left _ _ _ _ _ _ Hg Ht Hl' Hst). split; [done|].
    destruct (l_phase l); cbn; lia.
Qed.

(** A loop is started, closed from outside and joined. *)
Definition ex_joined : life :=
  let s1 := (Start background new_life).1 in
  let s2 := mkLife (runCancel s1) (runDone s1) (loops s1) (closers s1 ++ [CloseCalled]) in
  let turn s g st := default s (default None (runLoop_turn g st s)) in
  let close s := default s (Close_turn 0 s) in
  let s3 := close (close s2) in
  close (foldl (λ s st, turn s 0%nat st) s3
    [Passed (Some (OStore (ErrContext Canceled))); ContextDone Canceled; Ticked; Ticked; Ticked]).
Example joined_run :
  closers ex_joined = [CloseReturned] ∧ runCancel ex_joined = None
  ∧ map l_phase (loops ex_joined) = [Over (OContext Canceled)] ∧ (Start background ex_joined).2 = None.
Proof. vm_compute. auto. Qed.
