(* ===== verification/Materializer.v ===== *)
(** Reply materialization, [trpcservice/runtime/outbox/materializer.go]: a completed
    reply is split into segments of a bounded number of runes, which are stored as one
    batch of the runtime store.  The store is the in-memory one, which has both batch
    interfaces, so the type assertions of the source succeed; spans and metrics carry
    no state.  [ambient] is the traceparent of the operation's own span. *)
From Stdlib Require Import Ascii String.
From S2P Require Import Prelude GoStrings RuntimeStore StoreTheorems.
Local Open Scope Z_scope.

Definition defaultSegmentRunes : Z := 512.

Record Materializer := mkMaterializer { m_segmentSize : Z }.

Record MaterializerConfig := mkMaterializerConfig {
  mc_Store : bool;
  mc_SegmentSize : Z
}.

Record MaterializeInput := mkMaterializeInput {
  in_TenantID : string;
  in_EventID : string;
  in_ReplyID : string;
  in_RequestID : string;
  in_TraceID : string;
  in_TraceParent : string;
  in_Payload : string;
  in_ReplyTarget : ReplyTarget
}.

(** [ErrInvalid]; [ErrMaterialization] alone; joined with a stable class. *)
Inductive merror := MInvalid | MPlain | MJoin (stable : error).
#[export] Instance merror_eq_dec : EqDecision merror.
Proof. solve_decision. Defined.

Definition NewMaterializer (config : MaterializerConfig) : result merror Materializer :=
  if negb (mc_Store config) then Err MInvalid
  else Ok (mkMaterializer (if mc_SegmentSize config <=? 0 then defaultSegmentRunes
                           else mc_SegmentSize config)).

(** The loop over [start]: the runes from [start] on, [size] at a time.  Each round
    consumes a rune, so their number bounds the rounds. *)
Fixpoint split_loop (fuel : nat) (size : Z) (rest : list Z) : list string :=
  match fuel, rest with
  | S fuel', _ :: _ =>
      string_of_runes (take (Z.to_nat size) rest)
        :: split_loop fuel' size (drop (Z.to_nat size) rest)
  | _, _ => []
  end.

Definition splitRunes (value : string) (size : Z) : list string :=
  if str_empty (trim_space value) then []
  else split_loop (length (runes value)) size (runes value).

Definition redactedMaterializationError (e : error) : merror :=
  match e with
  | ErrContext _ | ErrConflict | ErrDuplicate | ErrInvalid | ErrNotFound | ErrStorage => MJoin e
  | ErrIllegalTransition => MPlain
  end.

(** The rows of the batch. *)
Definition segment_rows (input : MaterializeInput) (segments : list string) : list ReplyOutbox :=
  imap (λ i payload, mkReplyOutbox (in_TenantID input) (in_ReplyID input) (in_EventID input)
    (Z.of_nat i) (Z.of_nat (length segments)) payload (in_ReplyTarget input)
    "" 0 0 "" None "" "" zero_time zero_time) segments.

Definition Materialize `{Codec} (m : option Materializer) (ctx : context) (clk : clock)
    (ambient : string) (input : MaterializeInput) : act Store merror Z := λ s,
  match m with
  | None => (s, Err MInvalid)
  | Some m =>
    if opt_is_nil ctx || negb (is_ok (ValidateTenant (in_TenantID input)))
       || str_empty (in_EventID input) || str_empty (in_ReplyID input)
       || negb (is_ok (ValidateReplyTarget (in_ReplyTarget input)))
    then (s, Err MInvalid)
    else
      let segments := splitRunes (in_Payload input) (m_segmentSize m) in
      if (Z.of_nat (length segments) =? 0) then (s, Err MInvalid)
      else
        let rows := segment_rows input segments in
        let '(s', r) :=
          if negb (str_empty (in_RequestID input)) then
            let traceParent := if str_empty (in_TraceParent input) then ambient
                               else NormalizeTraceParent (in_TraceParent input) in
            EnqueueRepliesWithCorrelation ctx clk (mkReplyCorrelation (in_TenantID input)
              (in_EventID input) (in_RequestID input) (in_TraceID input) traceParent) rows s
          else EnqueueReplies ctx clk rows s in
        match r with
        | Err e => (s', Err (redactedMaterializationError e))
        | Ok _ => (s', Ok (Z.of_nat (length segments)))
        end
  end.

(** * Segmentation *)

Lemma runes_scalar s : Forall (λ r, scalar r = true) (runes s).
Proof.
  unfold runes. pose proof (bytes_range s) as Hr. revert Hr. generalize (bytes s) as l.
  induction l as [|l Hl IH] using chunks_ind; [constructor|]. intros Hr.
  rewrite chunks_step by done. constructor; [by apply head_rune_scalar|].
  apply IH. by apply Forall_drop.
Qed.

(** The loop cuts the runes into pieces of [size], the last one possibly shorter. *)
Lemma split_loop_spec size : 0 < size → ∀ fuel rest,
  (length rest ≤ fuel)%nat → Forall (λ r, scalar r = true) rest →
  String.concat "" (split_loop fuel size rest) = string_of_runes rest
  ∧ Forall (λ seg, 1 ≤ rune_count seg ≤ size) (split_loop fuel size rest)
  ∧ Z.of_nat (length (split_loop fuel size rest))
      = (Z.of_nat (length rest) + size - 1) / size.
Proof.
  intros Hsize.
  assert ((0 + size - 1) / size = 0) as Hzero by (apply Z.div_small; lia).
  induction fuel as [|fuel IH]; intros rest Hlen Hall.
  { destruct rest; simpl in *; [|lia]. by split_and!. }
  destruct rest as [|x rest]; [by split_and!|].
  set (l := x :: rest) in *. assert (1 ≤ Z.of_nat (length l)) by (unfold l; simpl; lia).
  change (split_loop (S fuel) size l) with (string_of_runes (take (Z.to_nat size) l)
    :: split_loop fuel size (drop (Z.to_nat size) l)).
  destruct (IH (drop (Z.to_nat size) l)) as (Hc & Hr & Hn).
  { rewrite length_drop. lia. }
  { by apply Forall_drop. }
  pose proof (length_take l (Z.to_nat size)) as Htake. rewrite length_drop in Hn. split_and!.
  - rewrite <- (take_drop (Z.to_nat size) l) at 3. rewrite string_of_runes_app, <- Hc.
    simpl. destruct (split_loop fuel size _); simpl; [|done].
    by rewrite string_app_nil_r.
  - constructor; [|done]. unfold rune_count. rewrite runes_of_string_of_runes; [lia|].
    apply forallb_forall. intros r Hr'%list_elem_of_In. rewrite Forall_forall in Hall.
    apply Hall. eapply elem_of_sublist; [exact Hr'|apply sublist_take].
  - rewrite length_cons, Nat2Z.inj_succ, Hn, Nat2Z.inj_sub_max.
    destruct (Z.le_gt_cases (Z.of_nat (length l)) size).
    + rewrite Z.max_l, Hzero by lia.
      apply Z.div_unique with (r := Z.of_nat (length l) - 1); simpl length in *; lia.
    + rewrite Z.max_r, Z2Nat.id by lia.
      replace (Z.of_nat (length l) + size - 1)
        with (Z.of_nat (length l) - size + size - 1 + 1 * size) by lia.
      rewrite Z.div_add by lia. lia.
Qed.

Lemma splitRunes_spec value size :
  0 < size → splitRunes value size ≠ [] →
  String.concat "" (splitRunes value size) = string_of_runes (runes value)
  ∧ Forall (λ seg, 1 ≤ rune_count seg ≤ size) (splitRunes value size)
  ∧ Z.of_nat (length (splitRunes value size)) = (rune_count value + size - 1) / size.
Proof.
  unfold splitRunes. intros Hsize. destruct (str_empty _); [done|]. intros _.
  apply split_loop_spec; [done|done|apply runes_scalar].
Qed.

Lemma segment_rows_lookup input segs (i : nat) r :
  segment_rows input segs !! i = Some r →
  r_SegmentIndex r = Z.of_nat i ∧ segs !! i = Some (r_Payload r)
  ∧ r_TenantID r = in_TenantID input ∧ r_ReplyID r = in_ReplyID input
  ∧ r_SegmentCount r = Z.of_nat (length segs).
Proof.
  unfold segment_rows. rewrite list_lookup_imap. destruct (segs !! i); [|done].
  simpl. intros. by simplify_eq.
Qed.

Section Roundtrip.
Context `{Codec}.

Lemma Materialize_ok m ctx clk amb input s s' n :
  Materialize (Some m) ctx clk amb input s = (s', Ok n) →
  ∃ c res, is_Some ctx ∧ in_TenantID input ≠ "" ∧ in_ReplyID input ≠ ""
    ∧ splitRunes (in_Payload input) (m_segmentSize m) ≠ []
    ∧ n = Z.of_nat (length (splitRunes (in_Payload input) (m_segmentSize m)))
    ∧ enqueueReplies ctx clk c
        (segment_rows input (splitRunes (in_Payload input) (m_segmentSize m))) s = (s', Ok res).
Proof.
  unfold Materialize. destruct (_ || _ || _ || _ || _) eqn:Hg; [done|].
  unfold ValidateTenant, str_empty in Hg. destruct (Z.of_nat _ =? 0) eqn:Hz; [done|].
  assert (splitRunes (in_Payload input) (m_segmentSize m) ≠ []) as Hne.
  { intros Hnil. by rewrite Hnil in Hz. }
  assert (in_TenantID input ≠ "" ∧ in_ReplyID input ≠ "" ∧ is_Some ctx) as (? & ? & ?).
  { bool_prop. destruct ctx; [|done]. split_and!; [|done|eauto].
    by destruct (String.eqb_spec (in_TenantID input) ""). }
  destruct (negb (str_empty (in_RequestID input))).
  - unfold EnqueueRepliesWithCorrelation, ensure, lift. unfold mbind at 1, act_bind.
    destruct (guard_ok _ _); [|done].
    destruct (enqueueReplies _ _ _ _ _) as [s1 [res|e]] eqn:E; [|done].
    intros. simplify_eq. eauto 10.
  - unfold EnqueueReplies. destruct (enqueueReplies _ _ _ _ _) as [s1 [res|e]] eqn:E; [|done].
    intros. simplify_eq. eauto 10.
Qed.

(** C8: materialization loses nothing.  When [Materialize] reports [n] segments, [n]
    is the rune count divided by the segment size, rounded up; the segments 0 .. n-1
    can be read back, each has between one and [size] runes, and joined in order they
    are the reply, exactly so for well-formed UTF-8. *)
Theorem materialize_roundtrip config m ctx clk amb input s s' n :
  NewMaterializer config = Ok m →
  Materialize (Some m) ctx clk amb input s = (s', Ok n) →
  n = (rune_count (in_Payload input) + m_segmentSize m - 1) / m_segmentSize m
  ∧ ∃ segs, Z.of_nat (length segs) = n
    ∧ (∀ (i : nat) seg, segs !! i = Some seg →
         1 ≤ rune_count seg ≤ m_segmentSize m
         ∧ ∃ r, GetReply background (in_TenantID input) (in_ReplyID input) (Z.of_nat i) s'
                  = (s', Ok r) ∧ r_Payload r = seg ∧ r_SegmentCount r = n)
    ∧ String.concat "" segs = string_of_runes (runes (in_Payload input))
    ∧ (valid_utf8 (in_Payload input) = true → String.concat "" segs = in_Payload input).
Proof.
  intros Hnew Hm. apply Materialize_ok in Hm as (c & res & _ & Ht & Hid & Hne & -> & He).
  assert (0 < m_segmentSize m) as Hsize.
  { unfold NewMaterializer, defaultSegmentRunes in Hnew. go_step; bool_prop; lia. }
  set (segs := splitRunes (in_Payload input) (m_segmentSize m)) in *.
  destruct (splitRunes_spec _ _ Hsize Hne) as (Hc & Hr & Hn). fold segs in Hc, Hr, Hn.
  apply enqueueReplies_atomic in He as (first & Hf & Hcount & Hstored & _).
  split; [done|]. exists segs. split; [done|]. split; [|split; [done|]].
  2: { intros Hv. by rewrite Hc, string_of_runes_of_string. }
  intros i seg Hi. rewrite Forall_lookup in Hr. split; [by eapply Hr|].
  assert (∃ v, segment_rows input segs !! 0%nat = Some v ∧ first = v) as (v0 & Hv0 & ->).
  { rewrite head_lookup in Hf. eauto. }
  apply segment_rows_lookup in Hv0 as (_ & _ & Htn & Hrid & Hcnt).
  destruct (Hstored (Z.of_nat i)) as (v & r & Hv & Hvi & Hget & Hsame).
  { apply lookup_lt_Some in Hi. lia. }
  exists r. apply list_elem_of_lookup in Hv as [j Hj].
  apply segment_rows_lookup in Hj as (Hji & Hjp & _ & _ & Hjc).
  assert (j = i) as -> by lia. simplify_eq. unfold same_segment in Hsame. bool_prop.
  split_and!; [|congruence|congruence].
  rewrite Htn, Hrid in Hget. unfold GetReply. go_unfold. unfold ValidateTenant, str_empty.
  rewrite (proj2 (String.eqb_neq _ _) Ht), (proj2 (String.eqb_neq _ _) Hid). simpl.
  rewrite (proj2 (Z.ltb_ge _ _)) by lia. simpl. by rewrite Hget.
Qed.
End Roundtrip.

(** * Witness *)

#[local] Instance ex_codec : Codec := {|
  json_value := string;
  json_valid d := negb (str_empty d);
  json_unmarshal d := Some d;
  NormalizeTraceParent v := v
|}.

Definition ex_reply : MaterializeInput :=
  mkMaterializeInput "t" "e1" "e1" "q1" "" "" "hello" zero_target.
Definition ex_materialized (amb : string) (s : Store) : Store * result merror Z :=
  Materialize (Some (mkMaterializer 2)) background ex_clk amb ex_reply s.

Lemma materialize_roundtrip_witness :
  3 = (rune_count "hello" + 2 - 1) / 2
  ∧ ∃ segs, Z.of_nat (length segs) = 3
    ∧ (∀ (i : nat) seg, segs !! i = Some seg →
         1 ≤ rune_count seg ≤ 2
         ∧ ∃ r, GetReply background "t" "e1" (Z.of_nat i) (ex_materialized "" ex_recorded).1
                  = ((ex_materialized "" ex_recorded).1, Ok r)
                ∧ r_Payload r = seg ∧ r_SegmentCount r = 3)
    ∧ String.concat "" segs = string_of_runes (runes "hello")
    ∧ (valid_utf8 "hello" = true → String.concat "" segs = "hello"%string).
Proof.
  apply (materialize_roundtrip (mkMaterializerConfig true 2) (mkMaterializer 2) background ex_clk
    "" ex_reply ex_recorded (ex_materialized "" ex_recorded).1 3).
  - reflexivity.
  - vm_compute. reflexivity.
Defined.

(** A repeated call with the same event and payload is refused when it runs under
    another span: the correlation takes the span's traceparent. *)
Lemma materialize_repeat_conflicts :
  (ex_materialized "span2" (ex_materialized "span1" ex_recorded).1).2 = Err (MJoin ErrConflict).
Proof. vm_compute. reflexivity. Qed.
