(* ===== verification/RWMutex.v ===== *)
(** The context-aware reader-writer lock of the in-memory repositories,
    [trpcservice/tenant/inmemory/rwmutex.go].

    Every critical section of the inner mutex [m.state] is one atomic transition.
    A thread is outside the lock, waits on a notification channel inside [lock] or
    [rlock], or holds the lock.  Channels are numbered in the order of their creation,
    0 is nil; [wakeLocked] closes the current one, so a channel is open exactly when
    it is the current one. *)
From S2P Require Import Prelude.
Local Open Scope Z_scope.

Record contextRWMutex := mkMutex {
  readers : Z;
  writer : bool;
  waitingWriters : Z;
  notify : nat
}.

Inductive thread := Outside | LockWait (c : nat) | Writing | RLockWait (c : nat) | Reading.
#[export] Instance thread_eq_dec : EqDecision thread.
Proof. solve_decision. Defined.

Definition initLocked (m : contextRWMutex) : contextRWMutex :=
  if (notify m =? 0)%nat then mkMutex (readers m) (writer m) (waitingWriters m) 1 else m.

Definition wakeLocked (m : contextRWMutex) : contextRWMutex :=
  mkMutex (readers m) (writer m) (waitingWriters m) (S (notify m)).

Definition add_waiting (d : Z) (m : contextRWMutex) : contextRWMutex :=
  mkMutex (readers m) (writer m) (waitingWriters m + d) (notify m).

(** One round of the loop of [lock], with the reading of the context. *)
Definition lock_round (err : option ctx_error) (m : contextRWMutex) : contextRWMutex * thread :=
  match err with
  | Some _ => (wakeLocked (add_waiting (-1) m), Outside)
  | None =>
      if negb (writer m) && (readers m =? 0)
      then (mkMutex (readers m) true (waitingWriters m - 1) (notify m), Writing)
      else (m, LockWait (notify m))
  end.

Definition lock (err : option ctx_error) (m : contextRWMutex) : contextRWMutex * thread :=
  lock_round err (add_waiting 1 (initLocked m)).

(** [waitContext] returned: the channel was closed, or the context ended. *)
Definition lock_resume (err : option ctx_error) (m : contextRWMutex) : contextRWMutex * thread :=
  lock_round err (initLocked m).
Definition lock_cancel (m : contextRWMutex) : contextRWMutex * thread :=
  (wakeLocked (add_waiting (-1) m), Outside).

Definition rlock_round (err : option ctx_error) (m : contextRWMutex) : contextRWMutex * thread :=
  match err with
  | Some _ => (m, Outside)
  | None =>
      if negb (writer m) && (waitingWriters m =? 0)
      then (mkMutex (readers m + 1) (writer m) (waitingWriters m) (notify m), Reading)
      else (m, RLockWait (notify m))
  end.

Definition rlock (err : option ctx_error) (m : contextRWMutex) : contextRWMutex * thread :=
  rlock_round err (initLocked m).
Definition rlock_cancel (m : contextRWMutex) : contextRWMutex * thread := (m, Outside).

(** [None] is the panic on a lock that is not held. *)
Definition unlock (m : contextRWMutex) : option contextRWMutex :=
  if negb (writer m) then None
  else Some (wakeLocked (mkMutex (readers m) false (waitingWriters m) (notify m))).

Definition runlock (m : contextRWMutex) : option contextRWMutex :=
  if readers m =? 0 then None
  else
    let m' := mkMutex (readers m - 1) (writer m) (waitingWriters m) (notify m) in
    Some (if readers m' =? 0 then wakeLocked m' else m').

(** * The lock under any number of threads *)

Record state := mkState { mu : contextRWMutex; threads : list thread }.

(** The transition of one thread from where it is. *)
Inductive moves (m : contextRWMutex) : thread → contextRWMutex * thread → Prop :=
| moves_lock err : moves m Outside (lock err m)
| moves_lock_resume c err : c ≠ notify m → moves m (LockWait c) (lock_resume err m)
| moves_lock_cancel c : moves m (LockWait c) (lock_cancel m)
| moves_unlock m' : unlock m = Some m' → moves m Writing (m', Outside)
| moves_rlock err : moves m Outside (rlock err m)
| moves_rlock_resume c err : c ≠ notify m → moves m (RLockWait c) (rlock err m)
| moves_rlock_cancel c : moves m (RLockWait c) (rlock_cancel m)
| moves_runlock m' : runlock m = Some m' → moves m Reading (m', Outside).

Inductive step : state → state → Prop :=
| step_thread m ts i t p :
    ts !! i = Some t → moves m t p → step (mkState m ts) (mkState p.1 (<[i := p.2]> ts)).

Definition init (n : nat) : state := mkState (mkMutex 0 false 0 0) (replicate n Outside).
Definition reachable (n : nat) (s : state) : Prop := rtc step (init n) s.

(** * Counting threads *)

Definition is_lock_wait (t : thread) : bool := match t with LockWait _ => true | _ => false end.
Definition is_writing (t : thread) : bool := match t with Writing => true | _ => false end.
Definition is_reading (t : thread) : bool := match t with Reading => true | _ => false end.

Fixpoint count (p : thread → bool) (ts : list thread) : Z :=
  match ts with [] => 0 | t :: ts' => Z.b2z (p t) + count p ts' end.

Lemma count_insert p ts i t t' :
  ts !! i = Some t → count p (<[i := t']> ts) = count p ts + Z.b2z (p t') - Z.b2z (p t).
Proof.
  revert i. induction ts as [|x ts IH]; intros [|i]; simpl; intros Hi; simplify_eq; [lia|].
  specialize (IH _ Hi). lia.
Qed.

Lemma count_nonneg p ts : 0 ≤ count p ts.
Proof. induction ts as [|t ts IH]; simpl; [lia|]. destruct (p t); simpl; lia. Qed.

Lemma count_pos p ts i t : ts !! i = Some t → p t = true → 0 < count p ts.
Proof.
  revert i. induction ts as [|x ts IH]; intros [|i]; simpl; intros Hi Hp; simplify_eq.
  - rewrite Hp. pose proof (count_nonneg p ts). simpl. lia.
  - specialize (IH _ Hi Hp). destruct (p x); simpl; lia.
Qed.

Lemma count_exists p ts : 0 < count p ts → ∃ i t, ts !! i = Some t ∧ p t = true.
Proof.
  induction ts as [|x ts IH]; simpl; [lia|]. destruct (p x) eqn:Hx; simpl.
  - intros _. by exists 0%nat, x.
  - intros (i & t & ? & ?)%IH. by exists (S i), t.
Qed.

Lemma count_two p ts i j t u :
  i ≠ j → ts !! i = Some t → ts !! j = Some u → p t = true → p u = true → 2 ≤ count p ts.
Proof.
  revert i j. induction ts as [|x ts IH]; intros [|i] [|j]; simpl; intros Hij Hi Hj Ht Hu;
    simplify_eq; rewrite ?Ht, ?Hu.
  - pose proof (count_pos p ts j u Hj Hu). simpl. lia.
  - pose proof (count_pos p ts i t Hi Ht). simpl. lia.
  - specialize (IH i j ltac:(lia) Hi Hj Ht Hu). destruct (p x); simpl; lia.
Qed.

Lemma count_replicate p n : p Outside = false → count p (replicate n Outside) = 0.
Proof. intros Hp. induction n as [|n IH]; [done|]. simpl. by rewrite Hp, IH. Qed.

(** * The invariant *)

(** The counters count the threads; a writer excludes readers; a thread whose channel
    is still open waits for a reason. *)
Record inv (s : state) : Prop := {
  inv_writer : count is_writing (threads s) = Z.b2z (writer (mu s));
  inv_readers : count is_reading (threads s) = readers (mu s);
  inv_waiting : count is_lock_wait (threads s) = waitingWriters (mu s);
  inv_excl : writer (mu s) = true → readers (mu s) = 0;
  inv_lock i c : threads s !! i = Some (LockWait c) →
    (c ≤ notify (mu s))%nat
    ∧ (c = notify (mu s) → writer (mu s) = true ∨ 0 < readers (mu s));
  inv_rlock i c : threads s !! i = Some (RLockWait c) →
    (c ≤ notify (mu s))%nat
    ∧ (c = notify (mu s) → writer (mu s) = true ∨ 0 < waitingWriters (mu s));
  inv_chan i c : threads s !! i = Some (LockWait c) ∨ threads s !! i = Some (RLockWait c) →
    c ≠ 0%nat
}.

Lemma init_inv n : inv (init n).
Proof.
  assert (∀ i t, threads (init n) !! i = Some t → t = Outside) as Hout.
  { intros i t Hi. by apply lookup_replicate in Hi as [-> _]. }
  split; simpl; try (by apply count_replicate); try done.
  - intros i c Hi. by apply Hout in Hi.
  - intros i c Hi. by apply Hout in Hi.
  - intros i c [Hi|Hi]; by apply Hout in Hi.
Qed.

(** What a transition of one thread must respect to keep the invariant. *)
Lemma inv_update m ts i t m' t' :
  inv (mkState m ts) → ts !! i = Some t →
  Z.b2z (writer m') = Z.b2z (writer m) + Z.b2z (is_writing t') - Z.b2z (is_writing t) →
  readers m' = readers m + Z.b2z (is_reading t') - Z.b2z (is_reading t) →
  waitingWriters m' = waitingWriters m + Z.b2z (is_lock_wait t') - Z.b2z (is_lock_wait t) →
  (writer m' = true → readers m' = 0) →
  (notify m ≤ notify m')%nat →
  (notify m' = notify m →
     (writer m = true ∨ 0 < readers m → writer m' = true ∨ 0 < readers m')
     ∧ (writer m = true ∨ 0 < waitingWriters m → writer m' = true ∨ 0 < waitingWriters m')) →
  (∀ c, t' = LockWait c → c = notify m' ∧ c ≠ 0%nat ∧ (writer m' = true ∨ 0 < readers m')) →
  (∀ c, t' = RLockWait c →
     c = notify m' ∧ c ≠ 0%nat ∧ (writer m' = true ∨ 0 < waitingWriters m')) →
  inv (mkState m' (<[i := t']> ts)).
Proof.
  intros [Hw Hr Hq He Hl Hrl Hc] Hi Ew Er Eq Hex Hn Hkeep Hnl Hnr. simpl in *.
  assert (∀ j x, <[i := t']> ts !! j = Some x → x = t' ∨ ts !! j = Some x) as Hback.
  { intros j x. destruct (decide (i = j)) as [<-|].
    - rewrite list_lookup_insert_eq by (by eapply lookup_lt_Some). intros [= <-]. by left.
    - rewrite list_lookup_insert_ne by done. by right. }
  split; simpl; try rewrite (count_insert _ _ _ _ _ Hi); try lia; try done.
  - intros j c [Ht|Hj]%Hback; [destruct (Hnl _ (eq_sym Ht)) as (-> & _ & ?); split; [lia|done]|].
    destruct (Hl _ _ Hj) as [Hle Hblock]. split; [lia|]. intros ->.
    assert (notify m' = notify m) as Heq by lia. apply (Hkeep Heq). by apply Hblock.
  - intros j c [Ht|Hj]%Hback; [destruct (Hnr _ (eq_sym Ht)) as (-> & _ & ?); split; [lia|done]|].
    destruct (Hrl _ _ Hj) as [Hle Hblock]. split; [lia|]. intros ->.
    assert (notify m' = notify m) as Heq by lia. apply (Hkeep Heq). by apply Hblock.
  - intros j c [[Ht|Hj]%Hback|[Ht|Hj]%Hback].
    + by destruct (Hnl _ (eq_sym Ht)) as (_ & ? & _).
    + eapply Hc; eauto.
    + by destruct (Hnr _ (eq_sym Ht)) as (_ & ? & _).
    + eapply Hc; eauto.
Qed.

Lemma inv_nonneg s : inv s → 0 ≤ readers (mu s) ∧ 0 ≤ waitingWriters (mu s).
Proof.
  intros []. pose proof (count_nonneg is_reading (threads s)).
  pose proof (count_nonneg is_lock_wait (threads s)). lia.
Qed.

Lemma initLocked_spec m :
  readers (initLocked m) = readers m ∧ writer (initLocked m) = writer m
  ∧ waitingWriters (initLocked m) = waitingWriters m ∧ (notify m ≤ notify (initLocked m))%nat
  ∧ notify (initLocked m) ≠ 0%nat.
Proof. unfold initLocked. destruct (Nat.eqb_spec (notify m) 0); simpl; split_and!; lia || done. Qed.

Lemma lock_round_spec err m :
  (∃ e, err = Some e ∧ lock_round err m = (wakeLocked (add_waiting (-1) m), Outside))
  ∨ (err = None ∧ writer m = false ∧ readers m = 0
     ∧ lock_round err m = (mkMutex 0 true (waitingWriters m - 1) (notify m), Writing))
  ∨ (err = None ∧ (writer m = true ∨ readers m ≠ 0) ∧ lock_round err m = (m, LockWait (notify m))).
Proof.
  unfold lock_round. destruct err as [e|]; [left; eauto|right].
  destruct (writer m) eqn:Hw; simpl; [right; eauto|].
  destruct (Z.eqb_spec (readers m) 0) as [Hr|Hr]; [left|right; eauto].
  split_and!; try done. by rewrite Hr.
Qed.

(** A round of [lock] on a state in which this thread is counted as waiting. *)
Lemma inv_lock_round m ts i t err m0 :
  inv (mkState m ts) → ts !! i = Some t → is_writing t = false → is_reading t = false →
  readers m0 = readers m → writer m0 = writer m →
  waitingWriters m0 = waitingWriters m + 1 - Z.b2z (is_lock_wait t) →
  (notify m ≤ notify m0)%nat → notify m0 ≠ 0%nat →
  inv (mkState (lock_round err m0).1 (<[i := (lock_round err m0).2]> ts)).
Proof.
  intros Hinv Hi Htw Htr Er Ew Eq Hn Hz. destruct (inv_nonneg _ Hinv) as [Hr0 Hq0].
  pose proof (inv_excl _ Hinv) as Hex. simpl in *.
  destruct (lock_round_spec err m0) as [(e & _ & ->)|[(_ & Hw & Hr & ->)|(_ & Hb & ->)]];
    eapply inv_update; eauto; simpl; rewrite ?Htw, ?Htr, ?Er, ?Ew, ?Eq in *; simpl;
    try lia; try done; rewrite ?Hw, ?Hr; simpl; try lia; try (intros; split_and!; naive_solver lia).
  intros _. split; [done|]. destruct (is_lock_wait t); simpl; naive_solver lia.
Qed.

Lemma inv_rlock_round m ts i t err m0 :
  inv (mkState m ts) → ts !! i = Some t →
  is_writing t = false → is_reading t = false → is_lock_wait t = false →
  readers m0 = readers m → writer m0 = writer m → waitingWriters m0 = waitingWriters m →
  (notify m ≤ notify m0)%nat → notify m0 ≠ 0%nat →
  inv (mkState (rlock_round err m0).1 (<[i := (rlock_round err m0).2]> ts)).
Proof.
  intros Hinv Hi Htw Htr Htl Er Ew Eq Hn Hz. destruct (inv_nonneg _ Hinv) as [Hr0 Hq0].
  pose proof (inv_excl _ Hinv) as Hex. simpl in *. unfold rlock_round.
  destruct err as [e|]; [|destruct (writer m0) eqn:Hw; simpl;
    [|destruct (Z.eqb_spec (waitingWriters m0) 0) as [Hq|Hq]]];
    eapply inv_update; eauto; simpl; rewrite ?Htw, ?Htr, ?Htl; simpl;
    try rewrite <- Ew; try rewrite <- Er; try rewrite <- Eq; rewrite ?Hw; simpl; try lia; try done;
    try (intros; split_and!; naive_solver lia).
  - intros. rewrite Er. apply Hex. congruence.
  - intros. rewrite Er. apply Hex. congruence.
Qed.

Lemma inv_step s s' : inv s → step s s' → inv s'.
Proof.
  intros Hinv Hst. destruct Hst as [m ts i t p Hi Hm].
  destruct (initLocked_spec m) as (Ir & Iw & Iq & In & Iz).
  pose proof (inv_nonneg _ Hinv) as [Hr0 Hq0]. pose proof (inv_excl _ Hinv) as Hex.
  pose proof (inv_writer _ Hinv) as Hw. pose proof (inv_readers _ Hinv) as Hr.
  pose proof (inv_waiting _ Hinv) as Hq. simpl in *.
  destruct Hm as [err|c err Hc|c|m1 Hu|err|c err Hc|c|m1 Hu].
  - apply (inv_lock_round m ts i Outside); simpl; auto; lia.
  - apply (inv_lock_round m ts i (LockWait c)); simpl; auto; lia.
  - pose proof (count_pos is_lock_wait _ _ _ Hi eq_refl).
    eapply inv_update; eauto; simpl; try lia; done.
  - unfold unlock in Hu. destruct (writer m) eqn:Ew; simplify_eq/=.
    eapply inv_update; eauto; simpl; rewrite ?Ew; simpl; lia || done.
  - apply (inv_rlock_round m ts i Outside); simpl; auto.
  - apply (inv_rlock_round m ts i (RLockWait c)); simpl; auto.
  - eapply inv_update; eauto; simpl; lia || done.
  - pose proof (count_pos is_reading _ _ _ Hi eq_refl).
    assert (writer m = false) as Ew by (destruct (writer m); [specialize (Hex eq_refl); lia|done]).
    unfold runlock in Hu. destruct (Z.eqb_spec (readers m) 0); [lia|]. simpl in Hu.
    destruct (Z.eqb_spec (readers m - 1) 0); simplify_eq;
      eapply inv_update; eauto; simpl; rewrite ?Ew; simpl; try lia; try done.
Qed.

Lemma reachable_inv n s : reachable n s → inv s.
Proof.
  unfold reachable. intros H. apply (rtc_ind_r inv (init n)) in H; [done|apply init_inv|].
  intros s1 s2 _ Hst Hs1. by eapply inv_step.
Qed.

(** C9: mutual exclusion.  In every reachable state of the lock, whatever threads
    enter, wait, give up and leave in whatever order, a writer is the only holder, and
    leaving never panics: the holder of the lock finds the lock held. *)
Theorem rwmutex_exclusive n s :
  reachable n s →
  (∀ i j t, threads s !! i = Some Writing → threads s !! j = Some t → i ≠ j →
     t ≠ Writing ∧ t ≠ Reading)
  ∧ (∀ i, threads s !! i = Some Writing → is_Some (unlock (mu s)))
  ∧ (∀ i, threads s !! i = Some Reading → is_Some (runlock (mu s))).
Proof.
  intros Hinv%reachable_inv. destruct Hinv as [Hw Hr _ Hex _ _ _].
  assert (∀ i, threads s !! i = Some Writing → writer (mu s) = true) as Ew.
  { intros i Hi. pose proof (count_pos is_writing _ _ _ Hi eq_refl).
    destruct (writer (mu s)); [done|]. simpl in Hw. lia. }
  split_and!.
  - intros i j t Hi Hj Hij. specialize (Ew _ Hi). rewrite Ew in Hw. simpl in Hw.
    specialize (Hex Ew). split; intros ->.
    + pose proof (count_two is_writing _ _ _ _ _ Hij Hi Hj eq_refl eq_refl). lia.
    + pose proof (count_pos is_reading _ _ _ Hj eq_refl). lia.
  - intros i Hi. unfold unlock. rewrite (Ew _ Hi). by eexists.
  - intros i Hi. pose proof (count_pos is_reading _ _ _ Hi eq_refl). unfold runlock.
    destruct (Z.eqb_spec (readers (mu s)) 0); [lia|by eexists].
Qed.

(** C10: no lost wake-up.  A thread that waits on a channel nobody has closed yet
    always waits for somebody: a waiting writer for a current holder, a waiting reader
    for the current writer or for a writer that is waiting.  When the last of them
    leaves or gives up, the channel is closed. *)
Theorem rwmutex_no_lost_wakeup n s i c :
  reachable n s →
  (threads s !! i = Some (LockWait c) → c = notify (mu s) →
     ∃ j t, threads s !! j = Some t ∧ (t = Writing ∨ t = Reading))
  ∧ (threads s !! i = Some (RLockWait c) → c = notify (mu s) →
     ∃ j t, threads s !! j = Some t ∧ (t = Writing ∨ ∃ c', t = LockWait c')).
Proof.
  intros Hinv%reachable_inv. destruct Hinv as [Hw Hr Hq _ Hl Hrl _].
  assert (writer (mu s) = true → ∃ j, threads s !! j = Some Writing) as Hwr.
  { intros Ew. rewrite Ew in Hw. simpl in Hw. destruct (count_exists is_writing (threads s))
      as (j & t & Hj & Ht); [lia|].
    destruct t; try done; eauto 10. }
  split; intros Hi Hc.
  - destruct (proj2 (Hl _ _ Hi) Hc) as [Ew|Er]; [destruct (Hwr Ew); eauto|].
    destruct (count_exists is_reading (threads s)) as (j & t & Hj & Ht); [lia|].
    destruct t; try done; eauto 10.
  - destruct (proj2 (Hrl _ _ Hi) Hc) as [Ew|Er]; [destruct (Hwr Ew); eauto|].
    destruct (count_exists is_lock_wait (threads s)) as (j & t & Hj & Ht); [lia|].
    destruct t; try done; eauto 10.
Qed.

(** * Witnesses: a writer, and a second writer that waits for it *)

Definition ex_state : state :=
  mkState (mkMutex 0 true 1 1) [Writing; LockWait 1; Outside].

Lemma ex_reachable : reachable 3 ex_state.
Proof.
  eapply rtc_l; [apply (step_thread _ _ 0 Outside (lock None (mkMutex 0 false 0 0)));
    [done|constructor]|].
  eapply rtc_l; [apply (step_thread _ _ 1 Outside (lock None (mkMutex 0 true 0 1)));
    [done|constructor]|].
  apply rtc_refl.
Qed.

Lemma rwmutex_exclusive_witness : LockWait 1 ≠ Writing ∧ LockWait 1 ≠ Reading.
Proof.
  apply (proj1 (rwmutex_exclusive 3 ex_state ex_reachable) 0%nat 1%nat);
    [reflexivity|reflexivity|lia].
Defined.

Lemma rwmutex_no_lost_wakeup_witness :
  ∃ j t, threads ex_state !! j = Some t ∧ (t = Writing ∨ t = Reading).
Proof.
  apply (proj1 (rwmutex_no_lost_wakeup 3 ex_state 1 1 ex_reachable)); reflexivity.
Defined.
