(* ===== verification/Tenant.v ===== *)
(** Tenants, [trpcservice/tenant/tenant.go] and [runtime.go], and their in-memory
    repository [trpcservice/tenant/inmemory/inmemory.go]: validation, identifiers,
    creation, optimistic configuration updates, the status machine, the execution
    gate and the namespaced Runner identities.

    A repository method that takes the lock is one atomic action ([RWMutex.v] models
    the lock); it reads the context before the lock, while acquiring it and after.
    Cloning is the identity on values. *)
From Stdlib Require Import Ascii String.
From Corelib Require Import SpecFloat.
From S2P Require Import Prelude GoStrings.
Local Open Scope Z_scope.

(** * Data *)

Inductive error :=
| ErrInvalid | ErrNotFound | ErrConflict | ErrDuplicateKey | ErrDisabled
| ErrInvalidTransition | ErrRandom
| ErrContext (e : ctx_error).
#[export] Instance error_eq_dec : EqDecision error.
Proof. solve_decision. Defined.

Definition StatusActive : string := "active".
Definition StatusSuspended : string := "suspended".
Definition StatusDisabled : string := "disabled".
Definition MaskingNone : string := "none".
Definition MaskingBasic : string := "basic".
Definition MaskingStrict : string := "strict".

(** The configuration fields that creation and update share. *)
Record Configuration := mkConfiguration {
  c_DisplayName : string;
  c_RateLimitRPM : option Z;
  c_MaxConcurrentExecutions : option Z;
  c_MonthlyTokenBudget : option Z;
  c_MonthlySpendLimitMinor : option Z;
  c_BillingCurrency : string;
  c_AuditRetentionDays : Z;
  c_LogMaskingLevel : string;
  c_TraceSamplingRate : spec_float;
  c_DefaultAgentAppID : option string;
  c_DefaultBackendProfileID : option string
}.

Record Tenant := mkTenant {
  TenantID : string;
  TenantKey : string;
  TStatus : string;
  TConfig : Configuration;
  Version : Z;
  CreatedAt : time;
  UpdatedAt : time
}.

Record CreateInput := mkCreateInput {
  ci_TenantKey : string;
  ci_Status : string;
  ci_Config : Configuration
}.

Record UpdateConfigurationInput := mkUpdateInput {
  ui_TenantID : string;
  ui_ExpectedVersion : Z;
  ui_Config : Configuration
}.

Record TransitionMetadata := mkMetadata {
  md_ActorType : string;
  md_ActorID : string;
  md_Reason : string;
  md_CorrelationID : string
}.

Record TransitionStatusInput := mkTransitionInput {
  ti_TenantID : string;
  ti_ExpectedVersion : Z;
  ti_NextStatus : string;
  ti_Metadata : TransitionMetadata
}.

Record StatusChangeEvent := mkStatusChangeEvent {
  ev_TenantID : string;
  ev_PreviousStatus : string;
  ev_NextStatus : string;
  ev_Metadata : TransitionMetadata;
  ev_PreviousVersion : Z;
  ev_NextVersion : Z;
  ev_OccurredAt : time
}.

(** * Validation *)

Definition iso4217NonMonetaryCodes : list string :=
  ["XAG"; "XAU"; "XBA"; "XBB"; "XBC"; "XBD"; "XDR"; "XPD"; "XPT"; "XSU"; "XTS"; "XUA";
   "XXX"]%string.
Definition iso4217Currencies : list string :=
  ["AED"; "AFN"; "ALL"; "AMD"; "ANG"; "AOA"; "ARS"; "AUD"; "AWG"; "AZN"; "BAM"; "BBD";
   "BDT"; "BGN"; "BHD"; "BIF"; "BMD"; "BND"; "BOB"; "BOV"; "BRL"; "BSD"; "BTN"; "BWP";
   "BYN"; "BZD"; "CAD"; "CDF"; "CHE"; "CHF"; "CHW"; "CLF"; "CLP"; "CNY"; "COP"; "COU";
   "CRC"; "CUC"; "CUP"; "CVE"; "CZK"; "DJF"; "DKK"; "DOP"; "DZD"; "EGP"; "ERN"; "ETB";
   "EUR"; "FJD"; "FKP"; "GBP"; "GEL"; "GHS"; "GIP"; "GMD"; "GNF"; "GTQ"; "GYD"; "HKD";
   "HNL"; "HTG"; "HUF"; "IDR"; "ILS"; "INR"; "IQD"; "IRR"; "ISK"; "JMD"; "JOD"; "JPY";
   "KES"; "KGS"; "KHR"; "KMF"; "KPW"; "KRW"; "KWD"; "KYD"; "KZT"; "LAK"; "LBP"; "LKR";
   "LRD"; "LSL"; "LYD"; "MAD"; "MDL"; "MGA"; "MKD"; "MMK"; "MNT"; "MOP"; "MRU"; "MUR";
   "MVR"; "MWK"; "MXN"; "MXV"; "MYR"; "MZN"; "NAD"; "NGN"; "NIO"; "NOK"; "NPR"; "NZD";
   "OMR"; "PAB"; "PEN"; "PGK"; "PHP"; "PKR"; "PLN"; "PYG"; "QAR"; "RON"; "RSD"; "RUB";
   "RWF"; "SAR"; "SBD"; "SCR"; "SDG"; "SEK"; "SGD"; "SHP"; "SLE"; "SLL"; "SOS"; "SRD";
   "SSP"; "STN"; "SVC"; "SYP"; "SZL"; "THB"; "TJS"; "TMT"; "TND"; "TOP"; "TRY"; "TTD";
   "TWD"; "TZS"; "UAH"; "UGX"; "USD"; "USN"; "UYI"; "UYU"; "UYW"; "UZS"; "VED"; "VES";
   "VND"; "VUV"; "WST"; "XAF"; "XAG"; "XAU"; "XBA"; "XBB"; "XBC"; "XBD"; "XCD"; "XDR";
   "XOF"; "XPD"; "XPF"; "XPT"; "XSU"; "XTS"; "XUA"; "XXX"; "YER"; "ZAR"; "ZMW";
   "ZWL"]%string.

Definition in_list (x : string) (l : list string) : bool := existsb (String.eqb x) l.

Lemma in_list_elem x l : in_list x l = true ↔ x ∈ l.
Proof.
  unfold in_list. rewrite existsb_exists, list_elem_of_In. split.
  - intros (y & Hy & ->%String.eqb_eq). done.
  - intros H. exists x. by rewrite String.eqb_refl.
Qed.

Definition validCurrency (currency : string) : bool :=
  in_list currency iso4217Currencies && negb (in_list currency iso4217NonMonetaryCodes).

Definition validateDisplayName (displayName : string) : result error unit :=
  let n := rune_count (trim_space displayName) in
  if (n <? 1) || (200 <? n) then Err ErrInvalid else Ok ().

Definition opt_test (p : Z → bool) (o : option Z) : bool :=
  match o with Some v => p v | None => false end.

Definition validateLimits (rate concurrent tokens spend : option Z) : result error unit :=
  if opt_test (λ v, v <? 0) rate then Err ErrInvalid
  else if opt_test (λ v, v <=? 0) concurrent then Err ErrInvalid
  else if opt_test (λ v, v <? 0) tokens then Err ErrInvalid
  else if opt_test (λ v, v <? 0) spend then Err ErrInvalid
  else Ok ().

Definition validateCurrencyLimits (spend : option Z) (currency : string) : result error unit :=
  if negb (opt_is_nil spend) && negb (validCurrency currency) then Err ErrInvalid
  else if negb (currency =? "")%string && negb (validCurrency currency) then Err ErrInvalid
  else Ok ().

Definition is_nan (x : spec_float) : bool := match x with S754_nan => true | _ => false end.
Definition is_inf (x : spec_float) : bool := match x with S754_infinity _ => true | _ => false end.
Definition f64 (z : Z) : spec_float := binary_normalize 53 1024 z 0 false.

Definition validateTelemetryConfiguration (retention : Z) (masking : string)
    (sampling : spec_float) : result error unit :=
  if retention <=? 0 then Err ErrInvalid
  else if negb (masking =? MaskingNone)%string && negb (masking =? MaskingBasic)%string
          && negb (masking =? MaskingStrict)%string then Err ErrInvalid
  else if is_nan sampling || is_inf sampling || SFltb sampling (f64 0) || SFltb (f64 1) sampling
  then Err ErrInvalid
  else Ok ().

Definition validateConfiguration (c : Configuration) : result error unit :=
  _ ← validateDisplayName (c_DisplayName c);
  _ ← validateLimits (c_RateLimitRPM c) (c_MaxConcurrentExecutions c) (c_MonthlyTokenBudget c)
        (c_MonthlySpendLimitMinor c);
  _ ← validateCurrencyLimits (c_MonthlySpendLimitMinor c) (c_BillingCurrency c);
  validateTelemetryConfiguration (c_AuditRetentionDays c) (c_LogMaskingLevel c)
    (c_TraceSamplingRate c).

(** A byte of a key after the first. *)
Definition key_byte (c : Z) : bool :=
  negb (((c <? 97) || (122 <? c)) && ((c <? 48) || (57 <? c)) && negb (c =? 45)).

Definition normalizeTenantKey (key : string) : result error string :=
  let key := to_lower (trim_space key) in
  if (len key <? 2) || (64 <? len key) then Err ErrInvalid
  else match bytes key with
  | [] => Err ErrInvalid
  | c0 :: rest =>
      if (c0 <? 97) || (122 <? c0) then Err ErrInvalid
      else if forallb key_byte rest then Ok key else Err ErrInvalid
  end.

Definition crockford : string := "0123456789ABCDEFGHJKMNPQRSTVWXYZ".
Definition crockford_rune (c : Z) : bool := existsb (Z.eqb c) (runes crockford).

Definition validateTenantID (id : string) : result error unit :=
  if negb (len id =? 28) || negb (has_prefix id "t_") then Err ErrInvalid
  else match bytes (drop_bytes 2 id) with
  | c :: _ => if 55 <? c then Err ErrInvalid
              else if forallb crockford_rune (runes (drop_bytes 2 id)) then Ok ()
              else Err ErrInvalid
  | [] => Err ErrInvalid
  end.

Definition valid_status (s : string) : bool :=
  (s =? StatusActive)%string || (s =? StatusSuspended)%string || (s =? StatusDisabled)%string.

Definition Validate (t : Tenant) : result error unit :=
  _ ← validateTenantID (TenantID t);
  key ← normalizeTenantKey (TenantKey t);
  if negb (key =? TenantKey t)%string then Err ErrInvalid
  else if negb (valid_status (TStatus t)) then Err ErrInvalid
  else
    _ ← validateConfiguration (TConfig t);
    if (Version t <? 1) || is_zero (CreatedAt t) || is_zero (UpdatedAt t) then Err ErrInvalid
    else Ok ().

(** * Identifiers *)

(** The 16 bytes of an identifier: 6 of the clock in milliseconds, 10 random. *)
Fixpoint clock_bytes (n : nat) (ms : Z) : list Z :=
  match n with
  | O => []
  | S n' => clock_bytes n' (Z.shiftr ms 8) ++ [Z.land ms 255]
  end.

(** [big.Int.SetBytes]: the big-endian value. *)
Definition set_bytes (l : list Z) : Z := foldl (λ acc b, acc * 256 + b) 0 l.

(** The encoding loop, from the last digit on. *)
Fixpoint encode_digits (n : nat) (value : Z) : string :=
  match n with
  | O => ""
  | S n' =>
      (encode_digits n' (Z.shiftr value 5)
        ++ match String.get (Z.to_nat (Z.land value 31)) crockford with
           | Some c => String c ""
           | None => ""
           end)%string
  end.

(** [random] is what [rand.Read] delivers: 10 bytes, or an error. *)
Definition newTenantID (ms : Z) (random : option (list Z)) : result error string :=
  match random with
  | None => Err ErrRandom
  | Some r => Ok ("t_" ++ encode_digits 26 (set_bytes (clock_bytes 6 ms ++ r)))%string
  end.

#[global] Arguments validCurrency : simpl never.
#[global] Arguments validateConfiguration : simpl never.
#[global] Arguments normalizeTenantKey : simpl never.
#[global] Arguments validateTenantID : simpl never.
#[global] Arguments newTenantID : simpl never.

(** * Creation *)

Definition with_defaults (c : Configuration) : Configuration :=
  mkConfiguration (c_DisplayName c) (c_RateLimitRPM c) (c_MaxConcurrentExecutions c)
    (c_MonthlyTokenBudget c) (c_MonthlySpendLimitMinor c) (c_BillingCurrency c)
    (if c_AuditRetentionDays c =? 0 then 90 else c_AuditRetentionDays c)
    (if (c_LogMaskingLevel c =? "")%string then MaskingBasic else c_LogMaskingLevel c)
    (c_TraceSamplingRate c) (c_DefaultAgentAppID c) (c_DefaultBackendProfileID c).

Definition trim_name (c : Configuration) : Configuration :=
  mkConfiguration (trim_space (c_DisplayName c)) (c_RateLimitRPM c) (c_MaxConcurrentExecutions c)
    (c_MonthlyTokenBudget c) (c_MonthlySpendLimitMinor c) (c_BillingCurrency c)
    (c_AuditRetentionDays c) (c_LogMaskingLevel c) (c_TraceSamplingRate c)
    (c_DefaultAgentAppID c) (c_DefaultBackendProfileID c).

Definition NewTenant (ms : Z) (random : option (list Z)) (now : time) (input : CreateInput)
    : result error Tenant :=
  key ← normalizeTenantKey (ci_TenantKey input);
  id ← newTenantID ms random;
  let status := if (ci_Status input =? "")%string then StatusActive else ci_Status input in
  if negb (valid_status status) then Err ErrInvalid
  else if (status =? StatusDisabled)%string then Err ErrInvalid
  else
    let config := with_defaults (ci_Config input) in
    _ ← validateConfiguration config;
    Ok (mkTenant id key status (trim_name config) 1 now now).

Definition CanAcceptExecution (t : Tenant) : bool := (TStatus t =? StatusActive)%string.

(** * The in-memory repository *)

Record InMemoryRepository := mkRepository {
  byID : gmap string Tenant;
  byKey : gmap string string
}.

Definition NewInMemoryRepository : InMemoryRepository := mkRepository ∅ ∅.

(** A nil context is never done. *)
Definition checkContext (ctx : context) (i : nat) : result error unit :=
  match ctx with
  | None => Ok ()
  | Some c => match c i with Some e => Err (ErrContext e) | None => Ok () end
  end.

Definition Create (ctx : context) (ms : Z) (random : option (list Z)) (now : time)
    (input : CreateInput) : act InMemoryRepository error Tenant :=
  _ ← lift (checkContext ctx 0);
  t ← lift (NewTenant ms random now input);
  _ ← lift (checkContext ctx 1);
  _ ← lift (checkContext ctx 2);
  r ← get;
  match byID r !! TenantID t with
  | Some _ => throw ErrDuplicateKey
  | None =>
      match byKey r !! TenantKey t with
      | Some _ => throw ErrDuplicateKey
      | None =>
          _ ← put (mkRepository (<[TenantID t := t]> (byID r))
                     (<[TenantKey t := TenantID t]> (byKey r)));
          mret t
      end
  end.

Definition Get (ctx : context) (tenantID : string) : act InMemoryRepository error Tenant :=
  _ ← lift (checkContext ctx 0);
  _ ← lift (checkContext ctx 1);
  _ ← lift (checkContext ctx 2);
  r ← get;
  match byID r !! tenantID with
  | None => throw ErrNotFound
  | Some t => mret t
  end.

Definition Count (ctx : context) : act InMemoryRepository error Z :=
  _ ← lift (checkContext ctx 0);
  r ← get;
  mret (Z.of_nat (size (byID r))).

Definition UpdateConfiguration (ctx : context) (now : time) (input : UpdateConfigurationInput)
    : act InMemoryRepository error Tenant :=
  _ ← lift (checkContext ctx 0);
  let config := with_defaults (ui_Config input) in
  _ ← lift (validateConfiguration config);
  _ ← lift (checkContext ctx 1);
  _ ← lift (checkContext ctx 2);
  r ← get;
  match byID r !! ui_TenantID input with
  | None => throw ErrNotFound
  | Some t =>
      if (TStatus t =? StatusDisabled)%string then throw ErrDisabled
      else if negb (ui_ExpectedVersion input =? Version t) then throw ErrConflict
      else
        let updated := mkTenant (TenantID t) (TenantKey t) (TStatus t) (trim_name config)
          (incr64 (Version t)) (CreatedAt t) now in
        _ ← put (mkRepository (<[ui_TenantID input := updated]> (byID r)) (byKey r));
        mret updated
  end.

Definition validateMetadata (m : TransitionMetadata) : result error unit :=
  let reason := trim_space (md_Reason m) in
  if (trim_space (md_ActorType m) =? "")%string || (trim_space (md_ActorID m) =? "")%string
     || (reason =? "")%string || (trim_space (md_CorrelationID m) =? "")%string then Err ErrInvalid
  else if 1000 <? rune_count reason then Err ErrInvalid
  else Ok ().

Definition validTransition (from to : string) : bool :=
  if (from =? StatusActive)%string
     && ((to =? StatusSuspended)%string || (to =? StatusDisabled)%string) then true
  else if (from =? StatusSuspended)%string
     && ((to =? StatusActive)%string || (to =? StatusDisabled)%string) then true
  else false.

Definition TransitionStatus (ctx : context) (now : time) (input : TransitionStatusInput)
    : act InMemoryRepository error (Tenant * StatusChangeEvent) :=
  _ ← lift (checkContext ctx 0);
  _ ← lift (validateMetadata (ti_Metadata input));
  _ ← lift (checkContext ctx 1);
  _ ← lift (checkContext ctx 2);
  r ← get;
  match byID r !! ti_TenantID input with
  | None => throw ErrNotFound
  | Some t =>
      if (TStatus t =? StatusDisabled)%string then throw ErrDisabled
      else if negb (ti_ExpectedVersion input =? Version t) then throw ErrConflict
      else if negb (validTransition (TStatus t) (ti_NextStatus input)) then throw ErrInvalidTransition
      else
        let m := ti_Metadata input in
        let event := mkStatusChangeEvent (TenantID t) (TStatus t) (ti_NextStatus input)
          (mkMetadata (trim_space (md_ActorType m)) (trim_space (md_ActorID m))
             (trim_space (md_Reason m)) (trim_space (md_CorrelationID m)))
          (Version t) (wrap64 (Version t + 1)) now in
        let updated := mkTenant (TenantID t) (TenantKey t) (ti_NextStatus input) (TConfig t)
          (incr64 (Version t)) (CreatedAt t) now in
        _ ← put (mkRepository (<[ti_TenantID input := updated]> (byID r)) (byKey r));
        mret (updated, event)
  end.

(** * Execution snapshots and Runner identities: runtime.go *)

(** A snapshot holds a copy of the tenant. *)
Definition NewConfigurationSnapshot (t : option Tenant) : result error Tenant :=
  match t with
  | None => Err ErrInvalid
  | Some t =>
      _ ← Validate t;
      if negb (CanAcceptExecution t) then Err ErrInvalid else Ok t
  end.

(** A tenant snapshot holds a tenant or, as zero value, none. *)
Definition zero_tenant : Tenant :=
  mkTenant "" "" "" (mkConfiguration "" None None None None "" 0 "" (S754_zero false) None None) 0 0 0.
Definition snapshot_Tenant (s : option Tenant) : Tenant := default zero_tenant s.

Record RunnerIdentity := mkRunnerIdentity { UserID : string; SessionID : string }.

Definition namespacedID (tenantID externalID : string) : result error string :=
  if (externalID =? "")%string then Err ErrInvalid
  else Ok (itoa_nat (String.length tenantID) ++ ":" ++ tenantID ++ ":"
             ++ itoa_nat (String.length externalID) ++ ":" ++ externalID)%string.

Definition NewRunnerIdentity (tenantID externalUserID externalSessionID : string)
    : result error RunnerIdentity :=
  _ ← validateTenantID tenantID;
  userID ← namespacedID tenantID externalUserID;
  sessionID ← namespacedID tenantID externalSessionID;
  Ok (mkRunnerIdentity userID sessionID).

(** * Identifiers are valid and unique *)

Definition digit (d : Z) : ascii :=
  match String.get (Z.to_nat d) crockford with Some c => c | None => Ascii.zero end.

Definition all_digits (p : Z → bool) : bool :=
  forallb (λ n, p (Z.of_nat n)) (seq 0 32).

Lemma all_digits_spec p d : all_digits p = true → 0 ≤ d < 32 → p d = true.
Proof.
  unfold all_digits. rewrite forallb_forall. intros H Hd.
  specialize (H (Z.to_nat d)). rewrite Z2Nat.id in H by lia. apply H, in_seq. lia.
Qed.

Lemma digit_get d : 0 ≤ d < 32 →
  match String.get (Z.to_nat d) crockford with Some c => String c "" | None => ""%string end
  = String (digit d) "".
Proof.
  intros Hd. unfold digit. 
  assert (is_Some (String.get (Z.to_nat d) crockford)) as [c Hc]; [|by rewrite Hc].
  assert (all_digits (λ d, negb (opt_is_nil (String.get (Z.to_nat d) crockford))) = true) as H
    by reflexivity.
  pose proof (all_digits_spec _ d H Hd) as Hg. cbv beta in Hg. destruct (String.get _ _); [eauto|done].
Qed.

Lemma digit_inj d1 d2 : 0 ≤ d1 < 32 → 0 ≤ d2 < 32 → digit d1 = digit d2 → d1 = d2.
Proof.
  intros H1 H2 Heq.
  assert (all_digits (λ d, all_digits (λ e,
    negb (Ascii.eqb (digit d) (digit e)) || (d =? e))) = true) as H by (vm_compute; reflexivity).
  pose proof (all_digits_spec _ d1 H H1) as H'. simpl in H'.
  pose proof (all_digits_spec _ d2 H' H2) as H''. simpl in H''.
  rewrite Heq, Ascii.eqb_refl in H''. simpl in H''. by apply Z.eqb_eq.
Qed.

Lemma digit_crockford d : 0 ≤ d < 32 →
  crockford_rune (byte_val (digit d)) = true ∧ 0 ≤ byte_val (digit d) < 128
  ∧ (d ≤ 7 → byte_val (digit d) ≤ 55).
Proof.
  intros Hd. assert (all_digits (λ d, crockford_rune (byte_val (digit d))
    && (0 <=? byte_val (digit d)) && (byte_val (digit d) <? 128)
    && ((7 <? d) || (byte_val (digit d) <=? 55))) = true) as H by (vm_compute; reflexivity).
  pose proof (all_digits_spec _ d H Hd) as H'. simpl in H'. bool_prop.
  split_and!; try done. intros Hle. apply orb_true_iff in H1 as [Hlt|Hlt]; bool_prop; lia.
Qed.

(** The digits of a value, most significant first. *)
Fixpoint digits (n : nat) (value : Z) : list Z :=
  match n with
  | O => []
  | S n' => digits n' (value / 32) ++ [value `mod` 32]
  end.

Lemma encode_digits_spec n value :
  encode_digits n value = string_of_list_ascii (digit <$> digits n value).
Proof.
  revert value. induction n as [|n IH]; intros value; [done|]. cbn [encode_digits digits].
  rewrite fmap_app, IH, Z.shiftr_div_pow2 by lia. change (2 ^ 5) with 32.
  rewrite (Z.land_ones _ 5) by lia. change (2 ^ 5) with 32.
  rewrite digit_get by (apply Z.mod_pos_bound; lia).
  generalize (digit <$> digits n (value / 32)) as l. induction l as [|c l IHl]; [done|].
  exact (f_equal (String c) IHl).
Qed.

Lemma digits_length n value : length (digits n value) = n.
Proof. revert value. induction n as [|n IH]; intros; simpl; [done|]. rewrite length_app, IH. simpl. lia. Qed.

Lemma digits_range n value : Forall (λ d, 0 ≤ d < 32) (digits n value).
Proof.
  revert value. induction n as [|n IH]; intros; simpl; [constructor|].
  apply Forall_app. split; [done|]. constructor; [apply Z.mod_pos_bound; lia|constructor].
Qed.

Lemma digits_inj n v1 v2 :
  0 ≤ v1 < 32 ^ Z.of_nat n → 0 ≤ v2 < 32 ^ Z.of_nat n → digits n v1 = digits n v2 → v1 = v2.
Proof.
  revert v1 v2. induction n as [|n IH]; intros v1 v2 H1 H2 Heq; [simpl in *; lia|].
  cbn [digits] in Heq. apply app_inj_tail in Heq as [Hq Hm].
  rewrite Nat2Z.inj_succ, Z.pow_succ_r in * by lia.
  apply IH in Hq; [|split; [apply Z.div_pos; lia|apply Z.div_lt_upper_bound; lia]..].
  rewrite (Z.div_mod v1 32), (Z.div_mod v2 32) by lia. congruence.
Qed.

Lemma digits_head n v :
  0 ≤ v < 8 * 32 ^ Z.of_nat n → ∃ d l, digits (S n) v = d :: l ∧ 0 ≤ d ≤ 7.
Proof.
  revert v. induction n as [|n IH]; intros v Hv.
  { exists (v `mod` 32), []. split; [done|]. simpl in Hv. rewrite Z.mod_small; lia. }
  rewrite Nat2Z.inj_succ, Z.pow_succ_r in Hv by lia.
  destruct (IH (v / 32)) as (d & l & Hd & ?).
  { split; [apply Z.div_pos; lia|apply Z.div_lt_upper_bound; lia]. }
  exists d, (l ++ [v `mod` 32]). split; [|done].
  change (digits (S n) (v / 32) ++ [v `mod` 32] = d :: l ++ [v `mod` 32]). by rewrite Hd.
Qed.

Lemma set_bytes_app l1 l2 :
  Forall (λ b, 0 ≤ b < 256) l2 →
  set_bytes (l1 ++ l2) = set_bytes l1 * 256 ^ Z.of_nat (length l2) + set_bytes l2
  ∧ 0 ≤ set_bytes l2 < 256 ^ Z.of_nat (length l2).
Proof.
  intros Hl2. revert l1. induction l2 as [|b l2 IH] using rev_ind; intros l1.
  { rewrite app_nil_r. unfold set_bytes. simpl. lia. }
  apply Forall_app in Hl2 as [Hl2 [Hb _]%Forall_cons].
  destruct (IH Hl2 l1) as [H1 H2]. unfold set_bytes in *. rewrite app_assoc, !foldl_snoc, H1.
  rewrite length_app, Nat.add_comm. simpl length.
  rewrite Nat2Z.inj_succ, Z.pow_succ_r by lia. split; [ring|]. lia.
Qed.

Lemma set_bytes_inj l1 l2 :
  length l1 = length l2 → Forall (λ b, 0 ≤ b < 256) l1 → Forall (λ b, 0 ≤ b < 256) l2 →
  set_bytes l1 = set_bytes l2 → l1 = l2.
Proof.
  revert l2. induction l1 as [|b1 l1 IH] using rev_ind; intros l2 Hlen H1 H2 Heq.
  { symmetry in Hlen. by apply length_zero_iff_nil in Hlen. }
  destruct l2 as [|b2 l2 _] using rev_ind; [rewrite length_app in Hlen; simpl in Hlen; lia|].
  rewrite !length_app in Hlen. apply Forall_app in H1 as [H1 [Hb1 _]%Forall_cons].
  apply Forall_app in H2 as [H2 [Hb2 _]%Forall_cons].
  unfold set_bytes in *. rewrite !foldl_snoc in Heq.
  assert (b1 = b2) as -> by lia. f_equal. apply IH; [simpl in Hlen; lia|done|done|lia].
Qed.

Lemma clock_bytes_spec n ms :
  length (clock_bytes n ms) = n ∧ Forall (λ b, 0 ≤ b < 256) (clock_bytes n ms).
Proof.
  revert ms. induction n as [|n IH]; intros ms; simpl; [by split|].
  destruct (IH (Z.shiftr ms 8)) as [Hl Hf]. split.
  - rewrite length_app, Hl. simpl. lia.
  - apply Forall_app. split; [done|]. constructor; [|constructor].
    rewrite (Z.land_ones _ 8) by lia. apply Z.mod_pos_bound. lia.
Qed.

Lemma id_value ms r :
  length r = 10%nat → Forall (λ b, 0 ≤ b < 256) r →
  0 ≤ set_bytes (clock_bytes 6 ms ++ r) < 8 * 32 ^ 25.
Proof.
  intros Hl Hr. destruct (clock_bytes_spec 6 ms) as [Hcl Hc].
  destruct (set_bytes_app [] (clock_bytes 6 ms ++ r)) as [_ Hb]; [by apply Forall_app|].
  rewrite length_app, Hcl, Hl in Hb. exact Hb.
Qed.

Lemma newTenantID_Ok ms r id :
  newTenantID ms (Some r) = Ok id →
  id = ("t_" ++ encode_digits 26 (set_bytes (clock_bytes 6 ms ++ r)))%string.
Proof.
  unfold newTenantID. generalize ("t_" ++ encode_digits 26 (set_bytes (clock_bytes 6 ms ++ r)))%string.
  congruence.
Qed.

Lemma drop_prefix s : drop_bytes 2 ("t_" ++ s) = s.
Proof. by destruct s. Qed.

(** The 26 characters of an identifier: Crockford's alphabet, no set padding bits. *)
Definition id_payload (ms : Z) (r : list Z) : string :=
  encode_digits 26 (set_bytes (clock_bytes 6 ms ++ r)).
#[global] Arguments id_payload : simpl never.

Lemma id_payload_spec ms r :
  length r = 10%nat → Forall (λ b, 0 ≤ b < 256) r →
  len (id_payload ms r) = 26 ∧ (∃ c l, bytes (id_payload ms r) = c :: l ∧ c ≤ 55)
  ∧ forallb crockford_rune (runes (id_payload ms r)) = true.
Proof.
  intros Hl Hr. pose proof (id_value ms r Hl Hr) as Hv. unfold id_payload.
  set (v := set_bytes (clock_bytes 6 ms ++ r)) in *. rewrite encode_digits_spec. unfold len.
  rewrite length_string_of_list, length_fmap, digits_length. split; [done|].
  rewrite runes_ascii; rewrite bytes_string.
  - destruct (digits_head 25 v) as (d & l & Hd & Hd7); [simpl; lia|]. rewrite Hd.
    pose proof (digits_range 26 v) as Hrange. rewrite Hd in Hrange.
    destruct (digit_crockford d) as (_ & _ & H55); [lia|]. split.
    { exists (byte_val (digit d)), (byte_val <$> (digit <$> l)). split; [done|]. apply H55. lia. }
    apply forallb_forall. intros c Hc%list_elem_of_In.
    apply list_elem_of_fmap in Hc as (a & -> & Ha).
    apply list_elem_of_fmap in Ha as (x & -> & Hx).
    rewrite Forall_forall in Hrange. by apply digit_crockford, Hrange.
  - apply Forall_fmap, Forall_fmap. eapply Forall_impl; [apply digits_range|].
    intros d Hd. simpl. by apply digit_crockford.
Qed.

Lemma validateTenantID_new ms r id :
  length r = 10%nat → Forall (λ b, 0 ≤ b < 256) r → newTenantID ms (Some r) = Ok id →
  validateTenantID id = Ok ().
Proof.
  intros Hl Hr ->%newTenantID_Ok. destruct (id_payload_spec ms r Hl Hr) as (Hlen & Hhead & Hall).
  change (encode_digits 26 _) with (id_payload ms r).
  revert Hlen Hhead Hall. generalize (id_payload ms r) as p. intros p Hlen (c & l & Hb & Hc) Hall.
  unfold validateTenantID. rewrite drop_prefix, Hb, Hall, (proj2 (Z.ltb_ge 55 c)) by lia.
  change (len ("t_" ++ p)) with (Z.of_nat (S (S (String.length p)))). unfold len in Hlen.
  replace (Z.of_nat (S (S (String.length p)))) with 28 by lia.
  by destruct p.
Qed.

(** Generated tenant identifiers are valid and keep all their randomness.
    Whatever the clock shows, an identifier made from 10 random bytes passes
    [validateTenantID] (28 characters, Crockford alphabet, no set padding bits), and
    two identifiers are equal only if their random bytes are. *)
Theorem new_tenant_id_valid ms1 r1 id1 ms2 r2 id2 :
  length r1 = 10%nat → Forall (λ b, 0 ≤ b < 256) r1 →
  length r2 = 10%nat → Forall (λ b, 0 ≤ b < 256) r2 →
  newTenantID ms1 (Some r1) = Ok id1 → newTenantID ms2 (Some r2) = Ok id2 →
  validateTenantID id1 = Ok () ∧ (id1 = id2 → r1 = r2).
Proof.
  intros Hl1 Hr1 Hl2 Hr2 H1 H2. split; [exact (validateTenantID_new ms1 r1 id1 Hl1 Hr1 H1)|].
  rewrite (newTenantID_Ok _ _ _ H1), (newTenantID_Ok _ _ _ H2).
  pose proof (id_value ms1 r1 Hl1 Hr1) as Hv1. pose proof (id_value ms2 r2 Hl2 Hr2) as Hv2.
  set (v1 := set_bytes (clock_bytes 6 ms1 ++ r1)) in *.
  set (v2 := set_bytes (clock_bytes 6 ms2 ++ r2)) in *.
  rewrite !encode_digits_spec. intros Heq. apply (f_equal (drop_bytes 2)) in Heq. rewrite !drop_prefix in Heq.
    apply (f_equal list_ascii_of_string) in Heq. rewrite !list_ascii_of_string_of_list_ascii in Heq.
    assert (digits 26 v1 = digits 26 v2) as Hdig.
    { revert Heq. pose proof (digits_range 26 v1) as Ha. pose proof (digits_range 26 v2) as Hb.
      revert Ha Hb. generalize (digits 26 v1) (digits 26 v2).
      induction l as [|x l IH]; intros [|y l'] Ha Hb; cbn [fmap list_fmap]; try done.
      inversion Ha; inversion Hb; subst. intros [= Hx Hl]. f_equal; [by apply digit_inj|by apply IH]. }
    apply digits_inj in Hdig; [|simpl; lia..]. unfold v1, v2 in Hdig.
    destruct (clock_bytes_spec 6 ms1) as [Hc1 Hf1]. destruct (clock_bytes_spec 6 ms2) as [Hc2 Hf2].
    apply set_bytes_inj in Hdig; [|by rewrite !length_app, Hc1, Hc2, Hl1, Hl2|by apply Forall_app..].
    by apply app_inj_1 in Hdig as [_ ?]; [|rewrite Hc1, Hc2].
Qed.

(** * What creation and update store is valid *)

Lemma key_byte_spec c : key_byte c = true → 97 ≤ c ≤ 122 ∨ 48 ≤ c ≤ 57 ∨ c = 45.
Proof.
  unfold key_byte. intros H%negb_true_iff. apply andb_false_iff in H as [H|H]; [|bool_prop; lia].
  apply andb_false_iff in H as [H|H]; apply orb_false_iff in H as [??]; bool_prop; lia.
Qed.

Lemma key_char_plain c :
  97 ≤ c ≤ 122 ∨ 48 ≤ c ≤ 57 ∨ c = 45 →
  (0 ≤ c < 128 ∧ is_space c = false) ∧ (0 ≤ c < 128 ∧ lower_rune c = c).
Proof.
  intros Hc. split; (split; [lia|]).
  - unfold is_space. repeat (apply orb_false_iff; split); try apply andb_false_iff;
      rewrite ?Z.leb_gt, ?Z.eqb_neq; lia.
  - unfold lower_rune. repeat (case_match; bool_prop; try lia).
Qed.

Lemma normalizeTenantKey_idem k k' :
  normalizeTenantKey k = Ok k' → normalizeTenantKey k' = Ok k'.
Proof.
  unfold normalizeTenantKey at 1. cbv zeta. set (key := to_lower (trim_space k)).
  destruct ((len key <? 2) || (64 <? len key)) eqn:Hlen; [done|].
  destruct (bytes key) as [|c0 rest] eqn:Hb; [done|].
  destruct ((c0 <? 97) || (122 <? c0)) eqn:Hc; [done|].
  destruct (forallb key_byte rest) eqn:Hr; [|done]. intros Hk.
  assert (k' = key) as -> by congruence. clear Hk.
  assert (Forall (λ c, 97 ≤ c ≤ 122 ∨ 48 ≤ c ≤ 57 ∨ c = 45) (bytes key)) as Hall.
  { rewrite Hb. apply orb_false_iff in Hc as [??]; bool_prop. constructor; [lia|].
    apply Forall_forall. intros c Hin. apply key_byte_spec. rewrite forallb_forall in Hr.
    by apply Hr, list_elem_of_In. }
  unfold normalizeTenantKey. rewrite trim_space_id, to_lower_id; cbv zeta.
  - by rewrite Hlen, Hb, Hc, Hr.
  - eapply Forall_impl; [exact Hall|]. intros c Hc'. by apply key_char_plain.
  - eapply Forall_impl; [exact Hall|]. intros c Hc'. by apply key_char_plain.
Qed.

Lemma validateConfiguration_trim c u :
  validateConfiguration c = Ok u → validateConfiguration (trim_name c) = Ok u.
Proof.
  unfold validateConfiguration, validateDisplayName.
  change (c_DisplayName (trim_name c)) with (trim_space (c_DisplayName c)).
  by rewrite trim_space_idem.
Qed.

(** [random_ok] is what [rand.Read] guarantees when it reports no error. *)
Definition random_ok (random : option (list Z)) : Prop :=
  match random with Some r => length r = 10%nat ∧ Forall (λ b, 0 ≤ b < 256) r | None => True end.

Lemma Validate_inv t u : Validate t = Ok u →
  validateTenantID (TenantID t) = Ok () ∧ normalizeTenantKey (TenantKey t) = Ok (TenantKey t)
  ∧ valid_status (TStatus t) = true ∧ validateConfiguration (TConfig t) = Ok ()
  ∧ 1 ≤ Version t ∧ is_zero (CreatedAt t) = false ∧ is_zero (UpdatedAt t) = false.
Proof.
  unfold Validate, mbind, result_bind.
  destruct (validateTenantID _) as [[]|]; [|done]. destruct (normalizeTenantKey _) as [k|]; [|done].
  destruct (String.eqb_spec k (TenantKey t)) as [->|]; [|done]. simpl.
  destruct (valid_status _); [|done]. simpl. destruct (validateConfiguration _) as [[]|]; [|done].
  destruct (_ || _) eqn:E; [done|]. bool_prop. intros _. by split_and!.
Qed.

Lemma Validate_intro t :
  validateTenantID (TenantID t) = Ok () → normalizeTenantKey (TenantKey t) = Ok (TenantKey t) →
  valid_status (TStatus t) = true → validateConfiguration (TConfig t) = Ok () →
  1 ≤ Version t → is_zero (CreatedAt t) = false → is_zero (UpdatedAt t) = false →
  Validate t = Ok ().
Proof.
  intros H1 H2 H3 H4 H5 H6 H7. unfold Validate, mbind, result_bind.
  rewrite H1, H2, String.eqb_refl, H3, H4, H6, H7. simpl.
  by rewrite (proj2 (Z.ltb_ge _ _) H5).
Qed.

Lemma NewTenant_valid ms random now input t :
  random_ok random → is_zero now = false → NewTenant ms random now input = Ok t →
  Validate t = Ok () ∧ Version t = 1 ∧ TStatus t ≠ StatusDisabled.
Proof.
  intros Hr Hnow. unfold NewTenant, mbind, result_bind.
  destruct (normalizeTenantKey _) as [key|] eqn:Hk; [|congruence].
  destruct (newTenantID ms random) as [id|] eqn:Hid; [|congruence].
  set (status := if (ci_Status input =? "")%string then StatusActive else ci_Status input).
  destruct (valid_status status) eqn:Hs; cbn [negb]; [|congruence].
  destruct (String.eqb_spec status StatusDisabled) as [|Hd]; [congruence|].
  destruct (validateConfiguration _) as [[]|] eqn:Hc; [|congruence]. intros Ht.
  assert (t = mkTenant id key status (trim_name (with_defaults (ci_Config input))) 1 now now)
    as -> by congruence. split; [|by split].
  apply Validate_intro;
    cbn [TenantID TenantKey TStatus TConfig Version CreatedAt UpdatedAt]; try done.
  - destruct random as [r|]; [|discriminate]. destruct Hr as [Hl Hb].
    exact (validateTenantID_new ms r id Hl Hb Hid).
  - exact (normalizeTenantKey_idem _ _ Hk).
  - exact (validateConfiguration_trim _ _ Hc).
Qed.

(** * Runs of the repository *)

Inductive op :=
| OpCreate (ctx : context) (ms : Z) (random : option (list Z)) (now : time) (input : CreateInput)
| OpUpdate (ctx : context) (now : time) (input : UpdateConfigurationInput)
| OpTransition (ctx : context) (now : time) (input : TransitionStatusInput).

Definition exec (o : op) (r : InMemoryRepository) : InMemoryRepository :=
  match o with
  | OpCreate ctx ms random now input => (Create ctx ms random now input r).1
  | OpUpdate ctx now input => (UpdateConfiguration ctx now input r).1
  | OpTransition ctx now input => (TransitionStatus ctx now input r).1
  end.
Definition run (os : list op) (r : InMemoryRepository) : InMemoryRepository :=
  foldl (λ r o, exec o r) r os.

(** What the outside provides: a clock that is not zero, proper random bytes. *)
Definition op_ok (o : op) : Prop :=
  match o with
  | OpCreate _ _ random now _ => random_ok random ∧ is_zero now = false
  | OpUpdate _ now _ | OpTransition _ now _ => is_zero now = false
  end.

(** The identifier index and the key index describe the same valid tenants. *)
Record wf (r : InMemoryRepository) : Prop := {
  wf_id : map_Forall (λ id t, id = TenantID t ∧ Validate t = Ok ()
    ∧ byKey r !! TenantKey t = Some id) (byID r);
  wf_key : map_Forall (λ key id, ∃ t, byID r !! id = Some t ∧ TenantKey t = key) (byKey r)
}.

Definition room (n : nat) (r : InMemoryRepository) : Prop :=
  map_Forall (λ _ t, Version t + Z.of_nat n ≤ int64_max) (byID r).

(** The three ways in which an operation acts on the repository. *)
Inductive effect (r : InMemoryRepository) : InMemoryRepository → Prop :=
| effect_none : effect r r
| effect_new t :
    Validate t = Ok () → Version t = 1 → byID r !! TenantID t = None →
    byKey r !! TenantKey t = None →
    effect r (mkRepository (<[TenantID t := t]> (byID r)) (<[TenantKey t := TenantID t]> (byKey r)))
| effect_update t t' :
    byID r !! TenantID t = Some t → TStatus t ≠ StatusDisabled →
    TenantID t' = TenantID t → TenantKey t' = TenantKey t → Validate t' = Ok () →
    Version t' = Version t + 1 →
    effect r (mkRepository (<[TenantID t := t']> (byID r)) (byKey r)).


Lemma validTransition_status from to : validTransition from to = true → valid_status to = true.
Proof.
  unfold validTransition, valid_status. intros. repeat case_match; bool_prop; try done;
    repeat match goal with Ho : (_ || _)%bool = true |- _ => apply orb_true_iff in Ho as [Ho|Ho] end;
    bool_prop; subst; done.
Qed.

Lemma exec_effect o r : wf r → room 1 r → op_ok o → effect r (exec o r).
Proof.
  intros Hwf Hroom Hok. destruct o as [ctx ms random now input|ctx now input|ctx now input];
    unfold exec, Create, UpdateConfiguration, TransitionStatus; go_unfold;
    destruct (checkContext ctx 0); try apply effect_none.
  - destruct (NewTenant ms random now input) as [t|] eqn:Ht; [|apply effect_none].
    destruct (checkContext ctx 1); [|apply effect_none].
    destruct (checkContext ctx 2); [|apply effect_none].
    destruct Hok as [Hr Hn]. destruct (NewTenant_valid _ _ _ _ _ Hr Hn Ht) as (? & ? & _).
    destruct (byID r !! TenantID t) eqn:Hid; [apply effect_none|].
    destruct (byKey r !! TenantKey t) eqn:Hk; [apply effect_none|]. by apply effect_new.
  - destruct (validateConfiguration _) as [[]|] eqn:Hc; [|apply effect_none].
    destruct (checkContext ctx 1); [|apply effect_none].
    destruct (checkContext ctx 2); [|apply effect_none].
    destruct (byID r !! ui_TenantID input) as [t|] eqn:Hid; [|apply effect_none].
    destruct (String.eqb_spec (TStatus t) StatusDisabled); [apply effect_none|].
    destruct (ui_ExpectedVersion input =? Version t); [|apply effect_none]. cbn [negb fst].
    destruct (wf_id _ Hwf _ _ Hid) as (Hself & Hval & _). rewrite Hself in *.
    apply Validate_inv in Hval as (? & ? & ? & ? & ? & ? & ?).
    pose proof (Hroom _ _ Hid) as Hver. simpl in Hver.
    assert (incr64 (Version t) = Version t + 1) as Hinc
      by (apply incr64_small; unfold int64_min, int64_max in *; lia).
    apply effect_update; try done. apply Validate_intro; try done.
    + exact (validateConfiguration_trim _ _ Hc).
    + cbn [Version]. lia.
  - destruct (validateMetadata _); [|apply effect_none].
    destruct (checkContext ctx 1); [|apply effect_none].
    destruct (checkContext ctx 2); [|apply effect_none].
    destruct (byID r !! ti_TenantID input) as [t|] eqn:Hid; [|apply effect_none].
    destruct (String.eqb_spec (TStatus t) StatusDisabled); [apply effect_none|].
    destruct (ti_ExpectedVersion input =? Version t); [|apply effect_none]. cbn [negb].
    destruct (validTransition _ _) eqn:Hv; [|apply effect_none]. cbn [negb fst].
    destruct (wf_id _ Hwf _ _ Hid) as (Hself & Hval & _). rewrite Hself in *.
    apply Validate_inv in Hval as (? & ? & ? & ? & ? & ? & ?).
    pose proof (Hroom _ _ Hid) as Hver. simpl in Hver.
    assert (incr64 (Version t) = Version t + 1) as Hinc
      by (apply incr64_small; unfold int64_min, int64_max in *; lia).
    apply effect_update; try done. apply Validate_intro; try done.
    + exact (validTransition_status _ _ Hv).
    + cbn [Version]. lia.
Qed.

Lemma effect_wf r r' : wf r → effect r r' → wf r'.
Proof.
  intros [Hid Hkey] [|t Hval _ Hn Hk|t t' Ht _ Hti Htk Hval _]; [done|..].
  - split; simpl.
    + apply map_Forall_insert_at; [|by rewrite lookup_insert_eq].
      intros id u Hu. destruct (Hid _ _ Hu) as (? & ? & Hb). split_and!; [done..|].
      rewrite lookup_insert_ne; [done|]. intros Heq. by rewrite <- Heq, Hk in Hb.
    + apply map_Forall_insert_at; [|exists t; by rewrite lookup_insert_eq].
      intros key id Hb. destruct (Hkey _ _ Hb) as (u & Hu & ?). exists u.
      split; [|done]. rewrite lookup_insert_ne; [done|]. intros <-. by rewrite Hn in Hu.
  - destruct (Hid _ _ Ht) as (_ & _ & Hb). split; simpl.
    + apply map_Forall_insert_at; [done|]. split_and!; [done..|]. by rewrite Htk.
    + intros key id Hk. destruct (Hkey _ _ Hk) as (u & Hu & Huk).
      destruct (decide (TenantID t = id)) as [<-|].
      * exists t'. rewrite lookup_insert_eq. split; [done|]. simplify_eq. congruence.
      * exists u. by rewrite lookup_insert_ne.
Qed.

Lemma effect_room n r r' : Z.of_nat n < int64_max → room (S n) r → effect r r' → room n r'.
Proof.
  intros Hn Hroom Heff. assert (room n r) as Hr.
  { intros id t Ht. specialize (Hroom _ _ Ht). simpl in *. lia. }
  destruct Heff as [|t _ Hv|t t' Ht _ _ _ _ Hv]; [done|..]; apply map_Forall_insert_at; try done.
  - simpl. lia.
  - specialize (Hroom _ _ Ht). simpl in *. lia.
Qed.

Lemma run_effects (R : InMemoryRepository → InMemoryRepository → Prop) `{!PreOrder R} os n r :
  (∀ r r', wf r → effect r r' → R r r') →
  wf r → room (length os + n) r → Z.of_nat (length os + n) ≤ int64_max → Forall op_ok os →
  wf (run os r) ∧ room n (run os r) ∧ R r (run os r).
Proof.
  intros HR. revert r. induction os as [|o os IH]; intros r Hwf Hroom Hmax Hok; [done|].
  simpl in *. inversion Hok; subst. assert (effect r (exec o r)) as Heff.
  { apply exec_effect; [done| |done]. intros id t Ht. specialize (Hroom _ _ Ht). simpl in *. lia. }
  destruct (IH (exec o r)) as (? & ? & ?); [by eapply effect_wf| |lia|done|].
  { eapply effect_room; [|exact Hroom|done]. lia. }
  split_and!; [done..|]. etrans; [by apply HR|done].
Qed.

Lemma tenant_run_wf os :
  Z.of_nat (length os) ≤ int64_max → Forall op_ok os → wf (run os NewInMemoryRepository).
Proof.
  intros Hmax Hok. assert (PreOrder (λ _ _ : InMemoryRepository, True)) by (by split).
  refine (proj1 (run_effects (λ _ _, True) os 0 NewInMemoryRepository _ _ _ _ _));
    [done|split; apply map_Forall_empty|apply map_Forall_empty|lia|done].
Qed.

(** The repository only ever holds valid tenants, under unique keys.  After any
    sequence of operations on an empty repository, every stored tenant passes
    [Validate], is stored under its identifier, is found through its normalized key,
    and no two tenants share a key. *)
Theorem repository_valid os :
  Z.of_nat (length os) ≤ int64_max → Forall op_ok os →
  let r := run os NewInMemoryRepository in
  wf r ∧ ∀ id1 id2 t1 t2, byID r !! id1 = Some t1 → byID r !! id2 = Some t2 →
    TenantKey t1 = TenantKey t2 → id1 = id2.
Proof.
  intros Hmax Hok r. assert (wf r) as Hwf by (by apply tenant_run_wf).
  split; [done|]. intros id1 id2 t1 t2 H1 H2 Hk.
  destruct (wf_id _ Hwf _ _ H1) as (_ & _ & Hb1). destruct (wf_id _ Hwf _ _ H2) as (_ & _ & Hb2).
  congruence.
Qed.

(** * Optimistic concurrency *)

(** The tenant and the version that an update expects, and whether it is accepted. *)
Definition expects (o : op) : option (string * Z) :=
  match o with
  | OpCreate _ _ _ _ _ => None
  | OpUpdate _ _ input => Some (ui_TenantID input, ui_ExpectedVersion input)
  | OpTransition _ _ input => Some (ti_TenantID input, ti_ExpectedVersion input)
  end.
Definition accepted (o : op) (r : InMemoryRepository) : bool :=
  match o with
  | OpCreate ctx ms random now input => is_ok (Create ctx ms random now input r).2
  | OpUpdate ctx now input => is_ok (UpdateConfiguration ctx now input r).2
  | OpTransition ctx now input => is_ok (TransitionStatus ctx now input r).2
  end.

(** Tenants stay, their versions grow with every change, disabled ones stay as they are. *)
Definition tenants_persist (r r' : InMemoryRepository) : Prop :=
  ∀ id t, byID r !! id = Some t → ∃ t', byID r' !! id = Some t' ∧ Version t ≤ Version t'
    ∧ (TStatus t = StatusDisabled → t' = t).

#[local] Instance tenants_persist_preorder : PreOrder tenants_persist.
Proof.
  split.
  - intros r id t Ht. exists t. split_and!; [done|lia|done].
  - intros r1 r2 r3 H12 H23 id t Ht. destruct (H12 _ _ Ht) as (t2 & Ht2 & ? & Hd2).
    destruct (H23 _ _ Ht2) as (t3 & Ht3 & ? & Hd3). exists t3. split_and!; [done|lia|].
    intros Hd. rewrite (Hd2 Hd) in Hd3. auto.
Qed.

Lemma tenants_persist_effect r r' : wf r → effect r r' → tenants_persist r r'.
Proof.
  intros Hwf Heff id u Hu.
  destruct Heff as [|t _ _ Hn|t t' Ht Hd _ _ _ Hv]; simpl.
  - exists u. split_and!; [done|lia|done].
  - exists u. rewrite lookup_insert_ne; [split_and!; [done|lia|done]|]. intros <-. congruence.
  - destruct (decide (TenantID t = id)) as [<-|].
    + exists t'. rewrite lookup_insert_eq. simplify_eq. split_and!; [done|lia|done].
    + exists u. rewrite lookup_insert_ne by done. split_and!; [done|lia|done].
Qed.

(** An accepted update found the version it expected and left the next one. *)
Lemma accepted_version o r id v :
  room 1 r → wf r → expects o = Some (id, v) → accepted o r = true →
  ∃ t t', byID r !! id = Some t ∧ Version t = v ∧ byID (exec o r) !! id = Some t'
    ∧ Version t' = v + 1.
Proof.
  intros Hroom Hwf. destruct o as [|ctx now input|ctx now input]; intros [= <- <-]; simpl;
    unfold UpdateConfiguration, TransitionStatus; go_unfold;
    destruct (checkContext ctx 0); try discriminate;
    [destruct (validateConfiguration _) as [[]|]; [|discriminate]
    |destruct (validateMetadata _) as [[]|]; [|discriminate]];
    (destruct (checkContext ctx 1); [|discriminate]);
    (destruct (checkContext ctx 2); [|discriminate]);
    match goal with |- context [byID r !! ?id] =>
      destruct (byID r !! id) as [t|] eqn:Hid; [|discriminate] end;
    (destruct (TStatus t =? StatusDisabled)%string; [discriminate|]);
    match goal with |- context [negb (?e =? Version ?u)] =>
      destruct (Z.eqb_spec e (Version u)) as [->|]; [|discriminate] end; cbn [negb];
    [|destruct (validTransition _ _); [|discriminate]; cbn [negb]];
    intros _; exists t; pose proof (Hroom _ _ Hid) as Hver; simpl in Hver;
    destruct (wf_id _ Hwf _ _ Hid) as (_ & Hval & _);
    apply Validate_inv in Hval as (_ & _ & _ & _ & ? & _);
    (eexists; split_and!; [done|done|apply lookup_insert_eq|]);
    (apply incr64_small; unfold int64_min, int64_max in *; lia).
Qed.

(** No update is lost and a disabled tenant is final.  Of all the configuration
    updates and status changes that expect the same version of a tenant, at most one
    is ever accepted, however many operations lie between them; and once a tenant is
    disabled, no operation changes it. *)
Theorem no_lost_update r os o1 o2 id v :
  wf r → room (S (S (length os))) r → Z.of_nat (S (S (length os))) ≤ int64_max →
  Forall op_ok (o1 :: os) →
  (expects o1 = Some (id, v) → expects o2 = Some (id, v) → accepted o1 r = true →
     accepted o2 (run os (exec o1 r)) = false)
  ∧ (∀ t, byID r !! id = Some t → TStatus t = StatusDisabled →
       byID (run (o1 :: os) r) !! id = Some t).
Proof.
  intros Hwf Hroom Hmax Hok.
  assert (room 1 r) as Hroom1.
  { intros i t Ht. specialize (Hroom _ _ Ht). simpl in *. lia. }
  split.
  - intros He1 He2 Hacc. destruct (accepted_version _ _ _ _ Hroom1 Hwf He1 Hacc)
      as (_ & t1 & _ & _ & Ht1 & Hv1).
    assert (effect r (exec o1 r)) as Heff by (apply exec_effect; [done..|by inversion Hok]).
    destruct (run_effects tenants_persist os 1 (exec o1 r)) as (Hwf2 & Hroom2 & Hpers).
    { apply tenants_persist_effect. }
    { by eapply effect_wf. }
    { eapply effect_room; [|rewrite <- plus_n_Sm, Nat.add_0_r; exact Hroom|done]. lia. }
    { lia. }
    { by inversion Hok. }
    destruct (Hpers _ _ Ht1) as (t2 & Ht2 & Hle & _).
    destruct (accepted o2 (run os (exec o1 r))) eqn:Hacc2; [|done].
    destruct (accepted_version _ _ _ _ Hroom2 Hwf2 He2 Hacc2) as (t3 & _ & Ht3 & Hv3 & _).
    simplify_eq. lia.
  - intros t Ht Hd. destruct (run_effects tenants_persist (o1 :: os) 1 r) as (_ & _ & Hpers).
    { apply tenants_persist_effect. }
    { done. }
    { simpl. rewrite <- plus_n_Sm, Nat.add_0_r. exact Hroom. }
    { simpl in *. lia. }
    { done. }
    destruct (Hpers _ _ Ht) as (t' & Ht' & _ & Hsame). by rewrite (Hsame Hd) in Ht'.
Qed.

(** * Runner identities *)

(** Equal identities come from equal tenants and equal external identifiers. *)
Lemma namespacedID_inj t1 e1 t2 e2 n :
  namespacedID t1 e1 = Ok n → namespacedID t2 e2 = Ok n → t1 = t2 ∧ e1 = e2.
Proof.
  unfold namespacedID. destruct (e1 =? "")%string, (e2 =? "")%string; try discriminate.
  intros H1 H2. rewrite <- H1 in H2. injection H2 as H2.
  assert ((len_prefixed t2 ++ (":" ++ len_prefixed e2))%string
    = (len_prefixed t1 ++ (":" ++ len_prefixed e1))%string) as Heq.
  { unfold len_prefixed. rewrite !string_app_assoc. exact H2. }
  apply len_prefixed_app_inj in Heq as [-> Heq]. split; [done|].
  injection Heq as Heq. symmetry.
  apply (len_prefixed_app_inj e2 e1 "" "").
  change String.append with append in *. by f_equal.
Qed.

(** * Witnesses *)

Definition ex_config : Configuration :=
  mkConfiguration " Acme " None (Some 4) None (Some 100) "EUR" 0 "" (f64 1) None None.
Definition ex_random : list Z := [1; 2; 3; 4; 5; 6; 7; 8; 9; 10].
Definition ex_create : op :=
  OpCreate background 1700000000000 (Some ex_random) 5 (mkCreateInput " Acme-1 " "" ex_config).
Definition ex_repo : InMemoryRepository := run [ex_create] NewInMemoryRepository.
Definition ex_id : string := "t_01HF7YAT00041061050R3GG28A".

Lemma ex_random_ok : random_ok (Some ex_random).
Proof. split; [done|]. repeat constructor; lia. Qed.

Lemma ex_create_ok : Forall op_ok [ex_create].
Proof. constructor; [|constructor]. split; [apply ex_random_ok|reflexivity]. Qed.

Lemma new_tenant_id_valid_witness : validateTenantID ex_id = Ok () ∧ (ex_id = ex_id → ex_random = ex_random).
Proof.
  apply (new_tenant_id_valid 1700000000000 ex_random ex_id 1700000000000 ex_random ex_id);
    try apply ex_random_ok; vm_compute; reflexivity.
Defined.

Lemma repository_valid_witness :
  wf ex_repo ∧ ∀ id1 id2 t1 t2, byID ex_repo !! id1 = Some t1 → byID ex_repo !! id2 = Some t2 →
    TenantKey t1 = TenantKey t2 → id1 = id2.
Proof.
  apply (repository_valid [ex_create]); [vm_compute; discriminate|apply ex_create_ok].
Defined.

Definition ex_suspend : op := OpTransition background 6
  (mkTransitionInput ex_id 1 StatusSuspended (mkMetadata "user" "u" "pause" "c")).
Definition ex_disable : op := OpTransition background 7
  (mkTransitionInput ex_id 1 StatusDisabled (mkMetadata "user" "v" "stop" "d")).

Lemma ex_repo_ok : wf ex_repo ∧ room 2 ex_repo.
Proof.
  assert (PreOrder (λ _ _ : InMemoryRepository, True)) by (by split).
  destruct (run_effects (λ _ _, True) [ex_create] 2 NewInMemoryRepository) as (? & ? & _); auto.
  - split; apply map_Forall_empty.
  - apply map_Forall_empty.
  - vm_compute. discriminate.
  - apply ex_create_ok.
Qed.

Lemma no_lost_update_witness : accepted ex_disable (run [] (exec ex_suspend ex_repo)) = false.
Proof.
  apply (proj1 (no_lost_update ex_repo [] ex_suspend ex_disable ex_id 1
    (proj1 ex_repo_ok) (proj2 ex_repo_ok) ltac:(vm_compute; discriminate)
    ltac:(constructor; [reflexivity|constructor]))); vm_compute; reflexivity.
Defined.
