(* ===== verification/Agent.v ===== *)
(** Agent apps, [trpcservice/agent/app.go]: the root entity of an agent application,
    its identifiers, validation, lifecycle and execution gate.  Cloning is the
    identity on values. *)
From Stdlib Require Import Ascii String.
From S2P Require Import Prelude GoStrings Tenant.
Local Open Scope Z_scope.

Inductive error :=
| ErrInvalid | ErrNotFound | ErrConflict | ErrDuplicateKey | ErrDisabled
| ErrInvalidTransition | ErrImmutableRevision | ErrRandom | ErrEncode
| ErrContext (e : ctx_error).
#[export] Instance error_eq_dec : EqDecision error.
Proof. solve_decision. Defined.

Definition StatusDraft : string := "draft".
Definition StatusActive : string := "active".
Definition StatusSuspended : string := "suspended".
Definition StatusDisabled : string := "disabled".

Record App := mkApp {
  TenantID : string;
  AppID : string;
  AppKey : string;
  DisplayName : string;
  Description : string;
  Status : string;
  CurrentRevision : option Z;
  CanaryRevision : option Z;
  Version : Z;
  CreatedAt : time;
  UpdatedAt : time }.
#[export] Instance app_eq_dec : EqDecision App.
Proof. solve_decision. Defined.

Record CreateInput := mkCreateInput {
  ci_TenantID : string; ci_AppKey : string; ci_DisplayName : string; ci_Description : string }.

Definition validStatus (status : string) : bool :=
  (status =? StatusDraft)%string || (status =? StatusActive)%string
  || (status =? StatusSuspended)%string || (status =? StatusDisabled)%string.

Definition validateAppMetadata (displayName description : string) : result error unit :=
  let n := rune_count (trim_space displayName) in
  if (n <? 1) || (200 <? n) then Err ErrInvalid
  else if 2000 <? rune_count (trim_space description) then Err ErrInvalid
  else Ok ().

Definition normalizeAppKey (key : string) : result error string :=
  let key := to_lower (trim_space key) in
  if (len key <? 2) || (64 <? len key) then Err ErrInvalid
  else match bytes key with
  | [] => Err ErrInvalid
  | c0 :: rest =>
      if (c0 <? 97) || (122 <? c0) then Err ErrInvalid
      else if forallb key_byte rest then Ok key else Err ErrInvalid
  end.

Definition validateCrockfordID (id prefix : string) : result error unit :=
  let payload := trim_prefix id prefix in
  if (payload =? id)%string || negb (len payload =? 26) then Err ErrInvalid
  else match bytes payload with
  | [] => Err ErrInvalid
  | c :: _ =>
      if 55 <? c then Err ErrInvalid
      else if forallb crockford_rune (runes payload) then Ok () else Err ErrInvalid
  end.
Definition validateTenantID (id : string) : result error unit := validateCrockfordID id "t_".
Definition validateAppID (id : string) : result error unit := validateCrockfordID id "app_".

Definition newAppID (ms : Z) (random : option (list Z)) : result error string :=
  match random with
  | None => Err ErrRandom
  | Some r => Ok ("app_" ++ encode_digits 26 (set_bytes (clock_bytes 6 ms ++ r)))%string
  end.

Definition NewApp (ms : Z) (random : option (list Z)) (now : time) (input : CreateInput)
    : result error App :=
  _ ← validateTenantID (ci_TenantID input);
  key ← normalizeAppKey (ci_AppKey input);
  _ ← validateAppMetadata (ci_DisplayName input) (ci_Description input);
  id ← newAppID ms random;
  Ok (mkApp (ci_TenantID input) id key (trim_space (ci_DisplayName input))
    (trim_space (ci_Description input)) StatusDraft None None 1 now now).

Definition validateIdentity (a : App) : result error unit :=
  _ ← validateTenantID (TenantID a);
  _ ← validateAppID (AppID a);
  key ← normalizeAppKey (AppKey a);
  _ ← guard_ok (key =? AppKey a)%string ErrInvalid;
  _ ← validateAppMetadata (DisplayName a) (Description a);
  guard_ok ((DisplayName a =? trim_space (DisplayName a))%string
    && (Description a =? trim_space (Description a))%string) ErrInvalid.

Definition lifecycle_ok (a : App) : bool :=
  if (Status a =? StatusDraft)%string then opt_is_nil (CurrentRevision a)
  else if (Status a =? StatusActive)%string || (Status a =? StatusSuspended)%string
    then match CurrentRevision a with None => false | Some r => 1 <=? r end
  else if (Status a =? StatusDisabled)%string
    then match CurrentRevision a with None => true | Some r => 1 <=? r end
  else true.

Definition canary_ok (a : App) : bool :=
  match CanaryRevision a with
  | None => true
  | Some c => (1 <=? c)
      && match CurrentRevision a with None => false | Some r => negb (c =? r) end
  end.

Definition validateLifecycle (a : App) : result error unit :=
  _ ← guard_ok (validStatus (Status a)) ErrInvalid;
  _ ← guard_ok (lifecycle_ok a) ErrInvalid;
  guard_ok (canary_ok a) ErrInvalid.

Definition Validate (a : App) : result error unit :=
  _ ← validateIdentity a;
  _ ← validateLifecycle a;
  guard_ok (negb ((Version a <? 1) || is_zero (CreatedAt a) || is_zero (UpdatedAt a)
    || before (UpdatedAt a) (CreatedAt a))) ErrInvalid.

Definition CanAcceptExecution (a : App) : bool :=
  (Status a =? StatusActive)%string
  && match CurrentRevision a with None => false | Some r => 1 <=? r end.

Definition CanTransitionTo (a : App) (next : string) : bool :=
  if (Status a =? StatusDraft)%string then (next =? StatusDisabled)%string
  else if (Status a =? StatusActive)%string
    then (next =? StatusSuspended)%string || (next =? StatusDisabled)%string
  else if (Status a =? StatusSuspended)%string
    then (next =? StatusActive)%string || (next =? StatusDisabled)%string
  else false.

#[global] Arguments validateCrockfordID : simpl never.
#[global] Arguments normalizeAppKey : simpl never.
#[global] Arguments newAppID : simpl never.
#[global] Arguments Validate : simpl never.

(** * New apps are valid *)

Lemma normalizeAppKey_idem key k : normalizeAppKey key = Ok k → normalizeAppKey k = Ok k.
Proof.
  assert (∀ s, normalizeAppKey s
    = match normalizeTenantKey s with Ok k => Ok k | Err _ => Err ErrInvalid end) as Heq.
  { intros s. unfold normalizeAppKey, normalizeTenantKey. cbv zeta.
    generalize (to_lower (trim_space s)). intros t. repeat (case_match; try congruence). }
  rewrite !Heq. destruct (normalizeTenantKey key) eqn:Hk; [|discriminate].
  intros [= ->]. by rewrite (normalizeTenantKey_idem _ _ Hk).
Qed.

Lemma trim_prefix_app p : trim_prefix ("app_" ++ p) "app_" = p.
Proof. by destruct p. Qed.

Lemma newAppID_valid ms r id :
  length r = 10%nat → Forall (λ b, 0 ≤ b < 256) r → newAppID ms (Some r) = Ok id →
  validateAppID id = Ok ().
Proof.
  intros Hl Hr. unfold newAppID. change (encode_digits 26 _) with (id_payload ms r).
  destruct (id_payload_spec ms r Hl Hr) as (Hlen & Hhead & Hall).
  revert Hlen Hhead Hall. generalize (id_payload ms r) as p. intros p Hlen (c & l & Hb & Hc) Hall Hid.
  assert (id = ("app_" ++ p)%string) as -> by congruence.
  unfold validateAppID, validateCrockfordID. cbv zeta.
  rewrite trim_prefix_app, Hb, Hall, (proj2 (Z.ltb_ge 55 c)), Hlen by lia.
  destruct (String.eqb_spec p ("app_" ++ p)) as [Heq|]; [|done].
  apply (f_equal String.length) in Heq. change (String.length ("app_" ++ p))
    with (S (S (S (S (String.length p))))) in Heq. lia.
Qed.

(** A created app passes validation and cannot run before something is published. *)
Lemma NewApp_valid ms r now input a :
  length r = 10%nat → Forall (λ b, 0 ≤ b < 256) r → is_zero now = false →
  NewApp ms (Some r) now input = Ok a →
  Validate a = Ok () ∧ CanAcceptExecution a = false.
Proof.
  intros Hl Hr Hz. unfold NewApp. go_unfold.
  destruct (validateTenantID _) as [[]|] eqn:Ht; [|discriminate].
  destruct (normalizeAppKey _) as [key|] eqn:Hk; [|discriminate].
  destruct (validateAppMetadata _ _) as [[]|] eqn:Hm; [|discriminate].
  destruct (newAppID ms (Some r)) as [id|] eqn:Hid; [|discriminate]. intros Heq.
  match type of Heq with Ok ?x = _ => assert (a = x) as -> by congruence end. clear Heq.
  split; [|done]. unfold Validate, validateIdentity, validateLifecycle. go_unfold.
  cbn [TenantID AppID AppKey DisplayName Description Status CurrentRevision CanaryRevision
    Version CreatedAt UpdatedAt].
  rewrite Ht, (newAppID_valid _ _ _ Hl Hr Hid), (normalizeAppKey_idem _ _ Hk), String.eqb_refl.
  unfold validateAppMetadata in *. rewrite !trim_space_idem, Hm, !String.eqb_refl.
  simpl. rewrite Hz. unfold before. by rewrite Z.ltb_irrefl.
Qed.
