(* ===== verification/GoFloat.v ===== *)
(** Decimal text of binary64 numbers, as [encoding/json] writes them: the shortest digits
    that [strconv.FormatFloat] finds in the rounding interval of the number, without an
    exponent between 1e-6 and 1e21.  The digests of agent revisions are taken over this
    text. *)
From Stdlib Require Import Ascii String.
From Corelib Require Import SpecFloat.
From S2P Require Import Prelude GoStrings.
Local Open Scope Z_scope.

#[export] Instance spec_float_eq_dec : EqDecision spec_float.
Proof. solve_decision. Defined.

(** A positive finite number is [m * 2 ^ e].  Its rounding interval, in units of
    [2 ^ (e - 2)], is [4 m - 2 .. 4 m + 2]; below a power of two it is half as wide. *)
Definition interval_low (m e : Z) : Z :=
  if (m =? 2 ^ 52) && (-1074 <? e) then 4 * m - 1 else 4 * m - 2.
Definition interval_high (m : Z) : Z := 4 * m + 2.

(** The comparison of [q * 2 ^ (e - 2)] with [d * 10 ^ k]. *)
Definition compare_scaled (q e d k : Z) : comparison :=
  (q * 2 ^ Z.max 0 (e - 2) * 10 ^ Z.max 0 (- k) ?= d * 2 ^ Z.max 0 (2 - e) * 10 ^ Z.max 0 k).

(** The position [k] of the decimal point: [10 ^ (k - 1) <= m * 2 ^ e < 10 ^ k].  The
    search starts from an upper bound taken from the binary length. *)
Definition point_bound (m e : Z) : Z := (Z.log2 m + 1 + e) * 30103 / 100000 + 2.
Fixpoint point_position (fuel : nat) (m e k : Z) : Z :=
  match fuel with
  | O => k
  | S fuel' => match compare_scaled (4 * m) e 1 (k - 1) with
               | Lt => point_position fuel' m e (k - 1)
               | _ => k
               end
  end.

(** Does the decimal [d * 10 ^ k] read back as the number?  The ends of the interval do
    when the mantissa is even. *)
Definition reads_back (m e d k : Z) : bool :=
  match compare_scaled (interval_low m e) e d k, compare_scaled (interval_high m) e d k with
  | Lt, Gt => true
  | Eq, _ | _, Eq => Z.even m
  | _, _ => false
  end.

(** Of the two decimals of one length around the number, the closer one that reads
    back. *)
Definition round_digits (m e k : Z) : option Z :=
  let num := 4 * m * 2 ^ Z.max 0 (e - 2) * 10 ^ Z.max 0 (- k) in
  let den := 2 ^ Z.max 0 (2 - e) * 10 ^ Z.max 0 k in
  let d := num / den in
  match reads_back m e d k, reads_back m e (d + 1) k with
  | true, true => match (2 * (num - d * den) ?= den) with
                  | Lt => Some d
                  | Eq => Some (if Z.even d then d else d + 1)
                  | Gt => Some (d + 1)
                  end
  | true, false => Some d
  | false, true => Some (d + 1)
  | false, false => None
  end.

(** Seventeen digits always suffice. *)
Fixpoint shortest (fuel : nat) (m e point n : Z) : Z * Z :=
  match fuel with
  | O => (4 * m * 2 ^ Z.max 0 (e - 2) * 10 ^ Z.max 0 (n - point)
            / (2 ^ Z.max 0 (2 - e) * 10 ^ Z.max 0 (point - n)), point - n)
  | S fuel' => match round_digits m e (point - n) with
               | Some d => (d, point - n)
               | None => shortest fuel' m e point (n + 1)
               end
  end.

Fixpoint strip_zeros (fuel : nat) (d k : Z) : Z * Z :=
  match fuel with
  | O => (d, k)
  | S fuel' => if d mod 10 =? 0 then strip_zeros fuel' (d / 10) (k + 1) else (d, k)
  end.

Fixpoint zeros (n : nat) : string := match n with O => "" | S n' => String "0" (zeros n') end.

(** The digits without an exponent, the point after the first [p] of them. *)
Definition fixed_text (digits : string) (p : Z) : string :=
  let n := len digits in
  if p <=? 0 then "0." ++ zeros (Z.to_nat (- p)) ++ digits
  else if n <=? p then digits ++ zeros (Z.to_nat (p - n))
  else String.substring 0 (Z.to_nat p) digits ++ "."
       ++ String.substring (Z.to_nat p) (Z.to_nat (n - p)) digits.

Definition exponent_text (digits : string) (p : Z) : string :=
  (match digits with
   | String c "" => String c ""
   | String c rest => String c "." ++ rest
   | "" => ""
   end) ++ "e" ++ (if (p - 1 <? 0)%Z then "-" else "+") ++ itoa (Z.abs (p - 1)).

(** The JSON text of a number; infinities and NaN cannot be written. *)
Definition json_float (x : spec_float) : option string :=
  match x with
  | S754_zero s => Some (if s then "-0" else "0")%string
  | S754_infinity _ | S754_nan => None
  | S754_finite s m e =>
      let m := Z.pos m in
      let '(d, k) := shortest 17 m e (point_position 4 m e (point_bound m e)) 1 in
      let '(d, k) := strip_zeros 20 d k in
      let digits := itoa d in
      let p := k + len digits in
      Some ((if s then "-" else "") ++
        (if ((p <? -5) || (21 <? p))%Z then exponent_text digits p else fixed_text digits p))%string
  end.

#[global] Arguments json_float : simpl never.

Definition f64_ratio (a b : Z) : spec_float :=
  SFdiv 53 1024 (binary_normalize 53 1024 a 0 false) (binary_normalize 53 1024 b 0 false).

(** Texts that [json.Marshal] documents or its tests fix. *)
Example json_float_texts :
  json_float <$> [f64_ratio 7 10; f64_ratio 1 1; f64_ratio 1 10; f64_ratio 2 1; f64_ratio 1 3;
    f64_ratio 1 10000000; f64_ratio 1 1000000; f64_ratio 123 1000; f64_ratio (10 ^ 21) 1;
    f64_ratio (10 ^ 20) 1; S754_finite false 1 (-1074); f64_ratio 123456789 (10 ^ 17); f64_ratio 999999 (10 ^ 12)]
  = [Some "0.7"; Some "1"; Some "0.1"; Some "2"; Some "0.3333333333333333";
     Some "1e-7"; Some "0.000001"; Some "0.123"; Some "1e+21"; Some "100000000000000000000";
     Some "5e-324"; Some "1.23456789e-9"; Some "9.99999e-7"]%string.
Proof. vm_compute. reflexivity. Qed.
