(* ===== verification/Sha256.v ===== *)
(** SHA-256 and hexadecimal text, as [crypto/sha256] and [encoding/hex] compute them,
    and the JSON text that [encoding/json] writes for strings (Go 1.21, HTML escaping
    on).  Strings are byte strings, as everywhere in the development. *)
From S2P Require Import Prelude GoStrings.
Open Scope Z_scope.

(** * SHA-256 *)

Definition mask32 (z : Z) : Z := Z.land z 4294967295.
Definition rotr (x n : Z) : Z := mask32 (Z.lor (Z.shiftr x n) (Z.shiftl x (32 - n))).

(** The constants of the algorithm are the first 32 bits of the fractional parts of
    square and cube roots of the first primes. *)
Definition divisible_by (n d : nat) : bool := (Nat.modulo n d =? 0)%nat.
Definition prime_list (bound : nat) : list nat :=
  filter (λ n, existsb (divisible_by n) (seq 2 (n - 2)) = false) (seq 2 bound).

(** The integer cube root by bisection: the root of [z] is in [lo, lo + 2 ^ n). *)
Fixpoint cube_root (n : nat) (lo z : Z) : Z :=
  match n with
  | O => lo
  | S n' =>
      let mid := lo + 2 ^ Z.of_nat n' in
      cube_root n' (if mid * mid * mid <=? z then mid else lo) z
  end.

Definition cube_fraction (p : nat) : Z := mask32 (cube_root 36 0 (Z.of_nat p * 2 ^ 96)).
Definition square_fraction (p : nat) : Z := mask32 (Z.sqrt (Z.of_nat p * 2 ^ 64)).

Definition round_constants : list Z := Eval vm_compute in (cube_fraction <$> prime_list 310).

Record hash := mkHash { h0 : Z; h1 : Z; h2 : Z; h3 : Z; h4 : Z; h5 : Z; h6 : Z; h7 : Z }.

Definition initial_hash : hash := Eval vm_compute in
  match square_fraction <$> prime_list 18 with
  | [a; b; c; d; e; f; g; h] => mkHash a b c d e f g h
  | _ => mkHash 0 0 0 0 0 0 0 0
  end.

(** The message schedule, latest word first. *)
Fixpoint extend (n : nat) (w : list Z) : list Z :=
  match n with
  | O => w
  | S n' =>
      let at_ k := nth k w 0 in
      let s0 := Z.lxor (Z.lxor (rotr (at_ 14%nat) 7) (rotr (at_ 14%nat) 18)) (Z.shiftr (at_ 14%nat) 3) in
      let s1 := Z.lxor (Z.lxor (rotr (at_ 1%nat) 17) (rotr (at_ 1%nat) 19)) (Z.shiftr (at_ 1%nat) 10) in
      extend n' (mask32 (at_ 15%nat + s0 + at_ 6%nat + s1) :: w)
  end.

Definition sha_round (h : hash) (kw : Z * Z) : hash :=
  let s1 := Z.lxor (Z.lxor (rotr (h4 h) 6) (rotr (h4 h) 11)) (rotr (h4 h) 25) in
  let ch := Z.lxor (Z.land (h4 h) (h5 h)) (Z.land (Z.lxor (h4 h) 4294967295) (h6 h)) in
  let t1 := mask32 (h7 h + s1 + ch + kw.1 + kw.2) in
  let s0 := Z.lxor (Z.lxor (rotr (h0 h) 2) (rotr (h0 h) 13)) (rotr (h0 h) 22) in
  let maj := Z.lxor (Z.lxor (Z.land (h0 h) (h1 h)) (Z.land (h0 h) (h2 h))) (Z.land (h1 h) (h2 h)) in
  mkHash (mask32 (t1 + s0 + maj)) (h0 h) (h1 h) (h2 h) (mask32 (h3 h + t1)) (h4 h) (h5 h) (h6 h).

Definition compress (h : hash) (words : list Z) : hash :=
  let w := rev (extend 48 (rev words)) in
  let r := foldl sha_round h (zip round_constants w) in
  mkHash (mask32 (h0 h + h0 r)) (mask32 (h1 h + h1 r)) (mask32 (h2 h + h2 r)) (mask32 (h3 h + h3 r))
    (mask32 (h4 h + h4 r)) (mask32 (h5 h + h5 r)) (mask32 (h6 h + h6 r)) (mask32 (h7 h + h7 r)).

(** The low [n] bytes of a number, most significant first. *)
Fixpoint be_bytes (n : nat) (z : Z) : list Z :=
  match n with O => [] | S n' => be_bytes n' (Z.shiftr z 8) ++ [Z.land z 255] end.

Fixpoint be_words (l : list Z) : list Z :=
  match l with
  | a :: b :: c :: d :: l' => ((a * 256 + b) * 256 + c) * 256 + d :: be_words l'
  | _ => []
  end.

(** A one bit, zeros up to 8 bytes before a block boundary, and the length in bits. *)
Definition pad (l : list Z) : list Z :=
  let n := Z.of_nat (length l) in
  l ++ 128 :: replicate (Z.to_nat ((55 - n) `mod` 64)) 0 ++ be_bytes 8 (8 * n).

Fixpoint hash_blocks (n : nat) (h : hash) (words : list Z) : hash :=
  match n with
  | O => h
  | S n' => hash_blocks n' (compress h (take 16 words)) (drop 16 words)
  end.

Definition sum256 (l : list Z) : list Z :=
  let words := be_words (pad l) in
  let h := hash_blocks (length words / 16) initial_hash words in
  [h0 h; h1 h; h2 h; h3 h; h4 h; h5 h; h6 h; h7 h] ≫= be_bytes 4.

(** * Hexadecimal text *)

Definition hex_alphabet : string := "0123456789abcdef".
Definition hex_digit (z : Z) : string :=
  match String.get (Z.to_nat z) hex_alphabet with Some c => String c "" | None => "" end.

Fixpoint hex_encode (l : list Z) : string :=
  match l with
  | [] => ""
  | b :: l' => (hex_digit (Z.shiftr b 4) ++ hex_digit (Z.land b 15) ++ hex_encode l')%string
  end.

(** [hex.EncodeToString(sha256.Sum256(s))]. *)
Definition sha256_hex (s : string) : string := hex_encode (sum256 (bytes s)).

(** * JSON text of a string *)

Definition json_escape (r : Z) (bs : list Z) : string :=
  if (r =? 34) || (r =? 92) then (string_of_bytes [92; r])
  else if r =? 10 then "\n"
  else if r =? 13 then "\r"
  else if r =? 9 then "\t"
  else if (r <? 32) || (r =? 60) || (r =? 62) || (r =? 38)
    then ("\u00" ++ hex_encode [r])%string
  else if (r =? rune_error) && (length bs =? 1)%nat then "\ufffd"
  else if (r =? 8232) || (r =? 8233) then ("\u202" ++ hex_digit (Z.land r 15))%string
  else string_of_bytes bs.

Definition quote : string := String (byte_of 34) "".
Definition json_string (s : string) : string :=
  (quote ++ foldr (λ c acc, json_escape c.1 c.2 ++ acc) quote (chunks (bytes s)))%string.

(** An object with its members in order, and a string member that is left out when
    empty. *)
Definition json_object (members : list (string * string)) : string :=
  ("{" ++ String.concat "," ((λ m, json_string m.1 ++ ":" ++ m.2)%string <$> members) ++ "}")%string.
Definition omitempty (name value : string) : list (string * string) :=
  if (value =? "")%string then [] else [(name, json_string value)].

#[global] Arguments sum256 : simpl never.
#[global] Arguments sha256_hex : simpl never.
#[global] Arguments json_string : simpl never.

(** Published test vectors. *)
Example sha256_empty :
  sha256_hex "" = "e3b0c44298fc1c149afbf4c8996fb92427ae41e4649b934ca495991b7852b855"%string.
Proof. vm_compute. reflexivity. Qed.
Example sha256_abc :
  sha256_hex "abc" = "ba7816bf8f01cfea414140de5dae2223b00361a396177a9cb410ff61f20015ad"%string.
Proof. vm_compute. reflexivity. Qed.
Example sha256_two_blocks :
  sha256_hex "abcdbcdecdefdefgefghfghighijhijkijkljklmklmnlmnomnopnopq"
  = "248d6a61d20638b8e5c026930c3e6039a33ce45964ff2167f6ecedd419db06c1"%string.
Proof. vm_compute. reflexivity. Qed.

(** * The shape of a digest *)

Lemma land_range z m : 0 ≤ m → 0 ≤ Z.land z m ≤ m.
Proof.
  intros Hm. assert (0 ≤ Z.land z m) by (apply Z.land_nonneg; lia). split; [done|].
  apply Z.ldiff_le; [done|]. apply Z.bits_inj'. intros n Hn.
  rewrite Z.ldiff_spec, Z.land_spec, Z.bits_0. by destruct (Z.testbit z n), (Z.testbit m n).
Qed.

Lemma be_bytes_length n z : length (be_bytes n z) = n.
Proof. revert z. induction n as [|n IH]; intros z; simpl; [done|]. rewrite length_app, IH. simpl. lia. Qed.

Lemma be_bytes_range n z : Forall (λ b, 0 ≤ b < 256) (be_bytes n z).
Proof.
  revert z. induction n as [|n IH]; intros z; simpl; [constructor|].
  apply Forall_app. split; [apply IH|]. constructor; [|constructor].
  pose proof (land_range z 255). lia.
Qed.

(** Big-endian fields of a fixed width are read back. *)
Lemma be_bytes_inj n x y :
  0 ≤ x < 2 ^ (8 * Z.of_nat n) → 0 ≤ y < 2 ^ (8 * Z.of_nat n) → be_bytes n x = be_bytes n y → x = y.
Proof.
  revert x y. induction n as [|n IH]; intros x y Hx Hy; [cbn in *; lia|].
  cbn [be_bytes]. intros [Hhi Hlo]%app_inj_2; [|done]. injection Hlo as Hlo.
  replace (8 * Z.of_nat (S n)) with (8 * Z.of_nat n + 8) in * by lia.
  rewrite Z.pow_add_r in * by lia. change (2 ^ 8) with 256 in *.
  change 255 with (Z.ones 8) in Hlo. rewrite !Z.land_ones in Hlo by lia. change (2 ^ 8) with 256 in Hlo.
  apply IH in Hhi; rewrite !Z.shiftr_div_pow2 in * by lia; change (2 ^ 8) with 256 in *.
  - rewrite (Z.div_mod x 256), (Z.div_mod y 256) by lia. congruence.
  - split; [apply Z.div_pos; lia|]. apply Z.div_lt_upper_bound; lia.
  - split; [apply Z.div_pos; lia|]. apply Z.div_lt_upper_bound; lia.
Qed.

Lemma sum256_length l : length (sum256 l) = 32%nat.
Proof. unfold sum256. cbn -[be_bytes hash_blocks]. rewrite !length_app, !be_bytes_length. done. Qed.

Lemma sum256_range l : Forall (λ b, 0 ≤ b < 256) (sum256 l).
Proof.
  unfold sum256. cbn -[be_bytes hash_blocks].
  repeat (apply Forall_app; split; [apply be_bytes_range|]). constructor.
Qed.

(** Sixteen digits, all of them single characters of the alphabet. *)
Lemma hex_digit_char d : 0 ≤ d < 16 →
  ∃ c, hex_digit d = String c "" ∧ existsb (Ascii.eqb c) (String.list_ascii_of_string hex_alphabet) = true.
Proof.
  intros Hd. assert (d ∈ seqZ 0 16) as Hin by (apply elem_of_seqZ; lia).
  cbv in Hin. repeat (apply elem_of_cons in Hin as [->|Hin]; [eexists; split; reflexivity|]).
  by apply elem_of_nil in Hin.
Qed.

Lemma hex_encode_chars l : Forall (λ b, 0 ≤ b < 256) l →
  String.length (hex_encode l) = (2 * length l)%nat
  ∧ Forall (λ c, existsb (Ascii.eqb c) (String.list_ascii_of_string hex_alphabet) = true)
      (String.list_ascii_of_string (hex_encode l)).
Proof.
  induction 1 as [|b l Hb _ [IHl IHc]]; [by split|]. cbn [hex_encode length].
  destruct (hex_digit_char (Z.shiftr b 4)) as (c1 & -> & H1).
  { rewrite Z.shiftr_div_pow2 by lia. change (2 ^ 4) with 16. divlia. }
  destruct (hex_digit_char (Z.land b 15)) as (c2 & -> & H2).
  { pose proof (land_range b 15). lia. }
  change ((String c1 "" ++ String c2 "" ++ hex_encode l)%string)
    with (String c1 (String c2 (hex_encode l))).
  cbn [String.length String.list_ascii_of_string]. split; [lia|]. by repeat constructor.
Qed.
