(* ===== verification/Ranking.v ===== *)
(** What [sort.Slice] promises, and orders in which it sorts: comparisons of numbers, strings
    and binary64 numbers other than NaN, and their lexicographic compositions. *)
From Stdlib Require Import String.
From Corelib Require Import SpecFloat.
From S2P Require Import Prelude GoFloat.
Local Open Scope Z_scope.

(** [sort.Slice] permutes its argument and sorts it if the order is a strict weak one. *)
Definition strict_weak {A} (less : A → A → bool) (l : list A) : Prop :=
  (∀ x, x ∈ l → less x x = false)
  ∧ (∀ x y z, x ∈ l → y ∈ l → z ∈ l → less x y = true → less y z = true → less x z = true)
  ∧ (∀ x y z, x ∈ l → y ∈ l → z ∈ l → less y x = false → less z y = false → less z x = false).
Class SliceSort (sort : ∀ A, (A → A → bool) → list A → list A) : Prop := {
  slice_Permutation A less l : sort A less l ≡ₚ l;
  slice_Sorted A less l : strict_weak less l → StronglySorted (λ x y, less y x = false) (sort A less l) }.

(** Comparison of binary64 numbers: [==] and [>]. *)
Definition f64_eqb (x y : spec_float) : bool := SFeqb x y.
Definition f64_gtb (x y : spec_float) : bool := SFltb y x.

(** * Comparisons that order a type *)

Definition lt_of {A} (cmp : A → A → comparison) (x y : A) : bool :=
  match cmp x y with Lt => true | _ => false end.

(** A total preorder on the elements that satisfy [P]. *)
Record ranking {A} (P : A → Prop) (cmp : A → A → comparison) : Prop := {
  rank_opp x y : P x → P y → cmp y x = CompOpp (cmp x y);
  rank_trans x y z : P x → P y → P z → cmp x y ≠ Gt → cmp y z ≠ Gt → cmp x z ≠ Gt }.

Definition lex {A} (c1 c2 : A → A → comparison) (x y : A) : comparison :=
  match c1 x y with Eq => c2 x y | c => c end.
Definition on {A B} (f : A → B) (cmp : B → B → comparison) (x y : A) : comparison := cmp (f x) (f y).

Section Rankings.
Context {A : Type} (P : A → Prop).
Implicit Types (c : A → A → comparison).

Lemma ranking_eq c x y z : ranking P c → P x → P y → P z → c x y = Eq → c y z = c x z.
Proof.
  intros [Hopp Htr] Px Py Pz E. pose proof (Hopp x y Px Py) as E'. rewrite E in E'. cbn in E'.
  pose proof (Htr x y z Px Py Pz) as H1. pose proof (Htr y x z Py Px Pz) as H2.
  pose proof (Htr z x y Pz Px Py) as H3. pose proof (Htr z y x Pz Py Px) as H4.
  rewrite (Hopp x z Px Pz), (Hopp y z Py Pz), ?E, ?E' in *.
  clear -H1 H2 H3 H4. destruct (c x z), (c y z); cbn in *; try done; exfalso;
    first [by apply H1|by apply H2|by apply H3|by apply H4].
Qed.

Lemma ranking_lex c1 c2 : ranking P c1 → ranking P c2 → ranking P (lex c1 c2).
Proof.
  intros R1 R2. split.
  - intros x y Px Py. unfold lex. rewrite (rank_opp _ _ R1 x y Px Py). destruct (c1 x y); cbn; [|done..].
    by apply (rank_opp _ _ R2).
  - intros x y z Px Py Pz. unfold lex. destruct (c1 x y) eqn:E.
    + rewrite (ranking_eq c1 x y z R1) by done. destruct (c1 x z); [|done..]. by apply (rank_trans _ _ R2).
    + intros _. pose proof (rank_trans _ _ R1 x y z Px Py Pz) as H. rewrite E in H.
      destruct (c1 x z) eqn:F; [|done..|].
      * pose proof (ranking_eq c1 x z y R1 Px Pz Py F) as G. rewrite E in G. rewrite (rank_opp _ _ R1 z y Pz Py), G. done.
      * destruct (c1 y z); naive_solver.
    + done.
Qed.

Lemma ranking_flip c : ranking P c → ranking P (λ x y, c y x).
Proof. intros [H1 H2]. split; [naive_solver|]. intros x y z Px Py Pz A1 A2. by eapply (H2 z y x). Qed.
End Rankings.

Lemma ranking_on {A B} (P : A → Prop) (Q : B → Prop) (f : A → B) c : (∀ x, P x → Q (f x)) → ranking Q c → ranking P (on f c).
Proof. intros Hf [H1 H2]. split; unfold on; [naive_solver|]. intros x y z Px Py Pz. apply H2; auto. Qed.

Lemma ranking_Z (P : Z → Prop) : ranking P Z.compare.
Proof. split; [intros; apply Z.compare_antisym|]. intros x y z _ _ _. rewrite !Z.compare_ngt_iff. lia. Qed.

Lemma ranking_string (P : string → Prop) : ranking P String.compare.
Proof.
  split; [intros; apply String.compare_antisym|]. intros x y z _ _ _.
  assert (∀ a b, (a ?= b)%string ≠ Gt ↔ String.le a b) as Hle.
  { intros a b. unfold String.le, String.leb. by destruct (a ?= b)%string. }
  rewrite !Hle. by etrans.
Qed.

(** A binary64 number by its sign, its exponent and its mantissa. *)
Definition float_sign (x : spec_float) : Z :=
  match x with
  | S754_infinity true => -2 | S754_finite true _ _ => -1 | S754_zero _ | S754_nan => 0
  | S754_finite false _ _ => 1 | S754_infinity false => 2
  end.
Definition float_exponent (x : spec_float) : Z :=
  match x with S754_finite true _ e => - e | S754_finite false _ e => e | _ => 0 end.
Definition float_mantissa (x : spec_float) : Z :=
  match x with S754_finite true m _ => Z.neg m | S754_finite false m _ => Z.pos m | _ => 0 end.
Definition float_compare : spec_float → spec_float → comparison :=
  lex (on float_sign Z.compare) (lex (on float_exponent Z.compare) (on float_mantissa Z.compare)).
Definition not_nan (x : spec_float) : Prop := x ≠ S754_nan.

Lemma SFcompare_float x y : not_nan x → not_nan y → SFcompare x y = Some (float_compare x y).
Proof.
  intros Hx Hy. unfold float_compare, lex, on.
  destruct x as [s|s| |s m e], y as [s'|s'| |s' m' e']; try (by destruct Hx); try (by destruct Hy);
    try destruct s; try destruct s'; cbn; try done.
  rewrite Z.compare_opp. by destruct (e ?= e')%Z eqn:E; rewrite (Z.compare_antisym e e'), E.
Qed.

Lemma ranking_float : ranking not_nan float_compare.
Proof. repeat apply ranking_lex; (apply (ranking_on _ (λ _, True)); [done|apply ranking_Z]). Qed.

(** * Quotients of counts *)

Lemma shr_1_nonneg r : 0 ≤ shr_m r → 0 ≤ shr_m (shr_1 r).
Proof. destruct r as [[|[p|p|]|p] ? ?]; cbn; lia. Qed.
Lemma iter_shr_nonneg n r : 0 ≤ shr_m r → 0 ≤ shr_m (SpecFloat.iter_pos shr_1 n r).
Proof. revert r. induction n; intros r Hr; cbn; auto using shr_1_nonneg. Qed.
Lemma shr_fexp_nonneg prec emax m e l : 0 ≤ m → 0 ≤ shr_m (shr_fexp prec emax m e l).1.
Proof. intros Hm. unfold shr_fexp, shr. case_match; try apply iter_shr_nonneg; by destruct l as [|[]]. Qed.
Lemma round_nearest_nonneg m l : 0 ≤ m → 0 ≤ round_nearest_even m l.
Proof. intros. unfold round_nearest_even. repeat case_match; lia. Qed.
Lemma binary_round_aux_not_nan prec emax s m e l : 0 ≤ m → not_nan (binary_round_aux prec emax s m e l).
Proof.
  intros Hm. unfold binary_round_aux. pose proof (shr_fexp_nonneg prec emax m e l Hm) as H1.
  destruct (shr_fexp prec emax m e l) as [r1 e1]. cbn in H1.
  pose proof (shr_fexp_nonneg prec emax _ e1 loc_Exact (round_nearest_nonneg _ (loc_of_shr_record r1) H1)) as H2.
  destruct (shr_fexp prec emax _ e1 loc_Exact) as [r2 e2]. cbn in H2.
  unfold not_nan. destruct (shr_m r2); [done|case_match; done|lia].
Qed.

Lemma digits2_size p : digits2_pos p = Pos.size p.
Proof. induction p as [p IH|p IH|]; cbn; by rewrite ?IH. Qed.
Lemma size_iter_xO d p : Pos.size (Pos.iter xO p d) = (Pos.size p + d)%positive.
Proof. induction d as [|d IH] using Pos.peano_ind; cbn; [lia|]. rewrite Pos.iter_succ. cbn. rewrite IH. lia. Qed.

(** An integer of at most 53 bits is a binary64 number. *)
Lemma binary_normalize_small p : (Pos.size p ≤ 53)%positive →
  ∃ m e, binary_normalize 53 1024 (Z.pos p) 0 false = S754_finite false m e.
Proof.
  intros Hp. cbn [binary_normalize]. unfold binary_round. rewrite Z.add_0_r, digits2_size.
  assert (∀ m e, (Pos.size m = 53)%positive → -1074 ≤ e ≤ 971 →
    binary_round_aux 53 1024 false (Z.pos m) e loc_Exact = S754_finite false m e) as Hexact.
  { intros m e Hm He. unfold binary_round_aux.
    assert (shr_fexp 53 1024 (Z.pos m) e loc_Exact = (Build_shr_record (Z.pos m) false false, e)) as Hs.
    { unfold shr_fexp. cbn [Zdigits2]. rewrite digits2_size, Hm. unfold fexp, emin. cbn [shr_record_of_loc].
      replace (_ - e) with 0 by lia. done. }
    rewrite Hs. cbn [shr_m loc_of_shr_record round_nearest_even]. rewrite Hs. cbn [shr_m].
    by rewrite (proj2 (Z.leb_le _ _)) by lia. }
  unfold shl_align, fexp, emin. destruct (decide (Pos.size p = 53%positive)) as [E|E].
  - rewrite E. cbn. exists p, 0. by apply Hexact.
  - replace (Z.max _ _) with (Z.neg (53 - Pos.size p)) by lia. rewrite Z.sub_0_r. eexists _, _.
    apply Hexact; [rewrite size_iter_xO|]; lia.
Qed.

Lemma SFdiv_finite_not_nan m1 e1 m2 e2 : not_nan (SFdiv 53 1024 (S754_finite false m1 e1) (S754_finite false m2 e2)).
Proof.
  cbn [SFdiv]. unfold SFdiv_core_binary. cbn zeta.
  match goal with |- context [Z.div_eucl ?a ?b] => assert (0 ≤ a) as Ha; [|pose proof (Z.div_pos a b Ha) as Hq; unfold Z.div in Hq;
    destruct (Z.div_eucl a b) as [q r]] end.
  - case_match; [lia|apply Z.shiftl_nonneg; lia|lia].
  - apply binary_round_aux_not_nan, Hq. lia.
Qed.

Lemma f64_ratio_not_nan a b : 0 < a < 2 ^ 53 → 0 < b < 2 ^ 53 → not_nan (f64_ratio a b).
Proof.
  assert (∀ n, 0 < n < 2 ^ 53 → ∃ m e, binary_normalize 53 1024 n 0 false = S754_finite false m e) as Hn.
  { intros [|p|p] H; try lia. apply binary_normalize_small. pose proof (Pos.size_le p) as Hs.
    destruct (decide (Pos.size p ≤ 53)%positive); [done|]. exfalso.
    pose proof (Z.pow_le_mono_r 2 54 (Z.pos (Pos.size p))). apply Pos2Z.pos_le_pos in Hs. rewrite Pos2Z.inj_pow in Hs. lia. }
  intros [m1 [e1 E1]]%Hn [m2 [e2 E2]]%Hn. unfold f64_ratio. rewrite E1, E2. apply SFdiv_finite_not_nan.
Qed.

(** * Sorting *)

Section Sorting.
Context (sort : ∀ A, (A → A → bool) → list A → list A) `{!SliceSort sort} {A : Type} (P : A → Prop) (cmp : A → A → comparison) (less : A → A → bool).
Context (Hrank : ranking P cmp) (Hless : ∀ x y, P x → P y → less x y = lt_of cmp x y).

Lemma less_ge x y : P x → P y → less y x = false ↔ cmp x y ≠ Gt.
Proof. intros Px Py. rewrite Hless by done. unfold lt_of. rewrite (rank_opp _ _ Hrank x y Px Py). by destruct (cmp x y). Qed.

Lemma ranking_strict_weak l : Forall P l → strict_weak less l.
Proof.
  rewrite Forall_forall. intros Hl.
  assert (∀ x y, x ∈ l → y ∈ l → less x y = true → less y x = false) as Hasym.
  { intros x y Hx Hy. rewrite !Hless by auto. unfold lt_of. rewrite (rank_opp _ _ Hrank x y) by auto. by destruct (cmp x y). }
  assert (∀ x y z, x ∈ l → y ∈ l → z ∈ l → less y x = false → less z y = false → less z x = false) as Hneg.
  { intros x y z Hx Hy Hz. rewrite !less_ge by auto. apply (rank_trans _ _ Hrank); auto. }
  split_and!; [|intros x y z Hx Hy Hz Hxy Hyz|done].
  - intros x Hx. destruct (less x x) eqn:E; [|done]. rewrite <-E. by apply Hasym.
  - destruct (less x z) eqn:E; [done|]. rewrite <-Hyz. symmetry. apply (Hneg z x y); auto.
Qed.

Lemma slice_ranked l : Forall P l → StronglySorted (λ x y, cmp x y ≠ Gt) (sort A less l).
Proof.
  intros Hl. pose proof (slice_Sorted A less l (ranking_strict_weak l Hl)) as Hs.
  rewrite <-(slice_Permutation A less l) in Hl.
  induction Hs as [|x l' Hs IH Hx]; [constructor|]. apply Forall_cons in Hl as [Px Hl]. constructor; [by apply IH|].
  rewrite !Forall_forall in *. intros y Hy. apply less_ge; auto.
Qed.

(** Where no two elements compare equal, the result does not depend on the order met. *)
Lemma slice_unique l l' : Forall P l → (∀ x y, x ∈ l → y ∈ l → cmp x y = Eq → x = y) → l ≡ₚ l' →
  sort A less l = sort A less l'.
Proof.
  intros Hl Hinj Hp. assert (Forall P l') as Hl' by (by rewrite <-Hp).
  apply (StronglySorted_unique_strong (λ x y, cmp x y ≠ Gt)); [|by apply slice_ranked..|].
  - intros x y. rewrite !slice_Permutation. rewrite <-Hp. intros Hx Hy. rewrite Forall_forall in Hl.
    rewrite (rank_opp _ _ Hrank x y) by auto. intros. apply Hinj; [done..|]. by destruct (cmp x y).
  - by rewrite !slice_Permutation.
Qed.
End Sorting.

(** * A concrete sort *)

Fixpoint insert_by {A} (less : A → A → bool) (x : A) (l : list A) : list A :=
  match l with
  | [] => [x]
  | y :: l' => if less y x then y :: insert_by less x l' else x :: l
  end.
Definition insertion_sort (A : Type) (less : A → A → bool) (l : list A) : list A := foldr (insert_by less) [] l.

Lemma insert_by_Permutation {A} less (x : A) l : insert_by less x l ≡ₚ x :: l.
Proof. induction l as [|y l IH]; cbn; [done|]. case_match; [|done]. by rewrite IH, Permutation_swap. Qed.
Lemma insertion_sort_Permutation A less l : insertion_sort A less l ≡ₚ l.
Proof. induction l as [|x l IH]; cbn; [done|]. by rewrite insert_by_Permutation, IH. Qed.

Lemma insert_by_Sorted {A} less (u : list A) x l : strict_weak less u → x ∈ u → l ⊆ u →
  StronglySorted (λ x y, less y x = false) l → StronglySorted (λ x y, less y x = false) (insert_by less x l).
Proof.
  intros (Hirr & Htr & Hneg) Hx Hl Hs. induction Hs as [|y l Hs IH Hy]; cbn; [repeat constructor|].
  assert (y ∈ u) as Huy by (apply Hl; left). assert (l ⊆ u) as Hl' by (intros z Hz; apply Hl; by right).
  rewrite Forall_forall in Hy. destruct (less y x) eqn:E.
  - constructor; [by apply IH|]. apply Forall_forall. intros z. rewrite insert_by_Permutation, elem_of_cons.
    intros [->|Hz]; [|by apply Hy]. destruct (less x y) eqn:F; [|done].
    rewrite <-(Hirr x Hx). symmetry. by apply (Htr x y x).
  - constructor; [by constructor; [|rewrite Forall_forall]|]. constructor; [done|]. apply Forall_forall. intros z Hz.
    apply (Hneg x y z); auto.
Qed.

#[export] Instance insertion_sort_SliceSort : SliceSort insertion_sort.
Proof.
  split; [apply insertion_sort_Permutation|]. intros A less l Hw.
  assert (∀ l', l' ⊆ l → StronglySorted (λ x y, less y x = false) (insertion_sort A less l')) as H; [|by apply H].
  induction l' as [|x l' IH]; intros Hl; cbn; [constructor|].
  apply (insert_by_Sorted less l); [done|apply Hl; left|..].
  - intros z. change (z ∈ insertion_sort A less l' → z ∈ l). rewrite insertion_sort_Permutation. intros Hz. apply Hl. by right.
  - apply IH. intros z Hz. apply Hl. by right.
Qed.
