(* ===== verification/GoJson.v ===== *)
(** Reading JSON as [encoding/json] does, over the runes of a text.  The scanner accepts any
    bytes inside a string and replaces ill-formed UTF-8 by U+FFFD when it unquotes, so a text
    is read as the sequence of its runes.

    [json_document] reads a text that holds exactly one value.  Objects keep their members in
    order, with duplicates, and numbers keep their text.  The fuel of the parser bounds the
    nesting and the number of members; [json_fuel_enough] shows that one more than twice the
    number of runes never runs out. *)
From Stdlib Require Import Ascii String.
From S2P Require Import Prelude GoStrings Sha256.
Local Open Scope Z_scope.

Inductive jvalue :=
| JNull
| JBool (b : bool)
| JNumber (text : list Z)
| JString (s : string)
| JArray (items : list jvalue)
| JObject (members : list (string * jvalue)).

(** * Strings *)

Definition hex_value (r : Z) : option Z :=
  if (48 <=? r) && (r <=? 57) then Some (r - 48)
  else if (97 <=? r) && (r <=? 102) then Some (r - 87)
  else if (65 <=? r) && (r <=? 70) then Some (r - 55)
  else None.
Definition hex4 (a b c d : Z) : option Z :=
  w ← hex_value a; x ← hex_value b; y ← hex_value c; z ← hex_value d;
  Some (w * 4096 + x * 256 + y * 16 + z).

(** [utf16.IsSurrogate] and [utf16.DecodeRune]. *)
Definition is_surrogate (u : Z) : bool := (55296 <=? u) && (u <? 57344).
Definition decode_pair (u v : Z) : option Z :=
  if (55296 <=? u) && (u <? 56320) && (56320 <=? v) && (v <? 57344)
  then Some ((u - 55296) * 1024 + (v - 56320) + 65536) else None.

(** The escapes of one character. *)
Definition simple_escape (e : Z) : option Z :=
  if (e =? 34) || (e =? 92) || (e =? 47) then Some e
  else if e =? 98 then Some 8
  else if e =? 102 then Some 12
  else if e =? 110 then Some 10
  else if e =? 114 then Some 13
  else if e =? 116 then Some 9
  else None.

Definition with_rune (r : Z) (rest : option (list Z * list Z)) : option (list Z * list Z) :=
  '(rs, t) ← rest; Some (r :: rs, t).

(** The rest of a string after its opening quote: its runes, and what follows it. *)
Fixpoint lex_string (l : list Z) : option (list Z * list Z) :=
  match l with
  | [] => None
  | r :: l1 =>
      if r =? 34 then Some ([], l1)
      else if r =? 92 then
        match l1 with
        | [] => None
        | e :: l2 =>
            if e =? 117 then
              match l2 with
              | a :: b :: c :: d :: l3 =>
                  match hex4 a b c d with
                  | None => None
                  | Some u =>
                      if negb (is_surrogate u) then with_rune u (lex_string l3)
                      else
                        match l3 with
                        | x :: y :: a' :: b' :: c' :: d' :: l4 =>
                            match (if (x =? 92) && (y =? 117) then v ← hex4 a' b' c' d'; decode_pair u v else None) with
                            | Some r' => with_rune r' (lex_string l4)
                            | None => with_rune rune_error (lex_string l3)
                            end
                        | _ => with_rune rune_error (lex_string l3)
                        end
                  end
              | _ => None
              end
            else match simple_escape e with
                 | Some r' => with_rune r' (lex_string l2)
                 | None => None
                 end
        end
      else if r <? 32 then None
      else with_rune r (lex_string l1)
  end.

(** * Numbers *)

Definition is_digit (r : Z) : bool := (48 <=? r) && (r <=? 57).
Fixpoint take_digits (l : list Z) : list Z * list Z :=
  match l with
  | r :: l' => if is_digit r then let '(ds, t) := take_digits l' in (r :: ds, t) else ([], l)
  | [] => ([], [])
  end.

(** One digit at least. *)
Definition lex_digits (l : list Z) : option (list Z * list Z) :=
  match take_digits l with ([], _) => None | p => Some p end.

Definition lex_integer (l : list Z) : option (list Z * list Z) :=
  match l with
  | r :: l' => if r =? 48 then Some ([48], l') else lex_digits l
  | [] => None
  end.
Definition lex_fraction (l : list Z) : option (list Z * list Z) :=
  match l with
  | r :: l' => if r =? 46 then '(ds, t) ← lex_digits l'; Some (46 :: ds, t) else Some ([], l)
  | [] => Some ([], [])
  end.
Definition lex_exponent (l : list Z) : option (list Z * list Z) :=
  match l with
  | r :: l' =>
      if (r =? 101) || (r =? 69) then
        match l' with
        | s :: l'' => if (s =? 43) || (s =? 45) then '(ds, t) ← lex_digits l''; Some (r :: s :: ds, t)
                      else '(ds, t) ← lex_digits l'; Some (r :: ds, t)
        | [] => None
        end
      else Some ([], l)
  | [] => Some ([], [])
  end.
Definition lex_number (l : list Z) : option (list Z * list Z) :=
  let '(sign, l) := match l with r :: l' => if r =? 45 then ([45], l') else ([], l) | [] => ([], []) end in
  '(int, l) ← lex_integer l;
  '(frac, l) ← lex_fraction l;
  '(exp, l) ← lex_exponent l;
  Some (sign ++ int ++ frac ++ exp, l).

(** * Values *)

Definition is_json_space (r : Z) : bool := (r =? 32) || (r =? 9) || (r =? 13) || (r =? 10).
Fixpoint skip_space (l : list Z) : list Z :=
  match l with
  | r :: l' => if is_json_space r then skip_space l' else l
  | [] => []
  end.

(** The rest of a literal whose first letter was read. *)
Fixpoint lex_literal (word l : list Z) : option (list Z) :=
  match word, l with
  | [], _ => Some l
  | w :: word', r :: l' => if r =? w then lex_literal word' l' else None
  | _ :: _, [] => None
  end.

Definition max_nesting : Z := 10000.

Fixpoint parse_value (fuel : nat) (depth : Z) (l : list Z) : option (jvalue * list Z) :=
  match fuel with
  | O => None
  | S fuel =>
      match skip_space l with
      | [] => None
      | r :: l1 =>
          if r =? 34 then '(rs, t) ← lex_string l1; Some (JString (string_of_runes rs), t)
          else if r =? 123 then
            if max_nesting <=? depth then None
            else match skip_space l1 with
                 | r' :: t => if r' =? 125 then Some (JObject [], t)
                              else '(ms, t) ← parse_members fuel (depth + 1) l1; Some (JObject ms, t)
                 | [] => None
                 end
          else if r =? 91 then
            if max_nesting <=? depth then None
            else match skip_space l1 with
                 | r' :: t => if r' =? 93 then Some (JArray [], t)
                              else '(vs, t) ← parse_items fuel (depth + 1) l1; Some (JArray vs, t)
                 | [] => None
                 end
          else if r =? 116 then t ← lex_literal [114; 117; 101] l1; Some (JBool true, t)
          else if r =? 102 then t ← lex_literal [97; 108; 115; 101] l1; Some (JBool false, t)
          else if r =? 110 then t ← lex_literal [117; 108; 108] l1; Some (JNull, t)
          else '(text, t) ← lex_number (r :: l1); Some (JNumber text, t)
      end
  end
with parse_members (fuel : nat) (depth : Z) (l : list Z) : option (list (string * jvalue) * list Z) :=
  match fuel with
  | O => None
  | S fuel =>
      match skip_space l with
      | [] => None
      | r :: l1 =>
          if negb (r =? 34) then None
          else
            '(key, l2) ← lex_string l1;
            match skip_space l2 with
            | [] => None
            | r :: l3 =>
                if negb (r =? 58) then None
                else
                  '(v, l4) ← parse_value fuel depth l3;
                  match skip_space l4 with
                  | [] => None
                  | r :: t =>
                      if r =? 125 then Some ([(string_of_runes key, v)], t)
                      else if r =? 44 then
                        '(ms, t) ← parse_members fuel depth t; Some ((string_of_runes key, v) :: ms, t)
                      else None
                  end
            end
      end
  end
with parse_items (fuel : nat) (depth : Z) (l : list Z) : option (list jvalue * list Z) :=
  match fuel with
  | O => None
  | S fuel =>
      '(v, l1) ← parse_value fuel depth l;
      match skip_space l1 with
      | [] => None
      | r :: t =>
          if r =? 93 then Some ([v], t)
          else if r =? 44 then '(vs, t) ← parse_items fuel depth t; Some (v :: vs, t)
          else None
      end
  end.

(** One value with nothing but space around it, or nothing. *)
Definition json_document (text : string) : option jvalue :=
  let l := runes text in
  '(v, t) ← parse_value (S (2 * length l)) 0 l;
  match skip_space t with [] => Some v | _ => None end.

(** * Member names *)

(** Case folding of a name as far as it reaches ASCII: U+017F folds to S and U+212A to K, and
    no other rune outside ASCII folds into it. *)
Definition fold_rune (r : Z) : Z :=
  if (97 <=? r) && (r <=? 122) then r - 32
  else if r =? 383 then 83
  else if r =? 8490 then 75
  else r.
Definition fold_name (s : string) : list Z := fold_rune <$> runes s.

(** The struct field a member is stored in: the exact name, or else the first that is equal
    under case folding. *)
Definition find_field (names : list string) (key : string) : option string :=
  if bool_decide (key ∈ names) then Some key
  else head (filter (λ name, fold_name name = fold_name key) names).

(** * The parser consumes its input, so its fuel suffices *)

Ltac open_option :=
  repeat match goal with
  | H : mbind _ _ = Some _ |- _ => apply bind_Some in H; destruct H as (? & ? & ?)
  | H : Some _ = Some _ |- _ => injection H as H
  | H : context [let '(_, _) := ?p in _] |- _ => destruct p eqn:?
  end.

Lemma skip_space_length l : (length (skip_space l) ≤ length l)%nat.
Proof. induction l as [|r l IH]; simpl; [done|]. case_match; simpl; lia. Qed.

Lemma with_rune_Some r o rs t :
  with_rune r o = Some (rs, t) ↔ ∃ rs', o = Some (rs', t) ∧ rs = r :: rs'.
Proof.
  unfold with_rune. rewrite bind_Some. split.
  - intros ([rs' t'] & -> & [= <- <-]). eauto.
  - intros (rs' & -> & ->). by exists (rs', t).
Qed.

Lemma lex_string_length l rs t : lex_string l = Some (rs, t) → (length t < length l)%nat.
Proof.
  revert l rs t. fix IH 1. intros [|r l] rs t; [done|]. simpl.
  destruct (r =? 34); [intros [= <- <-]; lia|]. destruct (r =? 92).
  - destruct l as [|e l]; [done|]. destruct (e =? 117).
    + destruct l as [|a [|b [|c [|d l]]]]; try done.
      destruct (hex4 a b c d) as [u|]; [|done]. simpl. destruct (negb _).
      { intros (rs' & H & _)%with_rune_Some. apply IH in H. lia. }
      assert (with_rune rune_error (lex_string l) = Some (rs, t) → (length t < S (S (S (S (S (S (length l)))))))%nat) as Hl.
      { intros (rs' & H & _)%with_rune_Some. apply IH in H. lia. }
      destruct l as [|x [|y [|a' [|b' [|c' [|d' l]]]]]]; try exact Hl.
      case_match; [|exact Hl]. clear Hl. intros (rs' & H' & _)%with_rune_Some. apply IH in H'. simpl. lia.
    + destruct (simple_escape e); [|done]. intros (rs' & H & _)%with_rune_Some. apply IH in H. simpl. lia.
  - destruct (r <? 32); [done|]. intros (rs' & H & _)%with_rune_Some. apply IH in H. lia.
Qed.

Lemma take_digits_length l ds t : take_digits l = (ds, t) → length l = (length ds + length t)%nat.
Proof.
  revert ds t. induction l as [|r l IH]; simpl; intros ds t; [by intros [= <- <-]|].
  destruct (is_digit r); [|by intros [= <- <-]]. destruct (take_digits l) as [ds' t'].
  intros [= <- <-]. simpl. by rewrite (IH ds' t').
Qed.

Lemma lex_digits_length l ds t : lex_digits l = Some (ds, t) → (length t < length l)%nat.
Proof.
  unfold lex_digits. destruct (take_digits l) as [[|d ds'] t'] eqn:E; [done|]. intros [= <- <-].
  apply take_digits_length in E. simpl in E. lia.
Qed.

Lemma lex_integer_length l ds t : lex_integer l = Some (ds, t) → (length t < length l)%nat.
Proof.
  destruct l as [|r l]; [done|]. unfold lex_integer. destruct (r =? 48); [|apply lex_digits_length].
  intros [= <- <-]. simpl. lia.
Qed.

Lemma lex_fraction_length l ds t : lex_fraction l = Some (ds, t) → (length t ≤ length l)%nat.
Proof.
  destruct l as [|r l]; simpl; [by intros [= <- <-]|]. case_match; [|by intros [= <- <-]].
  intros ([ds' t'] & Hd%lex_digits_length & [= <- <-])%bind_Some. lia.
Qed.

Lemma lex_exponent_length l ds t : lex_exponent l = Some (ds, t) → (length t ≤ length l)%nat.
Proof.
  destruct l as [|r l]; simpl; [by intros [= <- <-]|]. case_match; [|by intros [= <- <-]].
  destruct l as [|s l]; [done|].
  case_match; intros ([ds' t'] & Hd%lex_digits_length & [= <- <-])%bind_Some; simpl in *; lia.
Qed.

Lemma lex_number_length l ds t : lex_number l = Some (ds, t) → (length t < length l)%nat.
Proof.
  unfold lex_number. intros H.
  destruct (match l with r :: l' => if r =? 45 then ([45], l') else ([], l) | [] => ([], []) end) as [sign l0] eqn:E.
  assert (length l0 ≤ length l)%nat as H0
    by (destruct l as [|r l']; [|destruct (r =? 45)]; injection E as <- <-; simpl; lia).
  apply bind_Some in H as ([int l1] & H1%lex_integer_length & H).
  apply bind_Some in H as ([frac l2] & H2%lex_fraction_length & H).
  apply bind_Some in H as ([exp l3] & H3%lex_exponent_length & [= <- <-]). lia.
Qed.

Lemma lex_literal_length word l t : lex_literal word l = Some t → (length t ≤ length l)%nat.
Proof.
  revert l. induction word as [|w word IH]; intros [|r l]; simpl; try (intros [= <-]; simpl; lia).
  case_match; [|done]. intros H1. apply IH in H1. lia.
Qed.

(** Every successful step leaves less than it got. *)
Lemma parse_length fuel :
  (∀ d l v t, parse_value fuel d l = Some (v, t) → (length t < length l)%nat)
  ∧ (∀ d l ms t, parse_members fuel d l = Some (ms, t) → (length t < length l)%nat)
  ∧ (∀ d l vs t, parse_items fuel d l = Some (vs, t) → (length t < length l)%nat).
Proof.
  induction fuel as [|fuel (IHv & IHm & IHi)]; [by split_and!|].
  split_and!; intros d l x t H; pose proof (skip_space_length l) as Hsp; simpl in H.
  - destruct (skip_space l) as [|r l1] eqn:E; [done|]. simpl in Hsp.
    pose proof (skip_space_length l1) as Hsp1.
    repeat (case_match; try done); open_option; simplify_eq/=; try lia.
    all: repeat match goal with
      | H : lex_string _ = Some _ |- _ => apply lex_string_length in H
      | H : lex_literal _ _ = Some _ |- _ => apply lex_literal_length in H
      | H : lex_number _ = Some _ |- _ => apply lex_number_length in H; simpl in H
      | H : parse_members _ _ _ = Some _ |- _ => apply IHm in H
      | H : parse_items _ _ _ = Some _ |- _ => apply IHi in H
      end; lia.
  - destruct (skip_space l) as [|r l1] eqn:E; [done|]. simpl in Hsp. destruct (negb _); [done|].
    apply bind_Some in H as ([key l2] & Hl2%lex_string_length & H).
    pose proof (skip_space_length l2). destruct (skip_space l2) as [|r2 l3]; [done|]. destruct (negb _); [done|].
    apply bind_Some in H as ([v l4] & Hl4%IHv & H).
    pose proof (skip_space_length l4). destruct (skip_space l4) as [|r4 l5]; [done|]. simpl in *.
    destruct (r4 =? 125); [injection H as <- <-; lia|]. destruct (r4 =? 44); [|done].
    apply bind_Some in H as ([ms t'] & Ht%IHm & [= <- <-]). lia.
  - apply bind_Some in H as ([v l1] & Hl1%IHv & H).
    pose proof (skip_space_length l1). destruct (skip_space l1) as [|r l2]; [done|]. simpl in *.
    destruct (r =? 93); [injection H as <- <-; lia|]. destruct (r =? 44); [|done].
    apply bind_Some in H as ([ms t'] & Ht%IHi & [= <- <-]). lia.
Qed.

Lemma bind_cong {A B} (o : option A) (f g : A → option B) :
  (∀ a, o = Some a → f a = g a) → o ≫= f = o ≫= g.
Proof. destruct o; simpl; auto. Qed.

(** Any two amounts of fuel above twice the length of the input give the same answer. *)
Lemma json_fuel_enough fuel fuel' :
  (∀ d l, (2 * length l < fuel)%nat → (2 * length l < fuel')%nat → parse_value fuel d l = parse_value fuel' d l)
  ∧ (∀ d l, (2 * length l < fuel)%nat → (2 * length l < fuel')%nat → parse_members fuel d l = parse_members fuel' d l)
  ∧ (∀ d l, (2 * length l + 1 < fuel)%nat → (2 * length l + 1 < fuel')%nat →
       parse_items fuel d l = parse_items fuel' d l).
Proof.
  revert fuel'. induction fuel as [|fuel IH]; intros fuel'; [split_and!; intros; lia|].
  destruct fuel' as [|fuel']; [split_and!; intros; lia|]. destruct (IH fuel') as (IHv & IHm & IHi).
  split_and!; intros d l H1 H2; simpl; pose proof (skip_space_length l) as Hsp.
  - destruct (skip_space l) as [|r l1]; [done|]. simpl in Hsp. by rewrite IHm, IHi by lia.
  - destruct (skip_space l) as [|r l1]; [done|]. simpl in Hsp. destruct (negb _); [done|].
    apply bind_cong. intros [key l2] Hl2%lex_string_length.
    pose proof (skip_space_length l2). destruct (skip_space l2) as [|r2 l3]; [done|]. destruct (negb _); [done|].
    simpl in *. rewrite (IHv d l3) by lia. apply bind_cong. intros [v l4] Hl4%(proj1 (parse_length fuel')).
    pose proof (skip_space_length l4). destruct (skip_space l4) as [|r4 l5]; [done|]. simpl in *.
    by rewrite (IHm d l5) by lia.
  - rewrite (IHv d l) by lia. apply bind_cong. intros [v l1] Hl1%(proj1 (parse_length fuel')).
    pose proof (skip_space_length l1). destruct (skip_space l1) as [|r l2]; [done|]. simpl in *.
    by rewrite (IHi d l2) by lia.
Qed.

(** * What is written is read back *)

(** The runes that [json_string] writes for one rune of its argument. *)
Definition hex_rune (d : Z) : Z := if d <? 10 then d + 48 else d + 87.
Definition escape_runes (c : Z * list Z) : list Z :=
  let r := c.1 in
  if (r =? 34) || (r =? 92) then [92; r]
  else if r =? 10 then [92; 110]
  else if r =? 13 then [92; 114]
  else if r =? 9 then [92; 116]
  else if (r <? 32) || (r =? 60) || (r =? 62) || (r =? 38)
    then [92; 117; 48; 48; hex_rune (Z.shiftr r 4); hex_rune (Z.land r 15)]
  else if (r =? rune_error) && (length c.2 =? 1)%nat then [92; 117; 102; 102; 102; 100]
  else if (r =? 8232) || (r =? 8233) then [92; 117; 50; 48; 50; hex_rune (Z.land r 15)]
  else [r].
Definition quoted_runes (s : string) : list Z := 34 :: (chunks (bytes s) ≫= escape_runes) ++ [34].

Lemma string_of_runes_bytes l : Forall (λ r, 0 ≤ r < 128) l → string_of_runes l = string_of_bytes l.
Proof.
  unfold string_of_runes. intros Hl. f_equal. induction Hl as [|r l Hr Hl IH]; [done|].
  rewrite bind_cons, encode_rune1, IH by done. done.
Qed.

(** The chunks of a string: a scalar with its encoding, or one ill-formed byte. *)
Definition chunk_ok (c : Z * list Z) : Prop :=
  scalar c.1 = true ∧ (c.2 = encode_rune c.1 ∨ c.1 = rune_error ∧ length c.2 = 1%nat).

Lemma chunks_ok l : Forall (λ z, 0 ≤ z < 256) l → Forall chunk_ok (chunks l).
Proof.
  induction l as [|l Hl IH] using chunks_ind; [constructor|]. intros Hr. rewrite chunks_step by done.
  constructor; [|by apply IH, Forall_drop]. split; [by apply head_rune_scalar|]. simpl.
  pose proof (rune_width_bounds l Hl).
  destruct ((head_rune l =? rune_error) && (Nat.eqb (rune_width l) 1)) eqn:E.
  - right. apply andb_true_iff in E as [->%Z.eqb_eq Hw%Nat.eqb_eq]. split; [done|]. rewrite length_take. lia.
  - left. by rewrite encode_head_rune.
Qed.

Lemma small_range (P : Z → bool) n :
  forallb P (Z.of_nat <$> seq 0 n) = true → ∀ r, 0 ≤ r < Z.of_nat n → P r = true.
Proof.
  rewrite forallb_forall. intros H r Hr. apply H. apply list_elem_of_In, list_elem_of_fmap.
  exists (Z.to_nat r). split; [lia|]. apply elem_of_seq. lia.
Qed.

(** Runes below 64: every case of the table of escapes but the last three. *)
Lemma escape_small r bs : 0 ≤ r < 64 → bs = [r] →
  json_escape r bs = string_of_runes (escape_runes (r, bs))
  ∧ forallb scalar (escape_runes (r, bs)) = true
  ∧ ∀ rest, lex_string (escape_runes (r, bs) ++ rest) = with_rune r (lex_string rest).
Proof.
  intros Hr ->.
  assert (((json_escape r [r] =? string_of_runes (escape_runes (r, [r])))%string
           && forallb scalar (escape_runes (r, [r]))) = true) as [->%String.eqb_eq ->]%andb_true_iff.
  { revert r Hr. refine (small_range _ 64 _). vm_compute. reflexivity. }
  split_and!; [done..|]. intros rest. unfold escape_runes. cbn [fst].
  destruct ((r =? 34) || (r =? 92)) eqn:E1.
  { apply orb_true_iff in E1 as [->%Z.eqb_eq| ->%Z.eqb_eq]; reflexivity. }
  destruct (Z.eqb_spec r 10) as [->|]; [done|]. destruct (Z.eqb_spec r 13) as [->|]; [done|].
  destruct (Z.eqb_spec r 9) as [->|]; [done|].
  destruct ((r <? 32) || (r =? 60) || (r =? 62) || (r =? 38)) eqn:E2.
  - cbn [app lex_string Z.eqb Pos.eqb].
    assert (match hex4 48 48 (hex_rune (Z.shiftr r 4)) (hex_rune (Z.land r 15)) with
            | Some u => (u =? r) && negb (is_surrogate u) | None => false end = true) as H.
    { revert r Hr E1 n n0 n1 E2. intros r Hr _ _ _ _ _. revert r Hr. refine (small_range _ 64 _). vm_compute. reflexivity. }
    destruct (hex4 48 48 _ _) as [u|]; [|done]. by apply andb_true_iff in H as [->%Z.eqb_eq ->].
  - apply orb_false_iff in E1 as [E34 E92].
    destruct (Z.eqb_spec r rune_error); [unfold rune_error in *; lia|].
    destruct (Z.eqb_spec r 8232); [lia|]. destruct (Z.eqb_spec r 8233); [lia|]. simpl.
    rewrite E34, E92. destruct (Z.ltb_spec r 32); [|done]. simpl in E2. done.
Qed.

Lemma escape_ok c : chunk_ok c →
  json_escape c.1 c.2 = string_of_runes (escape_runes c)
  ∧ forallb scalar (escape_runes c) = true
  ∧ ∀ rest, lex_string (escape_runes c ++ rest) = with_rune c.1 (lex_string rest).
Proof.
  destruct c as [r bs]. intros [Hs Hbs]. simpl in *. pose proof Hs as Hs'. apply scalar_spec in Hs'.
  destruct (decide (r < 64)).
  { assert (bs = [r]) as -> by (destruct Hbs as [->|[-> _]]; [apply encode_rune1; lia|unfold rune_error in *; lia]).
    apply escape_small; [lia|done]. }
  destruct (Z.eqb_spec r 92) as [->|Hne].
  { assert (bs = [92]) as -> by (by destruct Hbs as [->|[? _]]). split_and!; [vm_compute; reflexivity|reflexivity|intros rest; reflexivity]. }
  unfold json_escape, escape_runes. cbn [fst snd].
  rewrite (proj2 (Z.eqb_neq r 34)), (proj2 (Z.eqb_neq r 92)), (proj2 (Z.eqb_neq r 10)), (proj2 (Z.eqb_neq r 13)),
    (proj2 (Z.eqb_neq r 9)), (proj2 (Z.ltb_ge r 32)), (proj2 (Z.eqb_neq r 60)), (proj2 (Z.eqb_neq r 62)),
    (proj2 (Z.eqb_neq r 38)) by lia. cbn [orb].
  destruct ((r =? rune_error) && (length bs =? 1)%nat) eqn:E.
  { apply andb_true_iff in E as [->%Z.eqb_eq _]. split_and!; [vm_compute; reflexivity|reflexivity|intros rest; reflexivity]. }
  assert (bs = encode_rune r) as ->.
  { destruct Hbs as [->|[-> Hl]]; [done|]. rewrite Hl in E. done. }
  destruct ((r =? 8232) || (r =? 8233)) eqn:E2.
  { apply orb_true_iff in E2 as [->%Z.eqb_eq| ->%Z.eqb_eq];
      (split_and!; [vm_compute; reflexivity|reflexivity|intros rest; reflexivity]). }
  split_and!.
  - unfold string_of_runes. cbn. by rewrite app_nil_r.
  - cbn. by rewrite Hs.
  - intros rest. cbn [app lex_string].
    by rewrite (proj2 (Z.eqb_neq r 34)), (proj2 (Z.eqb_neq r 92)), (proj2 (Z.ltb_ge r 32)) by lia.
Qed.

Lemma json_string_runes s : json_string s = string_of_runes (quoted_runes s).
Proof.
  unfold json_string, quoted_runes. change (34 :: ?l) with ([34] ++ l). rewrite string_of_runes_app.
  change (string_of_runes [34]) with quote. f_equal.
  pose proof (chunks_ok _ (bytes_range s)) as Hok. induction Hok as [|c cs Hc _ IH]; [done|].
  rewrite bind_cons, <- app_assoc, string_of_runes_app, <- IH. cbn [foldr].
  by destruct (escape_ok c Hc) as (-> & _ & _).
Qed.

Lemma quoted_scalar s : forallb scalar (quoted_runes s) = true.
Proof.
  unfold quoted_runes. cbn [forallb]. rewrite forallb_app, andb_true_r. apply andb_true_iff. split; [done|].
  pose proof (chunks_ok _ (bytes_range s)) as Hok. induction Hok as [|c cs Hc _ IH]; [done|].
  rewrite bind_cons, forallb_app, IH, andb_true_r. by destruct (escape_ok c Hc) as (_ & -> & _).
Qed.

(** A quoted string is read as the runes of its argument. *)
Lemma lex_quoted s rest :
  ∃ body, quoted_runes s = 34 :: body ∧ lex_string (body ++ rest) = Some (runes s, rest).
Proof.
  eexists. split; [reflexivity|]. unfold runes.
  pose proof (chunks_ok _ (bytes_range s)) as Hok. induction Hok as [|c cs Hc _ IH]; [done|].
  destruct (escape_ok c Hc) as (_ & _ & Hlex).
  rewrite bind_cons, <- !app_assoc, Hlex. rewrite <- app_assoc in IH. rewrite IH. done.
Qed.

(** Objects whose members are strings and booleans. *)
Inductive flat := FString (s : string) | FBool (b : bool).
Definition flat_text (v : flat) : string :=
  match v with FString s => json_string s | FBool b => if b then "true" else "false" end.
Definition flat_object (ms : list (string * flat)) : string :=
  json_object ((λ m, (m.1, flat_text m.2)) <$> ms).
(** What a reader gets: ill-formed UTF-8 is replaced. *)
Definition to_valid (s : string) : string := string_of_runes (runes s).
Definition flat_value (v : flat) : jvalue :=
  match v with FString s => JString (to_valid s) | FBool b => JBool b end.

Lemma to_valid_id s : valid_utf8 s = true → to_valid s = s.
Proof. apply string_of_runes_of_string. Qed.

Definition flat_runes (v : flat) : list Z :=
  match v with
  | FString s => quoted_runes s
  | FBool b => if b then [116; 114; 117; 101] else [102; 97; 108; 115; 101]
  end.
Fixpoint member_runes (ms : list (string * flat)) : list Z :=
  match ms with
  | [] => []
  | [m] => quoted_runes m.1 ++ 58 :: flat_runes m.2
  | m :: ms' => quoted_runes m.1 ++ 58 :: flat_runes m.2 ++ 44 :: member_runes ms'
  end.
Definition object_runes (ms : list (string * flat)) : list Z := 123 :: member_runes ms ++ [125].

Lemma string_of_runes_ascii r l : 0 ≤ r < 128 →
  string_of_runes (r :: l) = (string_of_bytes [r] ++ string_of_runes l)%string.
Proof.
  intros Hr. change (r :: l) with ([r] ++ l). rewrite string_of_runes_app, string_of_runes_bytes; [done|].
  by constructor.
Qed.

Lemma flat_text_runes v : flat_text v = string_of_runes (flat_runes v) ∧ forallb scalar (flat_runes v) = true.
Proof. destruct v as [s|[]]; [split; [apply json_string_runes|apply quoted_scalar]|done..]. Qed.

Lemma flat_object_runes ms : flat_object ms = string_of_runes (object_runes ms).
Proof.
  unfold flat_object, json_object, object_runes.
  rewrite string_of_runes_ascii, string_of_runes_app by lia. f_equal. f_equal.
  induction ms as [|[k v] ms IH]; [done|]. cbn [fmap list_fmap fst snd]. cbn [fmap list_fmap] in IH.
  destruct ms as [|m ms].
  - cbn [list_fmap String.concat member_runes fst snd].
    rewrite string_of_runes_app, string_of_runes_ascii by lia.
    rewrite json_string_runes, (proj1 (flat_text_runes v)). done.
  - change (member_runes ((k, v) :: m :: ms))
      with (quoted_runes k ++ 58 :: flat_runes v ++ 44 :: member_runes (m :: ms)).
    rewrite string_of_runes_app, string_of_runes_ascii, string_of_runes_app, string_of_runes_ascii, <- IH by lia.
    rewrite json_string_runes, (proj1 (flat_text_runes v)). cbn [list_fmap fmap String.concat].
    by rewrite !string_app_assoc.
Qed.

Lemma object_scalar ms : forallb scalar (object_runes ms) = true.
Proof.
  unfold object_runes. cbn [forallb]. rewrite forallb_app, andb_true_r.
  change (forallb scalar (member_runes ms) = true).
  induction ms as [|[k v] ms IH]; [done|]. destruct ms as [|m ms].
  - cbn [member_runes fst snd]. rewrite forallb_app, quoted_scalar. cbn [forallb].
    by rewrite (proj2 (flat_text_runes v)).
  - change (member_runes ((k, v) :: m :: ms))
      with (quoted_runes k ++ 58 :: flat_runes v ++ 44 :: member_runes (m :: ms)).
    rewrite forallb_app, quoted_scalar. cbn [forallb].
    rewrite forallb_app, (proj2 (flat_text_runes v)). cbn [forallb]. by rewrite IH.
Qed.

Lemma parse_flat fuel d v rest :
  parse_value (S fuel) d (flat_runes v ++ rest) = Some (flat_value v, rest).
Proof.
  destruct v as [s|[]]; [|reflexivity..]. cbn [flat_runes]. destruct (lex_quoted s rest) as (body & -> & Hlex).
  cbn [parse_value app skip_space is_json_space Z.eqb Pos.eqb orb]. rewrite Hlex. done.
Qed.

Lemma parse_members_flat ms fuel d rest :
  ms ≠ [] → (length ms < fuel)%nat →
  parse_members fuel d (member_runes ms ++ 125 :: rest)
  = Some ((λ m, (to_valid m.1, flat_value m.2)) <$> ms, rest).
Proof.
  revert fuel. induction ms as [|[k v] ms IH]; intros fuel Hne Hf; [done|]. clear Hne.
  destruct fuel as [|[|fuel]]; [simpl in Hf; lia..|].
  set (tail := match ms with [] => 125 :: rest | _ => 44 :: member_runes ms ++ 125 :: rest end).
  replace (member_runes ((k, v) :: ms) ++ 125 :: rest) with (quoted_runes k ++ 58 :: flat_runes v ++ tail).
  2:{ unfold tail. destruct ms as [|m ms]; [cbn [member_runes fst snd]; by rewrite <- app_assoc|].
      change (member_runes ((k, v) :: m :: ms))
        with (quoted_runes k ++ 58 :: flat_runes v ++ 44 :: member_runes (m :: ms)).
      by rewrite <- app_assoc, <- app_comm_cons, <- app_assoc, <- app_comm_cons. }
  remember (S fuel) as f eqn:Ef.
  destruct (lex_quoted k (58 :: flat_runes v ++ tail)) as (body & -> & Hlex).
  cbn [parse_members app skip_space is_json_space Z.eqb Pos.eqb orb negb]. rewrite Hlex.
  cbn [mbind option_bind skip_space is_json_space Z.eqb Pos.eqb orb negb].
  rewrite Ef, parse_flat, <- Ef. cbn [mbind option_bind]. unfold tail. destruct ms as [|m ms].
  - cbn. done.
  - cbn [skip_space is_json_space Z.eqb Pos.eqb orb negb].
    rewrite IH; [reflexivity|done|]. simpl in *. lia.
Qed.

(** An object of strings and booleans that was written is read back, member for member. *)
Lemma json_document_flat ms :
  json_document (flat_object ms) = Some (JObject ((λ m, (to_valid m.1, flat_value m.2)) <$> ms)).
Proof.
  unfold json_document. rewrite flat_object_runes, runes_of_string_of_runes by apply object_scalar.
  assert (length ms < length (object_runes ms))%nat as Hlen.
  { unfold object_runes. cbn [length]. rewrite length_app. cbn.
    enough (length ms ≤ length (member_runes ms))%nat by lia.
    induction ms as [|[k v] ms IH]; [done|]. destruct ms as [|m ms].
    - cbn. rewrite length_app. simpl. lia.
    - change (member_runes ((k, v) :: m :: ms))
        with (quoted_runes k ++ 58 :: flat_runes v ++ 44 :: member_runes (m :: ms)).
      rewrite length_app. cbn [length]. rewrite length_app. cbn [length] in *. lia. }
  destruct ms as [|m ms]; [reflexivity|]. unfold object_runes in *.
  set (n := (2 * _)%nat). assert (length (m :: ms) < n)%nat as Hn by (unfold n; lia). clearbody n.
  cbn [parse_value skip_space is_json_space Z.eqb Pos.eqb orb].
  pose proof (parse_members_flat (m :: ms) n (0 + 1) [] ltac:(done) Hn) as Hm.
  assert (∃ body, member_runes (m :: ms) = 34 :: body) as [body Hb].
  { destruct ms as [|m' ms]; eexists; reflexivity. }
  rewrite Hb in *. cbn [app skip_space is_json_space Z.eqb Pos.eqb orb max_nesting Z.leb Z.compare].
  change ((34 :: body) ++ [125]) with (34 :: body ++ [125]) in Hm. rewrite Hm. done.
Qed.

(** * Examples *)

Definition ex_json (l : list string) : string := String.concat quote l.

Example json_documents :
  json_document (ex_json ["{"; "a"; ":["; "\u00e9\ud83d\ude00\ud800"; ",-1.5e+3,true ] }"])
    = Some (JObject [("a"%string, JArray [JString (string_of_runes [233; 128512; 65533]);
        JNumber [45; 49; 46; 53; 101; 43; 51]; JBool true])])
  ∧ json_document " null " = Some JNull
  ∧ json_document "01" = None ∧ json_document "[1,]" = None ∧ json_document "{} {}" = None
  ∧ json_document (ex_json [""; "\x"; ""]) = None ∧ json_document (ex_json [""; "open"]) = None
  ∧ json_document (string_of_bytes [34; 10; 34]) = None
  ∧ json_document (string_of_bytes [34; 255; 34]) = Some (JString (string_of_runes [65533])).
Proof. vm_compute. by split_and!. Qed.

Example find_field_folds :
  find_field ["Content"; "kind"]%string (string_of_runes [8490; 73; 110; 68]) = Some "kind"%string
  ∧ find_field ["Content"; "content"]%string "content" = Some "content"%string
  ∧ find_field ["Content"; "content"]%string "CONTENT" = Some "Content"%string
  ∧ find_field ["content"]%string "contents" = None.
Proof. vm_compute. by split_and!. Qed.
