(* ===== verification/AgentRevision.v ===== *)
(** Revisions of agent apps, [trpcservice/agent/revision.go]: the executable content of an
    app, its normalization and validation, the content digest, and publication, which
    turns a mutable draft into immutable content.  Cloning is the identity on values; a
    nil list of tools and an empty one are not told apart, since every place that looks at
    the tools reads their length or a normalized copy. *)
From Stdlib Require Import Ascii String.
From Corelib Require Import SpecFloat.
From S2P Require Import Prelude GoStrings GoFloat Sha256 Tenant Agent.
Local Open Scope Z_scope.

Definition RevisionStateDraft : string := "draft".
Definition RevisionStatePublished : string := "published".
Definition KindLLM : string := "llm".
Definition SchemaVersionV1 : Z := 1.
Definition maxInstructionRunes : Z := 65536.
Definition maxReferenceRunes : Z := 256.

Record GenerationConfig := mkGeneration {
  Temperature : option spec_float; TopP : option spec_float; MaxOutputTokens : option Z }.
#[export] Instance generation_eq_dec : EqDecision GenerationConfig.
Proof. solve_decision. Defined.

Record RuntimePolicy := mkPolicy {
  MaxLLMCalls : Z; MaxToolCalls : Z; EnableParallelTools : bool; MaxParallelTools : Z;
  ExecutionTimeoutSeconds : Z }.
#[export] Instance policy_eq_dec : EqDecision RuntimePolicy.
Proof. solve_decision. Defined.

Definition DefaultRuntimePolicy : RuntimePolicy := mkPolicy 16 64 false 1 300.
Definition zero_policy : RuntimePolicy := mkPolicy 0 0 false 0 0.

Record ToolAuthorization := mkTool { ToolID : string; Required : bool }.
#[export] Instance tool_eq_dec : EqDecision ToolAuthorization.
Proof. solve_decision. Defined.

Record DraftConfiguration := mkDraft {
  dc_Description : string; dc_Instruction : string; dc_GlobalInstruction : string;
  dc_ModelProfileID : string; dc_Generation : GenerationConfig; dc_Runtime : RuntimePolicy;
  dc_Tools : list ToolAuthorization }.

Record Revision := mkRevision {
  rv_TenantID : string;
  rv_AppID : string;
  rv_Revision : Z;
  State : string;
  DraftVersion : Z;
  Kind : string;
  SchemaVersion : Z;
  (* Description, Instruction, GlobalInstruction, ModelProfileID, Generation, Runtime, Tools *)
  Configuration : DraftConfiguration;
  ContentDigest : string;
  PublishedAt : option time;
  rv_CreatedAt : time;
  rv_UpdatedAt : time }.

Record CreateRevisionInput := mkCreateRevision {
  cr_TenantID : string; cr_AppID : string; cr_Revision : Z; cr_Kind : string;
  cr_SchemaVersion : Z; cr_Configuration : DraftConfiguration }.

(** * Normalization *)

Definition tool_le (x y : ToolAuthorization) : Prop := String.le (ToolID x) (ToolID y).
#[export] Instance tool_le_dec : RelDecision tool_le.
Proof. intros x y. unfold tool_le. apply _. Defined.

(** The loop of [normalizeTools]; [seen] are the identifiers met before. *)
Fixpoint trim_tools (seen : gset string) (tools : list ToolAuthorization)
    : result error (list ToolAuthorization) :=
  match tools with
  | [] => Ok []
  | tool :: tools' =>
      let id := trim_space (ToolID tool) in
      let n := rune_count id in
      if (n <? 1) || (maxReferenceRunes <? n) then Err ErrInvalid
      else if bool_decide (id ∈ seen) then Err ErrInvalid
      else rest ← trim_tools ({[id]} ∪ seen) tools'; Ok (mkTool id (Required tool) :: rest)
  end.

(** No two tools have the same identifier, so the unstable [sort.Slice] has one possible
    result. *)
Definition normalizeTools (tools : list ToolAuthorization) : result error (list ToolAuthorization) :=
  match tools with
  | [] => Ok []
  | _ => normalized ← trim_tools ∅ tools; Ok (merge_sort tool_le normalized)
  end.

Definition positive_zero (x : option spec_float) : option spec_float :=
  match x with
  | Some v => if SFeqb v (S754_zero false) then Some (S754_zero false) else Some v
  | None => None
  end.
Definition normalizeGenerationConfig (g : GenerationConfig) : GenerationConfig :=
  mkGeneration (positive_zero (Temperature g)) (positive_zero (TopP g)) (MaxOutputTokens g).

Definition normalizeDraftConfiguration (c : DraftConfiguration) : result error DraftConfiguration :=
  tools ← normalizeTools (dc_Tools c);
  Ok (mkDraft (trim_space (dc_Description c)) (dc_Instruction c) (dc_GlobalInstruction c)
    (trim_space (dc_ModelProfileID c)) (normalizeGenerationConfig (dc_Generation c))
    (if bool_decide (dc_Runtime c = zero_policy) then DefaultRuntimePolicy else dc_Runtime c) tools).

(** * Validation *)

Definition validateGenerationConfig (g : GenerationConfig) : result error unit :=
  let bad_temperature := match Temperature g with
    | Some t => is_nan t || is_inf t || SFltb t (S754_zero false) || SFltb (f64 2) t
    | None => false end in
  let bad_top_p := match TopP g with
    | Some p => is_nan p || is_inf p || SFleb p (S754_zero false) || SFltb (f64 1) p
    | None => false end in
  let bad_tokens := match MaxOutputTokens g with
    | Some n => (n <? 1) || (1000000 <? n)
    | None => false end in
  if bad_temperature then Err ErrInvalid
  else if bad_top_p then Err ErrInvalid
  else if bad_tokens then Err ErrInvalid
  else Ok ().

Definition validateRuntimePolicy (p : RuntimePolicy) : result error unit :=
  if (MaxLLMCalls p <? 1) || (100 <? MaxLLMCalls p) then Err ErrInvalid
  else if (MaxToolCalls p <? 0) || (1000 <? MaxToolCalls p) then Err ErrInvalid
  else if (MaxParallelTools p <? 1) || (64 <? MaxParallelTools p) then Err ErrInvalid
  else if negb (EnableParallelTools p) && negb (MaxParallelTools p =? 1) then Err ErrInvalid
  else if (ExecutionTimeoutSeconds p <? 1) || (3600 <? ExecutionTimeoutSeconds p) then Err ErrInvalid
  else Ok ().

Definition validateRevisionDefinition (kind : string) (schemaVersion : Z) (c : DraftConfiguration)
    : result error unit :=
  if negb (kind =? KindLLM)%string || negb (schemaVersion =? SchemaVersionV1) then Err ErrInvalid
  else if 2000 <? rune_count (dc_Description c) then Err ErrInvalid
  else
    let n := rune_count (trim_space (dc_Instruction c)) in
    if (n <? 1) || (maxInstructionRunes <? n) then Err ErrInvalid
    else if maxInstructionRunes <? rune_count (dc_GlobalInstruction c) then Err ErrInvalid
    else
      let n := rune_count (dc_ModelProfileID c) in
      if (n <? 1) || (maxReferenceRunes <? n) then Err ErrInvalid
      else
        _ ← validateGenerationConfig (dc_Generation c);
        _ ← validateRuntimePolicy (dc_Runtime c);
        _ ← normalizeTools (dc_Tools c);
        Ok ().

Definition sameFloat64 (left right : option spec_float) : bool :=
  match left, right with
  | Some x, Some y => SFeqb x y
  | None, None => true
  | _, _ => false
  end.
Definition sameInt (left right : option Z) : bool :=
  match left, right with
  | Some x, Some y => x =? y
  | None, None => true
  | _, _ => false
  end.
Definition sameGenerationConfig (left right : GenerationConfig) : bool :=
  sameFloat64 (Temperature left) (Temperature right) && sameFloat64 (TopP left) (TopP right)
  && sameInt (MaxOutputTokens left) (MaxOutputTokens right).
Definition sameDraftConfiguration (left right : DraftConfiguration) : bool :=
  (dc_Description left =? dc_Description right)%string
  && (dc_Instruction left =? dc_Instruction right)%string
  && (dc_GlobalInstruction left =? dc_GlobalInstruction right)%string
  && (dc_ModelProfileID left =? dc_ModelProfileID right)%string
  && bool_decide (dc_Runtime left = dc_Runtime right)
  && sameGenerationConfig (dc_Generation left) (dc_Generation right)
  && bool_decide (dc_Tools left = dc_Tools right).

(** * The content digest *)

Definition json_bool (b : bool) : string := if b then "true" else "false".
Definition json_array (items : list string) : string := ("[" ++ String.concat "," items ++ "]")%string.

(** A float member that is left out when nil. *)
Definition float_member (name : string) (x : option spec_float) : result error (list (string * string)) :=
  match x with
  | None => Ok []
  | Some v => match json_float v with Some text => Ok [(name, text)] | None => Err ErrEncode end
  end.
Definition json_generation (g : GenerationConfig) : result error string :=
  temperature ← float_member "temperature" (Temperature g);
  top_p ← float_member "top_p" (TopP g);
  Ok (json_object (temperature ++ top_p
        ++ match MaxOutputTokens g with Some n => [("max_output_tokens", itoa n)] | None => [] end)).
Definition json_policy (p : RuntimePolicy) : string :=
  json_object [("max_llm_calls", itoa (MaxLLMCalls p)); ("max_tool_calls", itoa (MaxToolCalls p));
    ("enable_parallel_tools", json_bool (EnableParallelTools p));
    ("max_parallel_tools", itoa (MaxParallelTools p));
    ("execution_timeout_seconds", itoa (ExecutionTimeoutSeconds p))]%string.
Definition json_tool (t : ToolAuthorization) : string :=
  json_object [("tool_id", json_string (ToolID t)); ("required", json_bool (Required t))]%string.

Definition digest_payload (kind : string) (schemaVersion : Z) (c : DraftConfiguration)
    : result error string :=
  generation ← json_generation (dc_Generation c);
  Ok (json_object [("kind", json_string kind); ("schema_version", itoa schemaVersion);
    ("description", json_string (dc_Description c)); ("instruction", json_string (dc_Instruction c));
    ("global_instruction", json_string (dc_GlobalInstruction c));
    ("model_profile_id", json_string (dc_ModelProfileID c)); ("generation", generation);
    ("runtime", json_policy (dc_Runtime c)); ("tools", json_array (json_tool <$> dc_Tools c))]%string).

Definition ComputeContentDigest (r : Revision) : result error string :=
  c ← normalizeDraftConfiguration (Configuration r);
  _ ← validateRevisionDefinition (Kind r) (SchemaVersion r) c;
  payload ← digest_payload (Kind r) (SchemaVersion r) c;
  Ok (sha256_hex payload).

(** * Revisions *)

Definition NewRevision (now : time) (input : CreateRevisionInput) : result error Revision :=
  _ ← validateTenantID (cr_TenantID input);
  _ ← validateAppID (cr_AppID input);
  _ ← guard_ok (negb (cr_Revision input <? 1)) ErrInvalid;
  let kind := if (cr_Kind input =? "")%string then KindLLM else cr_Kind input in
  let schemaVersion := if cr_SchemaVersion input =? 0 then SchemaVersionV1 else cr_SchemaVersion input in
  c ← normalizeDraftConfiguration (cr_Configuration input);
  _ ← validateRevisionDefinition kind schemaVersion c;
  Ok (mkRevision (cr_TenantID input) (cr_AppID input) (cr_Revision input) RevisionStateDraft 1
        kind schemaVersion c "" None now now).

Definition revision_validateIdentity (r : Revision) : result error unit :=
  _ ← validateTenantID (rv_TenantID r);
  _ ← validateAppID (rv_AppID r);
  guard_ok (negb ((rv_Revision r <? 1) || (DraftVersion r <? 1))) ErrInvalid.

Definition validateConfiguration (r : Revision) : result error unit :=
  normalized ← normalizeDraftConfiguration (Configuration r);
  _ ← guard_ok (sameDraftConfiguration (Configuration r) normalized) ErrInvalid;
  validateRevisionDefinition (Kind r) (SchemaVersion r) (Configuration r).

Definition validateTimestamps (r : Revision) : result error unit :=
  guard_ok (negb (is_zero (rv_CreatedAt r) || is_zero (rv_UpdatedAt r)
    || before (rv_UpdatedAt r) (rv_CreatedAt r))) ErrInvalid.

Definition validatePublication (r : Revision) : result error unit :=
  if (State r =? RevisionStateDraft)%string
  then guard_ok ((ContentDigest r =? "")%string && opt_is_nil (PublishedAt r)) ErrInvalid
  else if (State r =? RevisionStatePublished)%string
  then match PublishedAt r with
       | None => Err ErrInvalid
       | Some at_ =>
           _ ← guard_ok (negb (is_zero at_ || before at_ (rv_CreatedAt r)
                 || negb (at_ =? rv_UpdatedAt r))) ErrInvalid;
           digest ← ComputeContentDigest r;
           guard_ok (ContentDigest r =? digest)%string ErrInvalid
       end
  else Err ErrInvalid.

Definition revision_Validate (r : Revision) : result error unit :=
  _ ← revision_validateIdentity r;
  _ ← validateConfiguration r;
  _ ← validateTimestamps r;
  validatePublication r.

Definition Publish (at_ : time) (r : Revision) : result error Revision :=
  if negb (State r =? RevisionStateDraft)%string then Err ErrImmutableRevision
  else
    _ ← revision_Validate r;
    _ ← guard_ok (negb (is_zero at_ || before at_ (rv_UpdatedAt r))) ErrInvalid;
    digest ← ComputeContentDigest r;
    let published := mkRevision (rv_TenantID r) (rv_AppID r) (rv_Revision r) RevisionStatePublished
      (DraftVersion r) (Kind r) (SchemaVersion r) (Configuration r) digest (Some at_)
      (rv_CreatedAt r) at_ in
    _ ← revision_Validate published;
    Ok published.

#[global] Arguments normalizeTools : simpl never.
#[global] Arguments validateRevisionDefinition : simpl never.
#[global] Arguments digest_payload : simpl never.
#[global] Arguments revision_Validate : simpl never.
#[global] Arguments ComputeContentDigest : simpl never.

(** * Normalization is idempotent *)

#[export] Instance tool_le_trans : Transitive tool_le.
Proof. intros x y z. unfold tool_le. apply transitivity. Qed.
#[export] Instance tool_le_total : Total tool_le.
Proof. intros x y. apply (total String.le). Qed.

Definition tool_ok (t : ToolAuthorization) : Prop :=
  trim_space (ToolID t) = ToolID t ∧ 1 ≤ rune_count (ToolID t) ≤ maxReferenceRunes.

(** A list that the loop accepts without changing it. *)
Definition tools_ok (seen : gset string) (ts : list ToolAuthorization) : Prop :=
  Forall tool_ok ts ∧ NoDup (ToolID <$> ts) ∧ Forall (λ t, ToolID t ∉ seen) ts.

Lemma tools_ok_cons seen t ts :
  tools_ok seen (t :: ts) ↔ tool_ok t ∧ ToolID t ∉ seen ∧ tools_ok ({[ToolID t]} ∪ seen) ts.
Proof.
  unfold tools_ok. rewrite fmap_cons, NoDup_cons, !Forall_cons.
  assert (Forall (λ u, ToolID u ∉ {[ToolID t]} ∪ seen) ts
    ↔ ToolID t ∉ ToolID <$> ts ∧ Forall (λ u, ToolID u ∉ seen) ts) as ->; [|tauto].
  rewrite !Forall_forall, list_elem_of_fmap. split.
  - intros Hall. split; [|intros u Hu Hin; apply (Hall u Hu); by apply elem_of_union_r].
    intros (u & Heq & Hu). apply (Hall u Hu). rewrite Heq. by apply elem_of_union_l, elem_of_singleton.
  - intros [Hno Hall] u Hu [Heq%elem_of_singleton|Hin]%elem_of_union; [|by apply (Hall u)].
    apply Hno. by exists u.
Qed.

Lemma trim_tools_ok seen ts us : trim_tools seen ts = Ok us → tools_ok seen us.
Proof.
  revert seen us. induction ts as [|t ts IH]; intros seen us; simpl.
  { intros [= <-]. by split_and!; constructor. }
  destruct (_ || _) eqn:Hn; [done|]. case_bool_decide as Hin; [done|]. go_unfold.
  destruct (trim_tools _ ts) as [rest|] eqn:Hr; [|done]. intros [= <-].
  apply tools_ok_cons. cbn [ToolID]. split; [|split; [done|by apply IH]].
  bool_prop. unfold tool_ok. cbn [ToolID]. rewrite trim_space_idem. unfold maxReferenceRunes in *. split; [done|lia].
Qed.

Lemma tools_ok_trim seen ts : tools_ok seen ts → trim_tools seen ts = Ok ts.
Proof.
  revert seen. induction ts as [|t ts IH]; intros seen; [done|]. rewrite tools_ok_cons.
  intros ([Ht Hn] & Hin & Hok). simpl. rewrite Ht. unfold maxReferenceRunes in *.
  rewrite (proj2 (Z.ltb_ge _ 1)), (proj2 (Z.ltb_ge 256 _)) by lia. simpl.
  rewrite bool_decide_eq_false_2 by done. go_unfold. rewrite (IH _ Hok). by destruct t.
Qed.

Lemma tools_ok_perm seen ts us : ts ≡ₚ us → tools_ok seen ts → tools_ok seen us.
Proof. intros Hp. unfold tools_ok. by rewrite Hp. Qed.

(** Any algorithm that sorts the accepted tools finds the same list. *)
Lemma sorted_tools_unique ts us vs :
  NoDup (ToolID <$> ts) → us ≡ₚ ts → vs ≡ₚ ts →
  StronglySorted tool_le us → StronglySorted tool_le vs → us = vs.
Proof.
  intros Hnd Hu Hv Hsu Hsv. apply (StronglySorted_unique_strong tool_le); [|done..|by rewrite Hu, Hv].
  intros x y Hx Hy Hxy Hyx. rewrite Hu in Hx. rewrite Hv in Hy.
  apply list_elem_of_lookup in Hx as [i Hi]. apply list_elem_of_lookup in Hy as [j Hj].
  assert (ToolID x = ToolID y) as Heq by (by apply (anti_symm String.le)).
  assert (i = j) as ->; [|congruence].
  eapply NoDup_lookup; [done| |]; rewrite list_lookup_fmap; [by rewrite Hi|]. rewrite Hj. simpl. by rewrite Heq.
Qed.

Lemma normalizeTools_spec ts us :
  normalizeTools ts = Ok us → tools_ok ∅ us ∧ StronglySorted tool_le us.
Proof.
  unfold normalizeTools. destruct ts as [|t ts].
  { intros [= <-]. split; [by split_and!; constructor|constructor]. }
  go_unfold. destruct (trim_tools ∅ (t :: ts)) as [vs|] eqn:Hv; [|done]. intros [= <-]. split.
  - eapply tools_ok_perm; [symmetry; apply merge_sort_Permutation|]. by eapply trim_tools_ok.
  - apply (StronglySorted_merge_sort _).
Qed.

Lemma normalizeTools_fix us :
  tools_ok ∅ us → StronglySorted tool_le us → normalizeTools us = Ok us.
Proof.
  intros Hok Hs. unfold normalizeTools. destruct us as [|u us]; [done|]. rewrite (tools_ok_trim _ _ Hok).
  go_unfold. f_equal. destruct Hok as (_ & Hnd & _). eapply sorted_tools_unique; [done| |done| |done].
  - apply merge_sort_Permutation.
  - apply (StronglySorted_merge_sort _).
Qed.

Lemma positive_zero_idem x : positive_zero (positive_zero x) = positive_zero x.
Proof. destruct x as [v|]; simpl; [|done]. destruct (SFeqb v _) eqn:Hv; simpl; [done|]. by rewrite Hv. Qed.

Lemma normalizeDraft_idem c d :
  normalizeDraftConfiguration c = Ok d → normalizeDraftConfiguration d = Ok d.
Proof.
  unfold normalizeDraftConfiguration. go_unfold. destruct (normalizeTools _) as [us|] eqn:Hu; [|done].
  intros [= <-]. destruct (normalizeTools_spec _ _ Hu) as [Hok Hs]. cbn [dc_Tools dc_Description dc_Instruction
    dc_GlobalInstruction dc_ModelProfileID dc_Generation dc_Runtime].
  rewrite (normalizeTools_fix _ Hok Hs), !trim_space_idem. unfold normalizeGenerationConfig. simpl.
  rewrite !positive_zero_idem. repeat case_bool_decide; congruence.
Qed.

(** * Validity and publication *)

Lemma SFeqb_refl x : is_nan x = false → SFeqb x x = true.
Proof.
  destruct x as [s|s| |s m e]; try done; [by destruct s|]. intros _. unfold SFeqb, SFcompare.
  destruct s; rewrite Z.compare_refl, Pos.compare_refl; done.
Qed.

Lemma SFeqb_zero x : SFeqb x (S754_zero false) = true → ∃ s, x = S754_zero s.
Proof. destruct x as [s|s| |s m e]; [eauto|by destruct s|done|by destruct s]. Qed.

Lemma validateGeneration_normal g :
  validateGenerationConfig (normalizeGenerationConfig g) = validateGenerationConfig g.
Proof.
  destruct g as [t p n]. unfold normalizeGenerationConfig, validateGenerationConfig. simpl.
  assert (∀ f : spec_float → bool, (∀ s, f (S754_zero s) = f (S754_zero false)) → ∀ x,
    match positive_zero x with Some v => f v | None => false end
    = match x with Some v => f v | None => false end) as Hz.
  { intros f Hf [v|]; simpl; [|done]. destruct (SFeqb v _) eqn:Hv; [|done].
    apply SFeqb_zero in Hv as [s ->]. by rewrite (Hf s). }
  rewrite !Hz; [done| |]; intros []; vm_compute; reflexivity.
Qed.

(** A definition that passes validation has finite generation parameters. *)
Lemma validateDefinition_generation k v c :
  validateRevisionDefinition k v c = Ok () → validateGenerationConfig (dc_Generation c) = Ok ().
Proof.
  unfold validateRevisionDefinition. go_unfold.
  destruct (validateGenerationConfig (dc_Generation c)) as [[]|]; [done|]. by repeat case_match.
Qed.

Definition finite (x : option spec_float) : Prop :=
  match x with Some v => is_nan v = false ∧ is_inf v = false | None => True end.

Lemma validateGeneration_finite g :
  validateGenerationConfig g = Ok () → finite (Temperature g) ∧ finite (TopP g).
Proof.
  unfold validateGenerationConfig, finite. destruct g as [t p n]; simpl. intros Hv. split.
  - destruct t as [v|]; [|done]. destruct (is_nan v); [done|]. by destruct (is_inf v).
  - destruct p as [v|]; [|done]. destruct (match t with Some _ => _ | None => _ end); [done|].
    destruct (is_nan v); [done|]. by destruct (is_inf v).
Qed.

Lemma sameFloat64_refl x : finite x → sameFloat64 x x = true.
Proof. destruct x as [v|]; [|done]. intros [Hn _]. by apply SFeqb_refl. Qed.

Lemma sameDraft_refl k v c :
  validateRevisionDefinition k v c = Ok () → sameDraftConfiguration c c = true.
Proof.
  intros Hv%validateDefinition_generation%validateGeneration_finite. destruct Hv as [Ht Hp].
  unfold sameDraftConfiguration, sameGenerationConfig. rewrite !String.eqb_refl, !sameFloat64_refl by done.
  rewrite !bool_decide_eq_true_2 by done. destruct (MaxOutputTokens _); simpl; [by rewrite Z.eqb_refl|done].
Qed.

Lemma float_member_ok name x : finite x → ∃ l, float_member name x = Ok l.
Proof.
  destruct x as [v|]; simpl; [|eauto]. intros [Hn Hi]. unfold json_float.
  destruct v as [s|s| |s m e]; try done; [eauto|].
  destruct (shortest _ _ _ _ _) as [d k]. destruct (strip_zeros _ d k). eauto.
Qed.

(** Content that passed validation can always be written, so [json.Marshal] never fails
    in the digest. *)
Lemma digest_payload_ok k v c :
  validateRevisionDefinition k v c = Ok () → ∃ s, digest_payload k v c = Ok s.
Proof.
  intros Hv%validateDefinition_generation%validateGeneration_finite. destruct Hv as [Ht Hp].
  unfold digest_payload, json_generation. go_unfold.
  destruct (float_member_ok "temperature" _ Ht) as [l1 ->].
  destruct (float_member_ok "top_p" _ Hp) as [l2 ->]. eauto.
Qed.

Lemma sameDraft_normal c d :
  normalizeDraftConfiguration c = Ok d → sameDraftConfiguration c d = true →
  d = mkDraft (dc_Description c) (dc_Instruction c) (dc_GlobalInstruction c) (dc_ModelProfileID c)
        (normalizeGenerationConfig (dc_Generation c)) (dc_Runtime c) (dc_Tools c).
Proof.
  unfold normalizeDraftConfiguration, sameDraftConfiguration. go_unfold.
  destruct (normalizeTools _) as [us|]; [|done]. intros [= <-]. cbn. intros Hs. bool_prop. congruence.
Qed.

Lemma validateDefinition_normal k v c d :
  normalizeDraftConfiguration c = Ok d → sameDraftConfiguration c d = true →
  validateRevisionDefinition k v d = validateRevisionDefinition k v c.
Proof.
  intros Hn Hs. rewrite (sameDraft_normal _ _ Hn Hs). unfold validateRevisionDefinition.
  cbn [dc_Description dc_Instruction dc_GlobalInstruction dc_ModelProfileID dc_Generation dc_Runtime dc_Tools].
  by rewrite validateGeneration_normal.
Qed.

Lemma revision_Validate_Ok r :
  revision_Validate r = Ok () ↔ revision_validateIdentity r = Ok () ∧ validateConfiguration r = Ok ()
    ∧ validateTimestamps r = Ok () ∧ validatePublication r = Ok ().
Proof.
  unfold revision_Validate. go_unfold. split.
  - intros Hv. repeat (case_match; [|done]).
    repeat match goal with u : unit |- _ => destruct u end. done.
  - by intros (-> & -> & -> & ->).
Qed.

Lemma validateTimestamps_Ok r :
  validateTimestamps r = Ok () ↔ rv_CreatedAt r ≠ 0 ∧ rv_UpdatedAt r ≠ 0 ∧ rv_CreatedAt r ≤ rv_UpdatedAt r.
Proof.
  unfold validateTimestamps, is_zero, before. go_unfold.
  destruct (Z.eqb_spec (rv_CreatedAt r) 0), (Z.eqb_spec (rv_UpdatedAt r) 0),
    (Z.ltb_spec (rv_UpdatedAt r) (rv_CreatedAt r)); simpl; split; try done; try lia.
Qed.

(** A new draft passes validation. *)
Lemma NewRevision_valid now input r :
  is_zero now = false → NewRevision now input = Ok r →
  revision_Validate r = Ok () ∧ State r = RevisionStateDraft ∧ rv_TenantID r = cr_TenantID input
  ∧ rv_AppID r = cr_AppID input ∧ rv_Revision r = cr_Revision input.
Proof.
  intros Hz. unfold NewRevision. go_unfold.
  destruct (validateTenantID _) as [[]|] eqn:Ht; [|done].
  destruct (validateAppID _) as [[]|] eqn:Ha; [|done].
  destruct (Z.ltb_spec (cr_Revision input) 1) as [|Hn]; [done|]. cbn [negb].
  destruct (normalizeDraftConfiguration _) as [c|] eqn:Hc; [|done].
  destruct (validateRevisionDefinition _ _ c) as [[]|] eqn:Hd; [|done].
  intros [= <-]. split; [|done]. unfold revision_Validate, revision_validateIdentity, validateConfiguration,
    validateTimestamps, validatePublication. go_unfold. cbn [rv_TenantID rv_AppID rv_Revision DraftVersion
    Configuration Kind SchemaVersion rv_CreatedAt rv_UpdatedAt State ContentDigest PublishedAt].
  rewrite Ht, Ha, (proj2 (Z.ltb_ge _ 1)) by done. cbn [orb negb Z.ltb Z.compare].
  rewrite (normalizeDraft_idem _ _ Hc), (sameDraft_refl _ _ _ Hd), Hd, Hz. unfold before.
  by rewrite !Z.ltb_irrefl.
Qed.

(** The content digest of a valid revision exists and depends on its kind, its schema and
    its configuration only. *)
Lemma valid_digest r :
  revision_Validate r = Ok () →
  ∃ digest, ∀ r', Kind r' = Kind r → SchemaVersion r' = SchemaVersion r →
    Configuration r' = Configuration r → ComputeContentDigest r' = Ok digest.
Proof.
  unfold revision_Validate, validateConfiguration. go_unfold.
  destruct (revision_validateIdentity r) as [[]|]; [|done].
  destruct (normalizeDraftConfiguration (Configuration r)) as [d|] eqn:Hc; [|done].
  destruct (sameDraftConfiguration _ d) eqn:Hs; [|done].
  destruct (validateRevisionDefinition _ _ (Configuration r)) as [[]|] eqn:Hd; [|done]. intros _.
  rewrite <- (validateDefinition_normal _ _ _ _ Hc Hs) in Hd.
  destruct (digest_payload_ok _ _ _ Hd) as [s Hs']. exists (sha256_hex s).
  intros r' Hk Hv Hcfg. unfold ComputeContentDigest. rewrite Hk, Hv, Hcfg, Hc. go_unfold. by rewrite Hd, Hs'.
Qed.

(** Publishing a valid draft at or after its last update succeeds. *)
Lemma Publish_ok at_ r :
  revision_Validate r = Ok () → State r = RevisionStateDraft →
  is_zero at_ = false → rv_UpdatedAt r ≤ at_ → ∃ p, Publish at_ r = Ok p.
Proof.
  intros Hv Hst Hz Hle. destruct (valid_digest r Hv) as [digest Hdig].
  unfold Publish. rewrite Hst. cbn [negb]. rewrite String.eqb_refl. cbn [negb]. go_unfold.
  rewrite Hv, Hz. unfold before at 1. rewrite (proj2 (Z.ltb_ge _ _)) by done. cbn [orb negb].
  rewrite (Hdig r) by done. set (p := mkRevision _ _ _ _ _ _ _ _ _ _ _ _).
  assert (revision_Validate p = Ok ()) as ->; [|eauto].
  apply revision_Validate_Ok in Hv as (Hi & Hc & Ht & _). apply validateTimestamps_Ok in Ht as (Hc0 & Hu0 & Hcu).
  unfold is_zero in Hz. apply Z.eqb_neq in Hz.
  apply revision_Validate_Ok. split_and!; [done|done|apply validateTimestamps_Ok; cbn; lia|].
  unfold validatePublication. cbn [p State PublishedAt rv_CreatedAt rv_UpdatedAt ContentDigest String.eqb
    RevisionStatePublished RevisionStateDraft]. unfold is_zero, before. go_unfold.
  rewrite (proj2 (Z.eqb_neq _ _)), (proj2 (Z.ltb_ge _ _)), Z.eqb_refl by lia. cbn [orb negb].
  rewrite (Hdig p) by done. by rewrite String.eqb_refl.
Qed.

(** What publication changes: the state, the digest and the times. *)
Lemma Publish_spec at_ r p :
  Publish at_ r = Ok p →
  State r = RevisionStateDraft ∧ revision_Validate p = Ok () ∧ State p = RevisionStatePublished
  ∧ rv_TenantID p = rv_TenantID r ∧ rv_AppID p = rv_AppID r ∧ rv_Revision p = rv_Revision r
  ∧ DraftVersion p = DraftVersion r ∧ Configuration p = Configuration r
  ∧ ComputeContentDigest r = Ok (ContentDigest p).
Proof.
  unfold Publish. destruct (String.eqb_spec (State r) RevisionStateDraft) as [Hs|]; [|done]. cbn [negb]. go_unfold.
  destruct (revision_Validate r) as [[]|]; [|done]. destruct (negb _); [|done].
  destruct (ComputeContentDigest r) as [digest|] eqn:Hd; [|done].
  destruct (revision_Validate (mkRevision _ _ _ _ _ _ _ _ _ _ _ _)) as [[]|] eqn:Hv; [|done].
  by intros [= <-].
Qed.

Lemma published_digest r :
  revision_Validate r = Ok () → State r = RevisionStatePublished →
  ComputeContentDigest r = Ok (ContentDigest r).
Proof.
  intros (_ & _ & _ & Hp)%revision_Validate_Ok Hs. revert Hp. unfold validatePublication. rewrite Hs.
  cbn [String.eqb RevisionStatePublished RevisionStateDraft]. go_unfold.
  destruct (PublishedAt r); [|done]. simpl. destruct (negb _); [|done].
  destruct (ComputeContentDigest r) as [digest|]; [|done].
  by destruct (String.eqb_spec (ContentDigest r) digest) as [->|].
Qed.
