(* ===== verification/AgentRepository.v ===== *)
(** The in-memory repository of agent apps, [trpcservice/agent/inmemory/inmemory.go], with
    the inputs and change events of [trpcservice/agent/repository.go]: apps with their
    revisions, drafts under optimistic locks, publication, rollback, canaries and the
    lifecycle.

    A method takes the lock and is one atomic action ([RWMutex.v] models the lock); it
    reads the context before the lock, while acquiring it and after, and some methods once
    more before they write.  A nil context panics at the first read, before anything
    happens, so contexts are not nil here.  Cloning is the identity on values. *)
From Stdlib Require Import Ascii String.
From S2P Require Import Prelude GoStrings Tenant Agent AgentRevision.
Local Open Scope Z_scope.

(** * Data *)

Record UpdateMetadataInput := mkUpdateMetadata {
  um_TenantID : string; um_AppID : string; um_ExpectedVersion : Z; um_DisplayName : string;
  um_Description : string }.
Record CreateDraftInput := mkCreateDraft {
  cd_TenantID : string; cd_AppID : string; cd_ExpectedAppVersion : Z; cd_Kind : string;
  cd_SchemaVersion : Z; cd_Configuration : DraftConfiguration }.
Record UpdateDraftInput := mkUpdateDraft {
  ud_TenantID : string; ud_AppID : string; ud_Revision : Z; ud_ExpectedAppVersion : Z;
  ud_ExpectedDraftVersion : Z; ud_Configuration : DraftConfiguration }.
Record ChangeMetadata := mkChange {
  ActorType : string; ActorID : string; Reason : string; CorrelationID : string }.
Record PublishInput := mkPublish {
  pi_TenantID : string; pi_AppID : string; pi_Revision : Z; pi_ExpectedAppVersion : Z;
  pi_ExpectedDraftVersion : Z; pi_TenantActive : bool; pi_Metadata : ChangeMetadata }.
Record RollbackInput := mkRollback {
  ri_TenantID : string; ri_AppID : string; ri_TargetRevision : Z; ri_ExpectedAppVersion : Z;
  ri_Metadata : ChangeMetadata }.
Record SetCanaryInput := mkSetCanary {
  sc_TenantID : string; sc_AppID : string; sc_CandidateRevision : option Z;
  sc_ExpectedAppVersion : Z; sc_TenantActive : bool; sc_Metadata : ChangeMetadata }.
Record TransitionStatusInput := mkTransition {
  ts_TenantID : string; ts_AppID : string; ts_ExpectedVersion : Z; ts_NextStatus : string;
  ts_Metadata : ChangeMetadata }.

Definition ChangePublished : string := "published".
Definition ChangeRolledBack : string := "rolled_back".
Definition ChangeSuspended : string := "suspended".
Definition ChangeResumed : string := "resumed".
Definition ChangeDisabled : string := "disabled".
Definition ChangeCanaryStarted : string := "canary_started".
Definition ChangeCanaryStopped : string := "canary_stopped".

Record ChangeEvent := mkEvent {
  EventType : string; ev_TenantID : string; ev_AppID : string; PreviousRevision : option Z;
  ev_CurrentRevision : option Z; ev_ContentDigest : string; PreviousStatus : string;
  CurrentStatus : string; ev_Metadata : ChangeMetadata; PreviousVersion : Z; NextVersion : Z;
  OccurredAt : time }.

Notation scope := (string * string)%type (only parsing).

Record InMemoryRepository := mkRepository {
  apps : gmap scope App;
  byKey : gmap scope string;
  revisions : gmap scope (gmap Z Revision);
  next : gmap scope Z }.

Definition NewInMemoryRepository : InMemoryRepository := mkRepository ∅ ∅ ∅ ∅.

(** * Helpers *)

Definition checkContext (ctx : nat → option ctx_error) (i : nat) : result error unit :=
  match ctx i with Some e => Err (ErrContext e) | None => Ok () end.

(** The reads up to the point where the lock is held. *)
Definition locked {A} (ctx : nat → option ctx_error) (m : act InMemoryRepository error A)
    : act InMemoryRepository error A :=
  _ ← lift (checkContext ctx 1);
  _ ← lift (checkContext ctx 2);
  m.

Definition nextTime (now previous : time) : time := if before now previous then previous else now.
Definition maxTime (left right : time) : time := if after right left then right else left.

Definition getLocked (tenantID appID : string) (r : InMemoryRepository) : result error App :=
  match apps r !! (tenantID, appID) with Some a => Ok a | None => Err ErrNotFound end.

Definition mutableAppLocked (tenantID appID : string) (expected : Z) (r : InMemoryRepository)
    : result error App :=
  app ← getLocked tenantID appID r;
  if (Status app =? StatusDisabled)%string then Err ErrDisabled
  else if negb (expected =? Version app) then Err ErrConflict
  else Ok app.

Definition revision_at (r : InMemoryRepository) (sc : scope) (n : Z) : option Revision :=
  revisions r !! sc ≫= λ m, m !! n.

Definition revisionLocked (tenantID appID : string) (revision : Z) (r : InMemoryRepository)
    : result error Revision :=
  _ ← getLocked tenantID appID r;
  match revision_at r (tenantID, appID) revision with Some v => Ok v | None => Err ErrNotFound end.

Definition storeAppLocked (app : App) (r : InMemoryRepository) : InMemoryRepository :=
  mkRepository (<[(TenantID app, AppID app) := app]> (apps r)) (byKey r) (revisions r) (next r).

(** [r.revisions[scope][number] = &copy]; the inner map is there for every app. *)
Definition store_revision (sc : scope) (n : Z) (v : Revision) (r : InMemoryRepository) : InMemoryRepository :=
  mkRepository (apps r) (byKey r) (<[sc := <[n := v]> (default ∅ (revisions r !! sc))]> (revisions r)) (next r).

Definition set_next (sc : scope) (n : Z) (r : InMemoryRepository) : InMemoryRepository :=
  mkRepository (apps r) (byKey r) (revisions r) (<[sc := n]> (next r)).

Definition validateChange (m : ChangeMetadata) : result error unit :=
  let reason := trim_space (Reason m) in
  if (trim_space (ActorType m) =? "")%string || (trim_space (ActorID m) =? "")%string
     || (reason =? "")%string || (trim_space (CorrelationID m) =? "")%string then Err ErrInvalid
  else if 1000 <? rune_count reason then Err ErrInvalid
  else Ok ().

Definition newEvent (eventType : string) (app : App) (previousStatus : string)
    (previousRevision : option Z) (digest : string) (m : ChangeMetadata) (previousVersion : Z)
    (at_ : time) : ChangeEvent :=
  mkEvent eventType (TenantID app) (AppID app) previousRevision (CurrentRevision app) digest
    previousStatus (Status app)
    (mkChange (trim_space (ActorType m)) (trim_space (ActorID m)) (trim_space (Reason m))
       (trim_space (CorrelationID m)))
    previousVersion (Version app) at_.

Definition newCanaryEvent (eventType : string) (app : App) (previousRevision : option Z)
    (digest : string) (m : ChangeMetadata) (previousVersion : Z) (at_ : time) : ChangeEvent :=
  let e := newEvent eventType app (Status app) previousRevision digest m previousVersion at_ in
  mkEvent (EventType e) (ev_TenantID e) (ev_AppID e) (PreviousRevision e) (CanaryRevision app)
    (ev_ContentDigest e) (PreviousStatus e) (CurrentStatus e) (ev_Metadata e) (PreviousVersion e)
    (NextVersion e) (OccurredAt e).

Definition statusEventType (next : string) : string :=
  if (next =? StatusSuspended)%string then ChangeSuspended
  else if (next =? StatusActive)%string then ChangeResumed
  else ChangeDisabled.

(** The app root with a new state: the version goes up and the update time moves on. *)
Definition app_next (a : App) (name description status : string) (current canary : option Z)
    (at_ : time) : App :=
  mkApp (TenantID a) (AppID a) (AppKey a) name description status current canary
    (incr64 (Version a)) (CreatedAt a) at_.

(** * Operations *)

Definition Create (ctx : nat → option ctx_error) (ms : Z) (random : option (list Z)) (now : time)
    (input : CreateInput) : act InMemoryRepository error App :=
  _ ← lift (checkContext ctx 0);
  app ← lift (NewApp ms random now input);
  locked ctx (
    r ← get;
    let scope := (TenantID app, AppID app) in
    let key := (TenantID app, AppKey app) in
    _ ← ensure (opt_is_nil (apps r !! scope)) ErrDuplicateKey;
    _ ← ensure (opt_is_nil (byKey r !! key)) ErrDuplicateKey;
    _ ← put (mkRepository (<[scope := app]> (apps r)) (<[key := AppID app]> (byKey r))
               (<[scope := ∅]> (revisions r)) (next r));
    mret app).

Definition Get (ctx : nat → option ctx_error) (tenantID appID : string)
    : act InMemoryRepository error App :=
  _ ← lift (checkContext ctx 0);
  locked ctx (r ← get; lift (getLocked tenantID appID r)).

Definition UpdateMetadata (ctx : nat → option ctx_error) (now : time) (input : UpdateMetadataInput)
    : act InMemoryRepository error App :=
  _ ← lift (checkContext ctx 0);
  locked ctx (
    r ← get;
    app ← lift (mutableAppLocked (um_TenantID input) (um_AppID input) (um_ExpectedVersion input) r);
    let updated := app_next app (trim_space (um_DisplayName input)) (trim_space (um_Description input))
      (Status app) (CurrentRevision app) (CanaryRevision app) (nextTime now (UpdatedAt app)) in
    _ ← lift (Agent.Validate updated);
    _ ← put (storeAppLocked updated r);
    mret updated).

Definition CreateDraft (ctx : nat → option ctx_error) (now : time) (input : CreateDraftInput)
    : act InMemoryRepository error Revision :=
  _ ← lift (checkContext ctx 0);
  locked ctx (
    r ← get;
    _ ← lift (mutableAppLocked (cd_TenantID input) (cd_AppID input) (cd_ExpectedAppVersion input) r);
    let scope := (cd_TenantID input, cd_AppID input) in
    let number := incr64 (default 0 (next r !! scope)) in
    draft ← lift (NewRevision now (mkCreateRevision (cd_TenantID input) (cd_AppID input) number
               (cd_Kind input) (cd_SchemaVersion input) (cd_Configuration input)));
    _ ← lift (checkContext ctx 3);
    _ ← put (set_next scope number (store_revision scope number draft r));
    mret draft).

Definition UpdateDraft (ctx : nat → option ctx_error) (now : time) (input : UpdateDraftInput)
    : act InMemoryRepository error Revision :=
  _ ← lift (checkContext ctx 0);
  locked ctx (
    r ← get;
    _ ← lift (mutableAppLocked (ud_TenantID input) (ud_AppID input) (ud_ExpectedAppVersion input) r);
    existing ← lift (revisionLocked (ud_TenantID input) (ud_AppID input) (ud_Revision input) r);
    _ ← ensure (State existing =? RevisionStateDraft)%string ErrImmutableRevision;
    _ ← ensure (ud_ExpectedDraftVersion input =? DraftVersion existing) ErrConflict;
    c ← lift (NewRevision now (mkCreateRevision (ud_TenantID input) (ud_AppID input) (ud_Revision input)
           (Kind existing) (SchemaVersion existing) (ud_Configuration input)));
    let candidate := mkRevision (rv_TenantID c) (rv_AppID c) (rv_Revision c) (State c)
      (incr64 (DraftVersion existing)) (Kind c) (SchemaVersion c) (Configuration c)
      (ContentDigest c) (PublishedAt c) (rv_CreatedAt existing) (nextTime now (rv_UpdatedAt existing)) in
    _ ← lift (revision_Validate candidate);
    _ ← lift (checkContext ctx 3);
    _ ← put (store_revision (ud_TenantID input, ud_AppID input) (ud_Revision input) candidate r);
    mret candidate).

Definition GetRevision (ctx : nat → option ctx_error) (tenantID appID : string) (revision : Z)
    : act InMemoryRepository error Revision :=
  _ ← lift (checkContext ctx 0);
  locked ctx (r ← get; lift (revisionLocked tenantID appID revision r)).

Definition repository_Publish (ctx : nat → option ctx_error) (now : time) (input : PublishInput)
    : act InMemoryRepository error (App * Revision * ChangeEvent) :=
  _ ← lift (checkContext ctx 0);
  _ ← lift (validateChange (pi_Metadata input));
  _ ← ensure (pi_TenantActive input) ErrInvalid;
  locked ctx (
    r ← get;
    app ← lift (mutableAppLocked (pi_TenantID input) (pi_AppID input) (pi_ExpectedAppVersion input) r);
    draft ← lift (revisionLocked (pi_TenantID input) (pi_AppID input) (pi_Revision input) r);
    _ ← ensure (State draft =? RevisionStateDraft)%string ErrImmutableRevision;
    _ ← ensure (pi_ExpectedDraftVersion input =? DraftVersion draft) ErrConflict;
    let now := nextTime now (maxTime (UpdatedAt app) (rv_UpdatedAt draft)) in
    published ← lift (Publish now draft);
    let updated := app_next app (DisplayName app) (Description app)
      (if (Status app =? StatusDraft)%string then StatusActive else Status app)
      (Some (pi_Revision input)) None now in
    _ ← lift (Agent.Validate updated);
    let event := newEvent ChangePublished updated (Status app) (CurrentRevision app)
      (ContentDigest published) (pi_Metadata input) (Version app) now in
    _ ← lift (checkContext ctx 3);
    _ ← put (store_revision (pi_TenantID input, pi_AppID input) (pi_Revision input) published
               (storeAppLocked updated r));
    mret (updated, published, event)).

Definition Rollback (ctx : nat → option ctx_error) (now : time) (input : RollbackInput)
    : act InMemoryRepository error (App * ChangeEvent) :=
  _ ← lift (checkContext ctx 0);
  _ ← lift (validateChange (ri_Metadata input));
  locked ctx (
    r ← get;
    app ← lift (mutableAppLocked (ri_TenantID input) (ri_AppID input) (ri_ExpectedAppVersion input) r);
    target ← lift (revisionLocked (ri_TenantID input) (ri_AppID input) (ri_TargetRevision input) r);
    _ ← ensure (State target =? RevisionStatePublished)%string ErrInvalid;
    _ ← ensure match CurrentRevision app with
               | None => false
               | Some n => negb (n =? ri_TargetRevision input)
               end ErrInvalid;
    let now := nextTime now (UpdatedAt app) in
    let updated := app_next app (DisplayName app) (Description app) (Status app)
      (Some (ri_TargetRevision input)) None now in
    _ ← lift (Agent.Validate updated);
    let event := newEvent ChangeRolledBack updated (Status app) (CurrentRevision app)
      (ContentDigest target) (ri_Metadata input) (Version app) now in
    _ ← lift (checkContext ctx 3);
    _ ← put (storeAppLocked updated r);
    mret (updated, event)).

Definition sameRevision (left right : option Z) : bool :=
  match left, right with
  | Some x, Some y => x =? y
  | None, None => true
  | _, _ => false
  end.

(** The candidate that [SetCanary] selects. *)
Definition canary_candidate (input : SetCanaryInput) (app : App) (r : InMemoryRepository)
    : result error (option Revision) :=
  match sc_CandidateRevision input with
  | None => Ok None
  | Some n =>
      _ ← guard_ok (negb (n <? 1)) ErrInvalid;
      candidate ← revisionLocked (sc_TenantID input) (sc_AppID input) n r;
      _ ← guard_ok (State candidate =? RevisionStatePublished)%string ErrInvalid;
      _ ← guard_ok match CurrentRevision app with
                   | None => false
                   | Some current => negb (current =? n)
                   end ErrInvalid;
      Ok (Some candidate)
  end.

Definition SetCanary (ctx : nat → option ctx_error) (now : time) (input : SetCanaryInput)
    : act InMemoryRepository error (App * ChangeEvent) :=
  _ ← lift (checkContext ctx 0);
  _ ← lift (validateChange (sc_Metadata input));
  _ ← ensure (sc_TenantActive input) ErrInvalid;
  locked ctx (
    r ← get;
    app ← lift (mutableAppLocked (sc_TenantID input) (sc_AppID input) (sc_ExpectedAppVersion input) r);
    _ ← ensure (Status app =? StatusActive)%string ErrInvalid;
    candidate ← lift (canary_candidate input app r);
    _ ← ensure (negb (sameRevision (CanaryRevision app) (sc_CandidateRevision input))) ErrInvalid;
    let now := nextTime now (UpdatedAt app) in
    let updated := app_next app (DisplayName app) (Description app) (Status app)
      (CurrentRevision app) (sc_CandidateRevision input) now in
    _ ← lift (Agent.Validate updated);
    let digest := match candidate with Some c => ContentDigest c | None => ""%string end in
    let eventType := match CanaryRevision updated with
                     | Some _ => ChangeCanaryStarted
                     | None => ChangeCanaryStopped
                     end in
    let event := newCanaryEvent eventType updated (CanaryRevision app) digest (sc_Metadata input)
      (Version app) now in
    _ ← put (storeAppLocked updated r);
    mret (updated, event)).

Definition TransitionStatus (ctx : nat → option ctx_error) (now : time) (input : TransitionStatusInput)
    : act InMemoryRepository error (App * ChangeEvent) :=
  _ ← lift (checkContext ctx 0);
  _ ← lift (validateChange (ts_Metadata input));
  locked ctx (
    r ← get;
    app ← lift (mutableAppLocked (ts_TenantID input) (ts_AppID input) (ts_ExpectedVersion input) r);
    _ ← ensure (CanTransitionTo app (ts_NextStatus input)) ErrInvalidTransition;
    let now := nextTime now (UpdatedAt app) in
    let updated := app_next app (DisplayName app) (Description app) (ts_NextStatus input)
      (CurrentRevision app) (CanaryRevision app) now in
    _ ← lift (Agent.Validate updated);
    digest ← lift match CurrentRevision updated with
                  | None => Ok ""%string
                  | Some n => current ← revisionLocked (ts_TenantID input) (ts_AppID input) n r;
                              Ok (ContentDigest current)
                  end;
    let event := newEvent (statusEventType (ts_NextStatus input)) updated (Status app)
      (CurrentRevision app) digest (ts_Metadata input) (Version app) now in
    _ ← lift (checkContext ctx 3);
    _ ← put (storeAppLocked updated r);
    mret (updated, event)).

#[global] Arguments Agent.Validate : simpl never.
#[global] Arguments NewApp : simpl never.
#[global] Arguments NewRevision : simpl never.
#[global] Arguments Publish : simpl never.
#[global] Arguments validateChange : simpl never.

(** * The invariant *)

Definition published (r : InMemoryRepository) (sc : scope) (n : Z) : Prop :=
  ∃ v, revision_at r sc n = Some v ∧ State v = RevisionStatePublished.

(** The revisions that an app points to are published. *)
Definition points_to_published (r : InMemoryRepository) (a : App) : Prop :=
  ∀ n, CurrentRevision a = Some n ∨ CanaryRevision a = Some n → published r (TenantID a, AppID a) n.

Definition app_scope (a : App) : scope := (TenantID a, AppID a).

Record wf (r : InMemoryRepository) : Prop := {
  wf_app sc a : apps r !! sc = Some a →
    sc = app_scope a ∧ Agent.Validate a = Ok () ∧ byKey r !! (TenantID a, AppKey a) = Some (AppID a)
    ∧ is_Some (revisions r !! sc) ∧ points_to_published r a;
  wf_key k id : byKey r !! k = Some id → ∃ a, apps r !! (k.1, id) = Some a ∧ AppKey a = k.2;
  wf_revision sc n v : revision_at r sc n = Some v →
    sc = (rv_TenantID v, rv_AppID v) ∧ rv_Revision v = n ∧ revision_Validate v = Ok ()
    ∧ n ≤ default 0 (next r !! sc) ∧ is_Some (apps r !! sc);
  wf_next sc : 0 ≤ default 0 (next r !! sc) ≤ int64_max }.

(** Published revisions stay as they are. *)
Definition keeps_published (r r' : InMemoryRepository) : Prop :=
  ∀ sc n v, revision_at r sc n = Some v → State v = RevisionStatePublished → revision_at r' sc n = Some v.

(** What an operation does to the repository. *)
Inductive effect (r : InMemoryRepository) : InMemoryRepository → Prop :=
| effect_none : effect r r
| effect_create a :
    Agent.Validate a = Ok () → CurrentRevision a = None → CanaryRevision a = None →
    apps r !! app_scope a = None → byKey r !! (TenantID a, AppKey a) = None →
    effect r (mkRepository (<[app_scope a := a]> (apps r)) (<[(TenantID a, AppKey a) := AppID a]> (byKey r))
      (<[app_scope a := ∅]> (revisions r)) (next r))
| effect_app a a' :
    apps r !! app_scope a = Some a → app_scope a' = app_scope a → AppKey a' = AppKey a →
    Agent.Validate a' = Ok () → points_to_published r a' → effect r (storeAppLocked a' r)
| effect_draft sc v :
    is_Some (apps r !! sc) → sc = (rv_TenantID v, rv_AppID v) → revision_Validate v = Ok () →
    rv_Revision v = incr64 (default 0 (next r !! sc)) →
    effect r (set_next sc (rv_Revision v) (store_revision sc (rv_Revision v) v r))
| effect_update sc old v :
    is_Some (apps r !! sc) → sc = (rv_TenantID v, rv_AppID v) → revision_Validate v = Ok () →
    revision_at r sc (rv_Revision v) = Some old → State old = RevisionStateDraft →
    effect r (store_revision sc (rv_Revision v) v r)
| effect_publish a a' old v :
    apps r !! app_scope a = Some a → app_scope a' = app_scope a → AppKey a' = AppKey a →
    Agent.Validate a' = Ok () → CurrentRevision a' = Some (rv_Revision v) → CanaryRevision a' = None →
    app_scope a = (rv_TenantID v, rv_AppID v) → revision_Validate v = Ok () →
    State v = RevisionStatePublished → revision_at r (app_scope a) (rv_Revision v) = Some old →
    State old = RevisionStateDraft →
    effect r (store_revision (app_scope a) (rv_Revision v) v (storeAppLocked a' r)).

Lemma revision_at_store r sc n v sc' n' :
  revision_at (store_revision sc n v r) sc' n'
  = if decide (sc' = sc ∧ n' = n) then Some v else revision_at r sc' n'.
Proof.
  unfold revision_at, store_revision. cbn [revisions]. destruct (decide (sc' = sc)) as [->|Hne].
  - rewrite lookup_insert_eq. cbn. destruct (decide (n' = n)) as [->|Hn].
    + rewrite lookup_insert_eq. by rewrite decide_True.
    + rewrite lookup_insert_ne by done. rewrite decide_False by tauto.
      destruct (revisions r !! sc); cbn; [done|]. apply lookup_empty.
  - rewrite lookup_insert_ne by done. by rewrite decide_False by tauto.
Qed.

(** A number that the wrap-around did not make negative is the successor. *)
Lemma incr64_positive z : 0 ≤ z ≤ int64_max → 1 ≤ incr64 z → incr64 z = z + 1.
Proof.
  intros Hz Hpos. unfold incr64 in *. destruct (decide (z = int64_max)) as [->|].
  - change (wrap64 (int64_max + 1)) with int64_min in Hpos. unfold int64_min in Hpos. lia.
  - apply wrap64_id. unfold int64_min, int64_max in *. lia.
Qed.

Lemma valid_number v : revision_Validate v = Ok () → 1 ≤ rv_Revision v.
Proof.
  intros (Hi & _)%revision_Validate_Ok. revert Hi. unfold revision_validateIdentity. go_unfold.
  repeat (case_match; try done). intros _. bool_prop. lia.
Qed.

Lemma effect_keeps r r' : wf r → effect r r' → keeps_published r r'.
Proof.
  intros Hwf Heff sc n v Hv Hp.
  assert (∀ sc' n' old, revision_at r sc' n' = Some old → State old = RevisionStateDraft →
    ¬ (sc = sc' ∧ n = n')) as Hother.
  { intros sc' n' old Hold Hd [-> ->]. rewrite Hv in Hold. injection Hold as ->. rewrite Hp in Hd. done. }
  destruct Heff as [|a Hva Hc Hca Ha Hk|a a' Ha Hs Hkey Hva Hpt|sc' v' Ha Hsc Hvv Hn|sc' old v' Ha Hsc Hvv Ho Hd
    |a a' old v' Ha Hs Hkey Hva Hcur Hcan Hsc Hvv Hpv Ho Hd]; try done.
  - revert Hv. unfold revision_at. cbn. intros Hv. rewrite lookup_insert_ne; [done|]. intros <-.
    destruct (wf_revision _ Hwf (app_scope a) n v Hv) as (_ & _ & _ & _ & Hsome). rewrite Ha in Hsome. by destruct Hsome.
  - change (revision_at (store_revision sc' (rv_Revision v') v' r) sc n = Some v).
    rewrite revision_at_store, decide_False; [done|]. intros [-> ->].
    destruct (wf_revision _ Hwf _ _ _ Hv) as (_ & Hnum & Hval & Hle & _). pose proof (wf_next _ Hwf sc') as Hnx.
    apply valid_number in Hvv. rewrite Hn in *. rewrite incr64_positive in Hle by done. lia.
  - rewrite revision_at_store, decide_False; [done|]. by eapply Hother.
  - rewrite revision_at_store, decide_False; [done|]. by eapply Hother.
Qed.

Lemma wf_store_app r a a' :
  wf r → apps r !! app_scope a = Some a → app_scope a' = app_scope a → AppKey a' = AppKey a →
  Agent.Validate a' = Ok () → points_to_published r a' → wf (storeAppLocked a' r).
Proof.
  intros [Hwa Hwk Hwr Hwn] Ha Hs Hkey Hva Hpt.
  assert (TenantID a' = TenantID a ∧ AppID a' = AppID a) as [Ht Hi] by (unfold app_scope in Hs; by simplify_eq).
  destruct (Hwa _ _ Ha) as (_ & _ & Hbk & Hre & _).
  assert (∀ sc, is_Some (apps r !! sc) → is_Some (<[app_scope a' := a']> (apps r) !! sc)) as Hsome.
  { intros sc Hsc. destruct (decide (sc = app_scope a')) as [->|]; [by rewrite lookup_insert_eq|].
    by rewrite lookup_insert_ne. }
  split; cbn [storeAppLocked apps byKey revisions next].
  - intros sc b [[<- <-]|[_ Hb]]%lookup_insert_Some; [|by apply Hwa].
    split_and!; try done; fold (app_scope a'); [congruence|by rewrite Hs].
  - intros k id Hk. destruct (Hwk _ _ Hk) as (b & Hb & Hbk').
    destruct (decide ((k.1, id) = app_scope a')) as [Heq|Hne].
    + exists a'. fold (app_scope a'). rewrite Heq, lookup_insert_eq. split; [done|].
      rewrite Heq, Hs, Ha in Hb. congruence.
    + exists b. by rewrite lookup_insert_ne by done.
  - intros sc n v Hv. destruct (Hwr _ _ _ Hv) as (? & ? & ? & ? & ?). split_and!; try done. by apply Hsome.
  - done.
Qed.

Lemma wf_store_revision r sc v n :
  wf r → is_Some (apps r !! sc) → sc = (rv_TenantID v, rv_AppID v) → revision_Validate v = Ok () →
  default 0 (next r !! sc) ≤ n ≤ int64_max → rv_Revision v ≤ n →
  (∀ old, revision_at r sc (rv_Revision v) = Some old →
     State old = RevisionStatePublished → State v = RevisionStatePublished) →
  wf (set_next sc n (store_revision sc (rv_Revision v) v r)).
Proof.
  intros [Hwa Hwk Hwr Hwn] Ha Hsc Hvv Hn Hle Hold.
  assert (∀ sc' n', revision_at (set_next sc n (store_revision sc (rv_Revision v) v r)) sc' n'
    = if decide (sc' = sc ∧ n' = rv_Revision v) then Some v else revision_at r sc' n') as Hat
    by (intros; apply (revision_at_store r)).
  assert (∀ sc', default 0 (<[sc := n]> (next r) !! sc') = if decide (sc' = sc) then n else default 0 (next r !! sc')) as Hnext.
  { intros sc'. destruct (decide (sc' = sc)) as [->|]; [by rewrite lookup_insert_eq|by rewrite lookup_insert_ne]. }
  split; cbn [set_next store_revision apps byKey next].
  - intros sc' a Hsa. destruct (Hwa _ _ Hsa) as (? & ? & ? & Hre & Hpt). split_and!; try done.
    + cbn. destruct (decide (sc' = sc)) as [->|]; [by rewrite lookup_insert_eq|by rewrite lookup_insert_ne].
    + intros m Hm. destruct (Hpt m Hm) as (u & Hu & Hpu). unfold published. rewrite Hat.
      case_decide as Hd; [|by exists u]. exists v. split; [done|]. destruct Hd as [Hd1 Hd2].
      apply (Hold u); [|done]. by rewrite <- Hd1, <- Hd2.
  - done.
  - intros sc' m u. rewrite Hat, Hnext. case_decide as Hd.
    + destruct Hd as [-> ->]. intros [= <-]. by rewrite decide_True.
    + intros Hu. destruct (Hwr _ _ _ Hu) as (? & ? & ? & ? & ?). split_and!; try done.
      case_decide as Heq; [|done]. rewrite Heq in *. lia.
  - intros sc'. rewrite Hnext. case_decide; [|by apply Hwn]. specialize (Hwn sc). lia.
Qed.

Lemma set_next_same r sc sc' n v :
  next r !! sc = Some n → set_next sc n (store_revision sc' (rv_Revision v) v r)
  = store_revision sc' (rv_Revision v) v r.
Proof. intros Hn. unfold set_next, store_revision. cbn. f_equal. by apply insert_id. Qed.

Lemma next_defined r sc n v :
  wf r → revision_at r sc n = Some v → ∃ k, next r !! sc = Some k ∧ n ≤ k ≤ int64_max.
Proof.
  intros Hwf Hv. destruct (wf_revision _ Hwf _ _ _ Hv) as (_ & Hn & Hvv & Hle & _).
  pose proof (wf_next _ Hwf sc). apply valid_number in Hvv.
  destruct (next r !! sc) as [k|]; cbn in *; [|lia]. exists k. split; [done|lia].
Qed.

Lemma agent_effect_wf r r' : wf r → effect r r' → wf r'.
Proof.
  intros Hwf [|a Hva Hc Hca Ha Hk|a a' Ha Hs Hkey Hva Hpt|sc v Ha Hsc Hvv Hn|sc old v Ha Hsc Hvv Ho Hd
    |a a' old v Ha Hs Hkey Hva Hcur Hcan Hsc Hvv Hpv Ho Hd]; [done| |by eapply wf_store_app| | |].
  - assert (∀ n, revision_at r (app_scope a) n = None) as Hnone.
    { intros n. destruct (revision_at r (app_scope a) n) eqn:Hv; [|done].
      destruct (wf_revision _ Hwf _ _ _ Hv) as (_ & _ & _ & _ & [b Hb]). congruence. }
    destruct Hwf as [Hwa Hwk Hwr Hwn].
    set (r1 := mkRepository _ _ _ _).
    assert (∀ sc n, revision_at r1 sc n = revision_at r sc n) as Hat.
    { intros sc n. unfold revision_at at 1. cbn. destruct (decide (sc = app_scope a)) as [->|].
      - rewrite lookup_insert_eq, Hnone. cbn. apply lookup_empty.
      - by rewrite lookup_insert_ne. }
    assert (∀ sc, is_Some (apps r !! sc) → sc ≠ app_scope a) as Hne by (intros sc [b Hb] ->; congruence).
    split.
    + cbn [r1 apps]. intros sc b [[<- <-]|[Hsc Hb]]%lookup_insert_Some.
      * split_and!; try done; cbn; [by rewrite lookup_insert_eq..|]. intros n. rewrite Hc, Hca. by intros [?|?].
      * destruct (Hwa _ _ Hb) as (Hsc' & ? & Hbk & ? & Hpt). split_and!; try done; cbn.
        -- rewrite lookup_insert_ne; [done|]. intros [= Ht Hk']. rewrite Ht, Hk' in Hk. congruence.
        -- by rewrite lookup_insert_ne.
        -- intros n Hn. unfold published. rewrite Hat. by apply Hpt.
    + cbn [r1 byKey]. intros k id [[<- <-]|[_ Hkk]]%lookup_insert_Some.
      * exists a. split; [|done]. cbn. fold (app_scope a). apply lookup_insert_eq.
      * destruct (Hwk _ _ Hkk) as (b & Hb & ?). exists b. split; [|done]. cbn. rewrite lookup_insert_ne; [done|].
        intros Heq. apply (Hne (k.1, id)); [by rewrite Hb|done].
    + intros sc n v. rewrite Hat. intros Hv. destruct (Hwr _ _ _ Hv) as (? & ? & ? & ? & Hsome).
      split_and!; try done. cbn. rewrite lookup_insert_ne; [done|]. intros <-. by eapply Hne.
    + done.
  - pose proof (wf_next _ Hwf sc) as Hnx. pose proof (valid_number _ Hvv) as Hpos. rewrite Hn in Hpos.
    pose proof (incr64_positive _ Hnx Hpos) as Heq. rewrite Heq in Hn.
    assert (rv_Revision v ≤ int64_max) as Hmax.
    { rewrite Hn, <- Heq. apply wrap64_range. }
    apply wf_store_revision; try done; [lia|]. intros old Ho Hp.
    destruct (wf_revision _ Hwf _ _ _ Ho) as (_ & _ & _ & Hle & _). lia.
  - destruct (next_defined _ _ _ _ Hwf Ho) as (k & Hk & Hle). rewrite <- (set_next_same r sc sc k v Hk).
    apply wf_store_revision; try done; [rewrite Hk; cbn; lia|lia|]. intros o Ho' Hp.
    rewrite Ho in Ho'. injection Ho' as ->. rewrite Hd in Hp. done.
  - (* the pointer moves to the revision that is published with it *)
    destruct (next_defined _ _ _ _ Hwf Ho) as (k & Hk & Hle).
    assert (wf (store_revision (app_scope a) (rv_Revision v) v r)) as Hwf1.
    { rewrite <- (set_next_same r _ _ k v Hk). apply wf_store_revision; try done; [rewrite Hk; cbn; lia|lia]. }
    change (wf (storeAppLocked a' (store_revision (app_scope a) (rv_Revision v) v r))).
    eapply wf_store_app; [done|exact Ha|done..|]. intros n. rewrite Hcur, Hcan. intros [[= <-]|?]; [|done].
    exists v. fold (app_scope a'). rewrite Hs, revision_at_store. by rewrite decide_True.
Qed.

(** * Every operation has one of the effects *)

Inductive op :=
| OpCreate (ctx : nat → option ctx_error) (ms : Z) (random : option (list Z)) (now : time) (input : CreateInput)
| OpUpdateMetadata (ctx : nat → option ctx_error) (now : time) (input : UpdateMetadataInput)
| OpCreateDraft (ctx : nat → option ctx_error) (now : time) (input : CreateDraftInput)
| OpUpdateDraft (ctx : nat → option ctx_error) (now : time) (input : UpdateDraftInput)
| OpPublish (ctx : nat → option ctx_error) (now : time) (input : PublishInput)
| OpRollback (ctx : nat → option ctx_error) (now : time) (input : RollbackInput)
| OpSetCanary (ctx : nat → option ctx_error) (now : time) (input : SetCanaryInput)
| OpTransitionStatus (ctx : nat → option ctx_error) (now : time) (input : TransitionStatusInput).

Definition exec (o : op) (r : InMemoryRepository) : InMemoryRepository :=
  match o with
  | OpCreate ctx ms random now input => (Create ctx ms random now input r).1
  | OpUpdateMetadata ctx now input => (UpdateMetadata ctx now input r).1
  | OpCreateDraft ctx now input => (CreateDraft ctx now input r).1
  | OpUpdateDraft ctx now input => (UpdateDraft ctx now input r).1
  | OpPublish ctx now input => (repository_Publish ctx now input r).1
  | OpRollback ctx now input => (Rollback ctx now input r).1
  | OpSetCanary ctx now input => (SetCanary ctx now input r).1
  | OpTransitionStatus ctx now input => (TransitionStatus ctx now input r).1
  end.
Definition run (os : list op) (r : InMemoryRepository) : InMemoryRepository := foldl (λ r o, exec o r) r os.

(** The clock does not return Go's zero time and the random source returns bytes. *)
Definition op_ok (o : op) : Prop :=
  match o with
  | OpCreate _ _ random now _ => is_zero now = false
      ∧ ∀ bs, random = Some bs → length bs = 10%nat ∧ Forall (λ b, 0 ≤ b < 256) bs
  | OpCreateDraft _ now _ => is_zero now = false
  | _ => True
  end.

Lemma mutableApp_Ok t i v r a :
  mutableAppLocked t i v r = Ok a → apps r !! (t, i) = Some a ∧ Version a = v.
Proof.
  unfold mutableAppLocked, getLocked. go_unfold. destruct (apps r !! (t, i)); [|done].
  destruct (_ =? _)%string; [done|]. destruct (Z.eqb_spec v (Version a0)); [|done]. simpl. by intros [= ->].
Qed.

Lemma revisionLocked_Ok t i n r v : revisionLocked t i n r = Ok v → revision_at r (t, i) n = Some v.
Proof.
  unfold revisionLocked, getLocked. go_unfold. destruct (apps r !! (t, i)); [|done].
  destruct (revision_at r (t, i) n); [|done]. by intros [= ->].
Qed.

Lemma NewApp_scope ms random now input a :
  NewApp ms random now input = Ok a → CurrentRevision a = None ∧ CanaryRevision a = None ∧ random ≠ None.
Proof.
  unfold NewApp, newAppID. go_unfold. repeat (case_match; try done). by intros [= <-].
Qed.

Lemma NewRevision_fields now input r :
  NewRevision now input = Ok r → rv_TenantID r = cr_TenantID input ∧ rv_AppID r = cr_AppID input
    ∧ rv_Revision r = cr_Revision input.
Proof. unfold NewRevision. go_unfold. repeat (case_match; try done). all: by intros [= <-]. Qed.

(** The next test of a body; where it fails the repository stays as it was. *)
Ltac agent_ctx :=
  go_unfold;
  match goal with
  | |- context [checkContext ?c ?i] => destruct (checkContext c i) as [[]|]; cbv iota beta; [|apply effect_none]
  end.
Lemma agent_Create_effect ctx ms random now input r :
  op_ok (OpCreate ctx ms random now input) → effect r (Create ctx ms random now input r).1.
Proof.
  intros [Hz Hr]. unfold Create, locked. agent_ctx.
  destruct (NewApp ms random now input) as [a|] eqn:Ha; [|apply effect_none].
  do 2 agent_ctx. destruct (NewApp_scope _ _ _ _ _ Ha) as (Hc & Hca & Hrn). destruct random as [bs|]; [|done].
  destruct (Hr bs eq_refl) as [Hlen Hall]. destruct (NewApp_valid _ _ _ _ _ Hlen Hall Hz Ha) as [Hv _].
  destruct (apps r !! _) eqn:Happ; [apply effect_none|]. destruct (byKey r !! _) eqn:Hbk; [apply effect_none|].
  by apply effect_create.
Qed.

(** An app root that takes the place of another one of the repository. *)
Lemma app_next_effect r t i v a name description status current canary at_ :
  wf r → mutableAppLocked t i v r = Ok a →
  let a' := app_next a name description status current canary at_ in
  Agent.Validate a' = Ok () → points_to_published r a' → effect r (storeAppLocked a' r).
Proof.
  intros Hwf [Ha _]%mutableApp_Ok a' Hv Hp. destruct (wf_app _ Hwf _ _ Ha) as (Hs & _). rewrite Hs in Ha.
  by apply (effect_app _ a).
Qed.

Lemma UpdateMetadata_effect ctx now input r : wf r → effect r (UpdateMetadata ctx now input r).1.
Proof.
  intros Hwf. unfold UpdateMetadata, locked. do 3 agent_ctx.
  destruct (mutableAppLocked _ _ _ r) as [a|] eqn:Ha; [|apply effect_none].
  destruct (Agent.Validate _) as [[]|] eqn:Hv; [|apply effect_none].
  eapply app_next_effect; [done..|]. apply mutableApp_Ok in Ha as [Ha _]. by apply (wf_app _ Hwf _ _ Ha).
Qed.

Lemma CreateDraft_effect ctx now input r :
  op_ok (OpCreateDraft ctx now input) → effect r (CreateDraft ctx now input r).1.
Proof.
  intros Hz. unfold CreateDraft, locked. do 3 agent_ctx.
  destruct (mutableAppLocked _ _ _ r) as [a|] eqn:Ha; [|apply effect_none].
  destruct (NewRevision now _) as [v|] eqn:Hv; [|apply effect_none]. agent_ctx.
  apply mutableApp_Ok in Ha as [Ha _]. destruct (NewRevision_valid _ _ _ Hz Hv) as (Hval & _ & Ht & Hi & Hn).
  cbn in Ht, Hi, Hn. rewrite <- Hn. apply effect_draft; [by exists a|by rewrite Ht, Hi|done|done].
Qed.

Lemma UpdateDraft_effect ctx now input r : effect r (UpdateDraft ctx now input r).1.
Proof.
  unfold UpdateDraft, locked. do 3 agent_ctx.
  destruct (mutableAppLocked _ _ _ r) as [a|] eqn:Ha; [|apply effect_none].
  destruct (revisionLocked _ _ _ r) as [old|] eqn:Ho; [|apply effect_none].
  destruct (String.eqb_spec (State old) RevisionStateDraft) as [Hd|]; [|apply effect_none].
  destruct (_ =? DraftVersion old); [|apply effect_none].
  destruct (NewRevision now _) as [v|] eqn:Hv; [|apply effect_none].
  destruct (revision_Validate _) as [[]|] eqn:Hval; [|apply effect_none]. agent_ctx.
  apply mutableApp_Ok in Ha as [Ha _]. apply revisionLocked_Ok in Ho.
  destruct (NewRevision_fields _ _ _ Hv) as (Ht & Hi & Hn). cbn in Ht, Hi, Hn.
  match type of Hval with revision_Validate ?w = _ =>
    assert (rv_Revision w = ud_Revision input) as Heq by done; rewrite <- Heq in Ho |- * end.
  eapply effect_update; [by exists a|cbn; by rewrite Ht, Hi|done|exact Ho|done].
Qed.

Lemma Publish_effect ctx now input r : wf r → effect r (repository_Publish ctx now input r).1.
Proof.
  intros Hwf. unfold repository_Publish, locked. agent_ctx.
  destruct (validateChange _) as [[]|]; [|apply effect_none].
  destruct (pi_TenantActive input); [|apply effect_none]. do 2 agent_ctx.
  destruct (mutableAppLocked _ _ _ r) as [a|] eqn:Ha; [|apply effect_none].
  destruct (revisionLocked _ _ _ r) as [old|] eqn:Ho; [|apply effect_none].
  destruct (String.eqb_spec (State old) RevisionStateDraft) as [Hd|]; [|apply effect_none].
  destruct (_ =? DraftVersion old); [|apply effect_none].
  destruct (Publish _ old) as [p|] eqn:Hp; [|apply effect_none].
  destruct (Agent.Validate _) as [[]|] eqn:Hval; [|apply effect_none]. agent_ctx.
  apply mutableApp_Ok in Ha as [Ha _]. apply revisionLocked_Ok in Ho.
  destruct (wf_app _ Hwf _ _ Ha) as (Hs & _). destruct (wf_revision _ Hwf _ _ _ Ho) as (Hs' & Hn & _).
  destruct (Publish_spec _ _ _ Hp) as (_ & Hpv & Hst & Ht & Hi & Hpn & _).
  assert (rv_Revision p = pi_Revision input) as Heq by congruence.
  rewrite <- Heq in Ho, Hval |- *. rewrite Hs in Ha, Ho |- *.
  apply (effect_publish _ a _ old p); try done. rewrite <- Hs, Hs'. by rewrite Ht, Hi.
Qed.

Lemma Rollback_effect ctx now input r : wf r → effect r (Rollback ctx now input r).1.
Proof.
  intros Hwf. unfold Rollback, locked. agent_ctx.
  destruct (validateChange _) as [[]|]; [|apply effect_none]. do 2 agent_ctx.
  destruct (mutableAppLocked _ _ _ r) as [a|] eqn:Ha; [|apply effect_none].
  destruct (revisionLocked _ _ _ r) as [v|] eqn:Hv; [|apply effect_none].
  destruct (String.eqb_spec (State v) RevisionStatePublished) as [Hp|]; [|apply effect_none].
  destruct (match CurrentRevision a with Some _ => _ | None => _ end); [|apply effect_none].
  destruct (Agent.Validate _) as [[]|] eqn:Hval; [|apply effect_none]. agent_ctx.
  eapply app_next_effect; [done..|]. apply mutableApp_Ok in Ha as [Ha _]. apply revisionLocked_Ok in Hv.
  destruct (wf_app _ Hwf _ _ Ha) as (Hs & _). intros n [[= <-]|[=]]. exists v. cbn. fold (app_scope a). by rewrite <- Hs.
Qed.

Lemma canary_candidate_Ok input a r c n :
  canary_candidate input a r = Ok c → sc_CandidateRevision input = Some n →
  published r (sc_TenantID input, sc_AppID input) n.
Proof.
  unfold canary_candidate. intros Hc Hn. rewrite Hn in Hc. revert Hc. go_unfold. destruct (negb _); [|done].
  destruct (revisionLocked _ _ _ r) as [v|] eqn:Hv; [|done].
  destruct (String.eqb_spec (State v) RevisionStatePublished) as [Hp|]; [|done]. intros _.
  exists v. split; [by apply revisionLocked_Ok|done].
Qed.

Lemma SetCanary_effect ctx now input r : wf r → effect r (SetCanary ctx now input r).1.
Proof.
  intros Hwf. unfold SetCanary, locked. agent_ctx.
  destruct (validateChange _) as [[]|]; [|apply effect_none].
  destruct (sc_TenantActive input); [|apply effect_none]. do 2 agent_ctx.
  destruct (mutableAppLocked _ _ _ r) as [a|] eqn:Ha; [|apply effect_none].
  destruct (Status a =? StatusActive)%string; [|apply effect_none].
  destruct (canary_candidate _ _ r) as [c|] eqn:Hc; [|apply effect_none].
  destruct (negb (sameRevision _ _)); [|apply effect_none].
  destruct (Agent.Validate _) as [[]|] eqn:Hval; [|apply effect_none].
  eapply app_next_effect; [done..|]. apply mutableApp_Ok in Ha as [Ha _].
  destruct (wf_app _ Hwf _ _ Ha) as (Hs & _ & _ & _ & Hpt). intros n [Hcur|Hcan]; cbn in *.
  - apply Hpt. by left.
  - fold (app_scope a). rewrite <- Hs. by eapply canary_candidate_Ok.
Qed.

Lemma TransitionStatus_effect ctx now input r : wf r → effect r (TransitionStatus ctx now input r).1.
Proof.
  intros Hwf. unfold TransitionStatus, locked. agent_ctx.
  destruct (validateChange _) as [[]|]; [|apply effect_none]. do 2 agent_ctx.
  destruct (mutableAppLocked _ _ _ r) as [a|] eqn:Ha; [|apply effect_none].
  destruct (CanTransitionTo a _); [|apply effect_none].
  destruct (Agent.Validate _) as [[]|] eqn:Hval; [|apply effect_none].
  destruct (match CurrentRevision _ with Some _ => _ | None => _ end); [|apply effect_none]. agent_ctx.
  eapply app_next_effect; [done..|]. apply mutableApp_Ok in Ha as [Ha _]. by apply (wf_app _ Hwf _ _ Ha).
Qed.

Lemma agent_exec_effect o r : wf r → op_ok o → effect r (exec o r).
Proof.
  intros Hwf Hok. destruct o.
  - by apply agent_Create_effect.
  - by apply UpdateMetadata_effect.
  - by apply CreateDraft_effect.
  - apply UpdateDraft_effect.
  - by apply Publish_effect.
  - by apply Rollback_effect.
  - by apply SetCanary_effect.
  - by apply TransitionStatus_effect.
Qed.

Lemma wf_empty : wf NewInMemoryRepository.
Proof.
  split; unfold NewInMemoryRepository, revision_at; cbn.
  - intros sc a Ha. by rewrite lookup_empty in Ha.
  - intros k id Hk. by rewrite lookup_empty in Hk.
  - intros sc n v Hv. by rewrite lookup_empty in Hv.
  - intros sc. rewrite lookup_empty. cbn. unfold int64_max. lia.
Qed.

Lemma agent_run_ok os r : wf r → Forall op_ok os → wf (run os r) ∧ keeps_published r (run os r).
Proof.
  revert r. induction os as [|o os IH]; intros r Hwf Hok; [by split; [|intros sc n v]|]. inversion Hok; subst. cbn.
  assert (effect r (exec o r)) as Heff by (by apply agent_exec_effect).
  destruct (IH (exec o r)) as [Hwf' Hk]; [by eapply agent_effect_wf|done|]. split; [done|].
  intros sc n v Hv Hp. apply Hk; [|done]. by apply (effect_keeps _ _ Hwf Heff).
Qed.

(** * Properties *)

(** C18: Whatever operations run on the agent repository, its apps and revisions fit
    together: every app is valid and stored under its identifiers, the key index and the
    apps agree, every revision is valid, belongs to an app and was numbered by it, and the
    revision and the canary that an app points to are published revisions of that app. *)
Theorem agent_repository_integrity os :
  Forall op_ok os → wf (run os NewInMemoryRepository).
Proof. intros Hok. by apply (agent_run_ok os NewInMemoryRepository wf_empty). Qed.

(** C19: A published revision never changes again: after any further operations the
    repository still holds it unchanged under its number, and its digest is that of its
    content. *)
Theorem published_revision_final os1 os2 sc n v :
  Forall op_ok os1 → Forall op_ok os2 →
  let r := run os1 NewInMemoryRepository in
  revision_at r sc n = Some v → State v = RevisionStatePublished →
  revision_at (run os2 r) sc n = Some v ∧ ComputeContentDigest v = Ok (ContentDigest v).
Proof.
  intros H1 H2 r Hv Hp. destruct (agent_run_ok os1 NewInMemoryRepository wf_empty H1) as [Hwf _].
  destruct (agent_run_ok os2 r Hwf H2) as [_ Hk]. split; [by apply Hk|].
  apply published_digest; [|done]. by apply (wf_revision _ Hwf _ _ _ Hv).
Qed.
