(* ===== verification/AgentRuntime.v ===== *)
(** Execution snapshots of agent apps, [trpcservice/agent/runtime.go] with the tenant
    snapshots of [trpcservice/tenant/runtime.go]: the sealed input of one execution, its
    validation and the cache key and factory input that it yields.  Together with the
    repository: what an active app points to can be executed.

    The private pointers of a snapshot are options; the zero snapshot has none. *)
From Stdlib Require Import Ascii String.
From Corelib Require Import SpecFloat.
From S2P Require Import Prelude GoStrings Tenant Agent AgentRevision AgentRepository.
Local Open Scope Z_scope.

Record AgentExecutionSnapshot := mkSnapshot {
  sn_tenant : option Tenant; sn_app : option App; sn_revision : option Revision }.
Definition zero_snapshot : AgentExecutionSnapshot := mkSnapshot None None None.

Record FactoryCacheKey := mkFactoryCacheKey {
  fk_TenantID : string; fk_TenantVersion : Z; fk_AppID : string; fk_AppVersion : Z;
  fk_Revision : Z; fk_ContentDigest : string }.

Record LLMAgentFactoryInput := mkFactoryInput {
  fi_TenantID : string; fi_TenantVersion : Z; fi_AppID : string; fi_AppKey : string;
  fi_AppVersion : Z; fi_DisplayName : string; fi_Name : string; fi_Revision : Z;
  fi_ContentDigest : string; fi_Kind : string; fi_SchemaVersion : Z;
  (* Description, Instruction, GlobalInstruction, ModelProfileID, Generation, Runtime, Tools *)
  fi_Configuration : DraftConfiguration }.

(** The revision is the current one of the app or its canary. *)
Definition selected (app : App) (n : Z) : bool :=
  match CurrentRevision app with
  | None => false
  | Some current => (current =? n) || match CanaryRevision app with None => false | Some c => c =? n end
  end.

Definition validateExecutionState (tenantValue : Tenant) (app : option App) (revision : option Revision)
    : result error unit :=
  match Tenant.Validate tenantValue with
  | Err _ => Err ErrInvalid
  | Ok _ =>
      _ ← guard_ok (Tenant.CanAcceptExecution tenantValue) ErrInvalid;
      match app with
      | None => Err ErrInvalid
      | Some app =>
          match Agent.Validate app with
          | Err _ => Err ErrInvalid
          | Ok _ =>
              _ ← guard_ok (Agent.CanAcceptExecution app) ErrInvalid;
              match revision with
              | None => Err ErrInvalid
              | Some revision =>
                  match revision_Validate revision with
                  | Err _ => Err ErrInvalid
                  | Ok _ =>
                      _ ← guard_ok (State revision =? RevisionStatePublished)%string ErrInvalid;
                      _ ← guard_ok ((Tenant.TenantID tenantValue =? TenantID app)%string
                            && (Tenant.TenantID tenantValue =? rv_TenantID revision)%string
                            && (AppID app =? rv_AppID revision)%string) ErrInvalid;
                      guard_ok (selected app (rv_Revision revision)) ErrInvalid
                  end
              end
          end
      end
  end.

Definition NewAgentExecutionSnapshot (tenantSnapshot : option Tenant) (app : option App)
    (revision : option Revision) : result error AgentExecutionSnapshot :=
  let tenantValue := snapshot_Tenant tenantSnapshot in
  _ ← validateExecutionState tenantValue app revision;
  Ok (mkSnapshot (Some tenantValue) app revision).

Definition snapshot_validate (s : AgentExecutionSnapshot) : result error unit :=
  match sn_tenant s, sn_app s, sn_revision s with
  | Some t, Some a, Some r => validateExecutionState t (Some a) (Some r)
  | _, _, _ => Err ErrInvalid
  end.

Definition CacheKey (s : AgentExecutionSnapshot) : result error FactoryCacheKey :=
  _ ← snapshot_validate s;
  match sn_tenant s, sn_app s, sn_revision s with
  | Some t, Some a, Some r =>
      Ok (mkFactoryCacheKey (Tenant.TenantID t) (Tenant.Version t) (AppID a) (Version a)
            (rv_Revision r) (ContentDigest r))
  | _, _, _ => Err ErrInvalid
  end.

Definition FactoryInput (s : AgentExecutionSnapshot) : result error LLMAgentFactoryInput :=
  _ ← snapshot_validate s;
  match sn_tenant s, sn_app s, sn_revision s with
  | Some t, Some a, Some r =>
      Ok (mkFactoryInput (Tenant.TenantID t) (Tenant.Version t) (AppID a) (AppKey a) (Version a)
            (DisplayName a) (AppKey a) (rv_Revision r) (ContentDigest r) (Kind r) (SchemaVersion r)
            (Configuration r))
  | _, _, _ => Err ErrInvalid
  end.

(** The value under the private context key, after and before. *)
Definition WithAgentExecutionSnapshot (s : AgentExecutionSnapshot) : option AgentExecutionSnapshot :=
  match snapshot_validate s with Err _ => Some zero_snapshot | Ok _ => Some s end.
Definition AgentExecutionSnapshotFromContext (value : option AgentExecutionSnapshot)
    : AgentExecutionSnapshot * bool :=
  match value with
  | None => (zero_snapshot, false)
  | Some s => match snapshot_validate s with Err _ => (zero_snapshot, false) | Ok _ => (s, true) end
  end.

#[global] Arguments Tenant.Validate : simpl never.
#[global] Arguments Agent.Validate : simpl never.
#[global] Arguments validateExecutionState : simpl never.

(** * Properties *)

Lemma validateExecutionState_Ok t a v :
  validateExecutionState t (Some a) (Some v) = Ok () ↔
  Tenant.Validate t = Ok () ∧ Tenant.CanAcceptExecution t = true ∧ Agent.Validate a = Ok ()
  ∧ Agent.CanAcceptExecution a = true ∧ revision_Validate v = Ok () ∧ State v = RevisionStatePublished
  ∧ Tenant.TenantID t = TenantID a ∧ app_scope a = (rv_TenantID v, rv_AppID v)
  ∧ selected a (rv_Revision v) = true.
Proof.
  unfold validateExecutionState, app_scope. go_unfold. split.
  - destruct (Tenant.Validate t) as [[]|]; [|done]. destruct (Tenant.CanAcceptExecution t); [|done].
    destruct (Agent.Validate a) as [[]|]; [|done]. destruct (Agent.CanAcceptExecution a); [|done].
    destruct (revision_Validate v) as [[]|]; [|done].
    destruct (String.eqb_spec (State v) RevisionStatePublished); [|done].
    destruct (String.eqb_spec (Tenant.TenantID t) (TenantID a)) as [->|]; [|done].
    destruct (String.eqb_spec (TenantID a) (rv_TenantID v)) as [->|]; [|done].
    destruct (String.eqb_spec (AppID a) (rv_AppID v)) as [->|]; [|done]. cbn.
    by destruct (selected a (rv_Revision v)).
  - intros (-> & -> & -> & -> & -> & -> & -> & Hs & ->). injection Hs as -> ->. by rewrite !String.eqb_refl.
Qed.

(** The repository and the execution gate fit together: in every reachable
    repository, for an app that accepts executions under an active tenant, the current
    revision and the canary can be fetched, a snapshot of them is accepted, its cache key
    carries their identities, versions and digest, and it survives the passage through a
    context.  Conversely every snapshot of a stored app and a stored revision is of a
    published revision that the app points to. *)
Theorem active_app_executes os t a :
  Forall op_ok os → let r := run os NewInMemoryRepository in
  apps r !! app_scope a = Some a → Tenant.Validate t = Ok () → Tenant.CanAcceptExecution t = true →
  Tenant.TenantID t = TenantID a →
  (Agent.CanAcceptExecution a = true → ∃ n, CurrentRevision a = Some n
     ∧ ∀ m, m = n ∨ CanaryRevision a = Some m → ∃ v,
         (GetRevision (λ _, None) (TenantID a) (AppID a) m r).2 = Ok v
         ∧ let s := mkSnapshot (Some t) (Some a) (Some v) in
           NewAgentExecutionSnapshot (Some t) (Some a) (Some v) = Ok s
           ∧ CacheKey s = Ok (mkFactoryCacheKey (Tenant.TenantID t) (Tenant.Version t) (AppID a)
                               (Version a) m (ContentDigest v))
           ∧ AgentExecutionSnapshotFromContext (WithAgentExecutionSnapshot s) = (s, true))
  ∧ (∀ sc n v s, revision_at r sc n = Some v → NewAgentExecutionSnapshot (Some t) (Some a) (Some v) = Ok s →
       sc = app_scope a ∧ published r sc n ∧ (CurrentRevision a = Some n ∨ CanaryRevision a = Some n)).
Proof.
  intros Hok r Ha Ht Hte Hid. destruct (agent_run_ok os NewInMemoryRepository wf_empty Hok) as [Hwf _].
  fold r in Hwf. destruct (wf_app _ Hwf _ _ Ha) as (_ & Hva & _ & _ & Hpt). split.
  - intros Hexec. pose proof Hexec as Hcur. unfold Agent.CanAcceptExecution in Hcur.
    destruct (CurrentRevision a) as [n|] eqn:Hn; [|by rewrite andb_false_r in Hcur].
    exists n. split; [done|]. intros m Hm.
    destruct (Hpt m) as (v & Hv & Hp). { destruct Hm as [->|?]; [left|right]; done. }
    destruct (wf_revision _ Hwf _ _ _ Hv) as (Hsc & Hnum & Hvv & _). exists v.
    assert (validateExecutionState t (Some a) (Some v) = Ok ()) as Hst.
    { apply validateExecutionState_Ok. split_and!; try done. unfold selected. rewrite Hn, Hnum.
      destruct Hm as [->|Hm]; [by rewrite Z.eqb_refl|]. by rewrite Hm, Z.eqb_refl, orb_true_r. }
    split; [|cbv zeta; split_and!].
    + change (revisionLocked (TenantID a) (AppID a) m r = Ok v). unfold revisionLocked, getLocked. go_unfold.
      change (TenantID a, AppID a) with (app_scope a) in *. by rewrite Ha, Hv.
    + unfold NewAgentExecutionSnapshot. go_unfold. cbn. by rewrite Hst.
    + unfold CacheKey, snapshot_validate. go_unfold. cbn. rewrite Hst. by rewrite Hnum.
    + unfold WithAgentExecutionSnapshot, AgentExecutionSnapshotFromContext, snapshot_validate. cbn. rewrite Hst.
      unfold snapshot_validate. cbn. by rewrite Hst.
  - intros sc n v s Hv. unfold NewAgentExecutionSnapshot. go_unfold. cbn.
    destruct (validateExecutionState t (Some a) (Some v)) as [[]|] eqn:Hst; [|done]. intros _.
    apply validateExecutionState_Ok in Hst as (_ & _ & _ & _ & _ & Hp & _ & Hsc & Hsel).
    destruct (wf_revision _ Hwf _ _ _ Hv) as (Hsc' & Hnum & _). split; [congruence|].
    split; [by exists v|]. unfold selected in Hsel. rewrite Hnum in Hsel.
    destruct (CurrentRevision a) as [c|]; [|done]. apply orb_true_iff in Hsel as [Heq|Heq].
    + left. f_equal. by apply Z.eqb_eq.
    + right. destruct (CanaryRevision a); [|done]. f_equal. by apply Z.eqb_eq.
Qed.

(** * Witnesses *)

Definition quiet : nat → option ctx_error := λ _, None.
Definition ex_agent_tenant_id : string := "t_01HF7YAT00041061050R3GG28A".
Definition ex_agent_tenant : Tenant :=
  mkTenant ex_agent_tenant_id "acme" "active" (mkConfiguration "Acme" None None None None "" 30 "basic" (S754_zero false) None None)
    3 1 1.
Definition ex_change : ChangeMetadata := mkChange "user" "u-1" "release" "c-1".
Definition ex_draft_configuration : DraftConfiguration :=
  mkDraft " helper " "Answer politely." "" "model-1" (mkGeneration (Some (f64 1)) None (Some 512)) zero_policy
    [mkTool "search" true; mkTool " calc " false].
Definition ex_setup : list op :=
  [OpCreate quiet 1700000000000 (Some [1; 2; 3; 4; 5; 6; 7; 8; 9; 10]) 5
     (mkCreateInput ex_agent_tenant_id "Bot" "Bot" "")].
Definition ex_agent_id : string := "app_01HF7YAT00041061050R3GG28A".
Definition ex_release : list op :=
  [OpCreateDraft quiet 6 (mkCreateDraft ex_agent_tenant_id ex_agent_id 1 "" 0 ex_draft_configuration);
   OpPublish quiet 7 (mkPublish ex_agent_tenant_id ex_agent_id 1 1 1 true ex_change)].
Definition ex_later : list op :=
  [OpUpdateDraft quiet 8 (mkUpdateDraft ex_agent_tenant_id ex_agent_id 1 2 1 ex_draft_configuration);
   OpTransitionStatus quiet 9 (mkTransition ex_agent_tenant_id ex_agent_id 2 StatusSuspended ex_change)].
Definition ex_scope : string * string := (ex_agent_tenant_id, ex_agent_id).
Notation ex_published := (run (ex_setup ++ ex_release) NewInMemoryRepository).
Definition ex_executable : option App := Eval vm_compute in apps ex_published !! ex_scope.
Definition ex_revision : option Revision := Eval vm_compute in revision_at ex_published ex_scope 1.

Lemma ex_release_ok : Forall op_ok (ex_setup ++ ex_release).
Proof.
  apply Forall_cons_2; [|by repeat constructor]. split; [done|]. intros bs Hbs. injection Hbs as <-.
  split; [done|]. repeat (apply Forall_cons_2; [lia|]). constructor.
Qed.

Lemma agent_repository_integrity_witness :
  wf ex_published ∧ opt_is_nil ex_revision = false ∧ opt_is_nil ex_executable = false.
Proof. split; [|done]. apply agent_repository_integrity, ex_release_ok. Defined.

Lemma published_revision_final_witness :
  match ex_revision with
  | Some v => State v = RevisionStatePublished ∧ revision_at (run ex_later ex_published) ex_scope 1 = Some v
  | None => False
  end.
Proof.
  split; [reflexivity|].
  refine (proj1 (published_revision_final (ex_setup ++ ex_release) ex_later ex_scope 1 _ ex_release_ok _ _ _)).
  - repeat constructor.
  - vm_compute. reflexivity.
  - reflexivity.
Defined.

Lemma active_app_executes_witness :
  match ex_executable with
  | Some a => ∃ n, CurrentRevision a = Some n
  | None => False
  end.
Proof.
  destruct (proj1 (active_app_executes (ex_setup ++ ex_release) ex_agent_tenant
    (default (mkApp "" "" "" "" "" "" None None 0 0 0) ex_executable) ex_release_ok
    ltac:(vm_compute; reflexivity) ltac:(vm_compute; reflexivity) ltac:(vm_compute; reflexivity)
    ltac:(vm_compute; reflexivity)) ltac:(vm_compute; reflexivity)) as (n & Hn & _).
  exists n. exact Hn.
Defined.
