(* ===== verification/OptionMaps.v ===== *)
(** Maps of options: the two loops that both profile packages run over a map, as folds over its
    entries, and what they leave under each key.  The first loop checks and normalizes every
    given entry, the second one adds the defaults of the schema and misses required entries. *)
From Stdlib Require Import String.
From S2P Require Import Prelude.

Section loops.
Context {E S : Type} (missing : E).
(** The normalized value of an entry, and the default and the obligation of a schema entry. *)
Context (entry : string → string → result E string) (dflt : S → option string) (required : S → bool).

Fixpoint entries_loop (entries : list (string * string)) (m : gmap string string)
    : result E (gmap string string) :=
  match entries with
  | [] => Ok m
  | (k, v) :: entries' => w ← entry k v; entries_loop entries' (<[k := w]> m)
  end.

Fixpoint defaults_loop (specs : list (string * S)) (m : gmap string string) : result E (gmap string string) :=
  match specs with
  | [] => Ok m
  | (k, spec) :: specs' =>
      if negb (opt_is_nil (m !! k)) then defaults_loop specs' m
      else match dflt spec with
      | Some d => defaults_loop specs' (<[k := d]> m)
      | None => if required spec then Err missing else defaults_loop specs' m
      end
  end.

Definition accepted_entry (k v : string) : option string :=
  match entry k v with Ok w => Some w | Err _ => None end.

Lemma entries_loop_lookup entries m m' :
  NoDup entries.*1 → entries_loop entries m = Ok m' →
  ∀ k, (∀ v, (k, v) ∈ entries → is_Some (accepted_entry k v) ∧ m' !! k = accepted_entry k v)
       ∧ (k ∉ entries.*1 → m' !! k = m !! k).
Proof.
  revert m. induction entries as [|[key v] entries IH]; intros m Hnd; cbn [entries_loop].
  { intros [= <-] k. split; [by intros ? ?%not_elem_of_nil|done]. }
  cbn [fmap list_fmap] in Hnd. apply NoDup_cons in Hnd as [Hkey Hnd]. go_unfold.
  destruct (entry key v) as [w|] eqn:Ew; [|done]. intros Hrec k.
  destruct (IH _ Hnd Hrec k) as [IH1 IH2]. split.
  - intros v' [[= -> ->]|Hin]%elem_of_cons; [|by apply IH1].
    rewrite IH2 by done. unfold accepted_entry. rewrite Ew, lookup_insert_eq. by split; [eexists|].
  - cbn. intros [Hne Hout]%not_elem_of_cons. by rewrite IH2, lookup_insert_ne by done.
Qed.

Lemma defaults_loop_lookup specs m m' :
  NoDup specs.*1 → defaults_loop specs m = Ok m' →
  ∀ k, (∀ spec, (k, spec) ∈ specs → m' !! k = match m !! k with Some w => Some w | None => dflt spec end
         ∧ (required spec = true → is_Some (m' !! k)))
       ∧ (k ∉ specs.*1 → m' !! k = m !! k).
Proof.
  revert m. induction specs as [|[key spec] specs IH]; intros m Hnd; cbn [defaults_loop].
  { intros [= <-] k. split; [by intros ? ?%not_elem_of_nil|done]. }
  cbn [fmap list_fmap] in Hnd. apply NoDup_cons in Hnd as [Hkey Hnd]. intros H k.
  assert (∃ m1, defaults_loop specs m1 = Ok m' ∧ (k ≠ key → m1 !! k = m !! k)
    ∧ m1 !! key = match m !! key with Some w => Some w | None => dflt spec end
    ∧ (required spec = true → is_Some (m1 !! key))) as (m1 & Hm1 & Hne & Hk & Hr).
  { destruct (m !! key) as [w|] eqn:Em; cbn [opt_is_nil negb] in H.
    { exists m. split_and!; try done; intros _; rewrite Em; by eexists. }
    destruct (dflt spec) as [d|].
    - exists (<[key := d]> m). split_and!; [done|..].
      + intros ?. by rewrite lookup_insert_ne.
      + by rewrite lookup_insert_eq.
      + intros _. rewrite lookup_insert_eq. by eexists.
    - destruct (required spec); [done|]. exists m. by split_and!. }
  destruct (IH _ Hnd Hm1 k) as [IH1 IH2]. split.
  - intros spec' [[= -> ->]|Hin]%elem_of_cons.
    + rewrite IH2 by done. by split.
    + destruct (IH1 _ Hin) as [Hm ?]. split; [|done]. rewrite Hm, Hne; [done|].
      intros ->. apply Hkey, list_elem_of_fmap. by exists (key, spec').
  - cbn. intros [? ?]%not_elem_of_cons. rewrite IH2 by done. auto.
Qed.

(** Both loops together, key by key: the normalized value of a given entry, else the default of
    the schema; nothing depends on the order in which the maps are visited. *)
Lemma option_loops_lookup (o : gmap string string) (specs : gmap string S) m1 m :
  entries_loop (map_to_list o) ∅ = Ok m1 → defaults_loop (map_to_list specs) m1 = Ok m →
  (∀ k, m !! k = match o !! k with Some v => accepted_entry k v | None => specs !! k ≫= dflt end)
  ∧ (∀ k v, o !! k = Some v → is_Some (accepted_entry k v))
  ∧ (∀ k spec, specs !! k = Some spec → required spec = true → is_Some (m !! k)).
Proof.
  intros E1 E2. pose proof (entries_loop_lookup _ _ _ (NoDup_fst_map_to_list o) E1) as H1.
  pose proof (defaults_loop_lookup _ _ _ (NoDup_fst_map_to_list specs) E2) as H2.
  assert (∀ k v, o !! k = Some v → is_Some (accepted_entry k v) ∧ m1 !! k = accepted_entry k v) as Hin.
  { intros k v Hk. by apply (proj1 (H1 k)), elem_of_map_to_list. }
  assert (∀ k, o !! k = None → m1 !! k = None) as Hout.
  { intros k Hk. rewrite (proj2 (H1 k)); [apply lookup_empty|].
    intros ([k' v] & -> & Hkv%elem_of_map_to_list)%list_elem_of_fmap. cbn in Hk. congruence. }
  assert (∀ k, specs !! k = None → m !! k = m1 !! k) as Hnone.
  { intros k Hk. apply (proj2 (H2 k)).
    intros ([k' v] & -> & Hkv%elem_of_map_to_list)%list_elem_of_fmap. cbn in Hk. congruence. }
  split_and!.
  - intros k. destruct (o !! k) as [v|] eqn:Ek.
    + destruct (Hin k v Ek) as [[w Hw] Hm]. rewrite Hw in Hm |- *. destruct (specs !! k) as [spec|] eqn:Es.
      * apply elem_of_map_to_list, (proj1 (H2 k)) in Es as [-> _]. by rewrite Hm.
      * by rewrite Hnone.
    + destruct (specs !! k) as [spec|] eqn:Es.
      * apply elem_of_map_to_list, (proj1 (H2 k)) in Es as [-> _]. by rewrite Hout.
      * rewrite Hnone by done. by apply Hout.
  - intros k v Hk. by apply Hin.
  - intros k spec Es Hr. apply elem_of_map_to_list, (proj1 (H2 k)) in Es as [_ ?]. auto.
Qed.

(** Normalizing a map that already is the result changes nothing, so equality can be decided by
    the sizes and the given entries. *)
Lemma option_loops_equal (o : gmap string string) (specs : gmap string S) m1 m :
  entries_loop (map_to_list o) ∅ = Ok m1 → defaults_loop (map_to_list specs) m1 = Ok m →
  size m = size o → (∀ k v, m !! k = Some v → is_Some (o !! k) → o !! k = Some v) → m = o.
Proof.
  intros E1 E2 Hsize Hall. destruct (option_loops_lookup _ _ _ _ E1 E2) as (Hl & Hv & _).
  assert (dom o ⊆ dom m) as Hsub.
  { intros k [v Hk]%elem_of_dom. apply elem_of_dom. rewrite Hl, Hk. by eapply Hv. }
  assert (dom o = dom m) as Hdom.
  { apply set_subseteq_size_eq; [done|]. by rewrite !size_dom, Hsize. }
  apply map_eq. intros k. destruct (m !! k) as [v|] eqn:Em.
  - symmetry. apply Hall; [done|]. apply elem_of_dom. rewrite Hdom. by eapply elem_of_dom_2.
  - symmetry. apply not_elem_of_dom. rewrite Hdom. by apply not_elem_of_dom.
Qed.
End loops.
