(* ===== verification/ProfileStore.v ===== *)
(** The store that the in-memory repositories of model and backend profiles share in shape:
    profiles by tenant and identity, and an index of their keys inside a tenant.

    [Aggregate] is what a repository promises about the profiles it keeps.  The theorems are
    about sequences of effects, where an effect is the creation of a profile under an unused
    identity and key, or the replacement of a profile that is not final by its next version;
    each repository shows that its operations have such effects. *)
From Stdlib Require Import String.
From S2P Require Import Prelude.
Local Open Scope Z_scope.

Notation scope := (string * string)%type (only parsing).

Class Aggregate (P : Type) := {
  agg_tenant : P → string;
  agg_id : P → string;
  agg_key : P → string;
  agg_version : P → Z;
  agg_final : P → bool }.

Record store (P : Type) := mkStore { byID : gmap scope P; byKey : gmap scope string }.
Arguments mkStore {P}.
Arguments byID {P}.
Arguments byKey {P}.

Definition empty_store {P} : store P := mkStore ∅ ∅.

Section theory.
Context {P : Type} `{!Aggregate P} (valid : P → Prop).
Context (valid_version : ∀ p, valid p → 1 ≤ agg_version p).

Definition id_scope (p : P) : scope := (agg_tenant p, agg_id p).
Definition key_scope (p : P) : scope := (agg_tenant p, agg_key p).

(** ** Integrity: valid profiles under their own identity, and an exact index of keys *)

Record store_wf (s : store P) : Prop := {
  wf_profile : ∀ sc p, byID s !! sc = Some p →
    id_scope p = sc ∧ valid p ∧ agg_version p ≤ int64_max ∧ byKey s !! key_scope p = Some (agg_id p);
  wf_index : ∀ t k i, byKey s !! (t, k) = Some i →
    ∃ p, byID s !! (t, i) = Some p ∧ agg_key p = k }.

Inductive store_effect (s : store P) : store P → Prop :=
| effect_none : store_effect s s
| effect_created p :
    valid p → agg_version p = 1 → byID s !! id_scope p = None → byKey s !! key_scope p = None →
    store_effect s (mkStore (<[id_scope p := p]> (byID s)) (<[key_scope p := agg_id p]> (byKey s)))
| effect_changed p p' :
    byID s !! id_scope p = Some p → agg_final p = false → valid p' →
    id_scope p' = id_scope p → agg_key p' = agg_key p → agg_version p' = incr64 (agg_version p) →
    store_effect s (mkStore (<[id_scope p := p']> (byID s)) (byKey s)).

Lemma store_wf_empty : store_wf empty_store.
Proof. split; intros; cbn in *; by rewrite ?lookup_empty in *. Qed.

Lemma next_version p p' :
  valid p → agg_version p ≤ int64_max → valid p' → agg_version p' = incr64 (agg_version p) →
  agg_version p' = agg_version p + 1 ∧ agg_version p' ≤ int64_max.
Proof using valid_version.
  intros Hp Hm Hp' E. apply valid_version in Hp, Hp'. pose proof (wrap64_range (agg_version p + 1)) as Hr.
  unfold incr64 in E. destruct (decide (agg_version p = int64_max)) as [Hmax|].
  - rewrite E, Hmax in Hp'. change (wrap64 (int64_max + 1)) with int64_min in Hp'. unfold int64_min in Hp'. lia.
  - rewrite wrap64_id in E by (unfold int64_min, int64_max in *; lia). lia.
Qed.

Lemma store_effect_wf s s' : store_wf s → store_effect s s' → store_wf s'.
Proof using valid_version.
  intros [Hp Hi] [|p Hv H1 Hid Hkey|p p' Hold Hfin Hv Hsc Hk Hver]; [done|..].
  - split; cbn.
    + intros sc q. destruct (decide (sc = id_scope p)) as [->|Hne].
      * rewrite lookup_insert_eq. intros [= <-]. rewrite lookup_insert_eq, H1. by split_and!.
      * rewrite lookup_insert_ne by done. intros Hq. destruct (Hp _ _ Hq) as (? & ? & ? & Hqk).
        split_and!; [done..|]. rewrite lookup_insert_ne; [done|]. intros E. rewrite E in Hkey. congruence.
    + intros t k i. destruct (decide (key_scope p = (t, k))) as [E|Hne].
      * rewrite E, lookup_insert_eq. intros [= <-]. injection E as <- <-. exists p. by rewrite lookup_insert_eq.
      * rewrite lookup_insert_ne by done. intros Hk. destruct (Hi _ _ _ Hk) as (q & Hq & Hqk).
        exists q. split; [|done]. rewrite lookup_insert_ne; [done|]. intros E. congruence.
  - destruct (Hp _ _ Hold) as (_ & Hvp & Hmax & Hpk). destruct (next_version p p') as [_ ?]; [done..|].
    assert (agg_tenant p' = agg_tenant p ∧ agg_id p' = agg_id p) as [Et Ei] by (by injection Hsc).
    split; cbn.
    + intros sc q. destruct (decide (id_scope p = sc)) as [<-|Hne].
      * rewrite lookup_insert_eq. intros [= <-]. split_and!; [done..|].
        unfold key_scope. rewrite Et, Hk, Ei. exact Hpk.
      * rewrite lookup_insert_ne by done. intros Hq. by apply Hp.
    + intros t k i Hki. destruct (Hi _ _ _ Hki) as (q & Hq & Hqk).
      destruct (decide (id_scope p = (t, i))) as [E|Hne].
      * exists p'. rewrite E, lookup_insert_eq. split; [done|]. rewrite E, Hq in Hold. congruence.
      * exists q. by rewrite lookup_insert_ne.
Qed.

(** ** History: a profile is never lost, its key and identity never change, its version only
    grows, and a final profile stays as it is *)

Definition store_extends (s s' : store P) : Prop :=
  ∀ sc p, byID s !! sc = Some p →
    ∃ p', byID s' !! sc = Some p' ∧ agg_key p' = agg_key p
      ∧ (p' = p ∨ agg_final p = false ∧ agg_version p < agg_version p').

#[global] Instance store_extends_preorder : PreOrder store_extends.
Proof using.
  split.
  - intros s sc p Hp. exists p. auto.
  - intros s1 s2 s3 H12 H23 sc p Hp. destruct (H12 _ _ Hp) as (p2 & Hp2 & Hk2 & Hv2).
    destruct (H23 _ _ Hp2) as (p3 & Hp3 & Hk3 & Hv3). exists p3. split; [done|]. split; [congruence|].
    destruct Hv2 as [-> |[Hf Hlt]]; [done|]. destruct Hv3 as [-> |[? ?]]; [by right|]. right. split; [done|lia].
Qed.

Lemma store_effect_extends s s' : store_wf s → store_effect s s' → store_extends s s'.
Proof using valid_version.
  intros [Hp Hi] [|p Hv H1 Hid Hkey|p p' Hold Hfin Hv Hsc Hk Hver] sc q Hq; [by exists q; auto|..]; cbn.
  - exists q. rewrite lookup_insert_ne; [by auto|]. congruence.
  - destruct (decide (id_scope p = sc)) as [<-|Hne].
    + exists p'. rewrite lookup_insert_eq. assert (q = p) as -> by congruence. split; [done|]. split; [done|].
      right. split; [done|]. destruct (Hp _ _ Hold) as (_ & ? & ? & _).
      destruct (next_version p p') as [-> _]; [done..|lia].
    + exists q. rewrite lookup_insert_ne by done. auto.
Qed.

(** ** Sequences of operations *)

Section runs.
Context {op : Type} (exec : op → store P → store P) (op_ok : op → Prop).
Context (exec_effect : ∀ o s, store_wf s → op_ok o → store_effect s (exec o s)).

Definition run_store (os : list op) (s : store P) : store P := foldl (λ s o, exec o s) s os.

Lemma run_store_ok os s :
  store_wf s → Forall op_ok os → store_wf (run_store os s) ∧ store_extends s (run_store os s).
Proof using valid_version exec_effect.
  intros Hwf Hos. revert s Hwf. induction Hos as [|o os Ho _ IH]; intros s Hwf; cbn; [done|].
  pose proof (exec_effect o s Hwf Ho) as He.
  destruct (IH (exec o s)) as [Hw Hx]; [by eapply store_effect_wf|].
  split; [done|]. etrans; [|exact Hx]. by apply store_effect_extends.
Qed.

(** An operation that expects version [v] of a profile and succeeds leaves a later version
    behind, so no later operation that expects [v] succeeds. *)
Lemma run_store_version os s sc p v :
  store_wf s → Forall op_ok os → byID s !! sc = Some p → v < agg_version p →
  ∃ q, byID (run_store os s) !! sc = Some q ∧ v < agg_version q.
Proof using valid_version exec_effect.
  intros Hwf Hos Hp Hv. destruct (run_store_ok os s Hwf Hos) as [_ Hx].
  destruct (Hx _ _ Hp) as (q & Hq & _ & Hor).
  exists q. split; [done|]. destruct Hor as [-> |[_ ?]]; lia.
Qed.
End runs.
End theory.
