(* ===== verification/ModelProfile.v ===== *)
(** Model profiles, [trpcservice/model/model.go]: the trusted provider catalog and its
    compilation, the normalization of provider configurations against it (endpoints, secret
    references, options, generation parameters), the content digest, and the creation,
    validation and lifecycle of a profile.

    A map of options is a finite map; Go visits it in an unspecified order, and every error of
    a visit is the same [ErrInvalid], so the order of [map_to_list] stands for any.  Cloning is
    the identity on values; a nil map and an empty one are not told apart, since only lengths
    and entries are read. *)
From Stdlib Require Import Ascii String.
From Corelib Require Import SpecFloat.
From S2P Require Import Prelude GoStrings GoURL GoIP GoFloat Sha256 OptionMaps Tenant.
Local Open Scope Z_scope.

(** * Data *)

Inductive error :=
| ErrInvalid | ErrNotFound | ErrConflict | ErrDuplicateKey | ErrDisabled | ErrInvalidTransition
| ErrRandom | ErrRegistryClosed | ErrProviderUnavailable | ErrSecretUnavailable
| ErrSecretResolution | ErrModelFactory | ErrContext (e : ctx_error).
#[export] Instance error_eq_dec : EqDecision error.
Proof. solve_decision. Defined.

Definition SchemaVersionV1 : Z := 1.
Definition maxEndpointLen : Z := 2048.
Definition maxOptionLen : Z := 4096.
Definition maxSecretRefLen : Z := 256.

Definition StatusActive : string := "active".
Definition StatusSuspended : string := "suspended".
Definition StatusDisabled : string := "disabled".

Record GenerationConfig := mkGeneration {
  Temperature : option spec_float; TopP : option spec_float; MaxOutputTokens : option Z }.
#[export] Instance generation_eq_dec : EqDecision GenerationConfig.
Proof. solve_decision. Defined.

Record Configuration := mkConfiguration {
  c_Provider : string; c_Model : string; c_Endpoint : string; c_Options : gmap string string;
  c_SecretRef : string; c_Generation : GenerationConfig }.
#[export] Instance configuration_eq_dec : EqDecision Configuration.
Proof. solve_decision. Defined.

Record Profile := mkProfile {
  mp_TenantID : string; mp_ProfileID : string; mp_ProfileKey : string; mp_DisplayName : string;
  mp_Description : string; mp_Status : string; mp_SchemaVersion : Z;
  mp_Configuration : Configuration; mp_ContentDigest : string; mp_Version : Z;
  mp_CreatedAt : stamp; mp_UpdatedAt : stamp }.

Record ChangeMetadata := mkMetadata {
  ActorType : string; ActorID : string; Reason : string; CorrelationID : string }.

Record CreateInput := mkCreateInput {
  ci_TenantID : string; ci_ProfileKey : string; ci_DisplayName : string; ci_Description : string;
  ci_Status : string; ci_SchemaVersion : Z; ci_Configuration : Configuration;
  ci_Metadata : ChangeMetadata }.

Record UpdateConfigurationInput := mkUpdateInput {
  ui_TenantID : string; ui_ProfileID : string; ui_ExpectedVersion : Z; ui_DisplayName : string;
  ui_Description : string; ui_SchemaVersion : Z; ui_Configuration : Configuration;
  ui_Metadata : ChangeMetadata }.

Record TransitionStatusInput := mkTransitionInput {
  ti_TenantID : string; ti_ProfileID : string; ti_ExpectedVersion : Z; ti_NextStatus : string;
  ti_Metadata : ChangeMetadata }.

(** Field policies and option kinds are strings in the code; a schema may hold any. *)
Definition FieldForbidden : string := "forbidden".
Definition FieldOptional : string := "optional".
Definition FieldRequired : string := "required".
Definition OptionString : string := "string".
Definition OptionBoolean : string := "boolean".
Definition OptionInteger : string := "integer".
Definition OptionEnum : string := "enum".

Record OptionSpec := mkOptionSpec {
  Kind : string; Required : bool; DefaultValue : option string; AllowedValues : list string;
  MinInteger : option Z; MaxInteger : option Z }.

Record ProviderSpec := mkProviderSpec {
  Provider : string; Models : list string; EndpointPolicy : string; EndpointSchemes : list string;
  EndpointHosts : list string; SecretRefPolicy : string; Options : gmap string OptionSpec }.

Record compiledProviderSpec := mkCompiled {
  provider : string; models : gset string; endpointPolicy : string; endpointSchemes : gset string;
  endpointHosts : gset string; secretRefPolicy : string; options : gmap string OptionSpec }.

(** A catalog is the map of its compiled schemas; a nil catalog is [None]. *)
Definition ProviderCatalog : Type := gmap string compiledProviderSpec.

(** * Names and keys *)

Definition hasControl (value : string) : bool := existsb is_control (runes value).
Definition hasSpace (value : string) : bool := existsb is_space (runes value).

Definition validFieldPolicy (policy : string) : bool :=
  (policy =? FieldForbidden)%string || (policy =? FieldOptional)%string || (policy =? FieldRequired)%string.

Definition validName (value : string) : bool :=
  negb (value =? "")%string
  && forallb (λ r, is_lower r || is_digit r || (r =? 45) || (r =? 95) || (r =? 46)) (runes value).

Definition validOptionKey (value : string) : bool :=
  negb (value =? "")%string
  && forallb (λ r, is_lower r || is_digit r || (r =? 95) || (r =? 45)) (runes value).

Definition sensitiveOptionKeys : list string :=
  ["api_key"; "access_key"; "secret_key"; "private_key"; "connection_string"]%string.
Definition sensitiveOptionParts : list string :=
  ["password"; "passwd"; "pwd"; "token"; "secret"; "credential"; "credentials"; "dsn"]%string.
Definition sensitiveOptionSequences : list string :=
  ["apikey"; "accesskey"; "secretkey"; "privatekey"; "connectionstring"; "password"; "passwd"; "pwd";
   "passphrase"; "token"; "secret"; "credential"; "credentials"; "dsn"]%string.

Definition sensitiveOptionKey (value : string) : bool :=
  in_list value sensitiveOptionKeys
  || existsb (λ part, in_list part sensitiveOptionParts) (split 95 (replace_byte 45 95 value))
  || existsb (contains (remove_bytes (one_of_bytes [95; 45]) value)) sensitiveOptionSequences.

(** * Option values *)

Definition normalizeOptionValue (value : string) (spec : OptionSpec) : result error string :=
  let value := trim_space value in
  if (maxOptionLen <? rune_count value) || hasControl value then Err ErrInvalid
  else if (Kind spec =? OptionString)%string then Ok value
  else if (Kind spec =? OptionBoolean)%string then
    match ParseBool value with Some b => Ok (FormatBool b) | None => Err ErrInvalid end
  else if (Kind spec =? OptionInteger)%string then
    match ParseInt64 value with
    | None => Err ErrInvalid
    | Some parsed =>
        if opt_test (λ lo, parsed <? lo) (MinInteger spec) || opt_test (λ hi, hi <? parsed) (MaxInteger spec)
        then Err ErrInvalid else Ok (itoa parsed)
    end
  else if (Kind spec =? OptionEnum)%string then
    let value := to_lower value in
    if in_list value (AllowedValues spec) then Ok value else Err ErrInvalid
  else Err ErrInvalid.

(** * Compiling the catalog *)

Definition validateOptionBounds (spec : OptionSpec) : result error unit :=
  if negb (Kind spec =? OptionInteger)%string
    && (negb (opt_is_nil (MinInteger spec)) || negb (opt_is_nil (MaxInteger spec))) then Err ErrInvalid
  else match MinInteger spec, MaxInteger spec with
  | Some lo, Some hi => if hi <? lo then Err ErrInvalid else Ok ()
  | _, _ => Ok ()
  end.

Fixpoint compile_enum (seen : gset string) (values : list string) : result error (list string) :=
  match values with
  | [] => Ok []
  | value :: values' =>
      let normalized := to_lower (trim_space value) in
      if (normalized =? "")%string || (maxOptionLen <? rune_count normalized) || hasControl normalized
      then Err ErrInvalid
      else if bool_decide (normalized ∈ seen) then Err ErrInvalid
      else rest ← compile_enum ({[normalized]} ∪ seen) values'; Ok (normalized :: rest)
  end.
Definition compileEnumValues (values : list string) : result error (list string) :=
  match values with [] => Err ErrInvalid | _ => compile_enum ∅ values end.

Definition normalizeOptionDefault (compiled : OptionSpec) : result error OptionSpec :=
  match DefaultValue compiled with
  | None => Ok compiled
  | Some d =>
      normalized ← normalizeOptionValue d compiled;
      Ok (mkOptionSpec (Kind compiled) (Required compiled) (Some normalized) (AllowedValues compiled)
            (MinInteger compiled) (MaxInteger compiled))
  end.

Definition compileOptionSpec (spec : OptionSpec) : result error OptionSpec :=
  _ ← guard_ok (in_list (Kind spec) [OptionString; OptionBoolean; OptionInteger; OptionEnum]) ErrInvalid;
  _ ← guard_ok (negb (Required spec && negb (opt_is_nil (DefaultValue spec)))) ErrInvalid;
  _ ← validateOptionBounds spec;
  values ← if (Kind spec =? OptionEnum)%string then compileEnumValues (AllowedValues spec)
           else match AllowedValues spec with [] => Ok [] | _ => Err ErrInvalid end;
  normalizeOptionDefault (mkOptionSpec (Kind spec) (Required spec) (DefaultValue spec) values
    (MinInteger spec) (MaxInteger spec)).

Fixpoint compile_options (entries : list (string * OptionSpec)) : result error (gmap string OptionSpec) :=
  match entries with
  | [] => Ok ∅
  | (key, option) :: entries' =>
      let normalizedKey := to_lower (trim_space key) in
      if negb (normalizedKey =? key)%string || negb (validOptionKey normalizedKey)
        || sensitiveOptionKey normalizedKey then Err ErrInvalid
      else
        compiled ← compileOptionSpec option;
        rest ← compile_options entries';
        Ok (<[normalizedKey := compiled]> rest)
  end.
Definition compileProviderOptions (specs : gmap string OptionSpec) : result error (gmap string OptionSpec) :=
  compile_options (map_to_list specs).

(** A list of names that must be normal and without repetition. *)
Fixpoint compile_names (valid : string → result error string) (seen : gset string) (values : list string)
    : result error (gset string) :=
  match values with
  | [] => Ok seen
  | value :: values' =>
      normalized ← valid value;
      if bool_decide (normalized ∈ seen) then Err ErrInvalid
      else compile_names valid ({[normalized]} ∪ seen) values'
  end.

Definition model_name (value : string) : result error string :=
  let normalized := to_lower (trim_space value) in
  if (normalized =? "")%string || negb (normalized =? value)%string || negb (validName normalized)
  then Err ErrInvalid else Ok normalized.
Definition compileProviderModels (values : list string) : result error (gset string) :=
  match values with [] => Err ErrInvalid | _ => compile_names model_name ∅ values end.

(** * Endpoints *)

Definition asciiLetterOrDigit (value : Z) : bool := is_alnum value.

Definition valid_label (label : string) : bool :=
  negb ((len label =? 0) || (63 <? len label))
  && match label with String a _ => asciiLetterOrDigit (byte_val a) | EmptyString => false end
  && match last_byte label with Some b => asciiLetterOrDigit b | None => false end
  && all_bytes (λ b, asciiLetterOrDigit b || (b =? 45)) (drop_last (drop_bytes 1 label)).

Definition validDNSHostname (hostname : string) : bool :=
  if (len hostname =? 0) || (253 <? len hostname) then false
  else
    let hostname := trim_suffix_byte hostname 46 in
    if (hostname =? "")%string then false
    else forallb valid_label (split 46 hostname).

Definition normalizeEndpointHost (hostname : string) : result error string :=
  match ParseIP hostname with
  | Some ip => Ok (IP_String ip)
  | None =>
      if negb (validDNSHostname hostname) then Err ErrInvalid
      else Ok (to_lower (trim_suffix_byte hostname 46))
  end.

Definition normalizeEndpointAuthority (parsed : URL) : result error URL :=
  let hostname := Hostname parsed in
  let port := Port parsed in
  if has_byte 58 (Host parsed) && (port =? "")%string && negb (has_byte 58 hostname) then Err ErrInvalid
  else
    port ← if (port =? "")%string then Ok ""%string
           else match ParseUint16 port with
           | None => Err ErrInvalid
           | Some parsedPort => if parsedPort =? 0 then Err ErrInvalid else Ok (itoa parsedPort)
           end;
    match ParseIP hostname with
    | Some ip =>
        if has_byte 58 hostname then
          if (port =? "")%string then Ok (with_host parsed ("[" ++ IP_String ip ++ "]"))
          else Ok (with_host parsed (JoinHostPort (IP_String ip) port))
        else if (port =? "")%string then Ok (with_host parsed (IP_String ip))
        else Ok (with_host parsed (JoinHostPort (IP_String ip) port))
    | None =>
        if negb (validDNSHostname hostname) then Err ErrInvalid
        else
          let hostname := to_lower (trim_suffix_byte hostname 46) in
          if (port =? "")%string then Ok (with_host parsed hostname)
          else Ok (with_host parsed (JoinHostPort hostname port))
    end.

Definition parseEndpoint (endpoint : string) (schemes : gset string) : result error URL :=
  if (maxEndpointLen <? len endpoint) || hasControl endpoint then Err ErrInvalid
  else match url_Parse endpoint with
  | None => Err ErrInvalid
  | Some parsed =>
      if (Scheme parsed =? "")%string || (Host parsed =? "")%string || (Hostname parsed =? "")%string
        || negb (OpaqueData parsed =? "")%string || has_byte 44 (Host parsed)
        || negb (opt_is_nil (User parsed)) || negb (RawQuery parsed =? "")%string
        || ForceQuery parsed || negb (Fragment parsed =? "")%string
      then Err ErrInvalid
      else if hasControl (Path parsed) then Err ErrInvalid
      else
        let parsed := with_scheme parsed (to_lower (Scheme parsed)) in
        if bool_decide (Scheme parsed ∈ schemes) then Ok parsed else Err ErrInvalid
  end.

Definition normalizeEndpoint (endpoint policy : string) (schemes hosts : gset string)
    : result error string :=
  let endpoint := trim_space endpoint in
  if (endpoint =? "")%string then
    if (policy =? FieldRequired)%string then Err ErrInvalid else Ok ""%string
  else if (policy =? FieldForbidden)%string then Err ErrInvalid
  else
    parsed ← parseEndpoint endpoint schemes;
    parsed ← normalizeEndpointAuthority parsed;
    host ← normalizeEndpointHost (Hostname parsed);
    _ ← guard_ok (bool_decide (host ∈ hosts)) ErrInvalid;
    let canonical := url_String parsed in
    if maxEndpointLen <? len canonical then Err ErrInvalid else Ok canonical.

Definition scheme_name (scheme : string) : result error string :=
  let normalized := to_lower (trim_space scheme) in
  if negb (normalized =? scheme)%string || negb (validName normalized) then Err ErrInvalid
  else Ok normalized.
Definition host_name (host : string) : result error string :=
  match normalizeEndpointHost host with
  | Ok normalized => if (normalized =? host)%string then Ok normalized else Err ErrInvalid
  | Err _ => Err ErrInvalid
  end.

(** The emptiness rules of a list that goes with the endpoint policy. *)
Definition policy_names (policy : string) (names : gset string) : result error unit :=
  _ ← guard_ok (negb ((policy =? FieldForbidden)%string && negb (bool_decide (names = ∅)))) ErrInvalid;
  guard_ok (negb (negb (policy =? FieldForbidden)%string && bool_decide (names = ∅))) ErrInvalid.

Definition compileEndpointRules (spec : ProviderSpec) : result error (gset string * gset string) :=
  _ ← guard_ok (validFieldPolicy (EndpointPolicy spec) && validFieldPolicy (SecretRefPolicy spec)) ErrInvalid;
  schemes ← compile_names scheme_name ∅ (EndpointSchemes spec);
  _ ← policy_names (EndpointPolicy spec) schemes;
  hosts ← compile_names host_name ∅ (EndpointHosts spec);
  _ ← policy_names (EndpointPolicy spec) hosts;
  Ok (schemes, hosts).

Definition compileProviderSpec (spec : ProviderSpec) : result error compiledProviderSpec :=
  let provider := to_lower (trim_space (Provider spec)) in
  if (provider =? "")%string || negb (provider =? Provider spec)%string || negb (validName provider)
  then Err ErrInvalid
  else
    models ← compileProviderModels (Models spec);
    '(schemes, hosts) ← compileEndpointRules spec;
    options ← compileProviderOptions (Options spec);
    Ok (mkCompiled provider models (EndpointPolicy spec) schemes hosts (SecretRefPolicy spec) options).

Fixpoint add_providers (catalog : ProviderCatalog) (specs : list ProviderSpec) : result error ProviderCatalog :=
  match specs with
  | [] => Ok catalog
  | spec :: specs' =>
      compiled ← compileProviderSpec spec;
      if opt_is_nil (catalog !! provider compiled)
      then add_providers (<[provider compiled := compiled]> catalog) specs'
      else Err ErrInvalid
  end.
Definition NewProviderCatalog (specs : list ProviderSpec) : result error ProviderCatalog :=
  match specs with [] => Err ErrInvalid | _ => add_providers ∅ specs end.

(** * Normalizing a configuration *)

Definition normalizeSecretRef (secretRef policy : string) : result error string :=
  let secretRef := trim_space secretRef in
  if (secretRef =? "")%string then
    if (policy =? FieldRequired)%string then Err ErrInvalid else Ok ""%string
  else if (policy =? FieldForbidden)%string || (maxSecretRefLen <? rune_count secretRef)
    || hasControl secretRef || hasSpace secretRef then Err ErrInvalid
  else Ok secretRef.

Fixpoint normalize_entries (entries : list (string * string)) (specs : gmap string OptionSpec)
    (normalized : gmap string string) : result error (gmap string string) :=
  match entries with
  | [] => Ok normalized
  | (rawKey, rawValue) :: entries' =>
      let key := to_lower (trim_space rawKey) in
      if (key =? "")%string || negb (validOptionKey key) || sensitiveOptionKey key
        || negb (key =? rawKey)%string then Err ErrInvalid
      else if negb (opt_is_nil (normalized !! key)) then Err ErrInvalid
      else match specs !! key with
      | None => Err ErrInvalid
      | Some spec =>
          value ← normalizeOptionValue rawValue spec;
          normalize_entries entries' specs (<[key := value]> normalized)
      end
  end.
Fixpoint fill_defaults (specs : list (string * OptionSpec)) (normalized : gmap string string)
    : result error (gmap string string) :=
  match specs with
  | [] => Ok normalized
  | (key, spec) :: specs' =>
      if negb (opt_is_nil (normalized !! key)) then fill_defaults specs' normalized
      else match DefaultValue spec with
      | Some d => fill_defaults specs' (<[key := d]> normalized)
      | None => if Required spec then Err ErrInvalid else fill_defaults specs' normalized
      end
  end.
Definition normalizeOptions (options : gmap string string) (specs : gmap string OptionSpec)
    : result error (gmap string string) :=
  normalized ← normalize_entries (map_to_list options) specs ∅;
  fill_defaults (map_to_list specs) normalized.

Definition bad_float (hi : Z) (x : spec_float) : bool :=
  is_nan x || is_inf x || SFltb x (S754_zero false) || SFltb (f64 hi) x.
Definition opt_float (p : spec_float → bool) (o : option spec_float) : bool :=
  match o with Some x => p x | None => false end.
Definition normalizeGeneration (generation : GenerationConfig) : result error GenerationConfig :=
  if opt_float (bad_float 2) (Temperature generation) then Err ErrInvalid
  else if opt_float (bad_float 1) (TopP generation) then Err ErrInvalid
  else if opt_test (λ n, (n <=? 0) || (1000000 <? n)) (MaxOutputTokens generation) then Err ErrInvalid
  else Ok generation.

Definition NormalizeConfiguration (catalog : option ProviderCatalog) (configuration : Configuration)
    : result error Configuration :=
  match catalog with
  | None => Err ErrInvalid
  | Some c =>
      if bool_decide (c = ∅) then Err ErrInvalid
      else
        let provider := to_lower (trim_space (c_Provider configuration)) in
        match c !! provider with
        | None => Err ErrInvalid
        | Some spec =>
            let modelName := to_lower (trim_space (c_Model configuration)) in
            _ ← guard_ok (bool_decide (modelName ∈ models spec)) ErrInvalid;
            endpoint ← normalizeEndpoint (c_Endpoint configuration) (endpointPolicy spec)
              (endpointSchemes spec) (endpointHosts spec);
            secretRef ← normalizeSecretRef (c_SecretRef configuration) (secretRefPolicy spec);
            options ← normalizeOptions (c_Options configuration) (options spec);
            generation ← normalizeGeneration (c_Generation configuration);
            Ok (mkConfiguration provider modelName endpoint options secretRef generation)
        end
  end.

(** * The content digest *)

Definition float_member (name : string) (x : option spec_float) : option (list (string * string)) :=
  match x with
  | None => Some []
  | Some v => text ← json_float v; Some [(name, text)]
  end.
Definition json_generation (g : GenerationConfig) : option string :=
  temperature ← float_member "temperature" (Temperature g);
  top_p ← float_member "top_p" (TopP g);
  Some (json_object (temperature ++ top_p
    ++ match MaxOutputTokens g with Some n => [("max_output_tokens"%string, itoa n)] | None => [] end)).

(** Keys of an encoded map are sorted. *)
Definition entry_le (x y : string * string) : Prop := String.le x.1 y.1.
#[export] Instance entry_le_dec : RelDecision entry_le.
Proof. intros x y. unfold entry_le. apply _. Defined.
Definition json_options (options : gmap string string) : list (string * string) :=
  match merge_sort entry_le (map_to_list options) with
  | [] => []
  | entries => [("options"%string, json_object ((λ e, (e.1, json_string e.2)) <$> entries))]
  end.

Definition json_configuration (c : Configuration) : option string :=
  generation ← json_generation (c_Generation c);
  Some (json_object ([("provider", json_string (c_Provider c)); ("model", json_string (c_Model c))]%string
    ++ omitempty "endpoint" (c_Endpoint c) ++ json_options (c_Options c)
    ++ omitempty "secret_ref" (c_SecretRef c) ++ [("generation"%string, generation)])).

(** An encoding error leaves no bytes to hash. *)
Definition contentDigest (schemaVersion : Z) (configuration : Configuration) : string :=
  sha256_hex match json_configuration configuration with
    | Some text => json_object [("schema_version", itoa schemaVersion); ("configuration", text)]%string
    | None => ""%string
    end.

Definition normalizeConfiguration (schemaVersion : Z) (configuration : Configuration)
    (catalog : option ProviderCatalog) : result error (Configuration * string) :=
  if negb (schemaVersion =? SchemaVersionV1) then Err ErrInvalid
  else
    normalized ← NormalizeConfiguration catalog configuration;
    Ok (normalized, contentDigest schemaVersion normalized).

Definition sameFloat64 (left right : option spec_float) : bool :=
  match left, right with
  | Some x, Some y => SFeqb x y
  | None, None => true
  | _, _ => false
  end.
Definition sameInt (left right : option Z) : bool :=
  match left, right with
  | Some x, Some y => x =? y
  | None, None => true
  | _, _ => false
  end.
Definition generationEqual (left right : GenerationConfig) : bool :=
  sameFloat64 (Temperature left) (Temperature right) && sameFloat64 (TopP left) (TopP right)
  && sameInt (MaxOutputTokens left) (MaxOutputTokens right).

(** A missing key of the right map reads as the empty string. *)
Definition configurationEqual (left right : Configuration) : bool :=
  (c_Provider left =? c_Provider right)%string && (c_Model left =? c_Model right)%string
  && (c_Endpoint left =? c_Endpoint right)%string && (c_SecretRef left =? c_SecretRef right)%string
  && generationEqual (c_Generation left) (c_Generation right)
  && (size (c_Options left) =? size (c_Options right))%nat
  && forallb (λ e, (default ""%string (c_Options right !! e.1) =? e.2)%string) (map_to_list (c_Options left)).

(** * Profiles *)

Definition normalizeMetadata (displayName description : string) : result error (string * string) :=
  let displayName := trim_space displayName in
  let description := trim_space description in
  let n := rune_count displayName in
  if (n <? 1) || (200 <? n) then Err ErrInvalid
  else if 2000 <? rune_count description then Err ErrInvalid
  else Ok (displayName, description).

Definition normalizeProfileKey (key : string) : result error string :=
  let key := to_lower (trim_space key) in
  if (len key <? 2) || (64 <? len key) then Err ErrInvalid
  else match bytes key with
  | [] => Err ErrInvalid
  | c0 :: rest =>
      if (c0 <? 97) || (122 <? c0) then Err ErrInvalid
      else if forallb key_byte rest then Ok key else Err ErrInvalid
  end.

Definition validateCrockfordID (id prefix : string) : result error unit :=
  let payload := trim_prefix id prefix in
  if (payload =? id)%string || negb (len payload =? 26) then Err ErrInvalid
  else match bytes payload with
  | [] => Err ErrInvalid
  | c :: _ =>
      if 55 <? c then Err ErrInvalid
      else if forallb crockford_rune (runes payload) then Ok () else Err ErrInvalid
  end.
Definition validateTenantID (id : string) : result error unit := validateCrockfordID id "t_".
Definition validateProfileID (id : string) : result error unit := validateCrockfordID id "mp_".

Definition newProfileID (ms : Z) (random : option (list Z)) : result error string :=
  match random with
  | None => Err ErrRandom
  | Some r => Ok ("mp_" ++ encode_digits 26 (set_bytes (clock_bytes 6 ms ++ r)))%string
  end.

Definition validStatus (status : string) : bool :=
  (status =? StatusActive)%string || (status =? StatusSuspended)%string || (status =? StatusDisabled)%string.

(** [now] is the answer of [time.Now] converted to UTC. *)
Definition NewProfile (ms : Z) (random : option (list Z)) (now : time) (input : CreateInput)
    (catalog : option ProviderCatalog) : result error Profile :=
  _ ← validateTenantID (ci_TenantID input);
  key ← normalizeProfileKey (ci_ProfileKey input);
  '(displayName, description) ← normalizeMetadata (ci_DisplayName input) (ci_Description input);
  let status := if (ci_Status input =? "")%string then StatusActive else ci_Status input in
  _ ← guard_ok ((status =? StatusActive)%string || (status =? StatusSuspended)%string) ErrInvalid;
  let schemaVersion := if ci_SchemaVersion input =? 0 then SchemaVersionV1 else ci_SchemaVersion input in
  '(configuration, digest) ← normalizeConfiguration schemaVersion (ci_Configuration input) catalog;
  id ← newProfileID ms random;
  let now := mkStamp now true in
  Ok (mkProfile (ci_TenantID input) id key displayName description status schemaVersion configuration
        digest 1 now now).

Definition Validate (p : Profile) (catalog : option ProviderCatalog) : result error unit :=
  _ ← validateTenantID (mp_TenantID p);
  _ ← validateProfileID (mp_ProfileID p);
  key ← normalizeProfileKey (mp_ProfileKey p);
  _ ← guard_ok (key =? mp_ProfileKey p)%string ErrInvalid;
  '(displayName, description) ← normalizeMetadata (mp_DisplayName p) (mp_Description p);
  _ ← guard_ok ((displayName =? mp_DisplayName p)%string && (description =? mp_Description p)%string) ErrInvalid;
  _ ← guard_ok (validStatus (mp_Status p)) ErrInvalid;
  '(configuration, digest) ← normalizeConfiguration (mp_SchemaVersion p) (mp_Configuration p) catalog;
  _ ← guard_ok (configurationEqual configuration (mp_Configuration p)) ErrInvalid;
  _ ← guard_ok (mp_ContentDigest p =? digest)%string ErrInvalid;
  guard_ok (negb ((mp_Version p <? 1) || stamp_zero (mp_CreatedAt p) || stamp_zero (mp_UpdatedAt p)
    || stamp_before (mp_UpdatedAt p) (mp_CreatedAt p)
    || negb (utc (mp_CreatedAt p)) || negb (utc (mp_UpdatedAt p)))) ErrInvalid.

Definition CanAcceptExecution (p : Profile) : bool := (mp_Status p =? StatusActive)%string.

Definition CanTransitionTo (p : Profile) (next : string) : bool :=
  if (mp_Status p =? StatusActive)%string
    then (next =? StatusSuspended)%string || (next =? StatusDisabled)%string
  else if (mp_Status p =? StatusSuspended)%string
    then (next =? StatusActive)%string || (next =? StatusDisabled)%string
  else false.

#[global] Arguments normalizeConfiguration : simpl never.
#[global] Arguments NormalizeConfiguration : simpl never.
#[global] Arguments normalizeEndpoint : simpl never.
#[global] Arguments contentDigest : simpl never.
#[global] Arguments Validate : simpl never.
#[global] Arguments validateCrockfordID : simpl never.
#[global] Arguments normalizeProfileKey : simpl never.
#[global] Arguments normalizeMetadata : simpl never.
#[global] Arguments newProfileID : simpl never.

(** * Endpoints are read back *)

Lemma model_validDNSHostname_name h :
  validDNSHostname h = true → all_bytes name_char (trim_suffix_byte h 46) = true.
Proof.
  unfold validDNSHostname. destruct (_ || _); [done|]. destruct (_ =? "")%string; [done|].
  rewrite forallb_forall. intros H. apply labels_name. intros part Hp%list_elem_of_In.
  specialize (H part Hp). unfold valid_label in H. bool_prop. by split_and!.
Qed.

(** Whatever the host was written like, the canonical authority reads back as itself. *)
Lemma model_normalizeEndpointAuthority_good u v :
  normalizeEndpointAuthority u = Ok v → ∃ h, v = with_host u h ∧ good_host h.
Proof.
  unfold normalizeEndpointAuthority. destruct (_ && _ && _); [done|]. go_unfold.
  destruct (if (Port u =? "")%string then _ else _) as [port|] eqn:Eport; [|done].
  assert (all_bytes is_digit port = true) as Hport.
  { destruct (Port u =? "")%string; simplify_eq; [done|]. destruct (ParseUint16 _) as [n|] eqn:En; [|done].
    apply ParseUint16_digits in En as [? _]. destruct (n =? 0); by simplify_eq. }
  destruct (ParseIP (Hostname u)) as [ip|] eqn:Eip.
  - pose proof (IP_String_address ip) as Hip.
    assert (good_host (JoinHostPort (IP_String ip) port)) as Hjoin.
    { pose proof (good_join (IP_String ip) None port Hip I Hport) as Hj. cbn [zone_text] in Hj.
      rewrite string_app_nil_r in Hj. by apply Hj. }
    destruct (has_byte 58 (Hostname u)) eqn:Ec; destruct (port =? "")%string; intros [= <-]; eexists;
      (split; [done|]); try done.
    + by apply (good_bracketed _ None None).
    + apply good_name. by eapply ParseIP_dotted.
  - destruct (validDNSHostname (Hostname u)) eqn:Ed; [|done]. cbn [negb].
    apply model_validDNSHostname_name, lower_name in Ed.
    destruct (port =? "")%string; intros [= <-]; eexists; (split; [done|]); [by apply good_name|].
    unfold JoinHostPort. rewrite (all_bytes_absent name_char 58) by done. by apply good_name_port.
Qed.

Lemma parseEndpoint_spec endpoint schemes u :
  parseEndpoint endpoint schemes = Ok u →
  bare u ∧ canonical_scheme (Scheme u) = true ∧ Scheme u ∈ schemes ∧ path_shape u.
Proof.
  unfold parseEndpoint. destruct (_ || _); [done|]. destruct (url_Parse endpoint) as [p|] eqn:Ep; [|done].
  destruct (_ || _) eqn:Ebad; [done|]. destruct (hasControl _); [done|]. cbv zeta.
  case_bool_decide as Hin; [|done]. intros [= <-].
  repeat match goal with H : (_ || _)%bool = false |- _ => apply orb_false_iff in H as [H ?] end. bool_prop.
  apply url_Parse_network in Ep as [Hs Hp]; [|done..]. cbn in *. rewrite canonical_scheme_lower in * by done.
  split_and!; [|done..]. unfold bare. cbn. split_and!; try done. by destruct (User p).
Qed.

(** What an accepted endpoint denotes: a URL of an allowed scheme and host, without user
    information, query and fragment. *)
Definition endpoint_allowed (schemes hosts : gset string) (endpoint : string) : Prop :=
  len endpoint ≤ maxEndpointLen
  ∧ ∃ u host, url_Parse endpoint = Some u ∧ bare u ∧ Scheme u ∈ schemes
    ∧ normalizeEndpointHost (Hostname u) = Ok host ∧ host ∈ hosts.

Lemma model_normalizeEndpoint_allowed e policy schemes hosts c :
  normalizeEndpoint e policy schemes hosts = Ok c →
  c = ""%string ∧ policy ≠ FieldRequired
  ∨ c ≠ ""%string ∧ policy ≠ FieldForbidden ∧ endpoint_allowed schemes hosts c.
Proof.
  unfold normalizeEndpoint. cbv zeta. destruct (trim_space e =? "")%string.
  { destruct (String.eqb_spec policy FieldRequired); [done|]. intros [= <-]. by left. }
  destruct (String.eqb_spec policy FieldForbidden); [done|]. go_unfold.
  destruct (parseEndpoint _ _) as [u|] eqn:Eu; [|done]. apply parseEndpoint_spec in Eu as (Hb & Hs & Hin & Hp).
  destruct (normalizeEndpointAuthority u) as [v|] eqn:Ev; [|done].
  apply model_normalizeEndpointAuthority_good in Ev as (h & -> & Hat & Hph).
  destruct (normalizeEndpointHost _) as [host|] eqn:Ehost; [|done].
  case_bool_decide as Hhost; [|done]. destruct (maxEndpointLen <? _) eqn:Elen; [done|]. intros [= <-].
  assert (h ≠ ""%string) as Hne.
  { intros ->. vm_compute in Ehost. done. }
  assert (Scheme u ≠ ""%string) as Hse by (intros E; by rewrite E in Hs).
  right. split.
  - rewrite url_String_bare by done. change (Scheme (with_host u h)) with (Scheme u). by destruct (Scheme u).
  - split; [done|]. split; [bool_prop; lia|].
    destruct (url_String_Parse (with_host u h)) as (w & Hw & Hbw & Hsw & Hhw & _); [done..|].
    exists w, host. unfold Hostname in *. rewrite Hsw, Hhw. by split_and!.
Qed.

(** * Options *)

(** A value of the kind its schema declares. *)
Definition option_typed (spec : OptionSpec) (value : string) : Prop :=
  (Kind spec = OptionString ∧ trim_space value = value ∧ rune_count value ≤ maxOptionLen
     ∧ hasControl value = false)
  ∨ (Kind spec = OptionBoolean ∧ (value = "true"%string ∨ value = "false"%string))
  ∨ (Kind spec = OptionInteger ∧ ∃ z, value = itoa z ∧ int64_min ≤ z ≤ int64_max
     ∧ opt_test (λ lo, z <? lo) (MinInteger spec) = false ∧ opt_test (λ hi, hi <? z) (MaxInteger spec) = false)
  ∨ (Kind spec = OptionEnum ∧ value ∈ AllowedValues spec).

Lemma model_normalizeOptionValue_typed v spec w : normalizeOptionValue v spec = Ok w → option_typed spec w.
Proof.
  unfold normalizeOptionValue, option_typed. cbv zeta. destruct (_ || hasControl _) eqn:E; [done|]. bool_prop.
  destruct (String.eqb_spec (Kind spec) OptionString).
  { intros [= <-]. left. split_and!; [done|apply trim_space_idem|lia|done]. }
  destruct (String.eqb_spec (Kind spec) OptionBoolean).
  { destruct (ParseBool _) as [[]|]; intros [= <-]; right; left; split; auto. }
  destruct (String.eqb_spec (Kind spec) OptionInteger).
  { destruct (ParseInt64 _) as [z|] eqn:Ez; [|done]. destruct (opt_test _ _ || _) eqn:Eb; [done|].
    intros [= <-]. bool_prop. right; right; left. split; [done|]. exists z.
    apply ParseInt64_range in Ez. split_and!; try done; lia. }
  destruct (String.eqb_spec (Kind spec) OptionEnum); [|done].
  destruct (in_list _ _) eqn:Ei; [|done]. intros [= <-]. right; right; right. by rewrite <- in_list_elem.
Qed.

(** A compiled schema declares no sensitive key, and its defaults are of the declared kinds. *)
Definition schema_ok (specs : gmap string OptionSpec) : Prop :=
  map_Forall (λ key spec, sensitiveOptionKey key = false
    ∧ (∀ d, DefaultValue spec = Some d → option_typed spec d)
    ∧ (Required spec = true → DefaultValue spec = None)) specs.

Lemma model_compileOptionSpec_ok spec compiled :
  compileOptionSpec spec = Ok compiled →
  (∀ d, DefaultValue compiled = Some d → option_typed compiled d)
  ∧ (Required compiled = true → DefaultValue compiled = None).
Proof.
  unfold compileOptionSpec. go_unfold. destruct (in_list _ _); [|done].
  destruct (Required spec && _) eqn:Er; [done|]. cbn [negb].
  destruct (validateOptionBounds spec) as [[]|]; [|done].
  destruct (if (Kind spec =? OptionEnum)%string then _ else _) as [values|]; [|done].
  unfold normalizeOptionDefault. go_unfold. cbn. destruct (DefaultValue spec) as [d|].
  - destruct (normalizeOptionValue d _) as [w|] eqn:Ew; [|done]. intros [= <-]. cbn. split.
    + intros ? [= <-]. apply model_normalizeOptionValue_typed in Ew. exact Ew.
    + cbn in Er. rewrite andb_true_r in Er. congruence.
  - intros [= <-]. done.
Qed.

Lemma model_compile_options_ok entries specs : compile_options entries = Ok specs → schema_ok specs.
Proof.
  revert specs. induction entries as [|[key option] entries IH]; intros specs; cbn [compile_options].
  { intros [= <-]. apply map_Forall_empty. }
  destruct (_ || sensitiveOptionKey _) eqn:E; [done|]. go_unfold.
  destruct (compileOptionSpec option) as [compiled|] eqn:Ec; [|done].
  destruct (compile_options entries) as [rest|]; [|done]. intros [= <-]. bool_prop.
  apply map_Forall_insert_at; [by apply IH|]. apply model_compileOptionSpec_ok in Ec as [? ?]. by split_and!.
Qed.

(** The checks and the normalization of one given option. *)
Definition option_entry (specs : gmap string OptionSpec) (key value : string) : result error string :=
  if (key =? "")%string || negb (validOptionKey key) || sensitiveOptionKey key
    || negb (to_lower (trim_space key) =? key)%string then Err ErrInvalid
  else match specs !! key with None => Err ErrInvalid | Some spec => normalizeOptionValue value spec end.

Lemma model_normalize_entries_loop entries specs m m' :
  normalize_entries entries specs m = Ok m' → entries_loop (option_entry specs) entries m = Ok m'.
Proof.
  revert m. induction entries as [|[key v] entries IH]; intros m; cbn [normalize_entries entries_loop]; [done|].
  unfold option_entry. destruct (_ || negb (_ =? key)%string) eqn:E; [done|].
  apply orb_false_iff in E as [E Hkey]. apply negb_false_iff, String.eqb_eq in Hkey. rewrite Hkey in *.
  rewrite E, String.eqb_refl. cbn [negb orb]. destruct (negb (opt_is_nil _)); [done|]. go_unfold.
  destruct (specs !! key) as [spec|]; [|done]. destruct (normalizeOptionValue v spec); [|done]. apply IH.
Qed.

Lemma normalizeOptions_loops o specs m :
  normalizeOptions o specs = Ok m →
  ∃ m1, entries_loop (option_entry specs) (map_to_list o) ∅ = Ok m1
    ∧ defaults_loop ErrInvalid DefaultValue Required (map_to_list specs) m1 = Ok m.
Proof.
  unfold normalizeOptions. go_unfold. destruct (normalize_entries _ specs ∅) as [m1|] eqn:E1; [|done].
  intros E2. exists m1. split; [by apply model_normalize_entries_loop|exact E2].
Qed.

(** * Typed configurations *)

Definition catalog_ok (catalog : ProviderCatalog) : Prop :=
  map_Forall (λ name spec, provider spec = name ∧ validName name = true ∧ ""%string ∉ models spec
    ∧ schema_ok (options spec)) catalog.

(** What holds of every accepted name holds of the names of a compiled list. *)
Lemma compile_names_all (P : string → Prop) valid seen values names :
  (∀ v n, valid v = Ok n → P n) → (∀ n, n ∈ seen → P n) →
  compile_names valid seen values = Ok names → ∀ n, n ∈ names → P n.
Proof.
  intros Hv. revert seen. induction values as [|v values IH]; intros seen Hseen; cbn [compile_names].
  { by intros [= <-]. }
  go_unfold. destruct (valid v) as [m|] eqn:Ev; [|done]. case_bool_decide; [done|]. apply IH.
  intros n [->%elem_of_singleton|?]%elem_of_union; [by eapply Hv|by apply Hseen].
Qed.

Lemma compileProviderModels_named values names : compileProviderModels values = Ok names → ""%string ∉ names.
Proof.
  unfold compileProviderModels. destruct values as [|v values]; [done|]. intros H Hin.
  eapply (compile_names_all (λ n, n ≠ ""%string)) in H; [by apply H| |by intros ? ?%elem_of_empty|exact Hin].
  intros x n. unfold model_name. cbv zeta. destruct (_ || _) eqn:E; [done|]. intros [= <-]. by bool_prop.
Qed.

Lemma model_compileProviderSpec_ok spec compiled :
  compileProviderSpec spec = Ok compiled →
  validName (provider compiled) = true ∧ ""%string ∉ models compiled ∧ schema_ok (options compiled).
Proof.
  unfold compileProviderSpec. cbv zeta. destruct (_ || _) eqn:E; [done|]. go_unfold.
  destruct (compileProviderModels _) as [names|] eqn:Em; [|done]. apply compileProviderModels_named in Em. destruct (compileEndpointRules _) as [[schemes hosts]|]; [|done].
  destruct (compileProviderOptions _) as [os|] eqn:Eo; [|done]. intros [= <-]. bool_prop.
  split; [done|]. split; [done|]. by eapply model_compile_options_ok.
Qed.

Lemma model_NewProviderCatalog_ok specs catalog : NewProviderCatalog specs = Ok catalog → catalog_ok catalog.
Proof.
  assert (∀ specs c, catalog_ok c → add_providers c specs = Ok catalog → catalog_ok catalog) as Hadd.
  { clear specs. induction specs as [|spec specs IH]; intros c Hc; cbn [add_providers]; [by intros [= <-]|].
    go_unfold. destruct (compileProviderSpec spec) as [compiled|] eqn:Ec; [|done].
    destruct (opt_is_nil _); [|done]. apply IH. apply map_Forall_insert_at; [done|].
    by apply model_compileProviderSpec_ok in Ec as (? & ? & ?). }
  unfold NewProviderCatalog. destruct specs as [|spec specs]; [done|]. apply Hadd, map_Forall_empty.
Qed.

Definition secret_typed (policy secretRef : string) : Prop :=
  secretRef = ""%string ∧ policy ≠ FieldRequired
  ∨ secretRef ≠ ""%string ∧ policy ≠ FieldForbidden ∧ rune_count secretRef ≤ maxSecretRefLen
    ∧ hasControl secretRef = false ∧ hasSpace secretRef = false.

Definition endpoint_typed (spec : compiledProviderSpec) (endpoint : string) : Prop :=
  endpoint = ""%string ∧ endpointPolicy spec ≠ FieldRequired
  ∨ endpoint ≠ ""%string ∧ endpointPolicy spec ≠ FieldForbidden
    ∧ endpoint_allowed (endpointSchemes spec) (endpointHosts spec) endpoint.

Definition options_typed (specs : gmap string OptionSpec) (m : gmap string string) : Prop :=
  (∀ k v, m !! k = Some v →
     sensitiveOptionKey k = false ∧ ∃ spec, specs !! k = Some spec ∧ option_typed spec v)
  ∧ (∀ k spec, specs !! k = Some spec → Required spec = true → is_Some (m !! k)).

Definition generation_typed (g : GenerationConfig) : Prop :=
  (∀ t, Temperature g = Some t → bad_float 2 t = false) ∧ (∀ p, TopP g = Some p → bad_float 1 p = false)
  ∧ (∀ n, MaxOutputTokens g = Some n → 1 ≤ n ≤ 1000000).

(** A configuration that conforms to the schema of its provider. *)
Definition configuration_typed (catalog : ProviderCatalog) (c : Configuration) : Prop :=
  (∃ spec, catalog !! c_Provider c = Some spec ∧ provider spec = c_Provider c ∧ c_Model c ∈ models spec
     ∧ endpoint_typed spec (c_Endpoint c) ∧ secret_typed (secretRefPolicy spec) (c_SecretRef c)
     ∧ options_typed (options spec) (c_Options c))
  ∧ generation_typed (c_Generation c).

Lemma normalizeOptions_typed o specs m :
  schema_ok specs → normalizeOptions o specs = Ok m → options_typed specs m.
Proof.
  intros Hs (m1 & E1 & E2)%normalizeOptions_loops.
  destruct (option_loops_lookup _ _ _ _ _ _ _ _ E1 E2) as (Hl & _ & Hr). split; [|exact Hr].
  intros k v. rewrite Hl. destruct (o !! k) as [raw|] eqn:Ek.
  - unfold accepted_entry, option_entry. destruct (_ || _ || _ || _); [done|]. destruct (specs !! k) as [spec|] eqn:Es; [|done].
    destruct (normalizeOptionValue raw spec) as [w|] eqn:Ew; [|done]. intros [= <-].
    destruct (Hs k spec Es) as [? _]. split; [done|]. exists spec. split; [done|]. by eapply model_normalizeOptionValue_typed.
  - destruct (specs !! k) as [spec|] eqn:Es; [|done]. cbn. intros Hd.
    destruct (Hs k spec Es) as (? & Hdef & _). split; [done|]. exists spec. auto.
Qed.

Lemma model_normalizeSecretRef_typed s policy t : normalizeSecretRef s policy = Ok t → secret_typed policy t.
Proof.
  unfold normalizeSecretRef, secret_typed. cbv zeta. destruct (String.eqb_spec (trim_space s) "").
  { destruct (String.eqb_spec policy FieldRequired); [done|]. intros [= <-]. by left. }
  destruct (_ || hasSpace _) eqn:E; [done|]. intros [= <-]. bool_prop. right. split_and!; [done..|lia|done|done].
Qed.

Lemma normalizeGeneration_typed g h : normalizeGeneration g = Ok h → h = g ∧ generation_typed h.
Proof.
  unfold normalizeGeneration. destruct (opt_float _ (Temperature g)) eqn:Et; [done|].
  destruct (opt_float _ (TopP g)) eqn:Ep; [done|]. destruct (opt_test _ _) eqn:En; [done|]. intros [= <-].
  split; [done|]. unfold generation_typed. split_and!.
  - intros t Ht. by rewrite Ht in Et.
  - intros p Hp. by rewrite Hp in Ep.
  - intros n Hn. rewrite Hn in En. cbn in En. bool_prop. lia.
Qed.

Lemma NormalizeConfiguration_typed catalog c c' :
  catalog_ok catalog → NormalizeConfiguration (Some catalog) c = Ok c' → configuration_typed catalog c'.
Proof.
  intros Hc. unfold NormalizeConfiguration. case_bool_decide; [done|]. cbv zeta.
  destruct (catalog !! _) as [spec|] eqn:Es; [|done]. go_unfold. case_bool_decide as Hm; [|done].
  destruct (normalizeEndpoint _ _ _ _) as [e|] eqn:Ee; [|done].
  destruct (normalizeSecretRef _ _) as [s|] eqn:Er; [|done].
  destruct (normalizeOptions _ _) as [o|] eqn:Eo; [|done].
  destruct (normalizeGeneration _) as [g|] eqn:Eg; [|done]. intros [= <-].
  destruct (Hc _ _ Es) as (? & _ & _ & Hs). apply normalizeGeneration_typed in Eg as [_ ?]. split; [|done].
  exists spec. cbn. split_and!; [done..| | |].
  - by eapply model_normalizeEndpoint_allowed.
  - by eapply model_normalizeSecretRef_typed.
  - by eapply normalizeOptions_typed.
Qed.

(** C20: every configuration that normalization accepts conforms to the schema of a registered
    provider: the model is one of its models, the endpoint is absent where none is required or
    denotes a URL of an allowed scheme and host that carries no credentials, query or fragment,
    the secret reference follows its policy, every option is declared, not sensitive and of its
    declared kind, required options are present, and the generation parameters are in range. *)
Theorem normalized_configuration_typed specs catalog c c' :
  NewProviderCatalog specs = Ok catalog → NormalizeConfiguration (Some catalog) c = Ok c' →
  configuration_typed catalog c'.
Proof. intros Hc. apply NormalizeConfiguration_typed. by eapply model_NewProviderCatalog_ok. Qed.

(** * Valid profiles *)

Lemma options_equal o specs m :
  normalizeOptions o specs = Ok m → size m = size o →
  forallb (λ e, (default ""%string (o !! e.1) =? e.2)%string) (map_to_list m) = true → m = o.
Proof.
  intros (m1 & E1 & E2)%normalizeOptions_loops Hsize Hall.
  eapply option_loops_equal; [exact E1|exact E2|done|]. intros k v Hk [w Hw].
  rewrite forallb_forall in Hall. specialize (Hall (k, v)). cbn [fst snd] in Hall. rewrite Hw in Hall |- *.
  f_equal. apply String.eqb_eq, Hall, list_elem_of_In. by apply elem_of_map_to_list.
Qed.

Lemma configurationEqual_fix catalog c c' :
  NormalizeConfiguration catalog c = Ok c' → configurationEqual c' c = true → c' = c.
Proof.
  unfold NormalizeConfiguration. destruct catalog as [cat|]; [|done]. case_bool_decide; [done|]. cbv zeta.
  destruct (cat !! _) as [spec|] eqn:Es; [|done]. go_unfold. case_bool_decide as Hm; [|done].
  destruct (normalizeEndpoint _ _ _ _) as [e|] eqn:Ee; [|done].
  destruct (normalizeSecretRef _ _) as [s|] eqn:Er; [|done].
  destruct (normalizeOptions _ _) as [o|] eqn:Eo; [|done].
  destruct (normalizeGeneration _) as [g|] eqn:Eg; [|done].
  apply normalizeGeneration_typed in Eg as [-> _]. intros [= <-]. unfold configurationEqual.
  cbn [c_Provider c_Model c_Endpoint c_Options c_SecretRef c_Generation]. intros Hall. bool_prop.
  assert (o = c_Options c) as -> by (eapply options_equal; [done|by apply Nat.eqb_eq|done]).
  destruct c. cbn [c_Provider c_Model c_Endpoint c_Options c_SecretRef c_Generation] in *. by f_equal.
Qed.

(** What validation establishes: identities and names are in normal form, and the stored
    configuration is a fixed point of normalization with its own digest. *)
Record valid_profile (catalog : option ProviderCatalog) (p : Profile) : Prop := {
  vp_tenant : validateTenantID (mp_TenantID p) = Ok ();
  vp_id : validateProfileID (mp_ProfileID p) = Ok ();
  vp_key : normalizeProfileKey (mp_ProfileKey p) = Ok (mp_ProfileKey p);
  vp_metadata : normalizeMetadata (mp_DisplayName p) (mp_Description p) = Ok (mp_DisplayName p, mp_Description p);
  vp_status : validStatus (mp_Status p) = true;
  vp_schema : mp_SchemaVersion p = SchemaVersionV1;
  vp_configuration : NormalizeConfiguration catalog (mp_Configuration p) = Ok (mp_Configuration p);
  vp_digest : mp_ContentDigest p = contentDigest SchemaVersionV1 (mp_Configuration p);
  vp_version : 1 ≤ mp_Version p;
  vp_times : instant (mp_CreatedAt p) ≤ instant (mp_UpdatedAt p) ∧ instant (mp_CreatedAt p) ≠ 0
    ∧ utc (mp_CreatedAt p) = true ∧ utc (mp_UpdatedAt p) = true
}.

Lemma model_normalizeConfiguration_Ok v c catalog c' d :
  normalizeConfiguration v c catalog = Ok (c', d) →
  v = SchemaVersionV1 ∧ NormalizeConfiguration catalog c = Ok c' ∧ d = contentDigest v c'.
Proof.
  unfold normalizeConfiguration. destruct (Z.eqb_spec v SchemaVersionV1); [|done]. cbn [negb]. go_unfold.
  destruct (NormalizeConfiguration catalog c) as [x|]; [|done]. by intros [= <- <-].
Qed.

Lemma model_Validate_valid p catalog : Validate p catalog = Ok () → valid_profile catalog p.
Proof.
  unfold Validate. go_unfold.
  destruct (validateTenantID _) as [[]|] eqn:Et; [|done]. destruct (validateProfileID _) as [[]|] eqn:Ei; [|done].
  destruct (normalizeProfileKey _) as [key|] eqn:Ek; [|done]. destruct (String.eqb_spec key (mp_ProfileKey p)); [|done].
  destruct (normalizeMetadata _ _) as [[dn de]|] eqn:Em; [|done].
  destruct ((dn =? _)%string && _) eqn:Emd; [|done]. destruct (validStatus _) eqn:Es; [|done].
  destruct (normalizeConfiguration _ _ _) as [[c d]|] eqn:Ec; [|done].
  apply model_normalizeConfiguration_Ok in Ec as (Hv & Hc & ->). destruct (configurationEqual _ _) eqn:Eeq; [|done].
  apply (configurationEqual_fix _ _ _ Hc) in Eeq as ->.
  destruct (String.eqb_spec (mp_ContentDigest p) (contentDigest (mp_SchemaVersion p) (mp_Configuration p))); [|done].
  destruct (_ || _) eqn:Elast; [done|]. intros _. unfold stamp_zero, stamp_before, is_zero, before in Elast.
  bool_prop. subst. constructor; try done; try congruence; try lia.
Qed.

Lemma model_valid_profile_typed catalog p :
  catalog_ok catalog → valid_profile (Some catalog) p → configuration_typed catalog (mp_Configuration p).
Proof. intros Hc []. by eapply NormalizeConfiguration_typed. Qed.

(** A configuration in normal form can be handed to a factory: it names a provider and a
    model, and its secret reference and generation parameters are accepted again. *)
Lemma normal_configuration_complete catalog c :
  catalog_ok catalog → NormalizeConfiguration (Some catalog) c = Ok c →
  c_Provider c ≠ ""%string ∧ c_Model c ≠ ""%string
  ∧ (c_SecretRef c ≠ ""%string → normalizeSecretRef (c_SecretRef c) FieldRequired = Ok (c_SecretRef c))
  ∧ normalizeGeneration (c_Generation c) = Ok (c_Generation c).
Proof.
  intros Hc. unfold NormalizeConfiguration. case_bool_decide; [done|]. cbv zeta.
  destruct (catalog !! _) as [spec|] eqn:Es; [|done]. go_unfold. case_bool_decide as Hm; [|done].
  destruct (normalizeEndpoint _ _ _ _) as [e|] eqn:Ee; [|done].
  destruct (normalizeSecretRef _ _) as [s|] eqn:Er; [|done].
  destruct (normalizeOptions _ _) as [o|] eqn:Eo; [|done].
  destruct (normalizeGeneration _) as [g|] eqn:Eg; [|done]. intros Heq.
  destruct (Hc _ _ Es) as (_ & Hname & Hmodels & _).
  assert (to_lower (trim_space (c_Provider c)) = c_Provider c ∧ to_lower (trim_space (c_Model c)) = c_Model c
    ∧ s = c_SecretRef c ∧ g = c_Generation c) as (Hp & Hmn & -> & ->) by (destruct c; by injection Heq).
  rewrite Hp in Hname. rewrite Hmn in Hm. split_and!; [| | |done].
  - intros E. by rewrite E in Hname.
  - intros E. by rewrite E in Hm.
  - intros Hne. unfold normalizeSecretRef in Er |- *. cbv zeta in *.
    destruct (trim_space (c_SecretRef c) =? "")%string eqn:Et.
    { destruct (_ =? FieldRequired)%string; congruence. }
    change (FieldRequired =? FieldForbidden)%string with false. cbn [orb].
    destruct (_ || _ || _ || _) eqn:Eb in Er; [done|]. bool_prop.
    repeat match goal with H : _ = false |- _ => rewrite H end. cbn [orb].
    rewrite (proj2 (Z.ltb_ge _ _)) by lia. done.
Qed.

Lemma model_CanTransitionTo_status p next :
  CanTransitionTo p next = true → mp_Status p ≠ StatusDisabled ∧ validStatus next = true.
Proof.
  unfold CanTransitionTo, validStatus. destruct (String.eqb_spec (mp_Status p) StatusActive) as [->|].
  { intros [->| ->]%orb_true_iff; by rewrite ?orb_true_r. }
  destruct (String.eqb_spec (mp_Status p) StatusSuspended) as [->|]; [|done].
  intros [->| ->]%orb_true_iff; by rewrite ?orb_true_r.
Qed.
