(* ===== verification/ModelRepository.v ===== *)
(** The repository of model profiles: [trpcservice/model/repository.go] prepares validated
    changes with their events, [trpcservice/model/inmemory/inmemory.go] keeps the profiles.

    A method that takes the lock is one atomic action; [RWMutex.v] models the lock.  The catalog
    is fixed when the repository is built, so it is an argument of the operations. *)
From Stdlib Require Import Ascii String.
From Corelib Require Import SpecFloat.
From S2P Require Import Prelude GoStrings GoURL GoIP Tenant ModelProfile ProfileStore.
Local Open Scope Z_scope.

(** * Events *)

Definition EventCreated : string := "created".
Definition EventConfigurationUpdated : string := "configuration_updated".
Definition EventSuspended : string := "suspended".
Definition EventResumed : string := "resumed".
Definition EventDisabled : string := "disabled".

Record ChangeEvent := mkChangeEvent {
  EventType : string; ev_TenantID : string; ev_ProfileID : string; PreviousStatus : string;
  CurrentStatus : string; PreviousDigest : string; CurrentDigest : string;
  ev_Metadata : ChangeMetadata; PreviousVersion : Z; NextVersion : Z; OccurredAt : stamp }.

(** * Preparing changes *)

Definition normalizeChangeMetadata (metadata : ChangeMetadata) : result error ChangeMetadata :=
  let m := mkMetadata (trim_space (ActorType metadata)) (trim_space (ActorID metadata))
    (trim_space (Reason metadata)) (trim_space (CorrelationID metadata)) in
  if (ActorType m =? "")%string || (ActorID m =? "")%string || (Reason m =? "")%string
    || (CorrelationID m =? "")%string then Err ErrInvalid
  else if 1000 <? rune_count (Reason m) then Err ErrInvalid
  else Ok m.

Definition validateMutationTime (current : Profile) (occurredAt : stamp) : result error unit :=
  guard_ok (negb (stamp_zero occurredAt || negb (utc occurredAt)
    || stamp_before occurredAt (mp_CreatedAt current) || stamp_before occurredAt (mp_UpdatedAt current))) ErrInvalid.

Definition newChangeEvent (eventType : string) (p : Profile)
    (previousStatus currentStatus previousDigest currentDigest : string)
    (previousVersion nextVersion : Z) (occurredAt : stamp) (m : ChangeMetadata) : ChangeEvent :=
  mkChangeEvent eventType (mp_TenantID p) (mp_ProfileID p) previousStatus currentStatus
    previousDigest currentDigest m previousVersion nextVersion occurredAt.

Definition PrepareCreatedChange (p : Profile) (catalog : option ProviderCatalog) (metadata : ChangeMetadata)
    : result error ChangeEvent :=
  _ ← Validate p catalog;
  _ ← guard_ok ((mp_Status p =? StatusActive)%string || (mp_Status p =? StatusSuspended)%string) ErrInvalid;
  m ← normalizeChangeMetadata metadata;
  if negb (mp_Version p =? 1) || stamp_zero (mp_CreatedAt p) || negb (utc (mp_CreatedAt p))
    || negb (instant (mp_UpdatedAt p) =? instant (mp_CreatedAt p)) then Err ErrInvalid
  else Ok (newChangeEvent EventCreated p "" (mp_Status p) "" (mp_ContentDigest p) 0 (mp_Version p)
    (mp_CreatedAt p) m).

(** The checks that both changes of a stored profile start with. *)
Definition change_guards (current : Profile) (catalog : option ProviderCatalog)
    (tenantID profileID : string) (expected : Z) : result error unit :=
  _ ← guard_ok ((mp_TenantID current =? tenantID)%string && (mp_ProfileID current =? profileID)%string) ErrNotFound;
  _ ← Validate current catalog;
  _ ← guard_ok (negb (mp_Status current =? StatusDisabled)%string) ErrDisabled;
  guard_ok (expected =? mp_Version current) ErrConflict.

Definition PrepareConfigurationChange (current : Profile) (input : UpdateConfigurationInput)
    (catalog : option ProviderCatalog) (occurredAt : stamp) : result error (Profile * ChangeEvent) :=
  _ ← change_guards current catalog (ui_TenantID input) (ui_ProfileID input) (ui_ExpectedVersion input);
  m ← normalizeChangeMetadata (ui_Metadata input);
  '(displayName, description) ← normalizeMetadata (ui_DisplayName input) (ui_Description input);
  '(configuration, digest) ← normalizeConfiguration (ui_SchemaVersion input) (ui_Configuration input) catalog;
  _ ← validateMutationTime current occurredAt;
  let updated := mkProfile (mp_TenantID current) (mp_ProfileID current) (mp_ProfileKey current)
    displayName description (mp_Status current) (ui_SchemaVersion input) configuration digest
    (incr64 (mp_Version current)) (mp_CreatedAt current) occurredAt in
  _ ← Validate updated catalog;
  Ok (updated, newChangeEvent EventConfigurationUpdated updated (mp_Status current) (mp_Status updated)
    (mp_ContentDigest current) (mp_ContentDigest updated) (mp_Version current) (mp_Version updated)
    occurredAt m).

Definition status_event (next : string) : string :=
  if (next =? StatusActive)%string then EventResumed
  else if (next =? StatusDisabled)%string then EventDisabled
  else EventSuspended.

Definition PrepareStatusChange (current : Profile) (input : TransitionStatusInput)
    (catalog : option ProviderCatalog) (occurredAt : stamp) : result error (Profile * ChangeEvent) :=
  _ ← change_guards current catalog (ti_TenantID input) (ti_ProfileID input) (ti_ExpectedVersion input);
  _ ← guard_ok (CanTransitionTo current (ti_NextStatus input)) ErrInvalidTransition;
  m ← normalizeChangeMetadata (ti_Metadata input);
  _ ← validateMutationTime current occurredAt;
  let updated := mkProfile (mp_TenantID current) (mp_ProfileID current) (mp_ProfileKey current)
    (mp_DisplayName current) (mp_Description current) (ti_NextStatus input) (mp_SchemaVersion current)
    (mp_Configuration current) (mp_ContentDigest current) (incr64 (mp_Version current))
    (mp_CreatedAt current) occurredAt in
  _ ← Validate updated catalog;
  Ok (updated, newChangeEvent (status_event (ti_NextStatus input)) updated (mp_Status current)
    (mp_Status updated) (mp_ContentDigest current) (mp_ContentDigest updated) (mp_Version current)
    (mp_Version updated) occurredAt m).

(** * The in-memory repository *)

#[export] Instance model_aggregate : Aggregate Profile := {
  agg_tenant := mp_TenantID; agg_id := mp_ProfileID; agg_key := mp_ProfileKey;
  agg_version := mp_Version; agg_final := λ p, (mp_Status p =? StatusDisabled)%string }.

Definition InMemoryRepository : Type := store Profile.
Definition NewInMemoryRepository : InMemoryRepository := empty_store.

Definition checkContext (ctx : context) (i : nat) : result error unit :=
  match ctx with
  | None => Ok ()
  | Some c => match c i with Some e => Err (ErrContext e) | None => Ok () end
  end.

(** [now] is the answer of [time.Now]. *)
Definition nextTime (now : time) (previous : stamp) : stamp :=
  if after now (instant previous) then mkStamp now true
  else mkStamp (add_duration (instant previous) 1) (utc previous).

(** Taking the lock observes the context as well: observations 0, 1 and 2 come before the
    state is read, observation 3 before it is written. *)
Definition Create (catalog : option ProviderCatalog) (ctx : context) (ms : Z) (random : option (list Z))
    (now : time) (input : CreateInput) : act InMemoryRepository error (Profile * ChangeEvent) :=
  _ ← lift (checkContext ctx 0);
  p ← lift (NewProfile ms random now input catalog);
  event ← lift (PrepareCreatedChange p catalog (ci_Metadata input));
  _ ← lift (checkContext ctx 1);
  _ ← lift (checkContext ctx 2);
  r ← get;
  let idScope := (mp_TenantID p, mp_ProfileID p) in
  let keyScope := (mp_TenantID p, mp_ProfileKey p) in
  _ ← ensure (opt_is_nil (byID r !! idScope)) ErrDuplicateKey;
  _ ← ensure (opt_is_nil (byKey r !! keyScope)) ErrDuplicateKey;
  _ ← lift (checkContext ctx 3);
  _ ← put (mkStore (<[idScope := p]> (byID r)) (<[keyScope := mp_ProfileID p]> (byKey r)));
  mret (p, event).

Definition Get (ctx : context) (tenantID profileID : string) : act InMemoryRepository error Profile :=
  _ ← lift (checkContext ctx 0);
  _ ← lift (checkContext ctx 1);
  _ ← lift (checkContext ctx 2);
  r ← get;
  match byID r !! (tenantID, profileID) with
  | None => throw ErrNotFound
  | Some p => mret p
  end.

(** The common body of the two mutations of a stored profile. *)
Definition apply_change (ctx : context) (now : time) (sc : scope)
    (prepare : Profile → stamp → result error (Profile * ChangeEvent))
    : act InMemoryRepository error (Profile * ChangeEvent) :=
  _ ← lift (checkContext ctx 0);
  _ ← lift (checkContext ctx 1);
  _ ← lift (checkContext ctx 2);
  r ← get;
  match byID r !! sc with
  | None => throw ErrNotFound
  | Some current =>
      '(updated, event) ← lift (prepare current (nextTime now (mp_UpdatedAt current)));
      _ ← lift (checkContext ctx 3);
      _ ← put (mkStore (<[sc := updated]> (byID r)) (byKey r));
      mret (updated, event)
  end.

Definition UpdateConfiguration (catalog : option ProviderCatalog) (ctx : context) (now : time)
    (input : UpdateConfigurationInput) : act InMemoryRepository error (Profile * ChangeEvent) :=
  apply_change ctx now (ui_TenantID input, ui_ProfileID input)
    (λ current at_, PrepareConfigurationChange current input catalog at_).

Definition TransitionStatus (catalog : option ProviderCatalog) (ctx : context) (now : time)
    (input : TransitionStatusInput) : act InMemoryRepository error (Profile * ChangeEvent) :=
  apply_change ctx now (ti_TenantID input, ti_ProfileID input)
    (λ current at_, PrepareStatusChange current input catalog at_).

#[global] Arguments normalizeChangeMetadata : simpl never.

(** * What a prepared change keeps and advances *)

Record changed (catalog : option ProviderCatalog) (cur p : Profile) (ev : ChangeEvent) : Prop := {
  changed_before : Validate cur catalog = Ok ();
  changed_valid : Validate p catalog = Ok ();
  changed_scope : (mp_TenantID p, mp_ProfileID p) = (mp_TenantID cur, mp_ProfileID cur);
  changed_key : mp_ProfileKey p = mp_ProfileKey cur;
  changed_version : mp_Version p = incr64 (mp_Version cur);
  changed_live : mp_Status cur ≠ StatusDisabled;
  changed_event : (ev_TenantID ev, ev_ProfileID ev, PreviousStatus ev, CurrentStatus ev)
    = (mp_TenantID p, mp_ProfileID p, mp_Status cur, mp_Status p);
  changed_versions : (PreviousVersion ev, NextVersion ev, PreviousDigest ev, CurrentDigest ev, OccurredAt ev)
    = (mp_Version cur, mp_Version p, mp_ContentDigest cur, mp_ContentDigest p, mp_UpdatedAt p) }.

Lemma model_change_guards_Ok cur catalog t id v :
  change_guards cur catalog t id v = Ok () →
  mp_TenantID cur = t ∧ mp_ProfileID cur = id ∧ Validate cur catalog = Ok ()
  ∧ mp_Status cur ≠ StatusDisabled ∧ mp_Version cur = v.
Proof.
  unfold change_guards. go_unfold. destruct ((mp_TenantID cur =? t)%string && _) eqn:E; [|done]. bool_prop.
  destruct (Validate cur catalog) as [[]|]; [|done].
  destruct (String.eqb_spec (mp_Status cur) StatusDisabled); [done|].
  destruct (Z.eqb_spec v (mp_Version cur)); [|done]. done.
Qed.

Lemma model_PrepareConfigurationChange_spec cur input catalog at_ p ev :
  PrepareConfigurationChange cur input catalog at_ = Ok (p, ev) →
  changed catalog cur p ev ∧ mp_Status p = mp_Status cur ∧ mp_Version cur = ui_ExpectedVersion input.
Proof.
  unfold PrepareConfigurationChange. go_unfold.
  destruct (change_guards _ _ _ _ _) as [[]|] eqn:Hg; [|done].
  apply model_change_guards_Ok in Hg as (? & ? & ? & ? & ?).
  destruct (normalizeChangeMetadata _); [|done]. destruct (normalizeMetadata _ _) as [[]|]; [|done].
  destruct (normalizeConfiguration _ _ _) as [[]|]; [|done].
  destruct (validateMutationTime _ _) as [[]|]; [|done].
  match goal with |- context [Validate ?u] => destruct (Validate u catalog) as [[]|] eqn:Hv end; [|done].
  intros [= <- <-]. by split.
Qed.

Lemma model_PrepareStatusChange_spec cur input catalog at_ p ev :
  PrepareStatusChange cur input catalog at_ = Ok (p, ev) →
  changed catalog cur p ev ∧ CanTransitionTo cur (mp_Status p) = true
  ∧ mp_Configuration p = mp_Configuration cur ∧ mp_Version cur = ti_ExpectedVersion input.
Proof.
  unfold PrepareStatusChange. go_unfold.
  destruct (change_guards _ _ _ _ _) as [[]|] eqn:Hg; [|done].
  apply model_change_guards_Ok in Hg as (? & ? & ? & ? & ?).
  destruct (CanTransitionTo _ _) eqn:Ht; [|done]. destruct (normalizeChangeMetadata _); [|done].
  destruct (validateMutationTime _ _) as [[]|]; [|done].
  match goal with |- context [Validate ?u] => destruct (Validate u catalog) as [[]|] eqn:Hv end; [|done].
  intros [= <- <-]. by split.
Qed.

Lemma model_PrepareCreatedChange_Ok p catalog m ev :
  PrepareCreatedChange p catalog m = Ok ev →
  Validate p catalog = Ok () ∧ mp_Version p = 1 ∧ mp_Status p ≠ StatusDisabled
  ∧ (ev_TenantID ev, ev_ProfileID ev, CurrentStatus ev, CurrentDigest ev, NextVersion ev)
    = (mp_TenantID p, mp_ProfileID p, mp_Status p, mp_ContentDigest p, 1).
Proof.
  unfold PrepareCreatedChange. go_unfold. destruct (Validate p catalog) as [[]|]; [|done].
  destruct ((mp_Status p =? StatusActive)%string || _) eqn:Es; [|done].
  destruct (normalizeChangeMetadata m); [|done]. destruct (_ || _ || _ || _) eqn:E; [done|]. bool_prop. intros [= <-].
  split; [done|]. split; [done|]. split.
  - intros Hd. by rewrite Hd in Es.
  - cbn. congruence.
Qed.

(** * Effects of the operations *)

Inductive op :=
| OpCreate (ctx : context) (ms : Z) (random : option (list Z)) (now : time) (input : CreateInput)
| OpUpdate (ctx : context) (now : time) (input : UpdateConfigurationInput)
| OpTransition (ctx : context) (now : time) (input : TransitionStatusInput).

Definition step (catalog : option ProviderCatalog) (o : op)
    : act InMemoryRepository error (Profile * ChangeEvent) :=
  match o with
  | OpCreate ctx ms random now input => Create catalog ctx ms random now input
  | OpUpdate ctx now input => UpdateConfiguration catalog ctx now input
  | OpTransition ctx now input => TransitionStatus catalog ctx now input
  end.
Definition exec (catalog : option ProviderCatalog) (o : op) (r : InMemoryRepository) : InMemoryRepository :=
  (step catalog o r).1.
Definition run (catalog : option ProviderCatalog) (os : list op) (r : InMemoryRepository)
    : InMemoryRepository := run_store (exec catalog) os r.

Section repository.
Context (catalog : option ProviderCatalog).

Notation valid := (λ p, Validate p catalog = Ok ()).
Notation wf := (store_wf valid).

Lemma model_valid_versions p : valid p → 1 ≤ agg_version p.
Proof. intros H%model_Validate_valid. apply H. Qed.

(** The state that an operation leaves, with its result: unchanged on an error, else the
    returned profile stored under its identity. *)
Inductive outcome (o : op) (r : InMemoryRepository)
    : InMemoryRepository * result error (Profile * ChangeEvent) → Prop :=
| outcome_error e : outcome o r (r, Err e)
| outcome_created p ev :
    valid p → mp_Version p = 1 → byID r !! id_scope p = None → byKey r !! key_scope p = None →
    (PreviousVersion ev, NextVersion ev, CurrentStatus ev, CurrentDigest ev)
      = (0, 1, mp_Status p, mp_ContentDigest p) →
    outcome o r (mkStore (<[id_scope p := p]> (byID r)) (<[key_scope p := mp_ProfileID p]> (byKey r)), Ok (p, ev))
| outcome_changed cur p ev :
    byID r !! id_scope cur = Some cur → changed catalog cur p ev →
    mp_Version cur = match o with OpCreate _ _ _ _ _ => 0 | OpUpdate _ _ i => ui_ExpectedVersion i
      | OpTransition _ _ i => ti_ExpectedVersion i end →
    outcome o r (mkStore (<[id_scope cur := p]> (byID r)) (byKey r), Ok (p, ev)).

Lemma model_apply_change_outcome o ctx now sc prepare r expected :
  wf r →
  (∀ cur at_ p ev, prepare cur at_ = Ok (p, ev) → changed catalog cur p ev ∧ mp_Version cur = expected) →
  expected = match o with OpCreate _ _ _ _ _ => 0 | OpUpdate _ _ i => ui_ExpectedVersion i
      | OpTransition _ _ i => ti_ExpectedVersion i end →
  outcome o r (apply_change ctx now sc prepare r).
Proof.
  intros Hwf Hprep He. unfold apply_change. go_unfold.
  destruct (checkContext ctx 0) as [[]|]; [|constructor]. destruct (checkContext ctx 1) as [[]|]; [|constructor].
  destruct (checkContext ctx 2) as [[]|]; [|constructor].
  destruct (byID r !! sc) as [cur|] eqn:Ec; [|constructor].
  destruct (prepare cur _) as [[p ev]|] eqn:Ep; [|constructor].
  destruct (checkContext ctx 3) as [[]|]; [|constructor].
  apply Hprep in Ep as [Hch Hv]. destruct (wf_profile _ _ Hwf _ _ Ec) as [<- _].
  apply (outcome_changed o r cur p ev); [done|done|congruence].
Qed.

Lemma model_step_outcome o r : wf r → outcome o r (step catalog o r).
Proof.
  intros Hwf. destruct o as [ctx ms random now input|ctx now input|ctx now input]; cbn [step].
  - unfold Create. go_unfold. destruct (checkContext ctx 0) as [[]|]; [|constructor].
    destruct (NewProfile _ _ _ _ _) as [p|] eqn:Ep; [|constructor].
    destruct (PrepareCreatedChange _ _ _) as [ev|] eqn:Ev; [|constructor].
    destruct (checkContext ctx 1) as [[]|]; [|constructor]. destruct (checkContext ctx 2) as [[]|]; [|constructor].
    destruct (byID r !! _) eqn:Eid; [constructor|]. cbn [opt_is_nil].
    destruct (byKey r !! _) eqn:Ekey; [constructor|]. cbn [opt_is_nil].
    destruct (checkContext ctx 3) as [[]|]; [|constructor].
    pose proof Ev as (Hv & H1 & _ & _)%model_PrepareCreatedChange_Ok.
    apply (outcome_created _ r p ev); [done..|].
    unfold PrepareCreatedChange in Ev. go_unfold. rewrite Hv in Ev.
    destruct (_ || _) in Ev; [|done]. destruct (normalizeChangeMetadata _); [|done].
    destruct (_ || _ || _ || _) in Ev; [done|]. injection Ev as <-. cbn. by rewrite H1.
  - eapply model_apply_change_outcome; [done| |done]. intros cur at_ p ev H.
    by apply model_PrepareConfigurationChange_spec in H as (? & _ & ?).
  - eapply model_apply_change_outcome; [done| |done]. intros cur at_ p ev H.
    by apply model_PrepareStatusChange_spec in H as (? & _ & _ & ?).
Qed.

Lemma model_outcome_effect o r x : outcome o r x → store_effect valid r x.1.
Proof.
  intros [e|p ev Hv H1 Hid Hk _|cur p ev Hcur Hch _]; cbn.
  - constructor.
  - exact (effect_created valid r p Hv H1 Hid Hk).
  - destruct Hch. apply (effect_changed valid r cur p); try done.
    cbn. apply not_true_is_false. by intros ?%String.eqb_eq.
Qed.

Lemma model_exec_effect o r : wf r → True → store_effect valid r (exec catalog o r).
Proof. intros Hwf _. by eapply model_outcome_effect, model_step_outcome. Qed.

Lemma model_run_ok os r : wf r → wf (run catalog os r) ∧ store_extends r (run catalog os r).
Proof.
  intros Hwf. apply (run_store_ok valid model_valid_versions (exec catalog) (λ _, True)); [|done|].
  - intros o s Hs _. by apply model_exec_effect.
  - by apply Forall_true.
Qed.

Lemma model_run_wf os : wf (run catalog os NewInMemoryRepository).
Proof. apply model_run_ok, store_wf_empty. Qed.
End repository.

(** * Properties *)

Notation start catalog os := (run catalog os NewInMemoryRepository).

(** After any sequence of operations, successful or not, every stored profile is found under
    its own tenant and identity, passes validation, holds a configuration that conforms to the
    catalog, and is the one its key is indexed to; and every index entry leads to a profile with
    that key. *)
Theorem model_repository_integrity specs catalog os :
  NewProviderCatalog specs = Ok catalog →
  let r := start (Some catalog) os in
  (∀ t i p, byID r !! (t, i) = Some p →
     mp_TenantID p = t ∧ mp_ProfileID p = i ∧ valid_profile (Some catalog) p
     ∧ configuration_typed catalog (mp_Configuration p) ∧ byKey r !! (t, mp_ProfileKey p) = Some i)
  ∧ (∀ t k i, byKey r !! (t, k) = Some i → ∃ p, byID r !! (t, i) = Some p ∧ mp_ProfileKey p = k).
Proof.
  intros Hc r. destruct (model_run_wf (Some catalog) os) as [Hp Hi]. split; [|exact Hi].
  intros t i p Hpi. destruct (Hp _ _ Hpi) as ([= <- <-] & Hv%model_Validate_valid & _ & Hk).
  split_and!; try done. eapply model_valid_profile_typed; [|done]. by eapply model_NewProviderCatalog_ok.
Qed.

Definition target (o : op) : option (scope * Z) :=
  match o with
  | OpCreate _ _ _ _ _ => None
  | OpUpdate _ _ i => Some ((ui_TenantID i, ui_ProfileID i), ui_ExpectedVersion i)
  | OpTransition _ _ i => Some ((ti_TenantID i, ti_ProfileID i), ti_ExpectedVersion i)
  end.

Lemma model_change_target catalog o sc v r p ev :
  store_wf (λ p, Validate p catalog = Ok ()) r → target o = Some (sc, v) → (step catalog o r).2 = Ok (p, ev) →
  ∃ cur, byID r !! sc = Some cur ∧ mp_Version cur = v ∧ byID (exec catalog o r) !! sc = Some p
    ∧ v < mp_Version p.
Proof.
  intros Hwf Ht Hok. assert (∃ cur, byID r !! sc = Some cur ∧ mp_Version cur = v
    ∧ changed catalog cur p ev ∧ byID (exec catalog o r) !! sc = Some p) as (cur & Hcur & Hv & Hch & Hnew).
  { unfold exec. destruct o as [|ctx now i|ctx now i]; [done|..]; injection Ht as <- <-; cbn [step] in *;
      unfold UpdateConfiguration, TransitionStatus, apply_change in *; go_unfold;
      destruct (checkContext ctx 0) as [[]|]; try done; destruct (checkContext ctx 1) as [[]|]; try done;
      destruct (checkContext ctx 2) as [[]|]; try done;
      destruct (byID r !! _) as [cur|] eqn:Ec; try done; exists cur.
    - destruct (PrepareConfigurationChange _ _ _ _) as [[q e]|] eqn:Ep; [|done].
      destruct (checkContext ctx 3) as [[]|]; [|done]. injection Hok as -> ->.
      apply model_PrepareConfigurationChange_spec in Ep as (? & _ & ?). cbn. by rewrite lookup_insert_eq.
    - destruct (PrepareStatusChange _ _ _ _) as [[q e]|] eqn:Ep; [|done].
      destruct (checkContext ctx 3) as [[]|]; [|done]. injection Hok as -> ->.
      apply model_PrepareStatusChange_spec in Ep as (? & _ & _ & ?). cbn. by rewrite lookup_insert_eq. }
  exists cur. split_and!; try done. destruct Hch. destruct (wf_profile _ _ Hwf _ _ Hcur) as (_ & _ & Hmax & _).
  destruct (next_version _ (model_valid_versions catalog) cur p) as [Hn _]; try done. cbn in Hn. lia.
Qed.

(** Two updates or transitions of one profile that were prepared from the same version are
    never both accepted, whatever happens between them. *)
Theorem model_no_lost_update catalog os1 os2 o1 o2 sc v res :
  target o1 = Some (sc, v) → target o2 = Some (sc, v) →
  (step catalog o1 (start catalog os1)).2 = Ok res →
  is_ok (step catalog o2 (run catalog os2 (exec catalog o1 (start catalog os1)))).2 = false.
Proof.
  intros H1 H2 Hok. destruct res as [p ev]. pose proof (model_run_wf catalog os1) as Hwf.
  destruct (model_change_target _ _ _ _ _ _ _ Hwf H1 Hok) as (_ & _ & _ & Hp & Hv).
  assert (store_wf (λ p, Validate p catalog = Ok ()) (exec catalog o1 (start catalog os1))) as Hwf1
    by (eapply store_effect_wf; [apply model_valid_versions|exact Hwf|by apply model_exec_effect]).
  destruct (model_run_ok catalog os2 _ Hwf1) as [Hwf2 Hx]. destruct (Hx _ _ Hp) as (q & Hq & _ & Hor).
  destruct (step catalog o2 _).2 as [[p2 ev2]|] eqn:E2; [|done].
  destruct (model_change_target _ _ _ _ _ _ _ Hwf2 H2 E2) as (cur & Hcur & Hver & _).
  assert (cur = q) as -> by congruence. exfalso. destruct Hor as [-> |[_ ?]]; cbn in *; lia.
Qed.

(** An operation either fails and leaves the repository as it was, or stores exactly the
    profile it returns, touches no other profile, and returns an event that names the profile,
    its status, digest and version before and after, the version growing by one. *)
Theorem model_change_recorded catalog os o r' res :
  step catalog o (start catalog os) = (r', res) →
  match res with
  | Err _ => r' = start catalog os
  | Ok (p, ev) =>
      byID r' !! (mp_TenantID p, mp_ProfileID p) = Some p
      ∧ (∀ sc, sc ≠ (mp_TenantID p, mp_ProfileID p) → byID r' !! sc = byID (start catalog os) !! sc)
      ∧ CurrentStatus ev = mp_Status p ∧ CurrentDigest ev = mp_ContentDigest p ∧ NextVersion ev = mp_Version p
      ∧ match byID (start catalog os) !! (mp_TenantID p, mp_ProfileID p) with
        | None => PreviousVersion ev = 0 ∧ mp_Version p = 1
        | Some cur => PreviousStatus ev = mp_Status cur ∧ PreviousDigest ev = mp_ContentDigest cur
            ∧ PreviousVersion ev = mp_Version cur ∧ mp_Version p = mp_Version cur + 1
            ∧ mp_Status cur ≠ StatusDisabled
        end
  end.
Proof.
  intros Hs. pose proof (model_run_wf catalog os) as Hwf. pose proof (model_step_outcome catalog o _ Hwf) as Ho.
  rewrite Hs in Ho. inversion Ho as [e|p ev Hv H1 Hid Hk Hev|cur p ev Hcur Hch Hver]; subst; [done|..].
  - injection Hev as Hpv Hnv Hcs Hcd. cbn. rewrite lookup_insert_eq. split; [done|]. split.
    { intros sc Hne. by apply lookup_insert_ne. }
    split_and!; [done|done|congruence|]. change (mp_TenantID p, mp_ProfileID p) with (id_scope p). by rewrite Hid.
  - destruct (wf_profile _ _ Hwf _ _ Hcur) as (_ & _ & Hmax & _).
    destruct Hch as [Hb Hv Hsc Hkey Hvn Hl Hev1 Hev2]. injection Hev1 as _ _ Hps Hcs. injection Hev2 as Hpv Hnv Hpd Hcd _.
    cbn. rewrite Hsc. change (mp_TenantID cur, mp_ProfileID cur) with (id_scope cur). rewrite lookup_insert_eq.
    split; [done|]. split; [intros sc Hne; by apply lookup_insert_ne|]. split_and!; try done.
    rewrite Hcur. split_and!; try done. by destruct (next_version _ (model_valid_versions catalog) cur p).
Qed.

(** A stored profile is never lost or renamed: after any further operations it is unchanged
    or has a later version, and a disabled profile is unchanged forever. *)
Theorem model_profile_history catalog os1 os2 sc p :
  byID (start catalog os1) !! sc = Some p →
  ∃ p', byID (run catalog os2 (start catalog os1)) !! sc = Some p' ∧ mp_ProfileKey p' = mp_ProfileKey p
    ∧ (p' = p ∨ mp_Status p ≠ StatusDisabled ∧ mp_Version p < mp_Version p').
Proof.
  intros Hp. destruct (model_run_ok catalog os2 _ (model_run_wf catalog os1)) as [_ Hx].
  destruct (Hx _ _ Hp) as (p' & Hp' & Hk & Hor). exists p'. split; [done|]. split; [done|].
  destruct Hor as [->|[Hf Hlt]]; [by left|right]. split; [|done]. cbn in Hf. by apply String.eqb_neq in Hf.
Qed.

(** * A profile is created, reconfigured and disabled *)

Definition ex_specs : list ProviderSpec :=
  [mkProviderSpec "openai" ["gpt-4"; "gpt-4o"] FieldOptional ["https"] ["api.example.com"; "10.0.0.7"] FieldOptional
     (<["mode" := mkOptionSpec OptionEnum false (Some " FAST ") ["Fast"; "slow"] None None]>
       (<["retries" := mkOptionSpec OptionInteger true None [] (Some 0) (Some 5)]> ∅))]%string.
Definition ex_catalog : ProviderCatalog :=
  match NewProviderCatalog ex_specs with Ok c => c | Err _ => ∅ end.
Definition ex_generation : GenerationConfig := mkGeneration (Some (f64 1)) None (Some 256).
Definition ex_configuration (endpoint retries : string) : Configuration :=
  mkConfiguration " OpenAI " "GPT-4" endpoint {["retries"%string := retries]} "vault/openai" ex_generation.
Definition ex_metadata : ChangeMetadata := mkMetadata "user" "u-1" "rollout" "corr-1".
Definition ex_tenant_id : string := "t_01HF7YAT00041061050R3GG28A".
Definition ex_profile_id : string := "mp_01HF7YAT00041061050R3GG28A".
Definition ex_new : op := OpCreate background 1700000000000 (Some ex_random) 5
  (mkCreateInput ex_tenant_id "Primary" "Primary model" "" "" 0
     (ex_configuration "HTTPS://API.example.com.:0443/v1" "+03") ex_metadata).
Definition ex_update (retries : string) : op := OpUpdate background 6
  (mkUpdateInput ex_tenant_id ex_profile_id 1 "Primary model" "tuned" 1
     (ex_configuration "https://10.0.0.7/v1" retries) ex_metadata).
Definition ex_disable : op := OpTransition background 7
  (mkTransitionInput ex_tenant_id ex_profile_id 2 StatusDisabled ex_metadata).

Lemma model_ex_catalog_ok : NewProviderCatalog ex_specs = Ok ex_catalog.
Proof.
  unfold ex_catalog. assert (is_ok (NewProviderCatalog ex_specs) = true) as H by (vm_compute; reflexivity).
  by destruct (NewProviderCatalog ex_specs).
Qed.

(** The endpoint is stored in canonical form and the defaults are filled in. *)
Example model_create_example :
  match (step (Some ex_catalog) ex_new NewInMemoryRepository).2 with
  | Ok (p, _) => c_Endpoint (mp_Configuration p) = "https://api.example.com:443/v1"%string
      ∧ c_Provider (mp_Configuration p) = "openai"%string ∧ mp_ProfileKey p = "primary"%string
      ∧ map_to_list (c_Options (mp_Configuration p)) ≡ₚ [("mode", "fast"); ("retries", "3")]%string
  | Err _ => False
  end.
Proof. vm_compute. split_and!; [done..|]. first [done|apply Permutation_swap]. Qed.

(** An IPv4-mapped address is printed in brackets, which is not how it is read back, so a
    profile with such an endpoint is normalized and then refused. *)
Example mapped_endpoint_refused :
  let c := ex_configuration "https://[::ffff:10.0.0.7]/v1" "1" in
  match NormalizeConfiguration (Some ex_catalog) c with
  | Ok c' => c_Endpoint c' = "https://[10.0.0.7]/v1"%string
      ∧ match NormalizeConfiguration (Some ex_catalog) c' with
        | Ok c'' => c_Endpoint c'' = "https://10.0.0.7/v1"%string
        | Err _ => False
        end
  | Err _ => False
  end
  ∧ (step (Some ex_catalog) (OpCreate background 1700000000000 (Some ex_random) 5
       (mkCreateInput ex_tenant_id "Primary" "Primary model" "" "" 0 c ex_metadata)) NewInMemoryRepository).2
    = Err ErrInvalid.
Proof. vm_compute. by split_and!. Qed.

Lemma normalized_configuration_typed_witness :
  ∃ c, NormalizeConfiguration (Some ex_catalog) (ex_configuration "https://10.0.0.7:8443/" "2") = Ok c
    ∧ configuration_typed ex_catalog c.
Proof.
  destruct (NormalizeConfiguration (Some ex_catalog) (ex_configuration "https://10.0.0.7:8443/" "2")) as [c|] eqn:E;
    [|vm_compute in E; discriminate].
  exists c. split; [reflexivity|]. exact (normalized_configuration_typed ex_specs ex_catalog _ c model_ex_catalog_ok E).
Defined.

Lemma model_repository_integrity_witness :
  ∃ p, byID (start (Some ex_catalog) [ex_new]) !! (ex_tenant_id, ex_profile_id) = Some p
    ∧ configuration_typed ex_catalog (mp_Configuration p).
Proof.
  destruct (byID (start (Some ex_catalog) [ex_new]) !! (ex_tenant_id, ex_profile_id)) as [p|] eqn:E;
    [|vm_compute in E; discriminate].
  exists p. split; [reflexivity|].
  apply (proj1 (model_repository_integrity ex_specs ex_catalog [ex_new] model_ex_catalog_ok)) in E.
  exact (proj1 (proj2 (proj2 (proj2 E)))).
Defined.

Lemma model_no_lost_update_witness :
  is_ok (step (Some ex_catalog) (ex_update "5")
    (run (Some ex_catalog) [ex_disable] (exec (Some ex_catalog) (ex_update "4") (start (Some ex_catalog) [ex_new])))).2
  = false.
Proof.
  destruct (step (Some ex_catalog) (ex_update "4") (start (Some ex_catalog) [ex_new])).2 as [res|] eqn:E;
    [|vm_compute in E; discriminate].
  exact (model_no_lost_update (Some ex_catalog) [ex_new] [ex_disable] (ex_update "4") (ex_update "5") _ 1 res
    eq_refl eq_refl E).
Defined.

Lemma model_change_recorded_witness :
  match step (Some ex_catalog) (ex_update "4") (start (Some ex_catalog) [ex_new]) with
  | (r', Ok (p, ev)) => NextVersion ev = 2 ∧ byID r' !! (mp_TenantID p, mp_ProfileID p) = Some p
  | (_, Err _) => False
  end.
Proof.
  assert (match (step (Some ex_catalog) (ex_update "4") (start (Some ex_catalog) [ex_new])).2 with
    | Ok (_, e) => NextVersion e | Err _ => 0 end = 2) as H2 by (vm_compute; reflexivity).
  destruct (step (Some ex_catalog) (ex_update "4") (start (Some ex_catalog) [ex_new])) as [r' [[p ev]|e]] eqn:E.
  - pose proof (model_change_recorded (Some ex_catalog) [ex_new] (ex_update "4") r' (Ok (p, ev)) E) as H.
    split; [exact H2|exact (proj1 H)].
  - discriminate H2.
Defined.

Definition status_of (o : option Profile) : string := match o with Some p => mp_Status p | None => "" end.
Lemma model_ex_disabled :
  status_of (byID (start (Some ex_catalog) [ex_new; ex_update "4"; ex_disable]) !! (ex_tenant_id, ex_profile_id))
  = StatusDisabled.
Proof. vm_compute. reflexivity. Qed.

Lemma model_profile_history_witness :
  ∃ p, byID (start (Some ex_catalog) [ex_new; ex_update "4"; ex_disable]) !! (ex_tenant_id, ex_profile_id) = Some p
    ∧ mp_Status p = StatusDisabled
    ∧ ∃ p', byID (run (Some ex_catalog) [ex_update "1"; ex_disable]
        (start (Some ex_catalog) [ex_new; ex_update "4"; ex_disable])) !! (ex_tenant_id, ex_profile_id) = Some p'
      ∧ p' = p.
Proof.
  destruct (byID (start (Some ex_catalog) [ex_new; ex_update "4"; ex_disable]) !! (ex_tenant_id, ex_profile_id))
    as [p|] eqn:E; [|vm_compute in E; discriminate].
  assert (mp_Status p = StatusDisabled) as Hs by exact (eq_trans (eq_sym (f_equal status_of E)) model_ex_disabled).
  exists p. split; [reflexivity|]. split; [exact Hs|].
  destruct (model_profile_history (Some ex_catalog) [ex_new; ex_update "4"; ex_disable]
    [ex_update "1"; ex_disable] _ p E) as (p' & Hp' & _ & Hor).
  exists p'. split; [exact Hp'|]. destruct Hor as [H|[H _]]; [exact H|destruct (H Hs)].
Defined.
