(* ===== verification/ModelRuntime.v ===== *)
(** Running with a model profile: [trpcservice/model/registry.go] (secrets and provider factories
    per tenant), [trpcservice/model/runtime.go] (execution snapshots, secret scopes, building a
    model) and [trpcservice/model/secret_manager.go].

    Provider factories and secret managers are code outside this repository: they are
    parameters, called with a context and returning a value or an error.  A context is the
    sequence of the observations of [ctx.Err()] that a function makes; what its callees observe
    in between is a separate argument, one sequence per call.  A nil pointer is [None]. *)
From Stdlib Require Import Ascii String.
From Corelib Require Import SpecFloat.
From S2P Require Import Prelude GoStrings GoURL GoIP Sha256 Tenant ModelProfile ProfileStore ModelRepository.
Local Open Scope Z_scope.

(** * Secrets *)

Record SecretScope := mkSecretScope { ss_TenantID : string; ss_SecretRef : string }.
#[export] Instance secret_scope_eq_dec : EqDecision SecretScope.
Proof. solve_decision. Defined.

Definition scope_Validate (s : SecretScope) : result error unit :=
  if negb (is_ok (validateTenantID (ss_TenantID s))) then Err ErrInvalid
  else if (ss_SecretRef s =? "")%string then Err ErrInvalid
  else if is_ok (normalizeSecretRef (ss_SecretRef s) FieldRequired) then Ok () else Err ErrInvalid.

(** The private field of a [SecretValue]; the zero value is empty. *)
Record SecretValue := mkSecret { value : string }.
Definition NewSecretValue (value : string) : result error SecretValue :=
  if (value =? "")%string then Err ErrInvalid else Ok (mkSecret value).
Definition Value (secret : SecretValue) : string := value secret.
Definition secret_String (secret : SecretValue) : string :=
  if (value secret =? "")%string then "<empty-secret>" else "<redacted-secret>".

(** [ctx.Err()] at the [i]-th observation. *)
Definition ctx_Err (ctx : nat → option ctx_error) (i : nat) : result error unit :=
  match ctx i with Some e => Err (ErrContext e) | None => Ok () end.

(** A resolver or manager in the interface: what it returns for a context and a scope. *)
Definition SecretResolver : Type := (nat → option ctx_error) → SecretScope → result error SecretValue.

(** ** The registry of secrets *)

Record SecretRegistry := mkSecretRegistry { values : gmap (string * string) SecretValue; closed : bool }.
Definition NewSecretRegistry : SecretRegistry := mkSecretRegistry ∅ false.
Definition secret_key (s : SecretScope) : string * string := (ss_TenantID s, ss_SecretRef s).

(** The methods act on the pointer; nil has no state. *)
Definition Register (s : SecretScope) (v : SecretValue) : act (option SecretRegistry) error unit :=
  r ← get;
  match r with
  | None => throw ErrSecretUnavailable
  | Some r =>
      if negb (is_ok (scope_Validate s)) || (value v =? "")%string then throw ErrInvalid
      else if closed r then throw ErrRegistryClosed
      else put (Some (mkSecretRegistry (<[secret_key s := v]> (values r)) (closed r)))
  end.

Definition RegisterValue (s : SecretScope) (raw : string) : act (option SecretRegistry) error unit :=
  secret ← lift (NewSecretValue raw);
  Register s secret.

Definition Remove (s : SecretScope) : act (option SecretRegistry) error unit :=
  r ← get;
  match r with
  | None => throw ErrSecretUnavailable
  | Some r =>
      if negb (is_ok (scope_Validate s)) then throw ErrInvalid
      else if closed r then throw ErrRegistryClosed
      else put (Some (mkSecretRegistry (delete (secret_key s) (values r)) (closed r)))
  end.

Definition Resolve (r : option SecretRegistry) (ctx : context) (s : SecretScope) : result error SecretValue :=
  match ctx with
  | None => Err ErrInvalid
  | Some ctx =>
      _ ← ctx_Err ctx 0;
      match r with
      | None => Err ErrSecretUnavailable
      | Some r =>
          if negb (is_ok (scope_Validate s)) then Err ErrSecretUnavailable
          else match values r !! secret_key s with
          | None => Err ErrSecretUnavailable
          | Some v =>
              if closed r then Err ErrSecretUnavailable
              else _ ← ctx_Err ctx 1; Ok v
          end
      end
  end.

Definition Close : act (option SecretRegistry) error unit :=
  r ← get;
  match r with
  | None => mret ()
  | Some r => if closed r then mret () else put (Some (mkSecretRegistry ∅ true))
  end.

(** The registry behind the interface. *)
Definition registry_resolver (r : option SecretRegistry) : SecretResolver := λ ctx s, Resolve r (Some ctx) s.

(** ** Secret managers *)

Record SecretManagerResolver := mkManagerResolver { manager : option SecretResolver }.
Definition NewSecretManagerResolver (m : option SecretResolver) : result error SecretManagerResolver :=
  match m with None => Err ErrInvalid | Some _ => Ok (mkManagerResolver m) end.

Definition manager_Resolve (resolver : option SecretManagerResolver) (ctx : context)
    (call : nat → option ctx_error) (s : SecretScope) : result error SecretValue :=
  match ctx with
  | None => Err ErrInvalid
  | Some ctx =>
      _ ← ctx_Err ctx 0;
      match resolver ≫= manager with
      | None => Err ErrSecretUnavailable
      | Some read =>
          if negb (is_ok (scope_Validate s)) then Err ErrSecretUnavailable
          else match read call s with
          | Err _ => _ ← ctx_Err ctx 1; Err ErrSecretUnavailable
          | Ok v =>
              if (Value v =? "")%string then Err ErrSecretUnavailable
              else _ ← ctx_Err ctx 1; Ok v
          end
      end
  end.

(** * Execution snapshots *)

Record FactoryCacheKey := mkCacheKey {
  fk_TenantID : string; fk_TenantVersion : Z; fk_ProfileID : string; fk_ProfileVersion : Z;
  fk_ContentDigest : string }.

Record ModelFactoryInput := mkModelInput {
  fi_TenantID : string; fi_TenantVersion : Z; fi_ProfileID : string; fi_ProfileKey : string;
  fi_ProfileVersion : Z; fi_ContentDigest : string; fi_SchemaVersion : Z;
  (* Provider, Model, Endpoint, Options, SecretRef and Generation *)
  fi_Configuration : Configuration }.

Record ModelExecutionSnapshot := mkModelSnapshot {
  ms_tenant : option Tenant; ms_profile : option Profile; ms_catalog : option ProviderCatalog }.
Definition zero_snapshot : ModelExecutionSnapshot := mkModelSnapshot None None None.

Definition validateExecutionState (tenantValue : Tenant) (profile : option Profile)
    (catalog : option ProviderCatalog) : result error unit :=
  if negb (is_ok (Tenant.Validate tenantValue)) then Err ErrInvalid
  else if negb (Tenant.CanAcceptExecution tenantValue) then Err ErrInvalid
  else match profile, catalog with
  | None, _ => Err ErrInvalid
  | Some _, None => Err ErrInvalid
  | Some p, Some _ =>
      if negb (is_ok (Validate p catalog)) then Err ErrInvalid
      else if negb (TenantID tenantValue =? mp_TenantID p)%string then Err ErrInvalid
      else if negb (CanAcceptExecution p) then Err ErrInvalid
      else Ok ()
  end.

Definition NewModelExecutionSnapshot (tenantSnapshot : option Tenant) (profile : option Profile)
    (catalog : option ProviderCatalog) : result error ModelExecutionSnapshot :=
  let tenantValue := snapshot_Tenant tenantSnapshot in
  _ ← validateExecutionState tenantValue profile catalog;
  Ok (mkModelSnapshot (Some tenantValue) profile catalog).

Definition snapshot_validate (s : ModelExecutionSnapshot) : result error unit :=
  match ms_tenant s, ms_profile s, ms_catalog s with
  | Some t, Some p, Some c => validateExecutionState t (Some p) (Some c)
  | _, _, _ => Err ErrInvalid
  end.

Definition CacheKey (s : ModelExecutionSnapshot) : result error FactoryCacheKey :=
  _ ← snapshot_validate s;
  match ms_tenant s, ms_profile s with
  | Some t, Some p =>
      Ok (mkCacheKey (TenantID t) (Version t) (mp_ProfileID p) (mp_Version p) (mp_ContentDigest p))
  | _, _ => Err ErrInvalid
  end.

Definition FactoryInput (s : ModelExecutionSnapshot) : result error ModelFactoryInput :=
  _ ← snapshot_validate s;
  match ms_tenant s, ms_profile s with
  | Some t, Some p =>
      Ok (mkModelInput (TenantID t) (Version t) (mp_ProfileID p) (mp_ProfileKey p) (mp_Version p)
            (mp_ContentDigest p) (mp_SchemaVersion p) (mp_Configuration p))
  | _, _ => Err ErrInvalid
  end.

(** The value under the private context key, after and before. *)
Definition WithModelExecutionSnapshot (s : ModelExecutionSnapshot) : option ModelExecutionSnapshot :=
  match snapshot_validate s with Err _ => Some zero_snapshot | Ok _ => Some s end.
Definition ModelExecutionSnapshotFromContext (v : option ModelExecutionSnapshot)
    : ModelExecutionSnapshot * bool :=
  match v with
  | None => (zero_snapshot, false)
  | Some s => match snapshot_validate s with Err _ => (zero_snapshot, false) | Ok _ => (s, true) end
  end.

(** * Building a model *)

Definition validateFactoryInput (input : ModelFactoryInput) : result error unit :=
  _ ← validateTenantID (fi_TenantID input);
  _ ← validateProfileID (fi_ProfileID input);
  if (fi_TenantVersion input <? 1) || (fi_ProfileVersion input <? 1)
    || negb (fi_SchemaVersion input =? SchemaVersionV1) || (fi_ContentDigest input =? "")%string
    || (c_Provider (fi_Configuration input) =? "")%string || (c_Model (fi_Configuration input) =? "")%string
  then Err ErrInvalid
  else
    _ ← if (c_SecretRef (fi_Configuration input) =? "")%string then Ok ""%string
        else normalizeSecretRef (c_SecretRef (fi_Configuration input)) FieldRequired;
    _ ← normalizeGeneration (c_Generation (fi_Configuration input));
    Ok ().

Section building.
Context {M : Type}.

(** A factory returns a model, a nil model, or an error. *)
Definition ModelFactory : Type :=
  (nat → option ctx_error) → ModelFactoryInput → SecretValue → result error (option M).

Definition ResolveAndBuild (ctx : context) (calls : nat → nat → option ctx_error) (input : ModelFactoryInput)
    (resolver : option SecretResolver) (factory : option ModelFactory) : result error M :=
  match ctx with
  | None => Err ErrInvalid
  | Some ctx =>
      match factory with
      | None => Err ErrInvalid
      | Some new =>
          _ ← validateFactoryInput input;
          secret ← if (c_SecretRef (fi_Configuration input) =? "")%string then Ok (mkSecret "")
                   else match resolver with
                   | None => Err ErrInvalid
                   | Some resolve =>
                       let scope := mkSecretScope (fi_TenantID input) (c_SecretRef (fi_Configuration input)) in
                       _ ← scope_Validate scope;
                       match resolve (calls 0%nat) scope with
                       | Err _ => _ ← ctx_Err ctx 0; Err ErrSecretResolution
                       | Ok v => Ok v
                       end
                   end;
          match new (calls 1%nat) input secret with
          | Err _ => _ ← ctx_Err ctx 0; Err ErrModelFactory
          | Ok None => Err ErrModelFactory
          | Ok (Some m) => Ok m
          end
      end
  end.

(** ** The registry of provider factories *)

Record ModelProviderRegistry := mkProviderRegistry {
  factories : gmap (string * string) ModelFactory; providers_closed : bool }.
Definition NewModelProviderRegistry : ModelProviderRegistry := mkProviderRegistry ∅ false.

Definition validRegistryTenant (tenantID : string) : bool := is_ok (validateTenantID tenantID).

Definition registry_Register (tenantID provider : string) (factory : option ModelFactory)
    : act (option ModelProviderRegistry) error unit :=
  r ← get;
  match r, factory with
  | Some r, Some f =>
      if negb (validRegistryTenant tenantID) then throw ErrInvalid
      else
        let provider := to_lower (trim_space provider) in
        if (provider =? "")%string then throw ErrInvalid
        else if providers_closed r then throw ErrRegistryClosed
        else put (Some (mkProviderRegistry (<[(tenantID, provider) := f]> (factories r)) (providers_closed r)))
  | _, _ => throw ErrInvalid
  end.

Definition registry_Remove (tenantID provider : string) : act (option ModelProviderRegistry) error unit :=
  r ← get;
  match r with
  | None => throw ErrInvalid
  | Some r =>
      if negb (validRegistryTenant tenantID) then throw ErrInvalid
      else if providers_closed r then throw ErrRegistryClosed
      else put (Some (mkProviderRegistry (delete (tenantID, to_lower (trim_space provider)) (factories r))
                  (providers_closed r)))
  end.

Definition registry_New (r : option ModelProviderRegistry) (ctx : context) (call : nat → option ctx_error)
    (input : ModelFactoryInput) (secret : SecretValue) : result error M :=
  match ctx with
  | None => Err ErrInvalid
  | Some ctx =>
      _ ← ctx_Err ctx 0;
      match r with
      | None => Err ErrProviderUnavailable
      | Some r =>
          match factories r !! (fi_TenantID input, to_lower (trim_space (c_Provider (fi_Configuration input)))) with
          | None => Err ErrProviderUnavailable
          | Some new =>
              if providers_closed r then Err ErrProviderUnavailable
              else match new call input secret with
              | Err _ => _ ← ctx_Err ctx 1; Err ErrProviderUnavailable
              | Ok None => Err ErrProviderUnavailable
              | Ok (Some m) => _ ← ctx_Err ctx 1; Ok m
              end
          end
      end
  end.

Definition registry_Close : act (option ModelProviderRegistry) error unit :=
  r ← get;
  match r with
  | None => mret ()
  | Some r => if providers_closed r then mret () else put (Some (mkProviderRegistry ∅ true))
  end.

(** The registry is itself a factory. *)
Definition registry_factory (r : option ModelProviderRegistry) (call : nat → option ctx_error) : ModelFactory :=
  λ ctx input secret, m ← registry_New r (Some ctx) call input secret; Ok (Some m).
End building.
Arguments ModelFactory : clear implicits.
Arguments ModelProviderRegistry : clear implicits.

#[global] Arguments validateExecutionState : simpl never.
#[global] Arguments scope_Validate : simpl never.
#[global] Arguments normalizeSecretRef : simpl never.

(** * The registry of secrets refines its history *)

Inductive secret_op :=
| SRegister (s : SecretScope) (v : SecretValue)
| SRegisterValue (s : SecretScope) (raw : string)
| SRemove (s : SecretScope)
| SClose.

Definition secret_exec (o : secret_op) (r : option SecretRegistry) : option SecretRegistry :=
  (match o with
   | SRegister s v => Register s v
   | SRegisterValue s raw => RegisterValue s raw
   | SRemove s => Remove s
   | SClose => Close
   end r).1.
Definition secret_run (os : list secret_op) (r : option SecretRegistry) : option SecretRegistry :=
  foldl (λ r o, secret_exec o r) r os.

(** What one operation says about a scope: nothing, that it has a secret, or that it has none. *)
Definition says (o : secret_op) (s : SecretScope) : option (option SecretValue) :=
  match o with
  | SRegister s' v => if bool_decide (s' = s) && negb (value v =? "")%string then Some (Some v) else None
  | SRegisterValue s' raw =>
      if bool_decide (s' = s) && negb (raw =? "")%string then Some (Some (mkSecret raw)) else None
  | SRemove s' => if bool_decide (s' = s) then Some None else None
  | SClose => None
  end.
Definition is_close (o : secret_op) : bool := match o with SClose => true | _ => false end.

(** The secret of a scope by the history alone: the last operation about exactly this scope
    decides, and nothing is left once the registry was closed. *)
Fixpoint last_says (os : list secret_op) (s : SecretScope) : option SecretValue :=
  match os with
  | [] => None
  | o :: os' => match says o s with Some answer => answer | None => last_says os' s end
  end.
Definition granted (os : list secret_op) (s : SecretScope) : option SecretValue :=
  if existsb is_close os then None else last_says (rev os) s.

Lemma says_foldl os s :
  last_says (rev os) s = foldl (λ acc o, match says o s with Some answer => answer | None => acc end) None os.
Proof.
  induction os as [|o os IH] using rev_ind; [done|].
  rewrite rev_app_distr, foldl_app. cbn. by rewrite IH.
Qed.

Lemma secret_key_inj s s' : secret_key s = secret_key s' → s = s'.
Proof. destruct s, s'. unfold secret_key. cbn. congruence. Qed.

(** One step: the registry stays open unless closed, and the entry of a valid scope changes
    exactly as the operation says. *)
Lemma secret_exec_spec o vs s :
  scope_Validate s = Ok () →
  match secret_exec o (Some (mkSecretRegistry vs false)) with
  | None => False
  | Some r => closed r = is_close o
      ∧ (is_close o = false → values r !! secret_key s = match says o s with Some a => a | None => vs !! secret_key s end)
  end.
Proof.
  intros Hs. unfold secret_exec.
  assert (∀ s' v, match (Register s' v (Some (mkSecretRegistry vs false))).1 with
    | None => False
    | Some r => closed r = false ∧ values r !! secret_key s
        = match (if bool_decide (s' = s) && negb (value v =? "")%string then Some (Some v) else None)
          with Some a => a | None => vs !! secret_key s end
    end) as Hreg.
  { intros s' v. unfold Register. go_unfold. cbn [closed values].
    destruct (scope_Validate s') as [[]|] eqn:Es'; cbn [is_ok negb orb].
    - destruct (value v =? "")%string; cbn [negb]; [by rewrite andb_false_r|]. rewrite andb_true_r.
      cbn. split; [done|]. case_bool_decide as E.
      + subst. apply lookup_insert_eq.
      + apply lookup_insert_ne. by intros ?%secret_key_inj.
    - cbn. split; [done|]. case_bool_decide as E; [|done]. subst. congruence. }
  destruct o as [s' v|s' raw|s'|]; cbn [is_close says].
  - specialize (Hreg s' v). destruct (Register _ _ _).1 as [r|]; [|done]. naive_solver.
  - unfold RegisterValue, NewSecretValue. go_unfold. destruct (raw =? "")%string eqn:Er.
    { cbn. rewrite andb_false_r. done. }
    specialize (Hreg s' (mkSecret raw)). cbn [value] in Hreg. rewrite Er in Hreg.
    destruct (Register _ _ _).1 as [r|]; [|done]. naive_solver.
  - unfold Remove. go_unfold. cbn [closed values]. destruct (scope_Validate s') as [[]|] eqn:Es'; cbn.
    + split; [done|]. intros _. case_bool_decide as E.
      * subst. apply lookup_delete_eq.
      * apply lookup_delete_ne. by intros ?%secret_key_inj.
    + split; [done|]. intros _. case_bool_decide as E; [|done]. subst. congruence.
  - unfold Close. go_unfold. by cbn.
Qed.

Lemma secret_exec_closed o r : closed r = true → secret_exec o (Some r) = Some r.
Proof.
  intros Hc. unfold secret_exec. destruct o as [s v|s raw|s|]; unfold RegisterValue, NewSecretValue, Register, Remove, Close;
    go_unfold; rewrite ?Hc; repeat case_match; done.
Qed.

Lemma secret_run_closed os r : closed r = true → secret_run os (Some r) = Some r.
Proof. intros Hc. induction os as [|o os IH]; [done|]. cbn. by rewrite secret_exec_closed. Qed.

Lemma secret_run_spec os vs s :
  scope_Validate s = Ok () →
  ∃ r, secret_run os (Some (mkSecretRegistry vs false)) = Some r ∧ closed r = existsb is_close os
    ∧ (closed r = false → values r !! secret_key s
         = foldl (λ acc o, match says o s with Some a => a | None => acc end) (vs !! secret_key s) os).
Proof.
  intros Hs. revert vs. induction os as [|o os IH]; intros vs; [by eexists|].
  pose proof (secret_exec_spec o vs s Hs) as Hstep. cbn [secret_run foldl existsb].
  destruct (secret_exec o _) as [r|]; [|done]. destruct Hstep as [Hc Hv].
  change (foldl (λ r o, secret_exec o r) (Some r) os) with (secret_run os (Some r)).
  destruct (is_close o) eqn:Eo.
  - exists r. rewrite (secret_run_closed os r Hc). split; [done|]. split; [done|]. by rewrite Hc.
  - destruct r as [vs' c]. cbn in Hc, Hv. subst c. destruct (IH vs') as (r & Hr & Hcl & Hval).
    exists r. split; [done|]. split; [done|]. intros Hopen. rewrite Hval by done. by rewrite Hv.
Qed.

Lemma Resolve_granted os ctx s :
  (∀ i, ctx i = None) →
  Resolve (secret_run os (Some NewSecretRegistry)) (Some ctx) s
  = match scope_Validate s, granted os s with
    | Ok _, Some v => Ok v
    | _, _ => Err ErrSecretUnavailable
    end.
Proof.
  intros Hctx. unfold Resolve, ctx_Err. go_unfold. rewrite !Hctx.
  destruct (scope_Validate s) as [[]|] eqn:Es.
  - destruct (secret_run_spec os ∅ s Es) as (r & Hr & Hc & Hv). unfold NewSecretRegistry. rewrite Hr.
    cbn [is_ok negb]. unfold granted. rewrite says_foldl, <- Hc. rewrite lookup_empty in Hv.
    destruct (closed r); [by destruct (values r !! _)|]. rewrite Hv by done. by destruct (foldl _ None os).
  - by destruct (secret_run os _).
Qed.

(** What the registry of secrets answers is determined by the history of the one scope
    that is asked for: the last accepted registration or removal under exactly this tenant and
    reference decides, registrations of other tenants and other references never matter, and a
    closed registry answers nothing. *)
Theorem secret_registry_refines os ctx s :
  (∀ i, ctx i = None) →
  Resolve (secret_run os (Some NewSecretRegistry)) (Some ctx) s
  = match scope_Validate s, granted os s with
    | Ok _, Some v => Ok v
    | _, _ => Err ErrSecretUnavailable
    end.
Proof. apply Resolve_granted. Qed.

(** * Snapshots can be built *)

Lemma model_validateExecutionState_Ok t p c :
  validateExecutionState t (Some p) (Some c) = Ok () ↔
  Tenant.Validate t = Ok () ∧ Tenant.CanAcceptExecution t = true ∧ Validate p (Some c) = Ok ()
  ∧ TenantID t = mp_TenantID p ∧ CanAcceptExecution p = true.
Proof.
  unfold validateExecutionState. split.
  - destruct (Tenant.Validate t) as [[]|]; [|done]. destruct (Tenant.CanAcceptExecution t); [|done]. cbn [is_ok negb].
    destruct (Validate p (Some c)) as [[]|]; [|done]. cbn [is_ok negb].
    destruct (String.eqb_spec (TenantID t) (mp_TenantID p)); [|done]. by destruct (CanAcceptExecution p).
  - intros (-> & -> & -> & -> & ->). by rewrite String.eqb_refl.
Qed.

Lemma NewModelExecutionSnapshot_Ok t p c s :
  NewModelExecutionSnapshot (Some t) (Some p) (Some c) = Ok s →
  s = mkModelSnapshot (Some t) (Some p) (Some c) ∧ validateExecutionState t (Some p) (Some c) = Ok ().
Proof.
  unfold NewModelExecutionSnapshot. go_unfold. cbn [snapshot_Tenant default].
  change (snapshot_Tenant (Some t)) with t.
  destruct (validateExecutionState _ _ _) as [[]|]; [|done]. by intros [= <-].
Qed.

Lemma sha256_hex_nonempty s : sha256_hex s ≠ ""%string.
Proof.
  unfold sha256_hex. destruct (hex_encode_chars _ (sum256_range (bytes s))) as [Hlen _].
  intros E. rewrite E, sum256_length in Hlen. done.
Qed.

(** An accepted snapshot is ready to build: its factory input is complete, carries the
    tenant, profile and digest of the snapshot, passes the checks of the builder, and a secret
    reference in it forms a valid scope of the same tenant; the snapshot survives the passage
    through a context unchanged. *)
Theorem model_snapshot_buildable specs catalog t p s :
  NewProviderCatalog specs = Ok catalog →
  NewModelExecutionSnapshot (Some t) (Some p) (Some catalog) = Ok s →
  ModelExecutionSnapshotFromContext (WithModelExecutionSnapshot s) = (s, true)
  ∧ ∃ input, FactoryInput s = Ok input ∧ validateFactoryInput input = Ok ()
    ∧ fi_TenantID input = TenantID t ∧ fi_ProfileID input = mp_ProfileID p
    ∧ fi_ContentDigest input = contentDigest SchemaVersionV1 (fi_Configuration input)
    ∧ (c_SecretRef (fi_Configuration input) ≠ ""%string →
        scope_Validate (mkSecretScope (fi_TenantID input) (c_SecretRef (fi_Configuration input))) = Ok ()).
Proof.
  intros Hc (-> & Hv)%NewModelExecutionSnapshot_Ok. apply model_NewProviderCatalog_ok in Hc.
  pose proof Hv as (Ht & Ha & Hp & Htp & Hact)%model_validateExecutionState_Ok.
  apply model_Validate_valid in Hp. pose proof Hp as [H1 H2 _ _ _ Hschema Hcfg Hdig Hver _].
  destruct (normal_configuration_complete _ _ Hc Hcfg) as (Hprov & Hmod & Hsec & Hgen).
  pose proof (Validate_inv _ _ Ht) as Hti. split.
  { unfold ModelExecutionSnapshotFromContext, WithModelExecutionSnapshot, snapshot_validate. cbn.
    by rewrite Hv; cbn; rewrite Hv. }
  unfold FactoryInput, snapshot_validate. cbn [ms_tenant ms_profile ms_catalog]. go_unfold. rewrite Hv.
  eexists. split; [done|]. cbn [fi_TenantID fi_ProfileID fi_ContentDigest fi_Configuration].
  rewrite Hdig. split_and!; try done.
  - unfold validateFactoryInput. cbn [fi_TenantID fi_ProfileID fi_ContentDigest fi_Configuration
      fi_TenantVersion fi_ProfileVersion fi_SchemaVersion]. go_unfold.
    rewrite Htp, H1, H2, Hschema, Z.eqb_refl, (proj2 (Z.ltb_ge (mp_Version p) 1)) by lia.
    rewrite (proj2 (String.eqb_neq _ ""%string) Hprov), (proj2 (String.eqb_neq _ ""%string) Hmod).
    rewrite (proj2 (String.eqb_neq _ ""%string) (sha256_hex_nonempty _ : contentDigest SchemaVersionV1 (mp_Configuration p) ≠ ""%string)).
    destruct Hti as (_ & _ & _ & _ & Htv & _). rewrite (proj2 (Z.ltb_ge (Version t) 1)) by lia. cbn [negb orb].
    destruct (String.eqb_spec (c_SecretRef (mp_Configuration p)) ""); [by rewrite Hgen|].
    by rewrite Hsec, Hgen.
  - intros Hne. unfold scope_Validate. cbn [ss_TenantID ss_SecretRef].
    rewrite Htp, H1, Hsec by done. cbn [is_ok negb]. by rewrite (proj2 (String.eqb_neq _ ""%string) Hne).
Qed.

(** A model is only ever built with a secret of its own tenant: whatever was registered,
    removed or closed before, a successful build calls the factory with the empty secret when
    the profile has no reference, and otherwise with the secret last registered under the
    tenant of the input and its reference. *)
Theorem build_uses_own_secret {M} ctx calls input os (factory : ModelFactory M) m :
  (∀ i, calls 0%nat i = None) →
  ResolveAndBuild (Some ctx) calls input
    (Some (registry_resolver (secret_run os (Some NewSecretRegistry)))) (Some factory) = Ok m →
  ∃ secret, factory (calls 1%nat) input secret = Ok (Some m)
    ∧ if (c_SecretRef (fi_Configuration input) =? "")%string then value secret = ""%string
      else granted os (mkSecretScope (fi_TenantID input) (c_SecretRef (fi_Configuration input))) = Some secret.
Proof.
  intros Hcalls. unfold ResolveAndBuild. go_unfold. destruct (validateFactoryInput input) as [[]|]; [|done].
  assert (∀ secret, match factory (calls 1%nat) input secret with
    | Ok (Some x) => Ok x | Ok None => Err ErrModelFactory
    | Err _ => match ctx_Err ctx 0 with Ok _ => Err ErrModelFactory | Err e => Err e end end = Ok m →
    factory (calls 1%nat) input secret = Ok (Some m)) as Hf.
  { intros secret. destruct (factory _ _ secret) as [[x|]|]; [by intros [= ->]|done|by destruct (ctx_Err ctx 0)]. }
  destruct (_ =? "")%string; [intros H; exists (mkSecret ""); split; [by apply Hf|done]|].
  set (sc := mkSecretScope _ _). destruct (scope_Validate sc) as [[]|] eqn:Es; [|done].
  unfold registry_resolver. rewrite Resolve_granted, Es by done.
  destruct (granted os sc) as [v|]; [|by destruct (ctx_Err ctx 0)].
  intros H. exists v. split; [by apply Hf|done].
Qed.

(** * Witnesses *)

Definition ex_tenant : Tenant :=
  mkTenant ex_tenant_id "acme" Tenant.StatusActive
    (Tenant.mkConfiguration "Acme" None None None None "" 30 MaskingBasic (S754_zero false) None
      (Some "bp_01HF7YAT00041061050R3GG28A"%string)) 1 5 5.
Definition quiet : nat → option ctx_error := λ _, None.
Definition ex_secret_scope : SecretScope := mkSecretScope ex_tenant_id "vault/openai".
Definition ex_other_scope : SecretScope := mkSecretScope "t_7ZZZZZZZZZZZZZZZZZZZZZZZZZ" "vault/openai".
Definition ex_secrets : list secret_op :=
  [SRegisterValue ex_secret_scope "old"; SRegister ex_other_scope (mkSecret "theirs");
   SRegisterValue ex_secret_scope "current"; SRemove ex_other_scope; SRegisterValue ex_other_scope ""].

Lemma secret_registry_refines_witness :
  Resolve (secret_run ex_secrets (Some NewSecretRegistry)) (Some quiet) ex_secret_scope = Ok (mkSecret "current").
Proof.
  rewrite (secret_registry_refines ex_secrets quiet ex_secret_scope (λ _, eq_refl)). vm_compute. reflexivity.
Defined.

Definition stored_profile : option Profile :=
  byID (run (Some ex_catalog) [ex_new] NewInMemoryRepository) !! (ex_tenant_id, ex_profile_id).

Lemma model_snapshot_buildable_witness :
  ∃ p s input, stored_profile = Some p
    ∧ NewModelExecutionSnapshot (Some ex_tenant) (Some p) (Some ex_catalog) = Ok s
    ∧ FactoryInput s = Ok input ∧ validateFactoryInput input = Ok ().
Proof.
  destruct stored_profile as [p|] eqn:Ep; [|vm_compute in Ep; discriminate].
  destruct (NewModelExecutionSnapshot (Some ex_tenant) (Some p) (Some ex_catalog)) as [s|e] eqn:Es.
  - destruct (model_snapshot_buildable ex_specs ex_catalog ex_tenant p s model_ex_catalog_ok Es) as (_ & input & Hi & Hv & _).
    exists p, s, input. auto.
  - exfalso. assert (match stored_profile with
      | Some p => is_ok (NewModelExecutionSnapshot (Some ex_tenant) (Some p) (Some ex_catalog))
      | None => false end = true) as H by (vm_compute; reflexivity).
    rewrite Ep, Es in H. discriminate.
Defined.

Definition ex_input : ModelFactoryInput :=
  mkModelInput ex_tenant_id 1 ex_profile_id "primary" 1 "digest" 1 (ex_configuration "" "1").
Definition ex_factory : ModelFactory string := λ _ _ secret, Ok (Some (Value secret)).

Lemma build_uses_own_secret_witness :
  ∃ secret, ex_factory quiet ex_input secret = Ok (Some "current"%string)
    ∧ granted ex_secrets ex_secret_scope = Some secret.
Proof.
  apply (build_uses_own_secret quiet (λ _, quiet) ex_input ex_secrets ex_factory "current"%string (λ _, eq_refl)).
  vm_compute. reflexivity.
Defined.
