(* ===== verification/BackendProfile.v ===== *)
(** Backend profiles, [trpcservice/backend/backend.go]: the trusted provider catalog per data
    capability, the normalization of capability bindings against it, the length-prefixed content
    digest, and the creation, validation and lifecycle of a profile.

    A map of options is a finite map; Go visits it in an unspecified order, and every error of a
    visit is the same [ErrInvalid], so the order of [map_to_list] stands for any.  Cloning is the
    identity on values; nil and empty slices and maps are not told apart, since only lengths and
    entries are read. *)
From Stdlib Require Import Ascii String.
From S2P Require Import Prelude GoStrings GoURL GoIP Sha256 OptionMaps Tenant.
Local Open Scope Z_scope.

(** * Data *)

Inductive error :=
| ErrInvalid | ErrNotFound | ErrConflict | ErrDuplicateKey | ErrDisabled | ErrInvalidTransition
| ErrRandom | ErrRegistryClosed | ErrProviderUnavailable | ErrStorageFactory | ErrCapabilityUnavailable
| ErrContext (e : ctx_error).
#[export] Instance error_eq_dec : EqDecision error.
Proof. solve_decision. Defined.

Definition currentSchemaVersion : Z := 1.
Definition maxEndpointLength : Z := 2048.
Definition maxOptionValueLength : Z := 4096.
Definition maxSecretRefLength : Z := 256.

Definition StatusActive : string := "active".
Definition StatusSuspended : string := "suspended".
Definition StatusDisabled : string := "disabled".

Definition CapabilitySession : string := "session".
Definition CapabilityMemory : string := "memory".
Definition CapabilitySummary : string := "summary".
Definition CapabilityKnowledge : string := "knowledge".
Definition CapabilityArtifact : string := "artifact".
Definition CapabilityAudit : string := "audit".

Record CapabilityBinding := mkBinding {
  b_Capability : string; b_Provider : string; b_Endpoint : string; b_Options : gmap string string;
  b_SecretRef : string }.
#[export] Instance binding_eq_dec : EqDecision CapabilityBinding.
Proof. solve_decision. Defined.

Record Profile := mkProfile {
  bp_TenantID : string; bp_ProfileID : string; bp_ProfileKey : string; bp_DisplayName : string;
  bp_Description : string; bp_Status : string; bp_SchemaVersion : Z;
  bp_Bindings : list CapabilityBinding; bp_ContentDigest : string; bp_Version : Z;
  bp_CreatedAt : stamp; bp_UpdatedAt : stamp }.

Record ChangeMetadata := mkMetadata {
  ActorType : string; ActorID : string; Reason : string; CorrelationID : string }.

Record CreateInput := mkCreateInput {
  ci_TenantID : string; ci_ProfileKey : string; ci_DisplayName : string; ci_Description : string;
  ci_Status : string; ci_SchemaVersion : Z; ci_Bindings : list CapabilityBinding;
  ci_Metadata : ChangeMetadata }.

Definition FieldForbidden : string := "forbidden".
Definition FieldOptional : string := "optional".
Definition FieldRequired : string := "required".
Definition OptionString : string := "string".
Definition OptionBoolean : string := "boolean".
Definition OptionInteger : string := "integer".
Definition OptionEnum : string := "enum".

Record OptionSpec := mkOptionSpec {
  Kind : string; Required : bool; DefaultValue : option string; AllowedValues : list string;
  MinInteger : option Z; MaxInteger : option Z }.

Record ProviderSpec := mkProviderSpec {
  Provider : string; Capabilities : list string; EndpointPolicy : string;
  EndpointSchemes : list string; SecretRefPolicy : string; Options : gmap string OptionSpec }.

Record compiledProviderSpec := mkCompiled {
  provider : string; endpointPolicy : string; endpointSchemes : gset string;
  secretRefPolicy : string; options : gmap string OptionSpec }.

(** A catalog maps a capability to its providers; a nil catalog is [None]. *)
Definition ProviderCatalog : Type := gmap string (gmap string compiledProviderSpec).

Definition validStatus (status : string) : bool :=
  (status =? StatusActive)%string || (status =? StatusSuspended)%string || (status =? StatusDisabled)%string.

Definition validCapability (capability : string) : bool :=
  in_list capability [CapabilitySession; CapabilityMemory; CapabilitySummary; CapabilityKnowledge;
    CapabilityArtifact; CapabilityAudit].

Definition capabilityRank (capability : string) : Z :=
  if (capability =? CapabilitySession)%string then 0
  else if (capability =? CapabilityMemory)%string then 1
  else if (capability =? CapabilitySummary)%string then 2
  else if (capability =? CapabilityKnowledge)%string then 3
  else if (capability =? CapabilityArtifact)%string then 4
  else if (capability =? CapabilityAudit)%string then 5
  else 6.

Definition hasCapability (bindings : list CapabilityBinding) (capability : string) : bool :=
  existsb (λ b, (b_Capability b =? capability)%string) bindings.

(** * Names and keys *)

Definition hasControl (value : string) : bool := existsb is_control (runes value).

Definition validFieldPolicy (policy : string) : bool :=
  (policy =? FieldForbidden)%string || (policy =? FieldOptional)%string || (policy =? FieldRequired)%string.

(** A lower-case letter followed by bytes of a class. *)
Definition letter_then (rest : Z → bool) (s : string) : bool :=
  match s with
  | EmptyString => false
  | String a s' => is_lower (byte_val a) && all_bytes rest s'
  end.
Definition validProviderName (provider : string) : bool :=
  negb ((len provider <? 1) || (64 <? len provider))
  && letter_then (λ c, is_lower c || is_digit c || (c =? 95) || (c =? 45)) provider.
Definition validOptionKey (key : string) : bool :=
  negb ((len key <? 1) || (64 <? len key)) && letter_then (λ c, is_lower c || is_digit c || (c =? 95)) key.
Definition validScheme (scheme : string) : bool :=
  letter_then (λ c, is_lower c || is_digit c || (c =? 43) || (c =? 45) || (c =? 46)) scheme.

Definition sensitiveOptionKeys : list string :=
  ["api_key"; "access_key"; "secret_key"; "private_key"; "connection_string"]%string.
Definition sensitiveOptionParts : list string :=
  ["password"; "passwd"; "pwd"; "token"; "secret"; "credential"; "credentials"; "dsn"]%string.
Definition sensitiveOptionSequences : list string :=
  ["apikey"; "accesskey"; "secretkey"; "privatekey"; "connectionstring"; "password"; "passwd"; "pwd";
   "passphrase"; "token"; "secret"; "credential"; "credentials"; "dsn"]%string.

Definition sensitiveOptionKey (key : string) : bool :=
  in_list key sensitiveOptionKeys
  || existsb (λ part, in_list part sensitiveOptionParts) (split 95 key)
  || existsb (contains (remove_bytes (Z.eqb 95) key)) sensitiveOptionSequences.

(** The first rune is a letter or digit, the others may be [. _ : / -] as well. *)
Definition validSecretRef (ref : string) : bool :=
  match runes ref with
  | [] => false
  | r :: rs => is_alnum r
      && forallb (λ c, is_alnum c || (c =? 46) || (c =? 95) || (c =? 58) || (c =? 47) || (c =? 45)) rs
  end.

Definition validZone (zone : string) : bool :=
  negb ((zone =? "")%string || (64 <? len zone))
  && forallb (λ c, is_alnum c || (c =? 95) || (c =? 45) || (c =? 46)) (runes zone).

(** * Option values *)

Definition normalizeOptionValue (value : string) (spec : OptionSpec) : result error string :=
  let value := trim_space value in
  if (value =? "")%string || (maxOptionValueLength <? len value) || hasControl value then Err ErrInvalid
  else if (Kind spec =? OptionString)%string then Ok value
  else if (Kind spec =? OptionBoolean)%string then
    match ParseBool (to_lower value) with Some b => Ok (FormatBool b) | None => Err ErrInvalid end
  else if (Kind spec =? OptionInteger)%string then
    match ParseInt64 value with
    | None => Err ErrInvalid
    | Some parsed =>
        if opt_test (λ lo, parsed <? lo) (MinInteger spec) then Err ErrInvalid
        else if opt_test (λ hi, hi <? parsed) (MaxInteger spec) then Err ErrInvalid
        else Ok (itoa parsed)
    end
  else if (Kind spec =? OptionEnum)%string then
    let value := to_lower value in
    if in_list value (AllowedValues spec) then Ok value else Err ErrInvalid
  else Err ErrInvalid.

(** * Compiling the catalog *)

Definition validateOptionShape (spec : OptionSpec) : result error unit :=
  _ ← guard_ok (in_list (Kind spec) [OptionString; OptionBoolean; OptionInteger; OptionEnum]) ErrInvalid;
  guard_ok (negb (Required spec && negb (opt_is_nil (DefaultValue spec)))) ErrInvalid.

Definition validateIntegerBounds (spec : OptionSpec) : result error unit :=
  if negb (Kind spec =? OptionInteger)%string
    && (negb (opt_is_nil (MinInteger spec)) || negb (opt_is_nil (MaxInteger spec))) then Err ErrInvalid
  else match MinInteger spec, MaxInteger spec with
  | Some lo, Some hi => if hi <? lo then Err ErrInvalid else Ok ()
  | _, _ => Ok ()
  end.

Fixpoint normalize_enum (seen : gset string) (values : list string) : result error (list string) :=
  match values with
  | [] => Ok []
  | value :: values' =>
      let value := to_lower (trim_space value) in
      if (value =? "")%string || (maxOptionValueLength <? len value) || hasControl value then Err ErrInvalid
      else if bool_decide (value ∈ seen) then Err ErrInvalid
      else rest ← normalize_enum ({[value]} ∪ seen) values'; Ok (value :: rest)
  end.
Definition normalizeEnumValues (values : list string) : result error (list string) :=
  match values with [] => Err ErrInvalid | _ => normalize_enum ∅ values end.

Definition compileOptionSpec (spec : OptionSpec) : result error OptionSpec :=
  _ ← validateOptionShape spec;
  _ ← validateIntegerBounds spec;
  values ← if (Kind spec =? OptionEnum)%string then normalizeEnumValues (AllowedValues spec)
           else match AllowedValues spec with [] => Ok [] | _ => Err ErrInvalid end;
  let compiled := mkOptionSpec (Kind spec) (Required spec) (DefaultValue spec) values
    (MinInteger spec) (MaxInteger spec) in
  match DefaultValue compiled with
  | None => Ok compiled
  | Some d =>
      normalized ← normalizeOptionValue d compiled;
      Ok (mkOptionSpec (Kind spec) (Required spec) (Some normalized) values (MinInteger spec) (MaxInteger spec))
  end.

Definition compileProviderName (raw : string) : result error string :=
  let provider := to_lower (trim_space raw) in
  if negb (provider =? raw)%string || negb (validProviderName provider) then Err ErrInvalid else Ok provider.

Fixpoint compile_capabilities (seen : gset string) (raw : list string) : result error (list string) :=
  match raw with
  | [] => Ok []
  | capability :: raw' =>
      if negb (validCapability capability) then Err ErrInvalid
      else if bool_decide (capability ∈ seen) then Err ErrInvalid
      else rest ← compile_capabilities ({[capability]} ∪ seen) raw'; Ok (capability :: rest)
  end.
Definition compileCapabilities (raw : list string) : result error (list string) :=
  match raw with [] => Err ErrInvalid | _ => compile_capabilities ∅ raw end.

Fixpoint compile_schemes (schemes : gset string) (raw : list string) : result error (gset string) :=
  match raw with
  | [] => Ok schemes
  | scheme :: raw' =>
      let normalized := to_lower (trim_space scheme) in
      if negb (normalized =? scheme)%string || negb (validScheme normalized) then Err ErrInvalid
      else if bool_decide (normalized ∈ schemes) then Err ErrInvalid
      else compile_schemes ({[normalized]} ∪ schemes) raw'
  end.
Definition compileEndpointSchema (endpointPolicy secretRefPolicy : string) (raw : list string)
    : result error (gset string) :=
  _ ← guard_ok (validFieldPolicy endpointPolicy && validFieldPolicy secretRefPolicy) ErrInvalid;
  schemes ← compile_schemes ∅ raw;
  _ ← guard_ok (negb ((endpointPolicy =? FieldForbidden)%string && negb (bool_decide (schemes = ∅)))) ErrInvalid;
  _ ← guard_ok (negb (negb (endpointPolicy =? FieldForbidden)%string && bool_decide (schemes = ∅))) ErrInvalid;
  Ok schemes.

Fixpoint compile_options (entries : list (string * OptionSpec)) : result error (gmap string OptionSpec) :=
  match entries with
  | [] => Ok ∅
  | (key, option) :: entries' =>
      let normalizedKey := to_lower (trim_space key) in
      if negb (normalizedKey =? key)%string || negb (validOptionKey normalizedKey)
        || sensitiveOptionKey normalizedKey then Err ErrInvalid
      else
        compiled ← compileOptionSpec option;
        rest ← compile_options entries';
        Ok (<[key := compiled]> rest)
  end.
Definition compileProviderOptions (raw : gmap string OptionSpec) : result error (gmap string OptionSpec) :=
  compile_options (map_to_list raw).

Definition compileProviderSpec (spec : ProviderSpec) : result error (compiledProviderSpec * list string) :=
  provider ← compileProviderName (Provider spec);
  capabilities ← compileCapabilities (Capabilities spec);
  schemes ← compileEndpointSchema (EndpointPolicy spec) (SecretRefPolicy spec) (EndpointSchemes spec);
  options ← compileProviderOptions (Options spec);
  Ok (mkCompiled provider (EndpointPolicy spec) schemes (SecretRefPolicy spec) options, capabilities).

Fixpoint add_capabilities (catalog : ProviderCatalog) (compiled : compiledProviderSpec)
    (capabilities : list string) : result error ProviderCatalog :=
  match capabilities with
  | [] => Ok catalog
  | capability :: capabilities' =>
      let byProvider := default ∅ (catalog !! capability) in
      if negb (opt_is_nil (byProvider !! provider compiled)) then Err ErrInvalid
      else add_capabilities (<[capability := <[provider compiled := compiled]> byProvider]> catalog)
             compiled capabilities'
  end.
Fixpoint add_providers (catalog : ProviderCatalog) (specs : list ProviderSpec) : result error ProviderCatalog :=
  match specs with
  | [] => Ok catalog
  | spec :: specs' =>
      '(compiled, capabilities) ← compileProviderSpec spec;
      catalog ← add_capabilities catalog compiled capabilities;
      add_providers catalog specs'
  end.
Definition NewProviderCatalog (specs : list ProviderSpec) : result error ProviderCatalog :=
  match specs with [] => Err ErrInvalid | _ => add_providers ∅ specs end.

(** * Endpoints *)

Definition asciiLetterOrDigit (value : Z) : bool := is_alnum value.

Definition valid_label (label : string) : bool :=
  negb ((len label =? 0) || (63 <? len label))
  && match label with String a _ => asciiLetterOrDigit (byte_val a) | EmptyString => false end
  && match last_byte label with Some b => asciiLetterOrDigit b | None => false end
  && all_bytes (λ b, asciiLetterOrDigit b || (b =? 45)) (drop_last (drop_bytes 1 label)).

Definition validDNSHostname (hostname : string) : bool :=
  if (len hostname =? 0) || (253 <? len hostname) then false
  else
    let hostname := trim_suffix_byte hostname 46 in
    if (hostname =? "")%string then false
    else forallb valid_label (split 46 hostname).

Definition validEndpointURL (parsed : URL) : bool :=
  negb (Scheme parsed =? "")%string && negb (Host parsed =? "")%string && negb (Hostname parsed =? "")%string
  && (OpaqueData parsed =? "")%string && negb (has_byte 44 (Host parsed)).

Definition endpointHasForbiddenParts (parsed : URL) : bool :=
  negb (opt_is_nil (User parsed)) || negb (RawQuery parsed =? "")%string || ForceQuery parsed
  || negb (Fragment parsed =? "")%string.

Definition normalizeIPv6Authority (parsed : URL) (authority hostname port : string) : result error URL :=
  match cut_last 93 authority with
  | None => Err ErrInvalid
  | Some (_, suffix) =>
      if negb (suffix =? "")%string && (negb (has_prefix suffix ":") || (port =? "")%string) then Err ErrInvalid
      else
        let '(address, zone) := match cut_last 37 hostname with
          | Some (a, z) => (a, Some z)
          | None => (hostname, None)
          end in
        match ParseIP address with
        | None => Err ErrInvalid
        | Some ip =>
            if negb (has_byte 58 address) || match zone with Some z => negb (validZone z) | None => false end
            then Err ErrInvalid
            else match To4 ip with
            | Some fields =>
                if negb (opt_is_nil zone) then Err ErrInvalid
                else if negb (port =? "")%string
                  then Ok (with_host parsed (JoinHostPort (dotted fields) port))
                  else Ok (with_host parsed (dotted fields))
            | None =>
                let canonicalHostname := (IP_String ip ++ zone_text zone)%string in
                if negb (port =? "")%string then Ok (with_host parsed (JoinHostPort canonicalHostname port))
                else Ok (with_host parsed ("[" ++ canonicalHostname ++ "]"))
            end
        end
  end.

Definition normalizeHostAuthority (parsed : URL) (authority hostname port : string) : result error URL :=
  if (1 <? count_byte 58 authority)%nat || (has_byte 58 authority && (port =? "")%string) then Err ErrInvalid
  else if opt_is_nil (ParseIP hostname) && negb (validDNSHostname hostname) then Err ErrInvalid
  else
    let hostname := to_lower hostname in
    if negb (port =? "")%string then Ok (with_host parsed (JoinHostPort hostname port))
    else Ok (with_host parsed hostname).

Definition normalizeEndpointAuthority (parsed : URL) : result error URL :=
  let authority := Host parsed in
  let hostname := Hostname parsed in
  port ← if (Port parsed =? "")%string then Ok ""%string
         else match ParseUint16 (Port parsed) with
         | None => Err ErrInvalid
         | Some portNumber => if portNumber =? 0 then Err ErrInvalid else Ok (itoa portNumber)
         end;
  if has_prefix authority "[" then normalizeIPv6Authority parsed authority hostname port
  else normalizeHostAuthority parsed authority hostname port.

Definition normalizeEndpoint (endpoint policy : string) (schemes : gset string) : result error string :=
  let endpoint := trim_space endpoint in
  if (endpoint =? "")%string then
    if (policy =? FieldRequired)%string then Err ErrInvalid else Ok ""%string
  else if (policy =? FieldForbidden)%string then Err ErrInvalid
  else if (maxEndpointLength <? len endpoint) || hasControl endpoint then Err ErrInvalid
  else if has_byte 35 endpoint then Err ErrInvalid
  else match url_Parse endpoint with
  | None => Err ErrInvalid
  | Some parsed =>
      if negb (validEndpointURL parsed) then Err ErrInvalid
      else if endpointHasForbiddenParts parsed then Err ErrInvalid
      else if hasControl (Path parsed) then Err ErrInvalid
      else
        let parsed := with_scheme parsed (to_lower (Scheme parsed)) in
        parsed ← normalizeEndpointAuthority parsed;
        _ ← guard_ok (bool_decide (Scheme parsed ∈ schemes)) ErrInvalid;
        let canonical := url_String parsed in
        if maxEndpointLength <? len canonical then Err ErrInvalid else Ok canonical
  end.

(** * Normalizing bindings *)

Definition normalizeSecretRef (secretRef policy : string) : result error string :=
  let secretRef := trim_space secretRef in
  if (secretRef =? "")%string then
    if (policy =? FieldRequired)%string then Err ErrInvalid else Ok ""%string
  else if (policy =? FieldForbidden)%string then Err ErrInvalid
  else if (maxSecretRefLength <? len secretRef) || negb (validSecretRef secretRef) then Err ErrInvalid
  else Ok secretRef.

Fixpoint normalize_entries (entries : list (string * string)) (specs : gmap string OptionSpec)
    (normalized : gmap string string) : result error (gmap string string) :=
  match entries with
  | [] => Ok normalized
  | (rawKey, rawValue) :: entries' =>
      let key := to_lower (trim_space rawKey) in
      if negb (key =? rawKey)%string || negb (validOptionKey key) || sensitiveOptionKey key then Err ErrInvalid
      else match specs !! key with
      | None => Err ErrInvalid
      | Some spec =>
          value ← normalizeOptionValue rawValue spec;
          normalize_entries entries' specs (<[key := value]> normalized)
      end
  end.
Fixpoint fill_defaults (specs : list (string * OptionSpec)) (normalized : gmap string string)
    : result error (gmap string string) :=
  match specs with
  | [] => Ok normalized
  | (key, spec) :: specs' =>
      if negb (opt_is_nil (normalized !! key)) then fill_defaults specs' normalized
      else match DefaultValue spec with
      | Some d => fill_defaults specs' (<[key := d]> normalized)
      | None => if Required spec then Err ErrInvalid else fill_defaults specs' normalized
      end
  end.

Definition normalizeBinding (spec : compiledProviderSpec) (capability endpoint : string)
    (opts : gmap string string) (secretRef : string) : result error CapabilityBinding :=
  endpoint ← normalizeEndpoint endpoint (endpointPolicy spec) (endpointSchemes spec);
  secretRef ← normalizeSecretRef secretRef (secretRefPolicy spec);
  normalizedOptions ← normalize_entries (map_to_list opts) (options spec) ∅;
  normalizedOptions ← fill_defaults (map_to_list (options spec)) normalizedOptions;
  Ok (mkBinding capability (provider spec) endpoint normalizedOptions secretRef).

Fixpoint normalize_bindings (catalog : ProviderCatalog) (seen : gset string) (bindings : list CapabilityBinding)
    : result error (list CapabilityBinding) :=
  match bindings with
  | [] => Ok []
  | b :: bindings' =>
      if negb (validCapability (b_Capability b)) then Err ErrInvalid
      else if bool_decide (b_Capability b ∈ seen) then Err ErrInvalid
      else
        let provider := to_lower (trim_space (b_Provider b)) in
        if negb (validProviderName provider) then Err ErrInvalid
        else match default ∅ (catalog !! b_Capability b) !! provider with
        | None => Err ErrInvalid
        | Some spec =>
            normalized ← normalizeBinding spec (b_Capability b) (b_Endpoint b) (b_Options b) (b_SecretRef b);
            rest ← normalize_bindings catalog ({[b_Capability b]} ∪ seen) bindings';
            Ok (normalized :: rest)
        end
  end.

Definition rank_le (x y : CapabilityBinding) : Prop :=
  capabilityRank (b_Capability x) ≤ capabilityRank (b_Capability y).
#[export] Instance rank_le_dec : RelDecision rank_le.
Proof. intros x y. unfold rank_le. apply _. Defined.

(** Capabilities do not repeat, so sorting by rank has one result. *)
Definition NormalizeBindings (catalog : option ProviderCatalog) (bindings : list CapabilityBinding)
    : result error (list CapabilityBinding) :=
  match catalog with
  | None => Err ErrInvalid
  | Some c =>
      if bool_decide (c = ∅) then Err ErrInvalid
      else result ← normalize_bindings c ∅ bindings; Ok (merge_sort rank_le result)
  end.

(** * The content digest *)

Definition writeDigestString (value : string) : list Z := be_bytes 8 (len value) ++ bytes value.

Definition key_le (x y : string * string) : Prop := String.le x.1 y.1.
#[export] Instance key_le_dec : RelDecision key_le.
Proof. intros x y. unfold key_le. apply _. Defined.

Definition digest_options (opts : gmap string string) : list string :=
  let entries := merge_sort key_le (map_to_list opts) in
  itoa (Z.of_nat (length entries)) :: (entries ≫= λ e, [e.1; e.2]).
Definition digest_binding (b : CapabilityBinding) : list string :=
  [b_Capability b; b_Provider b; b_Endpoint b] ++ digest_options (b_Options b) ++ [b_SecretRef b].
Definition digest_fields (schemaVersion : Z) (bindings : list CapabilityBinding) : list string :=
  [itoa schemaVersion; itoa (Z.of_nat (length bindings))] ++ (bindings ≫= digest_binding).
(** The bytes written to the hash. *)
Definition digest_bytes (schemaVersion : Z) (bindings : list CapabilityBinding) : list Z :=
  digest_fields schemaVersion bindings ≫= writeDigestString.
Definition contentDigest (schemaVersion : Z) (bindings : list CapabilityBinding) : string :=
  hex_encode (sum256 (digest_bytes schemaVersion bindings)).

Definition normalizeConfiguration (schemaVersion : Z) (bindings : list CapabilityBinding)
    (catalog : option ProviderCatalog) : result error (list CapabilityBinding * string) :=
  if negb (schemaVersion =? currentSchemaVersion) then Err ErrInvalid
  else
    normalized ← NormalizeBindings catalog bindings;
    Ok (normalized, contentDigest schemaVersion normalized).

Definition stringMapsEqual (left right : gmap string string) : bool :=
  (size left =? size right)%nat
  && forallb (λ e, match right !! e.1 with Some v => (v =? e.2)%string | None => false end) (map_to_list left).
Definition binding_equal (left right : CapabilityBinding) : bool :=
  (b_Capability left =? b_Capability right)%string && (b_Provider left =? b_Provider right)%string
  && (b_Endpoint left =? b_Endpoint right)%string && (b_SecretRef left =? b_SecretRef right)%string
  && stringMapsEqual (b_Options left) (b_Options right).
Fixpoint bindingsEqual (left right : list CapabilityBinding) : bool :=
  match left, right with
  | [], [] => true
  | x :: left', y :: right' => binding_equal x y && bindingsEqual left' right'
  | _, _ => false
  end.

(** * Profiles *)

Definition validateLifecycleConfiguration (status : string) (bindings : list CapabilityBinding) : result error unit :=
  if negb (status =? StatusDisabled)%string && match bindings with [] => true | _ => false end then Err ErrInvalid
  else if (status =? StatusActive)%string && negb (hasCapability bindings CapabilitySession) then Err ErrInvalid
  else Ok ().

Definition normalizeMetadata (displayName description : string) : result error (string * string) :=
  let displayName := trim_space displayName in
  let description := trim_space description in
  let n := rune_count displayName in
  if (n <? 1) || (200 <? n) then Err ErrInvalid
  else if 2000 <? rune_count description then Err ErrInvalid
  else Ok (displayName, description).

Definition normalizeProfileKey (key : string) : result error string :=
  let key := to_lower (trim_space key) in
  if (len key <? 2) || (64 <? len key) then Err ErrInvalid
  else match bytes key with
  | [] => Err ErrInvalid
  | c0 :: rest =>
      if (c0 <? 97) || (122 <? c0) then Err ErrInvalid
      else if forallb key_byte rest then Ok key else Err ErrInvalid
  end.

Definition validateCrockfordID (id prefix : string) : result error unit :=
  if negb (len id =? len prefix + 26) || negb (has_prefix id prefix) then Err ErrInvalid
  else
    let payload := drop_bytes (String.length prefix) id in
    match bytes payload with
    | [] => Err ErrInvalid
    | c :: _ =>
        if 55 <? c then Err ErrInvalid
        else if forallb crockford_rune (runes payload) then Ok () else Err ErrInvalid
    end.
Definition validateTenantID (id : string) : result error unit := validateCrockfordID id "t_".
Definition validateProfileID (id : string) : result error unit := validateCrockfordID id "bp_".

Definition newProfileID (ms : Z) (random : option (list Z)) : result error string :=
  match random with
  | None => Err ErrRandom
  | Some r => Ok ("bp_" ++ encode_digits 26 (set_bytes (clock_bytes 6 ms ++ r)))%string
  end.

(** [now] is the answer of [time.Now] converted to UTC. *)
Definition NewProfile (ms : Z) (random : option (list Z)) (now : time) (input : CreateInput)
    (catalog : option ProviderCatalog) : result error Profile :=
  _ ← validateTenantID (ci_TenantID input);
  key ← normalizeProfileKey (ci_ProfileKey input);
  '(displayName, description) ← normalizeMetadata (ci_DisplayName input) (ci_Description input);
  let status := if (ci_Status input =? "")%string then StatusActive else ci_Status input in
  _ ← guard_ok ((status =? StatusActive)%string || (status =? StatusSuspended)%string) ErrInvalid;
  let schemaVersion := if ci_SchemaVersion input =? 0 then currentSchemaVersion else ci_SchemaVersion input in
  '(bindings, digest) ← normalizeConfiguration schemaVersion (ci_Bindings input) catalog;
  _ ← validateLifecycleConfiguration status bindings;
  id ← newProfileID ms random;
  let now := mkStamp now true in
  Ok (mkProfile (ci_TenantID input) id key displayName description status schemaVersion bindings
        digest 1 now now).

Definition Validate (p : Profile) (catalog : option ProviderCatalog) : result error unit :=
  _ ← validateTenantID (bp_TenantID p);
  _ ← validateProfileID (bp_ProfileID p);
  key ← normalizeProfileKey (bp_ProfileKey p);
  _ ← guard_ok (key =? bp_ProfileKey p)%string ErrInvalid;
  '(displayName, description) ← normalizeMetadata (bp_DisplayName p) (bp_Description p);
  _ ← guard_ok ((displayName =? bp_DisplayName p)%string && (description =? bp_Description p)%string) ErrInvalid;
  _ ← guard_ok (validStatus (bp_Status p)) ErrInvalid;
  '(bindings, digest) ← normalizeConfiguration (bp_SchemaVersion p) (bp_Bindings p) catalog;
  _ ← guard_ok (bindingsEqual bindings (bp_Bindings p)) ErrInvalid;
  _ ← validateLifecycleConfiguration (bp_Status p) bindings;
  _ ← guard_ok (bp_ContentDigest p =? digest)%string ErrInvalid;
  guard_ok (negb ((bp_Version p <? 1) || stamp_zero (bp_CreatedAt p) || stamp_zero (bp_UpdatedAt p)
    || stamp_before (bp_UpdatedAt p) (bp_CreatedAt p)
    || negb (utc (bp_CreatedAt p)) || negb (utc (bp_UpdatedAt p)))) ErrInvalid.

Definition CanAcceptExecution (p : Profile) : bool :=
  (bp_Status p =? StatusActive)%string && hasCapability (bp_Bindings p) CapabilitySession.

Definition CanTransitionTo (p : Profile) (next : string) : bool :=
  if (bp_Status p =? StatusActive)%string
    then (next =? StatusSuspended)%string || (next =? StatusDisabled)%string
  else if (bp_Status p =? StatusSuspended)%string
    then (next =? StatusActive)%string || (next =? StatusDisabled)%string
  else false.

#[global] Arguments normalizeConfiguration : simpl never.
#[global] Arguments NormalizeBindings : simpl never.
#[global] Arguments normalizeEndpoint : simpl never.
#[global] Arguments contentDigest : simpl never.
#[global] Arguments Validate : simpl never.
#[global] Arguments validateCrockfordID : simpl never.
#[global] Arguments normalizeProfileKey : simpl never.
#[global] Arguments normalizeMetadata : simpl never.
#[global] Arguments newProfileID : simpl never.

(** * Endpoints are read back *)

Lemma backend_validDNSHostname_name h : validDNSHostname h = true → all_bytes name_char h = true.
Proof.
  unfold validDNSHostname. destruct (_ || _); [done|]. destruct (_ =? "")%string; [done|].
  rewrite forallb_forall. intros H.
  assert (all_bytes name_char (trim_suffix_byte h 46) = true) as Ht.
  { apply labels_name. intros part Hp%list_elem_of_In.
    specialize (H part Hp). unfold valid_label in H. bool_prop. by split_and!. }
  unfold trim_suffix_byte in Ht. destruct (match last_byte h with Some b => b =? 46 | None => false end) eqn:E; [|done].
  pose proof (bytes_ends h) as Hends. destruct h as [|a h]; [done|]. destruct Hends as [_ (b & Hb & Hbs)].
  rewrite Hb in E. unfold all_bytes in *. rewrite Hbs, forallb_app, Ht. apply Z.eqb_eq in E as ->. done.
Qed.

Lemma validZone_chars z : validZone z = true → all_bytes zone_char z = true.
Proof.
  unfold validZone. intros [_ H]%andb_true_iff. unfold all_bytes. rewrite forallb_forall in H |- *.
  intros b Hb%list_elem_of_In.
  assert (Forall (λ r, r < 128) (runes z)) as Hascii.
  { apply Forall_forall. intros r Hr%list_elem_of_In. specialize (H r Hr). unfold is_alnum, is_lower, is_upper, is_digit in H.
    destruct (Z.ltb_spec r 128) as [|Hge]; [done|]. exfalso.
    rewrite (proj2 (Z.leb_gt r 122)), (proj2 (Z.leb_gt r 90)), (proj2 (Z.leb_gt r 57)), !andb_false_r in H by lia.
    rewrite !(proj2 (Z.eqb_neq _ _)) in H by lia. done. }
  assert (runes z = bytes z) as E.
  { apply runes_ascii_bytes. exact Hascii. }
  rewrite E in H. apply H. by apply list_elem_of_In.
Qed.

Lemma JoinHostPort_nonempty h p : JoinHostPort h p ≠ ""%string.
Proof. unfold JoinHostPort. destruct (has_byte 58 h); [done|]. by destruct h. Qed.

Lemma normalizeIPv6Authority_good u authority hostname port v :
  all_bytes is_digit port = true → normalizeIPv6Authority u authority hostname port = Ok v →
  ∃ h, v = with_host u h ∧ good_host h ∧ h ≠ ""%string.
Proof.
  intros Hport. unfold normalizeIPv6Authority. destruct (cut_last 93 authority) as [[x suffix]|]; [|done].
  destruct (_ && _); [done|].
  destruct (match cut_last 37 hostname with Some (a, z) => (a, Some z) | None => (hostname, None) end) as [address zone].
  destruct (ParseIP address) as [ip|] eqn:Eip; [|done]. destruct (_ || _) eqn:Ebad; [done|].
  apply orb_false_iff in Ebad as [_ Hzone]. pose proof (ParseIP_length _ _ Eip) as Hlen.
  destruct (To4 ip) as [fields|] eqn:E4.
  - assert (fields ≠ []) as Hne.
    { unfold To4 in E4. case_bool_decide; [|done]. injection E4 as <-. intros E%(f_equal length).
      rewrite length_drop, Hlen in E. done. }
    destruct (opt_is_nil zone); [|done]. cbn [negb].
    destruct (port =? "")%string; cbn [negb]; intros [= <-]; eexists; (split; [done|]).
    + split; [apply good_name, dotted_name|by apply dotted_nonempty].
    + split; [|apply JoinHostPort_nonempty]. unfold JoinHostPort.
      rewrite (all_bytes_absent name_char 58) by (try done; apply dotted_name).
      apply good_name_port; [apply dotted_name|done].
  - assert (text_ok zone_char zone) as Hz.
    { destruct zone as [z|]; [|done]. apply negb_false_iff in Hzone. by apply validZone_chars. }
    assert (IP_String ip = appendTo6 ip) as Hs by (unfold IP_String; by rewrite E4).
    destruct (port =? "")%string; cbn [negb]; intros [= <-]; eexists; (split; [done|]).
    + split; [|done]. replace ("[" ++ (IP_String ip ++ zone_text zone) ++ "]")%string
        with (bracketed (IP_String ip) zone None) by (unfold bracketed, port_text; by rewrite !string_app_assoc).
      apply good_bracketed; [apply IP_String_address|done|done].
    + split; [|apply JoinHostPort_nonempty]. apply good_join; [apply IP_String_address|done|done|].
      intros _. rewrite Hs. by apply appendTo6_colon.
Qed.

Lemma normalizeHostAuthority_good u port v :
  all_bytes is_digit port = true → has_prefix (Host u) "[" = false → (Port u = ""%string → port = ""%string) →
  Hostname u ≠ ""%string → normalizeHostAuthority u (Host u) (Hostname u) port = Ok v →
  ∃ h, v = with_host u h ∧ good_host h ∧ h ≠ ""%string.
Proof.
  intros Hport Hb Hpn Hne. unfold normalizeHostAuthority. destruct (_ || _) eqn:Ec; [done|].
  apply orb_false_iff in Ec as [Hcount Hcolon]. apply Nat.ltb_ge in Hcount.
  destruct (opt_is_nil _ && _) eqn:Ename; [done|].
  assert (has_byte 58 (Hostname u) = false) as Hnc.
  { apply hostname_no_colon; [done|done|]. intros Hh. rewrite Hh in Hcolon. cbn in Hcolon.
    apply String.eqb_neq in Hcolon. intros E. apply Hcolon, Hpn. exact E. }
  assert (all_bytes name_char (Hostname u) = true) as Hn.
  { destruct (ParseIP (Hostname u)) as [ip|] eqn:Eip.
    - eapply all_bytes_impl; [|by eapply ParseIP_plain]. byte_classes.
    - cbn in Ename. apply negb_false_iff in Ename. by apply backend_validDNSHostname_name. }
  assert (bytes (to_lower (Hostname u)) = lower_rune <$> bytes (Hostname u)) as Hbytes.
  { apply to_lower_ascii. revert Hn. apply all_bytes_impl. byte_classes. }
  assert (to_lower (Hostname u) ≠ ""%string) as Hlne.
  { intros E. rewrite E in Hbytes. by destruct (Hostname u). }
  apply lower_name in Hn.
  destruct (port =? "")%string; cbn [negb]; intros [= <-]; eexists; (split; [done|]).
  - split; [by apply good_name|done].
  - split; [|apply JoinHostPort_nonempty]. unfold JoinHostPort.
    rewrite (all_bytes_absent name_char 58) by done. by apply good_name_port.
Qed.

Lemma backend_normalizeEndpointAuthority_good u v :
  Hostname u ≠ ""%string → normalizeEndpointAuthority u = Ok v →
  ∃ h, v = with_host u h ∧ good_host h ∧ h ≠ ""%string.
Proof.
  intros Hne. unfold normalizeEndpointAuthority. go_unfold.
  destruct (if (Port u =? "")%string then _ else _) as [port|] eqn:Eport; [|done].
  assert (all_bytes is_digit port = true ∧ (Port u = ""%string → port = ""%string)) as [Hport Hpn].
  { destruct (String.eqb_spec (Port u) ""); simplify_eq; [done|].
    destruct (ParseUint16 _) as [k|] eqn:En; [|done].
    apply ParseUint16_digits in En as [? _]. destruct (k =? 0); by simplify_eq. }
  destruct (has_prefix (Host u) "[") eqn:Eb.
  - by apply normalizeIPv6Authority_good.
  - by apply normalizeHostAuthority_good.
Qed.

(** What an accepted endpoint denotes: a network URL of an allowed scheme, without user
    information, query and fragment. *)
Definition endpoint_allowed (schemes : gset string) (endpoint : string) : Prop :=
  len endpoint ≤ maxEndpointLength
  ∧ ∃ u, url_Parse endpoint = Some u ∧ bare u ∧ Scheme u ∈ schemes ∧ Host u ≠ ""%string.

Lemma backend_normalizeEndpoint_allowed e policy schemes c :
  normalizeEndpoint e policy schemes = Ok c →
  c = ""%string ∧ policy ≠ FieldRequired
  ∨ c ≠ ""%string ∧ policy ≠ FieldForbidden ∧ endpoint_allowed schemes c.
Proof.
  unfold normalizeEndpoint. cbv zeta. destruct (trim_space e =? "")%string.
  { destruct (String.eqb_spec policy FieldRequired); [done|]. intros [= <-]. by left. }
  destruct (String.eqb_spec policy FieldForbidden); [done|]. destruct (_ || _); [done|].
  destruct (has_byte 35 _); [done|]. destruct (url_Parse _) as [p|] eqn:Ep; [|done].
  destruct (validEndpointURL p) eqn:Ev; [|done]. destruct (endpointHasForbiddenParts p) eqn:Ef; [done|].
  destruct (hasControl _); [done|]. cbn [negb]. go_unfold.
  unfold validEndpointURL in Ev. unfold endpointHasForbiddenParts in Ef.
  repeat match goal with H : (_ || _)%bool = false |- _ => apply orb_false_iff in H as [H ?] end. bool_prop.
  apply url_Parse_network in Ep as [Hs Hp]; [|done..]. rewrite canonical_scheme_lower by done.
  set (u := with_scheme p (Scheme p)).
  assert (bare u) as Hbare by (unfold bare; cbn; split_and!; try done; by destruct (User p)).
  destruct (normalizeEndpointAuthority u) as [v|] eqn:Ea; [|done].
  apply backend_normalizeEndpointAuthority_good in Ea as (h & -> & [Hat Hph] & Hne); [|done].
  case_bool_decide as Hin; [|done]. destruct (maxEndpointLength <? _) eqn:Elen; [done|]. intros [= <-].
  right. split.
  - rewrite url_String_bare by done. change (Scheme (with_host u h)) with (Scheme p). by destruct (Scheme p).
  - split; [done|]. split; [bool_prop; lia|].
    destruct (url_String_Parse (with_host u h)) as (w & Hw & Hbw & Hsw & Hhw & _); [done..|].
    exists w. rewrite Hsw, Hhw. by split_and!.
Qed.

(** * Options *)

(** A value of the kind its schema declares. *)
Definition option_typed (spec : OptionSpec) (value : string) : Prop :=
  (Kind spec = OptionString ∧ value ≠ ""%string ∧ trim_space value = value
     ∧ len value ≤ maxOptionValueLength ∧ hasControl value = false)
  ∨ (Kind spec = OptionBoolean ∧ (value = "true"%string ∨ value = "false"%string))
  ∨ (Kind spec = OptionInteger ∧ ∃ z, value = itoa z ∧ int64_min ≤ z ≤ int64_max
     ∧ opt_test (λ lo, z <? lo) (MinInteger spec) = false ∧ opt_test (λ hi, hi <? z) (MaxInteger spec) = false)
  ∨ (Kind spec = OptionEnum ∧ value ∈ AllowedValues spec).

Lemma backend_normalizeOptionValue_typed v spec w : normalizeOptionValue v spec = Ok w → option_typed spec w.
Proof.
  unfold normalizeOptionValue, option_typed. cbv zeta. destruct (_ || hasControl _) eqn:E; [done|]. bool_prop.
  destruct (String.eqb_spec (Kind spec) OptionString).
  { intros [= <-]. left. split_and!; [done..|apply trim_space_idem|lia|done]. }
  destruct (String.eqb_spec (Kind spec) OptionBoolean).
  { destruct (ParseBool _) as [[]|]; intros [= <-]; right; left; split; auto. }
  destruct (String.eqb_spec (Kind spec) OptionInteger).
  { destruct (ParseInt64 _) as [z|] eqn:Ez; [|done]. destruct (opt_test _ (MinInteger spec)) eqn:E1; [done|].
    destruct (opt_test _ (MaxInteger spec)) eqn:E2; [done|]. intros [= <-]. apply ParseInt64_range in Ez.
    right; right; left. split; [done|]. exists z. split_and!; try done; lia. }
  destruct (String.eqb_spec (Kind spec) OptionEnum); [|done].
  destruct (in_list _ _) eqn:Ei; [|done]. intros [= <-]. right; right; right. by rewrite <- in_list_elem.
Qed.

(** A compiled schema declares no sensitive key, and its defaults are of the declared kinds. *)
Definition schema_ok (specs : gmap string OptionSpec) : Prop :=
  map_Forall (λ key spec, sensitiveOptionKey key = false
    ∧ ∀ d, DefaultValue spec = Some d → option_typed spec d) specs.

Lemma backend_compileOptionSpec_ok spec compiled :
  compileOptionSpec spec = Ok compiled → ∀ d, DefaultValue compiled = Some d → option_typed compiled d.
Proof.
  unfold compileOptionSpec. go_unfold. destruct (validateOptionShape spec) as [[]|]; [|done].
  destruct (validateIntegerBounds spec) as [[]|]; [|done].
  destruct (if (Kind spec =? OptionEnum)%string then _ else _) as [values|]; [|done]. cbn.
  destruct (DefaultValue spec) as [d|] eqn:Ed; [|by intros [= <-]].
  destruct (normalizeOptionValue d _) as [w|] eqn:Ew; [|done]. intros [= <-] ? [= <-].
  apply backend_normalizeOptionValue_typed in Ew. exact Ew.
Qed.

Lemma backend_compile_options_ok entries specs : compile_options entries = Ok specs → schema_ok specs.
Proof.
  revert specs. induction entries as [|[key option] entries IH]; intros specs; cbn [compile_options].
  { intros [= <-]. apply map_Forall_empty. }
  destruct (_ || sensitiveOptionKey _) eqn:E; [done|]. go_unfold.
  destruct (compileOptionSpec option) as [compiled|] eqn:Ec; [|done].
  destruct (compile_options entries) as [rest|]; [|done]. intros [= <-]. bool_prop.
  apply map_Forall_insert_at; [by apply IH|]. split; [congruence|]. by eapply backend_compileOptionSpec_ok.
Qed.

(** The checks and the normalization of one given option. *)
Definition option_entry (specs : gmap string OptionSpec) (key value : string) : result error string :=
  if negb (to_lower (trim_space key) =? key)%string || negb (validOptionKey key) || sensitiveOptionKey key
  then Err ErrInvalid
  else match specs !! key with None => Err ErrInvalid | Some spec => normalizeOptionValue value spec end.

Lemma backend_normalize_entries_loop entries specs m :
  normalize_entries entries specs m = entries_loop (option_entry specs) entries m.
Proof.
  revert m. induction entries as [|[key v] entries IH]; intros m; cbn [normalize_entries entries_loop]; [done|].
  unfold option_entry. cbv zeta. destruct (String.eqb_spec (to_lower (trim_space key)) key) as [Hk|]; [|done].
  cbn [negb orb]. rewrite Hk. destruct (_ || _); [done|]. destruct (specs !! key) as [spec|]; [|done]. go_unfold.
  destruct (normalizeOptionValue v spec); [|done]. apply IH.
Qed.

(** * Typed bindings *)

Definition catalog_all (P : string → string → compiledProviderSpec → Prop) (catalog : ProviderCatalog) : Prop :=
  map_Forall (λ capability, map_Forall (P capability)) catalog.

(** An entry of the catalog of [specs]: a provider one of them registers for the capability. *)
Definition registered (specs : list ProviderSpec) (capability name : string) (spec : compiledProviderSpec) : Prop :=
  provider spec = name ∧ validProviderName name = true ∧ schema_ok (options spec)
  ∧ ∃ s, s ∈ specs ∧ Provider s = name ∧ capability ∈ Capabilities s
    ∧ endpointPolicy spec = EndpointPolicy s ∧ secretRefPolicy spec = SecretRefPolicy s.

Lemma catalog_all_impl (P Q : string → string → compiledProviderSpec → Prop) catalog :
  (∀ c n s, P c n s → Q c n s) → catalog_all P catalog → catalog_all Q catalog.
Proof. intros H Hc c byProvider Hb n s Hs. apply H. by eapply Hc. Qed.

Lemma compile_capabilities_same seen raw l : compile_capabilities seen raw = Ok l → l = raw.
Proof.
  revert seen l. induction raw as [|c raw IH]; intros seen l; cbn [compile_capabilities]; [by intros [= <-]|].
  destruct (negb _); [done|]. case_bool_decide; [done|]. go_unfold.
  destruct (compile_capabilities _ raw) as [rest|] eqn:E; [|done]. intros [= <-]. f_equal. by eapply IH.
Qed.

Lemma backend_compileProviderSpec_ok spec compiled capabilities :
  compileProviderSpec spec = Ok (compiled, capabilities) →
  ∀ capability, capability ∈ capabilities → registered [spec] capability (provider compiled) compiled.
Proof.
  unfold compileProviderSpec, compileProviderName. cbv zeta. go_unfold. destruct (_ || _) eqn:E; [done|]. bool_prop.
  destruct (compileCapabilities _) as [l|] eqn:Ec; [|done].
  destruct (compileEndpointSchema _ _ _) as [schemes|]; [|done].
  destruct (compileProviderOptions _) as [os|] eqn:Eo; [|done]. intros [= <- <-] capability Hin.
  assert (l = Capabilities spec) as ->.
  { unfold compileCapabilities in Ec. destruct (Capabilities spec); [done|]. by eapply compile_capabilities_same. }
  unfold registered. cbn. split_and!; [done|done|by eapply backend_compile_options_ok|].
  exists spec. split_and!; try done; by apply list_elem_of_singleton.
Qed.

Lemma add_capabilities_all (P : string → string → compiledProviderSpec → Prop) catalog compiled capabilities catalog' :
  (∀ c, c ∈ capabilities → P c (provider compiled) compiled) →
  catalog_all P catalog → add_capabilities catalog compiled capabilities = Ok catalog' → catalog_all P catalog'.
Proof.
  revert catalog. induction capabilities as [|c capabilities IH]; intros catalog Hp Hc; cbn [add_capabilities].
  { by intros [= <-]. }
  cbv zeta. destruct (negb _); [done|]. apply IH; [intros; apply Hp; by right|].
  apply map_Forall_insert_at; [done|]. apply map_Forall_insert_at; [|apply Hp; by left].
  destruct (catalog !! c) as [byProvider|] eqn:Eb; [by apply Hc|apply map_Forall_empty].
Qed.

Lemma backend_NewProviderCatalog_ok specs catalog :
  NewProviderCatalog specs = Ok catalog → catalog_all (registered specs) catalog.
Proof.
  assert (∀ l c, (∀ s, s ∈ l → s ∈ specs) → catalog_all (registered specs) c →
    add_providers c l = Ok catalog → catalog_all (registered specs) catalog) as Hadd.
  { induction l as [|spec l IH]; intros c Hl Hc; cbn [add_providers]; [by intros [= <-]|].
    go_unfold. destruct (compileProviderSpec spec) as [[compiled capabilities]|] eqn:Ec; [|done].
    destruct (add_capabilities _ _ _) as [c'|] eqn:Ea; [|done]. apply IH; [intros; apply Hl; by right|].
    eapply add_capabilities_all; [|exact Hc|exact Ea]. intros k Hk.
    destruct (backend_compileProviderSpec_ok _ _ _ Ec k Hk) as (? & ? & ? & s & ->%list_elem_of_singleton & Hs).
    split_and!; [done..|]. exists spec. split; [apply Hl; by left|done]. }
  unfold NewProviderCatalog. destruct specs as [|spec specs]; [done|]. apply Hadd; [done|]. apply map_Forall_empty.
Qed.

Definition secret_typed (policy secretRef : string) : Prop :=
  secretRef = ""%string ∧ policy ≠ FieldRequired
  ∨ secretRef ≠ ""%string ∧ policy ≠ FieldForbidden ∧ len secretRef ≤ maxSecretRefLength
    ∧ validSecretRef secretRef = true.

Definition endpoint_typed (spec : compiledProviderSpec) (endpoint : string) : Prop :=
  endpoint = ""%string ∧ endpointPolicy spec ≠ FieldRequired
  ∨ endpoint ≠ ""%string ∧ endpointPolicy spec ≠ FieldForbidden
    ∧ endpoint_allowed (endpointSchemes spec) endpoint.

Definition options_typed (specs : gmap string OptionSpec) (m : gmap string string) : Prop :=
  (∀ k v, m !! k = Some v →
     sensitiveOptionKey k = false ∧ ∃ spec, specs !! k = Some spec ∧ option_typed spec v)
  ∧ (∀ k spec, specs !! k = Some spec → Required spec = true → is_Some (m !! k)).

(** A binding that conforms to the schema its provider has for its capability. *)
Definition binding_typed (catalog : ProviderCatalog) (b : CapabilityBinding) : Prop :=
  validCapability (b_Capability b) = true
  ∧ ∃ byProvider spec, catalog !! b_Capability b = Some byProvider ∧ byProvider !! b_Provider b = Some spec
    ∧ endpoint_typed spec (b_Endpoint b) ∧ secret_typed (secretRefPolicy spec) (b_SecretRef b)
    ∧ options_typed (options spec) (b_Options b).

(** The bindings of a profile: each typed, at most one per capability, in the order of ranks. *)
Definition bindings_typed (catalog : ProviderCatalog) (bindings : list CapabilityBinding) : Prop :=
  Forall (binding_typed catalog) bindings ∧ NoDup (b_Capability <$> bindings) ∧ StronglySorted rank_le bindings.

Lemma backend_normalizeSecretRef_typed s policy t : normalizeSecretRef s policy = Ok t → secret_typed policy t.
Proof.
  unfold normalizeSecretRef, secret_typed. cbv zeta. destruct (String.eqb_spec (trim_space s) "").
  { destruct (String.eqb_spec policy FieldRequired); [done|]. intros [= <-]. by left. }
  destruct (String.eqb_spec policy FieldForbidden); [done|].
  destruct (_ || _) eqn:E; [done|]. intros [= <-]. bool_prop. right. split_and!; [done..|lia|done].
Qed.

Lemma options_loops_typed o specs m1 m :
  schema_ok specs → normalize_entries (map_to_list o) specs ∅ = Ok m1 →
  fill_defaults (map_to_list specs) m1 = Ok m → options_typed specs m.
Proof.
  intros Hs E1 E2. rewrite backend_normalize_entries_loop in E1.
  change (defaults_loop ErrInvalid DefaultValue Required (map_to_list specs) m1 = Ok m) in E2.
  destruct (option_loops_lookup _ _ _ _ _ _ _ _ E1 E2) as (Hl & _ & Hr). split; [|exact Hr].
  intros k v. rewrite Hl. destruct (o !! k) as [raw|] eqn:Ek.
  - unfold accepted_entry, option_entry. destruct (_ || _ || _); [done|]. destruct (specs !! k) as [spec|] eqn:Es; [|done].
    destruct (normalizeOptionValue raw spec) as [w|] eqn:Ew; [|done]. intros [= <-].
    destruct (Hs k spec Es) as [? _]. split; [done|]. exists spec. split; [done|]. by eapply backend_normalizeOptionValue_typed.
  - destruct (specs !! k) as [spec|] eqn:Es; [|done]. cbn. intros Hd.
    destruct (Hs k spec Es) as (? & Hdef). split; [done|]. exists spec. auto.
Qed.

Lemma normalizeBinding_typed spec capability endpoint opts secretRef b :
  schema_ok (options spec) → normalizeBinding spec capability endpoint opts secretRef = Ok b →
  b_Capability b = capability ∧ b_Provider b = provider spec ∧ endpoint_typed spec (b_Endpoint b)
  ∧ secret_typed (secretRefPolicy spec) (b_SecretRef b) ∧ options_typed (options spec) (b_Options b).
Proof.
  intros Hs. unfold normalizeBinding. go_unfold.
  destruct (normalizeEndpoint _ _ _) as [e|] eqn:Ee; [|done].
  destruct (normalizeSecretRef _ _) as [r|] eqn:Er; [|done].
  destruct (normalize_entries _ _ _) as [m1|] eqn:E1; [|done].
  destruct (fill_defaults _ _) as [m|] eqn:E2; [|done]. intros [= <-]. cbn. split_and!; [done..| | |].
  - by eapply backend_normalizeEndpoint_allowed.
  - by eapply backend_normalizeSecretRef_typed.
  - by eapply options_loops_typed.
Qed.

Lemma normalize_bindings_typed catalog specs seen bindings result :
  catalog_all (registered specs) catalog → normalize_bindings catalog seen bindings = Ok result →
  Forall (binding_typed catalog) result ∧ NoDup (b_Capability <$> result)
  ∧ Forall (λ b, b_Capability b ∉ seen) result.
Proof.
  intros Hc. revert seen result. induction bindings as [|b bindings IH]; intros seen result; cbn [normalize_bindings].
  { intros [= <-]. split_and!; constructor. }
  destruct (validCapability (b_Capability b)) eqn:Ev; [|done]. cbn [negb]. case_bool_decide as Hseen; [done|].
  cbv zeta. destruct (validProviderName (to_lower (trim_space (b_Provider b)))) eqn:En; [|done]. cbn [negb].
  destruct (catalog !! b_Capability b) as [byProvider|] eqn:Eb; cbn [default]; [|by rewrite lookup_empty].
  cbn [from_option id].
  destruct (byProvider !! to_lower (trim_space (b_Provider b))) as [spec|] eqn:Es; [|done]. go_unfold.
  destruct (normalizeBinding _ _ _ _ _) as [n|] eqn:Enorm; [|done].
  destruct (normalize_bindings _ _ bindings) as [rest|] eqn:Erest; [|done]. intros [= <-].
  destruct (IH _ _ Erest) as (IH1 & IH2 & IH3). destruct (Hc _ _ Eb _ _ Es) as (Hp & _ & Hschema & _).
  destruct (normalizeBinding_typed _ _ _ _ _ _ Hschema Enorm) as (Hcap & Hprov & ? & ? & ?).
  rewrite Forall_forall in IH3. split_and!.
  - constructor; [|done]. unfold binding_typed. rewrite Hcap, Hprov, Hp. split; [done|]. eauto 10.
  - cbn. constructor; [|done]. intros (x & Hx & Hin)%list_elem_of_fmap. apply (IH3 x Hin).
    rewrite <- Hx, Hcap. set_solver.
  - constructor; [by rewrite Hcap|]. apply Forall_forall. intros x Hx. specialize (IH3 x Hx). set_solver.
Qed.

#[export] Instance rank_le_transitive : Transitive rank_le.
Proof. intros x y z. unfold rank_le. lia. Qed.
#[export] Instance rank_le_total : Total rank_le.
Proof. intros x y. unfold rank_le. lia. Qed.

Lemma NormalizeBindings_typed specs catalog bindings result :
  catalog_all (registered specs) catalog → NormalizeBindings (Some catalog) bindings = Ok result →
  bindings_typed catalog result.
Proof.
  intros Hc. unfold NormalizeBindings. case_bool_decide; [done|]. go_unfold.
  destruct (normalize_bindings _ _ _) as [l|] eqn:El; [|done]. intros [= <-].
  destruct (normalize_bindings_typed _ _ _ _ _ Hc El) as (H1 & H2 & _).
  pose proof (merge_sort_Permutation rank_le l) as Hperm. split_and!.
  - by rewrite Hperm.
  - by rewrite Hperm.
  - apply StronglySorted_merge_sort; apply _.
Qed.

(** Every list of bindings that normalization accepts conforms to the catalog: each binding
    names a known capability and a provider that was registered for it, the endpoint is absent
    where none is required or denotes a URL of an allowed scheme that carries no credentials,
    query or fragment, the secret reference follows its policy, every option is declared, not
    sensitive and of its declared kind, required options are present, no capability is bound
    twice, and the bindings come in the fixed order of capabilities. *)
Theorem normalized_bindings_typed specs catalog bindings result :
  NewProviderCatalog specs = Ok catalog → NormalizeBindings (Some catalog) bindings = Ok result →
  bindings_typed catalog result ∧ catalog_all (registered specs) catalog.
Proof.
  intros Hc%backend_NewProviderCatalog_ok H. split; [|done]. by eapply NormalizeBindings_typed.
Qed.

(** * Valid profiles *)

Lemma stringMapsEqual_eq m1 m2 : stringMapsEqual m1 m2 = true → m1 = m2.
Proof.
  unfold stringMapsEqual. intros [Hsize%Nat.eqb_eq Hall]%andb_true_iff. rewrite forallb_forall in Hall.
  apply map_subseteq_size_eq; [|lia]. apply map_subseteq_spec. intros k v Hk.
  specialize (Hall (k, v)). cbn in Hall. rewrite <- list_elem_of_In, elem_of_map_to_list in Hall.
  specialize (Hall Hk). destruct (m2 !! k) as [w|]; [|done]. by apply String.eqb_eq in Hall as ->.
Qed.

Lemma bindingsEqual_eq l1 l2 : bindingsEqual l1 l2 = true → l1 = l2.
Proof.
  revert l2. induction l1 as [|x l1 IH]; intros [|y l2]; cbn; try done.
  intros [Hb Hl]%andb_true_iff. f_equal; [|by apply IH]. unfold binding_equal in Hb. bool_prop.
  destruct x, y. cbn in *. f_equal; try done. by apply stringMapsEqual_eq.
Qed.

(** What validation establishes: identities and names are in normal form, the stored bindings
    are a fixed point of normalization with their own digest, and a profile in use has bindings,
    an active one for sessions too. *)
Record valid_profile (catalog : option ProviderCatalog) (p : Profile) : Prop := {
  vp_tenant : validateTenantID (bp_TenantID p) = Ok ();
  vp_id : validateProfileID (bp_ProfileID p) = Ok ();
  vp_key : normalizeProfileKey (bp_ProfileKey p) = Ok (bp_ProfileKey p);
  vp_metadata : normalizeMetadata (bp_DisplayName p) (bp_Description p) = Ok (bp_DisplayName p, bp_Description p);
  vp_status : validStatus (bp_Status p) = true;
  vp_schema : bp_SchemaVersion p = currentSchemaVersion;
  vp_bindings : NormalizeBindings catalog (bp_Bindings p) = Ok (bp_Bindings p);
  vp_lifecycle : bp_Status p ≠ StatusDisabled → bp_Bindings p ≠ [];
  vp_session : bp_Status p = StatusActive → hasCapability (bp_Bindings p) CapabilitySession = true;
  vp_digest : bp_ContentDigest p = contentDigest currentSchemaVersion (bp_Bindings p);
  vp_version : 1 ≤ bp_Version p;
  vp_times : instant (bp_CreatedAt p) ≤ instant (bp_UpdatedAt p) ∧ instant (bp_CreatedAt p) ≠ 0
    ∧ utc (bp_CreatedAt p) = true ∧ utc (bp_UpdatedAt p) = true
}.

Lemma backend_normalizeConfiguration_Ok v bs catalog bs' d :
  normalizeConfiguration v bs catalog = Ok (bs', d) →
  v = currentSchemaVersion ∧ NormalizeBindings catalog bs = Ok bs' ∧ d = contentDigest v bs'.
Proof.
  unfold normalizeConfiguration. destruct (Z.eqb_spec v currentSchemaVersion); [|done]. cbn [negb]. go_unfold.
  destruct (NormalizeBindings catalog bs) as [x|]; [|done]. by intros [= <- <-].
Qed.

Lemma validateLifecycleConfiguration_Ok status bs :
  validateLifecycleConfiguration status bs = Ok () →
  (status ≠ StatusDisabled → bs ≠ []) ∧ (status = StatusActive → hasCapability bs CapabilitySession = true).
Proof.
  unfold validateLifecycleConfiguration. destruct (negb _ && _) eqn:E1; [done|].
  destruct ((status =? StatusActive)%string && _) eqn:E2; [done|]. intros _. split.
  - intros Hs%String.eqb_neq ->. by rewrite Hs in E1.
  - intros ->. by apply negb_false_iff in E2.
Qed.

Lemma backend_Validate_valid p catalog : Validate p catalog = Ok () → valid_profile catalog p.
Proof.
  unfold Validate. go_unfold.
  destruct (validateTenantID _) as [[]|] eqn:Et; [|done]. destruct (validateProfileID _) as [[]|] eqn:Ei; [|done].
  destruct (normalizeProfileKey _) as [key|] eqn:Ek; [|done]. destruct (String.eqb_spec key (bp_ProfileKey p)); [|done].
  destruct (normalizeMetadata _ _) as [[dn de]|] eqn:Em; [|done].
  destruct ((dn =? _)%string && _) eqn:Emd; [|done]. destruct (validStatus _) eqn:Es; [|done].
  destruct (normalizeConfiguration _ _ _) as [[bs d]|] eqn:Ec; [|done].
  apply backend_normalizeConfiguration_Ok in Ec as (Hv & Hc & ->). destruct (bindingsEqual _ _) eqn:Eeq; [|done].
  apply bindingsEqual_eq in Eeq as ->.
  destruct (validateLifecycleConfiguration _ _) as [[]|] eqn:El; [|done].
  apply validateLifecycleConfiguration_Ok in El as [? ?].
  destruct (String.eqb_spec (bp_ContentDigest p) (contentDigest (bp_SchemaVersion p) (bp_Bindings p))); [|done].
  destruct (_ || _) eqn:Elast; [done|]. intros _. unfold stamp_zero, stamp_before, is_zero, before in Elast.
  bool_prop. subst. constructor; try done; try congruence; try lia.
Qed.

Lemma backend_valid_profile_typed specs catalog p :
  NewProviderCatalog specs = Ok catalog → valid_profile (Some catalog) p → bindings_typed catalog (bp_Bindings p).
Proof. intros Hc%backend_NewProviderCatalog_ok []. by eapply NormalizeBindings_typed. Qed.

Lemma backend_CanTransitionTo_status p next :
  CanTransitionTo p next = true → bp_Status p ≠ StatusDisabled ∧ validStatus next = true.
Proof.
  unfold CanTransitionTo, validStatus. destruct (String.eqb_spec (bp_Status p) StatusActive) as [->|].
  { intros [->| ->]%orb_true_iff; by rewrite ?orb_true_r. }
  destruct (String.eqb_spec (bp_Status p) StatusSuspended) as [->|]; [|done].
  intros [->| ->]%orb_true_iff; by rewrite ?orb_true_r.
Qed.

(** * The digest identifies the configuration *)

(** What every string of a running program satisfies: its length is a 64-bit number. *)
Definition representable (schemaVersion : Z) (bindings : list CapabilityBinding) : Prop :=
  Forall (λ s, len s < 2 ^ 64) (digest_fields schemaVersion bindings).

Lemma writeDigestString_inj s t r1 r2 :
  len s < 2 ^ 64 → len t < 2 ^ 64 → writeDigestString s ++ r1 = writeDigestString t ++ r2 → s = t ∧ r1 = r2.
Proof.
  unfold writeDigestString. rewrite <- !app_assoc. intros Hs Ht [Hlen H]%app_inj_1; [|by rewrite !be_bytes_length].
  apply be_bytes_inj in Hlen; [|unfold len in *; lia..].
  apply app_inj_1 in H as [Hb ->]; [|rewrite !bytes_length; unfold len in Hlen; lia]. by apply bytes_inj in Hb.
Qed.

Lemma digest_strings_inj l1 l2 :
  Forall (λ s, len s < 2 ^ 64) l1 → Forall (λ s, len s < 2 ^ 64) l2 →
  l1 ≫= writeDigestString = l2 ≫= writeDigestString → l1 = l2.
Proof.
  intros H1. revert l2. induction H1 as [|s l1 Hs _ IH]; intros l2 H2; destruct H2 as [|t l2 Ht H2]; try done.
  intros [-> E]%writeDigestString_inj; [|done..]. f_equal. by apply IH.
Qed.

Lemma entries_inj (l1 l2 : list (string * string)) r1 r2 :
  length l1 = length l2 → (l1 ≫= λ e, [e.1; e.2]) ++ r1 = (l2 ≫= λ e, [e.1; e.2]) ++ r2 → l1 = l2 ∧ r1 = r2.
Proof.
  revert l2. induction l1 as [|[k v] l1 IH]; intros [|[k' v'] l2]; try done.
  intros [= Hl] E. change (k :: v :: (l1 ≫= λ e, [e.1; e.2]) ++ r1 = k' :: v' :: (l2 ≫= λ e, [e.1; e.2]) ++ r2) in E.
  injection E as -> -> E. destruct (IH _ Hl E) as [-> ->]. done.
Qed.

Lemma digest_binding_inj b1 b2 r1 r2 :
  digest_binding b1 ++ r1 = digest_binding b2 ++ r2 → b1 = b2 ∧ r1 = r2.
Proof.
  unfold digest_binding, digest_options. cbv zeta. cbn [app]. rewrite <- !app_assoc.
  intros [= Hc Hp He Hlen%itoa_inj%Nat2Z.inj H]. apply entries_inj in H as [H [= Hs ->]]; [|done]. split; [|done].
  assert (b_Options b1 = b_Options b2) as Ho.
  { apply map_to_list_inj. by rewrite <- (merge_sort_Permutation key_le), H, merge_sort_Permutation. }
  destruct b1, b2. cbn in *. by f_equal.
Qed.

Lemma digest_bindings_inj l1 l2 :
  length l1 = length l2 → l1 ≫= digest_binding = l2 ≫= digest_binding → l1 = l2.
Proof.
  revert l2. induction l1 as [|b l1 IH]; intros [|b' l2]; try done. intros [= Hl] [-> E]%digest_binding_inj.
  f_equal. by apply IH.
Qed.

(** The bytes that are hashed determine the configuration: no two configurations with a
    different schema version, number of bindings, or any different capability, provider,
    endpoint, option or secret reference feed the same bytes to the hash. *)
Theorem digest_bytes_injective v1 v2 bindings1 bindings2 :
  representable v1 bindings1 → representable v2 bindings2 →
  digest_bytes v1 bindings1 = digest_bytes v2 bindings2 → v1 = v2 ∧ bindings1 = bindings2.
Proof.
  intros H1 H2 E%digest_strings_inj; [|done..]. unfold digest_fields in E. cbn [app] in E.
  injection E as Hv%itoa_inj Hl%itoa_inj%Nat2Z.inj E. split; [done|]. by apply digest_bindings_inj.
Qed.
