(* ===== verification/BackendRepository.v ===== *)
(** The repository of backend profiles: [trpcservice/backend/repository.go] prepares validated
    changes with their events, [trpcservice/backend/inmemory/inmemory.go] keeps the profiles.

    A method that takes the lock is one atomic action; [RWMutex.v] models the lock.  The catalog
    is fixed when the repository is built, so it is an argument of the operations. *)
From Stdlib Require Import Ascii String.
From S2P Require Import Prelude GoStrings GoURL GoIP Tenant BackendProfile ProfileStore.
Local Open Scope Z_scope.

(** * Events *)

Definition EventCreated : string := "created".
Definition EventConfigurationUpdated : string := "configuration_updated".
Definition EventSuspended : string := "suspended".
Definition EventResumed : string := "resumed".
Definition EventDisabled : string := "disabled".

Record ChangeEvent := mkChangeEvent {
  EventType : string; ev_TenantID : string; ev_ProfileID : string; PreviousStatus : string;
  CurrentStatus : string; PreviousDigest : string; CurrentDigest : string;
  ev_Metadata : ChangeMetadata; PreviousVersion : Z; NextVersion : Z; OccurredAt : stamp }.

Record UpdateConfigurationInput := mkUpdateInput {
  ui_TenantID : string; ui_ProfileID : string; ui_ExpectedVersion : Z; ui_DisplayName : string;
  ui_Description : string; ui_SchemaVersion : Z; ui_Bindings : list CapabilityBinding;
  ui_Metadata : ChangeMetadata }.
Record TransitionStatusInput := mkTransitionInput {
  ti_TenantID : string; ti_ProfileID : string; ti_ExpectedVersion : Z; ti_NextStatus : string;
  ti_Metadata : ChangeMetadata }.

(** * Preparing changes *)

Definition normalizeChangeMetadata (metadata : ChangeMetadata) : result error ChangeMetadata :=
  let m := mkMetadata (trim_space (ActorType metadata)) (trim_space (ActorID metadata))
    (trim_space (Reason metadata)) (trim_space (CorrelationID metadata)) in
  if (ActorType m =? "")%string || (ActorID m =? "")%string || (Reason m =? "")%string
    || (CorrelationID m =? "")%string then Err ErrInvalid
  else if 1000 <? rune_count (Reason m) then Err ErrInvalid
  else Ok m.

Definition validateMutationTime (current : Profile) (occurredAt : stamp) : result error unit :=
  guard_ok (negb (stamp_zero occurredAt || negb (utc occurredAt)
    || stamp_before occurredAt (bp_CreatedAt current) || stamp_before occurredAt (bp_UpdatedAt current))) ErrInvalid.

Definition newChangeEvent (eventType : string) (p : Profile)
    (previousStatus currentStatus previousDigest currentDigest : string)
    (previousVersion nextVersion : Z) (occurredAt : stamp) (m : ChangeMetadata) : ChangeEvent :=
  mkChangeEvent eventType (bp_TenantID p) (bp_ProfileID p) previousStatus currentStatus
    previousDigest currentDigest m previousVersion nextVersion occurredAt.

Definition PrepareCreatedChange (p : Profile) (catalog : option ProviderCatalog) (metadata : ChangeMetadata)
    : result error ChangeEvent :=
  _ ← Validate p catalog;
  _ ← guard_ok ((bp_Status p =? StatusActive)%string || (bp_Status p =? StatusSuspended)%string) ErrInvalid;
  m ← normalizeChangeMetadata metadata;
  if negb (bp_Version p =? 1) || stamp_zero (bp_CreatedAt p) || negb (utc (bp_CreatedAt p))
    || negb (instant (bp_UpdatedAt p) =? instant (bp_CreatedAt p)) then Err ErrInvalid
  else Ok (newChangeEvent EventCreated p "" (bp_Status p) "" (bp_ContentDigest p) 0 (bp_Version p)
    (bp_CreatedAt p) m).

(** The checks that both changes of a stored profile start with. *)
Definition change_guards (current : Profile) (catalog : option ProviderCatalog)
    (tenantID profileID : string) (expected : Z) : result error unit :=
  _ ← guard_ok ((bp_TenantID current =? tenantID)%string && (bp_ProfileID current =? profileID)%string) ErrNotFound;
  _ ← Validate current catalog;
  _ ← guard_ok (negb (bp_Status current =? StatusDisabled)%string) ErrDisabled;
  guard_ok (expected =? bp_Version current) ErrConflict.

Definition PrepareConfigurationChange (current : Profile) (input : UpdateConfigurationInput)
    (catalog : option ProviderCatalog) (occurredAt : stamp) : result error (Profile * ChangeEvent) :=
  _ ← change_guards current catalog (ui_TenantID input) (ui_ProfileID input) (ui_ExpectedVersion input);
  m ← normalizeChangeMetadata (ui_Metadata input);
  '(displayName, description) ← normalizeMetadata (ui_DisplayName input) (ui_Description input);
  '(configuration, digest) ← normalizeConfiguration (ui_SchemaVersion input) (ui_Bindings input) catalog;
  _ ← validateMutationTime current occurredAt;
  let updated := mkProfile (bp_TenantID current) (bp_ProfileID current) (bp_ProfileKey current)
    displayName description (bp_Status current) (ui_SchemaVersion input) configuration digest
    (incr64 (bp_Version current)) (bp_CreatedAt current) occurredAt in
  _ ← Validate updated catalog;
  Ok (updated, newChangeEvent EventConfigurationUpdated updated (bp_Status current) (bp_Status updated)
    (bp_ContentDigest current) (bp_ContentDigest updated) (bp_Version current) (bp_Version updated)
    occurredAt m).

Definition status_event (next : string) : string :=
  if (next =? StatusActive)%string then EventResumed
  else if (next =? StatusDisabled)%string then EventDisabled
  else EventSuspended.

Definition PrepareStatusChange (current : Profile) (input : TransitionStatusInput)
    (catalog : option ProviderCatalog) (occurredAt : stamp) : result error (Profile * ChangeEvent) :=
  _ ← change_guards current catalog (ti_TenantID input) (ti_ProfileID input) (ti_ExpectedVersion input);
  _ ← guard_ok (CanTransitionTo current (ti_NextStatus input)) ErrInvalidTransition;
  m ← normalizeChangeMetadata (ti_Metadata input);
  _ ← validateMutationTime current occurredAt;
  let updated := mkProfile (bp_TenantID current) (bp_ProfileID current) (bp_ProfileKey current)
    (bp_DisplayName current) (bp_Description current) (ti_NextStatus input) (bp_SchemaVersion current)
    (bp_Bindings current) (bp_ContentDigest current) (incr64 (bp_Version current))
    (bp_CreatedAt current) occurredAt in
  _ ← Validate updated catalog;
  Ok (updated, newChangeEvent (status_event (ti_NextStatus input)) updated (bp_Status current)
    (bp_Status updated) (bp_ContentDigest current) (bp_ContentDigest updated) (bp_Version current)
    (bp_Version updated) occurredAt m).

(** * The in-memory repository *)

#[export] Instance backend_aggregate : Aggregate Profile := {
  agg_tenant := bp_TenantID; agg_id := bp_ProfileID; agg_key := bp_ProfileKey;
  agg_version := bp_Version; agg_final := λ p, (bp_Status p =? StatusDisabled)%string }.

Definition InMemoryRepository : Type := store Profile.
Definition NewInMemoryRepository : InMemoryRepository := empty_store.

Definition checkContext (ctx : context) (i : nat) : result error unit :=
  match ctx with
  | None => Ok ()
  | Some c => match c i with Some e => Err (ErrContext e) | None => Ok () end
  end.

(** Taking the lock observes the context as well: observations 0, 1 and 2 come before the
    state is read, observation 3 before it is written. *)
Definition Create (catalog : option ProviderCatalog) (ctx : context) (ms : Z) (random : option (list Z))
    (now : time) (input : CreateInput) : act InMemoryRepository error (Profile * ChangeEvent) :=
  _ ← lift (checkContext ctx 0);
  p ← lift (NewProfile ms random now input catalog);
  event ← lift (PrepareCreatedChange p catalog (ci_Metadata input));
  _ ← lift (checkContext ctx 1);
  _ ← lift (checkContext ctx 2);
  r ← get;
  let idScope := (bp_TenantID p, bp_ProfileID p) in
  let keyScope := (bp_TenantID p, bp_ProfileKey p) in
  _ ← ensure (opt_is_nil (byID r !! idScope)) ErrDuplicateKey;
  _ ← ensure (opt_is_nil (byKey r !! keyScope)) ErrDuplicateKey;
  _ ← lift (checkContext ctx 3);
  _ ← put (mkStore (<[idScope := p]> (byID r)) (<[keyScope := bp_ProfileID p]> (byKey r)));
  mret (p, event).

Definition Get (ctx : context) (tenantID profileID : string) : act InMemoryRepository error Profile :=
  _ ← lift (checkContext ctx 0);
  _ ← lift (checkContext ctx 1);
  _ ← lift (checkContext ctx 2);
  r ← get;
  match byID r !! (tenantID, profileID) with
  | None => throw ErrNotFound
  | Some p => mret p
  end.

(** The common body of the two mutations of a stored profile; [now] is the answer of [time.Now]. *)
Definition apply_change (ctx : context) (now : time) (sc : scope)
    (prepare : Profile → stamp → result error (Profile * ChangeEvent))
    : act InMemoryRepository error (Profile * ChangeEvent) :=
  _ ← lift (checkContext ctx 0);
  _ ← lift (checkContext ctx 1);
  _ ← lift (checkContext ctx 2);
  r ← get;
  match byID r !! sc with
  | None => throw ErrNotFound
  | Some current =>
      '(updated, event) ← lift (prepare current (mkStamp now true));
      _ ← lift (checkContext ctx 3);
      _ ← put (mkStore (<[sc := updated]> (byID r)) (byKey r));
      mret (updated, event)
  end.

Definition UpdateConfiguration (catalog : option ProviderCatalog) (ctx : context) (now : time)
    (input : UpdateConfigurationInput) : act InMemoryRepository error (Profile * ChangeEvent) :=
  apply_change ctx now (ui_TenantID input, ui_ProfileID input)
    (λ current at_, PrepareConfigurationChange current input catalog at_).

Definition TransitionStatus (catalog : option ProviderCatalog) (ctx : context) (now : time)
    (input : TransitionStatusInput) : act InMemoryRepository error (Profile * ChangeEvent) :=
  apply_change ctx now (ti_TenantID input, ti_ProfileID input)
    (λ current at_, PrepareStatusChange current input catalog at_).

#[global] Arguments normalizeChangeMetadata : simpl never.

(** * What a prepared change keeps and advances *)

Record changed (catalog : option ProviderCatalog) (cur p : Profile) (ev : ChangeEvent) : Prop := {
  changed_before : Validate cur catalog = Ok ();
  changed_valid : Validate p catalog = Ok ();
  changed_scope : (bp_TenantID p, bp_ProfileID p) = (bp_TenantID cur, bp_ProfileID cur);
  changed_key : bp_ProfileKey p = bp_ProfileKey cur;
  changed_version : bp_Version p = incr64 (bp_Version cur);
  changed_live : bp_Status cur ≠ StatusDisabled;
  changed_event : (ev_TenantID ev, ev_ProfileID ev, PreviousStatus ev, CurrentStatus ev)
    = (bp_TenantID p, bp_ProfileID p, bp_Status cur, bp_Status p);
  changed_versions : (PreviousVersion ev, NextVersion ev, PreviousDigest ev, CurrentDigest ev, OccurredAt ev)
    = (bp_Version cur, bp_Version p, bp_ContentDigest cur, bp_ContentDigest p, bp_UpdatedAt p) }.

Lemma backend_change_guards_Ok cur catalog t id v :
  change_guards cur catalog t id v = Ok () →
  bp_TenantID cur = t ∧ bp_ProfileID cur = id ∧ Validate cur catalog = Ok ()
  ∧ bp_Status cur ≠ StatusDisabled ∧ bp_Version cur = v.
Proof.
  unfold change_guards. go_unfold. destruct ((bp_TenantID cur =? t)%string && _) eqn:E; [|done]. bool_prop.
  destruct (Validate cur catalog) as [[]|]; [|done].
  destruct (String.eqb_spec (bp_Status cur) StatusDisabled); [done|].
  destruct (Z.eqb_spec v (bp_Version cur)); [|done]. done.
Qed.

Lemma backend_PrepareConfigurationChange_spec cur input catalog at_ p ev :
  PrepareConfigurationChange cur input catalog at_ = Ok (p, ev) →
  changed catalog cur p ev ∧ bp_Status p = bp_Status cur ∧ bp_Version cur = ui_ExpectedVersion input.
Proof.
  unfold PrepareConfigurationChange. go_unfold.
  destruct (change_guards _ _ _ _ _) as [[]|] eqn:Hg; [|done].
  apply backend_change_guards_Ok in Hg as (? & ? & ? & ? & ?).
  destruct (normalizeChangeMetadata _); [|done]. destruct (normalizeMetadata _ _) as [[]|]; [|done].
  destruct (normalizeConfiguration _ _ _) as [[]|]; [|done].
  destruct (validateMutationTime _ _) as [[]|]; [|done].
  match goal with |- context [Validate ?u] => destruct (Validate u catalog) as [[]|] eqn:Hv end; [|done].
  intros [= <- <-]. by split.
Qed.

Lemma backend_PrepareStatusChange_spec cur input catalog at_ p ev :
  PrepareStatusChange cur input catalog at_ = Ok (p, ev) →
  changed catalog cur p ev ∧ CanTransitionTo cur (bp_Status p) = true
  ∧ bp_Bindings p = bp_Bindings cur ∧ bp_Version cur = ti_ExpectedVersion input.
Proof.
  unfold PrepareStatusChange. go_unfold.
  destruct (change_guards _ _ _ _ _) as [[]|] eqn:Hg; [|done].
  apply backend_change_guards_Ok in Hg as (? & ? & ? & ? & ?).
  destruct (CanTransitionTo _ _) eqn:Ht; [|done]. destruct (normalizeChangeMetadata _); [|done].
  destruct (validateMutationTime _ _) as [[]|]; [|done].
  match goal with |- context [Validate ?u] => destruct (Validate u catalog) as [[]|] eqn:Hv end; [|done].
  intros [= <- <-]. by split.
Qed.

Lemma backend_PrepareCreatedChange_Ok p catalog m ev :
  PrepareCreatedChange p catalog m = Ok ev →
  Validate p catalog = Ok () ∧ bp_Version p = 1 ∧ bp_Status p ≠ StatusDisabled
  ∧ (ev_TenantID ev, ev_ProfileID ev, CurrentStatus ev, CurrentDigest ev, NextVersion ev)
    = (bp_TenantID p, bp_ProfileID p, bp_Status p, bp_ContentDigest p, 1).
Proof.
  unfold PrepareCreatedChange. go_unfold. destruct (Validate p catalog) as [[]|]; [|done].
  destruct ((bp_Status p =? StatusActive)%string || _) eqn:Es; [|done].
  destruct (normalizeChangeMetadata m); [|done]. destruct (_ || _ || _ || _) eqn:E; [done|]. bool_prop. intros [= <-].
  split; [done|]. split; [done|]. split.
  - intros Hd. by rewrite Hd in Es.
  - cbn. congruence.
Qed.

(** * Effects of the operations *)

Inductive op :=
| OpCreate (ctx : context) (ms : Z) (random : option (list Z)) (now : time) (input : CreateInput)
| OpUpdate (ctx : context) (now : time) (input : UpdateConfigurationInput)
| OpTransition (ctx : context) (now : time) (input : TransitionStatusInput).

Definition step (catalog : option ProviderCatalog) (o : op)
    : act InMemoryRepository error (Profile * ChangeEvent) :=
  match o with
  | OpCreate ctx ms random now input => Create catalog ctx ms random now input
  | OpUpdate ctx now input => UpdateConfiguration catalog ctx now input
  | OpTransition ctx now input => TransitionStatus catalog ctx now input
  end.
Definition exec (catalog : option ProviderCatalog) (o : op) (r : InMemoryRepository) : InMemoryRepository :=
  (step catalog o r).1.
Definition run (catalog : option ProviderCatalog) (os : list op) (r : InMemoryRepository)
    : InMemoryRepository := run_store (exec catalog) os r.

Section repository.
Context (catalog : option ProviderCatalog).

Notation valid := (λ p, Validate p catalog = Ok ()).
Notation wf := (store_wf valid).

Lemma backend_valid_versions p : valid p → 1 ≤ agg_version p.
Proof. intros H%backend_Validate_valid. apply H. Qed.

(** The state that an operation leaves, with its result: unchanged on an error, else the
    returned profile stored under its identity. *)
Inductive outcome (o : op) (r : InMemoryRepository)
    : InMemoryRepository * result error (Profile * ChangeEvent) → Prop :=
| outcome_error e : outcome o r (r, Err e)
| outcome_created p ev :
    valid p → bp_Version p = 1 → byID r !! id_scope p = None → byKey r !! key_scope p = None →
    (PreviousVersion ev, NextVersion ev, CurrentStatus ev, CurrentDigest ev)
      = (0, 1, bp_Status p, bp_ContentDigest p) →
    outcome o r (mkStore (<[id_scope p := p]> (byID r)) (<[key_scope p := bp_ProfileID p]> (byKey r)), Ok (p, ev))
| outcome_changed cur p ev :
    byID r !! id_scope cur = Some cur → changed catalog cur p ev →
    bp_Version cur = match o with OpCreate _ _ _ _ _ => 0 | OpUpdate _ _ i => ui_ExpectedVersion i
      | OpTransition _ _ i => ti_ExpectedVersion i end →
    outcome o r (mkStore (<[id_scope cur := p]> (byID r)) (byKey r), Ok (p, ev)).

Lemma backend_apply_change_outcome o ctx now sc prepare r expected :
  wf r →
  (∀ cur at_ p ev, prepare cur at_ = Ok (p, ev) → changed catalog cur p ev ∧ bp_Version cur = expected) →
  expected = match o with OpCreate _ _ _ _ _ => 0 | OpUpdate _ _ i => ui_ExpectedVersion i
      | OpTransition _ _ i => ti_ExpectedVersion i end →
  outcome o r (apply_change ctx now sc prepare r).
Proof.
  intros Hwf Hprep He. unfold apply_change. go_unfold.
  destruct (checkContext ctx 0) as [[]|]; [|constructor]. destruct (checkContext ctx 1) as [[]|]; [|constructor].
  destruct (checkContext ctx 2) as [[]|]; [|constructor].
  destruct (byID r !! sc) as [cur|] eqn:Ec; [|constructor].
  destruct (prepare cur _) as [[p ev]|] eqn:Ep; [|constructor].
  destruct (checkContext ctx 3) as [[]|]; [|constructor].
  apply Hprep in Ep as [Hch Hv]. destruct (wf_profile _ _ Hwf _ _ Ec) as [<- _].
  apply (outcome_changed o r cur p ev); [done|done|congruence].
Qed.

Lemma backend_step_outcome o r : wf r → outcome o r (step catalog o r).
Proof.
  intros Hwf. destruct o as [ctx ms random now input|ctx now input|ctx now input]; cbn [step].
  - unfold Create. go_unfold. destruct (checkContext ctx 0) as [[]|]; [|constructor].
    destruct (NewProfile _ _ _ _ _) as [p|] eqn:Ep; [|constructor].
    destruct (PrepareCreatedChange _ _ _) as [ev|] eqn:Ev; [|constructor].
    destruct (checkContext ctx 1) as [[]|]; [|constructor]. destruct (checkContext ctx 2) as [[]|]; [|constructor].
    destruct (byID r !! _) eqn:Eid; [constructor|]. cbn [opt_is_nil].
    destruct (byKey r !! _) eqn:Ekey; [constructor|]. cbn [opt_is_nil].
    destruct (checkContext ctx 3) as [[]|]; [|constructor].
    pose proof Ev as (Hv & H1 & _ & _)%backend_PrepareCreatedChange_Ok.
    apply (outcome_created _ r p ev); [done..|].
    unfold PrepareCreatedChange in Ev. go_unfold. rewrite Hv in Ev.
    destruct (_ || _) in Ev; [|done]. destruct (normalizeChangeMetadata _); [|done].
    destruct (_ || _ || _ || _) in Ev; [done|]. injection Ev as <-. cbn. by rewrite H1.
  - eapply backend_apply_change_outcome; [done| |done]. intros cur at_ p ev H.
    by apply backend_PrepareConfigurationChange_spec in H as (? & _ & ?).
  - eapply backend_apply_change_outcome; [done| |done]. intros cur at_ p ev H.
    by apply backend_PrepareStatusChange_spec in H as (? & _ & _ & ?).
Qed.

Lemma backend_outcome_effect o r x : outcome o r x → store_effect valid r x.1.
Proof.
  intros [e|p ev Hv H1 Hid Hk _|cur p ev Hcur Hch _]; cbn.
  - constructor.
  - exact (effect_created valid r p Hv H1 Hid Hk).
  - destruct Hch. apply (effect_changed valid r cur p); try done.
    cbn. apply not_true_is_false. by intros ?%String.eqb_eq.
Qed.

Lemma backend_exec_effect o r : wf r → True → store_effect valid r (exec catalog o r).
Proof. intros Hwf _. by eapply backend_outcome_effect, backend_step_outcome. Qed.

Lemma backend_run_ok os r : wf r → wf (run catalog os r) ∧ store_extends r (run catalog os r).
Proof.
  intros Hwf. apply (run_store_ok valid backend_valid_versions (exec catalog) (λ _, True)); [|done|].
  - intros o s Hs _. by apply backend_exec_effect.
  - by apply Forall_true.
Qed.

Lemma backend_run_wf os : wf (run catalog os NewInMemoryRepository).
Proof. apply backend_run_ok, store_wf_empty. Qed.
End repository.

(** * Properties *)

Notation start catalog os := (run catalog os NewInMemoryRepository).

(** After any sequence of operations, successful or not, every stored profile is found under
    its own tenant and identity, passes validation, holds bindings that conform to the
    catalog and, when it is active, a session binding, and is the one its key is indexed to; and every index entry leads to a profile with
    that key. *)
Theorem backend_repository_integrity specs catalog os :
  NewProviderCatalog specs = Ok catalog →
  let r := start (Some catalog) os in
  (∀ t i p, byID r !! (t, i) = Some p →
     bp_TenantID p = t ∧ bp_ProfileID p = i ∧ valid_profile (Some catalog) p
     ∧ bindings_typed catalog (bp_Bindings p) ∧ byKey r !! (t, bp_ProfileKey p) = Some i)
  ∧ (∀ t k i, byKey r !! (t, k) = Some i → ∃ p, byID r !! (t, i) = Some p ∧ bp_ProfileKey p = k).
Proof.
  intros Hc r. destruct (backend_run_wf (Some catalog) os) as [Hp Hi]. split; [|exact Hi].
  intros t i p Hpi. destruct (Hp _ _ Hpi) as ([= <- <-] & Hv%backend_Validate_valid & _ & Hk).
  split_and!; try done. by eapply backend_valid_profile_typed.
Qed.

Definition target (o : op) : option (scope * Z) :=
  match o with
  | OpCreate _ _ _ _ _ => None
  | OpUpdate _ _ i => Some ((ui_TenantID i, ui_ProfileID i), ui_ExpectedVersion i)
  | OpTransition _ _ i => Some ((ti_TenantID i, ti_ProfileID i), ti_ExpectedVersion i)
  end.

Lemma backend_change_target catalog o sc v r p ev :
  store_wf (λ p, Validate p catalog = Ok ()) r → target o = Some (sc, v) → (step catalog o r).2 = Ok (p, ev) →
  ∃ cur, byID r !! sc = Some cur ∧ bp_Version cur = v ∧ byID (exec catalog o r) !! sc = Some p
    ∧ v < bp_Version p.
Proof.
  intros Hwf Ht Hok. assert (∃ cur, byID r !! sc = Some cur ∧ bp_Version cur = v
    ∧ changed catalog cur p ev ∧ byID (exec catalog o r) !! sc = Some p) as (cur & Hcur & Hv & Hch & Hnew).
  { unfold exec. destruct o as [|ctx now i|ctx now i]; [done|..]; injection Ht as <- <-; cbn [step] in *;
      unfold UpdateConfiguration, TransitionStatus, apply_change in *; go_unfold;
      destruct (checkContext ctx 0) as [[]|]; try done; destruct (checkContext ctx 1) as [[]|]; try done;
      destruct (checkContext ctx 2) as [[]|]; try done;
      destruct (byID r !! _) as [cur|] eqn:Ec; try done; exists cur.
    - destruct (PrepareConfigurationChange _ _ _ _) as [[q e]|] eqn:Ep; [|done].
      destruct (checkContext ctx 3) as [[]|]; [|done]. injection Hok as -> ->.
      apply backend_PrepareConfigurationChange_spec in Ep as (? & _ & ?). cbn. by rewrite lookup_insert_eq.
    - destruct (PrepareStatusChange _ _ _ _) as [[q e]|] eqn:Ep; [|done].
      destruct (checkContext ctx 3) as [[]|]; [|done]. injection Hok as -> ->.
      apply backend_PrepareStatusChange_spec in Ep as (? & _ & _ & ?). cbn. by rewrite lookup_insert_eq. }
  exists cur. split_and!; try done. destruct Hch. destruct (wf_profile _ _ Hwf _ _ Hcur) as (_ & _ & Hmax & _).
  destruct (next_version _ (backend_valid_versions catalog) cur p) as [Hn _]; try done. cbn in Hn. lia.
Qed.

(** Two updates or transitions of one profile that were prepared from the same version are
    never both accepted, whatever happens between them. *)
Theorem backend_no_lost_update catalog os1 os2 o1 o2 sc v res :
  target o1 = Some (sc, v) → target o2 = Some (sc, v) →
  (step catalog o1 (start catalog os1)).2 = Ok res →
  is_ok (step catalog o2 (run catalog os2 (exec catalog o1 (start catalog os1)))).2 = false.
Proof.
  intros H1 H2 Hok. destruct res as [p ev]. pose proof (backend_run_wf catalog os1) as Hwf.
  destruct (backend_change_target _ _ _ _ _ _ _ Hwf H1 Hok) as (_ & _ & _ & Hp & Hv).
  assert (store_wf (λ p, Validate p catalog = Ok ()) (exec catalog o1 (start catalog os1))) as Hwf1
    by (eapply store_effect_wf; [apply backend_valid_versions|exact Hwf|by apply backend_exec_effect]).
  destruct (backend_run_ok catalog os2 _ Hwf1) as [Hwf2 Hx]. destruct (Hx _ _ Hp) as (q & Hq & _ & Hor).
  destruct (step catalog o2 _).2 as [[p2 ev2]|] eqn:E2; [|done].
  destruct (backend_change_target _ _ _ _ _ _ _ Hwf2 H2 E2) as (cur & Hcur & Hver & _).
  assert (cur = q) as -> by congruence. exfalso. destruct Hor as [-> |[_ ?]]; cbn in *; lia.
Qed.

(** An operation either fails and leaves the repository as it was, or stores exactly the
    profile it returns, touches no other profile, and returns an event that names the profile,
    its status, digest and version before and after, the version growing by one. *)
Theorem backend_change_recorded catalog os o r' res :
  step catalog o (start catalog os) = (r', res) →
  match res with
  | Err _ => r' = start catalog os
  | Ok (p, ev) =>
      byID r' !! (bp_TenantID p, bp_ProfileID p) = Some p
      ∧ (∀ sc, sc ≠ (bp_TenantID p, bp_ProfileID p) → byID r' !! sc = byID (start catalog os) !! sc)
      ∧ CurrentStatus ev = bp_Status p ∧ CurrentDigest ev = bp_ContentDigest p ∧ NextVersion ev = bp_Version p
      ∧ match byID (start catalog os) !! (bp_TenantID p, bp_ProfileID p) with
        | None => PreviousVersion ev = 0 ∧ bp_Version p = 1
        | Some cur => PreviousStatus ev = bp_Status cur ∧ PreviousDigest ev = bp_ContentDigest cur
            ∧ PreviousVersion ev = bp_Version cur ∧ bp_Version p = bp_Version cur + 1
            ∧ bp_Status cur ≠ StatusDisabled
        end
  end.
Proof.
  intros Hs. pose proof (backend_run_wf catalog os) as Hwf. pose proof (backend_step_outcome catalog o _ Hwf) as Ho.
  rewrite Hs in Ho. inversion Ho as [e|p ev Hv H1 Hid Hk Hev|cur p ev Hcur Hch Hver]; subst; [done|..].
  - injection Hev as Hpv Hnv Hcs Hcd. cbn. rewrite lookup_insert_eq. split; [done|]. split.
    { intros sc Hne. by apply lookup_insert_ne. }
    split_and!; [done|done|congruence|]. change (bp_TenantID p, bp_ProfileID p) with (id_scope p). by rewrite Hid.
  - destruct (wf_profile _ _ Hwf _ _ Hcur) as (_ & _ & Hmax & _).
    destruct Hch as [Hb Hv Hsc Hkey Hvn Hl Hev1 Hev2]. injection Hev1 as _ _ Hps Hcs. injection Hev2 as Hpv Hnv Hpd Hcd _.
    cbn. rewrite Hsc. change (bp_TenantID cur, bp_ProfileID cur) with (id_scope cur). rewrite lookup_insert_eq.
    split; [done|]. split; [intros sc Hne; by apply lookup_insert_ne|]. split_and!; try done.
    rewrite Hcur. split_and!; try done. by destruct (next_version _ (backend_valid_versions catalog) cur p).
Qed.

(** A stored profile is never lost or renamed: after any further operations it is unchanged
    or has a later version, and a disabled profile is unchanged forever. *)
Theorem backend_profile_history catalog os1 os2 sc p :
  byID (start catalog os1) !! sc = Some p →
  ∃ p', byID (run catalog os2 (start catalog os1)) !! sc = Some p' ∧ bp_ProfileKey p' = bp_ProfileKey p
    ∧ (p' = p ∨ bp_Status p ≠ StatusDisabled ∧ bp_Version p < bp_Version p').
Proof.
  intros Hp. destruct (backend_run_ok catalog os2 _ (backend_run_wf catalog os1)) as [_ Hx].
  destruct (Hx _ _ Hp) as (p' & Hp' & Hk & Hor). exists p'. split; [done|]. split; [done|].
  destruct Hor as [->|[Hf Hlt]]; [by left|right]. split; [|done]. cbn in Hf. by apply String.eqb_neq in Hf.
Qed.

(** * A profile is created, reconfigured and disabled *)

Definition ex_specs : list ProviderSpec :=
  [mkProviderSpec "inmemory" [CapabilitySession; CapabilityMemory] FieldForbidden [] FieldForbidden ∅;
   mkProviderSpec "postgres" [CapabilitySession; CapabilityAudit] FieldRequired ["postgres"] FieldRequired
     (<["sslmode" := mkOptionSpec OptionEnum false (Some " Require ") ["disable"; "Require"] None None]>
       (<["pool_size" := mkOptionSpec OptionInteger true None [] (Some 1) (Some 64)]> ∅))]%string.
Definition ex_catalog : ProviderCatalog :=
  match NewProviderCatalog ex_specs with Ok c => c | Err _ => ∅ end.
Definition ex_bindings (endpoint pool : string) : list CapabilityBinding :=
  [mkBinding CapabilityAudit "Postgres" endpoint {["pool_size"%string := pool]} "vault/pg";
   mkBinding CapabilitySession " inmemory " "" ∅ ""]%string.
Definition ex_metadata : ChangeMetadata := mkMetadata "user" "u-1" "rollout" "corr-1".
Definition ex_tenant_id : string := "t_01HF7YAT00041061050R3GG28A".
Definition ex_profile_id : string := "bp_01HF7YAT00041061050R3GG28A".
Definition ex_new : op := OpCreate background 1700000000000 (Some ex_random) 5
  (mkCreateInput ex_tenant_id "Primary" "Primary stores" "" "" 0
     (ex_bindings "postgres://[::FFFF:10.0.0.7]:05432/audit" "+08") ex_metadata).
Definition ex_update (pool : string) : op := OpUpdate background 6
  (mkUpdateInput ex_tenant_id ex_profile_id 1 "Primary stores" "tuned" 1
     (ex_bindings "postgres://DB.example.com./audit" pool) ex_metadata).
Definition ex_disable : op := OpTransition background 7
  (mkTransitionInput ex_tenant_id ex_profile_id 2 StatusDisabled ex_metadata).

Lemma backend_ex_catalog_ok : NewProviderCatalog ex_specs = Ok ex_catalog.
Proof.
  unfold ex_catalog. assert (is_ok (NewProviderCatalog ex_specs) = true) as H by (vm_compute; reflexivity).
  by destruct (NewProviderCatalog ex_specs).
Qed.

(** Bindings are put in order, endpoints in canonical form, and the defaults are filled in. *)
Example backend_create_example :
  match (step (Some ex_catalog) ex_new NewInMemoryRepository).2 with
  | Ok (p, _) => b_Capability <$> bp_Bindings p = [CapabilitySession; CapabilityAudit]
      ∧ b_Endpoint <$> bp_Bindings p = [""; "postgres://10.0.0.7:5432/audit"]%string
      ∧ bp_Bindings p ≫= (λ b, digest_options (b_Options b))
        = ["0"; "2"; "pool_size"; "8"; "sslmode"; "require"]%string
  | Err _ => False
  end.
Proof. vm_compute. by split_and!. Qed.

Lemma normalized_bindings_typed_witness :
  ∃ bs, NormalizeBindings (Some ex_catalog) (ex_bindings "postgres://db.example.com/x" "2") = Ok bs
    ∧ bindings_typed ex_catalog bs.
Proof.
  destruct (NormalizeBindings (Some ex_catalog) (ex_bindings "postgres://db.example.com/x" "2")) as [bs|] eqn:E;
    [|vm_compute in E; discriminate].
  exists bs. split; [reflexivity|].
  exact (proj1 (normalized_bindings_typed ex_specs ex_catalog _ bs backend_ex_catalog_ok E)).
Defined.

Lemma digest_bytes_injective_witness :
  digest_bytes 1 (ex_bindings "e" "1") ≠ digest_bytes 1 (ex_bindings "" "e1").
Proof.
  assert (representable 1 (ex_bindings "e" "1")) as H1 by (repeat constructor).
  assert (representable 1 (ex_bindings "" "e1")) as H2 by (repeat constructor).
  intros E. destruct (digest_bytes_injective 1 1 _ _ H1 H2 E) as [_ H]. discriminate H.
Defined.

Lemma backend_repository_integrity_witness :
  ∃ p, byID (start (Some ex_catalog) [ex_new]) !! (ex_tenant_id, ex_profile_id) = Some p
    ∧ bindings_typed ex_catalog (bp_Bindings p).
Proof.
  destruct (byID (start (Some ex_catalog) [ex_new]) !! (ex_tenant_id, ex_profile_id)) as [p|] eqn:E;
    [|vm_compute in E; discriminate].
  exists p. split; [reflexivity|].
  apply (proj1 (backend_repository_integrity ex_specs ex_catalog [ex_new] backend_ex_catalog_ok)) in E.
  exact (proj1 (proj2 (proj2 (proj2 E)))).
Defined.

Lemma backend_no_lost_update_witness :
  is_ok (step (Some ex_catalog) (ex_update "5")
    (run (Some ex_catalog) [ex_disable] (exec (Some ex_catalog) (ex_update "4") (start (Some ex_catalog) [ex_new])))).2
  = false.
Proof.
  destruct (step (Some ex_catalog) (ex_update "4") (start (Some ex_catalog) [ex_new])).2 as [res|] eqn:E;
    [|vm_compute in E; discriminate].
  exact (backend_no_lost_update (Some ex_catalog) [ex_new] [ex_disable] (ex_update "4") (ex_update "5") _ 1 res
    eq_refl eq_refl E).
Defined.
