(* ===== verification/BackendRuntime.v ===== *)
(** Running with a backend profile: [trpcservice/backend/runtime.go] (execution snapshots),
    [trpcservice/backend/registry.go] (capability providers per tenant) and
    [trpcservice/backend/runtime_factory.go] (materializing the capabilities of a profile).

    Providers and secret resolvers are code outside this package: they are parameters.  A
    capability is a Go value of an interface type, so it has a dynamic type, a kind, a set of
    interfaces and possibly a [Close] method; what the factory does to such values is recorded
    in a log of events.  A context is the sequence of the observations of [ctx.Err()]. *)
From Stdlib Require Import Ascii String.
From Corelib Require Import SpecFloat.
From S2P Require Import Prelude GoStrings GoURL GoIP Sha256 Tenant ModelRuntime.
From S2P Require Import BackendProfile ProfileStore BackendRepository.
Local Open Scope Z_scope.

(** * Execution snapshots *)

Record BackendExecutionSnapshot := mkBackendSnapshot {
  bs_tenant : option Tenant; bs_profile : option Profile; bs_catalog : option ProviderCatalog }.
Definition zero_snapshot : BackendExecutionSnapshot := mkBackendSnapshot None None None.

Record FactoryCacheKey := mkCacheKey {
  fk_TenantID : string; fk_TenantVersion : Z; fk_ProfileID : string; fk_ProfileVersion : Z;
  fk_ContentDigest : string }.

Record StorageFactoryInput := mkStorageInput {
  si_TenantID : string; si_TenantVersion : Z; si_ProfileID : string; si_ProfileKey : string;
  si_ProfileVersion : Z; si_ContentDigest : string; si_SchemaVersion : Z;
  si_Bindings : list CapabilityBinding }.

Definition default_selection (t : Tenant) (profileID : string) : bool :=
  match c_DefaultBackendProfileID (TConfig t) with Some id => (id =? profileID)%string | None => false end.

Definition validateExecutionState (tenantValue : Tenant) (profile : option Profile)
    (catalog : option ProviderCatalog) : result error unit :=
  if negb (is_ok (Tenant.Validate tenantValue)) then Err ErrInvalid
  else if negb (Tenant.CanAcceptExecution tenantValue) then Err ErrInvalid
  else match profile, catalog with
  | None, _ => Err ErrInvalid
  | Some _, None => Err ErrInvalid
  | Some p, Some _ =>
      if negb (is_ok (Validate p catalog)) then Err ErrInvalid
      else if negb (TenantID tenantValue =? bp_TenantID p)%string then Err ErrInvalid
      else if negb (default_selection tenantValue (bp_ProfileID p)) then Err ErrInvalid
      else if negb (CanAcceptExecution p) then Err ErrInvalid
      else Ok ()
  end.

Definition NewBackendExecutionSnapshot (tenantSnapshot : option Tenant) (profile : option Profile)
    (catalog : option ProviderCatalog) : result error BackendExecutionSnapshot :=
  let tenantValue := snapshot_Tenant tenantSnapshot in
  _ ← validateExecutionState tenantValue profile catalog;
  Ok (mkBackendSnapshot (Some tenantValue) profile catalog).

Definition snapshot_validate (s : BackendExecutionSnapshot) : result error unit :=
  match bs_tenant s, bs_profile s, bs_catalog s with
  | Some t, Some p, Some c => validateExecutionState t (Some p) (Some c)
  | _, _, _ => Err ErrInvalid
  end.

Definition CacheKey (s : BackendExecutionSnapshot) : result error FactoryCacheKey :=
  _ ← snapshot_validate s;
  match bs_tenant s, bs_profile s with
  | Some t, Some p =>
      Ok (mkCacheKey (TenantID t) (Version t) (bp_ProfileID p) (bp_Version p) (bp_ContentDigest p))
  | _, _ => Err ErrInvalid
  end.

Definition FactoryInput (s : BackendExecutionSnapshot) : result error StorageFactoryInput :=
  _ ← snapshot_validate s;
  match bs_tenant s, bs_profile s with
  | Some t, Some p =>
      Ok (mkStorageInput (TenantID t) (Version t) (bp_ProfileID p) (bp_ProfileKey p) (bp_Version p)
            (bp_ContentDigest p) (bp_SchemaVersion p) (bp_Bindings p))
  | _, _ => Err ErrInvalid
  end.

(** The value under the private context key, after and before. *)
Definition WithBackendExecutionSnapshot (s : BackendExecutionSnapshot) : option BackendExecutionSnapshot :=
  match snapshot_validate s with Err _ => Some zero_snapshot | Ok _ => Some s end.
Definition BackendExecutionSnapshotFromContext (v : option BackendExecutionSnapshot)
    : BackendExecutionSnapshot * bool :=
  match v with
  | None => (zero_snapshot, false)
  | Some s => match snapshot_validate s with Err _ => (zero_snapshot, false) | Ok _ => (s, true) end
  end.

(** * Capabilities *)

(** The interfaces that capabilities are asserted to. *)
Inductive iface :=
| SessionService | MemoryStore | SummaryStore | KnowledgeStore | VectorStore | ArtifactStore
| ObjectStore | AuditStore.
#[export] Instance iface_eq_dec : EqDecision iface.
Proof. solve_decision. Defined.

(** [reflect.Kind] as far as it is observed: a pointer with its address (nil is [None]),
    another kind that can be nil, or a kind that cannot. *)
Inductive kind := Pointer (address : option Z) | Reference (isNil : bool) | Plain.
#[export] Instance kind_eq_dec : EqDecision kind.
Proof. solve_decision. Defined.

(** A non-nil interface value; [v_Close] tells whether it has a [Close] method and whether
    the method returns an error.  A nil [any] is [None]. *)
Record value := mkValue { v_Type : string; v_Kind : kind; v_implements : list iface; v_Close : option bool }.
#[export] Instance value_eq_dec : EqDecision value.
Proof. solve_decision. Defined.

Definition implements (i : iface) (v : value) : bool := bool_decide (i ∈ v_implements v).
Definition closer (v : value) : bool := negb (opt_is_nil (v_Close v)).

Definition isNilCapability (v : option value) : bool :=
  match v with
  | None => true
  | Some v => match v_Kind v with
      | Pointer None => true
      | Reference isNil => isNil
      | _ => false
      end
  end.

Definition matchesCapability (kind : string) (v : value) : bool :=
  if isNilCapability (Some v) then false
  else if (kind =? CapabilitySession)%string then implements SessionService v
  else if (kind =? CapabilityMemory)%string then implements MemoryStore v
  else if (kind =? CapabilitySummary)%string then implements SummaryStore v
  else if (kind =? CapabilityKnowledge)%string then implements KnowledgeStore v && implements VectorStore v
  else if (kind =? CapabilityArtifact)%string then implements ArtifactStore v && implements ObjectStore v
  else if (kind =? CapabilityAudit)%string then implements AuditStore v
  else false.

(** [set_closeOnce] is the state of the [sync.Once], [set_closeErr] whether an error was joined. *)
Record CapabilitySet := mkSet {
  set_tenantID : string; capabilities : gmap string value; set_closeOnce : bool; set_closeErr : bool }.

Fixpoint copy_values (entries : list (string * option value)) (copy : gmap string value)
    : result error (gmap string value) :=
  match entries with
  | [] => Ok copy
  | (kind, v) :: entries' =>
      match v with
      | None => Err ErrStorageFactory
      | Some v => if (kind =? "")%string then Err ErrStorageFactory else copy_values entries' (<[kind := v]> copy)
      end
  end.
Definition NewCapabilitySet (tenantID : string) (values : gmap string (option value)) : result error CapabilitySet :=
  if negb (is_ok (validateTenantID tenantID)) || bool_decide (values = ∅) then Err ErrStorageFactory
  else
    copyValues ← copy_values (map_to_list values) ∅;
    Ok (mkSet tenantID copyValues false false).

Definition Capability (set : option CapabilitySet) (kind : string) : option value :=
  match set with
  | None => None
  | Some set => match capabilities set !! kind with
      | None => None
      | Some v => if isNilCapability (Some v) then None else Some v
      end
  end.

(** One capability asserted to an interface. *)
Definition assert_capability (v : option value) (i : iface) : result error value :=
  match v with
  | None => Err ErrCapabilityUnavailable
  | Some v => if implements i v then Ok v else Err ErrCapabilityUnavailable
  end.

Definition Session (set : option CapabilitySet) := assert_capability (Capability set CapabilitySession) SessionService.
Definition Memory (set : option CapabilitySet) := assert_capability (Capability set CapabilityMemory) MemoryStore.
Definition Summary (set : option CapabilitySet) : result error value :=
  let v := Capability set CapabilitySummary in
  let v := match v with None => Capability set CapabilitySession | Some _ => v end in
  let v := match v with None => Capability set CapabilityMemory | Some _ => v end in
  assert_capability v SummaryStore.
Definition Knowledge (set : option CapabilitySet) := assert_capability (Capability set CapabilityKnowledge) KnowledgeStore.
Definition Artifact (set : option CapabilitySet) := assert_capability (Capability set CapabilityArtifact) ArtifactStore.
Definition Audit (set : option CapabilitySet) := assert_capability (Capability set CapabilityAudit) AuditStore.
Definition Vector (set : option CapabilitySet) := assert_capability (Capability set CapabilityKnowledge) VectorStore.
Definition Object (set : option CapabilitySet) := assert_capability (Capability set CapabilityArtifact) ObjectStore.

(** ** Closing *)

(** What happens to capability values: a provider returns one, [Close] is called on one. *)
Inductive event := Created (v : value) | Closed (v : value).
#[export] Instance event_eq_dec : EqDecision event.
Proof. solve_decision. Defined.

(** Pointers of one type and address are the same object. *)
Definition same_pointer (current other : value) : bool :=
  (v_Type current =? v_Type other)%string
  && match v_Kind current, v_Kind other with
     | Pointer a, Pointer b => bool_decide (a = b)
     | _, _ => false
     end.
Definition alreadyClosed (current : value) (values : list value) : bool :=
  existsb (λ other, closer other && same_pointer current other) values.

(** [before] are the values at smaller indices; returns the values closed and whether a
    [Close] failed. *)
Fixpoint close_loop (before values : list value) (failed : bool) : list value * bool :=
  match values with
  | [] => ([], failed)
  | v :: values' =>
      match v_Close v with
      | None => close_loop (before ++ [v]) values' failed
      | Some err =>
          if alreadyClosed v before then close_loop (before ++ [v]) values' failed
          else let '(closed, failed) := close_loop (before ++ [v]) values' (failed || err) in (v :: closed, failed)
      end
  end.

(** The set after [Close], the values it closed, and its result. *)
Definition set_Close (set : option CapabilitySet) : option CapabilitySet * list value * result error unit :=
  match set with
  | None => (None, [], Ok ())
  | Some s =>
      let '(s', closed) :=
        if set_closeOnce s then (s, [])
        else
          let '(closed, failed) := close_loop [] (map_to_list (capabilities s)).*2 (set_closeErr s) in
          (mkSet (set_tenantID s) ∅ true failed, closed) in
      (Some s', closed, if set_closeErr s' then Err ErrStorageFactory else Ok ())
  end.

(** * Providers *)

(** A provider returns a value, a nil value, or an error. *)
Definition CapabilityProvider : Type :=
  (nat → option ctx_error) → StorageFactoryInput → CapabilityBinding → SecretValue → result error (option value).

Notation provider_key := (string * string * string)%type (only parsing).
Record ProviderRegistry := mkProviderRegistry {
  providers : gmap provider_key CapabilityProvider; providers_closed : bool }.
Definition NewProviderRegistry : ProviderRegistry := mkProviderRegistry ∅ false.

Definition Register (tenantID capability provider : string) (v : option CapabilityProvider)
    : act (option ProviderRegistry) error unit :=
  r ← get;
  match r, v with
  | Some r, Some f =>
      if negb (is_ok (validateTenantID tenantID)) || negb (validCapability capability) then throw ErrInvalid
      else
        let provider := to_lower (trim_space provider) in
        if (provider =? "")%string then throw ErrInvalid
        else if providers_closed r then throw ErrRegistryClosed
        else put (Some (mkProviderRegistry (<[(tenantID, capability, provider) := f]> (providers r))
               (providers_closed r)))
  | _, _ => throw ErrInvalid
  end.

Definition Remove (tenantID capability provider : string) : act (option ProviderRegistry) error unit :=
  r ← get;
  match r with
  | None => throw ErrInvalid
  | Some r =>
      if negb (is_ok (validateTenantID tenantID)) then throw ErrInvalid
      else if providers_closed r then throw ErrRegistryClosed
      else put (Some (mkProviderRegistry
             (delete (tenantID, capability, to_lower (trim_space provider)) (providers r)) (providers_closed r)))
  end.

(** [ctx.Err()] at the [i]-th observation. *)
Definition ctx_Err (ctx : nat → option ctx_error) (i : nat) : result error unit :=
  match ctx i with Some e => Err (ErrContext e) | None => Ok () end.

Definition Resolve (r : option ProviderRegistry) (ctx : context) (input : StorageFactoryInput)
    (binding : CapabilityBinding) : result error CapabilityProvider :=
  match ctx with
  | None => Err ErrInvalid
  | Some ctx =>
      _ ← ctx_Err ctx 0;
      match r with
      | None => Err ErrProviderUnavailable
      | Some r =>
          if (si_TenantID input =? "")%string then Err ErrProviderUnavailable
          else match providers r !! (si_TenantID input, b_Capability binding, to_lower (trim_space (b_Provider binding))) with
          | None => Err ErrProviderUnavailable
          | Some f => if providers_closed r then Err ErrProviderUnavailable else Ok f
          end
      end
  end.

Definition Close : act (option ProviderRegistry) error unit :=
  r ← get;
  match r with
  | None => mret ()
  | Some r => if providers_closed r then mret () else put (Some (mkProviderRegistry ∅ true))
  end.

(** * The storage factory *)

(** The factory borrows both registries: [rf_providers] and [rf_secrets] give their answers
    while binding number [k] is processed. *)
Record RegistryStorageFactory := mkFactory {
  rf_providers : option (nat → ProviderRegistry); rf_secrets : option (nat → SecretResolver) }.

Definition NewRegistryStorageFactory (ps : option (nat → ProviderRegistry)) (secrets : option (nat → SecretResolver))
    : result error RegistryStorageFactory :=
  if opt_is_nil ps || opt_is_nil secrets then Err ErrStorageFactory else Ok (mkFactory ps secrets).

(** [ctx_Err] where a failure is replaced by the error of the context. *)
Definition context_or {A} (ctx : nat → option ctx_error) (e : error) : result error A :=
  match ctx 1%nat with Some c => Err (ErrContext c) | None => Err e end.

Definition discard (v : value) (log : list event) : list event := if closer v then log ++ [Closed v] else log.

(** Observations of the context: [ctx 1] is the one this function returns on, [calls 0],
    [calls 1] and [calls 2] belong to the registry, the resolver and the provider. *)
Definition materializeBinding (registry : ProviderRegistry) (secrets : SecretResolver)
    (ctx : nat → option ctx_error) (calls : nat → nat → option ctx_error)
    (input : StorageFactoryInput) (binding : CapabilityBinding) : act (list event) error value := λ log,
  if (b_Capability binding =? "")%string || (b_Provider binding =? "")%string then (log, Err ErrStorageFactory)
  else match Resolve (Some registry) (Some (calls 0%nat)) input binding with
  | Err _ => (log, context_or ctx ErrStorageFactory)
  | Ok provider =>
      match (if (b_SecretRef binding =? "")%string then Some (mkSecret "")
             else match secrets (calls 1%nat) (mkSecretScope (si_TenantID input) (b_SecretRef binding)) with
                  | Ok secret => Some secret
                  | Err _ => None
                  end) with
      | None => (log, context_or ctx ErrStorageFactory)
      | Some secret =>
          match provider (calls 2%nat) input binding secret with
          | Err _ | Ok None => (log, context_or ctx ErrStorageFactory)
          | Ok (Some v) =>
              let log := log ++ [Created v] in
              match ctx 1%nat with
              | Some e => (discard v log, Err (ErrContext e))
              | None =>
                  if negb (matchesCapability (b_Capability binding) v)
                  then (discard v log, Err ErrStorageFactory) else (log, Ok v)
              end
          end
      end
  end.

(** [_ = set.Close()]. *)
Definition close_set (set : CapabilitySet) (log : list event) : list event :=
  log ++ (Closed <$> (set_Close (Some set)).1.2).

Definition add_capability (set : CapabilitySet) (kind : string) (v : value) : CapabilitySet :=
  mkSet (set_tenantID set) (<[kind := v]> (capabilities set)) (set_closeOnce set) (set_closeErr set).

Section factory.
Context (registry : nat → ProviderRegistry) (secrets : nat → SecretResolver).
(** Observations while binding number [k] is processed. *)
Context (ctx : nat → nat → option ctx_error) (calls : nat → nat → nat → option ctx_error).
Context (input : StorageFactoryInput).

Fixpoint materialize_all (k : nat) (bindings : list CapabilityBinding) (set : CapabilitySet)
    : act (list event) error CapabilitySet := λ log,
  match bindings with
  | [] => (log, Ok set)
  | binding :: bindings' =>
      match ctx k 0%nat with
      | Some e => (close_set set log, Err (ErrContext e))
      | None =>
          if negb (opt_is_nil (capabilities set !! b_Capability binding))
          then (close_set set log, Err ErrStorageFactory)
          else match materializeBinding (registry k) (secrets k) (ctx k) (calls k) input binding log with
          | (log, Err e) => (close_set set log, Err e)
          | (log, Ok v) => materialize_all (S k) bindings' (add_capability set (b_Capability binding) v) log
          end
      end
  end.
End factory.

(** [entry] are the observations before the loop. *)
Definition New (factory : option RegistryStorageFactory) (entry : context) (ctx : nat → nat → option ctx_error)
    (calls : nat → nat → nat → option ctx_error) (input : StorageFactoryInput)
    : act (list event) error CapabilitySet := λ log,
  match entry with
  | None => (log, Err ErrStorageFactory)
  | Some entry =>
      match entry 0%nat, factory ≫= rf_providers, factory ≫= rf_secrets with
      | Some e, _, _ => (log, Err (ErrContext e))
      | None, Some registry, Some secrets =>
          if negb (is_ok (validateTenantID (si_TenantID input))) || bool_decide (si_Bindings input = [])
          then (log, Err ErrStorageFactory)
          else match materialize_all registry secrets ctx calls input 0 (si_Bindings input)
                       (mkSet (si_TenantID input) ∅ false false) log with
          | (log, Err e) => (log, Err e)
          | (log, Ok set) =>
              match Session (Some set) with
              | Err _ => (close_set set log, Err ErrCapabilityUnavailable)
              | Ok _ => (log, Ok set)
              end
          end
      | None, _, _ => (log, Err ErrStorageFactory)
      end
  end.

#[global] Arguments validateExecutionState : simpl never.
#[global] Arguments matchesCapability : simpl never.
#[global] Arguments Resolve : simpl never.

(** * Closing a set *)

Definition same_object (v w : value) : Prop := v = w ∨ same_pointer v w = true.

Lemma same_pointer_trans u v w : same_pointer u v = true → same_pointer v w = true → same_pointer u w = true.
Proof.
  unfold same_pointer. destruct (String.eqb_spec (v_Type u) (v_Type v)) as [->|]; [|done].
  destruct (v_Type v =? v_Type w)%string; [|done]. cbn.
  destruct (v_Kind u), (v_Kind v), (v_Kind w); try done. rewrite !bool_decide_eq_true. congruence.
Qed.

Lemma alreadyClosed_snoc v l x : alreadyClosed v (l ++ [x]) = alreadyClosed v l || (closer x && same_pointer v x).
Proof. unfold alreadyClosed. rewrite existsb_app. cbn. by rewrite orb_false_r. Qed.

(** Every value that can be closed is closed, itself or as the same object; only such values
    are, none twice; and a failure is remembered. *)
Lemma close_loop_spec before values failed closed failed' :
  close_loop before values failed = (closed, failed') →
  (∀ v, v ∈ values → closer v = true →
     alreadyClosed v before = true ∨ ∃ w, w ∈ closed ∧ same_object v w)
  ∧ (∀ w, w ∈ closed → w ∈ values ∧ closer w = true ∧ alreadyClosed w before = false)
  ∧ StronglySorted (λ v w, same_pointer w v = false) closed
  ∧ failed' = failed || existsb (λ v, bool_decide (v_Close v = Some true)) closed.
Proof.
  revert before failed closed failed'. induction values as [|x values IH]; intros before failed closed failed'; cbn [close_loop].
  { intros [= <- <-]. split_and!; [by intros ? ?%not_elem_of_nil..|constructor|by rewrite orb_false_r]. }
  destruct (v_Close x) as [err|] eqn:Ex.
  2:{ intros (IH1 & IH2 & IH3 & IH4)%IH. assert (closer x = false) as Hx by (unfold closer; by rewrite Ex).
      split_and!; [| |done|done].
      - intros v [->|Hv]%elem_of_cons Hc; [congruence|]. destruct (IH1 v Hv Hc) as [Ha|?]; [|by right].
        rewrite alreadyClosed_snoc, Hx, orb_false_r in Ha. by left.
      - intros w Hw. destruct (IH2 w Hw) as (? & ? & Ha). rewrite alreadyClosed_snoc in Ha.
        apply orb_false_iff in Ha as [? _]. split_and!; [by right|done..]. }
  assert (closer x = true) as Hx by (unfold closer; by rewrite Ex).
  destruct (alreadyClosed x before) eqn:Eb.
  - intros (IH1 & IH2 & IH3 & IH4)%IH. split_and!; [| |done|done].
    + intros v [->|Hv]%elem_of_cons Hc; [by left|]. destruct (IH1 v Hv Hc) as [Ha|?]; [|by right]. left.
      rewrite alreadyClosed_snoc, Hx in Ha. apply orb_true_iff in Ha as [?|Hs]; [done|]. cbn in Hs.
      unfold alreadyClosed in Eb |- *. apply existsb_exists in Eb as (u & Hu & [Hcu Hxu]%andb_true_iff).
      apply existsb_exists. exists u. rewrite Hcu. split; [done|]. by eapply same_pointer_trans.
    + intros w Hw. destruct (IH2 w Hw) as (? & ? & Ha). rewrite alreadyClosed_snoc in Ha.
      apply orb_false_iff in Ha as [? _]. split_and!; [by right|done..].
  - destruct (close_loop (before ++ [x]) values (failed || err)) as [rest f] eqn:Er. intros [= <- <-].
    apply IH in Er as (IH1 & IH2 & IH3 & IH4). split_and!.
    + intros v [->|Hv]%elem_of_cons Hc; [right; exists x; split; [by left|by left]|].
      destruct (IH1 v Hv Hc) as [Ha|(w & Hw & ?)]; [|right; exists w; split; [by right|done]].
      rewrite alreadyClosed_snoc, Hx in Ha. apply orb_true_iff in Ha as [?|Hs]; [by left|].
      right. exists x. split; [by left|by right].
    + intros w [->|Hw]%elem_of_cons; [split_and!; [by left|done..]|]. destruct (IH2 w Hw) as (? & ? & Ha).
      rewrite alreadyClosed_snoc in Ha. apply orb_false_iff in Ha as [? _]. split_and!; [by right|done..].
    + constructor; [done|]. apply Forall_forall. intros w Hw. destruct (IH2 w Hw) as (_ & _ & Ha).
      rewrite alreadyClosed_snoc, Hx in Ha. by apply orb_false_iff in Ha as [_ ?].
    + rewrite IH4. cbn. rewrite Ex. destruct err; by rewrite ?orb_true_r, ?orb_false_r.
Qed.

(** Closing a set releases what it owns once: afterwards no capability can be obtained, every
    value with a [Close] method was closed, itself or through another capability of the same
    object, no object was closed twice, the result reports whether a [Close] failed, and
    closing again does nothing and reports the same. *)
Theorem capability_set_closed_once s s' closed res :
  set_closeOnce s = false → set_closeErr s = false → set_Close (Some s) = (Some s', closed, res) →
  (∀ kind, Capability (Some s') kind = None)
  ∧ (∀ kind v, capabilities s !! kind = Some v → closer v = true → ∃ w, w ∈ closed ∧ same_object v w)
  ∧ (∀ w, w ∈ closed → ∃ kind, capabilities s !! kind = Some w)
  ∧ StronglySorted (λ v w, same_pointer w v = false) closed
  ∧ res = (if existsb (λ v, bool_decide (v_Close v = Some true)) closed then Err ErrStorageFactory else Ok ())
  ∧ set_Close (Some s') = (Some s', [], res).
Proof.
  intros H1 H2. unfold set_Close. rewrite H1, H2. destruct (close_loop _ _ _) as [cl f] eqn:El.
  intros [= <- <- <-]. apply close_loop_spec in El as (Ha & Hb & Hc & Hf). cbn [set_closeErr set_closeOnce].
  split_and!; [|..|done].
  - intros kind. cbn. by rewrite lookup_empty.
  - intros kind v Hv Hcl. destruct (Ha v) as [?|?]; [|done|done|done]. apply elem_of_values. by exists kind.
  - intros w Hw. destruct (Hb w Hw) as (Hin & _). by apply elem_of_values in Hin.
  - done.
  - by rewrite Hf.
Qed.

(** * Building a set *)

(** What a capability of a built set comes from: the provider registered under the tenant of
    the input for the capability and provider name of the binding, called with the secret that
    the resolver returned for the same tenant, or with none where the binding names none. *)
Definition materialized (registry : ProviderRegistry) (secrets : SecretResolver)
    (calls : nat → nat → option ctx_error) (input : StorageFactoryInput) (b : CapabilityBinding) (v : value) : Prop :=
  ∃ provider secret,
    providers registry !! (si_TenantID input, b_Capability b, to_lower (trim_space (b_Provider b))) = Some provider
    ∧ (if (b_SecretRef b =? "")%string then secret = mkSecret ""
       else secrets (calls 1%nat) (mkSecretScope (si_TenantID input) (b_SecretRef b)) = Ok secret)
    ∧ provider (calls 2%nat) input b secret = Ok (Some v)
    ∧ matchesCapability (b_Capability b) v = true.

(** A value that can be closed was closed, itself or as the same object. *)
Definition released (log : list event) (v : value) : Prop :=
  closer v = true → ∃ w, Closed w ∈ log ∧ same_object v w.

Lemma released_mono log log' v : released log v → released (log ++ log') v.
Proof. intros H Hc. destruct (H Hc) as (w & ? & ?). exists w. split; [|done]. apply elem_of_app. by left. Qed.

Lemma discard_released v log : released (discard v log) v.
Proof.
  intros Hc. exists v. unfold discard. rewrite Hc. split; [|by left]. apply elem_of_app. right. by left.
Qed.

(** [discard] only adds the closing. *)
Lemma discard_events v log : ∃ log', discard v log = log ++ log' ∧ ∀ w, Created w ∉ log'.
Proof.
  unfold discard. destruct (closer v).
  - eexists. split; [done|]. by intros w ?%list_elem_of_singleton.
  - exists []. rewrite app_nil_r. split; [done|]. by intros w ?%not_elem_of_nil.
Qed.

Lemma Resolve_registered registry ctx input b f :
  Resolve (Some registry) (Some ctx) input b = Ok f →
  providers registry !! (si_TenantID input, b_Capability b, to_lower (trim_space (b_Provider b))) = Some f.
Proof.
  unfold Resolve. go_unfold. destruct (ctx_Err ctx 0) as [[]|]; [|done]. destruct (_ =? "")%string; [done|].
  destruct (providers registry !! _) as [g|]; [|done]. destruct (providers_closed registry); [done|]. by intros [= ->].
Qed.

Lemma materializeBinding_spec registry secrets ctx calls input b log log' res :
  materializeBinding registry secrets ctx calls input b log = (log', res) →
  match res with
  | Ok v => log' = log ++ [Created v] ∧ materialized registry secrets calls input b v
  | Err _ => log' = log ∨ ∃ v, log' = discard v (log ++ [Created v])
  end.
Proof.
  unfold materializeBinding. destruct (_ || _); [intros [= <- <-]; by left|].
  destruct (Resolve _ _ _ _) as [f|] eqn:Ef; [|unfold context_or; destruct (ctx 1%nat); intros [= <- <-]; by left].
  apply Resolve_registered in Ef.
  match goal with |- context [match ?o with None => _ | Some _ => _ end] => destruct o as [secret|] eqn:Es end;
    [|unfold context_or; destruct (ctx 1%nat); intros [= <- <-]; by left].
  destruct (f _ _ _ secret) as [[v|]|] eqn:Ev;
    [|unfold context_or; destruct (ctx 1%nat); intros [= <- <-]; by left..].
  cbv zeta. destruct (ctx 1%nat); [intros [= <- <-]; right; by exists v|].
  destruct (matchesCapability _ v) eqn:Em; cbn [negb]; intros [= <- <-]; [|right; by exists v].
  split; [done|]. exists f, secret. split_and!; try done.
  destruct (_ =? "")%string; [by injection Es|]. destruct (secrets _ _); congruence.
Qed.

(** While a set is built, every created value is released or owned by the set. *)
Definition accounted (set : CapabilitySet) (log : list event) : Prop :=
  ∀ v, Created v ∈ log → released log v ∨ ∃ kind, capabilities set !! kind = Some v.

Lemma close_set_released set log :
  set_closeOnce set = false → accounted set log → ∀ v, Created v ∈ close_set set log → released (close_set set log) v.
Proof.
  intros Hopen Hacc v Hv. unfold close_set in *. apply elem_of_app in Hv as [Hv|(w & ? & _)%list_elem_of_fmap]; [|done].
  destruct (Hacc v Hv) as [?|[kind Hk]]; [by apply released_mono|]. intros Hc.
  unfold set_Close. rewrite Hopen. destruct (close_loop _ _ _) as [cl f] eqn:El. cbn.
  apply close_loop_spec in El as (Ha & _). destruct (Ha v) as [?|(w & Hw & ?)]; [|done|done|].
  - apply elem_of_values. by exists kind.
  - exists w. split; [|done]. apply elem_of_app. right. by apply list_elem_of_fmap_2.
Qed.

Lemma accounted_discard set log v : accounted set log → accounted set (discard v (log ++ [Created v])).
Proof.
  intros Hacc w Hw. destruct (discard_events v (log ++ [Created v])) as (log' & E & Hno).
  assert (w = v ∨ Created w ∈ log) as [->|Hin].
  { rewrite E in Hw. apply elem_of_app in Hw as [Hw|Hw]; [|by destruct (Hno w)].
    apply elem_of_app in Hw as [?|[= ->]%list_elem_of_singleton]; [by right|by left]. }
  - left. apply discard_released.
  - destruct (Hacc w Hin) as [Hr|?]; [left|by right]. rewrite E. by do 2 apply released_mono.
Qed.

Section factory_proofs.
Context (registry : nat → ProviderRegistry) (secrets : nat → SecretResolver).
Context (ctx : nat → nat → option ctx_error) (calls : nat → nat → nat → option ctx_error).
Context (input : StorageFactoryInput).

(** The result of the loop: on an error everything is released, else the set has grown by
    one materialized capability per binding and nothing was closed. *)
Lemma materialize_all_spec k bindings set log log' res :
  set_closeOnce set = false → accounted set log → (∀ v, Closed v ∉ log) →
  materialize_all registry secrets ctx calls input k bindings set log = (log', res) →
  match res with
  | Err _ => ∀ v, Created v ∈ log' → released log' v
  | Ok set' =>
      set_closeOnce set' = false ∧ set_tenantID set' = set_tenantID set ∧ accounted set' log' ∧ (∀ v, Closed v ∉ log')
      ∧ (∀ kind v, capabilities set !! kind = Some v → capabilities set' !! kind = Some v)
      ∧ (∀ i b, bindings !! i = Some b → ∃ v, capabilities set' !! b_Capability b = Some v
          ∧ materialized (registry (k + i)%nat) (secrets (k + i)%nat) (calls (k + i)%nat) input b v)
      ∧ (∀ kind, is_Some (capabilities set' !! kind) → is_Some (capabilities set !! kind) ∨ kind ∈ b_Capability <$> bindings)
  end.
Proof using.
  revert k set log. induction bindings as [|b bindings IH]; intros k set log Hopen Hacc Hno; cbn [materialize_all].
  { intros [= <- <-]. split_and!; try done. by left. }
  destruct (ctx k 0%nat); [intros [= <- <-]; by apply close_set_released|].
  destruct (capabilities set !! b_Capability b) as [old|] eqn:Eold; cbn [opt_is_nil negb];
    [intros [= <- <-]; by apply close_set_released|].
  destruct (materializeBinding _ _ _ _ _ _ _) as [log1 [v|e]] eqn:Em; apply materializeBinding_spec in Em.
  - destruct Em as [-> Hmat]. intros H. apply IH in H; [|done|..].
    + destruct res as [set'|e]; [|done]. destruct H as (? & ? & ? & ? & Hkeep & Hall & Hdom). cbn in Hkeep.
      split_and!; try done.
      * intros kind w Hw. apply Hkeep. rewrite lookup_insert_ne; [done|]. congruence.
      * intros [|i] b' Hb'; cbn in Hb'.
        -- injection Hb' as <-. exists v. rewrite Nat.add_0_r. split; [|done]. apply Hkeep, lookup_insert_eq.
        -- rewrite <- Nat.add_succ_comm. by apply Hall.
      * intros kind Hk. destruct (Hdom kind Hk) as [Hs|?]; [|right; cbn; by right]. cbn in Hs.
        destruct (decide (b_Capability b = kind)) as [<-|Hne]; [right; by left|].
        rewrite lookup_insert_ne in Hs by done. by left.
    + intros w [Hw|[= ->]%list_elem_of_singleton]%elem_of_app.
      * destruct (Hacc w Hw) as [?|[kind Hk]]; [left; by apply released_mono|right].
        exists kind. cbn. rewrite lookup_insert_ne; [done|]. congruence.
      * right. exists (b_Capability b). apply lookup_insert_eq.
    + intros w [Hw|?%list_elem_of_singleton]%elem_of_app; [by destruct (Hno w)|done].
  - intros [= <- <-]. apply close_set_released; [done|]. destruct Em as [->|[v ->]]; [done|]. by apply accounted_discard.
Qed.
End factory_proofs.

(** C21: the storage factory is all or nothing.  When it fails, every value that a provider
    returned and that can be closed was closed.  When it succeeds, nothing was closed, the
    set belongs to the tenant of the input, has exactly the capabilities that are bound, each
    made by the provider registered for this tenant, capability and name with the secret of
    the same tenant and implementing its interface, and sessions are available. *)
Theorem storage_factory_all_or_nothing registry secrets entry ctx calls input log res :
  New (Some (mkFactory (Some registry) (Some secrets))) entry ctx calls input [] = (log, res) →
  match res with
  | Err _ => ∀ v, Created v ∈ log → released log v
  | Ok set =>
      (∀ v, Closed v ∉ log) ∧ set_tenantID set = si_TenantID input
      ∧ (∃ v, Session (Some set) = Ok v)
      ∧ (∀ k b, si_Bindings input !! k = Some b → ∃ v, capabilities set !! b_Capability b = Some v
          ∧ materialized (registry k) (secrets k) (calls k) input b v)
      ∧ (∀ kind, is_Some (capabilities set !! kind) → kind ∈ b_Capability <$> si_Bindings input)
  end.
Proof.
  assert (∀ v, Created v ∈ [] → released [] v) as Hnil by (by intros v ?%not_elem_of_nil).
  unfold New. destruct entry as [entry|]; [|by intros [= <- <-]]. cbn [mbind option_bind rf_providers rf_secrets].
  destruct (entry 0%nat); [by intros [= <- <-]|]. destruct (_ || _); [by intros [= <- <-]|].
  destruct (materialize_all _ _ _ _ _ _ _ _ _) as [log1 [set|e]] eqn:Em; apply materialize_all_spec in Em; try done;
    try (by intros ? ?%not_elem_of_nil).
  - destruct Em as (Hopen & Htenant & Hacc & Hno & _ & Hall & Hdom). destruct (Session (Some set)) as [v|] eqn:Es.
    + intros [= <- <-]. split_and!; try done; [by exists v|]. intros kind Hk. destruct (Hdom kind Hk) as [Hs|?]; [|done].
      cbn in Hs. rewrite lookup_empty in Hs. by destruct Hs.
    + intros [= <- <-]. by apply close_set_released.
  - intros [= <- <-]. exact Em.
Qed.

(** * Tenants do not see each other's providers *)

Inductive provider_op :=
| PRegister (tenantID capability provider : string) (v : option CapabilityProvider)
| PRemove (tenantID capability provider : string)
| PClose.

Definition provider_exec (o : provider_op) (r : option ProviderRegistry) : option ProviderRegistry :=
  (match o with
   | PRegister t c p v => Register t c p v
   | PRemove t c p => Remove t c p
   | PClose => Close
   end r).1.
Definition provider_run (os : list provider_op) (r : option ProviderRegistry) : option ProviderRegistry :=
  foldl (λ r o, provider_exec o r) r os.

(** Operations that a tenant can notice: its own, and the end of the registry. *)
Definition concerns (t : string) (o : provider_op) : bool :=
  match o with PRegister t' _ _ _ => (t' =? t)%string | PRemove t' _ _ => (t' =? t)%string | PClose => true end.

(** Two registries that look the same to a tenant. *)
Definition agree (t : string) (r1 r2 : option ProviderRegistry) : Prop :=
  match r1, r2 with
  | Some a, Some b => providers_closed a = providers_closed b ∧ ∀ c p, providers a !! (t, c, p) = providers b !! (t, c, p)
  | None, None => True
  | _, _ => False
  end.

#[export] Instance agree_equivalence t : Equivalence (agree t).
Proof.
  split.
  - by intros [a|].
  - intros [a|] [b|]; cbn; try done. intros [? H]. split; [done|]. intros c p. by rewrite H.
  - intros [a|] [b|] [c|]; cbn; try done. intros [? H1] [? H2]. split; [congruence|]. intros k p. by rewrite H1.
Qed.

#[export] Instance provider_exec_proper t o : Proper (agree t ==> agree t) (provider_exec o).
Proof.
  intros [a|] [b|]; cbn; try done.
  intros [Hc Hp]. destruct o as [t' c p [f|]|t' c p|]; unfold provider_exec, Register, Remove, Close; go_unfold;
    try (set (q := to_lower (trim_space p)); clearbody q);
    rewrite ?Hc; repeat case_match; cbn; (split; [congruence|]); try done; intros c' p'.
  - destruct (decide ((t', c, q) = (t, c', p'))) as [E|];
      [by rewrite E, !lookup_insert_eq|by rewrite !lookup_insert_ne].
  - destruct (decide ((t', c, q) = (t, c', p'))) as [E|];
      [by rewrite E, !lookup_delete_eq|by rewrite !lookup_delete_ne].
Qed.

Lemma provider_exec_other t o r : concerns t o = false → agree t (provider_exec o r) r.
Proof.
  destruct r as [a|]; [|by destruct o as [? ? ? [f|]| |]].
  destruct o as [t' c p [f|]|t' c p|]; cbn; intros Ht; try done; apply String.eqb_neq in Ht;
    unfold provider_exec, Register, Remove; go_unfold; repeat case_match; cbn; try done; (split; [done|]); intros c' p'.
  - apply lookup_insert_ne. congruence.
  - apply lookup_delete_ne. congruence.
Qed.

Lemma provider_run_agree t os r1 r2 :
  agree t r1 r2 → agree t (provider_run os r1) (provider_run (filter (λ o, concerns t o = true) os) r2).
Proof.
  revert r1 r2. induction os as [|o os IH]; intros r1 r2 H; [done|]. rewrite filter_cons. case_decide as Ho.
  - apply IH. by rewrite H.
  - apply not_true_is_false in Ho. apply IH. by rewrite provider_exec_other.
Qed.

(** A provider is never found through another tenant: what the registry answers for an input
    is the answer it would give had only the operations of the tenant of the input happened,
    and the closing of the registry. *)
Theorem provider_registry_isolated os ctx input b :
  Resolve (provider_run os (Some NewProviderRegistry)) ctx input b
  = Resolve (provider_run (filter (λ o, concerns (si_TenantID input) o = true) os) (Some NewProviderRegistry)) ctx input b.
Proof.
  assert (agree (si_TenantID input) (Some NewProviderRegistry) (Some NewProviderRegistry)) as H by done.
  apply (provider_run_agree _ os) in H. unfold Resolve. destruct ctx as [ctx|]; [|done]. go_unfold.
  destruct (ctx_Err ctx 0); [|done]. destruct (provider_run os _) as [r1|], (provider_run _ _) as [r2|]; try done.
  destruct H as [-> ->]. done.
Qed.

(** * A snapshot can be materialized *)

Lemma backend_validateExecutionState_Ok t p c :
  validateExecutionState t (Some p) (Some c) = Ok () ↔
  Tenant.Validate t = Ok () ∧ Tenant.CanAcceptExecution t = true ∧ Validate p (Some c) = Ok ()
  ∧ TenantID t = bp_TenantID p ∧ c_DefaultBackendProfileID (TConfig t) = Some (bp_ProfileID p)
  ∧ CanAcceptExecution p = true.
Proof.
  unfold validateExecutionState, default_selection. split.
  - destruct (Tenant.Validate t) as [[]|]; [|done]. destruct (Tenant.CanAcceptExecution t); [|done]. cbn [is_ok negb].
    destruct (Validate p (Some c)) as [[]|]; [|done]. cbn [is_ok negb].
    destruct (String.eqb_spec (TenantID t) (bp_TenantID p)); [|done]. cbn [negb].
    destruct (c_DefaultBackendProfileID _) as [id|]; [|done].
    destruct (String.eqb_spec id (bp_ProfileID p)) as [->|]; [|done]. by destruct (CanAcceptExecution p).
  - intros (-> & -> & -> & -> & -> & ->). by rewrite !String.eqb_refl.
Qed.

Lemma NewBackendExecutionSnapshot_Ok t p c s :
  NewBackendExecutionSnapshot (Some t) (Some p) (Some c) = Ok s →
  s = mkBackendSnapshot (Some t) (Some p) (Some c) ∧ validateExecutionState t (Some p) (Some c) = Ok ().
Proof.
  unfold NewBackendExecutionSnapshot. go_unfold. change (snapshot_Tenant (Some t)) with t.
  destruct (validateExecutionState _ _ _) as [[]|]; [|done]. by intros [= <-].
Qed.

Lemma FactoryInput_Ok t p c :
  validateExecutionState t (Some p) (Some c) = Ok () →
  FactoryInput (mkBackendSnapshot (Some t) (Some p) (Some c))
  = Ok (mkStorageInput (TenantID t) (Version t) (bp_ProfileID p) (bp_ProfileKey p) (bp_Version p)
      (bp_ContentDigest p) (bp_SchemaVersion p) (bp_Bindings p)).
Proof. intros H. unfold FactoryInput, snapshot_validate. cbn [bs_tenant bs_profile bs_catalog]. go_unfold. by rewrite H. Qed.

(** Provider names are lower-case ASCII, so a registration under the name is found. *)
Lemma validProviderName_normal name : validProviderName name = true → to_lower (trim_space name) = name.
Proof.
  intros [_ H]%andb_true_iff.
  assert (all_bytes (λ b, (b <? 128) && negb (is_space b) && (lower_rune b =? b)) name = true) as Hb.
  { destruct name as [|a s]; [done|]. cbn in H. apply andb_true_iff in H as [Ha Hs]. rewrite all_bytes_cons.
    apply andb_true_iff. split.
    - revert Ha. pose proof (byte_val_range a) as Hr. revert Hr. generalize (byte_val a). byte_classes.
    - revert Hs. apply all_bytes_impl. byte_classes. }
  unfold all_bytes in Hb. rewrite forallb_forall in Hb. pose proof (bytes_range name) as Hr. rewrite Forall_forall in Hr.
  rewrite trim_space_id, to_lower_id; [done|..]; apply Forall_forall; intros b Hin;
    pose proof (Hr b Hin); apply list_elem_of_In, Hb in Hin; bool_prop; split; try done; lia.
Qed.

(** A provider that always answers with a value of the right interfaces. *)
Definition answers (f : CapabilityProvider) (kind : string) : Prop :=
  ∀ ctx input b secret, b_Capability b = kind → ∃ v, f ctx input b secret = Ok (Some v) ∧ matchesCapability kind v = true.

Lemma matches_session v : matchesCapability CapabilitySession v = true →
  isNilCapability (Some v) = false ∧ implements SessionService v = true.
Proof. unfold matchesCapability. destruct (isNilCapability _); [done|]. by cbn. Qed.

Section materialize.
Context (registry : nat → ProviderRegistry) (secrets : nat → SecretResolver) (input : StorageFactoryInput).
Context (ctx : nat → nat → option ctx_error) (calls : nat → nat → nat → option ctx_error).
Context (Hctx : ∀ k i, ctx k i = None) (Hcalls : ∀ k i j, calls k i j = None).
Context (Htenant : si_TenantID input ≠ ""%string).

Definition available (k : nat) (b : CapabilityBinding) : Prop :=
  b_Capability b ≠ ""%string ∧ b_Provider b ≠ ""%string ∧ providers_closed (registry k) = false
  ∧ (∃ f, providers (registry k) !! (si_TenantID input, b_Capability b, to_lower (trim_space (b_Provider b))) = Some f
      ∧ answers f (b_Capability b))
  ∧ (b_SecretRef b ≠ ""%string →
      is_ok (secrets k (calls k 1%nat) (mkSecretScope (si_TenantID input) (b_SecretRef b))) = true).

Lemma materializeBinding_available k b log :
  available k b → ∃ v, materializeBinding (registry k) (secrets k) (ctx k) (calls k) input b log
    = (log ++ [Created v], Ok v) ∧ matchesCapability (b_Capability b) v = true.
Proof using Hctx Hcalls Htenant.
  intros (Hc & Hp & Hopen & (f & Hf & Ha) & Hs). unfold materializeBinding.
  rewrite (proj2 (String.eqb_neq _ _) Hc), (proj2 (String.eqb_neq _ _) Hp). cbn [orb].
  unfold Resolve, ctx_Err. go_unfold. rewrite Hcalls, (proj2 (String.eqb_neq _ _) Htenant), Hf, Hopen.
  match goal with |- context [match ?o with None => _ | Some _ => _ end] =>
    assert (∃ secret, o = Some secret) as [secret ->] end.
  { destruct (String.eqb_spec (b_SecretRef b) "") as [|Hne]; [by eexists|]. specialize (Hs Hne).
    destruct (secrets k _ _); [by eexists|done]. }
  destruct (Ha (calls k 2%nat) input b secret eq_refl) as (v & -> & Hm). exists v. cbv zeta. by rewrite Hctx, Hm.
Qed.

Lemma materialize_all_available k bindings set log :
  NoDup (b_Capability <$> bindings) → (∀ b, b ∈ bindings → capabilities set !! b_Capability b = None) →
  (∀ i b, bindings !! i = Some b → available (k + i) b) →
  ∃ set', (materialize_all registry secrets ctx calls input k bindings set log).2 = Ok set'
    ∧ (∀ kind v, capabilities set !! kind = Some v → capabilities set' !! kind = Some v)
    ∧ ∀ b, b ∈ bindings → ∃ v, capabilities set' !! b_Capability b = Some v ∧ matchesCapability (b_Capability b) v = true.
Proof using Hctx Hcalls Htenant.
  revert k set log. induction bindings as [|b bindings IH]; intros k set log Hnd Hfree Hav; cbn [materialize_all].
  { exists set. split_and!; [done..|by intros ? ?%not_elem_of_nil]. }
  cbn in Hnd. apply NoDup_cons in Hnd as [Hb Hnd]. rewrite Hctx, Hfree by (by left). cbn [opt_is_nil negb].
  pose proof (Hav 0%nat b eq_refl) as Hb0. rewrite Nat.add_0_r in Hb0.
  destruct (materializeBinding_available k b log Hb0) as (v & -> & Hm).
  destruct (IH (S k) (add_capability set (b_Capability b) v) (log ++ [Created v])) as (set' & Hset & Hkeep & Hall).
  - done.
  - intros b' Hin. cbn. rewrite lookup_insert_ne; [apply Hfree; by right|]. intros E. apply Hb. rewrite E.
    by apply list_elem_of_fmap_2.
  - intros i b' Hi. rewrite Nat.add_succ_comm. by apply Hav.
  - exists set'. split; [done|]. cbn in Hkeep. split.
    + intros kind w Hw. apply Hkeep. rewrite lookup_insert_ne; [done|]. intros <-. rewrite Hfree in Hw by (by left). done.
    + intros b' [->|Hin]%elem_of_cons; [|by apply Hall]. exists v. split; [|done]. apply Hkeep, lookup_insert_eq.
Qed.
End materialize.

(** An accepted snapshot can be materialized: its factory input carries the tenant and the
    default profile of the tenant, the snapshot survives the passage through a context, and
    when the registry has an answering provider for the tenant, capability and provider of
    every binding and the referenced secrets resolve, building the set succeeds and makes every
    bound capability available. *)
Theorem backend_snapshot_materializes specs catalog t p s registry secrets :
  NewProviderCatalog specs = Ok catalog → NewBackendExecutionSnapshot (Some t) (Some p) (Some catalog) = Ok s →
  (∀ b, b ∈ bp_Bindings p → ∃ f, providers registry !! (TenantID t, b_Capability b, b_Provider b) = Some f
     ∧ answers f (b_Capability b)) →
  providers_closed registry = false →
  (∀ b ctx, b ∈ bp_Bindings p → b_SecretRef b ≠ ""%string →
     is_ok (secrets ctx (mkSecretScope (TenantID t) (b_SecretRef b))) = true) →
  BackendExecutionSnapshotFromContext (WithBackendExecutionSnapshot s) = (s, true)
  ∧ ∃ input set, FactoryInput s = Ok input ∧ si_TenantID input = TenantID t
    ∧ c_DefaultBackendProfileID (TConfig t) = Some (si_ProfileID input)
    ∧ (New (Some (mkFactory (Some (λ _, registry)) (Some (λ _, secrets)))) (Some (λ _, None)) (λ _ _, None)
         (λ _ _ _, None) input []).2 = Ok set
    ∧ ∀ b, b ∈ bp_Bindings p → is_Some (Capability (Some set) (b_Capability b)).
Proof.
  intros Hc (-> & Hv)%NewBackendExecutionSnapshot_Ok Hprov Hopen Hsec.
  pose proof Hv as (Ht & Ha & Hp & Htp & Hdef & Hact)%backend_validateExecutionState_Ok.
  apply backend_Validate_valid in Hp. pose proof (backend_valid_profile_typed _ _ _ Hc Hp) as (Htyped & Hnd & _).
  apply backend_NewProviderCatalog_ok in Hc. rewrite Forall_forall in Htyped.
  assert (TenantID t ≠ ""%string ∧ validateTenantID (TenantID t) = Ok ()) as [Hne Hvt].
  { rewrite Htp. destruct Hp as [Hpt]. split; [|done]. intros E. by rewrite E in Hpt. }
  assert (hasCapability (bp_Bindings p) CapabilitySession = true) as Hsession
    by (unfold CanAcceptExecution in Hact; by apply andb_true_iff in Hact as [_ ?]).
  split.
  { unfold BackendExecutionSnapshotFromContext, WithBackendExecutionSnapshot, snapshot_validate. cbn.
    by rewrite Hv; cbn; rewrite Hv. }
  eexists. rewrite (FactoryInput_Ok _ _ _ Hv). set (input := mkStorageInput _ _ _ _ _ _ _ _).
  destruct (materialize_all_available (λ _, registry) (λ _, secrets) input (λ _ _, None) (λ _ _ _, None))
    with (k := 0%nat) (bindings := bp_Bindings p) (set := mkSet (TenantID t) ∅ false false) (log := @nil event)
    as (set' & Hset & _ & Hall); try done.
  { intros i b Hb. assert (b ∈ bp_Bindings p) as Hin by (by eapply list_elem_of_lookup_2).
    destruct (Htyped b Hin) as (Hcap & byProvider & spec & Hbp & Hspec & _).
    destruct (Hc _ _ Hbp _ _ Hspec) as (_ & Hname & _). unfold available. cbn [si_TenantID input].
    split_and!; [| |done| |intros; by apply Hsec].
    - intros E. by rewrite E in Hcap.
    - intros E. by rewrite E in Hname.
    - rewrite validProviderName_normal by done. by apply Hprov. }
  exists set'. split; [done|]. split; [done|]. split; [done|]. split.
  - unfold New. cbn [mbind option_bind rf_providers rf_secrets si_TenantID si_Bindings input]. rewrite Hvt.
    rewrite bool_decide_eq_false_2 by (intros E; by rewrite E in Hsession). cbn [is_ok negb orb].
    destruct (materialize_all _ _ _ _ _ _ _ _ _) as [log res]. cbn in Hset. subst res.
    apply existsb_exists in Hsession as (b & Hin%list_elem_of_In & Hb%String.eqb_eq).
    destruct (Hall b Hin) as (v & Hv' & Hm). rewrite Hb in Hv', Hm. apply matches_session in Hm as [Hnil Hi].
    unfold Session, Capability. rewrite Hv', Hnil. cbn. by rewrite Hi.
  - intros b Hin. destruct (Hall b Hin) as (v & Hv' & Hm). exists v. unfold Capability. rewrite Hv'.
    unfold matchesCapability in Hm. by destruct (isNilCapability (Some v)).
Qed.

(** * Witnesses *)

Definition ex_store : value := mkValue "store" (Pointer (Some 7)) [SessionService; AuditStore] (Some false).
Definition ex_twin : value := mkValue "store" (Pointer (Some 7)) [SessionService; AuditStore] (Some true).
Definition ex_provider : CapabilityProvider := λ _ _ _ _, Ok (Some ex_store).
Definition ex_registry : ProviderRegistry :=
  mkProviderRegistry {[ (ex_tenant_id, CapabilitySession, "inmemory"%string) := ex_provider;
                        (ex_tenant_id, CapabilityAudit, "postgres"%string) := ex_provider ]} false.
Definition ex_resolver : SecretResolver := λ _ _, Ok (mkSecret "s3cret").
Definition ex_set : CapabilitySet :=
  mkSet ex_tenant_id {[ CapabilitySession := ex_store; CapabilityAudit := ex_twin ]} false false.

(** Two capabilities that are one object are closed once. *)
Lemma capability_set_closed_once_witness :
  ∃ s' closed res, set_Close (Some ex_set) = (Some s', closed, res) ∧ length closed = 1%nat
    ∧ set_Close (Some s') = (Some s', [], res).
Proof.
  destruct (set_Close (Some ex_set)) as [[[s'|] closed] res] eqn:E; [|vm_compute in E; discriminate].
  pose proof (capability_set_closed_once ex_set s' closed res eq_refl eq_refl E) as (_ & _ & _ & _ & _ & H).
  exists s', closed, res. split; [reflexivity|]. split; [|exact H].
  assert (length (set_Close (Some ex_set)).1.2 = 1%nat) as Hl by (vm_compute; reflexivity). rewrite E in Hl. exact Hl.
Defined.

Definition ex_input : StorageFactoryInput :=
  mkStorageInput ex_tenant_id 1 ex_profile_id "primary" 1 "digest" 1
    [mkBinding CapabilitySession "inmemory" "" ∅ ""; mkBinding CapabilityMemory "inmemory" "" ∅ ""]%string.

(** The second binding has no provider: the first capability is closed again. *)
Lemma storage_factory_all_or_nothing_witness :
  ∃ log e, New (Some (mkFactory (Some (λ _, ex_registry)) (Some (λ _, ex_resolver)))) (Some quiet) (λ _, quiet)
      (λ _ _, quiet) ex_input [] = (log, Err e)
    ∧ Created ex_store ∈ log ∧ released log ex_store.
Proof.
  destruct (New (Some (mkFactory (Some (λ _, ex_registry)) (Some (λ _, ex_resolver)))) (Some quiet) (λ _, quiet)
      (λ _ _, quiet) ex_input []) as [log [s|e]] eqn:E; [vm_compute in E; discriminate|].
  exists log, e. split; [reflexivity|].
  assert (Created ex_store ∈ log) as Hin.
  { vm_compute in E. injection E as <- _. left. }
  split; [exact Hin|]. exact (storage_factory_all_or_nothing _ _ _ _ _ _ log (Err e) E ex_store Hin).
Defined.

Definition stored_backend : option Profile :=
  byID (run (Some ex_catalog) [ex_new] NewInMemoryRepository) !! (ex_tenant_id, ex_profile_id).

Lemma ex_provider_answers kind :
  kind = CapabilitySession ∨ kind = CapabilityAudit → answers ex_provider kind.
Proof. intros [->| ->] ctx i b s _; exists ex_store; done. Qed.

Lemma stored_backend_bindings :
  ((λ b, (b_Capability b, b_Provider b)) <$> default [] (bp_Bindings <$> stored_backend))
  = [(CapabilitySession, "inmemory"); (CapabilityAudit, "postgres")]%string.
Proof. vm_compute. reflexivity. Qed.

Lemma backend_snapshot_materializes_witness :
  ∃ p s input set, stored_backend = Some p ∧ NewBackendExecutionSnapshot (Some ex_tenant) (Some p) (Some ex_catalog) = Ok s
    ∧ FactoryInput s = Ok input
    ∧ (New (Some (mkFactory (Some (λ _, ex_registry)) (Some (λ _, ex_resolver)))) (Some (λ _, None)) (λ _ _, None)
        (λ _ _ _, None) input []).2 = Ok set.
Proof.
  pose proof stored_backend_bindings as Hbs.
  destruct stored_backend as [p|] eqn:Ep; [|discriminate]. cbn in Hbs.
  destruct (NewBackendExecutionSnapshot (Some ex_tenant) (Some p) (Some ex_catalog)) as [s|e] eqn:Es.
  - destruct (backend_snapshot_materializes ex_specs ex_catalog ex_tenant p s ex_registry ex_resolver
      backend_ex_catalog_ok Es) as (_ & input & set & Hi & _ & _ & Hn & _).
    + intros b Hb. apply (list_elem_of_fmap_2 (λ b, (b_Capability b, b_Provider b))) in Hb. rewrite Hbs in Hb.
      exists ex_provider. apply elem_of_cons in Hb as [[= -> ->]|[[= -> ->]|[]%not_elem_of_nil]%elem_of_cons];
        (split; [vm_compute; reflexivity|apply ex_provider_answers; auto]).
    + reflexivity.
    + reflexivity.
    + exists p, s, input, set. auto.
  - exfalso. assert (match stored_backend with
      | Some p => is_ok (NewBackendExecutionSnapshot (Some ex_tenant) (Some p) (Some ex_catalog))
      | None => false end = true) as H by (vm_compute; reflexivity).
    rewrite Ep, Es in H. discriminate.
Defined.
