(* ===== verification/Bindings.v ===== *)
(** Channel bindings, [trpcservice/channels/channels.go] and [repository.go]: the
    configuration of a binding and its normalization, creation, validation with the
    configuration digest, and the preparation of the changes that a repository stores.

    A [time.Time] is an instant with the knowledge whether its location is UTC.
    Cloning is the identity on values. *)
From Stdlib Require Import Ascii String.
From S2P Require Import Prelude GoStrings GoURL Tenant Sha256.
Local Open Scope Z_scope.

(** * Data *)

Inductive error :=
| ErrInvalid | ErrNotFound | ErrConflict | ErrDuplicateKey | ErrDisabled
| ErrInvalidTransition | ErrCandidateUnavailable | ErrVerificationFailed | ErrRandom
| ErrContext (e : ctx_error).
#[export] Instance error_eq_dec : EqDecision error.
Proof. solve_decision. Defined.

Definition SchemaVersionV1 : Z := 1.
Definition maxBindingKeyLength : Z := 64.
Definition maxProviderAccountLength : Z := 256.
Definition maxSecretRefLength : Z := 256.
Definition maxRouteDigestLength : Z := 64.
Definition maxProtocolValueLength : Z := 256.

Definition ChannelWeCom : string := "wecom".
Definition ChannelTelegram : string := "telegram".
Definition Channel_Validate (c : string) : result error unit :=
  if (c =? ChannelWeCom)%string || (c =? ChannelTelegram)%string then Ok () else Err ErrInvalid.

Definition StatusDraft : string := "draft".
Definition StatusActive : string := "active".
Definition StatusSuspended : string := "suspended".
Definition StatusDisabled : string := "disabled".

Record WeComProtocolConfiguration := mkWeCom {
  CorpID : string; AgentID : string; ReceiveID : string }.
Record TelegramProtocolConfiguration := mkTelegram { APIBaseURL : string; WebhookPath : string }.
Record ProtocolConfiguration := mkProtocol {
  WeCom : option WeComProtocolConfiguration;
  Telegram : option TelegramProtocolConfiguration }.
#[export] Instance wecom_eq_dec : EqDecision WeComProtocolConfiguration.
Proof. solve_decision. Defined.
#[export] Instance telegram_eq_dec : EqDecision TelegramProtocolConfiguration.
Proof. solve_decision. Defined.
#[export] Instance protocol_eq_dec : EqDecision ProtocolConfiguration.
Proof. solve_decision. Defined.

Record ChangeMetadata := mkMetadata {
  ActorType : string; ActorID : string; Reason : string; CorrelationID : string }.

Record CreateInput := mkCreateInput {
  ci_TenantID : string; ci_BindingKey : string; ci_Channel : string;
  ci_ProviderAccountID : string; ci_PublicRouteKeyDigest : string; ci_AppID : string;
  ci_SecretRef : string; ci_Protocol : ProtocolConfiguration; ci_Status : string;
  ci_Metadata : ChangeMetadata }.

Record Binding := mkBinding {
  TenantID : string;
  BindingID : string;
  BindingKey : string;
  Channel : string;
  ProviderAccountID : string;
  PublicRouteKeyDigest : string;
  AppID : string;
  SecretRef : string;
  Protocol : ProtocolConfiguration;
  Status : string;
  Version : Z;
  ConfigDigest : string;
  CreatedAt : stamp;
  UpdatedAt : stamp }.
#[export] Instance binding_eq_dec : EqDecision Binding.
Proof. solve_decision. Defined.

Record UpdateConfigurationInput := mkUpdateInput {
  ui_TenantID : string; ui_BindingID : string; ui_ExpectedVersion : Z;
  ui_ProviderAccountID : string; ui_PublicRouteKeyDigest : string; ui_AppID : string;
  ui_SecretRef : string; ui_Protocol : ProtocolConfiguration; ui_Metadata : ChangeMetadata }.

Record TransitionStatusInput := mkTransitionInput {
  ti_TenantID : string; ti_BindingID : string; ti_ExpectedVersion : Z;
  ti_NextStatus : string; ti_Metadata : ChangeMetadata }.

Definition EventCreated : string := "created".
Definition EventConfigurationUpdated : string := "configuration_updated".
Definition EventActivated : string := "activated".
Definition EventSuspended : string := "suspended".
Definition EventResumed : string := "resumed".
Definition EventDisabled : string := "disabled".

Record ChangeEvent := mkChangeEvent {
  EventType : string; ev_TenantID : string; ev_BindingID : string;
  PreviousStatus : string; CurrentStatus : string;
  PreviousDigest : string; CurrentDigest : string;
  ev_Metadata : ChangeMetadata;
  PreviousVersion : Z; NextVersion : Z; OccurredAt : stamp }.

(** * Normalization *)

Definition hasControl (value : string) : bool := existsb is_control (runes value).

Definition normalizeProtocolValue (value : string) : result error string :=
  let value := trim_space value in
  if (maxProtocolValueLength <? rune_count value) || hasControl value
  then Err ErrInvalid else Ok value.

Definition normalizeRequiredValue (value : string) (maxLength : Z) : result error string :=
  let normalized := trim_space value in
  if (normalized =? "")%string || (maxLength <? rune_count normalized) || hasControl normalized
  then Err ErrInvalid else Ok normalized.

Definition https_origin (u : URL) : bool :=
  (Scheme u =? "https")%string && negb (Host u =? "")%string && opt_is_nil (User u)
  && ((Path u =? "")%string || (Path u =? "/")%string) && (RawPath u =? "")%string
  && (RawQuery u =? "")%string && (Fragment u =? "")%string.

Definition normalizeAPIBaseURL (value : string) : result error string :=
  let value := trim_space value in
  if (value =? "")%string then Ok ""%string
  else match url_Parse value with
  | None => Err ErrInvalid
  | Some parsed =>
      if negb (https_origin parsed) then Err ErrInvalid
      else if (maxProtocolValueLength <? rune_count value) || hasControl value then Err ErrInvalid
      else Ok value
  end.

(** [strings.ContainsAny(value, "?#")]. *)
Definition contains_query (value : string) : bool :=
  existsb (λ r, (r =? 63) || (r =? 35)) (runes value).

Definition normalizeWebhookPath (value : string) : result error string :=
  let value := trim_space value in
  if (value =? "")%string then Ok ""%string
  else if negb (has_prefix value "/") || contains_query value
    || (maxProtocolValueLength <? rune_count value) || hasControl value
  then Err ErrInvalid else Ok value.

Definition normalize_wecom (w : WeComProtocolConfiguration)
    : result error WeComProtocolConfiguration :=
  corp ← normalizeProtocolValue (CorpID w);
  agent ← normalizeProtocolValue (AgentID w);
  receive ← normalizeProtocolValue (ReceiveID w);
  Ok (mkWeCom corp agent receive).

Definition normalize_telegram (t : TelegramProtocolConfiguration)
    : result error TelegramProtocolConfiguration :=
  base ← normalizeAPIBaseURL (APIBaseURL t);
  path ← normalizeWebhookPath (WebhookPath t);
  Ok (mkTelegram base path).

(** A pointer field: nil stays nil. *)
Definition normalize_opt {A} (f : A → result error A) (o : option A) : result error (option A) :=
  match o with None => Ok None | Some a => a' ← f a; Ok (Some a') end.

Definition normalizeProtocolConfiguration (channel : string)
    (configuration : ProtocolConfiguration) : result error ProtocolConfiguration :=
  _ ← Channel_Validate channel;
  if (channel =? ChannelWeCom)%string && negb (opt_is_nil (Telegram configuration))
  then Err ErrInvalid
  else if (channel =? ChannelTelegram)%string && negb (opt_is_nil (WeCom configuration))
  then Err ErrInvalid
  else
    wecom ← normalize_opt normalize_wecom (WeCom configuration);
    telegram ← normalize_opt normalize_telegram (Telegram configuration);
    Ok (mkProtocol wecom telegram).

Definition normalizeBindingKey (key : string) : result error string :=
  let key := to_lower (trim_space key) in
  if (len key <? 2) || (maxBindingKeyLength <? len key) then Err ErrInvalid
  else match bytes key with
  | [] => Err ErrInvalid
  | c0 :: rest =>
      if (c0 <? 97) || (122 <? c0) then Err ErrInvalid
      else if forallb key_byte rest then Ok key else Err ErrInvalid
  end.

(** [hex.DecodeString] succeeds on an even number of hexadecimal digits. *)
Definition hex_byte (c : Z) : bool :=
  ((48 <=? c) && (c <=? 57)) || ((97 <=? c) && (c <=? 102)) || ((65 <=? c) && (c <=? 70)).
Definition hex_decodes (s : string) : bool := Z.even (len s) && forallb hex_byte (bytes s).

Definition normalizeRouteKeyDigest (digest : string) : result error string :=
  if negb (len digest =? maxRouteDigestLength) || negb (to_lower digest =? digest)%string
  then Err ErrInvalid
  else if negb (hex_decodes digest) then Err ErrInvalid
  else Ok digest.

Definition ValidatePublicRouteKeyDigest (digest : string) : result error unit :=
  _ ← normalizeRouteKeyDigest digest; Ok ().

Definition DigestPublicRouteKey (channel routeKey : string) : result error string :=
  _ ← Channel_Validate channel;
  let routeKey := trim_space routeKey in
  if (routeKey =? "")%string || (1024 <? rune_count routeKey) || hasControl routeKey
  then Err ErrInvalid
  else Ok (sha256_hex (len_prefixed channel ++ len_prefixed routeKey)%string).

(** * Identifiers *)

Definition validateCrockfordID (id prefix : string) : result error unit :=
  let payload := trim_prefix id prefix in
  if (payload =? id)%string || negb (len payload =? 26) then Err ErrInvalid
  else match bytes payload with
  | [] => Err ErrInvalid
  | c :: _ =>
      if 55 <? c then Err ErrInvalid
      else if forallb crockford_rune (runes payload) then Ok () else Err ErrInvalid
  end.
Definition validateTenantID (id : string) : result error unit := validateCrockfordID id "t_".
Definition validateAppID (id : string) : result error unit := validateCrockfordID id "app_".
Definition validateBindingID (id : string) : result error unit := validateCrockfordID id "cb_".

(** [random] is what [rand.Read] delivers: 10 bytes, or an error. *)
Definition newBindingID (ms : Z) (random : option (list Z)) : result error string :=
  match random with
  | None => Err ErrRandom
  | Some r => Ok ("cb_" ++ encode_digits 26 (set_bytes (clock_bytes 6 ms ++ r)))%string
  end.

(** * The configuration digest *)

Definition wecom_json (w : WeComProtocolConfiguration) : string :=
  json_object (omitempty "corp_id" (CorpID w) ++ omitempty "agent_id" (AgentID w)
    ++ omitempty "receive_id" (ReceiveID w)).
Definition telegram_json (t : TelegramProtocolConfiguration) : string :=
  json_object (omitempty "api_base_url" (APIBaseURL t) ++ omitempty "webhook_path" (WebhookPath t)).
Definition protocol_json (p : ProtocolConfiguration) : string :=
  json_object
    (match WeCom p with None => [] | Some w => [("wecom"%string, wecom_json w)] end
     ++ match Telegram p with None => [] | Some t => [("telegram"%string, telegram_json t)] end).

(** Strings and integers always encode, so [json.Marshal] does not fail here. *)
Definition computeConfigDigest (channel account route app secret : string)
    (protocol : ProtocolConfiguration) : string :=
  sha256_hex (json_object
    [("schema_version", itoa SchemaVersionV1); ("channel", json_string channel);
     ("provider_account_id", json_string account); ("public_route_key_digest", json_string route);
     ("app_id", json_string app); ("secret_ref", json_string secret);
     ("protocol", protocol_json protocol)]%string).

Definition config_digest (b : Binding) : string :=
  computeConfigDigest (Channel b) (ProviderAccountID b) (PublicRouteKeyDigest b) (AppID b)
    (SecretRef b) (Protocol b).

Definition protocolEqual (left right : ProtocolConfiguration) : bool :=
  (protocol_json left =? protocol_json right)%string.

(** * Creation and validation *)

Definition new_status (status : string) : result error string :=
  let status := if (status =? "")%string then StatusDraft else status in
  if (status =? StatusDraft)%string || (status =? StatusActive)%string
    || (status =? StatusSuspended)%string
  then Ok status else Err ErrInvalid.

Definition NewBindingAt (ms : Z) (random : option (list Z)) (input : CreateInput)
    (now : stamp) : result error Binding :=
  _ ← validateTenantID (ci_TenantID input);
  key ← normalizeBindingKey (ci_BindingKey input);
  _ ← Channel_Validate (ci_Channel input);
  account ← normalizeRequiredValue (ci_ProviderAccountID input) maxProviderAccountLength;
  route ← normalizeRouteKeyDigest (ci_PublicRouteKeyDigest input);
  _ ← validateAppID (ci_AppID input);
  secret ← normalizeRequiredValue (ci_SecretRef input) maxSecretRefLength;
  protocol ← normalizeProtocolConfiguration (ci_Channel input) (ci_Protocol input);
  status ← new_status (ci_Status input);
  id ← newBindingID ms random;
  let now := to_utc now in
  if stamp_zero now then Err ErrInvalid
  else Ok (mkBinding (ci_TenantID input) id key (ci_Channel input) account route
    (ci_AppID input) secret protocol status 1
    (computeConfigDigest (ci_Channel input) account route (ci_AppID input) secret protocol)
    now now).

Definition validateBindingIdentity (b : Binding) : result error unit :=
  _ ← validateTenantID (TenantID b);
  _ ← validateBindingID (BindingID b);
  key ← normalizeBindingKey (BindingKey b);
  _ ← guard_ok (key =? BindingKey b)%string ErrInvalid;
  Channel_Validate (Channel b).

(** [normalized, err := f(value); err != nil || normalized != value]. *)
Definition is_normal (r : result error string) (value : string) : result error unit :=
  match r with
  | Ok v => guard_ok (v =? value)%string ErrInvalid
  | Err _ => Err ErrInvalid
  end.

Definition validateBindingFields (b : Binding) : result error unit :=
  _ ← is_normal (normalizeRequiredValue (ProviderAccountID b) maxProviderAccountLength)
        (ProviderAccountID b);
  _ ← is_normal (normalizeRouteKeyDigest (PublicRouteKeyDigest b)) (PublicRouteKeyDigest b);
  _ ← validateAppID (AppID b);
  is_normal (normalizeRequiredValue (SecretRef b) maxSecretRefLength) (SecretRef b).

Definition validateBindingProtocol (b : Binding) : result error unit :=
  protocol ← normalizeProtocolConfiguration (Channel b) (Protocol b);
  guard_ok (protocolEqual protocol (Protocol b)) ErrInvalid.

Definition known_status (s : string) : bool :=
  (s =? StatusDraft)%string || (s =? StatusActive)%string || (s =? StatusSuspended)%string
  || (s =? StatusDisabled)%string.

Definition validateBindingLifecycle (b : Binding) : result error unit :=
  _ ← guard_ok (known_status (Status b)) ErrInvalid;
  guard_ok (negb ((Version b <? 1) || stamp_zero (CreatedAt b) || stamp_zero (UpdatedAt b)
    || stamp_before (UpdatedAt b) (CreatedAt b) || negb (utc (CreatedAt b))
    || negb (utc (UpdatedAt b)))) ErrInvalid.

Definition Validate (b : Binding) : result error unit :=
  _ ← validateBindingIdentity b;
  _ ← validateBindingFields b;
  _ ← validateBindingProtocol b;
  _ ← validateBindingLifecycle b;
  guard_ok (ConfigDigest b =? config_digest b)%string ErrInvalid.

Definition CanAcceptInbound (b : Binding) : bool := (Status b =? StatusActive)%string.

Definition CanTransitionTo (b : Binding) (next : string) : bool :=
  if (Status b =? StatusDraft)%string
    then (next =? StatusActive)%string || (next =? StatusDisabled)%string
  else if (Status b =? StatusActive)%string
    then (next =? StatusSuspended)%string || (next =? StatusDisabled)%string
  else if (Status b =? StatusSuspended)%string
    then (next =? StatusActive)%string || (next =? StatusDisabled)%string
  else false.

(** * Changes *)

Definition normalizeChangeMetadata (metadata : ChangeMetadata) : result error ChangeMetadata :=
  let m := mkMetadata (trim_space (ActorType metadata)) (trim_space (ActorID metadata))
    (trim_space (Reason metadata)) (trim_space (CorrelationID metadata)) in
  if (ActorType m =? "")%string || (ActorID m =? "")%string || (Reason m =? "")%string
    || (CorrelationID m =? "")%string then Err ErrInvalid
  else if (1000 <? rune_count (Reason m)) || hasControl (ActorType m) || hasControl (ActorID m)
    || hasControl (Reason m) || hasControl (CorrelationID m) then Err ErrInvalid
  else Ok m.

Definition newChangeEvent (eventType : string) (b : Binding)
    (previousStatus currentStatus previousDigest currentDigest : string)
    (previousVersion nextVersion : Z) (occurredAt : stamp) (m : ChangeMetadata) : ChangeEvent :=
  mkChangeEvent eventType (TenantID b) (BindingID b) previousStatus currentStatus
    previousDigest currentDigest m previousVersion nextVersion occurredAt.

Definition PrepareCreatedChange (b : Binding) (metadata : ChangeMetadata)
    : result error ChangeEvent :=
  _ ← Validate b;
  _ ← guard_ok (negb (Status b =? StatusDisabled)%string) ErrInvalid;
  m ← normalizeChangeMetadata metadata;
  if negb (Version b =? 1) || stamp_zero (CreatedAt b) || negb (utc (CreatedAt b))
    || negb (instant (UpdatedAt b) =? instant (CreatedAt b)) then Err ErrInvalid
  else Ok (newChangeEvent EventCreated b "" (Status b) "" (ConfigDigest b) 0 (Version b)
    (CreatedAt b) m).

(** The checks before a change of a stored binding. *)
Definition change_guards (current : Binding) (tenantID bindingID : string)
    (expected : Z) : result error unit :=
  _ ← guard_ok (TenantID current =? tenantID)%string ErrNotFound;
  _ ← guard_ok (BindingID current =? bindingID)%string ErrNotFound;
  _ ← Validate current;
  _ ← guard_ok (negb (Status current =? StatusDisabled)%string) ErrDisabled;
  guard_ok (expected =? Version current) ErrConflict.

Definition mutation_time (current : Binding) (occurredAt : stamp) : result error unit :=
  guard_ok (negb (stamp_zero occurredAt || negb (utc occurredAt)
    || stamp_before occurredAt (UpdatedAt current))) ErrInvalid.

Definition PrepareConfigurationChange (current : Binding)
    (input : UpdateConfigurationInput) (occurredAt : stamp)
    : result error (Binding * ChangeEvent) :=
  _ ← change_guards current (ui_TenantID input) (ui_BindingID input) (ui_ExpectedVersion input);
  m ← normalizeChangeMetadata (ui_Metadata input);
  account ← normalizeRequiredValue (ui_ProviderAccountID input) maxProviderAccountLength;
  route ← normalizeRouteKeyDigest (ui_PublicRouteKeyDigest input);
  _ ← validateAppID (ui_AppID input);
  secret ← normalizeRequiredValue (ui_SecretRef input) maxSecretRefLength;
  protocol ← normalizeProtocolConfiguration (Channel current) (ui_Protocol input);
  _ ← mutation_time current occurredAt;
  let updated := mkBinding (TenantID current) (BindingID current) (BindingKey current)
    (Channel current) account route (ui_AppID input) secret protocol (Status current)
    (incr64 (Version current))
    (computeConfigDigest (Channel current) account route (ui_AppID input) secret protocol)
    (CreatedAt current) occurredAt in
  _ ← Validate updated;
  Ok (updated, newChangeEvent EventConfigurationUpdated updated (Status current) (Status updated)
    (ConfigDigest current) (ConfigDigest updated) (Version current) (Version updated) occurredAt m).

Definition status_event (previous next : string) : string :=
  if (next =? StatusSuspended)%string then EventSuspended
  else if (next =? StatusActive)%string
    then (if (previous =? StatusSuspended)%string then EventResumed else EventActivated)
  else if (next =? StatusDisabled)%string then EventDisabled
  else EventActivated.

Definition PrepareStatusChange (current : Binding) (input : TransitionStatusInput)
    (occurredAt : stamp) : result error (Binding * ChangeEvent) :=
  _ ← change_guards current (ti_TenantID input) (ti_BindingID input) (ti_ExpectedVersion input);
  _ ← guard_ok (CanTransitionTo current (ti_NextStatus input)) ErrInvalidTransition;
  m ← normalizeChangeMetadata (ti_Metadata input);
  _ ← mutation_time current occurredAt;
  let updated := mkBinding (TenantID current) (BindingID current) (BindingKey current)
    (Channel current) (ProviderAccountID current) (PublicRouteKeyDigest current)
    (AppID current) (SecretRef current) (Protocol current) (ti_NextStatus input)
    (incr64 (Version current)) (ConfigDigest current) (CreatedAt current) occurredAt in
  _ ← Validate updated;
  Ok (updated, newChangeEvent (status_event (Status current) (ti_NextStatus input)) updated
    (Status current) (Status updated) (ConfigDigest current) (ConfigDigest updated)
    (Version current) (Version updated) occurredAt m).

#[global] Arguments validateCrockfordID : simpl never.
#[global] Arguments newBindingID : simpl never.
#[global] Arguments normalizeBindingKey : simpl never.
#[global] Arguments normalizeRequiredValue : simpl never.
#[global] Arguments normalizeProtocolConfiguration : simpl never.
#[global] Arguments normalizeRouteKeyDigest : simpl never.
#[global] Arguments normalizeChangeMetadata : simpl never.
#[global] Arguments computeConfigDigest : simpl never.
#[global] Arguments config_digest : simpl never.
#[global] Arguments Validate : simpl never.
#[global] Arguments NewBindingAt : simpl never.

(** * Normal forms *)

Lemma normalizeBindingKey_tenant key :
  normalizeBindingKey key
  = match normalizeTenantKey key with Ok k => Ok k | Err _ => Err ErrInvalid end.
Proof.
  unfold normalizeBindingKey, normalizeTenantKey, maxBindingKeyLength. cbv zeta.
  generalize (to_lower (trim_space key)). intros k. repeat (case_match; try congruence).
Qed.

Lemma normalizeBindingKey_idem key k :
  normalizeBindingKey key = Ok k → normalizeBindingKey k = Ok k.
Proof.
  rewrite !normalizeBindingKey_tenant. destruct (normalizeTenantKey key) eqn:Hk; [|discriminate].
  intros [= ->]. by rewrite (normalizeTenantKey_idem _ _ Hk).
Qed.

Lemma normalizeRequiredValue_Ok v n w :
  normalizeRequiredValue v n = Ok w → normalizeRequiredValue w n = Ok w.
Proof.
  unfold normalizeRequiredValue. cbv zeta. case_match eqn:Ht; [discriminate|].
  intros [= <-]. by rewrite trim_space_idem, Ht.
Qed.

Lemma normalizeProtocolValue_Ok v w :
  normalizeProtocolValue v = Ok w → normalizeProtocolValue w = Ok w.
Proof.
  unfold normalizeProtocolValue. cbv zeta. case_match eqn:Ht; [discriminate|].
  intros [= <-]. by rewrite trim_space_idem, Ht.
Qed.

Lemma normalizeRouteKeyDigest_Ok d e : normalizeRouteKeyDigest d = Ok e → d = e.
Proof. unfold normalizeRouteKeyDigest. repeat case_match; congruence. Qed.

Lemma trim_space_empty : trim_space "" = ""%string.
Proof. reflexivity. Qed.

Lemma normalizeAPIBaseURL_Ok v w :
  normalizeAPIBaseURL v = Ok w → normalizeAPIBaseURL w = Ok w.
Proof.
  unfold normalizeAPIBaseURL. cbv zeta.
  destruct (trim_space v =? "")%string eqn:He; [intros [= <-]; by rewrite trim_space_empty|].
  destruct (url_Parse _) as [u|] eqn:Hu; [|discriminate].
  destruct (https_origin u) eqn:Ho; [|discriminate]. cbn [negb].
  destruct (_ || _) eqn:Hc; [discriminate|]. intros [= <-].
  by rewrite trim_space_idem, He, Hu, Ho, Hc.
Qed.

Lemma normalizeWebhookPath_Ok v w : normalizeWebhookPath v = Ok w → normalizeWebhookPath w = Ok w.
Proof.
  unfold normalizeWebhookPath. cbv zeta.
  destruct (trim_space v =? "")%string eqn:He; [intros [= <-]; by rewrite trim_space_empty|].
  destruct (_ || _) eqn:Hc; [discriminate|]. intros [= <-]. by rewrite trim_space_idem, He, Hc.
Qed.

Lemma normalize_wecom_Ok w w' : normalize_wecom w = Ok w' → normalize_wecom w' = Ok w'.
Proof.
  unfold normalize_wecom. go_unfold.
  destruct (normalizeProtocolValue (CorpID w)) eqn:H1; [|discriminate].
  destruct (normalizeProtocolValue (AgentID w)) eqn:H2; [|discriminate].
  destruct (normalizeProtocolValue (ReceiveID w)) eqn:H3; [|discriminate].
  intros [= <-]. cbn [CorpID AgentID ReceiveID].
  by rewrite (normalizeProtocolValue_Ok _ _ H1), (normalizeProtocolValue_Ok _ _ H2),
    (normalizeProtocolValue_Ok _ _ H3).
Qed.

Lemma normalize_telegram_Ok t t' :
  normalize_telegram t = Ok t' → normalize_telegram t' = Ok t'.
Proof.
  unfold normalize_telegram. go_unfold.
  destruct (normalizeAPIBaseURL (APIBaseURL t)) eqn:H1; [|discriminate].
  destruct (normalizeWebhookPath (WebhookPath t)) eqn:H2; [|discriminate].
  intros [= <-]. cbn [APIBaseURL WebhookPath].
  by rewrite (normalizeAPIBaseURL_Ok _ _ H1), (normalizeWebhookPath_Ok _ _ H2).
Qed.

Lemma normalize_opt_Ok {A} (f : A → result error A) o o' :
  (∀ a a', f a = Ok a' → f a' = Ok a') → normalize_opt f o = Ok o' →
  normalize_opt f o' = Ok o' ∧ opt_is_nil o' = opt_is_nil o.
Proof.
  intros Hf. destruct o as [a|]; simpl; go_unfold; [|by intros [= <-]].
  destruct (f a) eqn:Ha; [|discriminate]. intros [= <-]. simpl. by rewrite (Hf _ _ Ha).
Qed.

Lemma normalizeProtocolConfiguration_Ok c p p' :
  normalizeProtocolConfiguration c p = Ok p' →
  Channel_Validate c = Ok () ∧ normalizeProtocolConfiguration c p' = Ok p'.
Proof.
  unfold normalizeProtocolConfiguration. go_unfold.
  destruct (Channel_Validate c) as [[]|]; [|discriminate].
  destruct (_ && _) eqn:H1; [discriminate|]. destruct (_ && _) eqn:H2 in |- *; [discriminate|].
  destruct (normalize_opt normalize_wecom _) as [w|] eqn:Hw; [|discriminate].
  destruct (normalize_opt normalize_telegram _) as [t|] eqn:Ht; [|discriminate].
  intros [= <-]. cbn [WeCom Telegram]. split; [done|].
  apply normalize_opt_Ok in Hw as [Hw Hw']; [|exact normalize_wecom_Ok].
  apply normalize_opt_Ok in Ht as [Ht Ht']; [|exact normalize_telegram_Ok].
  by rewrite Hw, Ht, Hw', Ht', H1, H2.
Qed.

Lemma protocolEqual_refl p : protocolEqual p p = true.
Proof. apply String.eqb_refl. Qed.

Lemma trim_prefix_cb p : trim_prefix ("cb_" ++ p) "cb_" = p.
Proof. by destruct p. Qed.

Lemma newBindingID_Ok ms r id :
  newBindingID ms (Some r) = Ok id → id = ("cb_" ++ id_payload ms r)%string.
Proof.
  unfold newBindingID. change (encode_digits 26 _) with (id_payload ms r).
  generalize (id_payload ms r). congruence.
Qed.

Lemma newBindingID_valid ms r id :
  length r = 10%nat → Forall (λ b, 0 ≤ b < 256) r → newBindingID ms (Some r) = Ok id →
  validateBindingID id = Ok ().
Proof.
  intros Hl Hr ->%newBindingID_Ok. destruct (id_payload_spec ms r Hl Hr) as (Hlen & Hhead & Hall).
  revert Hlen Hhead Hall. generalize (id_payload ms r) as p. intros p Hlen (c & l & Hb & Hc) Hall.
  unfold validateBindingID, validateCrockfordID. cbv zeta.
  rewrite trim_prefix_cb, Hb, Hall, (proj2 (Z.ltb_ge 55 c)), Hlen by lia.
  destruct (String.eqb_spec p ("cb_" ++ p)) as [Heq|]; [|done].
  apply (f_equal String.length) in Heq. change (String.length ("cb_" ++ p))
    with (S (S (S (String.length p)))) in Heq. lia.
Qed.

(** * Valid bindings *)

Definition random_ok (random : option (list Z)) : Prop :=
  match random with
  | None => True
  | Some r => length r = 10%nat ∧ Forall (λ b, 0 ≤ b < 256) r
  end.

Lemma is_normal_Ok r v : r = Ok v → is_normal r v = Ok ().
Proof. intros ->. simpl. by rewrite String.eqb_refl. Qed.

Section validity.

Lemma Binding_Validate_intro b :
  validateTenantID (TenantID b) = Ok () → validateBindingID (BindingID b) = Ok () →
  normalizeBindingKey (BindingKey b) = Ok (BindingKey b) →
  normalizeRequiredValue (ProviderAccountID b) maxProviderAccountLength = Ok (ProviderAccountID b) →
  normalizeRouteKeyDigest (PublicRouteKeyDigest b) = Ok (PublicRouteKeyDigest b) →
  validateAppID (AppID b) = Ok () →
  normalizeRequiredValue (SecretRef b) maxSecretRefLength = Ok (SecretRef b) →
  Channel_Validate (Channel b) = Ok () →
  normalizeProtocolConfiguration (Channel b) (Protocol b) = Ok (Protocol b) →
  known_status (Status b) = true → 1 ≤ Version b →
  stamp_zero (CreatedAt b) = false → stamp_zero (UpdatedAt b) = false →
  stamp_before (UpdatedAt b) (CreatedAt b) = false →
  utc (CreatedAt b) = true → utc (UpdatedAt b) = true →
  ConfigDigest b = config_digest b → Validate b = Ok ().
Proof.
  intros Ht Hb Hk Ha Hr Happ Hs Hc Hp Hst Hv Hz1 Hz2 Hbf Hu1 Hu2 Hd.
  unfold Validate, validateBindingIdentity, validateBindingFields, validateBindingProtocol,
    validateBindingLifecycle. go_unfold.
  rewrite Ht, Hb, Hk, String.eqb_refl, Hc, !is_normal_Ok, Happ, Hp, protocolEqual_refl, Hst by done.
  rewrite (proj2 (Z.ltb_ge _ 1)), Hz1, Hz2, Hbf, Hu1, Hu2, Hd, String.eqb_refl by lia. done.
Qed.

(** What of a valid binding the other components rely on. *)
Lemma Binding_Validate_inv b :
  Validate b = Ok () →
  validateTenantID (TenantID b) = Ok () ∧ validateBindingID (BindingID b) = Ok ()
  ∧ validateAppID (AppID b) = Ok () ∧ Channel_Validate (Channel b) = Ok ()
  ∧ normalizeRequiredValue (ProviderAccountID b) maxProviderAccountLength = Ok (ProviderAccountID b)
  ∧ ValidatePublicRouteKeyDigest (PublicRouteKeyDigest b) = Ok ()
  ∧ 1 ≤ Version b ∧ ConfigDigest b = config_digest b.
Proof.
  unfold Validate, validateBindingIdentity, validateBindingFields, validateBindingLifecycle,
    ValidatePublicRouteKeyDigest. go_unfold.
  destruct (validateTenantID _) as [[]|]; [|discriminate].
  destruct (validateBindingID _) as [[]|]; [|discriminate].
  destruct (normalizeBindingKey _) as [k|]; [|discriminate]. destruct (k =? _)%string; [|discriminate].
  destruct (Channel_Validate _) as [[]|]; [|discriminate].
  destruct (normalizeRequiredValue (ProviderAccountID b) _) as [a|]; [|discriminate]. unfold is_normal at 1.
  go_unfold. destruct (String.eqb_spec a (ProviderAccountID b)) as [->|]; [|discriminate].
  destruct (normalizeRouteKeyDigest _) as [r|]; [|discriminate]. unfold is_normal at 1. go_unfold.
  destruct (r =? _)%string; [|discriminate].
  destruct (validateAppID _) as [[]|]; [|discriminate].
  destruct (is_normal _ _) as [[]|]; [|discriminate].
  destruct (validateBindingProtocol _) as [[]|]; [|discriminate].
  destruct (known_status _); [|discriminate].
  destruct (Version b <? 1) eqn:Hv; [discriminate|]. destruct (negb _); [|discriminate].
  destruct (ConfigDigest b =? _)%string eqn:Hd; [|discriminate]. bool_prop. done.
Qed.

Lemma NewBindingAt_spec ms random input now b :
  random_ok random → NewBindingAt ms random input now = Ok b →
  Validate b = Ok () ∧ Version b = 1 ∧ Status b ≠ StatusDisabled
  ∧ CreatedAt b = to_utc now ∧ UpdatedAt b = to_utc now ∧ TenantID b = ci_TenantID input.
Proof.
  intros Hrandom. unfold NewBindingAt. go_unfold.
  destruct (validateTenantID _) as [[]|] eqn:Ht; [|discriminate].
  destruct (normalizeBindingKey _) as [key|] eqn:Hk; [|discriminate].
  destruct (Channel_Validate _) as [[]|] eqn:Hc; [|discriminate].
  destruct (normalizeRequiredValue (ci_ProviderAccountID input) _) as [account|] eqn:Ha; [|discriminate].
  destruct (normalizeRouteKeyDigest _) as [route|] eqn:Hr; [|discriminate].
  destruct (validateAppID _) as [[]|] eqn:Happ; [|discriminate].
  destruct (normalizeRequiredValue (ci_SecretRef input) _) as [secret|] eqn:Hs; [|discriminate].
  destruct (normalizeProtocolConfiguration _ _) as [protocol|] eqn:Hp; [|discriminate].
  destruct (new_status _) as [status|] eqn:Hst; [|discriminate].
  destruct (newBindingID ms random) as [id|] eqn:Hid; [|discriminate].
  destruct (stamp_zero (to_utc now)) eqn:Hz; [discriminate|].
  assert (known_status status = true ∧ status ≠ StatusDisabled) as [Hks Hnd].
  { revert Hst. unfold new_status, known_status. cbv zeta.
    generalize (if (ci_Status input =? "")%string then StatusDraft else ci_Status input). intros s.
    case_match eqn:Hor; [|discriminate]. intros [= <-]. rewrite Hor. split; [done|].
    intros ->. discriminate. }
  destruct random as [r|]; [|discriminate]. destruct Hrandom as [Hl Hb]. intros Heq.
  pose proof (normalizeRouteKeyDigest_Ok _ _ Hr). 
  assert (b = mkBinding (ci_TenantID input) id key (ci_Channel input) account route
    (ci_AppID input) secret protocol status 1
    (computeConfigDigest (ci_Channel input) account route (ci_AppID input) secret protocol)
    (to_utc now) (to_utc now)) as -> by congruence. clear Heq.
  split; [|done]. apply Binding_Validate_intro; cbn [TenantID BindingID BindingKey Channel ProviderAccountID
    PublicRouteKeyDigest AppID SecretRef Protocol Status Version ConfigDigest CreatedAt UpdatedAt];
    try done.
  - exact (newBindingID_valid _ _ _ Hl Hb Hid).
  - by eapply normalizeBindingKey_idem.
  - by eapply normalizeRequiredValue_Ok.
  - congruence.
  - by eapply normalizeRequiredValue_Ok.
  - by eapply normalizeProtocolConfiguration_Ok.
  - unfold stamp_before, before. apply Z.ltb_irrefl.
Qed.

Lemma change_guards_Ok cur t id v :
  change_guards cur t id v = Ok () →
  TenantID cur = t ∧ BindingID cur = id ∧ Validate cur = Ok () ∧ Status cur ≠ StatusDisabled
  ∧ Version cur = v.
Proof.
  unfold change_guards. go_unfold. destruct (String.eqb_spec (TenantID cur) t); [|discriminate].
  destruct (String.eqb_spec (BindingID cur) id); [|discriminate].
  destruct (Validate cur) as [[]|]; [|discriminate].
  destruct (String.eqb_spec (Status cur) StatusDisabled); [discriminate|].
  destruct (Z.eqb_spec v (Version cur)); [|discriminate]. intros _; by split_and!.
Qed.

(** What every accepted change of a binding keeps, and what it advances. *)
Record changed (cur b : Binding) (ev : ChangeEvent) : Prop := {
  changed_valid : Validate b = Ok ();
  changed_tenant : TenantID b = TenantID cur;
  changed_id : BindingID b = BindingID cur;
  changed_key : BindingKey b = BindingKey cur;
  changed_channel : Channel b = Channel cur;
  changed_version : Version b = incr64 (Version cur);
  changed_live : Status cur ≠ StatusDisabled;
  changed_event : (ev_TenantID ev, ev_BindingID ev, PreviousStatus ev, CurrentStatus ev)
    = (TenantID b, BindingID b, Status cur, Status b);
  changed_versions : (PreviousVersion ev, NextVersion ev, PreviousDigest ev, CurrentDigest ev)
    = (Version cur, Version b, ConfigDigest cur, ConfigDigest b)
}.

Lemma PrepareConfigurationChange_spec cur input at_ b ev :
  PrepareConfigurationChange cur input at_ = Ok (b, ev) →
  changed cur b ev ∧ Status b = Status cur ∧ Version cur = ui_ExpectedVersion input
  ∧ TenantID cur = ui_TenantID input ∧ BindingID cur = ui_BindingID input.
Proof.
  unfold PrepareConfigurationChange. go_unfold.
  destruct (change_guards _ _ _ _) as [[]|] eqn:Hg; [|discriminate].
  apply change_guards_Ok in Hg as (? & ? & ? & ? & ?).
  destruct (normalizeChangeMetadata _); [|discriminate].
  destruct (normalizeRequiredValue (ui_ProviderAccountID input) _); [|discriminate].
  destruct (normalizeRouteKeyDigest _); [|discriminate].
  destruct (validateAppID _) as [[]|]; [|discriminate].
  destruct (normalizeRequiredValue (ui_SecretRef input) _); [|discriminate].
  destruct (normalizeProtocolConfiguration _ _); [|discriminate].
  destruct (mutation_time _ _) as [[]|]; [|discriminate].
  match goal with |- context [Validate ?u] => destruct (Validate u) as [[]|] eqn:Hv end; [|discriminate].
  intros [= <- <-]. by split.
Qed.

Lemma PrepareStatusChange_spec cur input at_ b ev :
  PrepareStatusChange cur input at_ = Ok (b, ev) →
  changed cur b ev ∧ CanTransitionTo cur (Status b) = true ∧ Version cur = ti_ExpectedVersion input
  ∧ TenantID cur = ti_TenantID input ∧ BindingID cur = ti_BindingID input.
Proof.
  unfold PrepareStatusChange. go_unfold.
  destruct (change_guards _ _ _ _) as [[]|] eqn:Hg; [|discriminate].
  apply change_guards_Ok in Hg as (? & ? & ? & ? & ?).
  destruct (CanTransitionTo _ _) eqn:Ht; [|discriminate].
  destruct (normalizeChangeMetadata _); [|discriminate].
  destruct (mutation_time _ _) as [[]|]; [|discriminate].
  match goal with |- context [Validate ?u] => destruct (Validate u) as [[]|] eqn:Hv end; [|discriminate].
  intros [= <- <-]. by split.
Qed.

End validity.
