(* ===== verification/Routing.v ===== *)
(** Trusted inbound routing, [trpcservice/channels/routing.go]: candidate contexts, the
    proof-bearing results of verification, routing targets and the Runner identities
    that they scope.

    The fields that [VerifiedBinding] and [RoutingTarget] share are the record
    [route]; the private pointers [proof] and [capability] are options.  The control
    plane behind a resolution is the interface [CandidateConsumer] with the laws that
    the resolution relies on; [BindingRepository.v] provides the in-memory instance. *)
From Stdlib Require Import Ascii String.
From S2P Require Import Prelude GoStrings Tenant Agent Sha256 Bindings.
Local Open Scope Z_scope.

(** * Candidates *)

Definition DefaultCandidateTTL : duration := 30 * second.
Definition MaxCandidateLifetime : duration := 5 * minute.
Definition PurposeWebhookVerification : string := "webhook-verification".

Definition purpose_validate (purpose : string) : result error unit :=
  if (purpose =? "")%string || hasControl purpose || (128 <? rune_count purpose)
  then Err ErrInvalid else Ok ().

Record SecretScope := mkSecretScope { sc_TenantID : string; sc_SecretRef : string }.
Definition SecretScope_Validate (scope : SecretScope) : result error unit :=
  _ ← validateTenantID (sc_TenantID scope);
  is_normal (normalizeRequiredValue (sc_SecretRef scope) maxSecretRefLength) (sc_SecretRef scope).

Record CandidateBindingContext := mkCandidate {
  cc_Channel : string;
  cc_PublicRouteKeyDigest : string;
  cc_BindingVersion : Z;
  cc_ConfigDigest : string;
  cc_Purpose : string;
  cc_CandidateToken : string;
  cc_IssuedAt : stamp;
  cc_ExpiresAt : stamp }.

Definition validHexDigest (value : string) : bool :=
  (len value =? 64) && (to_lower value =? value)%string
  && forallb (λ r, existsb (Z.eqb r) (runes hex_alphabet)) (runes value).

Definition lifetime_ok (issued expires : stamp) : bool :=
  negb (stamp_zero issued || stamp_zero expires || negb (utc issued) || negb (utc expires)
    || negb (after (instant expires) (instant issued))
    || (MaxCandidateLifetime <? instant expires - instant issued)).

Definition token_ok (token : string) : bool :=
  negb ((token =? "")%string || (256 <? rune_count token) || hasControl token).

Definition candidate_Validate (c : CandidateBindingContext) (now : stamp) : result error unit :=
  _ ← Channel_Validate (cc_Channel c);
  _ ← ValidatePublicRouteKeyDigest (cc_PublicRouteKeyDigest c);
  _ ← guard_ok (negb ((cc_BindingVersion c <? 1) || negb (validHexDigest (cc_ConfigDigest c))))
        ErrInvalid;
  _ ← purpose_validate (cc_Purpose c);
  _ ← guard_ok (token_ok (cc_CandidateToken c)) ErrInvalid;
  _ ← guard_ok (lifetime_ok (cc_IssuedAt c) (cc_ExpiresAt c)) ErrInvalid;
  guard_ok (stamp_zero now
    || negb (stamp_before now (cc_IssuedAt c) || negb (stamp_before now (cc_ExpiresAt c))))
    ErrCandidateUnavailable.

Definition NewCandidateBindingContext (channel routeDigest : string) (bindingVersion : Z)
    (configDigest purpose candidateToken : string) (issuedAt expiresAt : stamp)
    : result error CandidateBindingContext :=
  let candidate := mkCandidate channel routeDigest bindingVersion configDigest purpose
    candidateToken issuedAt expiresAt in
  _ ← candidate_Validate candidate issuedAt;
  Ok candidate.

Record ScopedVerifierHandle := mkHandle {
  handle_token : string; handle_Purpose : string; handle_ExpiresAt : stamp }.
Definition NewScopedVerifierHandle (token purpose : string) (expiresAt : stamp)
    : result error ScopedVerifierHandle :=
  if negb (token_ok token) || negb (is_ok (purpose_validate purpose)) || stamp_zero expiresAt
    || negb (utc expiresAt)
  then Err ErrInvalid else Ok (mkHandle token purpose expiresAt).

(** * Verified bindings *)

Record route := mkRoute {
  rt_TenantID : string;
  rt_BindingID : string;
  rt_BindingVersion : Z;
  rt_AppID : string;
  rt_Channel : string;
  rt_ProviderAccountID : string;
  rt_ConfigDigest : string }.
#[export] Instance route_eq_dec : EqDecision route.
Proof. solve_decision. Defined.

Record VerifiedBinding := mkVerified { verified_fields : route; proof : option route }.
Record RoutingTarget := mkTarget { target_fields : route; capability : option VerifiedBinding }.

Definition sameVerifiedBindingFields (left right : route) : bool :=
  (rt_TenantID left =? rt_TenantID right)%string
  && (rt_BindingID left =? rt_BindingID right)%string
  && (rt_BindingVersion left =? rt_BindingVersion right)
  && (rt_AppID left =? rt_AppID right)%string && (rt_Channel left =? rt_Channel right)%string
  && (rt_ProviderAccountID left =? rt_ProviderAccountID right)%string
  && (rt_ConfigDigest left =? rt_ConfigDigest right)%string.

Definition VerifiedBinding_Validate (v : VerifiedBinding) : result error unit :=
  match proof v with
  | None => Err ErrVerificationFailed
  | Some fields =>
      let r := verified_fields v in
      _ ← guard_ok (sameVerifiedBindingFields fields r) ErrInvalid;
      _ ← validateTenantID (rt_TenantID r);
      _ ← validateBindingID (rt_BindingID r);
      _ ← guard_ok (negb (rt_BindingVersion r <? 1)) ErrInvalid;
      _ ← validateAppID (rt_AppID r);
      _ ← Channel_Validate (rt_Channel r);
      _ ← is_normal (normalizeRequiredValue (rt_ProviderAccountID r) maxProviderAccountLength)
            (rt_ProviderAccountID r);
      guard_ok (validHexDigest (rt_ConfigDigest r)) ErrInvalid
  end.

(** The routing fields of a binding. *)
Definition binding_route (b : Binding) : route :=
  mkRoute (TenantID b) (BindingID b) (Version b) (AppID b) (Channel b) (ProviderAccountID b)
    (ConfigDigest b).

Definition newVerifiedBinding (b : Binding) : result error VerifiedBinding :=
  _ ← Validate b;
  if negb (CanAcceptInbound b) then Err ErrVerificationFailed
  else Ok (mkVerified (binding_route b) (Some (binding_route b))).

(** * Routing targets *)

(** The conditions of the last check: tenant, binding, app and verifier result agree. *)
Definition scopes_match (t : Tenant) (b : Binding) (app : App) (v : route) : bool :=
  (Tenant.TenantID t =? TenantID b)%string && (Tenant.TenantID t =? Agent.TenantID app)%string
  && (rt_TenantID v =? TenantID b)%string && (rt_AppID v =? AppID b)%string
  && (rt_BindingID v =? BindingID b)%string && (rt_BindingVersion v =? Version b)
  && (rt_AppID v =? Agent.AppID app)%string && (rt_Channel v =? Channel b)%string
  && (rt_ProviderAccountID v =? ProviderAccountID b)%string
  && (rt_ConfigDigest v =? ConfigDigest b)%string.

Definition NewRoutingTarget (t : Tenant) (binding : option Binding)
    (app : option App) (verified : VerifiedBinding) : result error RoutingTarget :=
  if negb (is_ok (Tenant.Validate t)) || negb (Tenant.CanAcceptExecution t)
  then Err ErrVerificationFailed
  else match binding, app with
  | Some b, Some a =>
      if negb (is_ok (Validate b)) || negb (CanAcceptInbound b) then Err ErrVerificationFailed
      else if negb (is_ok (Agent.Validate a)) || negb (Agent.CanAcceptExecution a)
      then Err ErrVerificationFailed
      else if negb (is_ok (VerifiedBinding_Validate verified)) then Err ErrVerificationFailed
      else if negb (scopes_match t b a (verified_fields verified)) then Err ErrVerificationFailed
      else Ok (mkTarget (mkRoute (Tenant.TenantID t) (BindingID b) (Version b) (Agent.AppID a)
             (Channel b) (ProviderAccountID b) (ConfigDigest b)) (Some verified))
  | _, _ => Err ErrVerificationFailed
  end.

Definition RoutingTarget_Validate (target : RoutingTarget) : result error unit :=
  match capability target with
  | None => Err ErrVerificationFailed
  | Some verified =>
      if negb (sameVerifiedBindingFields (target_fields target) (verified_fields verified))
      then Err ErrVerificationFailed
      else VerifiedBinding_Validate verified
  end.

(** * Resolution of a candidate *)

(** The control plane that stores the candidates: one capability is spent by one call. *)
Class CandidateConsumer (S : Type) :=
  ConsumeCandidate : CandidateBindingContext → act S error (option Binding).

Class ConsumerLaws (S : Type) `{CandidateConsumer S} := {
  consume_active c s s' b : ConsumeCandidate c s = (s', Ok (Some b)) →
    Status b = StatusActive ∧ Version b = cc_BindingVersion c
    ∧ ConfigDigest b = cc_ConfigDigest c ∧ Channel b = cc_Channel c
    ∧ PublicRouteKeyDigest b = cc_PublicRouteKeyDigest c;
  consume_once c c' s s' b : ConsumeCandidate c s = (s', Ok (Some b)) →
    cc_CandidateToken c' = cc_CandidateToken c →
    is_ok (ConsumeCandidate c' s').2 = false }.

Definition IsContextCancellation (e : error) : bool :=
  match e with ErrContext _ => true | _ => false end.

(** Every failure but a cancellation is reported as the same error. *)
Definition redact {A} (r : result error A) : result error A :=
  match r with
  | Ok a => Ok a
  | Err e => if IsContextCancellation e then Err e else Err ErrVerificationFailed
  end.

(** The errors of the other packages, by name. *)
Definition tenant_error (e : Tenant.error) : error :=
  match e with
  | Tenant.ErrInvalid => ErrInvalid
  | Tenant.ErrNotFound => ErrNotFound
  | Tenant.ErrConflict => ErrConflict
  | Tenant.ErrDuplicateKey => ErrDuplicateKey
  | Tenant.ErrDisabled => ErrDisabled
  | Tenant.ErrInvalidTransition => ErrInvalidTransition
  | Tenant.ErrRandom => ErrRandom
  | Tenant.ErrContext c => ErrContext c
  end.
Definition agent_error (e : Agent.error) : error :=
  match e with
  | Agent.ErrNotFound => ErrNotFound
  | Agent.ErrConflict => ErrConflict
  | Agent.ErrDuplicateKey => ErrDuplicateKey
  | Agent.ErrDisabled => ErrDisabled
  | Agent.ErrInvalidTransition => ErrInvalidTransition
  | Agent.ErrRandom => ErrRandom
  | Agent.ErrContext c => ErrContext c
  | Agent.ErrInvalid | Agent.ErrImmutableRevision | Agent.ErrEncode => ErrInvalid
  end.
Definition map_error {E F A} (f : E → F) (r : result E A) : result F A :=
  match r with Ok a => Ok a | Err e => Err (f e) end.

Section resolution.
Context {S : Type} `{CandidateConsumer S}.

(** The verifier of the protocol and the tenant and app repositories, as they answer. *)
Variable verify : Binding → result error unit.
Variable tenants_Get : string → result Tenant.error (option Tenant).
Variable apps_Get : string → string → result Agent.error (option App).

Definition ResolveCandidateRoutingTarget (ctx : context) (candidate : CandidateBindingContext)
    : act S error RoutingTarget :=
  match ctx with
  | None => throw ErrVerificationFailed
  | Some c =>
      match c 0%nat with
      | Some e => throw (ErrContext e)
      | None =>
          if (cc_Channel candidate =? "")%string then throw ErrVerificationFailed
          else λ s,
            let '(s', consumed) := ConsumeCandidate candidate s in
            (s', (binding ← redact consumed;
                  match binding with
                  | None => Err ErrVerificationFailed
                  | Some b =>
                      _ ← redact (verify b);
                      verified ← map_error (λ _, ErrVerificationFailed) (newVerifiedBinding b);
                      t ← redact (map_error tenant_error (tenants_Get (TenantID b)));
                      snapshot ← map_error (λ _, ErrVerificationFailed)
                                   (NewConfigurationSnapshot t);
                      app ← redact (map_error agent_error (apps_Get (TenantID b) (AppID b)));
                      map_error (λ _, ErrVerificationFailed)
                        (NewRoutingTarget snapshot (Some b) app verified)
                  end))
      end
  end.

End resolution.

(** * Runner identities *)

Definition ConversationDirect : string := "direct".
Definition ConversationGroup : string := "group".

Record IdentityInput := mkIdentityInput {
  ExternalUserID : string; Kind : string; ExternalPeerID : string;
  ExternalChatID : string; ExternalThreadID : string }.

Definition requiredExternalID (value : string) : result error string :=
  if (value =? "")%string || hasControl value || (1024 <? rune_count value)
  then Err ErrInvalid else Ok value.

(** [encodeIdentityParts] writes the length-prefixed parts one after another. *)
Definition encodeIdentityParts (parts : list string) : string := len_prefixed_all parts.

Definition conversation_id (input : IdentityInput) : result error string :=
  if (Kind input =? ConversationDirect)%string then requiredExternalID (ExternalPeerID input)
  else if (Kind input =? ConversationGroup)%string then requiredExternalID (ExternalChatID input)
  else Err ErrInvalid.

Definition target_RunnerIdentity (target : RoutingTarget) (input : IdentityInput)
    : result error RunnerIdentity :=
  _ ← RoutingTarget_Validate target;
  userID ← requiredExternalID (ExternalUserID input);
  conversationID ← conversation_id input;
  if negb (ExternalThreadID input =? "")%string && hasControl (ExternalThreadID input)
  then Err ErrInvalid
  else
    let r := target_fields target in
    let scopedUser := encodeIdentityParts [rt_Channel r; rt_BindingID r; userID] in
    let scopedSession := encodeIdentityParts
      [rt_Channel r; rt_BindingID r; Kind input; conversationID; ExternalThreadID input] in
    map_error tenant_error (NewRunnerIdentity (rt_TenantID r) scopedUser scopedSession).

#[global] Arguments RoutingTarget_Validate : simpl never.
#[global] Arguments VerifiedBinding_Validate : simpl never.
#[global] Arguments validHexDigest : simpl never.
#[global] Arguments candidate_Validate : simpl never.
#[global] Arguments encodeIdentityParts : simpl never.

(** * Seals *)

Lemma sameVerifiedBindingFields_spec a b : sameVerifiedBindingFields a b = true ↔ a = b.
Proof.
  unfold sameVerifiedBindingFields. split.
  - destruct a, b. simpl. intros H. bool_prop. by subst.
  - intros ->. by rewrite !String.eqb_refl, Z.eqb_refl.
Qed.

Lemma is_hex_alphabet a :
  existsb (Ascii.eqb a) (list_ascii_of_string hex_alphabet) = true →
  0 ≤ byte_val a < 128 ∧ lower_rune (byte_val a) = byte_val a
  ∧ existsb (Z.eqb (byte_val a)) (runes hex_alphabet) = true.
Proof.
  intros H. apply existsb_exists in H as (x & Hin & ->%Ascii.eqb_eq).
  cbn in Hin. repeat destruct Hin as [<-|Hin]; [..|done];
    (split; [vm_compute; split; congruence|split; vm_compute; reflexivity]).
Qed.

Lemma bytes_list_ascii s : bytes s = byte_val <$> list_ascii_of_string s.
Proof. induction s as [|c s IH]; [done|]. simpl. by rewrite IH. Qed.

(** Digests of the standard library are what the validators accept. *)
Lemma sha256_hex_valid s : validHexDigest (sha256_hex s) = true.
Proof.
  unfold sha256_hex. destruct (hex_encode_chars _ (sum256_range (bytes s))) as [Hlen Hall].
  rewrite sum256_length in Hlen. revert Hlen Hall. generalize (hex_encode (sum256 (bytes s))) as h.
  intros h Hlen Hall. unfold validHexDigest, len. rewrite Hlen.
  assert (Forall (λ b, (0 ≤ b < 128 ∧ lower_rune b = b)
    ∧ existsb (Z.eqb b) (runes hex_alphabet) = true) (bytes h)) as Hb.
  { rewrite bytes_list_ascii. apply Forall_fmap. eapply Forall_impl; [exact Hall|].
    intros a Ha%is_hex_alphabet. simpl. tauto. }
  rewrite (to_lower_id h), String.eqb_refl by (eapply Forall_impl; [exact Hb|]; simpl; tauto).
  rewrite (runes_ascii h) by (eapply Forall_impl; [exact Hb|]; simpl; tauto).
  simpl andb. apply forallb_forall. intros b Hin%list_elem_of_In.
  rewrite Forall_forall in Hb. by apply Hb.
Qed.

Section soundness.

Lemma newVerifiedBinding_Ok b v :
  newVerifiedBinding b = Ok v →
  Validate b = Ok () ∧ CanAcceptInbound b = true
  ∧ v = mkVerified (binding_route b) (Some (binding_route b))
  ∧ VerifiedBinding_Validate v = Ok ().
Proof.
  unfold newVerifiedBinding. go_unfold. destruct (Validate b) as [[]|] eqn:Hv; [|discriminate].
  destruct (CanAcceptInbound b); [|discriminate]. cbn [negb]. intros [= <-].
  split_and!; [done..|]. apply Binding_Validate_inv in Hv as (Ht & Hb & Ha & Hc & Hp & _ & Hver & Hd).
  unfold VerifiedBinding_Validate. go_unfold. cbn [proof verified_fields binding_route].
  rewrite (proj2 (sameVerifiedBindingFields_spec _ _) eq_refl).
  cbn [binding_route rt_TenantID rt_BindingID rt_BindingVersion rt_AppID rt_Channel
    rt_ProviderAccountID rt_ConfigDigest].
  rewrite Ht, Hb, (proj2 (Z.ltb_ge (Version b) 1)), Ha, Hc, (is_normal_Ok _ _ Hp), Hd by lia.
  unfold config_digest, computeConfigDigest. by rewrite sha256_hex_valid.
Qed.

Lemma NewRoutingTarget_Ok t b app v target :
  NewRoutingTarget t (Some b) app v = Ok target →
  ∃ a, app = Some a ∧ Tenant.Validate t = Ok () ∧ Tenant.CanAcceptExecution t = true
    ∧ Agent.Validate a = Ok () ∧ Agent.CanAcceptExecution a = true
    ∧ Tenant.TenantID t = TenantID b ∧ Agent.TenantID a = TenantID b ∧ Agent.AppID a = AppID b
    ∧ target = mkTarget (binding_route b) (Some v) ∧ verified_fields v = binding_route b.
Proof.
  unfold NewRoutingTarget.
  destruct (Tenant.Validate t) as [[]|]; [|discriminate].
  destruct (Tenant.CanAcceptExecution t); [|discriminate]. cbn [is_ok negb orb].
  destruct app as [a|]; [|discriminate]. destruct (_ || _); [discriminate|].
  destruct (Agent.Validate a) as [[]|] eqn:Hav; [|discriminate].
  destruct (Agent.CanAcceptExecution a) eqn:Hac; [|discriminate]. cbn [is_ok negb orb].
  destruct (negb _); [discriminate|]. destruct (scopes_match _ _ _ _) eqn:Hs; [|discriminate].
  cbn [negb]. intros [= <-]. exists a. unfold scopes_match in Hs. bool_prop.
  destruct v as [[] p]. unfold binding_route. cbn in *. subst. split_and!; try done; congruence.
Qed.

Context {S : Type} `{ConsumerLaws S}.
Variable verify : Binding → result error unit.
Variable tenants_Get : string → result Tenant.error (option Tenant).
Variable apps_Get : string → string → result Agent.error (option App).

(** A resolution that succeeded spent a candidate and passed every check. *)
Lemma resolve_Ok ctx c s s' target :
  ResolveCandidateRoutingTarget verify tenants_Get apps_Get ctx c s = (s', Ok target) →
  ∃ b t a v, ConsumeCandidate c s = (s', Ok (Some b)) ∧ verify b = Ok ()
    ∧ newVerifiedBinding b = Ok v
    ∧ tenants_Get (TenantID b) = Ok (Some t) ∧ apps_Get (TenantID b) (AppID b) = Ok (Some a)
    ∧ NewRoutingTarget t (Some b) (Some a) v = Ok target.
Proof.
  unfold ResolveCandidateRoutingTarget. destruct ctx as [ctx|]; [|discriminate].
  destruct (ctx 0%nat); [discriminate|]. destruct (_ =? _)%string; [discriminate|].
  destruct (ConsumeCandidate c s) as [s1 consumed]. go_unfold. intros [= <- Hr].
  destruct consumed as [[b|]|e]; simpl in Hr; [|discriminate|by destruct (IsContextCancellation e)].
  destruct (verify b) as [[]|e] eqn:Hvb; simpl in Hr; [|by destruct (IsContextCancellation e)].
  destruct (newVerifiedBinding b) as [v|] eqn:Hv; simpl in Hr; [|discriminate].
  destruct (tenants_Get _) as [t|e] eqn:Ht; simpl in Hr;
    [|by destruct (IsContextCancellation (tenant_error e))].
  destruct t as [t|]; simpl in Hr; [|discriminate]. go_unfold.
  destruct (Tenant.Validate t) as [[]|]; simpl in Hr; [|discriminate].
  destruct (Tenant.CanAcceptExecution t); simpl in Hr; [|discriminate].
  destruct (apps_Get _ _) as [a|e] eqn:Ha; simpl in Hr;
    [|by destruct (IsContextCancellation (agent_error e))].
  destruct (NewRoutingTarget t (Some b) a v) as [tgt|] eqn:Hn; simpl in Hr; [|discriminate].
  assert (tgt = target) as -> by congruence.
  pose proof (NewRoutingTarget_Ok _ _ _ _ _ Hn) as (a' & -> & _). by exists b, t, a', v.
Qed.

(** C11: a routing target is only what the control plane and the verifier agreed on.
    When the resolution of a candidate succeeds, it spent the candidate on an active
    binding of the recorded version and digest that the verifier accepted, its tenant
    and its app can execute and belong together, and the target carries exactly the
    fields of that binding.  The target is sealed: a copy that keeps the capability
    validates exactly when no field was edited.  And the same candidate token never
    resolves a second time. *)
Theorem routing_target_sound ctx c s s' target :
  ResolveCandidateRoutingTarget verify tenants_Get apps_Get ctx c s = (s', Ok target) →
  (∃ b t a, verify b = Ok () ∧ target_fields target = binding_route b
     ∧ Status b = StatusActive ∧ Version b = cc_BindingVersion c
     ∧ ConfigDigest b = cc_ConfigDigest c
     ∧ tenants_Get (TenantID b) = Ok (Some t) ∧ Tenant.TenantID t = TenantID b
     ∧ Tenant.CanAcceptExecution t = true
     ∧ apps_Get (TenantID b) (AppID b) = Ok (Some a) ∧ Agent.TenantID a = TenantID b
     ∧ Agent.AppID a = AppID b ∧ Agent.CanAcceptExecution a = true)
  ∧ (∀ edited, capability edited = capability target →
       RoutingTarget_Validate edited = Ok () ↔ edited = target)
  ∧ (∀ ctx' c', cc_CandidateToken c' = cc_CandidateToken c →
       is_ok (ResolveCandidateRoutingTarget verify tenants_Get apps_Get ctx' c' s').2 = false).
Proof.
  intros Hr. pose proof (resolve_Ok _ _ _ _ _ Hr) as (b & t & a & v & Hc & Hvb & Hv & Ht & Ha & Hn).
  apply NewRoutingTarget_Ok in Hn as (a' & [= <-] & _ & Hte & _ & Hae & Htt & Hat & Haa & -> & Hvf).
  apply newVerifiedBinding_Ok in Hv as (_ & _ & _ & Hvv).
  pose proof (consume_active _ _ _ _ Hc) as (? & ? & ? & _ & _). split_and!.
  - exists b, t, a. by split_and!.
  - intros [r cap]. cbn [capability]. intros ->. unfold RoutingTarget_Validate.
    cbn [capability target_fields]. rewrite Hvf.
    destruct (sameVerifiedBindingFields r (binding_route b)) eqn:Hs; cbn [negb].
    + apply sameVerifiedBindingFields_spec in Hs as ->. done.
    + split; [discriminate|]. intros [= ->].
      by rewrite (proj2 (sameVerifiedBindingFields_spec _ _) eq_refl) in Hs.
  - intros ctx' c' Htok.
    destruct (ResolveCandidateRoutingTarget _ _ _ ctx' c' s') as [s'' r] eqn:Hr'.
    destruct r as [tgt|]; [|done]. exfalso.
    apply resolve_Ok in Hr' as (b' & _ & _ & _ & Hc' & _).
    pose proof (consume_once _ _ _ _ _ Hc Htok) as Hno. by rewrite Hc' in Hno.
Qed.

End soundness.

(** * Identities *)

Lemma target_RunnerIdentity_Ok target input id :
  target_RunnerIdentity target input = Ok id →
  RoutingTarget_Validate target = Ok ()
  ∧ ∃ conversation, conversation_id input = Ok conversation
  ∧ let r := target_fields target in
    namespacedID (rt_TenantID r)
      (encodeIdentityParts [rt_Channel r; rt_BindingID r; ExternalUserID input]) = Ok (UserID id)
    ∧ namespacedID (rt_TenantID r) (encodeIdentityParts [rt_Channel r; rt_BindingID r;
        Kind input; conversation; ExternalThreadID input]) = Ok (SessionID id).
Proof.
  unfold target_RunnerIdentity. go_unfold.
  destruct (RoutingTarget_Validate target) as [[]|]; [|discriminate].
  destruct (requiredExternalID (ExternalUserID input)) as [u|] eqn:Hu; [|discriminate].
  assert (u = ExternalUserID input) as ->.
  { revert Hu. unfold requiredExternalID. case_match; congruence. }
  destruct (conversation_id input) as [conv|]; [|discriminate].
  destruct (negb _ && _); [discriminate|]. unfold NewRunnerIdentity. go_unfold.
  destruct (Tenant.validateTenantID _) as [[]|]; [|discriminate].
  destruct (namespacedID _ (encodeIdentityParts [_; _; _])) as [uid|] eqn:H1; [|discriminate].
  destruct (namespacedID _ (encodeIdentityParts [_; _; _; _; _])) as [sid|] eqn:H2; [|discriminate].
  cbn [map_error]. intros [= <-]. split; [done|]. exists conv. by split_and!.
Qed.

(** Runner identities never collide.  Two messages get the same Runner user only
    for the same tenant, channel, binding and external user, and the same Runner
    session only for the same tenant, channel, binding, kind of conversation, peer or
    chat, and thread: no choice of external identifiers crosses a boundary. *)
Theorem runner_identity_injective t1 i1 id1 t2 i2 id2 :
  target_RunnerIdentity t1 i1 = Ok id1 → target_RunnerIdentity t2 i2 = Ok id2 →
  let r1 := target_fields t1 in let r2 := target_fields t2 in
  (UserID id1 = UserID id2 →
     rt_TenantID r1 = rt_TenantID r2 ∧ rt_Channel r1 = rt_Channel r2
     ∧ rt_BindingID r1 = rt_BindingID r2 ∧ ExternalUserID i1 = ExternalUserID i2)
  ∧ (SessionID id1 = SessionID id2 →
     rt_TenantID r1 = rt_TenantID r2 ∧ rt_Channel r1 = rt_Channel r2
     ∧ rt_BindingID r1 = rt_BindingID r2 ∧ Kind i1 = Kind i2
     ∧ conversation_id i1 = conversation_id i2 ∧ ExternalThreadID i1 = ExternalThreadID i2).
Proof.
  intros (_ & c1 & Hc1 & Hu1 & Hs1)%target_RunnerIdentity_Ok
    (_ & c2 & Hc2 & Hu2 & Hs2)%target_RunnerIdentity_Ok r1 r2. split; intros Heq.
  - rewrite Heq in Hu1. destruct (namespacedID_inj _ _ _ _ _ Hu1 Hu2) as [? Hp].
    apply len_prefixed_all_inj in Hp. injection Hp as ???. by split_and!.
  - rewrite Heq in Hs1. destruct (namespacedID_inj _ _ _ _ _ Hs1 Hs2) as [? Hp].
    apply len_prefixed_all_inj in Hp. injection Hp as ???? ?. split_and!; try done. congruence.
Qed.

(** * Witnesses: a control plane with one candidate *)


(** The store holds at most one spendable binding. *)
Definition one_candidate : CandidateConsumer (option Binding) := λ c s,
  match s with
  | Some b =>
      if (Status b =? StatusActive)%string && (Version b =? cc_BindingVersion c)
        && (ConfigDigest b =? cc_ConfigDigest c)%string && (Channel b =? cc_Channel c)%string
        && (PublicRouteKeyDigest b =? cc_PublicRouteKeyDigest c)%string
      then (None, Ok (Some b)) else (s, Err ErrCandidateUnavailable)
  | None => (None, Err ErrCandidateUnavailable)
  end.
#[local] Existing Instance one_candidate.

#[local] Instance one_candidate_laws : ConsumerLaws (option Binding).
Proof.
  split.
  - intros c [b0|] s' b; unfold ConsumeCandidate, one_candidate; [|discriminate].
    case_match eqn:Hm; [|discriminate]. intros [= <- <-]. bool_prop. by split_and!.
  - intros c c' [b0|] s' b; unfold ConsumeCandidate, one_candidate; [|discriminate].
    case_match; [|discriminate]. by intros [= <- <-].
Qed.

Definition ex_tenant_id : string := "t_01HF7YAT00041061050R3GG28A".
Definition ex_app_id : string := "app_01HF7YAT00041061050R3GG28A".
Definition ex_now : stamp := mkStamp 1700000000000000000 true.
Definition ex_route_digest : string :=
  "ba7816bf8f01cfea414140de5dae2223b00361a396177a9cb410ff61f20015ad".
Definition ex_metadata : ChangeMetadata := mkMetadata "user" "u" "setup" "c".
Definition ex_binding_input : CreateInput :=
  mkCreateInput ex_tenant_id " Main-1 " ChannelWeCom " corp " ex_route_digest ex_app_id
    "secret/wecom" (mkProtocol (Some (mkWeCom "corp" "1" "")) None) StatusActive ex_metadata.
Definition ex_binding : Binding := Eval vm_compute in
  match NewBindingAt 1700000000000 (Some ex_random) ex_binding_input ex_now with
  | Ok b => b
  | Err _ => mkBinding "" "" "" "" "" "" "" "" (mkProtocol None None) "" 0 "" ex_now ex_now
  end.
Definition ex_tenant : Tenant :=
  mkTenant ex_tenant_id "acme" "active" (with_defaults ex_config) 1 1 1.
Definition ex_app : App :=
  mkApp ex_tenant_id ex_app_id "bot" "Bot" "" "active" (Some 1) None 2 1 1.
Definition ex_candidate : CandidateBindingContext :=
  mkCandidate ChannelWeCom ex_route_digest 1 (ConfigDigest ex_binding) PurposeWebhookVerification
    "token" ex_now ex_now.
Definition ex_resolve (s : option Binding) : option Binding * result error RoutingTarget :=
  ResolveCandidateRoutingTarget (λ _, Ok ()) (λ _, Ok (Some ex_tenant))
    (λ _ _, Ok (Some ex_app)) background ex_candidate s.
Definition ex_target : RoutingTarget :=
  mkTarget (binding_route ex_binding)
    (Some (mkVerified (binding_route ex_binding) (Some (binding_route ex_binding)))).

Lemma ex_resolved : ex_resolve (Some ex_binding) = (None, Ok ex_target).
Proof. vm_compute. reflexivity. Qed.

Lemma routing_target_sound_witness :
  ex_resolve (Some ex_binding) = (None, Ok ex_target)
  ∧ (RoutingTarget_Validate ex_target = Ok () ↔ ex_target = ex_target).
Proof.
  split; [exact ex_resolved|].
  apply (proj1 (proj2 (routing_target_sound (λ _, Ok ()) (λ _, Ok (Some ex_tenant))
    (λ _ _, Ok (Some ex_app)) background ex_candidate (Some ex_binding) None ex_target
    ex_resolved)) ex_target eq_refl).
Defined.

Definition ex_identity_input (chat : string) : IdentityInput :=
  mkIdentityInput "alice" ConversationGroup "" chat "".
Definition ex_identity (chat : string) : RunnerIdentity :=
  match target_RunnerIdentity ex_target (ex_identity_input chat) with
  | Ok id => id
  | Err _ => mkRunnerIdentity "" ""
  end.

Lemma runner_identity_injective_witness :
  target_RunnerIdentity ex_target (ex_identity_input "a") = Ok (ex_identity "a")
  ∧ (SessionID (ex_identity "a") = SessionID (ex_identity "b") →
     conversation_id (ex_identity_input "a") = conversation_id (ex_identity_input "b")).
Proof.
  split; [vm_compute; reflexivity|].
  intros Heq. refine (proj1 (proj2 (proj2 (proj2 (proj2
    (proj2 (runner_identity_injective ex_target (ex_identity_input "a") (ex_identity "a")
      ex_target (ex_identity_input "b") (ex_identity "b") _ _) Heq))))));
    vm_compute; reflexivity.
Defined.
