(* ===== verification/BindingRepository.v ===== *)
(** The in-memory binding repository, [trpcservice/channels/inmemory/inmemory.go]: the
    bindings with their key, route and account indexes, and the bounded store of
    single-use candidates.

    A method that takes the lock is one atomic action on the repository; [RWMutex.v]
    models the lock.  The clock of the repository answers two calls per operation, the
    second one when the first answer is the zero time.  [random] is what successive
    calls of [rand.Read] deliver. *)
From Stdlib Require Import Ascii String.
From S2P Require Import Prelude GoStrings Tenant Agent Sha256 Bindings Routing.
Local Open Scope Z_scope.

(** * State *)

Definition DefaultMaxCandidates : Z := 4096.

(** A pair of tenant and binding, tenant and key, channel and digest, or channel and
    account. *)
Notation scope := (string * string)%type (only parsing).

Record candidateRecord := mkRecord {
  rec_scope : scope; rec_context : CandidateBindingContext }.

Record Options := mkOptions { opt_CandidateTTL : duration; opt_MaxCandidates : Z }.

Record InMemoryRepository := mkRepository {
  candidateTTL : duration;
  maxCandidates : Z;
  byID : gmap scope Binding;
  byKey : gmap scope string;
  routeIndex : gmap scope (gset scope);
  activeAccounts : gmap scope scope;
  candidates : gmap string candidateRecord }.

Definition NewInMemoryRepository (options : option Options) : InMemoryRepository :=
  let ttl := match options with
             | Some o => if 0 <? opt_CandidateTTL o then opt_CandidateTTL o else DefaultCandidateTTL
             | None => DefaultCandidateTTL end in
  let capacity := match options with
             | Some o => if 0 <? opt_MaxCandidates o then opt_MaxCandidates o else DefaultMaxCandidates
             | None => DefaultMaxCandidates end in
  let ttl := if MaxCandidateLifetime <? ttl then MaxCandidateLifetime else ttl in
  mkRepository ttl capacity ∅ ∅ ∅ ∅ ∅.

Definition set_candidates (m : gmap string candidateRecord) (r : InMemoryRepository)
    : InMemoryRepository :=
  mkRepository (candidateTTL r) (maxCandidates r) (byID r) (byKey r) (routeIndex r)
    (activeAccounts r) m.

Definition checkContext (ctx : context) (i : nat) : result error unit :=
  match ctx with
  | None => Ok ()
  | Some c => match c i with Some e => Err (ErrContext e) | None => Ok () end
  end.

Definition nowUTC (clk : nat → stamp) : stamp :=
  to_utc (if stamp_zero (clk 0%nat) then clk 1%nat else clk 0%nat).

(** * Indexes *)

Definition binding_scope (b : Binding) : scope := (TenantID b, BindingID b).
Definition key_scope (b : Binding) : scope := (TenantID b, BindingKey b).
Definition account_scope (b : Binding) : scope := (Channel b, ProviderAccountID b).
Definition route_scope (b : Binding) : scope := (Channel b, PublicRouteKeyDigest b).
Definition is_active (b : Binding) : bool := (Status b =? StatusActive)%string.

Definition addIndexesLocked (b : Binding) (r : InMemoryRepository) : InMemoryRepository :=
  if negb (is_active b) then r
  else
    let byRoute := default ∅ (routeIndex r !! route_scope b) in
    mkRepository (candidateTTL r) (maxCandidates r) (byID r) (byKey r)
      (<[route_scope b := {[binding_scope b]} ∪ byRoute]> (routeIndex r))
      (<[account_scope b := binding_scope b]> (activeAccounts r)) (candidates r).

(** [delete] on the inner set of the route, and on the index when it becomes empty. *)
Definition removeIndexesLocked (b : Binding) (r : InMemoryRepository) : InMemoryRepository :=
  if negb (is_active b) then r
  else
    let accounts :=
      if bool_decide (activeAccounts r !! account_scope b = Some (binding_scope b))
      then delete (account_scope b) (activeAccounts r) else activeAccounts r in
    let byRoute := default ∅ (routeIndex r !! route_scope b) ∖ {[binding_scope b]} in
    let routes :=
      if bool_decide (byRoute = ∅) then delete (route_scope b) (routeIndex r)
      else <[route_scope b := byRoute]> (routeIndex r) in
    mkRepository (candidateTTL r) (maxCandidates r) (byID r) (byKey r) routes accounts
      (candidates r).

Definition activeAccountInUseLocked (b : Binding) (except : scope) (r : InMemoryRepository) : bool :=
  match activeAccounts r !! account_scope b with
  | Some owner => negb (bool_decide (owner = except))
  | None => false
  end.

(** * Operations *)

Definition put_binding (b : Binding) (keys : gmap scope string) (r : InMemoryRepository)
    : InMemoryRepository :=
  mkRepository (candidateTTL r) (maxCandidates r) (<[binding_scope b := b]> (byID r)) keys
    (routeIndex r) (activeAccounts r) (candidates r).

Definition Create (ctx : context) (clk : nat → stamp) (ms : Z)
    (random : option (list Z)) (input : CreateInput)
    : act InMemoryRepository error (Binding * ChangeEvent) :=
  _ ← lift (checkContext ctx 0);
  b ← lift (NewBindingAt ms random input (nowUTC clk));
  event ← lift (PrepareCreatedChange b (ci_Metadata input));
  _ ← lift (checkContext ctx 1);
  _ ← lift (checkContext ctx 2);
  r ← get;
  _ ← ensure (opt_is_nil (byID r !! binding_scope b)) ErrDuplicateKey;
  _ ← ensure (opt_is_nil (byKey r !! key_scope b)) ErrDuplicateKey;
  _ ← ensure (negb (is_active b && activeAccountInUseLocked b (binding_scope b) r)) ErrDuplicateKey;
  _ ← lift (checkContext ctx 3);
  _ ← put (addIndexesLocked b (put_binding b (<[key_scope b := BindingID b]> (byKey r)) r));
  mret (b, event).

Definition Get (ctx : context) (tenantID bindingID : string)
    : act InMemoryRepository error Binding :=
  _ ← lift (checkContext ctx 0);
  _ ← lift (checkContext ctx 1);
  _ ← lift (checkContext ctx 2);
  r ← get;
  match byID r !! (tenantID, bindingID) with
  | None => throw ErrNotFound
  | Some b => mret b
  end.

(** The common tail of [UpdateConfiguration] and [TransitionStatus]. *)
Definition apply_change (ctx : context) (sc : scope)
    (prepare : Binding → result error (Binding * ChangeEvent))
    : act InMemoryRepository error (Binding * ChangeEvent) :=
  _ ← lift (checkContext ctx 0);
  _ ← lift (checkContext ctx 1);
  _ ← lift (checkContext ctx 2);
  r ← get;
  match byID r !! sc with
  | None => throw ErrNotFound
  | Some current =>
      change ← lift (prepare current);
      let updated := change.1 in
      _ ← ensure (negb (is_active updated && activeAccountInUseLocked updated sc r)) ErrDuplicateKey;
      _ ← lift (checkContext ctx 3);
      let removed := removeIndexesLocked current r in
      let stored := mkRepository (candidateTTL removed) (maxCandidates removed)
        (<[sc := updated]> (byID removed)) (byKey removed) (routeIndex removed)
        (activeAccounts removed) (candidates removed) in
      _ ← put (addIndexesLocked updated stored);
      mret change
  end.

Definition UpdateConfiguration (ctx : context) (clk : nat → stamp)
    (input : UpdateConfigurationInput) : act InMemoryRepository error (Binding * ChangeEvent) :=
  apply_change ctx (ui_TenantID input, ui_BindingID input)
    (λ current, PrepareConfigurationChange current input (nowUTC clk)).

Definition TransitionStatus (ctx : context) (clk : nat → stamp)
    (input : TransitionStatusInput) : act InMemoryRepository error (Binding * ChangeEvent) :=
  apply_change ctx (ti_TenantID input, ti_BindingID input)
    (λ current, PrepareStatusChange current input (nowUTC clk)).

Definition with_status (status : string) (input : TransitionStatusInput) : TransitionStatusInput :=
  mkTransitionInput (ti_TenantID input) (ti_BindingID input) (ti_ExpectedVersion input) status
    (ti_Metadata input).
Definition Activate ctx clk input :=
  TransitionStatus ctx clk (with_status StatusActive input).
Definition Suspend ctx clk input :=
  TransitionStatus ctx clk (with_status StatusSuspended input).
Definition Resume ctx clk input :=
  TransitionStatus ctx clk (with_status StatusActive input).
Definition Disable ctx clk input :=
  TransitionStatus ctx clk (with_status StatusDisabled input).

(** * Candidates *)

Definition base64_alphabet : string :=
  "ABCDEFGHIJKLMNOPQRSTUVWXYZabcdefghijklmnopqrstuvwxyz0123456789-_".
Definition base64_digit (z : Z) : string :=
  match String.get (Z.to_nat (Z.land z 63)) base64_alphabet with
  | Some c => String c ""
  | None => ""
  end.

(** [base64.RawURLEncoding]: four digits per three bytes, no padding. *)
Fixpoint base64_raw_url (l : list Z) : string :=
  match l with
  | a :: b :: c :: l' =>
      let v := (a * 256 + b) * 256 + c in
      (base64_digit (Z.shiftr v 18) ++ base64_digit (Z.shiftr v 12) ++ base64_digit (Z.shiftr v 6)
        ++ base64_digit v ++ base64_raw_url l')%string
  | [a; b] =>
      let v := (a * 256 + b) * 256 in
      (base64_digit (Z.shiftr v 18) ++ base64_digit (Z.shiftr v 12)
        ++ base64_digit (Z.shiftr v 6))%string
  | [a] => let v := a * 65536 in (base64_digit (Z.shiftr v 18) ++ base64_digit (Z.shiftr v 12))%string
  | [] => ""
  end.

Definition newCandidateToken (random : option (list Z)) : result error string :=
  match random with None => Err ErrRandom | Some r => Ok (base64_raw_url r) end.

Definition pruneCandidatesLocked (now : stamp) (r : InMemoryRepository) : InMemoryRepository :=
  set_candidates (filter (λ p, stamp_before now (cc_ExpiresAt (rec_context p.2)) = true) (candidates r)) r.

Definition scope_le (x y : scope) : Prop :=
  if bool_decide (x.1 = y.1) then String.le x.2 y.2 else String.le x.1 y.1.
#[local] Instance scope_le_dec : RelDecision scope_le.
Proof. intros x y. unfold scope_le. case_bool_decide; apply _. Defined.

Definition scope_active (r : InMemoryRepository) (sc : scope) : bool :=
  match byID r !! sc with Some b => is_active b | None => false end.
Definition active_scopes (channel routeDigest : string) (r : InMemoryRepository) : list scope :=
  filter (λ sc, scope_active r sc = true)
    (elements (default ∅ (routeIndex r !! (channel, routeDigest)))).

(** The loop that issues one candidate per active binding.  A binding that the route
    index names is stored, so the lookup does not fail there. *)
Fixpoint issue (r : InMemoryRepository) (channel routeDigest : string) (now : stamp)
    (random : nat → option (list Z)) (i : nat) (scopes : list scope)
    : result error (list candidateRecord) :=
  match scopes with
  | [] => Ok []
  | sc :: scopes' =>
      match byID r !! sc with
      | None => Err ErrCandidateUnavailable
      | Some b =>
          match newCandidateToken (random i) with
          | Err _ => Err ErrCandidateUnavailable
          | Ok token =>
              match NewCandidateBindingContext channel routeDigest (Version b) (ConfigDigest b)
                PurposeWebhookVerification token now
                (mkStamp (add_duration (instant now) (candidateTTL r)) (utc now)) with
              | Err _ => Err ErrCandidateUnavailable
              | Ok candidate =>
                  rest ← issue r channel routeDigest now random (S i) scopes';
                  Ok (mkRecord sc candidate :: rest)
              end
          end
      end
  end.

Definition LookupCandidates (ctx : context) (clk : nat → stamp) (random : nat → option (list Z))
    (channel routeDigest : string) : act InMemoryRepository error (list CandidateBindingContext) :=
  _ ← lift (checkContext ctx 0);
  _ ← ensure (is_ok (Channel_Validate channel)) ErrCandidateUnavailable;
  _ ← ensure (is_ok (ValidatePublicRouteKeyDigest routeDigest)) ErrCandidateUnavailable;
  _ ← lift (checkContext ctx 1);
  _ ← lift (checkContext ctx 2);
  let now := nowUTC clk in
  r0 ← get;
  _ ← put (pruneCandidatesLocked now r0);
  r ← get;
  let scopes := active_scopes channel routeDigest r in
  _ ← ensure (negb (length scopes =? 0)%nat) ErrCandidateUnavailable;
  _ ← ensure (Z.of_nat (length scopes) <=? maxCandidates r - Z.of_nat (size (candidates r)))
        ErrCandidateUnavailable;
  records ← lift (issue r channel routeDigest now random 0 (merge_sort scope_le scopes));
  _ ← lift (checkContext ctx 3);
  _ ← put (set_candidates
        (foldl (λ m rc, <[cc_CandidateToken (rec_context rc) := rc]> m) (candidates r) records) r);
  mret (rec_context <$> records).

Definition sameCandidate (left right : CandidateBindingContext) : bool :=
  (cc_Channel left =? cc_Channel right)%string
  && (cc_PublicRouteKeyDigest left =? cc_PublicRouteKeyDigest right)%string
  && (cc_BindingVersion left =? cc_BindingVersion right)
  && (cc_ConfigDigest left =? cc_ConfigDigest right)%string
  && (cc_Purpose left =? cc_Purpose right)%string
  && (cc_CandidateToken left =? cc_CandidateToken right)%string
  && (instant (cc_IssuedAt left) =? instant (cc_IssuedAt right))
  && (instant (cc_ExpiresAt left) =? instant (cc_ExpiresAt right)).

Definition binding_current (b : Binding) (c : CandidateBindingContext) : bool :=
  is_active b && (Version b =? cc_BindingVersion c) && (ConfigDigest b =? cc_ConfigDigest c)%string
  && (Channel b =? cc_Channel c)%string
  && (PublicRouteKeyDigest b =? cc_PublicRouteKeyDigest c)%string.

Definition zero_stamp : stamp := mkStamp zero_time true.

Definition drop_candidate (token : string) (r : InMemoryRepository) : InMemoryRepository :=
  set_candidates (delete token (candidates r)) r.

Definition ConsumeCandidate (ctx : context) (clk : nat → stamp) (candidate : CandidateBindingContext)
    : act InMemoryRepository error Binding :=
  let token := cc_CandidateToken candidate in
  _ ← lift (checkContext ctx 0);
  _ ← ensure (negb (token =? "")%string) ErrCandidateUnavailable;
  _ ← ensure (is_ok (candidate_Validate candidate zero_stamp)) ErrCandidateUnavailable;
  _ ← lift (checkContext ctx 1);
  _ ← lift (checkContext ctx 2);
  r ← get;
  match candidates r !! token with
  | None => throw ErrCandidateUnavailable
  | Some record =>
      _ ← ensure (sameCandidate (rec_context record) candidate) ErrCandidateUnavailable;
      let now := nowUTC clk in
      if negb (stamp_before now (cc_ExpiresAt (rec_context record)))
        || stamp_before now (cc_IssuedAt (rec_context record))
      then _ ← put (drop_candidate token r); throw ErrCandidateUnavailable
      else match byID r !! rec_scope record with
      | None => _ ← put (drop_candidate token r); throw ErrCandidateUnavailable
      | Some b =>
          _ ← put (drop_candidate token r);
          if binding_current b (rec_context record) then mret b else throw ErrCandidateUnavailable
      end
  end.

#[global] Arguments candidate_Validate : simpl never.
#[global] Arguments base64_raw_url : simpl never.

(** * The invariant *)

(** The indexes are exactly what the stored bindings say, and candidates are stored
    under their tokens within the capacity. *)
Record wf (r : InMemoryRepository) : Prop := {
  wf_id : map_Forall (λ sc b, sc = binding_scope b ∧ Validate b = Ok ()
    ∧ Version b ≤ int64_max ∧ byKey r !! key_scope b = Some (BindingID b)) (byID r);
  wf_key : map_Forall (λ key id, ∃ b, byID r !! (key.1, id) = Some b ∧ key_scope b = key) (byKey r);
  wf_account acc sc : activeAccounts r !! acc = Some sc ↔
    ∃ b, byID r !! sc = Some b ∧ is_active b = true ∧ account_scope b = acc;
  wf_route rt sc : sc ∈ default ∅ (routeIndex r !! rt) ↔
    ∃ b, byID r !! sc = Some b ∧ is_active b = true ∧ route_scope b = rt;
  wf_candidate : map_Forall (λ token rc, token = cc_CandidateToken (rec_context rc)) (candidates r);
  wf_capacity : Z.of_nat (size (candidates r)) ≤ maxCandidates r
}.

Section invariant.

Lemma wf_new options : wf (NewInMemoryRepository options).
Proof.
  split; simpl.
  - apply map_Forall_empty.
  - apply map_Forall_empty.
  - intros acc sc. rewrite lookup_empty. split; [done|].
    intros (b & Hb & _). by rewrite lookup_empty in Hb.
  - intros rt sc. rewrite lookup_empty. simpl. split; [set_solver|].
    intros (b & Hb & _). by rewrite lookup_empty in Hb.
  - apply map_Forall_empty.
  - rewrite map_size_empty. unfold DefaultMaxCandidates.
    destruct options as [o|]; [destruct (Z.ltb_spec 0 (opt_MaxCandidates o))|]; simpl; lia.
Qed.

(** Two bindings of which the first replaces the second under one scope: the indexes of
    the others stay. *)
Lemma removeIndexes_spec b r :
  wf r → byID r !! binding_scope b = Some b →
  let r' := removeIndexesLocked b r in
  (∀ acc sc, activeAccounts r' !! acc = Some sc ↔
     sc ≠ binding_scope b ∧ activeAccounts r !! acc = Some sc)
  ∧ (∀ rt sc, sc ∈ default ∅ (routeIndex r' !! rt) ↔
     sc ≠ binding_scope b ∧ sc ∈ default ∅ (routeIndex r !! rt))
  ∧ byID r' = byID r ∧ byKey r' = byKey r ∧ candidates r' = candidates r
  ∧ maxCandidates r' = maxCandidates r ∧ candidateTTL r' = candidateTTL r.
Proof.
  intros Hwf Hb r'. subst r'. unfold removeIndexesLocked.
  destruct (is_active b) eqn:Hact; cbn [negb].
  - assert (activeAccounts r !! account_scope b = Some (binding_scope b)) as Hacc.
    { apply (wf_account _ Hwf). eauto. }
    rewrite (bool_decide_eq_true_2 (activeAccounts r !! _ = _)) by done. cbn. split_and!; try done.
    + intros acc sc. rewrite lookup_delete_Some. split.
      * intros [Hne Hs]. split; [|done]. intros ->. apply (wf_account _ Hwf) in Hs as (b' & ? & ? & ?).
        simplify_eq.
      * intros [Hne Hs]. split; [|done]. intros <-. simplify_eq.
    + intros rt sc.
      assert (∀ rt', sc ∈ default ∅ (routeIndex r !! rt') → sc = binding_scope b → rt' = route_scope b)
        as Hown.
      { intros rt' Hin ->. apply (wf_route _ Hwf) in Hin as (b' & ? & _ & <-). by simplify_eq. }
      case_bool_decide as He.
      * destruct (decide (route_scope b = rt)) as [<-|Hne].
        -- rewrite lookup_delete_eq. simpl. set_solver.
        -- rewrite lookup_delete_ne by done. split; [|tauto]. intros Hin. split; [|done].
           intros Heq. by specialize (Hown _ Hin Heq).
      * destruct (decide (route_scope b = rt)) as [<-|Hne].
        -- rewrite lookup_insert_eq. simpl. set_solver.
        -- rewrite lookup_insert_ne by done. split; [|tauto]. intros Hin. split; [|done].
           intros Heq. by specialize (Hown _ Hin Heq).
  - split_and!; try done.
    + intros acc sc. split; [|tauto]. intros Hs. split; [|done]. intros ->.
      apply (wf_account _ Hwf) in Hs as (b' & ? & ? & ?). simplify_eq. congruence.
    + intros rt sc. split; [|tauto]. intros Hs. split; [|done]. intros ->.
      apply (wf_route _ Hwf) in Hs as (b' & ? & ? & ?). simplify_eq. congruence.
Qed.

Lemma addIndexes_spec b r :
  let r' := addIndexesLocked b r in
  (∀ acc sc, activeAccounts r' !! acc = Some sc ↔
     if is_active b && bool_decide (account_scope b = acc) then sc = binding_scope b
     else activeAccounts r !! acc = Some sc)
  ∧ (∀ rt sc, sc ∈ default ∅ (routeIndex r' !! rt) ↔
     is_active b = true ∧ route_scope b = rt ∧ sc = binding_scope b
     ∨ sc ∈ default ∅ (routeIndex r !! rt))
  ∧ byID r' = byID r ∧ byKey r' = byKey r ∧ candidates r' = candidates r
  ∧ maxCandidates r' = maxCandidates r.
Proof.
  unfold addIndexesLocked. destruct (is_active b) eqn:Hact; cbn.
  - split_and!; try done.
    + intros acc sc. case_bool_decide as He.
      * rewrite He, lookup_insert_eq. naive_solver.
      * by rewrite lookup_insert_ne.
    + intros rt sc. destruct (decide (route_scope b = rt)) as [<-|Hne].
      * rewrite lookup_insert_eq. simpl. set_solver.
      * rewrite lookup_insert_ne by done. set_solver.
  - split_and!; try done. intros. set_solver.
Qed.

(** Storing [b] under its scope, after its old index entries are gone, and adding its
    new ones keeps the invariant. *)
Lemma wf_put b r r1 :
  wf r → Validate b = Ok () → Version b ≤ int64_max →
  (∀ b', byID r !! binding_scope b = Some b' → key_scope b' = key_scope b) →
  (∀ sc b', byID r !! sc = Some b' → key_scope b' = key_scope b → sc = binding_scope b) →
  (is_active b = true → ∀ sc, activeAccounts r !! account_scope b = Some sc → sc = binding_scope b) →
  byID r1 = <[binding_scope b := b]> (byID r) →
  byKey r1 = <[key_scope b := BindingID b]> (byKey r) →
  (∀ acc sc, activeAccounts r1 !! acc = Some sc ↔
     sc ≠ binding_scope b ∧ activeAccounts r !! acc = Some sc) →
  (∀ rt sc, sc ∈ default ∅ (routeIndex r1 !! rt) ↔
     sc ≠ binding_scope b ∧ sc ∈ default ∅ (routeIndex r !! rt)) →
  candidates r1 = candidates r → maxCandidates r1 = maxCandidates r →
  wf (addIndexesLocked b r1).
Proof.
  intros Hwf Hval Hver Hsame Huniq Hfree Hbid Hkeys Hacc Hrt Hcand Hmax.
  destruct (addIndexes_spec b r1) as (Hacc' & Hrt' & Eid & Ekey & Ec & Em).
  rewrite Hbid in Eid. rewrite Hkeys in Ekey. rewrite Hcand in Ec. rewrite Hmax in Em.
  destruct Hwf as [Wid Wkey Wacc Wrt Wcand Wcap]. split; rewrite ?Eid, ?Ekey, ?Ec, ?Em; try done.
  - apply map_Forall_insert_at; [|split_and!; try done; by rewrite lookup_insert_eq].
    intros sc b' Hb'. destruct (Wid _ _ Hb') as (-> & ? & ? & Hk). split_and!; try done.
    destruct (decide (key_scope b = key_scope b')) as [Heq|]; [|by rewrite lookup_insert_ne].
    rewrite <- Heq, lookup_insert_eq. symmetry in Heq. apply (Huniq _ _ Hb') in Heq as [=]. congruence.
  - apply map_Forall_insert_at; [|exists b; simpl; by rewrite lookup_insert_eq].
    intros key id Hid. destruct (Wkey _ _ Hid) as (b' & Hb' & <-). simpl in Hb'.
    destruct (decide (binding_scope b = (TenantID b', id))) as [Heq|].
    + exists b. simpl. rewrite <- Heq, lookup_insert_eq. split; [done|].
      rewrite <- Heq in Hb'. by rewrite (Hsame _ Hb').
    + exists b'. simpl. by rewrite lookup_insert_ne.
  - intros acc sc. rewrite Hacc', ?Eid. destruct (is_active b && _) eqn:Hc.
    + apply andb_true_iff in Hc as [Hact Heq%bool_decide_eq_true]. subst acc. split.
      * intros ->. exists b. by rewrite lookup_insert_eq.
      * intros (b' & Hb' & Ha' & He'). apply lookup_insert_Some in Hb' as [[? ?]|[? Hb']]; [done|].
        apply (Hfree Hact), Wacc. eauto.
    + rewrite Hacc, Wacc. split.
      * intros (Hne & b' & Hb' & ?). exists b'. by rewrite lookup_insert_ne.
      * intros (b' & Hb' & Ha' & <-). apply lookup_insert_Some in Hb' as [[? ?]|[? Hb']].
        -- subst. by rewrite Ha', bool_decide_eq_true_2 in Hc.
        -- split; [done|]. eauto.
  - intros rt sc. rewrite Hrt', Hrt, Wrt, ?Eid. split.
    + intros [(? & ? & ->)|(? & b' & ? & ?)]; [exists b; by rewrite lookup_insert_eq|].
      exists b'. by rewrite lookup_insert_ne.
    + intros (b' & Hb' & Ha' & <-). apply lookup_insert_Some in Hb' as [[? ?]|[? Hb']].
      * left. by subst.
      * right. split; [done|]. eauto.
Qed.

(** What an operation does to the repository. *)
Inductive effect (r : InMemoryRepository) : InMemoryRepository → Prop :=
| effect_create b :
    Validate b = Ok () → Version b ≤ int64_max → byID r !! binding_scope b = None →
    byKey r !! key_scope b = None → (is_active b && activeAccountInUseLocked b (binding_scope b) r) = false →
    effect r (addIndexesLocked b (put_binding b (<[key_scope b := BindingID b]> (byKey r)) r))
| effect_change sc cur b ev :
    byID r !! sc = Some cur → changed cur b ev → Version b ≤ int64_max →
    (is_active b && activeAccountInUseLocked b sc r) = false →
    let removed := removeIndexesLocked cur r in
    effect r (addIndexesLocked b (mkRepository (candidateTTL removed) (maxCandidates removed)
        (<[sc := b]> (byID removed)) (byKey removed) (routeIndex removed)
        (activeAccounts removed) (candidates removed)))
| effect_candidates m :
    map_Forall (λ token rc, token = cc_CandidateToken (rec_context rc)) m →
    Z.of_nat (size m) ≤ maxCandidates r → effect r (set_candidates m r).

Lemma in_use_false b sc r :
  (is_active b && activeAccountInUseLocked b sc r) = false → is_active b = true →
  ∀ owner, activeAccounts r !! account_scope b = Some owner → owner = sc.
Proof.
  intros Hin Hact owner Ho. rewrite Hact in Hin. simpl in Hin. unfold activeAccountInUseLocked in Hin. rewrite Ho in Hin.
  by apply negb_false_iff, bool_decide_eq_true in Hin.
Qed.

Lemma binding_effect_wf r r' : wf r → effect r r' → wf r'.
Proof.
  intros Hwf [b Hval Hver Hn Hk Huse|sc cur b ev Hcur [Hval Ht Hi Hbk Hch _ _ _ _] Hver Huse removed
             |m Hm Hsize].
  - apply (wf_put b r); try done.
    + intros b' Hb'. by rewrite Hn in Hb'.
    + intros sc b' Hb' Heq. destruct (wf_id _ Hwf _ _ Hb') as (_ & _ & _ & Hk').
      by rewrite Heq, Hk in Hk'.
    + by apply in_use_false.
    + intros acc sc. cbn. split; [|tauto]. intros Hs. split; [|done]. intros ->.
      apply (wf_account _ Hwf) in Hs as (b' & Hb' & _). by rewrite Hn in Hb'.
    + intros rt sc. cbn. split; [|tauto]. intros Hs. split; [|done]. intros ->.
      apply (wf_route _ Hwf) in Hs as (b' & Hb' & _). by rewrite Hn in Hb'.
  - destruct (wf_id _ Hwf _ _ Hcur) as (-> & _ & _ & Hkey).
    assert (binding_scope b = binding_scope cur) as Hsc by (unfold binding_scope; congruence).
    assert (key_scope b = key_scope cur) as Hks by (unfold key_scope; congruence).
    destruct (removeIndexes_spec cur r Hwf Hcur) as (Hacc & Hrt & Hid & Hkeys & Hcand & Hmax & _).
    apply (wf_put b r); rewrite ?Hsc, ?Hks; try done; subst removed; cbn.
    + intros b' Hb'. congruence.
    + intros sc b' Hb' Heq. destruct (wf_id _ Hwf _ _ Hb') as (-> & _ & _ & Hk').
      rewrite Heq, Hkey in Hk'. unfold binding_scope, key_scope in *. congruence.
    + by apply in_use_false.
    + by rewrite Hid.
    + rewrite Hkeys. symmetry. apply insert_id. by rewrite Hi.
  - destruct Hwf. by split.
Qed.

Lemma effect_same r : wf r → effect r r.
Proof.
  intros [_ _ _ _ Hc Hs]. assert (set_candidates (candidates r) r = r) as Heq by (by destruct r).
  rewrite <- Heq at 2. by apply effect_candidates.
Qed.

Lemma Create_effect ctx clk ms random input r :
  wf r → random_ok random → effect r (Create ctx clk ms random input r).1.
Proof.
  intros Hwf Hrand. unfold Create. go_unfold. pose proof (effect_same r Hwf) as Hsame.
  destruct (checkContext ctx 0) as [[]|]; [|done].
  destruct (NewBindingAt _ _ _ _) as [b|] eqn:Hb; [|done].
  destruct (PrepareCreatedChange _ _); [|done].
  destruct (checkContext ctx 1) as [[]|]; [|done]. destruct (checkContext ctx 2) as [[]|]; [|done].
  destruct (byID r !! binding_scope b) eqn:Hid; [done|]. cbn [opt_is_nil].
  destruct (byKey r !! key_scope b) eqn:Hk; [done|]. cbn [opt_is_nil].
  destruct (is_active b && _) eqn:Huse; [done|]. cbn [negb].
  destruct (checkContext ctx 3) as [[]|]; [|done]. cbn [fst].
  destruct (NewBindingAt_spec _ _ _ _ _ Hrand Hb) as (Hval & Hv & _).
  apply effect_create; try done. rewrite Hv. unfold int64_max. lia.
Qed.

Lemma apply_change_effect ctx sc prepare r :
  wf r → (∀ cur b ev, prepare cur = Ok (b, ev) → changed cur b ev) →
  effect r (apply_change ctx sc prepare r).1.
Proof.
  intros Hwf Hprep. unfold apply_change. go_unfold. pose proof (effect_same r Hwf) as Hsame.
  destruct (checkContext ctx 0) as [[]|]; [|done]. destruct (checkContext ctx 1) as [[]|]; [|done].
  destruct (checkContext ctx 2) as [[]|]; [|done].
  destruct (byID r !! sc) as [cur|] eqn:Hid; [|done].
  destruct (prepare cur) as [[b ev]|] eqn:Hp; [|done]. cbn [fst].
  destruct (is_active b && _) eqn:Huse; [done|]. cbn [negb].
  destruct (checkContext ctx 3) as [[]|]; [|done]. cbn [fst].
  pose proof (Hprep _ _ _ Hp) as Hch. eapply effect_change; try done.
  rewrite (changed_version _ _ _ Hch). unfold incr64. apply wrap64_range.
Qed.

Lemma foldl_insert_size (l : list candidateRecord) (m : gmap string candidateRecord) :
  (size (foldl (λ m rc, <[cc_CandidateToken (rec_context rc) := rc]> m) m l) ≤ size m + length l)%nat.
Proof.
  revert m. induction l as [|rc l IH]; intros m; simpl; [lia|]. etrans; [apply IH|].
  rewrite map_size_insert. case_match; simpl; lia.
Qed.

Lemma foldl_insert_tokens (l : list candidateRecord) (m : gmap string candidateRecord) :
  map_Forall (λ token rc, token = cc_CandidateToken (rec_context rc)) m →
  map_Forall (λ token rc, token = cc_CandidateToken (rec_context rc))
    (foldl (λ m rc, <[cc_CandidateToken (rec_context rc) := rc]> m) m l).
Proof.
  revert m. induction l as [|rc l IH]; intros m Hm; simpl; [done|].
  apply IH. by apply map_Forall_insert_at.
Qed.

Lemma issue_length r ch d now random i scopes l :
  issue r ch d now random i scopes = Ok l → length l = length scopes.
Proof.
  revert i l. induction scopes as [|sc scopes IH]; intros i l; simpl; go_unfold; [by intros [= <-]|].
  destruct (byID r !! sc); [|discriminate]. destruct (newCandidateToken _); [|discriminate].
  destruct (NewCandidateBindingContext _ _ _ _ _ _ _ _); [|discriminate].
  destruct (issue _ _ _ _ _ _ _) eqn:Hi; [|discriminate]. intros [= <-]. simpl. by rewrite (IH _ _ Hi).
Qed.

Lemma prune_ok now r :
  wf r →
  map_Forall (λ token rc, token = cc_CandidateToken (rec_context rc)) (candidates (pruneCandidatesLocked now r))
  ∧ Z.of_nat (size (candidates (pruneCandidatesLocked now r))) ≤ maxCandidates r.
Proof.
  intros [_ _ _ _ Hc Hs]. cbn. split.
  - intros t rc [Ht _]%map_lookup_filter_Some. by apply Hc.
  - pose proof (map_subseteq_size _ _ (map_filter_subseteq
      (λ p : string * candidateRecord, stamp_before now (cc_ExpiresAt (rec_context p.2)) = true)
      (candidates r))). lia.
Qed.

Lemma Lookup_effect ctx clk random ch d r :
  wf r → effect r (LookupCandidates ctx clk random ch d r).1.
Proof.
  intros Hwf. unfold LookupCandidates. go_unfold. pose proof (effect_same r Hwf) as Hsame.
  destruct (checkContext ctx 0) as [[]|]; [|done]. destruct (is_ok _); [|done].
  destruct (is_ok _); [|done]. destruct (checkContext ctx 1) as [[]|]; [|done].
  destruct (checkContext ctx 2) as [[]|]; [|done]. set (now := nowUTC clk).
  destruct (prune_ok now r Hwf) as [Hc Hs].
  assert (effect r (pruneCandidatesLocked now r)) as Hprune by (by apply effect_candidates).
  set (r1 := pruneCandidatesLocked now r) in *.
  destruct (negb _); [|done]. destruct (Z.leb_spec (Z.of_nat (length (active_scopes ch d r1)))
    (maxCandidates r1 - Z.of_nat (size (candidates r1)))) as [Hle|]; [|done].
  destruct (issue _ _ _ _ _ _ _) as [records|] eqn:Hi; [|done].
  destruct (checkContext ctx 3) as [[]|]; [|done]. cbn [fst].
  apply issue_length in Hi. rewrite merge_sort_Permutation in Hi.
  change (maxCandidates r1) with (maxCandidates r) in *.
  match goal with |- effect r (set_candidates ?m r1) => change (set_candidates m r1)
    with (set_candidates m r) end.
  apply effect_candidates; [by apply foldl_insert_tokens|].
  pose proof (foldl_insert_size records (candidates r1)). lia.
Qed.

Lemma drop_effect token r : wf r → effect r (drop_candidate token r).
Proof.
  intros [_ _ _ _ Hc Hs]. apply effect_candidates; [by apply map_Forall_delete_2|].
  pose proof (map_subseteq_size _ _ (delete_subseteq (candidates r) token)). lia.
Qed.

Lemma Consume_effect ctx clk c r : wf r → effect r (ConsumeCandidate ctx clk c r).1.
Proof.
  intros Hwf. unfold ConsumeCandidate. go_unfold. cbv zeta. pose proof (effect_same r Hwf) as Hsame.
  pose proof (drop_effect (cc_CandidateToken c) r Hwf) as Hdrop.
  repeat (case_match; simplify_eq/=; try done).
Qed.

(** * Runs *)

Inductive op :=
| OpCreate (ctx : context) (clk : nat → stamp) (ms : Z) (random : option (list Z)) (input : CreateInput)
| OpUpdate (ctx : context) (clk : nat → stamp) (input : UpdateConfigurationInput)
| OpTransition (ctx : context) (clk : nat → stamp) (input : TransitionStatusInput)
| OpLookup (ctx : context) (clk : nat → stamp) (random : nat → option (list Z)) (channel digest : string)
| OpConsume (ctx : context) (clk : nat → stamp) (candidate : CandidateBindingContext).

Definition exec (o : op) (r : InMemoryRepository) : InMemoryRepository :=
  match o with
  | OpCreate ctx clk ms random input => (Create ctx clk ms random input r).1
  | OpUpdate ctx clk input => (UpdateConfiguration ctx clk input r).1
  | OpTransition ctx clk input => (TransitionStatus ctx clk input r).1
  | OpLookup ctx clk random channel digest => (LookupCandidates ctx clk random channel digest r).1
  | OpConsume ctx clk candidate => (ConsumeCandidate ctx clk candidate r).1
  end.
Definition run (os : list op) (r : InMemoryRepository) : InMemoryRepository :=
  foldl (λ r o, exec o r) r os.

(** [rand.Read] delivers as many bytes as asked for. *)
Definition op_ok (o : op) : Prop :=
  match o with OpCreate _ _ _ random _ => random_ok random | _ => True end.

Lemma binding_exec_effect o r : wf r → op_ok o → effect r (exec o r).
Proof.
  intros Hwf Hok. destruct o; simpl in *.
  - by apply Create_effect.
  - apply apply_change_effect; [done|]. intros cur b ev Hp. by apply PrepareConfigurationChange_spec in Hp as [? _].
  - apply apply_change_effect; [done|]. intros cur b ev Hp. by apply PrepareStatusChange_spec in Hp as [? _].
  - by apply Lookup_effect.
  - by apply Consume_effect.
Qed.

Lemma binding_run_wf os r : wf r → Forall op_ok os → wf (run os r).
Proof.
  revert r. induction os as [|o os IH]; intros r Hwf Hok; [done|]. inversion Hok; subst.
  apply IH; [|done]. eapply binding_effect_wf; [exact Hwf|]. by apply binding_exec_effect.
Qed.

(** The repository and its indexes agree, and a provider account has one active
    owner.  After any sequence of operations, every stored binding is valid, digest
    included, and found under its identifier and its tenant-local key; the account index
    and the route index hold exactly the active bindings; the candidates stay within
    their capacity; and no two active bindings, of whatever tenants, share a channel and
    a provider account. *)
Theorem bindings_indexed options os :
  Forall op_ok os →
  let r := run os (NewInMemoryRepository options) in
  wf r ∧ ∀ sc1 sc2 b1 b2, byID r !! sc1 = Some b1 → byID r !! sc2 = Some b2 →
    is_active b1 = true → is_active b2 = true → account_scope b1 = account_scope b2 → sc1 = sc2.
Proof.
  intros Hok r. assert (wf r) as Hwf by (apply binding_run_wf; [apply wf_new|done]). split; [done|].
  intros sc1 sc2 b1 b2 H1 H2 Ha1 Ha2 Heq.
  assert (activeAccounts r !! account_scope b1 = Some sc1) as E1 by (apply (wf_account _ Hwf); eauto).
  assert (activeAccounts r !! account_scope b1 = Some sc2) as E2 by (apply (wf_account _ Hwf); eauto).
  congruence.
Qed.

(** * Candidates are spent once *)

Definition draws (token : string) (o : op) : Prop :=
  match o with OpLookup _ _ random _ _ => ∃ i, newCandidateToken (random i) = Ok token | _ => False end.

(** The successful path of a consumption. *)
Lemma Consume_Ok ctx clk c r r' b :
  ConsumeCandidate ctx clk c r = (r', Ok b) →
  r' = drop_candidate (cc_CandidateToken c) r
  ∧ ∃ rc, candidates r !! cc_CandidateToken c = Some rc ∧ sameCandidate (rec_context rc) c = true
  ∧ byID r !! rec_scope rc = Some b ∧ binding_current b (rec_context rc) = true
  ∧ stamp_before (nowUTC clk) (cc_ExpiresAt c) = true ∧ stamp_before (nowUTC clk) (cc_IssuedAt c) = false.
Proof.
  unfold ConsumeCandidate. go_unfold. cbv zeta.
  destruct (checkContext ctx 0) as [[]|]; [|discriminate]. destruct (negb _); [|discriminate].
  destruct (is_ok _); [|discriminate]. destruct (checkContext ctx 1) as [[]|]; [|discriminate].
  destruct (checkContext ctx 2) as [[]|]; [|discriminate].
  destruct (candidates r !! _) as [rc|] eqn:Hrc; [|discriminate].
  destruct (sameCandidate _ _) eqn:Hsame; [|discriminate].
  destruct (_ || _) eqn:Hlife; [discriminate|].
  destruct (byID r !! _) as [b'|] eqn:Hb; [|discriminate].
  destruct (binding_current _ _) eqn:Hcur; [|discriminate]. intros [= <- <-]. split; [done|].
  exists rc. apply orb_false_iff in Hlife as [He Hi]. apply negb_false_iff in He.
  split_and!; try done; unfold sameCandidate, stamp_before in *; bool_prop; congruence.
Qed.

Lemma foldl_insert_lookup (l : list candidateRecord) (m : gmap string candidateRecord) token :
  (∀ rc, rc ∈ l → cc_CandidateToken (rec_context rc) ≠ token) →
  foldl (λ m rc, <[cc_CandidateToken (rec_context rc) := rc]> m) m l !! token = m !! token.
Proof.
  revert m. induction l as [|rc l IH]; intros m Hne; simpl; [done|].
  rewrite IH by (intros; apply Hne; by right). apply lookup_insert_ne, Hne. by left.
Qed.

(** Every issued record: its binding, its token and the lifetime that it was checked at. *)
Definition issued (r : InMemoryRepository) (ch d : string) (now : stamp)
    (random : nat → option (list Z)) (rc : candidateRecord) : Prop :=
  ∃ b i, byID r !! rec_scope rc = Some b
    ∧ newCandidateToken (random i) = Ok (cc_CandidateToken (rec_context rc))
    ∧ rec_context rc = mkCandidate ch d (Version b) (ConfigDigest b) PurposeWebhookVerification
        (cc_CandidateToken (rec_context rc)) now
        (mkStamp (add_duration (instant now) (candidateTTL r)) (utc now))
    ∧ candidate_Validate (rec_context rc) now = Ok ().

Lemma issue_spec r ch d now random i scopes l :
  issue r ch d now random i scopes = Ok l →
  Forall2 (λ sc rc, rec_scope rc = sc ∧ issued r ch d now random rc) scopes l.
Proof.
  revert i l. induction scopes as [|sc scopes IH]; intros i l; simpl; go_unfold;
    [intros [= <-]; constructor|].
  destruct (byID r !! sc) as [b|] eqn:Hb; [|discriminate].
  destruct (newCandidateToken (random i)) as [tok|] eqn:Ht; [|discriminate].
  unfold NewCandidateBindingContext. go_unfold.
  destruct (candidate_Validate _ _) as [[]|] eqn:Hv; [|discriminate].
  destruct (issue _ _ _ _ _ _ _) eqn:Hi; [|discriminate]. intros [= <-].
  constructor; [|by eapply IH]. split; [done|]. by exists b, i.
Qed.

Lemma exec_token o r token :
  candidates r !! token = None → ¬ draws token o → candidates (exec o r) !! token = None.
Proof.
  intros Hn Hd.
  assert (∀ b r, candidates (addIndexesLocked b r) = candidates r) as Hadd
    by (intros b r1; unfold addIndexesLocked; by case_match).
  assert (∀ b r, candidates (removeIndexesLocked b r) = candidates r) as Hrem
    by (intros b r1; unfold removeIndexesLocked; by case_match).
  destruct o as [ctx clk ms random input|ctx clk input|ctx clk input|ctx clk random ch d|ctx clk c]; simpl.
  - unfold Create. go_unfold. repeat (case_match; simplify_eq/=; try done). by rewrite Hadd.
  - unfold UpdateConfiguration, apply_change. go_unfold.
    repeat (case_match; simplify_eq/=; try done). by rewrite Hadd; simpl; rewrite Hrem.
  - unfold TransitionStatus, apply_change. go_unfold.
    repeat (case_match; simplify_eq/=; try done). by rewrite Hadd; simpl; rewrite Hrem.
  - unfold LookupCandidates. go_unfold. set (r1 := pruneCandidatesLocked (nowUTC clk) r).
    assert (candidates r1 !! token = None) as Hp.
    { unfold r1. cbn. apply map_lookup_filter_None. by left. }
    destruct (checkContext ctx 0) as [[]|]; [|done]. destruct (is_ok _); [|done].
    destruct (is_ok _); [|done]. destruct (checkContext ctx 1) as [[]|]; [|done].
    destruct (checkContext ctx 2) as [[]|]; [|done]. destruct (negb _); [|done].
    destruct (_ <=? _); [|done]. destruct (issue _ _ _ _ _ _ _) as [l|] eqn:Hi; [|done].
    destruct (checkContext ctx 3) as [[]|]; [|done]. cbn. rewrite foldl_insert_lookup; [done|].
    intros rc Hrc Heq. apply issue_spec in Hi. apply list_elem_of_lookup in Hrc as [k Hk].
    destruct (Forall2_lookup_r _ _ _ _ _ Hi Hk) as (sc & _ & _ & b & j & _ & Ht & _).
    apply Hd. exists j. by rewrite Ht, Heq.
  - unfold ConsumeCandidate. go_unfold. cbv zeta.
    assert (candidates (drop_candidate (cc_CandidateToken c) r) !! token = None) as Hdrop.
    { cbn. apply lookup_delete_None. by right. }
    repeat (case_match; simplify_eq/=; try done).
Qed.

Lemma consume_missing ctx clk c r :
  candidates r !! cc_CandidateToken c = None → is_ok (ConsumeCandidate ctx clk c r).2 = false.
Proof.
  intros Hn. unfold ConsumeCandidate. go_unfold. cbv zeta. rewrite Hn.
  repeat (case_match; simplify_eq/=; try done).
Qed.

(** C12: a candidate is a single-use capability for the current state of a binding.
    When a consumption succeeds, the candidate was unexpired and the binding is stored,
    active and of the version, digest, channel and route that the candidate names; and
    afterwards no consumption of that token succeeds again, whatever operations lie
    between, unless a lookup happens to draw the same random token. *)
Theorem candidate_single_use ctx clk c r r' b :
  ConsumeCandidate ctx clk c r = (r', Ok b) → wf r →
  (byID r !! binding_scope b = Some b ∧ is_active b = true ∧ Version b = cc_BindingVersion c
    ∧ ConfigDigest b = cc_ConfigDigest c ∧ route_scope b = (cc_Channel c, cc_PublicRouteKeyDigest c)
    ∧ instant (cc_IssuedAt c) ≤ instant (nowUTC clk) < instant (cc_ExpiresAt c))
  ∧ (∀ os ctx' clk' c', Forall (λ o, ¬ draws (cc_CandidateToken c) o) os →
       cc_CandidateToken c' = cc_CandidateToken c →
       is_ok (ConsumeCandidate ctx' clk' c' (run os r')).2 = false).
Proof.
  intros (-> & rc & Hrc & Hsame & Hb & Hcur & He & Hi)%Consume_Ok Hwf. split.
  - destruct (wf_id _ Hwf _ _ Hb) as (Hsc & _). rewrite Hsc in Hb.
    unfold binding_current, sameCandidate, stamp_before, before, route_scope in *. bool_prop.
    split_and!; try done; congruence.
  - intros os ctx' clk' c' Hos Htok. apply consume_missing. rewrite Htok.
    assert (candidates (drop_candidate (cc_CandidateToken c) r) !! cc_CandidateToken c = None) as Hn
      by apply lookup_delete_eq.
    revert Hn. generalize (drop_candidate (cc_CandidateToken c) r) as r1.
    induction Hos as [|o os Ho _ IH]; intros r1 Hn; [done|]. simpl. apply IH. by apply exec_token.
Qed.

(** * Lookup and consumption *)

Lemma foldl_insert_hit (l : list candidateRecord) (m : gmap string candidateRecord) rc :
  rc ∈ l → NoDup ((λ rc, cc_CandidateToken (rec_context rc)) <$> l) →
  foldl (λ m rc, <[cc_CandidateToken (rec_context rc) := rc]> m) m l
    !! cc_CandidateToken (rec_context rc) = Some rc.
Proof.
  revert m. induction l as [|rc' l IH]; intros m Hin Hnd; [by apply elem_of_nil in Hin|].
  inversion Hnd as [|?? Hni Hnd']; subst. simpl. apply elem_of_cons in Hin as [->|Hin]; [|by apply IH].
  rewrite foldl_insert_lookup; [apply lookup_insert_eq|]. intros rc Hrc Heq. apply Hni.
  apply list_elem_of_fmap. exists rc. by rewrite Heq.
Qed.

Lemma candidate_Validate_zero c now :
  candidate_Validate c now = Ok () → candidate_Validate c zero_stamp = Ok ().
Proof.
  unfold candidate_Validate. go_unfold. repeat (case_match; simplify_eq/=; try done).
Qed.

Lemma candidate_token_nonempty c now :
  candidate_Validate c now = Ok () → (cc_CandidateToken c =? "")%string = false.
Proof.
  unfold candidate_Validate, token_ok. go_unfold. repeat (case_match; simplify_eq/=; try done).
  by destruct (cc_CandidateToken c =? "")%string.
Qed.

Lemma sameCandidate_refl c : sameCandidate c c = true.
Proof. unfold sameCandidate. by rewrite !String.eqb_refl, !Z.eqb_refl. Qed.

(** The successful path of a lookup. *)
Lemma Lookup_Ok ctx clk random ch d r r' cs :
  LookupCandidates ctx clk random ch d r = (r', Ok cs) →
  let now := nowUTC clk in let r1 := pruneCandidatesLocked now r in
  ∃ l, cs = rec_context <$> l
    ∧ Forall2 (λ sc rc, rec_scope rc = sc ∧ issued r ch d now random rc)
        (merge_sort scope_le (active_scopes ch d r)) l
    ∧ r' = set_candidates
        (foldl (λ m rc, <[cc_CandidateToken (rec_context rc) := rc]> m) (candidates r1) l) r.
Proof.
  unfold LookupCandidates. go_unfold.
  destruct (checkContext ctx 0) as [[]|]; [|discriminate]. destruct (is_ok _); [|discriminate].
  destruct (is_ok _); [|discriminate]. destruct (checkContext ctx 1) as [[]|]; [|discriminate].
  destruct (checkContext ctx 2) as [[]|]; [|discriminate]. destruct (negb _); [|discriminate].
  destruct (_ <=? _); [|discriminate]. destruct (issue _ _ _ _ _ _ _) as [l|] eqn:Hi; [|discriminate].
  destruct (checkContext ctx 3) as [[]|]; [|discriminate]. intros [= <- <-]. exists l.
  split_and!; try done. exact (issue_spec _ _ _ _ _ _ _ _ Hi).
Qed.

Lemma active_scopes_spec ch d r sc :
  wf r → sc ∈ active_scopes ch d r ↔
  ∃ b, byID r !! sc = Some b ∧ is_active b = true ∧ route_scope b = (ch, d).
Proof.
  intros Hwf. unfold active_scopes, scope_active. rewrite list_elem_of_filter, elem_of_elements,
    (wf_route _ Hwf). split; [by intros [_ ?]|]. intros (b & Hb & Ha & Hr).
  split; [by rewrite Hb|eauto].
Qed.

(** Discovery and consumption fit together.  When a lookup of a route succeeds with
    distinct tokens, its candidates are exactly one per active binding of the route:
    each of them, presented unchanged before it expires, yields one of those bindings,
    and each of those bindings is yielded by one of them. *)
Theorem candidate_roundtrip ctx clk random ch d r r' cs clk' :
  LookupCandidates ctx clk random ch d r = (r', Ok cs) → wf r →
  NoDup (cc_CandidateToken <$> cs) →
  instant (nowUTC clk) ≤ instant (nowUTC clk') < instant (nowUTC clk) + candidateTTL r →
  (∀ c, c ∈ cs → ∃ b, (ConsumeCandidate background clk' c r').2 = Ok b
     ∧ byID r !! binding_scope b = Some b ∧ is_active b = true ∧ route_scope b = (ch, d))
  ∧ (∀ b, byID r !! binding_scope b = Some b → is_active b = true → route_scope b = (ch, d) →
     ∃ c, c ∈ cs ∧ (ConsumeCandidate background clk' c r').2 = Ok b).
Proof.
  intros (l & -> & Hl & Hr')%Lookup_Ok Hwf Hnd Hnow.
  assert (∀ rc b, rc ∈ l → byID r !! rec_scope rc = Some b → is_active b = true →
    route_scope b = (ch, d) →
    (ConsumeCandidate background clk' (rec_context rc) r').2 = Ok b) as Hconsume.
  { intros rc b Hin Hb Hact Hroute. apply list_elem_of_lookup in Hin as [k Hk].
    destruct (Forall2_lookup_r _ _ _ _ _ Hl Hk) as (sc & _ & _ & b' & i & Hb' & _ & Hctx & Hval).
    assert (b' = b) as -> by congruence.
    assert (candidates r' !! cc_CandidateToken (rec_context rc) = Some rc) as Hrc.
    { rewrite Hr'. cbn. apply foldl_insert_hit; [by eapply list_elem_of_lookup_2|].
      by rewrite <- list_fmap_compose in Hnd. }
    assert (byID r' !! rec_scope rc = Some b) as Hbr by (by rewrite Hr').
    unfold ConsumeCandidate. go_unfold. cbv zeta. cbn [checkContext background].
    rewrite (candidate_token_nonempty _ _ Hval), (candidate_Validate_zero _ _ Hval). cbn [negb is_ok].
    rewrite Hrc, sameCandidate_refl, Hbr.
    replace (stamp_before (nowUTC clk') (cc_ExpiresAt (rec_context rc))) with true
      by (rewrite Hctx; symmetry; apply Z.ltb_lt; unfold add_duration; cbn [cc_ExpiresAt instant]; lia).
    replace (stamp_before (nowUTC clk') (cc_IssuedAt (rec_context rc))) with false
      by (rewrite Hctx; symmetry; apply Z.ltb_ge; cbn [cc_IssuedAt]; lia).
    cbn [negb orb]. replace (binding_current b (rec_context rc)) with true; [done|].
    rewrite Hctx. unfold binding_current. cbn. injection Hroute as -> ->.
    by rewrite Hact, Z.eqb_refl, !String.eqb_refl. }
  split.
  - intros c Hc. apply list_elem_of_fmap in Hc as (rc & -> & Hin).
    pose proof Hin as [k Hk]%list_elem_of_lookup.
    destruct (Forall2_lookup_r _ _ _ _ _ Hl Hk) as (sc & Hsc & <- & b & i & Hb & _).
    apply list_elem_of_lookup_2 in Hsc. rewrite merge_sort_Permutation in Hsc.
    apply (active_scopes_spec _ _ _ _ Hwf) in Hsc as (b' & Hb' & Ha & Hr).
    exists b'. destruct (wf_id _ Hwf _ _ Hb') as (Heq & _). rewrite <- Heq. by auto.
  - intros b Hb Ha Hr.
    assert (binding_scope b ∈ merge_sort scope_le (active_scopes ch d r)) as Hsc.
    { rewrite merge_sort_Permutation. apply active_scopes_spec; [done|]. eauto. }
    apply list_elem_of_lookup in Hsc as [k Hk].
    destruct (Forall2_lookup_l _ _ _ _ _ Hl Hk) as (rc & Hrc & Hsc' & _).
    exists (rec_context rc). apply list_elem_of_lookup_2 in Hrc. split; [|by apply Hconsume; rewrite ?Hsc'].
    apply list_elem_of_fmap. eauto.
Qed.

End invariant.

(** * The interface of routing *)

(** The repository is a [CandidateConsumer] that keeps the laws of [Routing.v]. *)
Definition inmemory_consumer (ctx : context) (clk : nat → stamp)
    : CandidateConsumer InMemoryRepository := λ c r,
  let p := ConsumeCandidate ctx clk c r in
  (p.1, match p.2 with Ok b => Ok (Some b) | Err e => Err e end).

Lemma inmemory_consume_Ok ctx clk c r r' b :
  inmemory_consumer ctx clk c r = (r', Ok (Some b)) → ConsumeCandidate ctx clk c r = (r', Ok b).
Proof.
  unfold inmemory_consumer. destruct (ConsumeCandidate ctx clk c r) as [r1 [b'|e]]; simpl; congruence.
Qed.

#[export] Instance inmemory_consumer_laws ctx clk :
  @ConsumerLaws InMemoryRepository (inmemory_consumer ctx clk).
Proof.
  split.
  - intros c r r' b (_ & rc & _ & Hsame & _ & Hcur & _)%inmemory_consume_Ok%Consume_Ok.
    unfold binding_current, sameCandidate, is_active in *. bool_prop. split_and!; congruence.
  - intros c c' r r' b (-> & _)%inmemory_consume_Ok%Consume_Ok Htok. unfold inmemory_consumer,
      Routing.ConsumeCandidate. simpl.
    pose proof (consume_missing ctx clk c' (drop_candidate (cc_CandidateToken c) r)) as Hmiss.
    rewrite Htok in Hmiss. specialize (Hmiss (lookup_delete_eq _ _)).
    by destruct (ConsumeCandidate ctx clk c' _).2.
Qed.

(** * Witnesses *)


Definition ex_clk (seconds : Z) (i : nat) : stamp := mkStamp (instant ex_now + seconds * second) true.
Definition ex_create : op :=
  OpCreate background (ex_clk 0) 1700000000000 (Some ex_random) ex_binding_input.
Definition ex_repo : InMemoryRepository := run [ex_create] (NewInMemoryRepository None).
Definition ex_token_bytes (i : nat) : option (list Z) := Some (replicate 32 (Z.of_nat i + 7)).
Notation ex_found :=
  (LookupCandidates background (ex_clk 1) ex_token_bytes ChannelWeCom ex_route_digest ex_repo)
  (only parsing).
Definition ex_candidate_list : list CandidateBindingContext := Eval vm_compute in
  match ex_found.2 with Ok cs => cs | Err _ => [] end.
Definition ex_issued : CandidateBindingContext := Eval vm_compute in default ex_candidate (head ex_candidate_list).

Lemma ex_binding_create_ok : Forall op_ok [ex_create].
Proof. constructor; [apply ex_random_ok|constructor]. Qed.

Lemma ex_repo_wf : wf ex_repo.
Proof. apply binding_run_wf; [apply wf_new|apply ex_binding_create_ok]. Qed.

Lemma bindings_indexed_witness :
  wf (run [ex_create] (NewInMemoryRepository None))
  ∧ byID ex_repo !! binding_scope ex_binding = Some ex_binding.
Proof.
  split; [|vm_compute; reflexivity].
  exact (proj1 (bindings_indexed None [ex_create] ex_binding_create_ok)).
Defined.

(** A pair is known by its result when the map inside need not be evaluated. *)
Lemma pair_result {A B} (p : A * B) b : p.2 = b → p = (p.1, b).
Proof. destruct p. by intros <-. Qed.

Lemma ex_lookup_ok : ex_found.2 = Ok ex_candidate_list.
Proof. vm_compute. reflexivity. Qed.

Notation ex_spent := (ConsumeCandidate background (ex_clk 2) ex_issued ex_found.1) (only parsing).
Lemma ex_consume_ok : ex_spent.2 = Ok ex_binding.
Proof. vm_compute. reflexivity. Qed.

Lemma candidate_roundtrip_witness :
  ex_candidate_list ≠ [] ∧
  ∀ c, c ∈ ex_candidate_list → ∃ b, (ConsumeCandidate background (ex_clk 2) c ex_found.1).2 = Ok b
     ∧ byID ex_repo !! binding_scope b = Some b ∧ is_active b = true
     ∧ route_scope b = (ChannelWeCom, ex_route_digest).
Proof.
  split; [vm_compute; discriminate|].
  refine (proj1 (candidate_roundtrip background (ex_clk 1) ex_token_bytes ChannelWeCom ex_route_digest
    ex_repo ex_found.1 ex_candidate_list (ex_clk 2)
    (pair_result _ _ ex_lookup_ok) ex_repo_wf _ _)).
  - apply NoDup_ListNoDup. vm_compute. constructor; [intros []|constructor].
  - vm_compute. split; [discriminate|reflexivity].
Defined.

Lemma candidate_single_use_witness :
  is_ok (ConsumeCandidate background (ex_clk 2) ex_issued (run [] ex_spent.1)).2 = false.
Proof.
  refine (proj2 (candidate_single_use background (ex_clk 2) ex_issued ex_found.1 ex_spent.1
    ex_binding (pair_result _ _ ex_consume_ok) _) [] background (ex_clk 2) ex_issued (Forall_nil_2 _) eq_refl).
  eapply binding_effect_wf; [exact ex_repo_wf|]. apply Lookup_effect, ex_repo_wf.
Defined.
