(* ===== verification/Gateway.v ===== *)
(** The protocol-neutral boundary of the gateway: principals and messages
    ([trpcservice/gateway/gateway.go]), the static API authenticator ([auth.go]), the
    admission limiter ([limits.go]) and the idempotency store ([idempotency.go]).

    A private pointer ([apiProof]) is an option; a [sync.Once] of a lease or claim is a
    boolean of the lease.  Methods that lock are atomic actions on the shared object. *)
From Stdlib Require Import Ascii String.
From S2P Require Import Prelude GoStrings Tenant Agent Sha256 Bindings Routing.
Local Open Scope Z_scope.

Inductive error :=
| ErrInvalid | ErrUnauthenticated | ErrPlanUnavailable | ErrNotReady | ErrClosed
| ErrRateLimited | ErrDuplicateMessage | ErrIdempotencyCapacity
| ErrContext (e : ctx_error).
#[export] Instance error_eq_dec : EqDecision error.
Proof. solve_decision. Defined.

Definition PrincipalAPI : string := "api".
Definition PrincipalChannel : string := "channel".
Definition ContentTypeText : string := "text".
Definition ContentTypeMedia : string := "media".
Definition ContentTypeRich : string := "rich".
Definition maxPrincipalIDRunes : Z := 256.
Definition maxMessageRunes : Z := 64 * 1024.
Definition maxExternalIDRunes : Z := 1024.

(** * Validation *)

Definition hasControl (value : string) : bool :=
  existsb (λ r, (r <? 32) || (r =? 127)) (runes value).

Definition validateExternalID (value : string) : result error unit :=
  if (trim_space value =? "")%string || hasControl value
    || (maxExternalIDRunes <? rune_count value)
  then Err ErrInvalid else Ok ().

Definition validateScopedID (value prefix : string) : result error unit :=
  if negb (len value =? len prefix + 26) || negb (has_prefix value prefix) then Err ErrInvalid
  else if forallb crockford_rune (runes (trim_prefix value prefix)) then Ok () else Err ErrInvalid.

(** * API authentication *)

Record APIIdentity := mkAPIIdentity {
  id_TenantID : string; id_AppID : string; id_SubjectID : string }.
#[export] Instance api_identity_eq_dec : EqDecision APIIdentity.
Proof. solve_decision. Defined.

Record AuthenticatedAPI := mkAuthenticated {
  auth_identity : APIIdentity; auth_proof : option APIIdentity }.

(** The private proof is the identity for which it was issued. *)
Definition proof_validate (proof : APIIdentity) : result error unit :=
  _ ← validateScopedID (id_TenantID proof) "t_";
  _ ← validateScopedID (id_AppID proof) "app_";
  validateExternalID (id_SubjectID proof).

Definition AuthenticatedAPI_Validate (r : AuthenticatedAPI) : result error unit :=
  match auth_proof r with
  | None => Err ErrUnauthenticated
  | Some proof =>
      _ ← guard_ok (bool_decide (auth_identity r = proof)) ErrUnauthenticated;
      proof_validate proof
  end.

Definition newAuthenticatedAPI (identity : APIIdentity) : result error AuthenticatedAPI :=
  _ ← proof_validate identity;
  Ok (mkAuthenticated identity (Some identity)).

Definition Identity (r : AuthenticatedAPI) : result error APIIdentity :=
  _ ← AuthenticatedAPI_Validate r;
  Ok (auth_identity r).

Definition validateCredential (credential : string) : result error unit :=
  if (trim_space credential =? "")%string || hasControl credential
    || (maxPrincipalIDRunes <? rune_count credential)
  then Err ErrInvalid else Ok ().

Definition StaticAPIAuthenticator := gmap string APIIdentity.

(** The constructor validates every credential and identity; which of several invalid
    ones is reported depends on the order of the map, the error does not. *)
Definition NewStaticAPIAuthenticator (credentials : gmap string APIIdentity)
    : result error StaticAPIAuthenticator :=
  foldr (λ p acc,
    _ ← validateCredential p.1;
    _ ← newAuthenticatedAPI p.2;
    m ← acc;
    Ok (<[p.1 := p.2]> m)) (Ok ∅) (map_to_list credentials).

(** [request] is the Authorization header of a request, or no request at all. *)
Definition Authenticate (a : option StaticAPIAuthenticator) (ctx : context)
    (request : option string) : result error AuthenticatedAPI :=
  match ctx with
  | None => Err ErrUnauthenticated
  | Some c =>
      match c 0%nat with
      | Some e => Err (ErrContext e)
      | None =>
          match a, request with
          | Some credentials, Some header =>
              if negb (has_prefix header "Bearer ") then Err ErrUnauthenticated
              else match credentials !! trim_space (trim_prefix header "Bearer ") with
              | None => Err ErrUnauthenticated
              | Some identity => newAuthenticatedAPI identity
              end
          | _, _ => Err ErrUnauthenticated
          end
      end
  end.

(** * Principals *)

Record Principal := mkPrincipal {
  p_kind : string;
  p_tenantID : string;
  p_appID : string;
  p_subjectID : string;
  p_apiProof : option APIIdentity;
  p_routingTarget : RoutingTarget }.

Definition zero_target : RoutingTarget := mkTarget (mkRoute "" "" 0 "" "" "" "") None.

Definition newAPIPrincipal (authenticated : AuthenticatedAPI) : result error Principal :=
  match AuthenticatedAPI_Validate authenticated with
  | Err _ => Err ErrUnauthenticated
  | Ok _ =>
      let identity := auth_identity authenticated in
      Ok (mkPrincipal PrincipalAPI (id_TenantID identity) (id_AppID identity)
        (id_SubjectID identity) (auth_proof authenticated) zero_target)
  end.

Definition NewChannelPrincipal (target : RoutingTarget) : result error Principal :=
  match RoutingTarget_Validate target with
  | Err _ => Err ErrInvalid
  | Ok _ => Ok (mkPrincipal PrincipalChannel (rt_TenantID (target_fields target))
      (rt_AppID (target_fields target)) "" None target)
  end.

Definition Principal_Validate (p : Principal) : result error unit :=
  if (p_kind p =? PrincipalAPI)%string then
    match p_apiProof p with
    | None => Err ErrInvalid
    | Some proof =>
        if negb (id_TenantID proof =? p_tenantID p)%string
          || negb (id_AppID proof =? p_appID p)%string
          || negb (id_SubjectID proof =? p_subjectID p)%string
        then Err ErrInvalid
        else proof_validate proof
    end
  else if (p_kind p =? PrincipalChannel)%string then
    match RoutingTarget_Validate (p_routingTarget p) with
    | Err _ => Err ErrInvalid
    | Ok _ =>
        if negb (p_tenantID p =? rt_TenantID (target_fields (p_routingTarget p)))%string
          || negb (p_appID p =? rt_AppID (target_fields (p_routingTarget p)))%string
        then Err ErrInvalid else Ok ()
    end
  else Err ErrInvalid.

Definition Principal_RoutingTarget (p : Principal) : option RoutingTarget :=
  if (p_kind p =? PrincipalChannel)%string then Some (p_routingTarget p) else None.

(** * Messages *)

Record InboundMessage := mkMessage {
  m_Content : string;
  m_ContentType : string;
  m_ExternalMessageID : string;
  m_ExternalUserID : string;
  m_ConversationKind : string;
  m_ExternalPeerID : string;
  m_ExternalChatID : string;
  m_ExternalThreadID : string }.

Definition validate_optional (value : string) : result error unit :=
  if (value =? "")%string then Ok () else validateExternalID value.

Definition Normalize (m : InboundMessage) : result error InboundMessage :=
  let clone := mkMessage (trim_space (m_Content m))
    (if (m_ContentType m =? "")%string then ContentTypeText else m_ContentType m)
    (m_ExternalMessageID m) (m_ExternalUserID m) (m_ConversationKind m) (m_ExternalPeerID m)
    (m_ExternalChatID m) (m_ExternalThreadID m) in
  _ ← guard_ok ((m_ContentType clone =? ContentTypeText)%string
        || (m_ContentType clone =? ContentTypeMedia)%string
        || (m_ContentType clone =? ContentTypeRich)%string) ErrInvalid;
  let n := rune_count (m_Content clone) in
  _ ← guard_ok (negb ((n <? 1) || (maxMessageRunes <? n))) ErrInvalid;
  _ ← validate_optional (m_ExternalMessageID clone);
  _ ← validateExternalID (m_ExternalUserID clone);
  _ ← (if (m_ConversationKind clone =? ConversationDirect)%string
       then validateExternalID (m_ExternalPeerID clone)
       else if (m_ConversationKind clone =? ConversationGroup)%string
       then validateExternalID (m_ExternalChatID clone)
       else Err ErrInvalid);
  _ ← validate_optional (m_ExternalThreadID clone);
  Ok clone.

(** * The tenant limiter *)

Record TenantLimiterConfig := mkLimiterConfig {
  MaxConcurrent : Z; MaxRequests : Z; Window : duration }.

Record tenantLimitEntry := mkLimitEntry { windowStart : time; requests : Z; active : Z }.

Record TenantLimiter := mkLimiter {
  maxConcurrent : Z;
  maxRequests : Z;
  window : duration;
  limit_entries : gmap string tenantLimitEntry;
  limit_closed : bool }.

Definition defaultTenantMaxConcurrent : Z := 8.
Definition defaultTenantMaxRequests : Z := 60.
Definition defaultTenantWindow : duration := minute.

Definition NewTenantLimiter (config : TenantLimiterConfig) : result error TenantLimiter :=
  let concurrent := if MaxConcurrent config =? 0 then defaultTenantMaxConcurrent
                    else MaxConcurrent config in
  if concurrent <? 1 then Err ErrInvalid
  else
    let reqs := if MaxRequests config =? 0 then defaultTenantMaxRequests else MaxRequests config in
    if reqs <? 1 then Err ErrInvalid
    else
      let win := if Window config =? 0 then defaultTenantWindow else Window config in
      if win <? 0 then Err ErrInvalid
      else Ok (mkLimiter concurrent reqs win ∅ false).

(** The entry of a tenant at [now]: a new window when there is none or the old one is over. *)
Definition current_entry (l : TenantLimiter) (tenantID : string) (now : time) : tenantLimitEntry :=
  match limit_entries l !! tenantID with
  | None => mkLimitEntry now 0 0
  | Some e =>
      if negb (before now (add_duration (windowStart e) (window l)))
      then mkLimitEntry now 0 (active e) else e
  end.

Definition set_limit (tenantID : string) (e : tenantLimitEntry) (l : TenantLimiter) : TenantLimiter :=
  mkLimiter (maxConcurrent l) (maxRequests l) (window l) (<[tenantID := e]> (limit_entries l))
    (limit_closed l).

(** A lease is the tenant of its slot and whether it was returned. *)
Record TenantLimitLease := mkLimitLease { lease_tenant : string; lease_done : bool }.

Definition Acquire (ctx : context) (clk : clock) (tenantID : string)
    : act TenantLimiter error TenantLimitLease :=
  match ctx with
  | None => throw ErrInvalid
  | Some c =>
      match c 0%nat with
      | Some e => throw (ErrContext e)
      | None =>
          _ ← lift (validateScopedID tenantID "t_");
          let now := if is_zero (clk 0%nat) then clk 1%nat else clk 0%nat in
          l ← get;
          if limit_closed l then throw ErrClosed
          else
            let e := current_entry l tenantID now in
            if (maxRequests l <=? requests e) || (maxConcurrent l <=? active e)
            then _ ← put (set_limit tenantID e l); throw ErrRateLimited
            else
              _ ← put (set_limit tenantID
                    (mkLimitEntry (windowStart e) (requests e + 1) (active e + 1)) l);
              mret (mkLimitLease tenantID false)
      end
  end.

Definition Release (lease : TenantLimitLease) (l : TenantLimiter) : TenantLimiter * TenantLimitLease :=
  if lease_done lease then (l, lease)
  else
    (match limit_entries l !! lease_tenant lease with
     | Some e => if 0 <? active e
                 then set_limit (lease_tenant lease)
                        (mkLimitEntry (windowStart e) (requests e) (active e - 1)) l
                 else l
     | None => l
     end, mkLimitLease (lease_tenant lease) true).

Definition Limiter_Close (l : TenantLimiter) : TenantLimiter :=
  mkLimiter (maxConcurrent l) (maxRequests l) (window l) ∅ true.

Definition Limiter_Ready (l : TenantLimiter) : bool := negb (limit_closed l).

(** * The idempotency store *)

Record DispatchEvent := mkDispatchEvent {
  ev_Type : string; ev_RequestID : string; ev_TraceID : string; ev_Text : string;
  ev_Status : string; ev_Error : string; ev_Done : bool }.

Inductive IdempotencyState := IdempotencyPending | IdempotencyCompleted | IdempotencyFailed.
#[export] Instance idempotency_state_eq_dec : EqDecision IdempotencyState.
Proof. solve_decision. Defined.

Record IdempotencyConfig := mkIdempotencyConfig { TTL : duration; MaxEntries : Z }.

Record idempotencyEntry := mkIdempotencyEntry {
  state : IdempotencyState; events : list DispatchEvent; expiresAt : time }.

Record IdempotencyStore := mkIdempotencyStore {
  ttl : duration;
  maxEntries : Z;
  entries : gmap string idempotencyEntry;
  closed : bool }.

Record IdempotencyClaim := mkClaim { claim_key : string; claim_done : bool }.

Definition defaultIdempotencyTTL : duration := 10 * minute.
Definition defaultIdempotencyMaxEntries : Z := 4096.

Definition NewIdempotencyStore (config : IdempotencyConfig) : result error IdempotencyStore :=
  let t := if TTL config =? 0 then defaultIdempotencyTTL else TTL config in
  if t <? 0 then Err ErrInvalid
  else
    let n := if MaxEntries config =? 0 then defaultIdempotencyMaxEntries else MaxEntries config in
    if n <? 1 then Err ErrInvalid
    else Ok (mkIdempotencyStore t n ∅ false).

Definition key_parts (p : Principal) (m : InboundMessage) : list string :=
  [p_kind p; p_tenantID p; p_appID p; p_subjectID p; m_ConversationKind m; m_ExternalUserID m;
   m_ExternalPeerID m; m_ExternalChatID m; m_ExternalThreadID m; m_ExternalMessageID m]
  ++ match Principal_RoutingTarget p with
     | Some target =>
         let r := target_fields target in
         [rt_Channel r; rt_BindingID r; itoa (rt_BindingVersion r)]
     | None => []
     end.

Definition makeIdempotencyKey (p : Principal) (m : InboundMessage) : result error string :=
  match Principal_Validate p with
  | Err _ => Err ErrUnauthenticated
  | Ok _ => Ok (len_prefixed_all (key_parts p m))
  end.

Definition store_now (clk : clock) : time := if is_zero (clk 0%nat) then clk 1%nat else clk 0%nat.

Definition set_entries (m : gmap string idempotencyEntry) (s : IdempotencyStore) : IdempotencyStore :=
  mkIdempotencyStore (ttl s) (maxEntries s) m (closed s).

Definition live (now : time) (p : string * idempotencyEntry) : Prop := before now (expiresAt p.2) = true.
#[export] Instance live_dec now p : Decision (live now p).
Proof. unfold live. apply _. Defined.

Definition pruneLocked (now : time) (s : IdempotencyStore) : IdempotencyStore :=
  set_entries (filter (live now) (entries s)) s.

(** The result is a new claim, or the events of a completed duplicate. *)
Definition Begin (ctx : context) (clk : clock) (p : Principal) (m : InboundMessage)
    : act IdempotencyStore error (IdempotencyClaim + list DispatchEvent) :=
  match ctx with
  | None => throw ErrInvalid
  | Some c =>
      match c 0%nat with
      | Some e => throw (ErrContext e)
      | None =>
          _ ← ensure (is_ok (Principal_Validate p)) ErrUnauthenticated;
          normalized ← lift (Normalize m);
          _ ← ensure (negb (m_ExternalMessageID normalized =? "")%string) ErrInvalid;
          key ← lift (makeIdempotencyKey p normalized);
          let now := store_now clk in
          s0 ← get;
          if closed s0 then throw ErrClosed
          else
            let s := pruneLocked now s0 in
            _ ← put s;
            let reserve (s : IdempotencyStore) : act IdempotencyStore error _ :=
              _ ← put s;
              if maxEntries s <=? Z.of_nat (size (entries s)) then throw ErrIdempotencyCapacity
              else
                _ ← put (set_entries (<[key := mkIdempotencyEntry IdempotencyPending []
                      (add_duration now (ttl s))]> (entries s)) s);
                mret (inl (mkClaim key false)) in
            match entries s !! key with
            | Some e =>
                match state e with
                | IdempotencyPending => throw ErrDuplicateMessage
                | IdempotencyCompleted => mret (inr (events e))
                | IdempotencyFailed => reserve (set_entries (delete key (entries s)) s)
                end
            | None => reserve s
            end
      end
  end.

(** [Complete] and [Fail] settle the pending entry of the claim's key, once per claim. *)
Definition settle (next : IdempotencyState) (evs : list DispatchEvent) (clk : clock)
    (claim : IdempotencyClaim) (s : IdempotencyStore) : IdempotencyStore * IdempotencyClaim :=
  if claim_done claim then (s, claim)
  else
    (match entries s !! claim_key claim with
     | Some e =>
         if bool_decide (state e = IdempotencyPending)
         then set_entries (<[claim_key claim :=
                mkIdempotencyEntry next evs (add_duration (store_now clk) (ttl s))]> (entries s)) s
         else s
     | None => s
     end, mkClaim (claim_key claim) true).
Definition Complete (evs : list DispatchEvent) := settle IdempotencyCompleted evs.
Definition Fail_ := settle IdempotencyFailed [].

Definition Idempotency_Close (s : IdempotencyStore) : IdempotencyStore :=
  mkIdempotencyStore (ttl s) (maxEntries s) ∅ true.
Definition Idempotency_Ready (s : IdempotencyStore) : bool := negb (closed s).

#[global] Arguments validateScopedID : simpl never.
#[global] Arguments Normalize : simpl never.
#[global] Arguments Principal_Validate : simpl never.
#[global] Arguments makeIdempotencyKey : simpl never.

(** * The limiter under use *)

(** The limiter with the leases it handed out and, newest first, the tenants and times
    of its admissions. *)
Record limiter_world := mkLimiterWorld {
  lw_limiter : TenantLimiter;
  lw_leases : list TenantLimitLease;
  lw_admitted : list (string * Z) }.

Inductive limiter_op :=
| LAcquire (ctx : context) (clk : clock) (tenantID : string)
| LRelease (i : nat)
| LClose.

Definition limiter_exec (o : limiter_op) (w : limiter_world) : limiter_world :=
  match o with
  | LAcquire ctx clk tenantID =>
      match Acquire ctx clk tenantID (lw_limiter w) with
      | (l, Ok lease) => mkLimiterWorld l (lw_leases w ++ [lease])
                           ((tenantID, store_now clk) :: lw_admitted w)
      | (l, Err _) => mkLimiterWorld l (lw_leases w) (lw_admitted w)
      end
  | LRelease i =>
      match lw_leases w !! i with
      | Some lease =>
          let p := Release lease (lw_limiter w) in
          mkLimiterWorld p.1 (<[i := p.2]> (lw_leases w)) (lw_admitted w)
      | None => w
      end
  | LClose => mkLimiterWorld (Limiter_Close (lw_limiter w)) (lw_leases w) (lw_admitted w)
  end.
Definition limiter_run (os : list limiter_op) (w : limiter_world) : limiter_world :=
  foldl (λ w o, limiter_exec o w) w os.

(** The clock does not run backwards over the acquisitions. *)
Fixpoint monotone (last : Z) (os : list limiter_op) : Prop :=
  match os with
  | [] => True
  | LAcquire _ clk _ :: os' => last ≤ store_now clk ∧ monotone (store_now clk) os'
  | _ :: os' => monotone last os'
  end.

(** Leases of a tenant that were not returned yet. *)
Fixpoint outstanding (t : string) (ls : list TenantLimitLease) : Z :=
  match ls with
  | [] => 0
  | l :: ls' => Z.b2z ((lease_tenant l =? t)%string && negb (lease_done l)) + outstanding t ls'
  end.

(** Admissions of a tenant whose time satisfies [p]. *)
Fixpoint admissions (t : string) (p : Z → bool) (h : list (string * Z)) : Z :=
  match h with
  | [] => 0
  | x :: h' => Z.b2z ((x.1 =? t)%string && p x.2) + admissions t p h'
  end.
Definition within (a b x : Z) : bool := (a <=? x) && (x <? b).

Lemma outstanding_nonneg t ls : 0 ≤ outstanding t ls.
Proof. induction ls as [|l ls IH]; simpl; [lia|]. destruct (_ && _); simpl; lia. Qed.

Lemma outstanding_app t ls1 ls2 : outstanding t (ls1 ++ ls2) = outstanding t ls1 + outstanding t ls2.
Proof. induction ls1 as [|l ls IH]; simpl; lia. Qed.

Lemma outstanding_insert t ls i l l' :
  ls !! i = Some l → outstanding t (<[i := l']> ls) = outstanding t ls
    - Z.b2z ((lease_tenant l =? t)%string && negb (lease_done l))
    + Z.b2z ((lease_tenant l' =? t)%string && negb (lease_done l')).
Proof.
  revert i. induction ls as [|x ls IH]; intros [|i] Hi; simplify_eq/=; [lia|]. rewrite (IH i Hi). lia.
Qed.

Lemma outstanding_pos t ls i l :
  ls !! i = Some l → lease_tenant l = t → lease_done l = false → 0 < outstanding t ls.
Proof.
  revert i. induction ls as [|x ls IH]; intros [|i] Hi Ht Hd; simplify_eq/=.
  - rewrite String.eqb_refl, Hd. pose proof (outstanding_nonneg (lease_tenant l) ls). simpl. lia.
  - specialize (IH i Hi eq_refl Hd). destruct (_ && _); simpl; lia.
Qed.

Lemma admissions_nonneg t p h : 0 ≤ admissions t p h.
Proof. induction h as [|x h IH]; simpl; [lia|]. destruct (_ && _); simpl; lia. Qed.

Lemma admissions_mono t p q h :
  (∀ x, x ∈ h → p x.2 = true → q x.2 = true) → admissions t p h ≤ admissions t q h.
Proof.
  induction h as [|x h IH]; intros Hpq; simpl; [lia|].
  specialize (IH (λ y Hy, Hpq y (list_elem_of_further _ _ _ Hy))).
  destruct (x.1 =? t)%string; simpl; [|lia].
  destruct (p x.2) eqn:Hp; [rewrite (Hpq x) by (done || by left)|destruct (q x.2)]; simpl; lia.
Qed.

Lemma admissions_split t p w h :
  admissions t p h = admissions t (λ x, p x && (x <? w)) h + admissions t (λ x, p x && (w <=? x)) h.
Proof.
  induction h as [|x h IH]; simpl; [lia|]. rewrite IH.
  destruct (x.1 =? t)%string, (p x.2), (Z.ltb_spec x.2 w), (Z.leb_spec w x.2); simpl; lia.
Qed.

Lemma admissions_none t p h : (∀ x, x ∈ h → x.1 = t → p x.2 = false) → admissions t p h = 0.
Proof.
  induction h as [|x h IH]; intros Hn; simpl; [done|].
  rewrite IH by (intros y Hy; apply Hn; by right).
  destruct (String.eqb_spec x.1 t) as [Heq|]; [|done]. by rewrite (Hn x) by (done || by left).
Qed.

(** * Slots *)

(** Every slot that counts is held by a lease, within the limit. *)
Record slots_ok (l0 : TenantLimiter) (w : limiter_world) : Prop := {
  slots_concurrent : maxConcurrent (lw_limiter w) = maxConcurrent l0;
  slots_requests : maxRequests (lw_limiter w) = maxRequests l0;
  slots_window : window (lw_limiter w) = window l0;
  slots_active : limit_closed (lw_limiter w) = false → ∀ t,
    outstanding t (lw_leases w) = match limit_entries (lw_limiter w) !! t with
                                  | Some e => active e | None => 0 end;
  slots_bound t : outstanding t (lw_leases w) ≤ maxConcurrent l0
}.

Lemma current_entry_active l t now :
  active (current_entry l t now) = match limit_entries l !! t with Some e => active e | None => 0 end.
Proof. unfold current_entry. destruct (limit_entries l !! t); [|done]. by case_match. Qed.

(** The outcomes of an acquisition. *)
Lemma Acquire_cases ctx clk t l :
  let now := store_now clk in
  let e := current_entry l t now in
  (∃ err, Acquire ctx clk t l = (l, Err err))
  ∨ limit_closed l = false ∧ Acquire ctx clk t l = (set_limit t e l, Err ErrRateLimited)
    ∧ (maxRequests l ≤ requests e ∨ maxConcurrent l ≤ active e)
  ∨ limit_closed l = false ∧ requests e < maxRequests l ∧ active e < maxConcurrent l
    ∧ Acquire ctx clk t l
      = (set_limit t (mkLimitEntry (windowStart e) (requests e + 1) (active e + 1)) l,
         Ok (mkLimitLease t false)).
Proof.
  intros now e. unfold Acquire. go_unfold. destruct ctx as [c|]; [|left; eauto].
  destruct (c 0%nat); [left; eauto|]. destruct (validateScopedID t "t_") as [[]|]; [|left; eauto].
  change (if is_zero (clk 0%nat) then clk 1%nat else clk 0%nat) with now. fold e.
  destruct (limit_closed l); [left; eauto|]. right.
  destruct (Z.leb_spec (maxRequests l) (requests e)); [left; by eauto|].
  destruct (Z.leb_spec (maxConcurrent l) (active e)); [left; by eauto|]. right. by eauto.
Qed.

Lemma slots_step l0 o w : slots_ok l0 w → slots_ok l0 (limiter_exec o w).
Proof.
  intros Hok. pose proof Hok as [Hc Hr Hw Ha Hb]. destruct o as [ctx clk t|i|]; simpl.
  - destruct (Acquire_cases ctx clk t (lw_limiter w))
      as [[err ->]|[(Hcl & -> & _)|(Hcl & Hreq & Hact & ->)]]; [by split| |].
    + split; simpl; try done. intros _ t'. rewrite (Ha Hcl). destruct (decide (t = t')) as [<-|].
      * by rewrite lookup_insert_eq, current_entry_active.
      * by rewrite lookup_insert_ne.
    + rewrite current_entry_active, <- (Ha Hcl) in Hact.
      assert (∀ t', outstanding t' (lw_leases w ++ [mkLimitLease t false])
        = outstanding t' (lw_leases w) + Z.b2z (t =? t')%string) as Happ.
      { intros t'. rewrite outstanding_app. simpl. rewrite andb_true_r. lia. }
      split; simpl; try done.
      * intros _ t'. rewrite Happ. destruct (decide (t = t')) as [<-|Hne].
        -- rewrite lookup_insert_eq, String.eqb_refl. simpl. rewrite current_entry_active, (Ha Hcl).
           done.
        -- rewrite lookup_insert_ne, (proj2 (String.eqb_neq _ _) Hne), (Ha Hcl) by done. simpl. lia.
      * intros t'. rewrite Happ. destruct (String.eqb_spec t t') as [<-|]; simpl; [lia|].
        specialize (Hb t'). lia.
  - destruct (lw_leases w !! i) as [[t d]|] eqn:Hi; [|done]. unfold Release. simpl.
    destruct d; simpl.
    { by rewrite list_insert_id. }
    assert (∀ t', outstanding t' (<[i := mkLimitLease t true]> (lw_leases w))
      = outstanding t' (lw_leases w) - Z.b2z (t =? t')%string) as Hins.
    { intros t'. rewrite (outstanding_insert _ _ _ _ _ Hi). simpl.
      rewrite andb_true_r, andb_false_r. simpl. lia. }
    pose proof (outstanding_pos t _ _ _ Hi eq_refl eq_refl) as Hpos.
    split; simpl.
    1-3: repeat case_match; simpl; done.
    + intros Hcl t'. rewrite Hins.
      assert (limit_closed (lw_limiter w) = false) as Hcl'
        by (revert Hcl; repeat case_match; done).
      pose proof (Ha Hcl' t) as Ht. destruct (limit_entries (lw_limiter w) !! t) as [e|] eqn:He; [|lia].
      rewrite (proj2 (Z.ltb_lt 0 (active e))) by lia. simpl.
      destruct (decide (t = t')) as [<-|Hne].
      * rewrite lookup_insert_eq, String.eqb_refl. simpl. lia.
      * rewrite lookup_insert_ne, (proj2 (String.eqb_neq _ _) Hne), (Ha Hcl') by done. simpl. lia.
    + intros t'. rewrite Hins. specialize (Hb t'). destruct (_ =? _)%string; simpl; lia.
  - by split.
Qed.

(** * Windows *)

(** What an entry knows about the admissions so far: its window holds [requests] of
    them, none is later, and no interval that reaches into the window holds more than
    [maxRequests] older ones. *)
Definition window_ok (l0 : TenantLimiter) (t : string) (h : list (string * Z))
    (e : tenantLimitEntry) : Prop :=
  (∀ x, x ∈ h → x.1 = t → x.2 < windowStart e + window l0)
  ∧ requests e = admissions t (λ x, windowStart e <=? x) h
  ∧ 0 ≤ requests e ≤ maxRequests l0
  ∧ ∀ a, windowStart e < a + window l0 →
      admissions t (within a (windowStart e)) h ≤ maxRequests l0.

Record windows_ok (l0 : TenantLimiter) (last : Z) (w : limiter_world) : Prop := {
  windows_entry t : limit_closed (lw_limiter w) = false →
    match limit_entries (lw_limiter w) !! t with
    | None => ∀ x, x ∈ lw_admitted w → x.1 ≠ t
    | Some e => windowStart e ≤ last ∧ window_ok l0 t (lw_admitted w) e
    end;
  windows_bound t a :
    admissions t (within a (a + window l0)) (lw_admitted w) ≤ 2 * maxRequests l0
}.

(** The entry that an acquisition works on is as well described at the new time. *)
Lemma current_entry_ok l0 last w t now :
  0 < window l0 → 1 ≤ maxRequests l0 → slots_ok l0 w → windows_ok l0 last w →
  limit_closed (lw_limiter w) = false → last ≤ now →
  let e := current_entry (lw_limiter w) t now in
  windowStart e ≤ now ∧ now < windowStart e + window l0 ∧ window_ok l0 t (lw_admitted w) e.
Proof.
  intros Hw Hmax Hs [Hent _] Hcl Hle. specialize (Hent t Hcl). unfold current_entry.
  rewrite (slots_window _ _ Hs).
  destruct (limit_entries (lw_limiter w) !! t) as [e|].
  - destruct Hent as (Hws & Hlast & Hreq & Hr & Hold). unfold before, add_duration.
    destruct (Z.ltb_spec now (windowStart e + window l0)) as [Hlt|Hge]; simpl.
    + split_and!; try done; lia.
    + unfold window_ok. split_and!; simpl; try lia.
      * intros x Hx Ht. specialize (Hlast x Hx Ht). lia.
      * rewrite admissions_none; [done|]. intros x Hx Ht. specialize (Hlast x Hx Ht).
        apply Z.leb_gt. lia.
      * intros a Ha. etrans; [|apply Hr]. rewrite Hreq. apply admissions_mono.
        intros x _ Hx. unfold within in Hx. bool_prop. apply Z.leb_le. lia.
  - unfold window_ok. split_and!; simpl; try lia.
    + intros x Hx Ht. by destruct (Hent x Hx).
    + rewrite admissions_none; [done|]. intros x Hx Ht. by destruct (Hent x Hx).
    + intros a _. rewrite admissions_none; [lia|]. intros x Hx Ht. by destruct (Hent x Hx).
Qed.

Lemma window_ok_later l0 t h e u now :
  u ≠ t → window_ok l0 t h e → window_ok l0 t ((u, now) :: h) e.
Proof.
  intros Hne (Hl & Hreq & Hr & Hold). unfold window_ok. split_and!; simpl; try lia.
  - intros x [->|Hx]%elem_of_cons Ht; [done|auto].
  - rewrite (proj2 (String.eqb_neq _ _) Hne). simpl. lia.
  - intros a Ha. rewrite (proj2 (String.eqb_neq _ _) Hne). simpl. by apply Hold.
Qed.

Lemma window_ok_admit l0 t h e now :
  windowStart e ≤ now < windowStart e + window l0 → window_ok l0 t h e →
  requests e < maxRequests l0 →
  window_ok l0 t ((t, now) :: h) (mkLimitEntry (windowStart e) (requests e + 1) (active e + 1))
  ∧ ∀ a, a ≤ now < a + window l0 →
      admissions t (within a (a + window l0)) ((t, now) :: h) ≤ 2 * maxRequests l0.
Proof.
  intros Hnow (Hl & Hreq & Hr & Hold) Hlt. split.
  - unfold window_ok. split_and!; simpl; rewrite ?String.eqb_refl; try lia.
    + intros x [->|Hx]%elem_of_cons Ht; simpl; [lia|auto].
    + rewrite (proj2 (Z.leb_le _ _) (proj1 Hnow)). simpl. lia.
    + intros a Ha. unfold within at 1. rewrite (proj2 (Z.ltb_ge now _)) by lia.
      rewrite andb_false_r. simpl. by apply Hold.
  - intros a Ha. simpl. rewrite String.eqb_refl. unfold within at 1.
    rewrite (proj2 (Z.leb_le a now)), (proj2 (Z.ltb_lt now _)) by lia. simpl.
    rewrite (admissions_split _ _ (windowStart e)).
    assert (admissions t (λ x, within a (a + window l0) x && (x <? windowStart e)) h
      ≤ maxRequests l0) as H1.
    { etrans; [|apply (Hold a); lia]. apply admissions_mono. intros x _ Hx. unfold within in *.
      bool_prop. apply andb_true_iff. split; [by apply Z.leb_le|by apply Z.ltb_lt]. }
    assert (admissions t (λ x, within a (a + window l0) x && (windowStart e <=? x)) h
      ≤ requests e) as H2.
    { rewrite Hreq. apply admissions_mono. intros x _ Hx. bool_prop. by apply Z.leb_le. }
    lia.
Qed.

Lemma windows_step l0 last o w :
  0 < window l0 → 1 ≤ maxRequests l0 → slots_ok l0 w → windows_ok l0 last w →
  let last' := match o with LAcquire _ clk _ => store_now clk | _ => last end in
  last ≤ last' → windows_ok l0 last' (limiter_exec o w).
Proof.
  intros Hw Hmax Hs Hok last' Hle. pose proof Hok as [Hent Hb].
  assert (∀ t, limit_closed (lw_limiter w) = false →
    match limit_entries (lw_limiter w) !! t with
    | None => ∀ x, x ∈ lw_admitted w → x.1 ≠ t
    | Some e => windowStart e ≤ last' ∧ window_ok l0 t (lw_admitted w) e
    end) as Hent'.
  { intros t Hcl. specialize (Hent t Hcl). case_match; [|done]. destruct Hent. split; [lia|done]. }
  destruct o as [ctx clk t|i|]; simpl.
  - subst last'. set (now := store_now clk) in *.
    destruct (Acquire_cases ctx clk t (lw_limiter w))
      as [[err ->]|[(Hcl & -> & _)|(Hcl & Hreq & Hact & ->)]]; [by split| |].
    + destruct (current_entry_ok l0 last w t now Hw Hmax Hs Hok Hcl Hle) as (He1 & He2 & He3).
      split; simpl; [|done]. intros t' _. destruct (decide (t = t')) as [<-|].
      * by rewrite lookup_insert_eq.
      * rewrite lookup_insert_ne by done. by apply Hent'.
    + destruct (current_entry_ok l0 last w t now Hw Hmax Hs Hok Hcl Hle) as (He1 & He2 & He3).
      fold now in Hreq. set (e := current_entry (lw_limiter w) t now) in *.
      rewrite (slots_requests _ _ Hs) in Hreq.
      destruct (window_ok_admit l0 t (lw_admitted w) e now ltac:(lia) He3 Hreq) as [Hnew Hbound].
      split; simpl.
      * intros t' _. destruct (decide (t = t')) as [<-|Hne].
        -- by rewrite lookup_insert_eq.
        -- rewrite lookup_insert_ne by done. specialize (Hent' t' Hcl). case_match.
           ++ destruct Hent'. split; [done|]. by apply window_ok_later.
           ++ intros x [->|Hx]%elem_of_cons; [done|auto].
      * intros t' a. destruct (String.eqb_spec t t') as [<-|Hne]; [|simpl; apply Hb].
        destruct (within a (a + window l0) now) eqn:Hin; [|simpl; apply Hb].
        specialize (Hbound a). simpl in Hbound. rewrite String.eqb_refl, Hin in Hbound. apply Hbound.
        unfold within in Hin. bool_prop. lia.
  - destruct (lw_leases w !! i) as [[t d]|]; [|by split]. unfold Release. simpl.
    destruct d; simpl; [by split|].
    destruct (limit_entries (lw_limiter w) !! t) as [e|] eqn:He; [|by split].
    case_match; [|by split]. split; simpl; [|done]. intros t' Hcl.
    destruct (decide (t = t')) as [<-|].
    + rewrite lookup_insert_eq. specialize (Hent' t Hcl). by rewrite He in Hent'.
    + rewrite lookup_insert_ne by done. by apply Hent'.
  - by split.
Qed.

Lemma limiter_run_ok l0 os last w :
  0 < window l0 → 1 ≤ maxRequests l0 → slots_ok l0 w → windows_ok l0 last w → monotone last os →
  slots_ok l0 (limiter_run os w) ∧ ∃ last', windows_ok l0 last' (limiter_run os w).
Proof.
  intros Hw Hmax. revert last w. induction os as [|o os IH]; intros last w Hs Hok Hm; [by eauto|].
  simpl. assert (∃ last', last ≤ last' ∧ monotone last' os
    ∧ last' = match o with LAcquire _ clk _ => store_now clk | _ => last end) as (last' & Hle & Hm' & ->).
  { destruct o; simpl in Hm; [destruct Hm|..]; eexists; (split; [|split]); done || lia. }
  eapply (IH _ (limiter_exec o w)); [by apply slots_step| |exact Hm'].
  by eapply windows_step.
Qed.

Lemma slots_run l0 os w : slots_ok l0 w → slots_ok l0 (limiter_run os w).
Proof.
  revert w. induction os as [|o os IH]; intros w Hs; [done|]. apply IH. by apply slots_step.
Qed.

Lemma NewTenantLimiter_ok config l :
  NewTenantLimiter config = Ok l →
  1 ≤ maxConcurrent l ∧ 1 ≤ maxRequests l ∧ 0 < window l ∧ limit_entries l = ∅ ∧ limit_closed l = false.
Proof.
  unfold NewTenantLimiter, defaultTenantMaxConcurrent, defaultTenantMaxRequests, defaultTenantWindow,
    minute. cbv zeta.
  destruct (Z.eqb_spec (MaxConcurrent config) 0); [|destruct (Z.ltb_spec (MaxConcurrent config) 1);
    [discriminate|]];
    (destruct (Z.eqb_spec (MaxRequests config) 0); [|destruct (Z.ltb_spec (MaxRequests config) 1);
      [discriminate|]]);
    (destruct (Z.eqb_spec (Window config) 0); [|destruct (Z.ltb_spec (Window config) 0);
      [discriminate|]]);
    simpl; intros [= <-]; simpl; split_and!; try done; lia.
Qed.

(** C13: the admission limits hold.  Whatever the callers do, a tenant never has more
    unreturned leases than [maxConcurrent]; as long as the clock does not run backwards,
    no interval of one window's length sees more than twice [maxRequests] admissions of
    a tenant (fixed windows allow one burst on each side of a boundary); and a tenant
    without leases that was not admitted during the last window is admitted. *)
Theorem limiter_bounds config l os last :
  NewTenantLimiter config = Ok l →
  let w := limiter_run os (mkLimiterWorld l [] []) in
  (∀ t, outstanding t (lw_leases w) ≤ maxConcurrent l)
  ∧ (monotone last os →
       (∀ t a, admissions t (within a (a + window l)) (lw_admitted w) ≤ 2 * maxRequests l)
       ∧ (∀ t clk, limit_closed (lw_limiter w) = false → validateScopedID t "t_" = Ok () →
            outstanding t (lw_leases w) = 0 →
            (∀ x, x ∈ lw_admitted w → x.1 = t → x.2 + window l ≤ store_now clk) →
            (Acquire background clk t (lw_limiter w)).2 = Ok (mkLimitLease t false))).
Proof.
  intros (Hc & Hr & Hwin & He & Hcl)%NewTenantLimiter_ok w.
  assert (slots_ok l (mkLimiterWorld l [] [])) as Hs0.
  { split; simpl; try done; [|lia]. intros _ t. by rewrite He, lookup_empty. }
  split; [apply (slots_run l os _ Hs0)|]. intros Hm.
  assert (windows_ok l last (mkLimiterWorld l [] [])) as Hw0.
  { split; simpl; [|lia]. intros t _. rewrite He, lookup_empty. intros x []%elem_of_nil. }
  destruct (limiter_run_ok l os last _ Hwin Hr Hs0 Hw0 Hm) as [Hs [last' Hok]].
  split; [apply (windows_bound _ _ _ Hok)|]. intros t clk Hopen Hid Hout Hold.
  unfold Acquire. go_unfold. simpl. rewrite Hid. fold w in Hs, Hok. rewrite Hopen.
  change (if is_zero (clk 0%nat) then clk 1%nat else clk 0%nat) with (store_now clk).
  rewrite current_entry_active, <- (slots_active _ _ Hs Hopen), Hout.
  rewrite (slots_concurrent _ _ Hs), (slots_requests _ _ Hs), (proj2 (Z.leb_gt _ 0)) by lia.
  rewrite orb_false_r. replace (maxRequests l <=? _) with false; [done|]. symmetry. apply Z.leb_gt.
  pose proof (windows_entry _ _ _ Hok t Hopen) as Hent. unfold current_entry.
  destruct (limit_entries (lw_limiter w) !! t) as [e|]; [|simpl; lia].
  unfold before, add_duration. rewrite (slots_window _ _ Hs).
  destruct (Z.ltb_spec (store_now clk) (windowStart e + window l)); simpl; [|lia].
  destruct Hent as (_ & _ & -> & _). rewrite admissions_none; [lia|].
  intros x Hx Ht. specialize (Hold x Hx Ht). apply Z.leb_gt. lia.
Qed.

(** * Idempotency keys *)

(** The checks of [Begin] before it takes the lock. *)
Definition request_key (p : Principal) (m : InboundMessage) : result error string :=
  _ ← guard_ok (is_ok (Principal_Validate p)) ErrUnauthenticated;
  normalized ← Normalize m;
  _ ← guard_ok (negb (m_ExternalMessageID normalized =? "")%string) ErrInvalid;
  makeIdempotencyKey p normalized.

(** Reserving a key in the pruned store. *)
Definition reserve_key (key : string) (now : time) (s : IdempotencyStore)
    : IdempotencyStore * result error (IdempotencyClaim + list DispatchEvent) :=
  if maxEntries s <=? Z.of_nat (size (entries s)) then (s, Err ErrIdempotencyCapacity)
  else (set_entries (<[key := mkIdempotencyEntry IdempotencyPending [] (now + ttl s)]> (entries s)) s,
        Ok (inl (mkClaim key false))).

Definition begin_locked (key : string) (now : time) (s0 : IdempotencyStore)
    : IdempotencyStore * result error (IdempotencyClaim + list DispatchEvent) :=
  if closed s0 then (s0, Err ErrClosed)
  else
    let s := pruneLocked now s0 in
    match entries s !! key with
    | Some e =>
        match state e with
        | IdempotencyPending => (s, Err ErrDuplicateMessage)
        | IdempotencyCompleted => (s, Ok (inr (events e)))
        | IdempotencyFailed => reserve_key key now (set_entries (delete key (entries s)) s)
        end
    | None => reserve_key key now s
    end.

Lemma Begin_eq ctx clk p m s :
  Begin ctx clk p m s
  = match ctx with
    | None => (s, Err ErrInvalid)
    | Some c =>
        match c 0%nat with
        | Some e => (s, Err (ErrContext e))
        | None =>
            match request_key p m with
            | Err e => (s, Err e)
            | Ok key => begin_locked key (store_now clk) s
            end
        end
    end.
Proof.
  unfold Begin, request_key, begin_locked, reserve_key. go_unfold.
  destruct ctx as [c|]; [|done]. destruct (c 0%nat); [done|].
  destruct (is_ok (Principal_Validate p)); [|done]. destruct (Normalize m) as [n|]; [|done].
  destruct (negb _); [|done]. destruct (makeIdempotencyKey p n) as [key|]; [|done].
  destruct (closed s); [done|]. cbv zeta.
  destruct (entries (pruneLocked (store_now clk) s) !! key) as [e|]; [destruct (state e)|];
    try done; simpl; by case_match.
Qed.

Lemma request_key_Ok p m key :
  request_key p m = Ok key →
  Principal_Validate p = Ok () ∧ ∃ n, Normalize m = Ok n ∧ key = len_prefixed_all (key_parts p n).
Proof.
  unfold request_key, makeIdempotencyKey. go_unfold.
  destruct (Principal_Validate p) as [[]|]; [|discriminate]. simpl.
  destruct (Normalize m) as [n|]; [|discriminate]. destruct (negb _); [|discriminate].
  intros [= <-]. eauto.
Qed.

(** Equal keys: the same caller, the same conversation and the same message, and for a
    channel the same binding version. *)
Lemma request_key_inj p1 m1 p2 m2 key :
  request_key p1 m1 = Ok key → request_key p2 m2 = Ok key →
  p_kind p1 = p_kind p2 ∧ p_tenantID p1 = p_tenantID p2 ∧ p_appID p1 = p_appID p2
  ∧ p_subjectID p1 = p_subjectID p2 ∧ m_ExternalMessageID m1 = m_ExternalMessageID m2
  ∧ m_ExternalUserID m1 = m_ExternalUserID m2 ∧ m_ConversationKind m1 = m_ConversationKind m2
  ∧ m_ExternalPeerID m1 = m_ExternalPeerID m2 ∧ m_ExternalChatID m1 = m_ExternalChatID m2
  ∧ m_ExternalThreadID m1 = m_ExternalThreadID m2.
Proof.
  assert (∀ m n, Normalize m = Ok n →
    (m_ExternalMessageID n, m_ExternalUserID n, m_ConversationKind n, m_ExternalPeerID n,
     m_ExternalChatID n, m_ExternalThreadID n)
    = (m_ExternalMessageID m, m_ExternalUserID m, m_ConversationKind m, m_ExternalPeerID m,
       m_ExternalChatID m, m_ExternalThreadID m)) as Hnorm.
  { intros m n. unfold Normalize. go_unfold. repeat (case_match; try discriminate).
    all: intros [= <-]; done. }
  intros (_ & n1 & Hn1 & ->)%request_key_Ok (_ & n2 & Hn2 & Heq)%request_key_Ok.
  apply len_prefixed_all_inj in Heq. apply Hnorm in Hn1. apply Hnorm in Hn2.
  unfold key_parts in Heq. cbn [app] in Heq. injection Heq as ?????????? _.
  injection Hn1 as ??????. injection Hn2 as ??????. split_and!; congruence.
Qed.

(** * The idempotency store under use *)

Inductive idempotency_op :=
| IBegin (ctx : context) (clk : clock) (p : Principal) (m : InboundMessage)
| IComplete (evs : list DispatchEvent) (clk : clock) (claim : IdempotencyClaim)
| IFail (clk : clock) (claim : IdempotencyClaim)
| IClose.

Definition idempotency_exec (o : idempotency_op) (s : IdempotencyStore) : IdempotencyStore :=
  match o with
  | IBegin ctx clk p m => (Begin ctx clk p m s).1
  | IComplete evs clk claim => (Complete evs clk claim s).1
  | IFail clk claim => (Fail_ clk claim s).1
  | IClose => Idempotency_Close s
  end.
Definition idempotency_run (os : list idempotency_op) (s : IdempotencyStore) : IdempotencyStore :=
  foldl (λ s o, idempotency_exec o s) s os.

Definition op_time (o : idempotency_op) : option Z :=
  match o with
  | IBegin _ clk _ _ | IComplete _ clk _ | IFail clk _ => Some (store_now clk)
  | IClose => None
  end.
Definition during (a b : Z) (o : idempotency_op) : Prop :=
  match op_time o with Some t => a ≤ t < b | None => True end.
(** The operation reports no failure under [key]. *)
Definition no_failure (key : string) (o : idempotency_op) : Prop :=
  match o with IFail _ claim => claim_key claim ≠ key | _ => True end.
(** The operation does not settle [key] and does not close the store. *)
Definition no_settle (key : string) (o : idempotency_op) : Prop :=
  match o with
  | IComplete _ _ claim | IFail _ claim => claim_key claim ≠ key
  | IClose => False
  | IBegin _ _ _ _ => True
  end.
Definition stays_open (o : idempotency_op) : Prop := match o with IClose => False | _ => True end.

(** The key is taken, and stays so until [until] unless a failure is reported. *)
Definition taken (key : string) (until : Z) (s : IdempotencyStore) : Prop :=
  closed s = true ∨ ∃ e, entries s !! key = Some e ∧ state e ≠ IdempotencyFailed ∧ until ≤ expiresAt e.

Lemma prune_lookup now s key e :
  entries (pruneLocked now s) !! key = Some e ↔ entries s !! key = Some e ∧ now < expiresAt e.
Proof.
  cbn. rewrite map_lookup_filter_Some. unfold live, before. cbn. by rewrite Z.ltb_lt.
Qed.

(** What an operation does to a live entry. *)
Lemma begin_keeps key' now s key e :
  closed s = false → entries s !! key = Some e → now < expiresAt e →
  (key = key' → state e ≠ IdempotencyFailed) →
  entries (begin_locked key' now s).1 !! key = Some e ∧ closed (begin_locked key' now s).1 = false
  ∧ ttl (begin_locked key' now s).1 = ttl s.
Proof.
  intros Hcl He Hnow Hf. unfold begin_locked. rewrite Hcl. cbv zeta.
  assert (entries (pruneLocked now s) !! key = Some e) as Hp by (by apply prune_lookup).
  destruct (decide (key = key')) as [<-|Hne].
  - rewrite Hp. specialize (Hf eq_refl). by destruct (state e).
  - assert (∀ s1, closed s1 = false → ttl s1 = ttl s → entries s1 !! key = Some e →
      entries (reserve_key key' now s1).1 !! key = Some e
      ∧ closed (reserve_key key' now s1).1 = false ∧ ttl (reserve_key key' now s1).1 = ttl s) as Hr.
    { intros s1 Hc1 Ht1 H1. unfold reserve_key. case_match; [done|]. cbn.
      by rewrite lookup_insert_ne. }
    destruct (entries (pruneLocked now s) !! key') as [e'|]; [destruct (state e')|]; try done.
    + apply Hr; [done..|]. cbn. by rewrite lookup_delete_ne.
    + by apply Hr.
Qed.

Lemma Begin_keeps ctx clk p m s key e :
  closed s = false → entries s !! key = Some e → store_now clk < expiresAt e →
  (request_key p m = Ok key → state e ≠ IdempotencyFailed) →
  entries (Begin ctx clk p m s).1 !! key = Some e ∧ closed (Begin ctx clk p m s).1 = false
  ∧ ttl (Begin ctx clk p m s).1 = ttl s.
Proof.
  intros Hcl He Hnow Hf. rewrite Begin_eq. destruct ctx as [c|]; [|done]. destruct (c 0%nat); [done|].
  destruct (request_key p m) as [key'|]; [|done]. apply begin_keeps; try done.
  intros <-. by apply Hf.
Qed.

Lemma settle_ttl next evs clk claim s :
  ttl (settle next evs clk claim s).1 = ttl s ∧ closed (settle next evs clk claim s).1 = closed s.
Proof. unfold settle. destruct (claim_done claim); [done|]. cbn. by repeat case_match. Qed.

Lemma settle_other next evs clk claim s key :
  claim_key claim ≠ key → entries (settle next evs clk claim s).1 !! key = entries s !! key.
Proof.
  intros Hne. unfold settle. destruct (claim_done claim); [done|]. cbn.
  repeat case_match; try done. cbn. by rewrite lookup_insert_ne.
Qed.

Lemma Begin_closed ctx clk p m s : closed s = true → (Begin ctx clk p m s).1 = s.
Proof.
  intros Hc. rewrite Begin_eq. destruct ctx as [c|]; [|done]. destruct (c 0%nat); [done|].
  destruct (request_key p m); [|done]. unfold begin_locked. by rewrite Hc.
Qed.

Lemma taken_step key t0 T o s :
  taken key (t0 + T) s → ttl s = T → during t0 (t0 + T) o → no_failure key o →
  taken key (t0 + T) (idempotency_exec o s) ∧ ttl (idempotency_exec o s) = T.
Proof.
  intros Htk Httl Hd Hnf. destruct (closed s) eqn:Hcl.
  { assert (closed (idempotency_exec o s) = true ∧ ttl (idempotency_exec o s) = ttl s) as [Hc Ht].
    { destruct o; cbn; [by rewrite Begin_closed|..]; try done; unfold Complete, Fail_;
        destruct (settle_ttl IdempotencyCompleted evs clk claim s)
        || destruct (settle_ttl IdempotencyFailed [] clk claim s); by split; congruence. }
    split; [by left|congruence]. }
  destruct Htk as [?|(e & He & Hst & Hexp)]; [congruence|].
  destruct o as [ctx clk p m|evs clk claim|clk claim|]; cbn in *.
  - destruct (Begin_keeps ctx clk p m s key e Hcl He) as (? & _ & ->); [lia|done|].
    split; [right; eauto|done].
  - destruct (settle_ttl IdempotencyCompleted evs clk claim s) as [Ht _]. unfold Complete.
    split; [|congruence]. right. destruct (decide (claim_key claim = key)) as [<-|Hne].
    + unfold settle. destruct (claim_done claim); [by eauto|]. rewrite He. cbn.
      case_bool_decide; [|by eauto]. cbn. rewrite lookup_insert_eq.
      eexists. split; [done|]. cbn. split; [done|]. unfold add_duration. lia.
    + rewrite settle_other by done. eauto.
  - destruct (settle_ttl IdempotencyFailed [] clk claim s) as [Ht _]. unfold Fail_.
    split; [|congruence]. right. rewrite settle_other by done. eauto.
  - split; [by left|done].
Qed.

Lemma taken_run key t0 T os s :
  taken key (t0 + T) s → ttl s = T → Forall (during t0 (t0 + T)) os → Forall (no_failure key) os →
  taken key (t0 + T) (idempotency_run os s).
Proof.
  revert s. induction os as [|o os IH]; intros s Htk Ht Hd Hn; [done|].
  inversion Hd; inversion Hn; subst. destruct (taken_step key t0 (ttl s) o s) as [? ?]; try done.
  simpl. apply IH; try done. 
Qed.

(** While the key is only begun, its pending entry stays as it is. *)
Lemma pending_run key t0 T os s e :
  closed s = false → ttl s = T → entries s !! key = Some e → state e ≠ IdempotencyFailed →
  t0 + T ≤ expiresAt e → Forall (during t0 (t0 + T)) os → Forall (no_settle key) os →
  closed (idempotency_run os s) = false ∧ ttl (idempotency_run os s) = T
  ∧ entries (idempotency_run os s) !! key = Some e.
Proof.
  intros Hcl Ht He Hst Hexp Hd Hq. revert s Hcl Ht He.
  induction os as [|o os IH]; intros s Hcl Ht He; [done|]. inversion Hd; inversion Hq; subst.
  simpl. apply IH; try done; destruct o as [ctx clk p m|evs clk claim|clk claim|]; cbn in *; try done;
    unfold Complete, Fail_; rewrite ?settle_other by done; try done;
    try (destruct (Begin_keeps ctx clk p m s key e Hcl He) as (? & ? & ?); (done || lia));
    (destruct (settle_ttl IdempotencyCompleted evs clk claim s)
     || destruct (settle_ttl IdempotencyFailed [] clk claim s)); congruence.
Qed.

(** A completed entry is not changed by later settlements. *)
Lemma completed_run key until os s e t0 :
  closed s = false → entries s !! key = Some e → state e = IdempotencyCompleted →
  until ≤ expiresAt e → Forall (during t0 until) os → Forall stays_open os →
  closed (idempotency_run os s) = false ∧ entries (idempotency_run os s) !! key = Some e.
Proof.
  intros Hcl He Hst Hexp Hd Hq. revert s Hcl He.
  assert (∀ next evs clk claim s, entries s !! key = Some e →
    entries (settle next evs clk claim s).1 !! key = Some e) as Hsettle.
  { intros next evs clk claim s He. destruct (decide (claim_key claim = key)) as [<-|Hne].
    - unfold settle. destruct (claim_done claim); [done|]. rewrite He, Hst. by rewrite bool_decide_eq_false_2.
    - by rewrite settle_other. }
  induction os as [|o os IH]; intros s Hcl He; [done|]. inversion Hd; inversion Hq; subst.
  simpl. apply IH; try done; destruct o as [ctx clk p m|evs clk claim|clk claim|]; cbn in *; try done;
    unfold Complete, Fail_; try (by apply Hsettle);
    try (destruct (Begin_keeps ctx clk p m s key e Hcl He) as (? & ? & ?); (done || lia || congruence));
    (destruct (settle_ttl IdempotencyCompleted evs clk claim s)
     || destruct (settle_ttl IdempotencyFailed [] clk claim s)); congruence.
Qed.

(** A new claim: the key is pending, and the store is within its capacity. *)
Lemma Begin_claim ctx clk p m s s1 claim :
  Begin ctx clk p m s = (s1, Ok (inl claim)) →
  request_key p m = Ok (claim_key claim) ∧ claim_done claim = false ∧ closed s1 = false
  ∧ ttl s1 = ttl s ∧ Z.of_nat (size (entries s1)) ≤ maxEntries s
  ∧ entries s1 !! claim_key claim
    = Some (mkIdempotencyEntry IdempotencyPending [] (store_now clk + ttl s)).
Proof.
  rewrite Begin_eq. destruct ctx as [c|]; [|discriminate]. destruct (c 0%nat); [discriminate|].
  destruct (request_key p m) as [key|]; [|discriminate]. unfold begin_locked.
  destruct (closed s) eqn:Hcl; [discriminate|]. cbv zeta.
  assert (∀ s2, closed s2 = false → ttl s2 = ttl s → maxEntries s2 = maxEntries s →
    reserve_key key (store_now clk) s2 = (s1, Ok (inl claim)) →
    Ok (A:=string) (E:=error) key = Ok (claim_key claim) ∧ claim_done claim = false ∧ closed s1 = false ∧ ttl s1 = ttl s
    ∧ Z.of_nat (size (entries s1)) ≤ maxEntries s
    ∧ entries s1 !! claim_key claim
      = Some (mkIdempotencyEntry IdempotencyPending [] (store_now clk + ttl s))) as Hres.
  { intros s2 Hc2 Ht2 Hm2. unfold reserve_key. rewrite Ht2, Hm2.
    destruct (Z.leb_spec (maxEntries s) (Z.of_nat (size (entries s2)))); [discriminate|].
    intros [= <- <-]. cbn. rewrite lookup_insert_eq. split_and!; try done.
    rewrite map_size_insert. case_match; cbn; lia. }
  destruct (entries (pruneLocked _ s) !! key) as [e|]; [destruct (state e)|]; try discriminate;
    by apply Hres.
Qed.

(** What [Begin] leaves in the store: old entries, and the new claim. *)
Lemma Begin_entries ctx clk p m s s' r key e :
  Begin ctx clk p m s = (s', r) → entries s' !! key = Some e →
  entries s !! key = Some e ∨ (∃ claim, r = Ok (inl claim) ∧ claim_key claim = key ∧ claim_done claim = false).
Proof.
  rewrite Begin_eq. destruct ctx as [c|]; [|intros [= <- <-]; auto]. destruct (c 0%nat); [intros [= <- <-]; auto|].
  destruct (request_key p m) as [k|]; [|intros [= <- <-]; auto]. unfold begin_locked.
  destruct (closed s); [intros [= <- <-]; auto|]. cbv zeta.
  set (s1 := pruneLocked (store_now clk) s).
  assert (∀ e', entries s1 !! key = Some e' → entries s !! key = Some e') as Hp
    by (intros e' [? _]%prune_lookup; done).
  assert (∀ s2, (∀ e', entries s2 !! key = Some e' → entries s !! key = Some e') →
    reserve_key k (store_now clk) s2 = (s', r) → entries s' !! key = Some e →
    entries s !! key = Some e ∨ (∃ claim, r = Ok (inl claim) ∧ claim_key claim = key ∧ claim_done claim = false)) as Hr.
  { intros s2 H2. unfold reserve_key. case_match; intros [= <- <-]; cbn; [auto|].
    destruct (decide (k = key)) as [<-|]; [by right; exists (mkClaim k false)|].
    rewrite lookup_insert_ne by done. auto. }
  destruct (entries s1 !! k) as [e1|]; [destruct (state e1)|]; try (intros [= <- <-]; auto); [|by apply Hr].
  apply Hr. intros e'. cbn. rewrite lookup_delete_Some. naive_solver.
Qed.

Lemma Begin_claim_fresh ctx clk p m s s' claim :
  Begin ctx clk p m s = (s', Ok (inl claim)) → claim_done claim = false.
Proof. by intros (_ & ? & _)%Begin_claim. Qed.

Lemma new_store_empty c i : NewIdempotencyStore c = Ok i → entries i = ∅ ∧ closed i = false.
Proof. unfold NewIdempotencyStore. repeat case_match; try discriminate; by intros [= <-]. Qed.

(** A settled key is not pending. *)
Lemma settle_settles next evs clk claim s e :
  next ≠ IdempotencyPending → claim_done claim = false → entries (settle next evs clk claim s).1 !! claim_key claim = Some e →
  state e ≠ IdempotencyPending.
Proof.
  intros Hn Hd. unfold settle. rewrite Hd. cbn. destruct (entries s !! claim_key claim) as [e'|] eqn:He; [|by rewrite He].
  case_bool_decide; [cbn; rewrite lookup_insert_eq; by intros [= <-]|rewrite He; by intros [= <-]].
Qed.

(** C14: a message is executed once.  A claim is granted under a key that identifies
    caller, conversation and message, within the capacity of the store.  Until the TTL
    has passed, and unless a failure is reported under that key, no other claim is
    granted for it, whatever begins and settlements happen; and once the claim is
    completed, every repetition within the TTL gets exactly the completed events. *)
Theorem idempotent_execution ctx clk p m s s1 claim :
  Begin ctx clk p m s = (s1, Ok (inl claim)) →
  let key := claim_key claim in
  let t0 := store_now clk in
  Z.of_nat (size (entries s1)) ≤ maxEntries s
  ∧ (∀ os ctx' clk' p' m' claim', Forall (during t0 (t0 + ttl s)) os → Forall (no_failure key) os →
       store_now clk' < t0 + ttl s → request_key p' m' = Ok key →
       (Begin ctx' clk' p' m' (idempotency_run os s1)).2 ≠ Ok (inl claim'))
  ∧ (∀ os1 evs clk2 os2 clk' p' m',
       Forall (during t0 (t0 + ttl s)) os1 → Forall (no_settle key) os1 →
       let s2 := (Complete evs clk2 claim (idempotency_run os1 s1)).1 in
       let until := store_now clk2 + ttl s in
       Forall (during t0 until) os2 → Forall stays_open os2 → store_now clk' < until →
       request_key p' m' = Ok key →
       (Begin background clk' p' m' (idempotency_run os2 s2)).2 = Ok (inr evs)
       ∧ p_tenantID p' = p_tenantID p ∧ m_ExternalMessageID m' = m_ExternalMessageID m).
Proof.
  intros (Hkey & Hdone & Hcl & Ht & Hsize & He)%Begin_claim key t0. split_and!; [done|..].
  - intros os ctx' clk' p' m' claim' Hd Hn Hnow Hk. rewrite Begin_eq. destruct ctx' as [c|]; [|done].
    destruct (c 0%nat); [done|]. rewrite Hk. unfold begin_locked.
    assert (taken key (t0 + ttl s) (idempotency_run os s1)) as [Hc|(e & He' & Hst & Hexp)].
    { apply taken_run; try done. right. eexists. split; [done|]. cbn. split; [done|lia]. }
    { by rewrite Hc. }
    destruct (closed (idempotency_run os s1)); [done|]. cbv zeta.
    rewrite (proj2 (prune_lookup (store_now clk') _ key e)) by (split; [done|lia]).
    destruct (state e); cbn [snd]; [congruence..|done].
  - intros os1 evs clk2 os2 clk' p' m' Hd1 Hq1 s2 until Hd2 Hq2 Hnow Hk.
    destruct (pending_run key t0 (ttl s) os1 s1 _ Hcl Ht He) as (Hc1 & Ht1 & He1); try done.
    set (e2 := mkIdempotencyEntry IdempotencyCompleted evs until).
    assert (entries s2 !! key = Some e2 ∧ closed s2 = false) as [He2 Hc2].
    { unfold s2, Complete. split; [|by rewrite (proj2 (settle_ttl _ _ _ _ _))].
      unfold settle. rewrite Hdone. fold key. rewrite He1. cbn [state]. rewrite bool_decide_eq_true_2 by done. cbn. rewrite lookup_insert_eq.
      unfold e2, until, add_duration. by rewrite Ht1. }
    destruct (completed_run key until os2 s2 e2 t0 Hc2 He2) as [Hc3 He3]; try done.
    split.
    + rewrite Begin_eq. cbn [background]. rewrite Hk. unfold begin_locked. rewrite Hc3. cbv zeta.
      by rewrite (proj2 (prune_lookup (store_now clk') _ key e2)) by (split; [done|]; cbn; lia).
    + destruct (request_key_inj _ _ _ _ _ Hk Hkey) as (_ & ? & _ & _ & ? & _). done.
Qed.

(** * Witnesses *)

Definition ex_limiter_config : TenantLimiterConfig := mkLimiterConfig 1 1 0.
Definition ex_limiter : TenantLimiter := mkLimiter 1 1 minute ∅ false.
Definition ex_acquire (t : Z) : limiter_op := LAcquire background (λ _, t) ex_tenant_id.
Definition ex_limiter_ops : list limiter_op := [ex_acquire 5; LRelease 0; ex_acquire 6].

Lemma limiter_bounds_witness :
  let w := limiter_run ex_limiter_ops (mkLimiterWorld ex_limiter [] []) in
  lw_admitted w = [(ex_tenant_id, 5)]
  ∧ (∀ t, outstanding t (lw_leases w) ≤ 1)
  ∧ (Acquire background (λ _, 5 + minute) ex_tenant_id (lw_limiter w)).2
    = Ok (mkLimitLease ex_tenant_id false).
Proof.
  split; [vm_compute; reflexivity|].
  destruct (limiter_bounds ex_limiter_config ex_limiter ex_limiter_ops 0 eq_refl) as [H1 H2].
  split; [exact H1|].
  assert (monotone 0 ex_limiter_ops) as Hm by (vm_compute; repeat split; discriminate).
  destruct (H2 Hm) as [_ H3]. refine (H3 ex_tenant_id (λ _, 5 + minute) _ _ _ _).
  - vm_compute. reflexivity.
  - vm_compute. reflexivity.
  - vm_compute. reflexivity.
  - assert (lw_admitted (limiter_run ex_limiter_ops (mkLimiterWorld ex_limiter [] []))
      = [(ex_tenant_id, 5)]) as -> by (vm_compute; reflexivity).
    intros x ->%list_elem_of_singleton _. vm_compute. discriminate.
Defined.

Definition ex_api : APIIdentity := mkAPIIdentity ex_tenant_id ex_app_id "robot".
Definition ex_principal : Principal :=
  mkPrincipal PrincipalAPI ex_tenant_id ex_app_id "robot" (Some ex_api) zero_target.
Definition ex_inbound : InboundMessage :=
  mkMessage " hello " "" "m-1" "alice" ConversationDirect "alice" "" "".
Definition ex_store : IdempotencyStore := mkIdempotencyStore 100 2 ∅ false.
Definition ex_at (t : Z) : clock := λ _, t.
Notation ex_begun t s := (Begin background (ex_at t) ex_principal ex_inbound s) (only parsing).
Definition ex_key : string :=
  match request_key ex_principal ex_inbound with Ok key => key | Err _ => "" end.
Definition ex_claim : IdempotencyClaim := mkClaim ex_key false.
Definition ex_events : list DispatchEvent := [mkDispatchEvent "done" "r" "" "hi" "" "" true].

Lemma idempotent_execution_witness :
  (ex_begun 9 (Complete ex_events (ex_at 8) ex_claim (ex_begun 7 ex_store).1).1).2 = Ok (inr ex_events).
Proof.
  assert (ex_begun 7 ex_store = ((ex_begun 7 ex_store).1, Ok (inl ex_claim))) as Hb.
  { assert ((ex_begun 7 ex_store).2 = Ok (inl ex_claim)) as Hr by (vm_compute; reflexivity).
    rewrite <- Hr. apply surjective_pairing. }
  pose proof (idempotent_execution _ _ _ _ _ _ _ Hb) as (_ & _ & H).
  refine (proj1 (H [] ex_events (ex_at 8) [] (ex_at 9) ex_principal ex_inbound
    (Forall_nil_2 _) (Forall_nil_2 _) (Forall_nil_2 _) (Forall_nil_2 _) _ _)).
  - vm_compute. reflexivity.
  - vm_compute. reflexivity.
Defined.

(** A claim carries no identity beyond its key.  After the TTL the key can be claimed
    again while the first execution still runs; when that first execution then reports
    its failure, it fails the entry of the second claim, and a third one is granted
    while the second is running. *)
Example stale_claim_fails_newer :
  let s1 := (ex_begun 7 ex_store).1 in
  let s2 := (ex_begun 200 s1).1 in
  let s3 := (Fail_ (ex_at 201) ex_claim s2).1 in
  (ex_begun 7 ex_store).2 = Ok (inl ex_claim) ∧ (ex_begun 200 s1).2 = Ok (inl ex_claim)
  ∧ (ex_begun 202 s3).2 = Ok (inl ex_claim).
Proof. vm_compute. by split_and!. Qed.
