(* ===== verification/Plan.v ===== *)
(** Execution plans: [trpcservice/runtime/plan.go] composes the snapshots of a tenant, an agent
    revision, a model profile and a backend profile; [trpcservice/gateway/resolver.go] looks
    them up for an authenticated principal.

    The resolver sees the four repositories through their interfaces, so they are functions
    here, [Scoped] is what their contracts promise, and the in-memory repositories are shown to
    keep the promise.  Each repository is asked once, at its own time; a call that returns an
    error or nil answers [None], as the resolver treats both alike. *)
From Stdlib Require Import Ascii String.
From Corelib Require Import SpecFloat.
From S2P Require Import Prelude GoStrings GoURL GoIP Sha256.
From S2P Require Import Tenant Agent AgentRevision AgentRepository AgentRuntime.
From S2P Require Import ModelProfile ModelRepository ModelRuntime.
From S2P Require Import BackendProfile BackendRepository BackendRuntime Gateway ProfileStore.
Local Open Scope Z_scope.

(** * Plans *)

Record CacheKey := mkPlanKey {
  k_TenantID : string; k_TenantVersion : Z; k_AppID : string; k_AppVersion : Z; k_Revision : Z;
  k_AgentContentDigest : string; k_ModelProfileID : string; k_ModelProfileVersion : Z;
  k_ModelContentDigest : string; k_BackendProfileID : string; k_BackendProfileVersion : Z;
  k_BackendContentDigest : string }.

Record ExecutionPlan := mkPlan {
  plan_tenant : option Tenant;
  plan_agent : AgentExecutionSnapshot;
  plan_model : ModelExecutionSnapshot;
  plan_backend : BackendExecutionSnapshot }.
Definition zero_plan : ExecutionPlan :=
  mkPlan None AgentRuntime.zero_snapshot ModelRuntime.zero_snapshot BackendRuntime.zero_snapshot.

(** Errors of a plan: its own, or the wrapped error of a snapshot. *)
Inductive plan_error :=
| PlanInvalid
| PlanAgent (e : Agent.error)
| PlanModel (e : ModelProfile.error)
| PlanBackend (e : BackendProfile.error).

Definition wrap {E A} (f : E → plan_error) (r : result E A) : result plan_error A :=
  match r with Ok a => Ok a | Err e => Err (f e) end.

Definition same_app (app : option App) (revision : option Revision) : bool :=
  match app, revision with Some a, Some r => (AppID a =? rv_AppID r)%string | _, _ => true end.

Definition NewExecutionPlan (tenantSnapshot : option Tenant) (app : option App) (revision : option Revision)
    (modelProfile : option ModelProfile.Profile) (modelCatalog : option ModelProfile.ProviderCatalog)
    (backendProfile : option BackendProfile.Profile) (backendCatalog : option BackendProfile.ProviderCatalog)
    : result plan_error ExecutionPlan :=
  let tenantValue := snapshot_Tenant tenantSnapshot in
  if negb (is_ok (Tenant.Validate tenantValue)) then Err PlanInvalid
  else if negb (Tenant.CanAcceptExecution tenantValue) then Err PlanInvalid
  else if negb (same_app app revision) then Err PlanInvalid
  else
    agentSnapshot ← wrap PlanAgent (NewAgentExecutionSnapshot tenantSnapshot app revision);
    modelSnapshot ← wrap PlanModel (NewModelExecutionSnapshot tenantSnapshot modelProfile modelCatalog);
    backendSnapshot ← wrap PlanBackend (NewBackendExecutionSnapshot tenantSnapshot backendProfile backendCatalog);
    match revision, modelProfile with
    | Some r, Some m =>
        if negb (dc_ModelProfileID (AgentRevision.Configuration r) =? mp_ProfileID m)%string then Err PlanInvalid
        else Ok (mkPlan (Some tenantValue) agentSnapshot modelSnapshot backendSnapshot)
    | _, _ => Err PlanInvalid
    end.

Definition plan_Tenant (plan : ExecutionPlan) : Tenant := default zero_tenant (plan_tenant plan).

Definition plan_validate (plan : ExecutionPlan) : result plan_error unit :=
  match plan_tenant plan with
  | None => Err PlanInvalid
  | Some t =>
      if negb (is_ok (Tenant.Validate t)) || negb (Tenant.CanAcceptExecution t) then Err PlanInvalid
      else
        _ ← wrap PlanAgent (AgentRuntime.FactoryInput (plan_agent plan));
        _ ← wrap PlanModel (ModelRuntime.FactoryInput (plan_model plan));
        _ ← wrap PlanBackend (BackendRuntime.FactoryInput (plan_backend plan));
        Ok ()
  end.

Definition plan_CacheKey (plan : ExecutionPlan) : result plan_error CacheKey :=
  _ ← plan_validate plan;
  agentKey ← wrap PlanAgent (AgentRuntime.CacheKey (plan_agent plan));
  modelKey ← wrap PlanModel (ModelRuntime.CacheKey (plan_model plan));
  backendKey ← wrap PlanBackend (BackendRuntime.CacheKey (plan_backend plan));
  let t := plan_Tenant plan in
  Ok (mkPlanKey (Tenant.TenantID t) (Tenant.Version t) (AgentRuntime.fk_AppID agentKey) (AgentRuntime.fk_AppVersion agentKey)
        (AgentRuntime.fk_Revision agentKey) (AgentRuntime.fk_ContentDigest agentKey)
        (ModelRuntime.fk_ProfileID modelKey) (ModelRuntime.fk_ProfileVersion modelKey)
        (ModelRuntime.fk_ContentDigest modelKey) (BackendRuntime.fk_ProfileID backendKey)
        (BackendRuntime.fk_ProfileVersion backendKey) (BackendRuntime.fk_ContentDigest backendKey)).

Definition AgentFactoryInput (plan : ExecutionPlan) : result plan_error LLMAgentFactoryInput :=
  _ ← plan_validate plan;
  wrap PlanAgent (AgentRuntime.FactoryInput (plan_agent plan)).
Definition plan_ModelFactoryInput (plan : ExecutionPlan) : result plan_error ModelFactoryInput :=
  _ ← plan_validate plan;
  wrap PlanModel (ModelRuntime.FactoryInput (plan_model plan)).
Definition plan_StorageFactoryInput (plan : ExecutionPlan) : result plan_error StorageFactoryInput :=
  _ ← plan_validate plan;
  wrap PlanBackend (BackendRuntime.FactoryInput (plan_backend plan)).

(** The value under the private context key, after and before. *)
Definition WithExecutionPlan (plan : ExecutionPlan) : option ExecutionPlan :=
  match plan_validate plan with Err _ => Some zero_plan | Ok _ => Some plan end.
Definition ExecutionPlanFromContext (value : option ExecutionPlan) : ExecutionPlan * bool :=
  match value with
  | None => (zero_plan, false)
  | Some plan => match plan_validate plan with Err _ => (zero_plan, false) | Ok _ => (plan, true) end
  end.

(** * The resolver *)

Record AppRepository := mkApps {
  apps_Get : string → string → option App;
  apps_GetRevision : string → string → Z → option Revision }.

(** A nil dependency is [None]. *)
Record PlanResolver := mkResolver {
  tenants : option (string → option Tenant);
  apps : option AppRepository;
  models : option (string → string → option ModelProfile.Profile);
  backends : option (string → string → option BackendProfile.Profile);
  modelCatalog : option ModelProfile.ProviderCatalog;
  backendCatalog : option BackendProfile.ProviderCatalog }.

(** The configuration has the same six fields. *)
Definition NewPlanResolver (config : PlanResolver) : result Gateway.error PlanResolver :=
  if opt_is_nil (tenants config) || opt_is_nil (apps config) || opt_is_nil (models config)
    || opt_is_nil (backends config) || opt_is_nil (modelCatalog config) || opt_is_nil (backendCatalog config)
  then Err Gateway.ErrInvalid else Ok config.

Definition Ready (resolver : option PlanResolver) : bool :=
  match resolver with
  | None => false
  | Some r => negb (opt_is_nil (tenants r)) && negb (opt_is_nil (apps r)) && negb (opt_is_nil (models r))
      && negb (opt_is_nil (backends r)) && negb (opt_is_nil (modelCatalog r)) && negb (opt_is_nil (backendCatalog r))
  end.

Record resolvedPlanInputs := mkInputs {
  in_tenant : Tenant; in_app : App; in_revision : Revision; in_model : ModelProfile.Profile;
  in_backend : BackendProfile.Profile }.

(** [ctx.Err()] at the [i]-th observation. *)
Definition observe (ctx : nat → option ctx_error) (i : nat) : result Gateway.error unit :=
  match ctx i with Some e => Err (Gateway.ErrContext e) | None => Ok () end.
Definition planError {A} (ctx : nat → option ctx_error) (i : nat) : result Gateway.error A :=
  match ctx i with Some e => Err (Gateway.ErrContext e) | None => Err ErrPlanUnavailable end.

(** The answer of a repository, or the error of the resolver. *)
Definition found {A} (ctx : nat → option ctx_error) (i : nat) (answer : option A) : result Gateway.error A :=
  match answer with None => planError ctx i | Some a => Ok a end.

Definition current_revision (app : option App) : option (App * Z) :=
  match app with
  | Some a => match CurrentRevision a with Some n => Some (a, n) | None => None end
  | None => None
  end.

(** Calls on a dependency that is nil do not happen: the resolver is ready. *)
Definition get_tenant (r : PlanResolver) (id : string) : option Tenant := tenants r ≫= λ f, f id.
Definition get_app (r : PlanResolver) (t id : string) : option App := apps r ≫= λ f, apps_Get f t id.
Definition get_revision (r : PlanResolver) (t id : string) (n : Z) : option Revision :=
  apps r ≫= λ f, apps_GetRevision f t id n.
Definition get_model (r : PlanResolver) (t id : string) : option ModelProfile.Profile := models r ≫= λ f, f t id.
Definition get_backend (r : PlanResolver) (t id : string) : option BackendProfile.Profile := backends r ≫= λ f, f t id.

Definition resolveInputs (r : PlanResolver) (ctx : nat → option ctx_error) (principal : Principal)
    : result Gateway.error resolvedPlanInputs :=
  let tenantID := p_tenantID principal in
  let appID := p_appID principal in
  tenantValue ← found ctx 1 (get_tenant r tenantID);
  _ ← observe ctx 1;
  tenantSnapshot ← match NewConfigurationSnapshot (Some tenantValue) with
                   | Err _ => Err ErrPlanUnavailable
                   | Ok t => Ok t
                   end;
  '(appValue, current) ← found ctx 2 (current_revision (get_app r tenantID appID));
  _ ← observe ctx 2;
  let selectedRevision := match CanaryRevision appValue with Some canary => canary | None => current end in
  revisionValue ← found ctx 3 (get_revision r tenantID appID selectedRevision);
  modelValue ← found ctx 4 (get_model r tenantID (dc_ModelProfileID (AgentRevision.Configuration revisionValue)));
  _ ← observe ctx 4;
  match c_DefaultBackendProfileID (TConfig tenantValue) with
  | None => Err ErrPlanUnavailable
  | Some profileID =>
      backendValue ← found ctx 5 (get_backend r tenantID profileID);
      _ ← observe ctx 5;
      Ok (mkInputs tenantSnapshot appValue revisionValue modelValue backendValue)
  end.

Definition Resolve (resolver : option PlanResolver) (ctx : context) (principal : Principal)
    : result Gateway.error ExecutionPlan :=
  match ctx with
  | None => Err Gateway.ErrInvalid
  | Some ctx =>
      _ ← observe ctx 0;
      match resolver with
      | None => Err ErrNotReady
      | Some r =>
          if negb (Ready (Some r)) then Err ErrNotReady
          else match Principal_Validate principal with
          | Err _ => Err ErrUnauthenticated
          | Ok _ =>
              inputs ← resolveInputs r ctx principal;
              match NewExecutionPlan (Some (in_tenant inputs)) (Some (in_app inputs)) (Some (in_revision inputs))
                      (Some (in_model inputs)) (modelCatalog r) (Some (in_backend inputs)) (backendCatalog r) with
              | Err _ => Err ErrPlanUnavailable
              | Ok plan =>
                  match plan_CacheKey plan with
                  | Err _ => Err ErrPlanUnavailable
                  | Ok _ => _ ← observe ctx 6; Ok plan
                  end
              end
          end
      end
  end.

Definition ResolveAuthenticatedAPI (resolver : option PlanResolver) (ctx : context) (authenticated : AuthenticatedAPI)
    : result Gateway.error ExecutionPlan :=
  principal ← newAPIPrincipal authenticated;
  Resolve resolver ctx principal.

Definition IsContextCancellation (e : Gateway.error) : bool :=
  match e with Gateway.ErrContext _ => true | _ => false end.

#[global] Arguments NewExecutionPlan : simpl never.
#[global] Arguments plan_validate : simpl never.

(** * What an accepted plan consists of *)

(** The objects of a plan, all accepting executions, of one tenant, and selected by each other. *)
Record composed (mc : ModelProfile.ProviderCatalog) (bc : BackendProfile.ProviderCatalog)
    (t : Tenant) (a : App) (v : Revision) (m : ModelProfile.Profile) (b : BackendProfile.Profile) : Prop := {
  comp_agent : AgentRuntime.validateExecutionState t (Some a) (Some v) = Ok ();
  comp_model : ModelRuntime.validateExecutionState t (Some m) (Some mc) = Ok ();
  comp_backend : BackendRuntime.validateExecutionState t (Some b) (Some bc) = Ok ();
  comp_reference : dc_ModelProfileID (AgentRevision.Configuration v) = mp_ProfileID m }.

Definition plan_of (mc : ModelProfile.ProviderCatalog) (bc : BackendProfile.ProviderCatalog)
    (t : Tenant) (a : App) (v : Revision) (m : ModelProfile.Profile) (b : BackendProfile.Profile) : ExecutionPlan :=
  mkPlan (Some t) (mkSnapshot (Some t) (Some a) (Some v)) (mkModelSnapshot (Some t) (Some m) (Some mc))
    (mkBackendSnapshot (Some t) (Some b) (Some bc)).

Definition key_of (t : Tenant) (a : App) (v : Revision) (m : ModelProfile.Profile) (b : BackendProfile.Profile)
    : CacheKey :=
  mkPlanKey (Tenant.TenantID t) (Tenant.Version t) (AppID a) (Agent.Version a) (rv_Revision v)
    (ContentDigest v) (mp_ProfileID m) (mp_Version m) (mp_ContentDigest m) (bp_ProfileID b)
    (bp_Version b) (bp_ContentDigest b).

Lemma NewExecutionPlan_iff t a v m mc b bc plan :
  NewExecutionPlan (Some t) (Some a) (Some v) (Some m) (Some mc) (Some b) (Some bc) = Ok plan ↔
  composed mc bc t a v m b ∧ plan = plan_of mc bc t a v m b.
Proof.
  unfold NewExecutionPlan, NewAgentExecutionSnapshot, NewModelExecutionSnapshot, NewBackendExecutionSnapshot.
  change (snapshot_Tenant (Some t)) with t. unfold same_app. go_unfold. split.
  - destruct (Tenant.Validate t) as [[]|]; [|done]. destruct (Tenant.CanAcceptExecution t); [|done]. cbn [is_ok negb].
    destruct (_ =? _)%string; [|done]. cbn [negb].
    destruct (AgentRuntime.validateExecutionState _ _ _) as [[]|] eqn:E1; [|done]. cbn [wrap].
    destruct (ModelRuntime.validateExecutionState _ _ _) as [[]|] eqn:E2; [|done]. cbn [wrap].
    destruct (BackendRuntime.validateExecutionState _ _ _) as [[]|] eqn:E3; [|done]. cbn [wrap].
    destruct (String.eqb_spec (dc_ModelProfileID (AgentRevision.Configuration v)) (mp_ProfileID m)); [|done].
    intros [= <-]. by split.
  - intros [[E1 E2 E3 ->] ->]. rewrite E1, E2, E3, String.eqb_refl.
    apply validateExecutionState_Ok in E1 as (-> & -> & _ & _ & _ & _ & _ & Hs & _).
    injection Hs as _ ->. by rewrite String.eqb_refl.
Qed.

Lemma plan_of_valid mc bc t a v m b :
  composed mc bc t a v m b → plan_validate (plan_of mc bc t a v m b) = Ok ().
Proof.
  intros [E1 E2 E3 _]. pose proof E1 as (Ht & Ha & _)%validateExecutionState_Ok.
  unfold plan_validate, plan_of. cbn [plan_tenant plan_agent plan_model plan_backend]. rewrite Ht, Ha. cbn [is_ok negb orb].
  unfold AgentRuntime.FactoryInput, ModelRuntime.FactoryInput, BackendRuntime.FactoryInput,
    AgentRuntime.snapshot_validate, ModelRuntime.snapshot_validate, BackendRuntime.snapshot_validate.
  cbn [sn_tenant sn_app sn_revision ms_tenant ms_profile ms_catalog bs_tenant bs_profile bs_catalog].
  go_unfold. by rewrite E1, E2, E3.
Qed.

Lemma plan_of_key mc bc t a v m b :
  composed mc bc t a v m b → plan_CacheKey (plan_of mc bc t a v m b) = Ok (key_of t a v m b).
Proof.
  intros Hc. unfold plan_CacheKey. go_unfold. rewrite plan_of_valid by done. destruct Hc as [E1 E2 E3 _].
  unfold AgentRuntime.CacheKey, ModelRuntime.CacheKey, BackendRuntime.CacheKey,
    AgentRuntime.snapshot_validate, ModelRuntime.snapshot_validate, BackendRuntime.snapshot_validate, plan_of.
  cbn [sn_tenant sn_app sn_revision ms_tenant ms_profile ms_catalog bs_tenant bs_profile bs_catalog
    plan_agent plan_model plan_backend].
  go_unfold. by rewrite E1, E2, E3.
Qed.

(** * What the repositories promise *)

(** A lookup answers with the object that was asked for. *)
Class Scoped (r : PlanResolver) : Prop := {
  scoped_tenant id t : get_tenant r id = Some t → Tenant.TenantID t = id;
  scoped_app t id a : get_app r t id = Some a → app_scope a = (t, id);
  scoped_revision t id n v : get_revision r t id n = Some v → rv_Revision v = n }.

(** The inputs of a plan, as the resolver found them. *)
Record looked_up (r : PlanResolver) (principal : Principal) (i : resolvedPlanInputs) : Prop := {
  lu_tenant : get_tenant r (p_tenantID principal) = Some (in_tenant i);
  lu_app : get_app r (p_tenantID principal) (p_appID principal) = Some (in_app i);
  lu_revision : ∃ n, CurrentRevision (in_app i) = Some n ∧
    get_revision r (p_tenantID principal) (p_appID principal)
      (match CanaryRevision (in_app i) with Some c => c | None => n end) = Some (in_revision i);
  lu_model : get_model r (p_tenantID principal) (dc_ModelProfileID (AgentRevision.Configuration (in_revision i)))
    = Some (in_model i);
  lu_backend : ∃ id, c_DefaultBackendProfileID (TConfig (in_tenant i)) = Some id ∧
    get_backend r (p_tenantID principal) id = Some (in_backend i) }.

Lemma resolveInputs_Ok r ctx principal i :
  resolveInputs r ctx principal = Ok i → looked_up r principal i.
Proof.
  unfold resolveInputs, found, observe, planError. go_unfold.
  destruct (get_tenant _ _) as [t|] eqn:Et; [|by destruct (ctx 1%nat)]. destruct (ctx 1%nat); [done|].
  destruct (NewConfigurationSnapshot (Some t)) as [t'|] eqn:Es; [|done].
  assert (t' = t) as ->.
  { unfold NewConfigurationSnapshot in Es. go_unfold. destruct (Tenant.Validate t) as [[]|]; [|done].
    by destruct (Tenant.CanAcceptExecution t); simplify_eq/=. }
  destruct (get_app _ _ _) as [a|] eqn:Ea; cbn [current_revision]; [|by destruct (ctx 2%nat)].
  destruct (CurrentRevision a) as [n|] eqn:En; [|by destruct (ctx 2%nat)]. destruct (ctx 2%nat); [done|]. cbv zeta.
  destruct (get_revision _ _ _ _) as [v|] eqn:Ev; [|by destruct (ctx 3%nat)].
  destruct (get_model _ _ _) as [m|] eqn:Em; [|by destruct (ctx 4%nat)]. destruct (ctx 4%nat); [done|].
  destruct (c_DefaultBackendProfileID (TConfig t)) as [id|] eqn:Ed; [|done].
  destruct (get_backend _ _ _) as [b|] eqn:Eb; [|by destruct (ctx 5%nat)]. destruct (ctx 5%nat); [done|].
  intros [= <-]. split; cbn; eauto.
Qed.

(** The only errors of the resolver: a redacted one, or the cancellation of the caller. *)
Definition redacted (ctx : nat → option ctx_error) (e : Gateway.error) : Prop :=
  e = ErrPlanUnavailable ∨ ∃ i c, ctx i = Some c ∧ e = Gateway.ErrContext c.

Lemma observe_error ctx i e : observe ctx i = Err e → redacted ctx e.
Proof. unfold observe. destruct (ctx i) eqn:E; [|done]. intros [= <-]. right. eauto. Qed.

Lemma found_error {A} ctx i (o : option A) e : found ctx i o = Err e → redacted ctx e.
Proof.
  unfold found, planError. destruct o; [done|]. destruct (ctx i) eqn:E; intros [= <-]; [right; eauto|by left].
Qed.

Lemma resolveInputs_error r ctx principal e : resolveInputs r ctx principal = Err e → redacted ctx e.
Proof.
  unfold resolveInputs. go_unfold.
  repeat match goal with
  | |- context [match found ctx ?i ?o with _ => _ end] => destruct (found ctx i o) eqn:?
  | |- context [match observe ctx ?i with _ => _ end] => destruct (observe ctx i) eqn:?
  | |- context [match NewConfigurationSnapshot ?o with _ => _ end] => destruct (NewConfigurationSnapshot o)
  | |- context [match c_DefaultBackendProfileID ?o with _ => _ end] => destruct (c_DefaultBackendProfileID o)
  | p : (App * Z)%type |- _ => destruct p
  end; intros; simplify_eq; try (by left); eauto using observe_error, found_error.
Qed.

(** * Properties *)

(** C22: a resolved plan is composed for its principal: tenant, app, revision and both profiles
    belong to the tenant of the principal, the app is the one of the principal, tenant, app and
    profiles accept executions, the revision is the published one that the app selects, the
    canary where there is one, the model profile is the one the revision refers to and the
    backend profile the default of the tenant; the cache key carries the identity, version and
    digest of each of them; and the plan survives the passage through a context. *)
Theorem resolved_plan_sound r `{!Scoped r} ctx principal plan :
  Resolve (Some r) ctx principal = Ok plan →
  ∃ mc bc t a v m b, plan = plan_of mc bc t a v m b
    ∧ modelCatalog r = Some mc ∧ backendCatalog r = Some bc
    ∧ (Tenant.TenantID t = p_tenantID principal ∧ app_scope a = (p_tenantID principal, p_appID principal)
       ∧ (rv_TenantID v, rv_AppID v) = (p_tenantID principal, p_appID principal)
       ∧ mp_TenantID m = p_tenantID principal ∧ bp_TenantID b = p_tenantID principal)
    ∧ (Tenant.CanAcceptExecution t = true ∧ Agent.CanAcceptExecution a = true ∧ State v = RevisionStatePublished
       ∧ ModelProfile.CanAcceptExecution m = true ∧ BackendProfile.CanAcceptExecution b = true)
    ∧ (revision_Validate v = Ok () ∧ ModelProfile.valid_profile (Some mc) m ∧ BackendProfile.valid_profile (Some bc) b)
    ∧ (∃ n, CurrentRevision a = Some n ∧ rv_Revision v = match CanaryRevision a with Some c => c | None => n end)
    ∧ dc_ModelProfileID (AgentRevision.Configuration v) = mp_ProfileID m
    ∧ c_DefaultBackendProfileID (TConfig t) = Some (bp_ProfileID b)
    ∧ plan_CacheKey plan = Ok (key_of t a v m b)
    ∧ ExecutionPlanFromContext (WithExecutionPlan plan) = (plan, true).
Proof.
  unfold Resolve. destruct ctx as [ctx|]; [|done]. go_unfold. destruct (observe ctx 0); [|done].
  destruct (Ready (Some r)) eqn:Eready; [|done]. cbn [negb]. destruct (Principal_Validate principal); [|done].
  destruct (resolveInputs _ _ _) as [i|] eqn:Ei; [|done]. apply resolveInputs_Ok in Ei as [Ht Ha (n & Hn & Hv) Hm Hb].
  cbn in Eready. bool_prop.
  destruct (modelCatalog r) as [mc|]; [|done]. destruct (backendCatalog r) as [bc|]; [|done].
  destruct (NewExecutionPlan _ _ _ _ _ _ _) as [plan'|] eqn:Ep; [|done]. apply NewExecutionPlan_iff in Ep as [Hc ->].
  destruct (plan_CacheKey _) as [key|] eqn:Ek; [|done]. destruct (observe ctx 6); [|done]. intros [= <-].
  pose proof (plan_of_valid _ _ _ _ _ _ _ Hc) as Hvalid. rewrite (plan_of_key _ _ _ _ _ _ _ Hc) in Ek |- *.
  destruct Hc as [(_ & ? & _ & ? & ? & ? & Et & Es & _)%validateExecutionState_Ok
    (_ & _ & Vm%model_Validate_valid & Em & ?)%model_validateExecutionState_Ok
    (_ & _ & Vb%backend_Validate_valid & Eb & ? & ?)%backend_validateExecutionState_Ok ?].
  apply scoped_tenant in Ht. apply scoped_app in Ha. apply scoped_revision in Hv.
  exists mc, bc, (in_tenant i), (in_app i), (in_revision i), (in_model i), (in_backend i).
  split_and!; try done; try congruence; [by exists n|].
  unfold WithExecutionPlan, ExecutionPlanFromContext. rewrite Hvalid. by rewrite Hvalid.
Qed.

(** The resolver says nothing about other tenants: for a valid principal every failure is
    the one error [ErrPlanUnavailable], whatever is missing, invalid or disabled, unless the
    context of the caller was cancelled. *)
Theorem plan_errors_redacted r ctx principal e :
  Ready (Some r) = true → Principal_Validate principal = Ok () → Resolve (Some r) (Some ctx) principal = Err e →
  e = ErrPlanUnavailable ∨ (IsContextCancellation e = true ∧ ∃ i c, ctx i = Some c ∧ e = Gateway.ErrContext c).
Proof.
  intros Hr Hp. unfold Resolve, observe. go_unfold. rewrite Hr, Hp. cbn [negb].
  destruct (ctx 0%nat) as [c|] eqn:E0; [intros [= <-]; right; split; [done|by exists 0%nat, c]|].
  destruct (resolveInputs _ _ _) as [i|e'] eqn:Ei.
  - destruct (NewExecutionPlan _ _ _ _ _ _ _) as [plan|]; [|intros [= <-]; by left].
    destruct (plan_CacheKey plan); [|intros [= <-]; by left].
    destruct (ctx 6%nat) as [c|] eqn:E6; [|done]. intros [= <-]. right. split; [done|by exists 6%nat, c].
  - intros [= <-]. apply resolveInputs_error in Ei as [->|(i & c & Hc & ->)]; [by left|right]. split; [done|by exists i, c].
Qed.

(** * The in-memory repositories *)

Definition answer {E A} (r : result E A) : option A := match r with Ok a => Some a | Err _ => None end.

(** The operations that the four repositories have executed. *)
Record deployment := mkDeployment {
  d_tenants : list Tenant.op; d_apps : list AgentRepository.op;
  d_models : list ModelRepository.op; d_backends : list BackendRepository.op }.

Definition deployment_ok (d : deployment) : Prop :=
  Z.of_nat (length (d_tenants d)) ≤ int64_max ∧ Forall Tenant.op_ok (d_tenants d)
  ∧ Forall AgentRepository.op_ok (d_apps d).

Section inmemory.
Context (mc : ModelProfile.ProviderCatalog) (bc : BackendProfile.ProviderCatalog) (d : deployment).

Definition tenant_state : Tenant.InMemoryRepository := Tenant.run (d_tenants d) Tenant.NewInMemoryRepository.
Definition app_state : AgentRepository.InMemoryRepository :=
  AgentRepository.run (d_apps d) AgentRepository.NewInMemoryRepository.
Definition model_state : store ModelProfile.Profile :=
  ModelRepository.run (Some mc) (d_models d) ModelRepository.NewInMemoryRepository.
Definition backend_state : store BackendProfile.Profile :=
  BackendRepository.run (Some bc) (d_backends d) BackendRepository.NewInMemoryRepository.

Definition inmemory : PlanResolver :=
  mkResolver
    (Some (λ id, answer (Tenant.Get background id tenant_state).2))
    (Some (mkApps (λ t id, answer (AgentRepository.Get (λ _, None) t id app_state).2)
                  (λ t id n, answer (AgentRepository.GetRevision (λ _, None) t id n app_state).2)))
    (Some (λ t id, answer (ModelRepository.Get background t id model_state).2))
    (Some (λ t id, answer (BackendRepository.Get background t id backend_state).2))
    (Some mc) (Some bc).

Lemma inmemory_tenant id : get_tenant inmemory id = Tenant.byID tenant_state !! id.
Proof. cbn. unfold Tenant.Get. go_unfold. cbn. by destruct (Tenant.byID tenant_state !! id). Qed.
Lemma inmemory_app t id : get_app inmemory t id = AgentRepository.apps app_state !! (t, id).
Proof. cbn. unfold AgentRepository.Get, locked, getLocked. go_unfold. cbn. by destruct (AgentRepository.apps app_state !! _). Qed.
Lemma inmemory_revision t id n : is_Some (AgentRepository.apps app_state !! (t, id)) →
  get_revision inmemory t id n = revision_at app_state (t, id) n.
Proof.
  intros [a Ha]. cbn. unfold GetRevision, locked, revisionLocked, getLocked. go_unfold. cbn. rewrite Ha.
  by destruct (revision_at _ _ _).
Qed.
Lemma inmemory_model t id : get_model inmemory t id = byID model_state !! (t, id).
Proof. cbn. unfold ModelRepository.Get. go_unfold. cbn. by destruct (byID model_state !! _). Qed.
Lemma inmemory_backend t id : get_backend inmemory t id = byID backend_state !! (t, id).
Proof. cbn. unfold BackendRepository.Get. go_unfold. cbn. by destruct (byID backend_state !! _). Qed.

Context (Hok : deployment_ok d).

Lemma tenant_state_wf : Tenant.wf tenant_state.
Proof using Hok. destruct Hok as (? & ? & _). by apply tenant_run_wf. Qed.
Lemma app_state_wf : AgentRepository.wf app_state.
Proof using Hok. destruct Hok as (_ & _ & Ha). by apply (agent_run_ok _ _ AgentRepository.wf_empty Ha). Qed.

Lemma inmemory_Scoped : Scoped inmemory.
Proof using Hok.
  split.
  - intros id t. rewrite inmemory_tenant. intros Ht. by destruct (Tenant.wf_id _ tenant_state_wf _ _ Ht) as [-> _].
  - intros t id a. rewrite inmemory_app. intros Ha. by destruct (AgentRepository.wf_app _ app_state_wf _ _ Ha) as [<- _].
  - intros t id n v Hv. destruct (AgentRepository.apps app_state !! (t, id)) as [a|] eqn:Ea.
    + rewrite inmemory_revision in Hv by done. by destruct (AgentRepository.wf_revision _ app_state_wf _ _ _ Hv) as (_ & ? & _).
    + cbn in Hv. unfold GetRevision, locked, revisionLocked, getLocked in Hv. go_unfold. cbn in Hv. by rewrite Ea in Hv.
Qed.

(** What makes an app of a tenant executable. *)
Record runnable (tenantID appID : string) (t : Tenant) (a : App) (b : BackendProfile.Profile) : Prop := {
  run_tenant : Tenant.byID tenant_state !! tenantID = Some t;
  run_tenant_active : Tenant.CanAcceptExecution t = true;
  run_app : AgentRepository.apps app_state !! (tenantID, appID) = Some a;
  run_app_active : Agent.CanAcceptExecution a = true;
  run_models : ∀ n v, CanaryRevision a = Some n ∨ CurrentRevision a = Some n → revision_at app_state (tenantID, appID) n = Some v →
    ∃ m, byID model_state !! (tenantID, dc_ModelProfileID (AgentRevision.Configuration v)) = Some m
      ∧ ModelProfile.CanAcceptExecution m = true;
  run_backend : ∃ id, c_DefaultBackendProfileID (TConfig t) = Some id ∧ byID backend_state !! (tenantID, id) = Some b;
  run_backend_active : BackendProfile.CanAcceptExecution b = true }.

Lemma runnable_composed tenantID appID t a b :
  runnable tenantID appID t a b →
  ∃ n v m, CurrentRevision a = Some n
    ∧ revision_at app_state (tenantID, appID) (match CanaryRevision a with Some c => c | None => n end) = Some v
    ∧ byID model_state !! (tenantID, dc_ModelProfileID (AgentRevision.Configuration v)) = Some m
    ∧ composed mc bc t a v m b.
Proof using Hok.
  intros [Ht Hta Ha Haa Hm (id & Hid & Hb) Hba].
  destruct (Tenant.wf_id _ tenant_state_wf _ _ Ht) as (-> & Hvt & _).
  destruct (AgentRepository.wf_app _ app_state_wf _ _ Ha) as (Hsc & Hva & _ & _ & Hpt).
  pose proof Haa as Hcur. unfold Agent.CanAcceptExecution in Hcur.
  destruct (CurrentRevision a) as [n|] eqn:Hn; [|by rewrite andb_false_r in Hcur]. exists n.
  set (sel := match CanaryRevision a with Some c => c | None => n end).
  assert (CurrentRevision a = Some sel ∨ CanaryRevision a = Some sel) as Hsel
    by (unfold sel; destruct (CanaryRevision a); auto).
  destruct (Hpt sel Hsel) as (v & Hv & Hp). change (revision_at app_state (app_scope a) sel = Some v) in Hv. rewrite <- Hsc in Hv.
  destruct (AgentRepository.wf_revision _ app_state_wf _ _ _ Hv) as (Hvs & Hnum & Hvv & _).
  destruct (Hm sel v) as (m & Hmm & Hma); [rewrite <- Hn; tauto|done|]. exists v, m. split_and!; try done.
  destruct (wf_profile _ _ (model_run_wf (Some mc) (d_models d)) _ _ Hmm) as (Hms & Hmv & _).
  destruct (wf_profile _ _ (backend_run_wf (Some bc) (d_backends d)) _ _ Hb) as (Hbs & Hbv & _).
  injection Hms as Hmt Hmi. injection Hbs as Hbt Hbi. cbn in Hmt, Hmi, Hbt, Hbi.
  assert (Agent.TenantID a = Tenant.TenantID t ∧ AppID a = appID) as [Hat Hai] by (by injection Hsc).
  split.
  - apply validateExecutionState_Ok. split_and!; try done; [congruence|].
    unfold selected. rewrite Hn, Hnum. unfold sel. destruct (CanaryRevision a); rewrite Z.eqb_refl; by rewrite ?orb_true_r.
  - apply model_validateExecutionState_Ok. by split_and!.
  - apply backend_validateExecutionState_Ok. split_and!; try done. congruence.
  - done.
Qed.
End inmemory.

(** On the in-memory repositories the resolver finds every plan there is: whatever has
    happened before, for a valid principal whose tenant and app accept executions, whose
    tenant has an active default backend profile and whose app selects a revision with an
    active model profile, resolving succeeds. *)
Theorem plan_resolves mc bc d principal t a b :
  deployment_ok d → Principal_Validate principal = Ok () →
  runnable mc bc d (p_tenantID principal) (p_appID principal) t a b →
  ∃ plan, Resolve (Some (inmemory mc bc d)) background principal = Ok plan
    ∧ plan_Tenant plan = t ∧ sn_app (plan_agent plan) = Some a ∧ bs_profile (plan_backend plan) = Some b.
Proof.
  intros Hok Hp Hrun. destruct (runnable_composed _ _ _ Hok _ _ _ _ _ Hrun) as (n & v & m & Hn & Hv & Hm & Hc).
  destruct Hrun as [Ht Hta Ha _ _ (id & Hid & Hb) _].
  assert (resolveInputs (inmemory mc bc d) (λ _, None) principal = Ok (mkInputs t a v m b)) as Hin.
  { unfold resolveInputs. cbv zeta. rewrite inmemory_tenant, Ht, inmemory_app, Ha. unfold found, observe. go_unfold.
    unfold NewConfigurationSnapshot. go_unfold. destruct (Tenant.wf_id _ (tenant_state_wf d Hok) _ _ Ht) as (_ & -> & _).
    rewrite Hta. cbn [negb current_revision]. rewrite Hn, inmemory_revision by (by eexists).
    by rewrite Hv, inmemory_model, Hm, Hid, inmemory_backend, Hb. }
  exists (plan_of mc bc t a v m b). split; [|done]. unfold Resolve, background. go_unfold.
  change (observe (λ _, None) 0) with (@Ok Gateway.error unit ()).
  change (observe (λ _, None) 6) with (@Ok Gateway.error unit ()). cbn [negb Ready].
  change (Ready (Some (inmemory mc bc d))) with true. cbn [negb]. rewrite Hp, Hin.
  cbn [in_tenant in_app in_revision in_model in_backend].
  change (modelCatalog (inmemory mc bc d)) with (Some mc). change (backendCatalog (inmemory mc bc d)) with (Some bc).
  destruct (NewExecutionPlan _ _ _ _ _ _ _) as [plan|] eqn:Ep.
  - apply NewExecutionPlan_iff in Ep as [_ ->]. by rewrite plan_of_key.
  - assert (NewExecutionPlan (Some t) (Some a) (Some v) (Some m) (Some mc) (Some b) (Some bc)
      = Ok (plan_of mc bc t a v m b)) as E by (by apply NewExecutionPlan_iff). congruence.
Qed.

(** * A deployment with one executable app *)

Definition ex_plan_tenant : Tenant.op :=
  Tenant.OpCreate background 1700000000000 (Some ex_random) 5
    (Tenant.mkCreateInput "acme" ""
      (Tenant.mkConfiguration "Acme" None None None None "" 30 "" (S754_zero false) None
        (Some BackendRepository.ex_profile_id))).
Definition ex_plan_draft : DraftConfiguration :=
  mkDraft "helper" "Answer politely." "" ModelRepository.ex_profile_id
    (AgentRevision.mkGeneration None None (Some 512)) zero_policy [].
Definition ex_plan_apps : list AgentRepository.op :=
  ex_setup ++
  [AgentRepository.OpCreateDraft AgentRuntime.quiet 6 (mkCreateDraft ex_agent_tenant_id ex_agent_id 1 "" 0 ex_plan_draft);
   AgentRepository.OpPublish AgentRuntime.quiet 7 (mkPublish ex_agent_tenant_id ex_agent_id 1 1 1 true ex_change)].
Definition ex_deployment : deployment :=
  mkDeployment [ex_plan_tenant] ex_plan_apps [ModelRepository.ex_new] [BackendRepository.ex_new].
Definition ex_principal : Principal :=
  mkPrincipal PrincipalAPI ex_agent_tenant_id ex_agent_id "user-1"
    (Some (mkAPIIdentity ex_agent_tenant_id ex_agent_id "user-1")) zero_target.
Notation ex_resolver := (inmemory ModelRepository.ex_catalog BackendRepository.ex_catalog ex_deployment).

Lemma ex_deployment_ok : deployment_ok ex_deployment.
Proof.
  split; [done|]. split.
  - apply Forall_cons_2; [|constructor]. split; [apply ex_random_ok|done].
  - apply Forall_cons_2; [|by repeat constructor]. split; [done|]. intros bs Hbs. injection Hbs as <-.
    split; [done|]. repeat (apply Forall_cons_2; [lia|]). constructor.
Qed.

Lemma ex_plan_exists : is_ok (Resolve (Some ex_resolver) background ex_principal) = true.
Proof. vm_compute. reflexivity. Qed.

Lemma resolved_plan_sound_witness :
  ∃ plan t, Resolve (Some ex_resolver) background ex_principal = Ok plan
    ∧ plan_tenant plan = Some t ∧ Tenant.TenantID t = ex_agent_tenant_id.
Proof.
  pose proof ex_plan_exists as Hex.
  destruct (Resolve (Some ex_resolver) background ex_principal) as [plan|] eqn:E; [|discriminate].
  destruct (@resolved_plan_sound ex_resolver (inmemory_Scoped _ _ _ ex_deployment_ok) background ex_principal plan E)
    as (mc & bc & t & a & v & m & b & Hp & _ & _ & [Ht _] & _).
  exists plan, t. split; [reflexivity|]. split; [by rewrite Hp|exact Ht].
Defined.

Definition ex_stranger : Principal :=
  mkPrincipal PrincipalAPI ex_agent_tenant_id "app_7ZZZZZZZZZZZZZZZZZZZZZZZZZ" "user-1"
    (Some (mkAPIIdentity ex_agent_tenant_id "app_7ZZZZZZZZZZZZZZZZZZZZZZZZZ" "user-1")) zero_target.

Lemma plan_errors_redacted_witness :
  Resolve (Some ex_resolver) (Some (λ _, None)) ex_stranger = Err ErrPlanUnavailable.
Proof.
  destruct (Resolve (Some ex_resolver) (Some (λ _, None)) ex_stranger) as [plan|e] eqn:E.
  - assert (is_ok (Resolve (Some ex_resolver) (Some (λ _, None)) ex_stranger) = false) as H by (vm_compute; reflexivity).
    rewrite E in H. discriminate.
  - assert (Ready (Some ex_resolver) = true) as Hr by reflexivity.
    assert (Principal_Validate ex_stranger = Ok ()) as Hp by (vm_compute; reflexivity).
    destruct (plan_errors_redacted ex_resolver (λ _, None) ex_stranger e Hr Hp E) as [->|(_ & i & c & H & _)].
    + reflexivity.
    + discriminate H.
Defined.

Definition ex_t : option Tenant := Tenant.byID (tenant_state ex_deployment) !! ex_agent_tenant_id.
Definition ex_a : option App := AgentRepository.apps (app_state ex_deployment) !! (ex_agent_tenant_id, ex_agent_id).
Definition ex_v : option Revision := revision_at (app_state ex_deployment) (ex_agent_tenant_id, ex_agent_id) 1.
Definition ex_m : option ModelProfile.Profile :=
  byID (model_state ModelRepository.ex_catalog ex_deployment) !! (ex_agent_tenant_id, ModelRepository.ex_profile_id).
Definition ex_b : option BackendProfile.Profile :=
  byID (backend_state BackendRepository.ex_catalog ex_deployment) !! (ex_agent_tenant_id, BackendRepository.ex_profile_id).

(** The conditions of an execution, as a test. *)
Definition ex_checks (t : option Tenant) (a : option App) (v : option Revision) (m : option ModelProfile.Profile)
    (b : option BackendProfile.Profile) : bool :=
  match t, a, v, m, b with
  | Some t, Some a, Some v, Some m, Some b =>
      Tenant.CanAcceptExecution t && Agent.CanAcceptExecution a && BackendProfile.CanAcceptExecution b
      && ModelProfile.CanAcceptExecution m && bool_decide (CurrentRevision a = Some 1 ∧ CanaryRevision a = None)
      && bool_decide (dc_ModelProfileID (AgentRevision.Configuration v) = ModelRepository.ex_profile_id)
      && bool_decide (c_DefaultBackendProfileID (TConfig t) = Some BackendRepository.ex_profile_id)
  | _, _, _, _, _ => false
  end.
Lemma ex_checks_true : ex_checks ex_t ex_a ex_v ex_m ex_b = true.
Proof. vm_compute. reflexivity. Qed.

Lemma ex_runnable : ∃ t a b, ex_t = Some t ∧
  runnable ModelRepository.ex_catalog BackendRepository.ex_catalog ex_deployment ex_agent_tenant_id ex_agent_id t a b.
Proof.
  pose proof ex_checks_true as Hc. unfold ex_checks in Hc.
  destruct ex_t as [t|] eqn:Et; [|discriminate]. destruct ex_a as [a|] eqn:Ea; [|discriminate].
  destruct ex_v as [v|] eqn:Ev; [|discriminate]. destruct ex_m as [m|] eqn:Em; [|discriminate].
  destruct ex_b as [b|] eqn:Eb; [|discriminate].
  apply andb_true_iff in Hc as [Hc Hd%bool_decide_eq_true]. apply andb_true_iff in Hc as [Hc Hr%bool_decide_eq_true].
  apply andb_true_iff in Hc as [Hc [Hcur Hcan]%bool_decide_eq_true]. apply andb_true_iff in Hc as [Hc Hm].
  apply andb_true_iff in Hc as [Hc Hb]. apply andb_true_iff in Hc as [Ht Ha].
  exists t, a, b. split; [done|]. split; try assumption.
  - intros n w Hn Hw. assert (n = 1) as -> by (destruct Hn; congruence).
    assert (Some w = Some v) as [= ->] by exact (eq_trans (eq_sym Hw) Ev). rewrite Hr. exists m. by split.
  - exists BackendRepository.ex_profile_id. by split.
Qed.

Lemma plan_resolves_witness :
  ∃ t plan, ex_t = Some t ∧ Resolve (Some ex_resolver) background ex_principal = Ok plan ∧ plan_Tenant plan = t.
Proof.
  destruct ex_runnable as (t & a & b & Ht & Hrun).
  assert (Principal_Validate ex_principal = Ok ()) as Hp by (vm_compute; reflexivity).
  destruct (plan_resolves ModelRepository.ex_catalog BackendRepository.ex_catalog ex_deployment ex_principal t a b
    ex_deployment_ok Hp Hrun) as (plan & Hplan & Hpt & _).
  exists t, plan. auto.
Defined.
