(* ===== verification/Registry.v ===== *)
(** The Runner registry, [trpcservice/gateway/registry.go]: a bounded cache of Runners
    under the key of their execution plan, with reference-counted leases, deferred
    closing and a bounded shutdown.

    Entries are shared: the cache, the leases and the calls that close Runners all refer
    to one entry, so the entries live in a heap and everything else holds indexes into
    it.  What happens under the lock is one function on the shared state; what happens
    after the lock is released (the factory call, [closeEntries], the waiting of [Close])
    is a later step.  A build that is running is its key in [pending] with the flag of
    its invalidation: [finishRunnerBuild] is the only one to remove it.  The order in
    which Go visits a map is a parameter. *)
From S2P Require Import Prelude GoStrings.
From stdpp Require Import countable.
Local Open Scope Z_scope.

Inductive error :=
| ErrInvalid | ErrNotReady | ErrClosed | ErrRunnerCapacity | ErrRunnerUnavailable
| ErrRunnerClose | ErrRegistryCloseTimeout | errRunnerInvalidated | ErrContext (e : ctx_error).
#[export] Instance error_eq_dec : EqDecision error.
Proof. solve_decision. Defined.

Record CacheKey := mkCacheKey {
  TenantID : string; TenantVersion : Z; AppID : string; AppVersion : Z; Revision : Z;
  AgentContentDigest : string; ModelProfileID : string; ModelProfileVersion : Z;
  ModelContentDigest : string; BackendProfileID : string; BackendProfileVersion : Z;
  BackendContentDigest : string }.
#[export] Instance cache_key_eq_dec : EqDecision CacheKey.
Proof. solve_decision. Defined.
#[export] Instance cache_key_countable : Countable CacheKey.
Proof.
  refine (inj_countable'
    (λ k, (TenantID k, TenantVersion k, AppID k, AppVersion k, Revision k, AgentContentDigest k,
           ModelProfileID k, ModelProfileVersion k, ModelContentDigest k, BackendProfileID k,
           BackendProfileVersion k, BackendContentDigest k))
    (λ '(a, b, c, d, e, f, g, h, i, j, k, l), mkCacheKey a b c d e f g h i j k l) _).
  by intros [].
Defined.

(** [zero] tells whether the channel is closed, [closeOnce] whether the Runner was told
    to close, [closeErr] whether that failed. *)
Record runnerEntry := mkEntry {
  refs : Z; lastUsed : time; invalidated : bool; zero : bool; closeOnce : bool; closeErr : bool }.

(** Entries that a call closes one after the other once the lock is released.  The call
    may stop at the first Runner that fails to close. *)
Record job := mkJob { stops : bool; todo : list nat }.

Record RunnerRegistryConfig := mkConfig {
  MaxEntries : Z; IdleTTL : duration; CloseTimeout : duration; has_Factory : bool }.

Record RunnerRegistry := mkRegistry {
  maxEntries : Z;
  idleTTL : duration;
  entries : gmap CacheKey nat;
  pending : gmap CacheKey bool;
  closed : bool;
  heap : list runnerEntry;
  (* the leases handed out, with their [once] *)
  leases : list (nat * bool);
  (* the closing that calls still have to do *)
  closing : list job;
  (* entries whose last release a running [Close] waits for *)
  waiting : list nat;
  (* entries whose Runner was told to close, latest first *)
  calls : list nat;
  (* entries that a call gave up to close *)
  abandoned : list nat }.

Definition defaultRunnerRegistryMaxEntries : Z := 128.
Definition defaultRunnerRegistryIdleTTL : duration := 10 * minute.
Definition defaultRunnerRegistryCloseWait : duration := 5 * second.

Definition NewRunnerRegistry (config : RunnerRegistryConfig) : result error RunnerRegistry :=
  if negb (has_Factory config) then Err ErrInvalid
  else
    let max := if MaxEntries config =? 0 then defaultRunnerRegistryMaxEntries else MaxEntries config in
    if max <? 1 then Err ErrInvalid
    else
      let idle := if IdleTTL config =? 0 then defaultRunnerRegistryIdleTTL else IdleTTL config in
      if idle <? 0 then Err ErrInvalid
      else
        let wait := if CloseTimeout config =? 0 then defaultRunnerRegistryCloseWait
                    else CloseTimeout config in
        if wait <? 0 then Err ErrInvalid
        else Ok (mkRegistry max idle ∅ ∅ false [] [] [] [] [] []).

Definition Ready (r : RunnerRegistry) : bool := negb (closed r).

(** * Access to the shared state *)

Definition set_heap (h : list runnerEntry) (r : RunnerRegistry) : RunnerRegistry :=
  mkRegistry (maxEntries r) (idleTTL r) (entries r) (pending r) (closed r) h (leases r)
    (closing r) (waiting r) (calls r) (abandoned r).
Definition set_entries (m : gmap CacheKey nat) (r : RunnerRegistry) : RunnerRegistry :=
  mkRegistry (maxEntries r) (idleTTL r) m (pending r) (closed r) (heap r) (leases r)
    (closing r) (waiting r) (calls r) (abandoned r).
Definition set_pending (m : gmap CacheKey bool) (r : RunnerRegistry) : RunnerRegistry :=
  mkRegistry (maxEntries r) (idleTTL r) (entries r) m (closed r) (heap r) (leases r)
    (closing r) (waiting r) (calls r) (abandoned r).
Definition set_leases (l : list (nat * bool)) (r : RunnerRegistry) : RunnerRegistry :=
  mkRegistry (maxEntries r) (idleTTL r) (entries r) (pending r) (closed r) (heap r) l
    (closing r) (waiting r) (calls r) (abandoned r).
Definition set_closing (js : list job) (r : RunnerRegistry) : RunnerRegistry :=
  mkRegistry (maxEntries r) (idleTTL r) (entries r) (pending r) (closed r) (heap r) (leases r)
    js (waiting r) (calls r) (abandoned r).
Definition set_waiting (ps : list nat) (r : RunnerRegistry) : RunnerRegistry :=
  mkRegistry (maxEntries r) (idleTTL r) (entries r) (pending r) (closed r) (heap r) (leases r)
    (closing r) ps (calls r) (abandoned r).
Definition set_closed (r : RunnerRegistry) : RunnerRegistry :=
  mkRegistry (maxEntries r) (idleTTL r) (entries r) (pending r) true (heap r) (leases r)
    (closing r) (waiting r) (calls r) (abandoned r).
Definition add_call (p : nat) (r : RunnerRegistry) : RunnerRegistry :=
  mkRegistry (maxEntries r) (idleTTL r) (entries r) (pending r) (closed r) (heap r) (leases r)
    (closing r) (waiting r) (p :: calls r) (abandoned r).
Definition abandon (ps : list nat) (r : RunnerRegistry) : RunnerRegistry :=
  mkRegistry (maxEntries r) (idleTTL r) (entries r) (pending r) (closed r) (heap r) (leases r)
    (closing r) (waiting r) (calls r) (ps ++ abandoned r).

(** The call goes on to close [ps], and stops at a failure or does not. *)
Definition add_closing (st : bool) (ps : list nat) (r : RunnerRegistry) : RunnerRegistry :=
  set_closing (mkJob st ps :: closing r) r.

Definition invalidate_entry (e : runnerEntry) : runnerEntry :=
  mkEntry (refs e) (lastUsed e) true (zero e) (closeOnce e) (closeErr e).
Definition refs_at (h : list runnerEntry) (p : nat) : Z :=
  match h !! p with Some e => refs e | None => 0 end.
Definition last_at (h : list runnerEntry) (p : nat) : time :=
  match h !! p with Some e => lastUsed e | None => 0 end.

Definition slotCountLocked (r : RunnerRegistry) : Z :=
  Z.of_nat (size (entries r)) + Z.of_nat (size (pending r)).

(** [delete(registry.entries, key)] and [entry.invalidated = true]. *)
Definition drop_entry (key : CacheKey) (p : nat) (r : RunnerRegistry) : RunnerRegistry :=
  set_heap (alter invalidate_entry p (heap r)) (set_entries (delete key (entries r)) r).

(** A loop over the entries, in some order, that drops those that satisfy [p]; the
    result also lists the dropped ones. *)
Fixpoint drop_where (p : RunnerRegistry → CacheKey → nat → bool) (order : list (CacheKey * nat))
    (r : RunnerRegistry) : RunnerRegistry * list nat :=
  match order with
  | [] => (r, [])
  | (key, q) :: order' =>
      if p r key q
      then let '(r', dropped) := drop_where p order' (drop_entry key q r) in (r', q :: dropped)
      else drop_where p order' r
  end.

(** * Acquisition *)

Definition retainLocked (p : nat) (now : time) (r : RunnerRegistry) : RunnerRegistry :=
  set_heap (alter (λ e, mkEntry (refs e + 1) now (invalidated e)
    (if refs e =? 0 then false else zero e) (closeOnce e) (closeErr e)) p (heap r)) r.

Definition evictIdleLocked (now : time) (order : list (CacheKey * nat)) (r : RunnerRegistry)
    : RunnerRegistry * list nat :=
  if idleTTL r <=? 0 then (r, [])
  else drop_where (λ r _ p, (refs_at (heap r) p =? 0)
         && negb (before now (add_duration (last_at (heap r) p) (idleTTL r)))) order r.

(** The first of the least recently used entries without leases. *)
Definition oldest (h : list runnerEntry) (order : list (CacheKey * nat)) : option (CacheKey * nat) :=
  foldl (λ best kp,
    if negb (refs_at h kp.2 =? 0) then best
    else match best with
         | None => Some kp
         | Some b => if before (last_at h kp.2) (last_at h b.2) then Some kp else best
         end) None order.

Definition evictCapacityLocked (order : list (CacheKey * nat)) (r : RunnerRegistry)
    : RunnerRegistry * list nat :=
  match oldest (heap r) order with
  | None => (r, [])
  | Some (key, p) => (drop_entry key p r, [p])
  end.

Inductive acquired :=
| AcquireErr (e : error)
| AcquireLease (lease : nat)
| AcquireWait
| AcquireBuild.

(** The part of [acquireOnce] under the lock; [order1] and [order2] are the orders of
    the two eviction loops. *)
Definition acquireOnce (key : CacheKey) (now : time)
    (order1 order2 : list (CacheKey * nat)) (r : RunnerRegistry) : RunnerRegistry * acquired :=
  if closed r then (r, AcquireErr ErrClosed)
  else
    let entry := match entries r !! key with
                 | Some p => match heap r !! p with
                             | Some e => if invalidated e then None else Some p
                             | None => None
                             end
                 | None => None
                 end in
    match entry with
    | Some p => (set_leases (leases r ++ [(p, false)]) (retainLocked p now r),
                 AcquireLease (length (leases r)))
    | None =>
        match pending r !! key with
        | Some _ => (r, AcquireWait)
        | None =>
            let '(r1, idle) := evictIdleLocked now order1 r in
            let '(r2, evicted) := if maxEntries r1 <=? slotCountLocked r1
                                  then evictCapacityLocked order2 r1 else (r1, []) in
            let toClose := idle ++ evicted in
            if maxEntries r2 <=? slotCountLocked r2
            then (add_closing false toClose r2, AcquireErr ErrRunnerCapacity)
            else (add_closing false toClose (set_pending (<[key := false]> (pending r2)) r2), AcquireBuild)
        end
    end.

(** What the factory returned: whether there is a Runner, and its error. *)
Definition normalizeRunnerFactoryError (err : option error) : option error :=
  match err with
  | None => None
  | Some (ErrContext e) => Some (ErrContext e)
  | Some _ => Some ErrRunnerUnavailable
  end.

(** The error with which a build ends, if any. *)
Definition build_error (has_runner : bool) (err ctx_err : option error) (was_closed was_invalidated : bool)
    : option error :=
  match normalizeRunnerFactoryError err with
  | Some e => Some e
  | None =>
      if negb has_runner then Some ErrRunnerUnavailable
      else match ctx_err with
      | Some e => Some e
      | None => if was_closed then Some ErrClosed
                else if was_invalidated then Some errRunnerInvalidated else None
      end
  end.

(** [finishRunnerBuild] of the build under [key]; a Runner that is not kept gets an
    entry of its own to be closed. *)
Definition finishRunnerBuild (key : CacheKey) (has_runner : bool) (err ctx_err : option error)
    (now : time) (r : RunnerRegistry) : RunnerRegistry * option error :=
  match pending r !! key with
  | None => (r, None)
  | Some was_invalidated =>
      let r1 := set_pending (delete key (pending r)) r in
      match build_error has_runner err ctx_err (closed r) was_invalidated with
      | Some e =>
          (if has_runner
           then add_closing false [length (heap r)]
                  (set_heap (heap r ++ [mkEntry 0 0 false false false false]) r1)
           else r1, Some e)
      | None =>
          (set_leases (leases r ++ [(length (heap r), false)])
             (set_entries (<[key := length (heap r)]> (entries r))
                (set_heap (heap r ++ [mkEntry 1 now false false false false]) r1)), None)
      end
  end.

(** * Closing and release *)

(** [entry.close]: the [sync.Once] lets the first call through; [fails] is what the
    Runner answers to it. *)
Definition close_entry (p : nat) (fails : bool) (r : RunnerRegistry) : RunnerRegistry :=
  match heap r !! p with
  | None => r
  | Some e =>
      if closeOnce e then r
      else add_call p (set_heap (<[p := mkEntry (refs e) (lastUsed e) (invalidated e) (zero e)
             true fails]> (heap r)) r)
  end.
Definition close_failed (p : nat) (r : RunnerRegistry) : bool :=
  match heap r !! p with Some e => closeErr e | None => false end.

(** The next [close] of one of the calls. *)
Definition close_next (i : nat) (fails : bool) (r : RunnerRegistry) : RunnerRegistry :=
  match closing r !! i with
  | Some (mkJob st (p :: ps)) =>
      let r1 := close_entry p fails r in
      if st && close_failed p r1
      then abandon ps (set_closing (<[i := mkJob st []]> (closing r)) r1)
      else set_closing (<[i := mkJob st ps]> (closing r)) r1
  | _ => r
  end.

(** [release] of a lease whose [once] is still open; [None] is the panic of closing a
    closed channel. *)
Definition Release (i : nat) (now : time) (r : RunnerRegistry) : option RunnerRegistry :=
  match leases r !! i with
  | Some (p, false) =>
      let r1 := set_leases (<[i := (p, true)]> (leases r)) r in
      match heap r !! p with
      | None => Some r1
      | Some e =>
          if refs e <? 1 then Some r1
          else if negb (refs e - 1 =? 0)
          then Some (set_heap (<[p := mkEntry (refs e - 1) (lastUsed e) (invalidated e) (zero e)
                 (closeOnce e) (closeErr e)]> (heap r)) r1)
          else if invalidated e || closed r
          then if zero e then None
               else Some (add_closing false [p] (set_heap (<[p := mkEntry 0 now (invalidated e) true
                      (closeOnce e) (closeErr e)]> (heap r)) r1))
          else Some (set_heap (<[p := mkEntry 0 now (invalidated e) (zero e) (closeOnce e)
                 (closeErr e)]> (heap r)) r1)
      end
  | _ => Some r
  end.

(** * Invalidation and shutdown *)

Definition Invalidate (key : CacheKey) (r : RunnerRegistry) : RunnerRegistry * option error :=
  if closed r then (r, Some ErrClosed)
  else
    let r1 := set_pending (alter (λ _, true) key (pending r)) r in
    match entries r1 !! key with
    | None => (r1, None)
    | Some p =>
        (let r2 := drop_entry key p r1 in
         if refs_at (heap r) p =? 0 then add_closing false [p] r2 else r2, None)
    end.

Definition flag_builds (predicate : CacheKey → bool) (m : gmap CacheKey bool) : gmap CacheKey bool :=
  map_imap (λ k b, Some (b || predicate k)) m.

Definition InvalidateMatching (predicate : CacheKey → bool) (order : list (CacheKey * nat))
    (r : RunnerRegistry) : RunnerRegistry * option error :=
  if closed r then (r, Some ErrClosed)
  else
    let r1 := set_pending (flag_builds predicate (pending r)) r in
    let '(r2, dropped) := drop_where (λ _ key _, predicate key) order r1 in
    (add_closing true (filter (λ p, refs_at (heap r) p = 0) dropped) r2, None).

Definition InvalidateTenant (tenantID : string) :=
  InvalidateMatching (λ key, (TenantID key =? tenantID)%string).
Definition InvalidateApp (tenantID appID : string) :=
  InvalidateMatching (λ key, (TenantID key =? tenantID)%string && (AppID key =? appID)%string).
Definition InvalidateModelProfile (tenantID profileID : string) :=
  InvalidateMatching (λ key, (TenantID key =? tenantID)%string && (ModelProfileID key =? profileID)%string).
Definition InvalidateBackendProfile (tenantID profileID : string) :=
  InvalidateMatching (λ key, (TenantID key =? tenantID)%string && (BackendProfileID key =? profileID)%string).

(** The part of [Close] under the lock, for the call that finds it not started. *)
Definition Close (order : list (CacheKey * nat)) (r : RunnerRegistry) : RunnerRegistry :=
  if closed r then r
  else
    let '(r1, dropped) := drop_where (λ _ _ _, true) order r in
    let idle := filter (λ p, ¬ 0 < refs_at (heap r) p) dropped in
    let busy := filter (λ p, 0 < refs_at (heap r) p) dropped in
    add_closing false idle (set_waiting (busy ++ waiting r1)
      (set_pending (flag_builds (λ _, true) (pending r1)) (set_closed r1))).

(** [Close] sees the last release of an entry and closes it too. *)
Definition close_waited (i : nat) (fails : bool) (r : RunnerRegistry) : RunnerRegistry :=
  match waiting r !! i with
  | None => r
  | Some p =>
      match heap r !! p with
      | Some e => if zero e then close_entry p fails (set_waiting (delete i (waiting r)) r) else r
      | None => r
      end
  end.

(** The deadline of [Close] passed: it waits for nobody any more. *)
Definition close_timeout (r : RunnerRegistry) : RunnerRegistry := set_waiting [] r.

(** * Steps *)

Inductive step : RunnerRegistry → RunnerRegistry → Prop :=
| step_acquire key now order1 order2 r :
    order1 ≡ₚ map_to_list (entries r) →
    order2 ≡ₚ map_to_list (entries (evictIdleLocked now order1 r).1) →
    step r (acquireOnce key now order1 order2 r).1
| step_finish key has_runner err ctx_err now r :
    step r (finishRunnerBuild key has_runner err ctx_err now r).1
| step_close_next i fails r : step r (close_next i fails r)
| step_release i now r r' : Release i now r = Some r' → step r r'
| step_invalidate key r : step r (Invalidate key r).1
| step_invalidate_matching predicate order r :
    order ≡ₚ map_to_list (entries r) → step r (InvalidateMatching predicate order r).1
| step_close order r : order ≡ₚ map_to_list (entries r) → step r (Close order r)
| step_close_waited i fails r : step r (close_waited i fails r)
| step_close_timeout r : step r (close_timeout r).

Definition reachable (config : RunnerRegistryConfig) (r : RunnerRegistry) : Prop :=
  ∃ r0, NewRunnerRegistry config = Ok r0 ∧ rtc step r0 r.

(** * Pointers *)

(** Leases of an entry that were not released. *)
Fixpoint held (p : nat) (ls : list (nat * bool)) : Z :=
  match ls with
  | [] => 0
  | l :: ls' => Z.b2z ((l.1 =? p)%nat && negb l.2) + held p ls'
  end.
Definition cached (r : RunnerRegistry) (p : nat) : Prop := ∃ key, entries r !! key = Some p.
Definition queued (r : RunnerRegistry) (p : nat) : Prop := ∃ j, j ∈ closing r ∧ p ∈ todo j.

Lemma held_nonneg p ls : 0 ≤ held p ls.
Proof. induction ls as [|l ls IH]; simpl; [lia|]. destruct (_ && _); simpl; lia. Qed.

Lemma held_app p ls1 ls2 : held p (ls1 ++ ls2) = held p ls1 + held p ls2.
Proof. induction ls1 as [|l ls IH]; simpl; lia. Qed.

Lemma held_release p ls i q :
  ls !! i = Some (q, false) → held p (<[i := (q, true)]> ls) = held p ls - Z.b2z (q =? p)%nat.
Proof.
  revert i. induction ls as [|x ls IH]; intros [|i] Hi; simplify_eq/=.
  - rewrite andb_true_r, andb_false_r. simpl. lia.
  - rewrite (IH i Hi). lia.
Qed.

Lemma held_pos p ls i : ls !! i = Some (p, false) → 0 < held p ls.
Proof.
  revert i. induction ls as [|x ls IH]; intros [|i] Hi; simplify_eq/=.
  - rewrite Nat.eqb_refl. pose proof (held_nonneg p ls). simpl. lia.
  - specialize (IH i Hi). destruct (_ && _); simpl; lia.
Qed.

Lemma held_lease p ls : 0 < held p ls → ∃ i, ls !! i = Some (p, false).
Proof.
  induction ls as [|[q d] ls IH]; simpl; [lia|]. destruct (Nat.eqb_spec q p) as [->|]; simpl.
  - destruct d; simpl; [|intros _; by exists 0%nat]. intros [i Hi]%IH. by exists (S i).
  - intros [i Hi]%IH. by exists (S i).
Qed.

Lemma queued_insert r js p j :
  closing r = js → queued (set_closing (j :: js) r) p ↔ p ∈ todo j ∨ queued r p.
Proof.
  intros <-. unfold queued. cbn. split.
  - intros (j' & [->|Hj]%elem_of_cons & Hp); eauto.
  - intros [Hp|(j' & Hj & Hp)]; [exists j|exists j']; set_solver.
Qed.

(** * The invariant *)

(** What holds of every entry.  The entries in [hand] were taken out of the cache by the
    operation that is running. *)
Record entry_ok (hand : list nat) (r : RunnerRegistry) (p : nat) (e : runnerEntry) : Prop := {
  ok_refs : refs e = held p (leases r);
  ok_cached : cached r p → invalidated e = false ∧ zero e = false;
  ok_queued : queued r p → held p (leases r) = 0 ∧ ¬ cached r p;
  ok_once : closeOnce e = true → held p (leases r) = 0 ∧ ¬ cached r p;
  ok_zero : zero e = true → held p (leases r) = 0;
  ok_loose : 0 < held p (leases r) → cached r p ∨ invalidated e = true;
  ok_err : closeErr e = true → closeOnce e = true;
  ok_leak : cached r p ∨ 0 < held p (leases r) ∨ closeOnce e = true ∨ queued r p
    ∨ p ∈ abandoned r ∨ p ∈ hand;
  ok_calls : closeOnce e = true ↔ p ∈ calls r }.

Record inv (hand : list nat) (r : RunnerRegistry) : Prop := {
  inv_entry p e : heap r !! p = Some e → entry_ok hand r p e;
  inv_alloc p : cached r p ∨ 0 < held p (leases r) ∨ queued r p ∨ p ∈ calls r ∨ p ∈ hand →
    is_Some (heap r !! p);
  inv_hand p : p ∈ hand → ¬ cached r p;
  inv_inj k1 k2 p : entries r !! k1 = Some p → entries r !! k2 = Some p → k1 = k2;
  inv_calls : NoDup (calls r);
  inv_slots : slotCountLocked r ≤ maxEntries r;
  inv_disjoint k p : entries r !! k = Some p → pending r !! k = None;
  inv_closed : closed r = true → entries r = ∅;
  inv_abandoned : abandoned r ≠ [] → ∃ p e, heap r !! p = Some e ∧ closeErr e = true }.

Lemma inv_new config r : NewRunnerRegistry config = Ok r → inv [] r.
Proof.
  unfold NewRunnerRegistry. destruct (has_Factory config); [|discriminate]. cbv zeta.
  destruct (Z.ltb_spec (if MaxEntries config =? 0 then defaultRunnerRegistryMaxEntries
    else MaxEntries config) 1); [discriminate|].
  destruct (_ <? 0); [discriminate|]. destruct (_ <? 0); [discriminate|]. intros [= <-].
  split; unfold cached, queued, slotCountLocked; cbn.
  - intros p e Hp. by rewrite lookup_nil in Hp.
  - intros p [(k & Hk)|[?|[(j & Hj & _)|[Hp|Hp]]]].
    + by rewrite lookup_empty in Hk.
    + lia.
    + by apply elem_of_nil in Hj.
    + by apply elem_of_nil in Hp.
    + by apply elem_of_nil in Hp.
  - by intros p []%elem_of_nil.
  - intros k1 k2 p Hk. by rewrite lookup_empty in Hk.
  - constructor.
  - rewrite !map_size_empty. lia.
  - intros k p Hk. by rewrite lookup_empty in Hk.
  - done.
  - done.
Qed.

(** Taking an entry out of the cache. *)
Lemma inv_drop hand r key p :
  inv hand r → entries r !! key = Some p → inv (p :: hand) (drop_entry key p r).
Proof.
  intros Hinv Hk. assert (∀ q, cached (drop_entry key p r) q ↔ q ≠ p ∧ cached r q) as Hc.
  { intros q. unfold cached. cbn. split.
    - intros (k & [Hne Hq]%lookup_delete_Some). split; [|eauto]. intros ->. apply Hne.
      by eapply inv_inj.
    - intros (Hne & k & Hq). exists k. apply lookup_delete_Some. split; [|done]. intros ->. congruence. }
  assert (∀ q, queued (drop_entry key p r) q ↔ queued r q) as Hqd by done.
  destruct Hinv as [He Ha Hh Hi Hn Hs Hd Hcl Hab].
  assert (∀ q, is_Some (heap (drop_entry key p r) !! q) ↔ is_Some (heap r !! q)) as Hlen.
  { intros q. cbn. destruct (decide (p = q)) as [<-|].
    - rewrite list_lookup_alter_eq. by rewrite fmap_is_Some.
    - by rewrite list_lookup_alter_ne. }
  split; try done.
  - intros q e' Hq. cbn in Hq.
    destruct (decide (p = q)) as [<-|Hne].
    + rewrite list_lookup_alter_eq in Hq. apply fmap_Some in Hq as (e & Hp & ->).
      destruct (He _ _ Hp) as [Hr Hca Hqu Hon Hze Hlo Her Hle Hcl']. assert (cached r p) as Hcp by (by exists key).
      split; cbn; try done.
      * intros [? _]%Hc. done.
      * intros [? ?]%Hqu. by rewrite Hc.
      * intros [? ?]%Hon. by rewrite Hc.
      * by right.
      * do 5 right. by left.
    + rewrite list_lookup_alter_ne in Hq by done. destruct (He _ _ Hq) as [Hr Hca Hqu Hon Hze Hlo Her Hle Hcl'].
      assert (q ≠ p) by done.
      split; cbn; rewrite ?Hc, ?Hqd; try done.
      * intros [_ ?]. by apply Hca.
      * intros [? ?]%Hqu. tauto.
      * intros [? ?]%Hon. tauto.
      * intros Hpos. specialize (Hlo Hpos). tauto.
      * destruct Hle as [?|[?|[?|[?|[?|?]]]]]; try tauto. do 5 right. by right.
  - intros q Hq. apply Hlen, Ha. rewrite Hqd in Hq.
    rewrite Hc in Hq. cbn in Hq. destruct Hq as [[_ ?]|[?|[?|[?|[->|?]%elem_of_cons]]]]; try tauto.
    left. by exists key.
  - intros q Hq. rewrite Hc. apply elem_of_cons in Hq as [->|Hq]; [tauto|]. specialize (Hh _ Hq). tauto.
  - cbn. intros k1 k2 q [_ H1]%lookup_delete_Some [_ H2]%lookup_delete_Some. by eapply Hi.
  - unfold slotCountLocked in *. cbn. rewrite map_size_delete, Hk. lia.
  - cbn. intros k q [_ H1]%lookup_delete_Some. by eapply Hd.
  - cbn. intros Hc'. rewrite Hcl by done. apply delete_empty.
  - cbn. intros Hne. destruct (Hab Hne) as (q & e & Hq & Hfail).
    destruct (decide (p = q)) as [<-|].
    + exists p, (invalidate_entry e). split; [|done]. by rewrite list_lookup_alter_eq, Hq.
    + exists q, e. by rewrite list_lookup_alter_ne.
Qed.

Lemma inv_hand_ext hand hand' r : (∀ q, q ∈ hand ↔ q ∈ hand') → inv hand r → inv hand' r.
Proof.
  intros Heq [He Ha Hh Hi Hn Hs Hd Hcl Hab]. split; try done.
  - intros q e Hq. destruct (He _ _ Hq). split; try done. by rewrite <- Heq.
  - intros q. rewrite <- Heq. apply Ha.
  - intros q. rewrite <- Heq. apply Hh.
Qed.

(** A loop that drops entries: what it dropped is in hand, the rest is as before. *)
Lemma drop_where_spec (P : RunnerRegistry → CacheKey → nat → bool) order hand r r' dropped :
  inv hand r → NoDup order.*1 → (∀ k p, (k, p) ∈ order → entries r !! k = Some p) →
  drop_where P order r = (r', dropped) →
  inv (dropped ++ hand) r'
  ∧ (∀ p, refs_at (heap r') p = refs_at (heap r) p) ∧ leases r' = leases r ∧ pending r' = pending r
  ∧ closed r' = closed r ∧ waiting r' = waiting r ∧ maxEntries r' = maxEntries r
  ∧ (∀ k p, entries r' !! k = Some p ↔ entries r !! k = Some p ∧ p ∉ dropped)
  ∧ (∀ p, p ∈ dropped → ∃ k r2, (k, p) ∈ order ∧ P r2 k p = true
       ∧ ∀ q, refs_at (heap r2) q = refs_at (heap r) q).
Proof.
  revert hand r r' dropped. induction order as [|[k p] order IH]; intros hand r r' dropped Hinv Hnd Hent; simpl.
  { intros [= <- <-]. split_and!; try done.
    - intros k p. rewrite elem_of_nil. tauto.
    - by intros p []%elem_of_nil. }
  inversion Hnd as [|?? Hni Hnd']; subst. destruct (P r k p) eqn:HP.
  - destruct (drop_where P order (drop_entry k p r)) as [r1 d1] eqn:Hd. intros [= <- <-].
    assert (entries r !! k = Some p) as Hk by (apply Hent; by left).
    destruct (IH (p :: hand) (drop_entry k p r) r1 d1) as
      (Hi & Hr & Hl & Hp & Hc & Hw & Hm & He & Hin); try done.
    { by apply inv_drop. }
    { intros k' p' Hin. cbn. apply lookup_delete_Some. split; [|apply Hent; by right].
      intros <-. apply Hni. apply list_elem_of_fmap. by exists (k, p'). }
    assert (∀ q, refs_at (heap (drop_entry k p r)) q = refs_at (heap r) q) as Hsame.
    { intros q. unfold refs_at. cbn. destruct (decide (p = q)) as [<-|].
      - rewrite list_lookup_alter_eq. by destruct (heap r !! p).
      - by rewrite list_lookup_alter_ne. }
    split_and!; try done.
    + eapply inv_hand_ext; [|done]. intros q. cbn [app]. rewrite !elem_of_cons, !elem_of_app, elem_of_cons. tauto.
    + intros q. by rewrite Hr.
    + intros k' q. rewrite He. cbn. rewrite lookup_delete_Some, not_elem_of_cons. split.
      * intros [[Hne Hq] ?]. split; [done|]. split; [|done]. intros ->. apply Hne. by eapply (inv_inj _ _ Hinv).
      * intros [Hq [? ?]]. split; [|done]. split; [|done]. intros <-. congruence.
    + intros q [->|Hq]%elem_of_cons; [exists k, r; by split; [left|]|].
      destruct (Hin _ Hq) as (k' & r2 & Hk' & HP' & Hrefs). exists k', r2. split; [by right|]. split; [done|].
      intros q'. by rewrite Hrefs.
  - intros Hd. destruct (IH hand r r' dropped) as (Hi & Hr & Hl & Hp & Hc & Hw & Hm & He & Hin); try done.
    { intros k' p' Hin. apply Hent. by right. }
    split_and!; try done. intros q Hq. destruct (Hin _ Hq) as (k' & r2 & ? & ?). exists k', r2. by split; [right|].
Qed.

Lemma inv_add_closing hand r st ps :
  inv hand r → (∀ p, p ∈ ps → p ∈ hand ∧ held p (leases r) = 0) →
  (∀ p, p ∈ hand → p ∈ ps ∨ 0 < held p (leases r)) → inv [] (add_closing st ps r).
Proof.
  intros [He Ha Hh Hi Hn Hs Hd Hcl Hab] Hps Hhand.
  assert (∀ q, queued (add_closing st ps r) q ↔ q ∈ ps ∨ queued r q) as Hq
    by (intros q; by apply queued_insert).
  assert (∀ q, cached (add_closing st ps r) q ↔ cached r q) as Hc by done.
  split; try done.
  - intros p e Hp. destruct (He _ _ Hp) as [Hr Hca Hqu Hon Hze Hlo Her Hle Hcl'].
    split; rewrite ?Hq, ?Hc; try done.
    + intros [Hin|?]; [|auto]. destruct (Hps _ Hin). split; [done|auto].
    + destruct Hle as [?|[?|[?|[?|[?|Hin]]]]]; try tauto. destruct (Hhand _ Hin); tauto.
  - intros p. rewrite Hq, Hc. intros [?|[?|[[Hin|?]|[?|[]%elem_of_nil]]]]; apply Ha; try tauto.
    destruct (Hps _ Hin). tauto.
  - by intros p []%elem_of_nil.
Qed.

Lemma inv_set_pending hand r m :
  inv hand r → Z.of_nat (size (entries r)) + Z.of_nat (size m) ≤ maxEntries r →
  (∀ k p, entries r !! k = Some p → m !! k = None) → inv hand (set_pending m r).
Proof.
  intros [He Ha Hh Hi Hn Hs Hd Hcl Hab] Hsize Hdis. split; try done.
  intros p e Hp. destruct (He _ _ Hp). by split.
Qed.

Lemma flag_builds_dom f m k : flag_builds f m !! k = None ↔ m !! k = None.
Proof.
  unfold flag_builds. rewrite map_lookup_imap. destruct (m !! k) as [b|]; [|done].
  simpl. destruct b, (f k); done.
Qed.

Lemma flag_builds_size f m : size (flag_builds f m) = size m.
Proof.
  rewrite <- !size_dom. f_equal. apply set_eq. intros k. rewrite !elem_of_dom.
  rewrite <- !not_eq_None_Some. by rewrite flag_builds_dom.
Qed.

(** Closing an entry that is neither leased nor cached. *)
Lemma inv_close_entry hand r p fails :
  inv hand r → held p (leases r) = 0 → ¬ cached r p →
  inv hand (close_entry p fails r).
Proof.
  intros Hinv Hheld Hnc. unfold close_entry. destruct (heap r !! p) as [e|] eqn:Hp; [|done].
  destruct (closeOnce e) eqn:Ho; [done|]. destruct Hinv as [He Ha Hh Hi Hn Hs Hd Hcl Hab].
  destruct (He _ _ Hp) as [Hr Hca Hqu Hon Hze Hlo Her Hle Hcal].
  assert (p ∉ calls r) as Hnin by (rewrite <- Hcal; congruence).
  set (r' := add_call _ _).
  assert (∀ q, heap r' !! q = if decide (p = q) then Some (mkEntry (refs e) (lastUsed e)
    (invalidated e) (zero e) true fails) else heap r !! q) as Hheap.
  { intros q. cbn. destruct (decide (p = q)) as [<-|].
    - by rewrite list_lookup_insert_eq by (by eapply lookup_lt_Some).
    - by rewrite list_lookup_insert_ne. }
  assert (∀ q, cached r' q ↔ cached r q) as Hc by done.
  assert (∀ q, queued r' q ↔ queued r q) as Hq by done.
  split; try done.
  - intros q e'. rewrite Hheap. destruct (decide (p = q)) as [<-|Hne].
    + intros [= <-]. split; rewrite ?Hc, ?Hq; cbn; try done; try tauto. rewrite elem_of_cons. tauto.
    + intros Hq'. destruct (He _ _ Hq') as [Hr' Hca' Hqu' Hon' Hze' Hlo' Her' Hle' Hcal'].
      split; rewrite ?Hc, ?Hq; cbn; try done. rewrite Hcal', elem_of_cons. naive_solver.
  - intros q. rewrite Hc, Hq, Hheap. cbn. rewrite elem_of_cons. destruct (decide (p = q)) as [<-|]; [done|].
    intros [?|[?|[?|[[->|?]|?]]]]; try done; apply Ha; tauto.
  - cbn. by constructor.
  - cbn. intros Hne. destruct (Hab Hne) as (q & e' & Hq' & Hfail). exists q, e'. rewrite Hheap.
    destruct (decide (p = q)) as [<-|]; [|done]. naive_solver.
Qed.

(** The work of the calls changes: what leaves it was closed, or given up after a
    failure. *)
Lemma inv_settle hand r js ab :
  inv hand r →
  let r' := abandon ab (set_closing js r) in
  (∀ q, queued r' q → queued r q) →
  (∀ q e, queued r q → heap r !! q = Some e → queued r' q ∨ closeOnce e = true ∨ q ∈ ab) →
  (ab ≠ [] → ∃ p e, heap r !! p = Some e ∧ closeErr e = true) →
  inv hand r'.
Proof.
  intros [He Ha Hh Hi Hn Hs Hd Hcl Hab] r' Hsub Hout Hfail.
  assert (∀ q, cached r' q ↔ cached r q) as Hc by done.
  split; try done.
  - intros p e Hp. destruct (He _ _ Hp) as [Hr Hca Hqu Hon Hze Hlo Her Hle Hcal].
    split; rewrite ?Hc; try done.
    + intros ?%Hsub. auto.
    + cbn. rewrite elem_of_app. destruct Hle as [?|[?|[?|[Hq|[?|?]]]]]; try tauto.
      destruct (Hout _ _ Hq Hp) as [?|[?|?]]; tauto.
  - intros p. rewrite Hc. intros [?|[?|[?%Hsub|[?|?]]]]; apply Ha; tauto.
  - cbn. intros Hne. destruct ab as [|a ab]; [by apply Hab|by apply Hfail].
Qed.

(** One entry and its leases change. *)
Lemma registry_inv_update hand hand' r p e e' ls :
  inv hand r → heap r !! p = Some e → closeErr e' = closeErr e →
  (∀ q, q ≠ p → held q ls = held q (leases r)) →
  (∀ q, q ∈ hand → q ∈ hand') → (∀ q, q ∈ hand' → q ∈ hand ∨ q = p ∧ ¬ cached r p) →
  let r' := set_leases ls (set_heap (<[p := e']> (heap r)) r) in
  entry_ok hand' r' p e' → inv hand' r'.
Proof.
  intros [He Ha Hh Hi Hn Hs Hd Hcl Hab] Hp Her Hls Hsub Hhand r' Hok.
  assert (∀ q, heap r' !! q = if decide (p = q) then Some e' else heap r !! q) as Hheap.
  { intros q. cbn. destruct (decide (p = q)) as [<-|].
    - by rewrite list_lookup_insert_eq by (by eapply lookup_lt_Some).
    - by rewrite list_lookup_insert_ne. }
  split; try done.
  - intros q e1. rewrite Hheap. destruct (decide (p = q)) as [<-|Hne]; [by intros [= <-]|].
    intros Hq. destruct (He _ _ Hq) as [Hr Hca Hqu Hon Hze Hlo Her' Hle Hcal].
    assert (held q ls = held q (leases r)) as Hheld by (by apply Hls).
    split; cbn; rewrite ?Hheld; try done.
    destruct Hle as [?|[?|[?|[?|[?|?]]]]]; auto 10.
  - intros q. rewrite Hheap. destruct (decide (p = q)) as [<-|Hne]; [done|].
    cbn. rewrite Hls by done. intros [?|[?|[?|[?|Hin]]]]; apply Ha; try tauto.
    destruct (Hhand _ Hin) as [?|[? _]]; [tauto|congruence].
  - intros q Hq. by destruct (Hhand _ Hq) as [?|[-> ?]]; [apply Hh|].
  - cbn. intros Hne. destruct (Hab Hne) as (q & e1 & Hq & Hfail).
    destruct (decide (p = q)) as [<-|]; [exists p, e'|exists q, e1].
    + split; [|congruence]. by rewrite list_lookup_insert_eq by (by eapply lookup_lt_Some).
    + by rewrite list_lookup_insert_ne.
Qed.

(** An index that is not allocated is used nowhere. *)
Lemma inv_fresh hand r :
  inv hand r → let p := length (heap r) in
  ¬ cached r p ∧ held p (leases r) = 0 ∧ ¬ queued r p ∧ p ∉ calls r ∧ p ∉ hand.
Proof.
  intros Hinv p. assert (¬ is_Some (heap r !! p)) as Hnone.
  { rewrite lookup_ge_None_2 by done. by intros [? ?]. }
  pose proof (inv_alloc _ _ Hinv p). pose proof (held_nonneg p (leases r)).
  split_and!; try tauto. destruct (decide (0 < held p (leases r))); [|lia]. tauto.
Qed.

(** A Runner gets its entry. *)
Lemma inv_new_entry hand hand' r e m ls :
  inv hand r → closeErr e = false → closed r = false ∨ m = entries r →
  let p := length (heap r) in
  (∀ q, q ≠ p → held q ls = held q (leases r)) →
  (∀ k q, m !! k = Some q → entries r !! k = Some q ∨ q = p ∧ pending r !! k = None) →
  (∀ k q, entries r !! k = Some q → m !! k = Some q) →
  (∀ k1 k2, m !! k1 = Some p → m !! k2 = Some p → k1 = k2) →
  Z.of_nat (size m) + Z.of_nat (size (pending r)) ≤ maxEntries r →
  (∀ q, q ∈ hand → q ∈ hand') → (∀ q, q ∈ hand' → q ∈ hand ∨ q = p ∧ ∀ k, m !! k ≠ Some p) →
  let r' := set_leases ls (set_entries m (set_heap (heap r ++ [e]) r)) in
  entry_ok hand' r' p e → inv hand' r'.
Proof.
  intros Hinv Her Hcm p Hls Hm Hm' Hinj Hsize Hsub Hhand r' Hok.
  destruct (inv_fresh _ _ Hinv) as (Fc & Fh & Fq & Fca & Fha). fold p in Fc, Fh, Fq, Fca, Fha.
  destruct Hinv as [He Ha Hh Hi Hn Hs Hd Hcl Hab].
  assert (∀ q, q ≠ p → cached r' q ↔ cached r q) as Hc.
  { intros q Hne. split; intros (k & Hk).
    - apply Hm in Hk as [?|[? _]]; [by exists k|done].
    - exists k. by apply Hm'. }
  assert (∀ q, q ≠ p → heap r' !! q = heap r !! q) as Hheap.
  { intros q Hne. cbn. destruct (decide (q < p)%nat); [by rewrite lookup_app_l|].
    rewrite !lookup_ge_None_2; [done| |]; rewrite ?length_app; simpl; fold p; lia. }
  assert (heap r' !! p = Some e) as Hp by (cbn; by rewrite list_lookup_middle).
  split; try done.
  - intros q e1. destruct (decide (q = p)) as [->|Hne]; [rewrite Hp; by intros [= <-]|].
    rewrite Hheap by done. intros Hq. destruct (He _ _ Hq) as [Hr Hca Hqu Hon Hze Hlo Her' Hle Hcal].
    specialize (Hc _ Hne). specialize (Hls _ Hne).
    split; cbn; rewrite ?Hls, ?Hc; try done.
    destruct Hle as [?|[?|[?|[?|[?|?]]]]]; auto 10.
  - intros q. destruct (decide (q = p)) as [->|Hne]; [by rewrite Hp|].
    rewrite Hheap, Hc by done. cbn. rewrite Hls by done.
    intros [?|[?|[?|[?|Hin]]]]; apply Ha; try tauto. destruct (Hhand _ Hin) as [?|[? _]]; [tauto|done].
  - intros q Hq. destruct (Hhand _ Hq) as [Hin|[-> Hno]]; [|by intros [k ?%Hno]].
    rewrite Hc; [by apply Hh|]. intros ->. done.
  - cbn. intros k1 k2 q H1 H2. destruct (decide (q = p)) as [->|Hne]; [by apply Hinj|].
    apply Hm in H1 as [H1|[? _]]; [|done]. apply Hm in H2 as [H2|[? _]]; [|done]. by eapply Hi.
  - cbn. intros k q [Hk|[-> ?]]%Hm; [by eapply Hd|done].
  - cbn. intros Hc'. destruct Hcm as [?| ->]; [congruence|auto].
  - cbn. intros Hne. destruct (Hab Hne) as (q & e1 & Hq & Hfail). exists q, e1.
    split; [|done]. by apply lookup_app_l_Some.
Qed.

(** * The operations keep the invariant *)

Lemma refs_held hand r p :
  inv hand r → is_Some (heap r !! p) → refs_at (heap r) p = held p (leases r).
Proof. intros Hinv [e Hp]. unfold refs_at. rewrite Hp. by destruct (inv_entry _ _ Hinv _ _ Hp). Qed.

Lemma inv_set_waiting hand r ps : inv hand r → inv hand (set_waiting ps r).
Proof. intros [He Ha Hh Hi Hn Hs Hd Hcl Hab]. split; try done. intros p e Hp. destruct (He _ _ Hp). by split. Qed.

Lemma close_entry_once p fails r e :
  heap r !! p = Some e →
  ∃ e', heap (close_entry p fails r) !! p = Some e' ∧ closeOnce e' = true.
Proof.
  intros Hp. unfold close_entry. rewrite Hp. destruct (closeOnce e) eqn:Ho; [by exists e|].
  eexists. cbn. by rewrite list_lookup_insert_eq by (by eapply lookup_lt_Some).
Qed.

Lemma close_entry_closing p fails r : closing (close_entry p fails r) = closing r.
Proof. unfold close_entry. by repeat case_match. Qed.

Lemma inv_close_next i fails r : inv [] r → inv [] (close_next i fails r).
Proof.
  intros Hinv. unfold close_next. destruct (closing r !! i) as [[st [|p ps]]|] eqn:Hi; try done.
  assert (queued r p) as Hqp by (exists (mkJob st (p :: ps)); split; [by eapply list_elem_of_lookup_2|by left]).
  destruct (inv_alloc _ _ Hinv p) as [e Hp]; [tauto|].
  destruct (ok_queued _ _ _ _ (inv_entry _ _ Hinv _ _ Hp) Hqp) as [Hh0 Hnc].
  pose proof (inv_close_entry _ _ p fails Hinv Hh0 Hnc) as Hinv1.
  destruct (close_entry_once p fails r e Hp) as (e1 & Hp1 & Ho1).
  pose proof (close_entry_closing p fails r) as Hcl. set (r1 := close_entry p fails r) in *.
  assert (∀ js ps', js = <[i := mkJob st ps']> (closing r) → (∀ q, q ∈ ps' → q ∈ ps) →
    ∀ q, queued (set_closing js r1) q → queued r1 q) as Hdown.
  { intros js ps' -> Hsub q (j & Hj & Hq). cbn in Hj. unfold queued. rewrite Hcl.
    apply list_elem_of_lookup in Hj as [n Hn]. destruct (decide (i = n)) as [<-|].
    - rewrite list_lookup_insert_eq in Hn by (by eapply lookup_lt_Some). injection Hn as <-.
      exists (mkJob st (p :: ps)). split; [by eapply list_elem_of_lookup_2|]. right. by apply Hsub.
    - rewrite list_lookup_insert_ne in Hn by done. exists j. split; [by eapply list_elem_of_lookup_2|done]. }
  assert (∀ js ps', js = <[i := mkJob st ps']> (closing r) →
    ∀ q, queued r1 q → queued (set_closing js r1) q ∨ q ∈ p :: ps) as Hup.
  { intros js ps' -> q (j & Hj & Hq). rewrite Hcl in Hj.
    apply list_elem_of_lookup in Hj as [n Hn]. destruct (decide (i = n)) as [<-|].
    - right. by simplify_eq.
    - left. exists j. split; [|done]. apply list_elem_of_lookup_2 with n. cbn. by rewrite list_lookup_insert_ne. }
  destruct (st && close_failed p r1) eqn:Hst.
  - apply andb_true_iff in Hst as [-> Hfail].
    apply inv_settle; [done| | |].
    + eapply Hdown; [done|]. by intros q []%elem_of_nil.
    + intros q e' Hq Hq'. destruct (Hup _ [] eq_refl q Hq) as [?|[->|?]%elem_of_cons]; [by left| |tauto].
      right; left. congruence.
    + intros _. exists p, e1. split; [done|]. unfold close_failed in Hfail. by rewrite Hp1 in Hfail.
  - apply (inv_settle [] r1 (<[i := mkJob st ps]> (closing r)) [] Hinv1); [by eapply Hdown| |done].
    intros q e' Hq Hq'. destruct (Hup _ ps eq_refl q Hq) as [?|[->|Hin]%elem_of_cons]; [by left| |].
    + right; left. congruence.
    + left. exists (mkJob st ps). split; [|done]. apply list_elem_of_lookup_2 with i.
      change (<[i := mkJob st ps]> (closing r) !! i = Some (mkJob st ps)).
      by rewrite list_lookup_insert_eq by (by eapply lookup_lt_Some).
Qed.

Lemma Release_ok i now r : inv [] r → ∃ r', Release i now r = Some r' ∧ inv [] r'.
Proof.
  intros Hinv. unfold Release. destruct (leases r !! i) as [[p []]|] eqn:Hi; eauto.
  pose proof (held_pos _ _ _ Hi) as Hpos.
  destruct (inv_alloc _ _ Hinv p) as [e Hp]; [tauto|]. rewrite Hp.
  destruct (inv_entry _ _ Hinv _ _ Hp) as [Hr Hca Hqu Hon Hze Hlo Her Hle Hcal].
  assert (∀ q, q ≠ p → held q (<[i:=(p, true)]> (leases r)) = held q (leases r)) as Hls.
  { intros q Hne. rewrite (held_release _ _ _ p) by done. destruct (Nat.eqb_spec p q); simpl; [congruence|lia]. }
  assert (held p (<[i:=(p, true)]> (leases r)) = held p (leases r) - 1) as Hlp.
  { rewrite (held_release _ _ _ p) by done. by rewrite Nat.eqb_refl. }
  destruct (Z.ltb_spec (refs e) 1); [lia|].
  assert (closeOnce e = false) as Ho by (destruct (closeOnce e); [|done]; destruct Hon; [done|lia]).
  rewrite Ho in Her, Hcal.
  assert (zero e = false) as Hz by (destruct (zero e); [|done]; specialize (Hze eq_refl); lia).
  destruct (Z.eqb_spec (refs e - 1) 0) as [H1|Hn1]; simpl negb; cbv iota.
  - destruct (invalidated e || closed r) eqn:Hio.
    + rewrite Hz. eexists. split; [done|].
      assert (¬ cached r p) as Hnc.
      { apply orb_true_iff in Hio as [Hinva|Hclo].
        - intros [? _]%Hca. congruence.
        - intros [k Hk]. rewrite (inv_closed _ _ Hinv) in Hk by done. by rewrite lookup_empty in Hk. }
      apply (inv_add_closing [p]).
      * refine (registry_inv_update [] [p] r p e _ _ Hinv Hp _ Hls _ _ _); try done.
        { by intros q []%elem_of_nil. }
        { intros q ->%list_elem_of_singleton. by right. }
        split; cbn; rewrite ?Hlp, ?Ho; try done; try lia; try tauto.
                { intros [? ?]%Hqu. lia. }
        { do 5 right. by left. }
      * intros q ->%list_elem_of_singleton. split; [by left|]. cbn. lia.
      * intros q ?. by left.
    + apply orb_false_iff in Hio as [Hinva _]. eexists. split; [done|].
      refine (registry_inv_update [] [] r p e _ _ Hinv Hp _ Hls _ _ _); try done; try tauto.
      split; cbn; rewrite ?Hlp, ?Ho; try done; try lia; try tauto.
      * intros [? ?]%Hqu. lia.
      * destruct (Hlo Hpos) as [?|?]; [by left|congruence].
  - eexists. split; [done|].
    refine (registry_inv_update [] [] r p e _ _ Hinv Hp _ Hls _ _ _); try done; try tauto.
    split; cbn; rewrite ?Hlp, ?Ho; try done; try lia; try tauto.
    + intros [? ?]%Hqu. lia.
    + congruence.
Qed.

Lemma inv_close_waited i fails r : inv [] r → inv [] (close_waited i fails r).
Proof.
  intros Hinv. unfold close_waited. destruct (waiting r !! i) as [p|]; [|done].
  destruct (heap r !! p) as [e|] eqn:Hp; [|done]. destruct (zero e) eqn:Hz; [|done].
  destruct (inv_entry _ _ Hinv _ _ Hp). apply inv_close_entry.
  - by apply inv_set_waiting.
  - cbn. auto.
  - intros Hc. destruct (ok_cached0 Hc). congruence.
Qed.

(** The entries in hand that are not leased are closed next. *)
Lemma inv_close_idle r st ps dropped :
  inv dropped r →
  (∀ p, p ∈ ps ↔ p ∈ dropped ∧ held p (leases r) = 0) → inv [] (add_closing st ps r).
Proof.
  intros Hinv Hps. apply (inv_add_closing dropped); [done| |].
  - intros p Hp%Hps. done.
  - intros p Hp. pose proof (held_nonneg p (leases r)).
    destruct (decide (held p (leases r) = 0)); [left; by apply Hps|right; lia].
Qed.

Lemma list_alter_at {A} (f : A → A) i (l : list A) x : l !! i = Some x → alter f i l = <[i := f x]> l.
Proof. intros Hi. rewrite list_insert_alter. apply list_alter_ext; [|done]. intros y Hy. by simplify_eq. Qed.

Lemma inv_retain key p now r :
  inv [] r → entries r !! key = Some p →
  inv [] (set_leases (leases r ++ [(p, false)]) (retainLocked p now r)).
Proof.
  intros Hinv Hk. assert (cached r p) as Hc by (by exists key).
  destruct (inv_alloc _ _ Hinv p) as [e Hp]; [tauto|].
  destruct (inv_entry _ _ Hinv _ _ Hp) as [Hr Hca Hqu Hon Hze Hlo Her Hle Hcal].
  destruct (Hca Hc) as [Hinva Hz]. pose proof (held_nonneg p (leases r)).
  unfold retainLocked. rewrite (list_alter_at _ _ _ e) by done.
  assert (∀ q, held q (leases r ++ [(p, false)]) = held q (leases r) + Z.b2z (p =? q)%nat) as Hls.
  { intros q. rewrite held_app. simpl. rewrite andb_true_r. lia. }
  refine (registry_inv_update [] [] r p e _ _ Hinv Hp _ _ _ _ _); try done; try tauto.
  - intros q Hne. rewrite Hls. destruct (Nat.eqb_spec p q); simpl; [congruence|lia].
  - rewrite Hz, Hinva. assert (∀ b : bool, (if b then false else false) = false) as Hb by (by intros []).
    rewrite Hb. assert (closeOnce e = false) as Ho by (destruct (closeOnce e); [tauto|done]).
    split; cbn; rewrite ?Hls, ?Nat.eqb_refl; simpl; try done; try lia; try tauto.
Qed.

Lemma order_entries order (m : gmap CacheKey nat) :
  order ≡ₚ map_to_list m → NoDup order.*1 ∧ ∀ k p, (k, p) ∈ order → m !! k = Some p.
Proof.
  intros Hperm. split.
  - rewrite Hperm. apply NoDup_fst_map_to_list.
  - intros k p. rewrite Hperm. apply elem_of_map_to_list.
Qed.

(** What a dropping loop leaves in hand, with the leases of the dropped entries. *)
Lemma drop_where_held P order r r' dropped :
  inv [] r → order ≡ₚ map_to_list (entries r) → drop_where P order r = (r', dropped) →
  inv dropped r' ∧ leases r' = leases r ∧ pending r' = pending r ∧ closed r' = closed r
  ∧ maxEntries r' = maxEntries r
  ∧ (∀ k p, entries r' !! k = Some p ↔ entries r !! k = Some p ∧ p ∉ dropped)
  ∧ (∀ p, p ∈ dropped → refs_at (heap r) p = held p (leases r) ∧ ∃ k r2, entries r !! k = Some p
      ∧ P r2 k p = true ∧ ∀ q, refs_at (heap r2) q = refs_at (heap r) q)
  ∧ (∀ p, refs_at (heap r') p = refs_at (heap r) p).
Proof.
  intros Hinv Hperm Hd. destruct (order_entries _ _ Hperm) as [Hnd Hent].
  destruct (drop_where_spec P order [] r r' dropped) as (Hi & Hr & Hl & Hp & Hc & Hw & Hm & He & Hin); try done.
  rewrite app_nil_r in Hi. split_and!; try done. intros p Hdp.
  destruct (Hin _ Hdp) as (k & r2 & Hk & HP & Hrefs). apply Hent in Hk. split; [|by exists k, r2].
  eapply refs_held; [done|]. eapply inv_alloc; [done|]. left. by exists k.
Qed.

Lemma oldest_spec h order key p :
  oldest h order = Some (key, p) → (key, p) ∈ order ∧ refs_at h p = 0.
Proof.
  unfold oldest. set (f := λ best kp, _).
  assert (∀ best, (∀ b, best = Some b → refs_at h b.2 = 0) →
    ∀ b, foldl f best order = Some b → (b ∈ order ∨ best = Some b) ∧ refs_at h b.2 = 0) as Hgen.
  { induction order as [|kp order IH]; intros best Hbest b; simpl; [by eauto|]. intros Hb.
    destruct (IH (f best kp)) with b as [[Hin|Heq] H0]; try done.
    - intros b'. unfold f. destruct (Z.eqb_spec (refs_at h kp.2) 0) as [Hz|]; simpl; [|apply Hbest].
      destruct best as [b0|]; [destruct (before _ _)|]; intros [= <-]; auto.
    - split; [|done]. left. by right.
    - split; [|done]. unfold f in Heq. destruct (negb _); [by right|].
      destruct best as [b0|]; [destruct (before _ _)|]; injection Heq as <-; [left; by left|by right|left; by left]. }
  intros Hb. destruct (Hgen None) with (key, p) as [[?|?] ?]; done.
Qed.

(** Making room: idle entries and, when that is not enough, the oldest one leave the
    cache, none of them leased. *)
Lemma evict_spec now order1 order2 r r1 idle r2 evicted :
  inv [] r → order1 ≡ₚ map_to_list (entries r) → order2 ≡ₚ map_to_list (entries r1) →
  evictIdleLocked now order1 r = (r1, idle) →
  (r2, evicted) = (if maxEntries r1 <=? slotCountLocked r1 then evictCapacityLocked order2 r1 else (r1, [])) →
  inv (idle ++ evicted) r2 ∧ (∀ p, p ∈ idle ++ evicted → held p (leases r2) = 0)
  ∧ (∀ k p, entries r2 !! k = Some p → entries r !! k = Some p)
  ∧ pending r2 = pending r ∧ leases r2 = leases r ∧ closed r2 = closed r.
Proof.
  intros Hinv Ho1 Ho2 H1 H2.
  assert (inv idle r1 ∧ (∀ p, p ∈ idle → held p (leases r1) = 0)
    ∧ (∀ k p, entries r1 !! k = Some p → entries r !! k = Some p)
    ∧ pending r1 = pending r ∧ leases r1 = leases r ∧ closed r1 = closed r) as (Hi1 & Hh1 & He1 & Hp1 & Hl1 & Hc1).
  { unfold evictIdleLocked in H1. destruct (idleTTL r <=? 0).
    { injection H1 as <- <-. split_and!; try done. by intros p []%elem_of_nil. }
    destruct (drop_where_held _ _ _ _ _ Hinv Ho1 H1) as (Hi & Hl & Hp & Hc & _ & He & Hin & _).
    split_and!; try done.
    - intros p Hp'. destruct (Hin _ Hp') as (Hr & k & r3 & _ & HP & Hrefs).
      apply andb_true_iff in HP as [HP%Z.eqb_eq _]. rewrite Hl, <- Hr, <- Hrefs. done.
    - intros k p Hk%He. tauto. }
  destruct (maxEntries r1 <=? slotCountLocked r1); [|injection H2 as -> ->; by rewrite app_nil_r].
  unfold evictCapacityLocked in H2. destruct (oldest (heap r1) order2) as [[key p]|] eqn:Hold;
    [|injection H2 as -> ->; by rewrite app_nil_r].
  injection H2 as -> ->. apply oldest_spec in Hold as [Hin H0]. apply (order_entries _ _ Ho2) in Hin.
  split_and!; try done.
  - apply (inv_hand_ext (p :: idle)); [|by apply inv_drop].
    intros q. rewrite elem_of_cons, elem_of_app, list_elem_of_singleton. tauto.
  - intros q [Hq| ->%list_elem_of_singleton]%elem_of_app; [by apply Hh1|]. cbn.
    rewrite <- (refs_held idle r1 p), H0; [done..|]. eapply inv_alloc; [done|]. left. by exists key.
  - cbn. intros k q [_ ?]%lookup_delete_Some. auto.
Qed.

Lemma inv_acquireOnce key now order1 order2 r :
  inv [] r → order1 ≡ₚ map_to_list (entries r) →
  order2 ≡ₚ map_to_list (entries (evictIdleLocked now order1 r).1) →
  inv [] (acquireOnce key now order1 order2 r).1.
Proof.
  intros Hinv Ho1 Ho2. unfold acquireOnce. destruct (closed r) eqn:Hcl; [done|].
  destruct (entries r !! key) as [p|] eqn:Hk.
  { destruct (inv_alloc _ _ Hinv p) as [e Hp]; [left; by exists key|]. rewrite Hp.
    destruct (ok_cached _ _ _ _ (inv_entry _ _ Hinv _ _ Hp)) as [-> _]; [by exists key|].
    by eapply inv_retain. }
  destruct (pending r !! key) eqn:Hpe; [done|].
  destruct (evictIdleLocked now order1 r) as [r1 idle] eqn:H1. cbn in Ho2.
  destruct (if maxEntries r1 <=? slotCountLocked r1 then _ else _) as [r2 evicted] eqn:H2.
  destruct (evict_spec now order1 order2 r r1 idle r2 evicted) as (Hi & Hh & He & Hp & Hl & Hc); try done.
  assert (∀ r3, leases r3 = leases r2 → inv (idle ++ evicted) r3 →
    inv [] (add_closing false (idle ++ evicted) r3)) as Hadd.
  { intros r3 Hl3 Hi3. apply (inv_add_closing (idle ++ evicted)); [done| |by left].
    intros p Hp'. rewrite Hl3. split; [done|by apply Hh]. }
  destruct (Z.leb_spec (maxEntries r2) (slotCountLocked r2)); [by apply Hadd|].
  apply Hadd; [done|]. apply inv_set_pending; [done| |].
  - unfold slotCountLocked in *. rewrite Hp in *. rewrite map_size_insert, Hpe. lia.
  - intros k p Hkp. rewrite Hp, lookup_insert_ne.
    + apply (inv_disjoint _ _ Hinv k p). by apply He.
    + intros ->. apply He in Hkp. congruence.
Qed.

Lemma inv_finishRunnerBuild key has_runner err ctx_err now r :
  inv [] r → inv [] (finishRunnerBuild key has_runner err ctx_err now r).1.
Proof.
  intros Hinv. unfold finishRunnerBuild. destruct (pending r !! key) as [inva|] eqn:Hpe; [|done].
  set (r1 := set_pending (delete key (pending r)) r).
  assert (size (delete key (pending r)) = (size (pending r) - 1)%nat ∧ (0 < size (pending r))%nat) as [Hsz Hpos].
  { rewrite map_size_delete, Hpe. split; [lia|]. destruct (decide (size (pending r) = 0)%nat) as [Hz|]; [|lia].
    apply map_size_empty_inv in Hz. by rewrite Hz, lookup_empty in Hpe. }
  pose proof (inv_slots _ _ Hinv) as Hslots. unfold slotCountLocked in Hslots.
  assert (inv [] r1) as Hinv1.
  { apply inv_set_pending; [done|lia|]. intros k p Hk. apply lookup_delete_None. right. by eapply inv_disjoint. }
  destruct (inv_fresh _ _ Hinv1) as (Fc & Fh & Fq & Fca & _). cbn in Fc, Fh, Fq, Fca.
  destruct (build_error has_runner err ctx_err (closed r) inva) as [e|] eqn:Hbe; cbn [fst].
  - destruct has_runner; [|done]. apply (inv_add_closing [length (heap r)]).
    + refine (inv_new_entry [] [length (heap r)] r1 _ (entries r) (leases r) Hinv1 _ _ _ _ _ _ _ _ _ _);
        try done; try tauto.
      * intros k1 k2 Hk. destruct Fc. by exists k1.
      * cbn. lia.
      * by intros q []%elem_of_nil.
      * intros q ->%list_elem_of_singleton. right. split; [done|]. intros k Hk. apply Fc. by exists k.
      * split; cbn; try done; try lia. do 5 right. by left.
    + intros p ->%list_elem_of_singleton. split; [by left|done].
    + intros p Hp. by left.
  - assert (closed r = false) as Hncl.
    { unfold build_error in Hbe. by repeat case_match. }
    assert (entries r !! key = None) as Hke.
    { destruct (entries r !! key) eqn:Hk; [|done]. apply (inv_disjoint _ _ Hinv) in Hk. congruence. }
    refine (inv_new_entry [] [] r1 _ (<[key := length (heap r)]> (entries r)) _ Hinv1 _ _ _ _ _ _ _ _ _ _);
      try done; try tauto.
    + intros q Hne. rewrite held_app. simpl. destruct (Nat.eqb_spec (length (heap r)) q); [by subst|]. simpl. lia.
    + intros k q [[<- <-]|[Hne Hk]]%lookup_insert_Some; [right|by left]. split; [done|]. apply lookup_delete_eq.
    + intros k q Hk. cbn in Hk. apply lookup_insert_Some. right. split; [congruence|done].
    + intros k1 k2 [[<- _]|[_ Hk]]%lookup_insert_Some; [|destruct Fc; by exists k1].
      intros [[<- _]|[_ Hk]]%lookup_insert_Some; [done|destruct Fc; by exists k2].
    + cbn. rewrite map_size_insert, Hke. lia.
    + split; cbn; rewrite ?held_app; simpl; rewrite ?Nat.eqb_refl; simpl; try done; try lia.
      * intros ?. left. exists key. apply lookup_insert_eq.
Qed.

(** An entry in hand that is leased is left to its leases. *)
Lemma inv_put_down hand r :
  inv hand r → (∀ p, p ∈ hand → 0 < held p (leases r)) → inv [] r.
Proof.
  intros [He Ha Hh Hi Hn Hs Hdi Hcl Hab] Hhand. split; try done.
  - intros q e Hq. destruct (He _ _ Hq) as [? ? ? ? ? ? ? Hle ?]. split; try done.
    destruct Hle as [?|[?|[?|[?|[?|?]]]]]; auto 10.
  - intros q [?|[?|[?|[?|[]%elem_of_nil]]]]; apply Ha; tauto.
  - by intros q []%elem_of_nil.
Qed.

Lemma inv_Invalidate key r : inv [] r → inv [] (Invalidate key r).1.
Proof.
  intros Hinv. unfold Invalidate. destruct (closed r); [done|].
  set (r1 := set_pending _ r). assert (inv [] r1) as Hinv1.
  { apply inv_set_pending; [done| |].
    - pose proof (inv_slots _ _ Hinv) as Hs. unfold slotCountLocked in Hs. by rewrite <- (size_dom (alter _ _ _)), dom_alter_L, size_dom.
    - intros k p Hk. rewrite lookup_alter_None. by eapply inv_disjoint. }
  destruct (entries r1 !! key) as [p|] eqn:Hk; [|done].
  pose proof (inv_drop _ _ _ _ Hinv1 Hk) as Hd.
  assert (refs_at (heap r) p = held p (leases r)) as Hr.
  { eapply refs_held; [done|]. eapply inv_alloc; [done|]. left. by exists key. }
  pose proof (held_nonneg p (leases r)). destruct (Z.eqb_spec (refs_at (heap r) p) 0); cbn [fst].
  - apply (inv_add_closing [p]); [done| |by left]. intros q ->%list_elem_of_singleton. split; [by left|]. cbn. lia.
  - apply (inv_put_down [p]); [done|]. intros q ->%list_elem_of_singleton. cbn. lia.
Qed.

Lemma inv_flag_builds predicate hand r :
  inv hand r → inv hand (set_pending (flag_builds predicate (pending r)) r).
Proof.
  intros Hinv. apply inv_set_pending; [done| |].
  - rewrite flag_builds_size. apply (inv_slots _ _ Hinv).
  - intros k p Hk. apply flag_builds_dom. by eapply inv_disjoint.
Qed.

Lemma inv_InvalidateMatching predicate order r :
  inv [] r → order ≡ₚ map_to_list (entries r) → inv [] (InvalidateMatching predicate order r).1.
Proof.
  intros Hinv Ho. unfold InvalidateMatching. destruct (closed r); [done|].
  set (r1 := set_pending _ r). assert (inv [] r1) as Hinv1 by (by apply inv_flag_builds).
  destruct (drop_where _ _ r1) as [r2 dropped] eqn:Hd. cbn [fst].
  destruct (drop_where_held _ _ _ _ _ Hinv1 Ho Hd) as (Hi & Hl & _ & _ & _ & _ & Hin & _).
  apply (inv_close_idle _ _ _ dropped); [done|]. intros p. rewrite list_elem_of_filter, Hl. split.
  - intros [Hr Hp]. destruct (Hin _ Hp) as [Heq _]. cbn in Heq. split; [done|]. cbn. lia.
  - intros [Hp Hh]. destruct (Hin _ Hp) as [Heq _]. cbn in Heq, Hh. split; [lia|done].
Qed.

Lemma inv_set_closed hand r : inv hand r → entries r = ∅ → inv hand (set_closed r).
Proof. intros [He Ha Hh Hi Hn Hs Hd Hcl Hab] ?. split; try done. intros p e Hp. destruct (He _ _ Hp). by split. Qed.

Lemma drop_all P order r :
  (∀ r' k p, P r' k p = true) → (drop_where P order r).2 = order.*2.
Proof.
  intros HP. revert r. induction order as [|[k p] order IH]; intros r; simpl; [done|]. rewrite HP.
  specialize (IH (drop_entry k p r)). destruct (drop_where _ _ _). simpl in *. by f_equal.
Qed.

Lemma inv_Close order r : inv [] r → order ≡ₚ map_to_list (entries r) → inv [] (Close order r).
Proof.
  intros Hinv Ho. unfold Close. destruct (closed r); [done|].
  pose proof (drop_all (λ _ _ _, true) order r (λ _ _ _, eq_refl)) as Hall.
  destruct (drop_where _ _ r) as [r1 dropped] eqn:Hd. cbn in Hall.
  destruct (drop_where_held _ _ _ _ _ Hinv Ho Hd) as (Hi & Hl & Hp & Hc & Hm & He & Hin & _).
  apply (inv_close_idle _ _ _ dropped).
  - apply inv_set_waiting, (inv_flag_builds _ dropped (set_closed r1)), inv_set_closed; [done|].
    apply map_empty. intros k. destruct (entries r1 !! k) as [p|] eqn:Hk; [|done]. exfalso.
    apply He in Hk as [Hk Hno]. apply Hno. rewrite Hall. apply list_elem_of_fmap. exists (k, p).
    split; [done|]. rewrite Ho. by apply elem_of_map_to_list.
  - intros p. rewrite list_elem_of_filter. cbn. rewrite Hl. pose proof (held_nonneg p (leases r)). split.
    + intros [Hr Hp']. destruct (Hin _ Hp') as [Heq _]. split; [done|]. lia.
    + intros [Hp' Hh]. destruct (Hin _ Hp') as [Heq _]. split; [lia|done].
Qed.

Lemma step_inv r r' : step r r' → inv [] r → inv [] r'.
Proof.
  intros [] Hinv.
  - by apply inv_acquireOnce.
  - by apply inv_finishRunnerBuild.
  - by apply inv_close_next.
  - destruct (Release_ok i now r0 Hinv) as (r2 & Heq & ?). congruence.
  - by apply inv_Invalidate.
  - by apply inv_InvalidateMatching.
  - by apply inv_Close.
  - by apply inv_close_waited.
  - by apply inv_set_waiting.
Qed.

Lemma registry_reachable_inv config r : reachable config r → inv [] r.
Proof.
  intros (r0 & Hnew & Hsteps). apply inv_new in Hnew. induction Hsteps; eauto using step_inv.
Qed.

(** * Properties *)

Lemma acquire_hit key now order1 order2 r r' l :
  inv [] r → acquireOnce key now order1 order2 r = (r', AcquireLease l) →
  ∃ p e, entries r !! key = Some p ∧ heap r !! p = Some e ∧ invalidated e = false
    ∧ p ∉ calls r' ∧ leases r' !! l = Some (p, false).
Proof.
  intros Hinv. unfold acquireOnce. destruct (closed r); [done|]. destruct (entries r !! key) as [p|] eqn:Hk.
  - destruct (inv_alloc _ _ Hinv p) as [e Hp]; [left; by exists key|]. rewrite Hp.
    assert (cached r p) as Hc by (by exists key). destruct (inv_entry _ _ Hinv _ _ Hp).
    destruct (ok_cached0 Hc) as [Hinva _]. rewrite Hinva. intros [= <- <-]. exists p, e. split_and!; try done.
    + cbn. rewrite <- ok_calls0. intros ?. tauto.
    + cbn. by rewrite list_lookup_middle.
  - repeat case_match; naive_solver.
Qed.

Lemma invalidated_key key has_runner err ctx_err now r :
  inv [] r → let r1 := (Invalidate key r).1 in
  entries r1 !! key = None ∧ entries (finishRunnerBuild key has_runner err ctx_err now r1).1 !! key = None.
Proof.
  intros Hinv. unfold Invalidate. destruct (closed r) eqn:Hcl.
  { cbn. assert (entries r !! key = None) as Hnone by (by rewrite (inv_closed _ _ Hinv), lookup_empty).
    split; [done|]. unfold finishRunnerBuild. destruct (pending r !! key); [|done].
    destruct (build_error _ _ _ _ _) eqn:Hb; cbn; [by destruct has_runner|].
    rewrite Hcl in Hb. unfold build_error in Hb. by repeat case_match. }
  set (r1 := set_pending _ r). set (out := match entries r1 !! key with Some _ => _ | None => _ end).
  assert (entries out.1 !! key = None ∧ pending out.1 = alter (λ _, true) key (pending r)) as [He Hp].
  { subst out. destruct (entries r1 !! key) eqn:Hk; [|done]. destruct (_ =? 0); cbn; by rewrite lookup_delete_eq. }
  split; [done|]. unfold finishRunnerBuild. rewrite Hp, lookup_alter_eq.
  destruct (pending r !! key) as [b|]; [|done]. cbn [fmap option_fmap option_map].
  destruct (build_error _ _ _ _ _) eqn:Hb; cbn [fst]; [by destruct has_runner|].
  unfold build_error in Hb. repeat case_match; done.
Qed.

(** C15: The Runner registry never closes a Runner under a lease: in every reachable
    state a lease that was not released refers to a Runner that was not told to close and
    that no call is going to close, releasing it does not panic, and no Runner is told to
    close twice.  A lease is only handed out for the current, not invalidated entry of
    its key, with a Runner that was not closed.  After an invalidation neither the
    cached entry nor the outcome of a build that was already running serves the key. *)
Theorem registry_lease_safe config r :
  reachable config r →
  (∀ i p, leases r !! i = Some (p, false) →
     p ∉ calls r ∧ ¬ queued r p ∧ ∀ now, is_Some (Release i now r))
  ∧ NoDup (calls r)
  ∧ (∀ key now order1 order2 r' l, acquireOnce key now order1 order2 r = (r', AcquireLease l) →
       ∃ p e, entries r !! key = Some p ∧ heap r !! p = Some e ∧ invalidated e = false
         ∧ p ∉ calls r' ∧ leases r' !! l = Some (p, false))
  ∧ (∀ key has_runner err ctx_err now, let r1 := (Invalidate key r).1 in
       entries r1 !! key = None
       ∧ entries (finishRunnerBuild key has_runner err ctx_err now r1).1 !! key = None).
Proof.
  intros Hinv%registry_reachable_inv. split_and!.
  - intros i p Hi. pose proof (held_pos _ _ _ Hi) as Hpos.
    destruct (inv_alloc _ _ Hinv p) as [e Hp]; [tauto|]. destruct (inv_entry _ _ Hinv _ _ Hp).
    split_and!.
    + rewrite <- ok_calls0. intros [? _]%ok_once0. lia.
    + intros [? _]%ok_queued0. lia.
    + intros now. destruct (Release_ok i now r Hinv) as (r' & -> & _). by exists r'.
  - apply (inv_calls _ _ Hinv).
  - intros key now order1 order2 r' l. by apply acquire_hit.
  - intros key has_runner err ctx_err now. by apply invalidated_key.
Qed.

(** The registry holds no more Runners and builds than its capacity and loses none:
    in every reachable state each Runner that a build produced is cached, leased, closed,
    about to be closed by a running call, or was given up by an invalidation that stopped
    at another Runner's failure to close.  When no Runner fails to close, nothing is given
    up.  A closed registry caches nothing, so that once its calls are done and its leases
    are released, every Runner was told to close. *)
Theorem registry_no_leak config r :
  reachable config r →
  slotCountLocked r ≤ maxEntries r
  ∧ (∀ p, (p < length (heap r))%nat →
       cached r p ∨ (∃ i, leases r !! i = Some (p, false)) ∨ p ∈ calls r ∨ queued r p ∨ p ∈ abandoned r)
  ∧ ((∀ p e, heap r !! p = Some e → closeErr e = false) →
       abandoned r = []
       ∧ (closed r = true → (∀ p, ¬ queued r p) → (∀ i p, leases r !! i ≠ Some (p, false)) →
          ∀ p, (p < length (heap r))%nat → p ∈ calls r)).
Proof.
  intros Hinv%registry_reachable_inv.
  assert (∀ p, (p < length (heap r))%nat → cached r p ∨ (∃ i, leases r !! i = Some (p, false))
    ∨ p ∈ calls r ∨ queued r p ∨ p ∈ abandoned r) as Hall.
  { intros p [e Hp]%lookup_lt_is_Some_2. destruct (inv_entry _ _ Hinv _ _ Hp).
    destruct ok_leak0 as [?|[?%held_lease|[?|[?|[?|[]%elem_of_nil]]]]]; tauto. }
  split_and!; [apply (inv_slots _ _ Hinv)|done|]. intros Hok.
  assert (abandoned r = []) as Hab.
  { destruct (abandoned r) eqn:Ha; [done|]. destruct (inv_abandoned _ _ Hinv) as (p & e & Hp & Hf); [by rewrite Ha|].
    by rewrite (Hok p e Hp) in Hf. }
  split; [done|]. intros Hcl Hq Hl p Hp.
  destruct (Hall p Hp) as [[k Hk]|[[i Hi]|[?|[?|Hin]]]]; [|by destruct (Hl i p)|done|by destruct (Hq p)|].
  - by rewrite (inv_closed _ _ Hinv), lookup_empty in Hk.
  - by rewrite Hab in Hin; apply elem_of_nil in Hin.
Qed.

(** * Witnesses *)

Definition ex_key (app : string) : CacheKey := mkCacheKey "t" 1 app 1 1 "d" "m" 1 "d" "b" 1 "d".
Definition ex_config : RunnerRegistryConfig := mkConfig 2 0 0 true.
Definition ex_new : RunnerRegistry := mkRegistry 2 defaultRunnerRegistryIdleTTL ∅ ∅ false [] [] [] [] [] [].
(** A build that succeeds, as one caller sees it. *)
Definition ex_build (key : CacheKey) (now : time) (r : RunnerRegistry) : RunnerRegistry :=
  let order := map_to_list (entries r) in
  (finishRunnerBuild key true None None now
     (acquireOnce key now order (map_to_list (entries (evictIdleLocked now order r).1)) r).1).1.

Lemma ex_build_steps key now r : rtc step r (ex_build key now r).
Proof. eapply rtc_l; [by apply (step_acquire key now)|]. apply rtc_once, step_finish. Qed.

(** The state after a build and an invalidation of its key, with the lease still out. *)
Definition ex_invalidated : RunnerRegistry := (Invalidate (ex_key "a") (ex_build (ex_key "a") 5 ex_new)).1.

Lemma ex_invalidated_reachable : reachable ex_config ex_invalidated.
Proof.
  exists ex_new. split; [done|]. eapply rtc_r; [apply (ex_build_steps (ex_key "a") 5)|]. apply step_invalidate.
Qed.

Lemma registry_lease_safe_witness :
  leases ex_invalidated = [(0%nat, false)] ∧ 0%nat ∉ calls ex_invalidated
  ∧ is_Some (Release 0 7 ex_invalidated).
Proof.
  assert (leases ex_invalidated = [(0%nat, false)]) as Hl by (vm_compute; reflexivity).
  split; [done|].
  destruct (proj1 (registry_lease_safe ex_config ex_invalidated ex_invalidated_reachable) 0%nat 0%nat) as (Hc & _ & Hr).
  { by rewrite Hl. }
  split; [done|]. apply Hr.
Defined.

Lemma registry_no_leak_witness :
  slotCountLocked ex_invalidated = 0 ∧ abandoned ex_invalidated = [].
Proof.
  split; [vm_compute; reflexivity|].
  apply (registry_no_leak ex_config ex_invalidated ex_invalidated_reachable). intros p e.
  assert (heap ex_invalidated = [mkEntry 1 5 true false false false]) as Hh by (vm_compute; reflexivity).
  rewrite Hh. destruct p as [|p]; simpl; intros Hp; [|by rewrite lookup_nil in Hp]. by injection Hp as <-.
Defined.

(** Two idle Runners of a tenant are invalidated together; the first fails to close, and
    the second is never told to close although nothing can reach it any more. *)
Example invalidation_gives_up :
  let r0 := ex_build (ex_key "b") 6 (ex_build (ex_key "a") 5 ex_new) in
  match Release 0 7 r0 with
  | Some r1 =>
      match Release 1 8 r1 with
      | Some r2 =>
          let r3 := (InvalidateTenant "t" (map_to_list (entries r2)) r2).1 in
          let r4 := close_next 0 true r3 in
          length (abandoned r4) = 1%nat ∧ length (calls r4) = 1%nat ∧ map todo (closing r4) = [[]; []; []]
            ∧ size (entries r4) = 0%nat
      | None => False
      end
  | None => False
  end.
Proof. vm_compute. auto. Qed.
