(* ===== verification/RegistryCallers.v ===== *)
(** The calls of [RunnerRegistry.Acquire], [trpcservice/gateway/registry.go]: the retry loop
    around [acquireOnce], the waiting for a build that another call performs, and the
    factory call outside the lock, for any number of concurrent calls over the shared
    registry of [Registry.v].

    A call that holds the lock for a while is one transition of the system.  The identity
    of a build, which the registry knows by its pointer, is its number here; [dones] tells
    which [done] channels are closed.  What a call meets during a turn - the clock, the
    orders in which Go visits the entries, the answer of the factory and its context - is
    an argument of the turn. *)
From S2P Require Import Prelude GoStrings Registry Plan.
Local Open Scope Z_scope.

Notation CacheKey := Registry.CacheKey (only parsing).

Inductive phase :=
| Looping
| Waiting (b : nat)
| Building (b : nat)
| Returned (res : result error nat).

Record caller := mkCaller { c_key : CacheKey; c_phase : phase }.

Record system := mkSystem {
  registry : RunnerRegistry;
  callers : list caller;
  (* the build that is in [registry.pending] under a key *)
  running : gmap CacheKey nat;
  dones : list bool }.

Record moment := mkMoment {
  m_now : time;
  m_order1 : list (CacheKey * nat);
  m_order2 : list (CacheKey * nat);
  (* the factory: whether it returned a Runner, and its error *)
  m_runner : bool;
  m_err : option error;
  (* two readings of [ctx.Err()] *)
  m_ctx : option ctx_error;
  m_ctx' : option ctx_error }.

(** * The registry of the service *)

(** What [NewRuntimeRunnerRegistry] looks at: which of the services are there. *)
Record RuntimeRunnerRegistryConfig := mkRuntimeConfig {
  rc_Registry : RunnerRegistryConfig; rc_ModelFactory : bool; rc_Sessions : bool; rc_StorageFactory : bool }.

(** The factory that it installs calls [runtime.NewRunnerWithObservability]. *)
Definition NewRuntimeRunnerRegistry (config : RuntimeRunnerRegistryConfig) : result error RunnerRegistry :=
  if negb (rc_ModelFactory config) || (negb (rc_Sessions config) && negb (rc_StorageFactory config))
  then Err ErrInvalid
  else
    let c := rc_Registry config in
    NewRunnerRegistry (mkConfig (MaxEntries c) (IdleTTL c) (CloseTimeout c) true).

(** * The call *)

Definition registry_key (key : Plan.CacheKey) : CacheKey :=
  mkCacheKey (Plan.k_TenantID key) (Plan.k_TenantVersion key) (Plan.k_AppID key) (Plan.k_AppVersion key)
    (Plan.k_Revision key) (Plan.k_AgentContentDigest key) (Plan.k_ModelProfileID key)
    (Plan.k_ModelProfileVersion key) (Plan.k_ModelContentDigest key) (Plan.k_BackendProfileID key)
    (Plan.k_BackendProfileVersion key) (Plan.k_BackendContentDigest key).

(** The checks of [Acquire] before its loop; [present] is [registry != nil]. *)
Definition acquire_checks (present : bool) (ctx : context) (plan : ExecutionPlan) : result error CacheKey :=
  if negb present then Err ErrNotReady
  else match ctx with
  | None => Err ErrInvalid
  | Some c =>
      match c 0%nat with
      | Some e => Err (ErrContext e)
      | None => match plan_CacheKey plan with
                | Err _ => Err ErrInvalid
                | Ok key => Ok (registry_key key)
                end
      end
  end.

(** A call begins: refused at once, or in the loop. *)
Definition Acquire (ctx : context) (plan : ExecutionPlan) (s : system) : system * option error :=
  match acquire_checks true ctx plan with
  | Err e => (s, Some e)
  | Ok key => (mkSystem (registry s) (callers s ++ [mkCaller key Looping]) (running s) (dones s), None)
  end.

(** [None] while neither channel is ready; [first] is the choice of [select] when both are. *)
Definition waitForRunnerBuild (done first : bool) (ctx_err : option ctx_error) : option (result error bool) :=
  if done && (first || negb (bool_decide (is_Some ctx_err)))
  then match ctx_err with
       | Some e => Some (Err (ErrContext e))
       | None => Some (Ok true)
       end
  else match ctx_err with
       | Some e => Some (Err (ErrContext e))
       | None => None
       end.

(** How [finishRunnerBuild] answers its call, after the part under the lock. *)
Definition build_answer (err : option error) (lease : nat) (ctx_err : option ctx_error) : phase :=
  match err with
  | None => Returned (Ok lease)
  | Some errRunnerInvalidated =>
      match ctx_err with Some e => Returned (Err (ErrContext e)) | None => Looping end
  | Some e => Returned (Err e)
  end.

Definition set_caller (i : nat) (ph : phase) (s : system) : system :=
  mkSystem (registry s) (alter (λ c, mkCaller (c_key c) ph) i (callers s)) (running s) (dones s).

(** One turn of a call that has not returned. *)
Definition turn_loop (i : nat) (key : CacheKey) (m : moment) (s : system) : option system :=
  let '(r, out) := acquireOnce key (m_now m) (m_order1 m) (m_order2 m) (registry s) in
  let s' := mkSystem r (callers s) (running s) (dones s) in
  match out with
  | AcquireErr e => Some (set_caller i (Returned (Err e)) s')
  | AcquireLease l => Some (set_caller i (Returned (Ok l)) s')
  | AcquireWait => match running s !! key with
                   | Some b => Some (set_caller i (Waiting b) s')
                   | None => None
                   end
  | AcquireBuild =>
      let b := length (dones s) in
      Some (set_caller i (Building b) (mkSystem r (callers s) (<[key := b]> (running s)) (dones s ++ [false])))
  end.

Definition turn_wait (i : nat) (b : nat) (first : bool) (m : moment) (s : system) : option system :=
  match waitForRunnerBuild (default false (dones s !! b)) first (m_ctx m) with
  | None => None
  | Some (Err e) => Some (set_caller i (Returned (Err e)) s)
  | Some (Ok _) => Some (set_caller i Looping s)
  end.

Definition turn_build (i : nat) (key : CacheKey) (b : nat) (m : moment) (s : system) : system :=
  let '(r, err) := finishRunnerBuild key (m_runner m) (m_err m) (ErrContext <$> m_ctx m) (m_now m) (registry s) in
  set_caller i (build_answer err (length (leases (registry s))) (m_ctx' m))
    (mkSystem r (callers s) (delete key (running s)) (<[b := true]> (dones s))).

Definition turn (i : nat) (first : bool) (m : moment) (s : system) : option system :=
  match callers s !! i with
  | None => None
  | Some (mkCaller key ph) =>
      match ph with
      | Returned _ => None
      | Looping => turn_loop i key m s
      | Waiting b => turn_wait i b first m s
      | Building b => Some (turn_build i key b m s)
      end
  end.

(** The orders of a moment are orders of the entries that the loops visit. *)
Definition orderly (m : moment) (r : RunnerRegistry) : Prop :=
  m_order1 m ≡ₚ map_to_list (entries r)
  ∧ m_order2 m ≡ₚ map_to_list (entries (evictIdleLocked (m_now m) (m_order1 m) r).1).

(** * The system *)

(** What releases, shutdowns and the closing of Runners do to the registry, and what
    invalidations do. *)
Inductive settling : RunnerRegistry → RunnerRegistry → Prop :=
| settle_close_next i fails r : settling r (close_next i fails r)
| settle_release i now r r' : Release i now r = Some r' → settling r r'
| settle_close order r : order ≡ₚ map_to_list (entries r) → settling r (Close order r)
| settle_close_waited i fails r : settling r (close_waited i fails r)
| settle_close_timeout r : settling r (close_timeout r).
Inductive invalidating : RunnerRegistry → RunnerRegistry → Prop :=
| invalidate_key key r : invalidating r (Invalidate key r).1
| invalidate_matching predicate order r :
    order ≡ₚ map_to_list (entries r) → invalidating r (InvalidateMatching predicate order r).1.

Definition set_registry (r : RunnerRegistry) (s : system) : system :=
  mkSystem r (callers s) (running s) (dones s).

Inductive sys_step : system → system → Prop :=
| sys_acquire ctx plan s : sys_step s (Acquire ctx plan s).1
| sys_turn i first m s s' : orderly m (registry s) → turn i first m s = Some s' → sys_step s s'
| sys_settle r s : settling (registry s) r → sys_step s (set_registry r s)
| sys_invalidate r s : invalidating (registry s) r → sys_step s (set_registry r s).

Definition new_system (r : RunnerRegistry) : system := mkSystem r [] ∅ [].
Definition sys_reachable (config : RunnerRegistryConfig) (s : system) : Prop :=
  ∃ r, NewRunnerRegistry config = Ok r ∧ rtc sys_step (new_system r) s.

(** [n] turns of calls, between which Runners are released and closed. *)
Inductive turns : nat → system → system → Prop :=
| turns_nil s : turns 0 s s
| turns_turn n i first m s s' s'' :
    orderly m (registry s) → turn i first m s = Some s' → turns n s' s'' → turns (S n) s s''
| turns_settle n r s s'' : settling (registry s) r → turns n (set_registry r s) s'' → turns n s s''.

(** * What a turn does to the registry *)

Lemma drop_where_keeps P order r r' dropped :
  drop_where P order r = (r', dropped) →
  pending r' = pending r ∧ leases r' = leases r ∧ closed r' = closed r ∧ calls r' = calls r.
Proof.
  revert r r' dropped. induction order as [|[k q] order IH]; intros r r' dropped; simpl; [by intros [= <- _]|].
  destruct (P r k q); [|apply IH]. destruct (drop_where P order _) as [r1 d1] eqn:Hd. intros [= <- _].
  apply IH in Hd. by destruct Hd as (-> & -> & -> & ->).
Qed.

Lemma evictions_keep now order1 order2 r r1 idle r2 evicted :
  evictIdleLocked now order1 r = (r1, idle) →
  (if maxEntries r1 <=? slotCountLocked r1 then evictCapacityLocked order2 r1 else (r1, [])) = (r2, evicted) →
  pending r2 = pending r ∧ leases r2 = leases r ∧ closed r2 = closed r.
Proof.
  intros H1 H2. assert (pending r1 = pending r ∧ leases r1 = leases r ∧ closed r1 = closed r) as (Hp & Hl & Hc).
  { unfold evictIdleLocked in H1. destruct (_ <=? 0); [by simplify_eq|].
    apply drop_where_keeps in H1. naive_solver. }
  unfold evictCapacityLocked in H2. by repeat case_match; simplify_eq/=.
Qed.

(** The builds and leases after the part of [acquireOnce] under the lock. *)
Lemma acquire_effect key now order1 order2 r r' out :
  acquireOnce key now order1 order2 r = (r', out) →
  closed r' = closed r ∧
  match out with
  | AcquireErr _ => pending r' = pending r ∧ leases r' = leases r
  | AcquireLease l => pending r' = pending r ∧ l = length (leases r) ∧ length (leases r') = S l
  | AcquireWait => r' = r ∧ is_Some (pending r !! key)
  | AcquireBuild => pending r !! key = None ∧ pending r' = <[key := false]> (pending r) ∧ leases r' = leases r
  end.
Proof.
  unfold acquireOnce. destruct (closed r) eqn:Hcl; [by intros [= <- <-]|].
  destruct (match entries r !! key with Some _ => _ | None => _ end) as [p|].
  { intros [= <- <-]. cbn. rewrite length_app. simpl. repeat split; try done. lia. }
  destruct (pending r !! key) eqn:Hp; [by intros [= <- <-]|].
  destruct (evictIdleLocked now order1 r) as [r1 idle] eqn:H1.
  destruct (if maxEntries r1 <=? slotCountLocked r1 then _ else _) as [r2 evicted] eqn:H2.
  destruct (evictions_keep _ _ _ _ _ _ _ _ H1 H2) as (Hp2 & Hl2 & Hc2).
  destruct (maxEntries r2 <=? slotCountLocked r2); intros [= <- <-]; cbn; rewrite ?Hp2, ?Hl2, ?Hc2; done.
Qed.

Lemma finish_effect key has_runner err ctx_err now r r' e b :
  pending r !! key = Some b → finishRunnerBuild key has_runner err (ErrContext <$> ctx_err) now r = (r', e) →
  closed r' = closed r ∧ pending r' = delete key (pending r)
  ∧ match e with
    | None => length (leases r') = S (length (leases r))
    | Some e => leases r' = leases r ∧ (e = errRunnerInvalidated → b = true ∧ closed r = false)
    end.
Proof.
  intros Hp. unfold finishRunnerBuild. rewrite Hp.
  destruct (build_error _ _ _ _ _) as [x|] eqn:Hb; intros [= <- <-].
  - split_and!; try by destruct has_runner. intros ->.
    unfold build_error, normalizeRunnerFactoryError in Hb.
    destruct err as [[]|], has_runner, ctx_err, (closed r), b; simpl in Hb; naive_solver.
  - cbn. rewrite length_app. simpl. split_and!; [done..|lia].
Qed.

Lemma flag_builds_some f m k : is_Some (flag_builds f m !! k) ↔ is_Some (m !! k).
Proof. by rewrite <- !not_eq_None_Some, flag_builds_dom. Qed.

Lemma settling_step r r' : settling r r' → step r r'.
Proof. intros []; by econstructor. Qed.
Lemma invalidating_step r r' : invalidating r r' → step r r'.
Proof. intros []; by econstructor. Qed.

(** What concerns the calls of what others do. *)
Definition same_builds (r r' : RunnerRegistry) : Prop :=
  (∀ key, is_Some (pending r' !! key) ↔ is_Some (pending r !! key)) ∧ length (leases r') = length (leases r).

Lemma close_entry_keeps p fails r :
  pending (close_entry p fails r) = pending r ∧ leases (close_entry p fails r) = leases r
  ∧ closed (close_entry p fails r) = closed r.
Proof. unfold close_entry. by repeat case_match. Qed.

Lemma settling_effect r r' :
  settling r r' → same_builds r r' ∧ (closed r' = true ∨ pending r' = pending r ∧ closed r' = closed r).
Proof.
  unfold same_builds. intros [i fails r0|i now r0 r1 Hr|order r0 Ho|i fails r0|r0].
  - unfold close_next. destruct (closing r0 !! i) as [[st [|p ps]]|]; [by auto| |by auto].
    destruct (close_entry_keeps p fails r0) as (Hp & Hl & Hc).
    destruct (_ && _); cbn; rewrite Hp, Hl, Hc; auto.
  - unfold Release in Hr. repeat case_match; simplify_eq/=; rewrite ?length_insert; auto.
  - unfold Close. destruct (closed r0) eqn:Hc; [by auto|].
    destruct (drop_where _ _ r0) as [r1 d] eqn:Hd. apply drop_where_keeps in Hd as (Hp & Hl & _).
    split; [|by left]. cbn. rewrite Hl, Hp. split; [|done]. intros key. apply flag_builds_some.
  - unfold close_waited. repeat case_match; auto.
    destruct (close_entry_keeps n fails (set_waiting (delete i (waiting r0)) r0)) as (Hp & Hl & Hc).
    rewrite Hp, Hl, Hc. auto.
  - cbn. auto.
Qed.

Lemma invalidating_effect r r' : invalidating r r' → same_builds r r'.
Proof.
  unfold same_builds. intros [key r0|predicate order r0 Ho].
  - unfold Invalidate. destruct (closed r0); [done|].
    assert (∀ k, is_Some (alter (λ _, true) key (pending r0) !! k) ↔ is_Some (pending r0 !! k)) as Hal.
    { intros k. rewrite <- !elem_of_dom. by rewrite dom_alter_L. }
    repeat case_match; done.
  - unfold InvalidateMatching. destruct (closed r0); [done|].
    destruct (drop_where _ _ _) as [r1 d] eqn:Hd. apply drop_where_keeps in Hd as (Hp & Hl & _).
    cbn in *. rewrite Hl, Hp. split; [|done]. intros key. apply flag_builds_some.
Qed.

(** * The invariant of the system *)

Record sys_ok (s : system) : Prop := {
  sys_inv : inv [] (registry s);
  sys_pending key : is_Some (pending (registry s) !! key) ↔ is_Some (running s !! key);
  (* a build that is running has its channel open and one call that performs it *)
  sys_running key b : running s !! key = Some b →
    dones s !! b = Some false ∧ ∃ i, callers s !! i = Some (mkCaller key (Building b));
  sys_running_inj k1 k2 b : running s !! k1 = Some b → running s !! k2 = Some b → k1 = k2;
  sys_building i key b : callers s !! i = Some (mkCaller key (Building b)) → running s !! key = Some b;
  sys_builder i j key b b' : callers s !! i = Some (mkCaller key (Building b)) →
    callers s !! j = Some (mkCaller key (Building b')) → i = j;
  sys_waiting i key b : callers s !! i = Some (mkCaller key (Waiting b)) →
    dones s !! b = Some true ∨ running s !! key = Some b;
  sys_lease i key l : callers s !! i = Some (mkCaller key (Returned (Ok l))) →
    (l < length (leases (registry s)))%nat;
  sys_lease_inj i j key key' l : callers s !! i = Some (mkCaller key (Returned (Ok l))) →
    callers s !! j = Some (mkCaller key' (Returned (Ok l))) → i = j }.

Lemma new_system_ok config r : NewRunnerRegistry config = Ok r → sys_ok (new_system r).
Proof.
  intros Hnew. split; cbn; try (intros *; rewrite ?lookup_empty, ?lookup_nil; done).
  - by eapply inv_new.
  - intros key. unfold NewRunnerRegistry in Hnew. repeat case_match; simplify_eq/=; by rewrite !lookup_empty.
Qed.

Lemma set_caller_lookup i ph s j :
  callers (set_caller i ph s) !! j
  = if decide (i = j) then (λ c, mkCaller (c_key c) ph) <$> callers s !! i else callers s !! j.
Proof.
  cbn. destruct (decide (i = j)) as [<-|Hne]; [apply list_lookup_alter_eq|by apply list_lookup_alter_ne].
Qed.

(** A caller of the new system is the one that moved, or an old one. *)
Lemma set_caller_inv i ph s j c c0 :
  callers s !! i = Some c0 → callers (set_caller i ph s) !! j = Some c →
  j = i ∧ c = mkCaller (c_key c0) ph ∨ j ≠ i ∧ callers s !! j = Some c.
Proof.
  intros Hi. rewrite set_caller_lookup, Hi. destruct (decide (i = j)) as [<-|]; [|by auto].
  intros [= <-]. by left.
Qed.

(** What may be said of the phase a call moves to. *)
Definition landing (s : system) (i : nat) (key : CacheKey) (ph : phase) : Prop :=
  match ph with
  | Looping | Returned (Err _) => True
  | Waiting b => running s !! key = Some b
  | Building _ => False
  | Returned (Ok l) => (l < length (leases (registry s)))%nat
      ∧ ∀ j key', callers s !! j ≠ Some (mkCaller key' (Returned (Ok l)))
  end.

(** A call that was not building moves to a phase that is not building. *)
Lemma sys_ok_moves i key ph0 ph s :
  sys_ok s → callers s !! i = Some (mkCaller key ph0) → (∀ b, ph0 ≠ Building b) → landing s i key ph →
  sys_ok (set_caller i ph s).
Proof.
  intros [Hi Hp Hr Hj Hb Hu Hw Hl Hll] Hc Hnb Hland.
  assert (∀ j k b, callers (set_caller i ph s) !! j = Some (mkCaller k (Building b)) ↔
    callers s !! j = Some (mkCaller k (Building b))) as Hbuild.
  { intros j k b. rewrite set_caller_lookup, Hc. destruct (decide (i = j)) as [<-|]; [|done].
    rewrite Hc. simpl. split; intros [= -> Heq]; exfalso; [by rewrite Heq in Hland|by eapply Hnb]. }
  split; try done.
  - intros k b Hk. destruct (Hr k b Hk) as [? [j Hj']]. split; [done|]. exists j. by apply Hbuild.
  - intros j k b. rewrite Hbuild. apply Hb.
  - intros j j' k b b'. rewrite !Hbuild. apply Hu.
  - intros j k b [[-> [= -> <-]]|[_ Hj']]%(set_caller_inv _ _ _ _ _ _ Hc); [by right|by eapply Hw].
  - intros j k l [[-> [= -> <-]]|[_ Hj']]%(set_caller_inv _ _ _ _ _ _ Hc); [apply Hland|by eapply Hl].
  - intros j j' k k' l [[-> [= -> <-]]|[_ H1]]%(set_caller_inv _ _ _ _ _ _ Hc);
      intros [[-> Heq]|[_ H2]]%(set_caller_inv _ _ _ _ _ _ Hc); [done| | |by eapply Hll].
    + by destruct (proj2 Hland j' k').
    + injection Heq as -> <-. by destruct (proj2 Hland j k).
Qed.

(** The registry changes under the calls, which keep their builds and leases. *)
Lemma sys_ok_registry r s :
  sys_ok s → inv [] r → (∀ key, is_Some (pending r !! key) ↔ is_Some (pending (registry s) !! key)) →
  (length (leases (registry s)) ≤ length (leases r))%nat → sys_ok (set_registry r s).
Proof.
  intros [Hi Hp Hr Hj Hb Hu Hw Hl Hll] Hinv Hsame Hle. split; try done.
  - intros key. cbn. by rewrite Hsame, Hp.
  - intros i key l H. cbn. specialize (Hl _ _ _ H). lia.
Qed.

Lemma sys_ok_call key s :
  sys_ok s → sys_ok (mkSystem (registry s) (callers s ++ [mkCaller key Looping]) (running s) (dones s)).
Proof.
  intros [Hi Hp Hr Hj Hb Hu Hw Hl Hll]. set (s' := mkSystem _ _ _ _).
  assert (∀ i c, c_phase c ≠ Looping → callers s' !! i = Some c ↔ callers s !! i = Some c) as Hold.
  { intros i c Hc. cbn. split; [|apply lookup_app_l_Some].
    intros [?|[_ Hi']]%lookup_app_Some; [done|]. apply list_lookup_singleton_Some in Hi' as [_ <-]. done. }
  split; try done.
  - intros k b Hk. destruct (Hr k b Hk) as [? [i Hi']]. split; [done|]. exists i. by apply Hold.
  - intros i k b ?%Hold; [by eapply Hb|done].
  - intros i j k b b' H1%Hold H2%Hold; [by eapply Hu|done..].
  - intros i k b ?%Hold; [by eapply Hw|done].
  - intros i k l ?%Hold; [by eapply Hl|done].
  - intros i j k k' l H1%Hold H2%Hold; [by eapply Hll|done..].
Qed.

(** A call takes the build of its key. *)
Lemma sys_ok_build i key r s :
  sys_ok s → callers s !! i = Some (mkCaller key Looping) → inv [] r →
  pending (registry s) !! key = None → pending r = <[key := false]> (pending (registry s)) →
  leases r = leases (registry s) → let b := length (dones s) in
  sys_ok (set_caller i (Building b) (mkSystem r (callers s) (<[key := b]> (running s)) (dones s ++ [false]))).
Proof.
  intros [Hi Hp Hr Hj Hb Hu Hw Hl Hll] Hc Hinv Hnone Hpend Hleases b. set (s' := mkSystem r _ _ _).
  assert (callers s' !! i = Some (mkCaller key Looping)) as Hc' by done.
  assert (running s !! key = None) as Hrun.
  { destruct (running s !! key) as [x|] eqn:E; [|done]. destruct (proj2 (Hp key)); [by exists x|congruence]. }
  assert (∀ k x, running s !! k = Some x → x ≠ b) as Hfresh.
  { intros k x [Hx%lookup_lt_Some _]%Hr. subst b. lia. }
  split; try done.
  - intros k. cbn. rewrite Hpend. destruct (decide (key = k)) as [<-|Hne].
    + by rewrite !lookup_insert_eq.
    + by rewrite !lookup_insert_ne.
  - cbn [running set_caller s']. intros k x [[<- <-]|[Hne Hk]]%lookup_insert_Some.
    + split; [cbn; by rewrite list_lookup_middle|]. exists i. by rewrite set_caller_lookup, decide_True, Hc'.
    + destruct (Hr _ _ Hk) as [Hd [j Hj']]. split; [cbn; by apply lookup_app_l_Some|].
      exists j. rewrite set_caller_lookup, decide_False; [done|]. intros <-. congruence.
  - cbn. intros k1 k2 x [[<- <-]|[_ H1]]%lookup_insert_Some [[<- Hx]|[_ H2]]%lookup_insert_Some; try done.
    + by destruct (Hfresh _ _ H2).
    + by destruct (Hfresh _ _ H1).
    + by eapply Hj.
  - intros j k x [[-> [= -> <-]]|[Hne Hj']]%(set_caller_inv _ _ _ _ _ _ Hc'); cbn; [apply lookup_insert_eq|].
    apply Hb in Hj'. rewrite lookup_insert_ne; [done|congruence].
  - intros j j' k x x' [[-> [= -> <-]]|[_ H1]]%(set_caller_inv _ _ _ _ _ _ Hc');
      intros [[-> Heq]|[_ H2]]%(set_caller_inv _ _ _ _ _ _ Hc'); [done| | |by eapply Hu].
    + apply Hb in H2. cbn in *. congruence.
    + injection Heq as -> _. apply Hb in H1. cbn in *. congruence.
  - intros j k x [[-> Heq]|[_ Hj']]%(set_caller_inv _ _ _ _ _ _ Hc'); [done|].
    destruct (Hw _ _ _ Hj') as [?|Hk]; [left; cbn; by apply lookup_app_l_Some|right]. cbn.
    rewrite lookup_insert_ne; [done|congruence].
  - intros j k l [[-> Heq]|[_ Hj']]%(set_caller_inv _ _ _ _ _ _ Hc'); [done|]. cbn. rewrite Hleases. by eapply Hl.
  - intros j j' k k' l [[-> Heq]|[_ H1]]%(set_caller_inv _ _ _ _ _ _ Hc');
      intros [[-> Heq']|[_ H2]]%(set_caller_inv _ _ _ _ _ _ Hc'); try done. by eapply Hll.
Qed.

(** The build of a call is over: its channel is closed, and the call goes on. *)
Lemma sys_ok_finish i key b r s :
  sys_ok s → callers s !! i = Some (mkCaller key (Building b)) → inv [] r →
  pending r = delete key (pending (registry s)) →
  (length (leases (registry s)) ≤ length (leases r))%nat →
  sys_ok (set_caller i Looping (mkSystem r (callers s) (delete key (running s)) (<[b := true]> (dones s)))).
Proof.
  intros [Hi Hp Hr Hj Hb Hu Hw Hl Hll] Hc Hinv Hpend Hle. set (s' := mkSystem r _ _ _).
  assert (callers s' !! i = Some (mkCaller key (Building b))) as Hc' by done.
  pose proof (Hb _ _ _ Hc) as Hrun. destruct (Hr _ _ Hrun) as [Hopen _].
  assert (∀ k x, running s !! k = Some x → k ≠ key → x ≠ b) as Hother.
  { intros k x Hk Hne ->. by destruct Hne; eapply Hj. }
  split; try done.
  - intros k. cbn. rewrite Hpend. destruct (decide (key = k)) as [<-|Hne].
    + by rewrite !lookup_delete_eq.
    + by rewrite !lookup_delete_ne.
  - cbn [running set_caller s']. intros k x [Hne Hk]%lookup_delete_Some.
    destruct (Hr _ _ Hk) as [Hd [j Hj']]. split.
    + cbn. rewrite list_lookup_insert_ne; [done|]. intros ->. by eapply Hother.
    + exists j. rewrite set_caller_lookup, decide_False; [done|]. intros <-. congruence.
  - cbn. intros k1 k2 x [_ H1]%lookup_delete_Some [_ H2]%lookup_delete_Some. by eapply Hj.
  - intros j k x [[-> Heq]|[Hne Hj']]%(set_caller_inv _ _ _ _ _ _ Hc'); [done|]. cbn.
    apply lookup_delete_Some. split; [|by eapply Hb]. intros <-. by apply Hne; eapply Hu.
  - intros j j' k x x' [[-> Heq]|[_ H1]]%(set_caller_inv _ _ _ _ _ _ Hc');
      intros [[-> Heq']|[_ H2]]%(set_caller_inv _ _ _ _ _ _ Hc'); try done. by eapply Hu.
  - intros j k x [[-> Heq]|[_ Hj']]%(set_caller_inv _ _ _ _ _ _ Hc'); [done|]. cbn.
    destruct (decide (x = b)) as [->|Hne].
    { left. apply list_lookup_insert_eq. by eapply lookup_lt_Some. }
    rewrite list_lookup_insert_ne by done. destruct (Hw _ _ _ Hj') as [?|Hk]; [by left|right].
    apply lookup_delete_Some. split; [|done]. intros <-. congruence.
  - intros j k l [[-> Heq]|[_ Hj']]%(set_caller_inv _ _ _ _ _ _ Hc'); [done|]. cbn.
    specialize (Hl _ _ _ Hj'). lia.
  - intros j j' k k' l [[-> Heq]|[_ H1]]%(set_caller_inv _ _ _ _ _ _ Hc');
      intros [[-> Heq']|[_ H2]]%(set_caller_inv _ _ _ _ _ _ Hc'); try done. by eapply Hll.
Qed.

Lemma set_caller_twice i ph ph' s : set_caller i ph (set_caller i ph' s) = set_caller i ph s.
Proof.
  unfold set_caller. cbn. f_equal. apply list_eq. intros j. destruct (decide (i = j)) as [<-|].
  - rewrite !list_lookup_alter_eq. by destruct (callers s !! i).
  - by rewrite !list_lookup_alter_ne.
Qed.

Lemma build_answer_lease err l ctx l' : build_answer err l ctx = Returned (Ok l') → err = None ∧ l' = l.
Proof. destruct err as [[]|]; simpl; try done; [by destruct ctx|by intros [= ->]]. Qed.

Lemma build_answer_open err l ctx b : build_answer err l ctx ≠ Building b ∧ build_answer err l ctx ≠ Waiting b.
Proof. destruct err as [[]|]; try done. by destruct ctx. Qed.

(** A new lease is nobody's yet. *)
Lemma lease_fresh s j key : sys_ok s →
  callers s !! j ≠ Some (mkCaller key (Returned (Ok (length (leases (registry s)))))).
Proof. intros Hok Hj. apply (sys_lease _ Hok) in Hj. lia. Qed.

Lemma turn_loop_ok i key m s s' :
  sys_ok s → orderly m (registry s) → callers s !! i = Some (mkCaller key Looping) →
  turn_loop i key m s = Some s' → sys_ok s'.
Proof.
  intros Hok [Ho1 Ho2] Hc. unfold turn_loop.
  pose proof (inv_acquireOnce key _ _ _ _ (sys_inv _ Hok) Ho1 Ho2) as Hinv.
  destruct (acquireOnce _ _ _ _ _) as [r out] eqn:Ha. cbn in Hinv. apply acquire_effect in Ha as [_ Ha].
  assert (∀ ph, pending r = pending (registry s) →
    (length (leases (registry s)) ≤ length (leases r))%nat → landing (set_registry r s) i key ph →
    sys_ok (set_caller i ph (set_registry r s))) as Hmove.
  { intros ph Hp Hl Hland. eapply sys_ok_moves; [|done..]. apply sys_ok_registry; try done. by rewrite Hp. }
  destruct out as [e|l| |].
  - destruct Ha as [Hp Hl]. intros [= <-]. apply Hmove; [done|by rewrite Hl|done].
  - destruct Ha as (Hp & -> & Hl). intros [= <-]. apply Hmove; [done|lia|].
    split; [cbn; lia|]. intros j k. by apply (lease_fresh s).
  - destruct Ha as [-> _]. destruct (running s !! key) as [b|] eqn:Hb; [|done]. intros [= <-]. by apply Hmove.
  - destruct Ha as (Hn & Hp & Hl). intros [= <-]. by apply sys_ok_build.
Qed.

Lemma turn_wait_ok i key b first m s s' :
  sys_ok s → callers s !! i = Some (mkCaller key (Waiting b)) → turn_wait i b first m s = Some s' → sys_ok s'.
Proof.
  intros Hok Hc. unfold turn_wait. destruct (waitForRunnerBuild _ _ _) as [[[]|e]|]; [..|done];
    intros [= <-]; by eapply sys_ok_moves.
Qed.

Lemma turn_build_ok i key b m s :
  sys_ok s → callers s !! i = Some (mkCaller key (Building b)) → sys_ok (turn_build i key b m s).
Proof.
  intros Hok Hc. unfold turn_build.
  pose proof (inv_finishRunnerBuild key (m_runner m) (m_err m) (ErrContext <$> m_ctx m) (m_now m) _ (sys_inv _ Hok)) as Hinv.
  destruct (finishRunnerBuild _ _ _ _ _ _) as [r err] eqn:Hf. cbn in Hinv.
  destruct (proj2 (sys_pending _ Hok key)) as [fl Hfl]; [by eexists; eapply sys_building|].
  destruct (finish_effect _ _ _ _ _ _ _ _ _ Hfl Hf) as (_ & Hp & Hl).
  assert (length (leases (registry s)) ≤ length (leases r))%nat as Hle by (destruct err; [by destruct Hl as [-> _]|lia]).
  rewrite <- (set_caller_twice i _ Looping). set (s1 := set_caller i Looping _).
  assert (sys_ok s1) as Hok1 by (by apply sys_ok_finish).
  assert (callers s1 !! i = Some (mkCaller key Looping)) as Hc1.
  { subst s1. rewrite set_caller_lookup, decide_True by done. cbn. by rewrite Hc. }
  eapply sys_ok_moves; [done..|].
  destruct (build_answer err _ _) as [|b'|b'|[l|e]] eqn:Hans; try done.
  - by destruct (proj2 (build_answer_open err (length (leases (registry s))) (m_ctx' m) b')).
  - by destruct (proj1 (build_answer_open err (length (leases (registry s))) (m_ctx' m) b')).
  - apply build_answer_lease in Hans as [-> ->]. split; [cbn; lia|]. intros j k Hj.
    subst s1. eapply (set_caller_inv _ _ (mkSystem r (callers s) _ _)) in Hj as [[_ Heq]|[_ Hj]]; [done| |exact Hc].
    exact (lease_fresh s j k Hok Hj).
Qed.

Lemma turn_ok i first m s s' : sys_ok s → orderly m (registry s) → turn i first m s = Some s' → sys_ok s'.
Proof.
  intros Hok Ho. unfold turn. destruct (callers s !! i) as [[key [|b|b|res]]|] eqn:Hc; try done.
  - by apply turn_loop_ok.
  - by eapply turn_wait_ok.
  - intros [= <-]. by apply turn_build_ok.
Qed.

Lemma settling_ok r s : sys_ok s → settling (registry s) r → sys_ok (set_registry r s).
Proof.
  intros Hok Hs. destruct (settling_effect _ _ Hs) as [[Hp Hl] _].
  apply sys_ok_registry; [done| |done|lia]. eapply step_inv; [by apply settling_step|apply Hok].
Qed.

Lemma sys_step_ok s s' : sys_step s s' → sys_ok s → sys_ok s'.
Proof.
  intros [ctx plan s0|i first m s0 s1 Ho Ht|r s0 Hs|r s0 Hs] Hok.
  - unfold Acquire. destruct (acquire_checks _ _ _) as [key|e]; [by apply sys_ok_call|done].
  - by eapply turn_ok.
  - by apply settling_ok.
  - destruct (invalidating_effect _ _ Hs) as [Hp Hl].
    apply sys_ok_registry; [done| |done|lia]. eapply step_inv; [by apply invalidating_step|apply Hok].
Qed.

Lemma sys_reachable_ok config s : sys_reachable config s → sys_ok s.
Proof. intros (r & Hnew & Hsteps). apply new_system_ok in Hnew. induction Hsteps; eauto using sys_step_ok. Qed.

(** * How many turns are left *)

Definition live (c : caller) : nat := match c_phase c with Returned _ => 0 | _ => 1 end.
Definition weight (ds : list bool) (c : caller) : nat :=
  match c_phase c with
  | Looping => 2
  | Waiting b => if default false (ds !! b) then 3 else 1
  | Building _ => 1
  | Returned _ => 0
  end.
(** Builds whose calls may have to try again. *)
Definition flagged (r : RunnerRegistry) : nat :=
  if closed r then 0%nat else size (filter (λ kb, kb.2 = true) (pending r)).

Definition live_calls (s : system) : nat := sum_list_with live (callers s).
Definition budget (s : system) : nat :=
  ((live_calls s + flagged (registry s)) * (3 * length (callers s) + 1)
   + sum_list_with (weight (dones s)) (callers s))%nat.

Lemma sum_alter {A} (f : A → nat) (g : A → A) i l x :
  l !! i = Some x → (sum_list_with f (alter g i l) + f x = sum_list_with f l + f (g x))%nat.
Proof.
  revert i. induction l as [|y l IH]; intros [|i] Hi; simplify_eq/=; [lia|]. specialize (IH i Hi).
  lia.
Qed.

Lemma weight_le ds cs : (sum_list_with (weight ds) cs ≤ 3 * length cs)%nat.
Proof.
  induction cs as [|[k ph] cs IH]; simpl; [lia|]. assert (weight ds (mkCaller k ph) ≤ 3)%nat; [|lia].
  unfold weight. cbn. repeat case_match; lia.
Qed.

Lemma weight_open ds cs : sum_list_with (weight (ds ++ [false])) cs = sum_list_with (weight ds) cs.
Proof.
  assert (∀ b, default false ((ds ++ [false]) !! b) = default false (ds !! b)) as Hb.
  { intros b. destruct (decide (b < length ds)%nat); [by rewrite lookup_app_l|].
    rewrite lookup_app_r, (lookup_ge_None_2 ds) by lia. by destruct (b - length ds)%nat. }
  induction cs as [|[k ph] cs IH]; simpl; [done|]. rewrite IH. f_equal. unfold weight. cbn. destruct ph; [done| |done..].
  by rewrite Hb.
Qed.

Lemma live_calls_moves i key ph0 ph s :
  callers s !! i = Some (mkCaller key ph0) →
  (live_calls (set_caller i ph s) + live (mkCaller key ph0) = live_calls s + live (mkCaller key ph))%nat
  ∧ (∀ ds, sum_list_with (weight ds) (callers (set_caller i ph s)) + weight ds (mkCaller key ph0)
      = sum_list_with (weight ds) (callers s) + weight ds (mkCaller key ph))%nat
  ∧ length (callers (set_caller i ph s)) = length (callers s).
Proof.
  intros Hc. split_and!.
  - exact (sum_alter live _ i _ _ Hc).
  - intros ds. exact (sum_alter (weight ds) _ i _ _ Hc).
  - cbn. apply length_alter.
Qed.

(** A call moves on with less weight, its builds as they were. *)
Lemma budget_moves i key ph0 ph r rn s :
  callers s !! i = Some (mkCaller key ph0) → flagged r = flagged (registry s) →
  (live (mkCaller key ph) ≤ live (mkCaller key ph0))%nat →
  (weight (dones s) (mkCaller key ph) < weight (dones s) (mkCaller key ph0))%nat →
  (budget (set_caller i ph (mkSystem r (callers s) rn (dones s))) < budget s)%nat.
Proof.
  intros Hc Hf Hl Hw. destruct (live_calls_moves i key ph0 ph (mkSystem r (callers s) rn (dones s)) Hc) as (H1 & H2 & H3).
  specialize (H2 (dones s)). unfold budget. rewrite H3. cbn [registry callers dones set_caller] in *. rewrite Hf.
  unfold live_calls in *. cbn [callers] in *. nia.
Qed.

Lemma flagged_insert r r' key :
  pending r !! key = None → pending r' = <[key := false]> (pending r) → closed r' = closed r →
  flagged r' = flagged r.
Proof.
  intros Hn Hp Hc. unfold flagged. rewrite Hc, Hp. destruct (closed r); [done|]. f_equal.
  rewrite map_filter_insert_False by done. by rewrite delete_id.
Qed.

Lemma flagged_delete r r' key b :
  pending r !! key = Some b → pending r' = delete key (pending r) → closed r' = closed r →
  (flagged r' ≤ flagged r)%nat ∧ (b = true → closed r = false → (flagged r' < flagged r)%nat).
Proof.
  intros Hb Hp Hc. unfold flagged. rewrite Hc, Hp, map_filter_delete. destruct (closed r); [done|].
  rewrite map_size_delete. split; [case_match; unfold id; lia|]. intros -> _.
  assert (filter (λ kb, kb.2 = true) (pending r) !! key = Some true) as Hk by (by apply map_lookup_filter_Some).
  rewrite Hk. assert (size (filter (λ kb, kb.2 = true) (pending r)) ≠ 0)%nat; [|lia].
  intros Hz%map_size_empty_inv. by rewrite Hz, lookup_empty in Hk.
Qed.

Lemma flagged_settling r r' : settling r r' → (flagged r' ≤ flagged r)%nat.
Proof.
  intros [_ [Hc|[Hp Hc]]]%settling_effect; unfold flagged; rewrite Hc; [lia|by rewrite Hp].
Qed.

Lemma turn_loop_budget i key m s s' :
  sys_ok s → callers s !! i = Some (mkCaller key Looping) → turn_loop i key m s = Some s' →
  (budget s' < budget s)%nat ∧ length (callers s') = length (callers s).
Proof.
  intros Hok Hc. unfold turn_loop. destruct (acquireOnce _ _ _ _ _) as [r out] eqn:Ha.
  apply acquire_effect in Ha as [Hcl Ha].
  assert (pending r = pending (registry s) → flagged r = flagged (registry s)) as Hsame
    by (intros Hp; unfold flagged; by rewrite Hcl, Hp).
  destruct out as [e|l| |].
  - intros [= <-]. split; [|apply length_alter]. eapply budget_moves; [done|naive_solver|cbn; lia..].
  - intros [= <-]. split; [|apply length_alter]. eapply budget_moves; [done|naive_solver|cbn; lia..].
  - destruct Ha as [-> _]. destruct (running s !! key) as [b|] eqn:Hb; [|done]. intros [= <-].
    split; [|apply length_alter]. eapply budget_moves; [done|by apply Hsame|done|].
    destruct (sys_running _ Hok _ _ Hb) as [Hd _]. unfold weight. cbn. rewrite Hd. simpl. lia.
  - destruct Ha as (Hn & Hp & _). intros [= <-]. split; [|apply length_alter].
    pose proof (flagged_insert _ _ _ Hn Hp Hcl) as Hf.
    pose proof (budget_moves i key Looping (Building (length (dones s))) r
      (<[key := length (dones s)]> (running s)) s Hc Hf ltac:(done) ltac:(cbn; lia)) as Hlt.
    eapply Nat.le_lt_trans, Hlt. unfold budget, live_calls. cbn [dones callers registry set_caller].
    by rewrite weight_open.
Qed.

Lemma turn_wait_budget i key b first m s s' :
  callers s !! i = Some (mkCaller key (Waiting b)) → turn_wait i b first m s = Some s' →
  (budget s' < budget s)%nat ∧ length (callers s') = length (callers s).
Proof.
  intros Hc. unfold turn_wait.
  assert (∀ ph, (live (mkCaller key ph) ≤ 1)%nat →
    (weight (dones s) (mkCaller key ph) < weight (dones s) (mkCaller key (Waiting b)))%nat →
    (budget (set_caller i ph s) < budget s)%nat ∧ length (callers (set_caller i ph s)) = length (callers s)) as Hmove.
  { intros ph Hl Hw. split; [|apply length_alter].
    exact (budget_moves i key (Waiting b) ph (registry s) (running s) s Hc eq_refl Hl Hw). }
  unfold waitForRunnerBuild. destruct (default false (dones s !! b)) eqn:Hd, (m_ctx m), first; cbn -[budget]; try done;
    intros [= <-]; (apply Hmove; [cbn; lia|unfold weight; cbn; rewrite Hd; lia]).
Qed.

Lemma turn_build_budget i key b m s :
  sys_ok s → callers s !! i = Some (mkCaller key (Building b)) →
  (budget (turn_build i key b m s) < budget s)%nat ∧ length (callers (turn_build i key b m s)) = length (callers s).
Proof.
  intros Hok Hc. unfold turn_build. destruct (finishRunnerBuild _ _ _ _ _ _) as [r err] eqn:Hf.
  destruct (proj2 (sys_pending _ Hok key)) as [fl Hfl]; [by eexists; eapply sys_building|].
  destruct (finish_effect _ _ _ _ _ _ _ _ _ Hfl Hf) as (Hcl & Hp & Hl).
  destruct (flagged_delete _ _ _ _ Hfl Hp Hcl) as [Hfle Hflt].
  set (ph := build_answer _ _ _). set (s1 := mkSystem r _ _ _).
  destruct (live_calls_moves i key (Building b) ph s1 Hc) as (H1 & _ & H3).
  assert (live (mkCaller key ph) + flagged r < 1 + flagged (registry s))%nat as Hless.
  { subst ph. destruct err as [[]|]; cbn -[flagged]; try lia. destruct (m_ctx' m); [cbn -[flagged]; lia|].
    destruct (proj2 Hl eq_refl) as [-> Hcr]. specialize (Hflt eq_refl Hcr). cbn -[flagged]. lia. }
  split; [|apply length_alter]. pose proof (weight_le (dones s1) (callers (set_caller i ph s1))) as Hw.
  unfold budget. rewrite H3 in *. change (callers s1) with (callers s) in *.
  change (live_calls s1) with (live_calls s) in H1. change (registry (set_caller i ph s1)) with r.
  change (dones (set_caller i ph s1)) with (dones s1). change (live (mkCaller key (Building b))) with 1%nat in H1. nia.
Qed.

Lemma turn_budget i first m s s' :
  sys_ok s → turn i first m s = Some s' → (budget s' < budget s)%nat ∧ length (callers s') = length (callers s).
Proof.
  intros Hok. unfold turn. destruct (callers s !! i) as [[key [|b|b|res]]|] eqn:Hc; try done.
  - by apply turn_loop_budget.
  - by eapply turn_wait_budget.
  - intros [= <-]. by apply turn_build_budget.
Qed.

Lemma turns_budget n s s' : turns n s s' → sys_ok s → sys_ok s' ∧ (n + budget s' ≤ budget s)%nat.
Proof.
  induction 1 as [s|n i first m s s1 s2 Ho Ht _ IH|n r s s2 Hs _ IH]; intros Hok.
  - split; [done|lia].
  - destruct (turn_budget _ _ _ _ _ Hok Ht) as [Hlt _]. destruct IH as [? Hle]; [by eapply turn_ok|]. split; [done|lia].
  - destruct IH as [? Hle]; [by apply settling_ok|]. split; [done|].
    assert (budget (set_registry r s) ≤ budget s)%nat; [|lia]. pose proof (flagged_settling _ _ Hs).
    unfold budget, live_calls. cbn [callers registry dones set_registry]. nia.
Qed.

(** * Properties *)

(** A call that is not over can go on, or waits for the build that another one performs. *)
Lemma call_moves s i c :
  sys_ok s → callers s !! i = Some c →
  (∃ res, c_phase c = Returned res)
  ∨ (∀ first m, is_Some (turn i first m s))
  ∨ (∃ b, c_phase c = Waiting b ∧ running s !! c_key c = Some b).
Proof.
  intros Hok Hc. destruct c as [key [|b|b|res]]; cbn; [..|by eauto]; [right; left|right|right; left].
  - intros first m. unfold turn. rewrite Hc. unfold turn_loop.
    destruct (acquireOnce _ _ _ _ _) as [r [e|l| |]] eqn:Ha; try by eexists.
    apply acquire_effect in Ha as (_ & _ & [b Hb]%(sys_pending _ Hok)). rewrite Hb. by eexists.
  - destruct (sys_waiting _ Hok _ _ _ Hc) as [Hd|Hr]; [left|by eauto]. intros first m.
    unfold turn. rewrite Hc. unfold turn_wait. rewrite Hd. unfold waitForRunnerBuild. cbn.
    destruct first, (m_ctx m); by eexists.
  - intros first m. unfold turn. rewrite Hc. by eexists.
Qed.

Lemma cached_usable r key p :
  inv [] r → entries r !! key = Some p →
  ∃ e, heap r !! p = Some e ∧ invalidated e = false ∧ p ∉ calls r.
Proof.
  intros Hinv Hk. assert (cached r p) as Hc by (by exists key).
  destruct (inv_alloc _ _ Hinv p) as [e Hp]; [tauto|]. pose proof (inv_entry _ _ Hinv _ _ Hp) as Hok.
  exists e. split_and!; [done|by apply (ok_cached _ _ _ _ Hok)|]. rewrite <- (ok_calls _ _ _ _ Hok).
  intros [_ Hn]%(ok_once _ _ _ _ Hok). done.
Qed.

(** The lease with which a turn ends is one of the entry that is cached under the key. *)
Lemma turn_lease s i first m s' key l :
  sys_ok s → turn i first m s = Some s' → callers s' !! i = Some (mkCaller key (Returned (Ok l))) →
  ∃ p, entries (registry s') !! key = Some p ∧ leases (registry s') !! l = Some (p, false).
Proof.
  intros Hok. unfold turn. destruct (callers s !! i) as [[k [|b|b|res]]|] eqn:Hc; try done.
  - unfold turn_loop. destruct (acquireOnce _ _ _ _ _) as [r out] eqn:Ha. destruct out as [e|l'| |];
      [| |destruct (running s !! k) as [b|]; [|done]|];
      intros [= <-]; rewrite set_caller_lookup, decide_True by done; cbn; rewrite Hc; try done.
    intros [= -> ->]. unfold acquireOnce in Ha. destruct (closed _); [done|].
    destruct (entries (registry s) !! key) as [p|] eqn:Hk; [|repeat case_match; naive_solver].
    destruct (heap _ !! p) as [e|]; [destruct (invalidated e)|]; try (repeat case_match; naive_solver).
    injection Ha as <- <-. exists p. split; [done|]. cbn. by rewrite list_lookup_middle.
  - unfold turn_wait. destruct (waitForRunnerBuild _ _ _) as [[?|?]|]; [..|done];
      intros [= <-]; rewrite set_caller_lookup, decide_True by done; cbn; by rewrite Hc.
  - intros [= <-]. unfold turn_build. destruct (finishRunnerBuild _ _ _ _ _ _) as [r err] eqn:Hf.
    rewrite set_caller_lookup, decide_True by done. cbn [callers]. rewrite Hc. cbn [fmap option_fmap option_map c_key].
    intros Heq. injection Heq as -> Hans. apply build_answer_lease in Hans as [-> ->].
    destruct (proj2 (sys_pending _ Hok key)) as [fl Hfl]; [by eexists; eapply sys_building|].
    unfold finishRunnerBuild in Hf. rewrite Hfl in Hf. destruct (build_error _ _ _ _ _); [done|].
    injection Hf as <-. exists (length (heap (registry s))). cbn. rewrite lookup_insert_eq. split; [done|].
    by rewrite list_lookup_middle.
Qed.

(** C16: Concurrent constructions are merged: whatever calls, releases, invalidations and
    shutdowns interleave, at most one call of [Acquire] per cache key is inside the
    factory.  A call that waits for a build waits for one that is still performed for its
    key, or whose channel is closed.  Every lease is returned to one call only, and at
    the moment it is returned it is a lease of the current entry of the key, which was
    neither invalidated nor told to close. *)
Theorem acquire_merged config s :
  sys_reachable config s →
  (∀ i j key b b', callers s !! i = Some (mkCaller key (Building b)) →
     callers s !! j = Some (mkCaller key (Building b')) → i = j)
  ∧ (∀ i key b, callers s !! i = Some (mkCaller key (Waiting b)) →
     dones s !! b = Some true ∨ ∃ j, callers s !! j = Some (mkCaller key (Building b)))
  ∧ (∀ i j key key' l, callers s !! i = Some (mkCaller key (Returned (Ok l))) →
     callers s !! j = Some (mkCaller key' (Returned (Ok l))) → i = j)
  ∧ (∀ i first m s' key l, orderly m (registry s) → turn i first m s = Some s' →
     callers s' !! i = Some (mkCaller key (Returned (Ok l))) →
     ∃ p e, entries (registry s') !! key = Some p ∧ heap (registry s') !! p = Some e
       ∧ invalidated e = false ∧ p ∉ calls (registry s') ∧ leases (registry s') !! l = Some (p, false)).
Proof.
  intros Hok%sys_reachable_ok. split_and!; [apply (sys_builder _ Hok)| |apply (sys_lease_inj _ Hok)|].
  - intros i key b [?|Hr]%(sys_waiting _ Hok); [by left|right]. apply (sys_running _ Hok _ _ Hr).
  - intros i first m s' key l Ho Ht Hret. destruct (turn_lease _ _ _ _ _ _ _ Hok Ht Hret) as (p & Hk & Hl).
    destruct (cached_usable _ _ _ (sys_inv _ (turn_ok _ _ _ _ _ Hok Ho Ht)) Hk) as (e & Hp & Hinva & Hcalls).
    by exists p, e.
Qed.

(** C17: The retry loop of [Acquire] ends: after the last call and the last invalidation
    the calls in flight take together no more turns than a bound that depends on their
    number and on the builds already invalidated, however releases and shutdowns
    interleave.  None of them is stuck on the way: a call that has not returned can take
    its next turn, or waits for the build of its key by another call, which can; and a
    waiting call whose context ends returns the error of the context. *)
Theorem acquire_terminates config s n s' :
  sys_reachable config s → turns n s s' →
  (n ≤ budget s)%nat
  ∧ (∀ i c, callers s' !! i = Some c →
      (∃ res, c_phase c = Returned res)
      ∨ (∀ first m, is_Some (turn i first m s'))
      ∨ (∃ b j, c_phase c = Waiting b ∧ j ≠ i ∧ callers s' !! j = Some (mkCaller (c_key c) (Building b))
          ∧ ∀ first m, is_Some (turn j first m s')))
  ∧ (∀ i key b first m e, callers s' !! i = Some (mkCaller key (Waiting b)) → m_ctx m = Some e →
      turn i first m s' = Some (set_caller i (Returned (Err (ErrContext e))) s')).
Proof.
  intros Hok%sys_reachable_ok Hturns. destruct (turns_budget _ _ _ Hturns Hok) as [Hok' Hle].
  split; [lia|]. split.
  - intros i c Hc. destruct (call_moves _ _ _ Hok' Hc) as [?|[?|(b & Hw & Hr)]]; [by auto..|]. do 2 right.
    destruct (sys_running _ Hok' _ _ Hr) as [_ [j Hj]]. exists b, j. split_and!; try done.
    + intros ->. assert (c = mkCaller (c_key c) (Building b)) as Heq by congruence. by rewrite Heq in Hw.
    + intros first m. unfold turn. rewrite Hj. by eexists.
  - intros i key b first m e Hc He. unfold turn. rewrite Hc. unfold turn_wait, waitForRunnerBuild. rewrite He.
    by destruct (_ && _).
Qed.

(** * Witnesses *)

Definition ex_acquire_plan : ExecutionPlan :=
  match Resolve (Some ex_resolver) background ex_principal with Ok plan => plan | Err _ => zero_plan end.

(** Two calls for one plan begin. *)
Definition ex_calls : system :=
  (Acquire background ex_acquire_plan (Acquire background ex_acquire_plan (new_system Registry.ex_new)).1).1.

Definition ex_moment (s : system) : moment :=
  mkMoment 5 (map_to_list (entries (registry s)))
    (map_to_list (entries (evictIdleLocked 5 (map_to_list (entries (registry s))) (registry s)).1))
    true None None None.
Definition ex_turn (s : system) (i : nat) : system := default s (turn i true (ex_moment s) s).

(** The first builds, the second waits for it, and both get a lease of the one Runner. *)
Definition ex_merged : system := foldl ex_turn ex_calls [0; 1]%nat.
Definition ex_leased : system := foldl ex_turn ex_merged [0; 1; 1]%nat.

Lemma ex_orderly s : orderly (ex_moment s) (registry s).
Proof. by split. Qed.

Lemma ex_turn_step s i : sys_step s (ex_turn s i) ∨ ex_turn s i = s.
Proof.
  unfold ex_turn. destruct (turn i true (ex_moment s) s) as [s'|] eqn:Ht; [left|by right]. cbn.
  eapply sys_turn; [apply ex_orderly|exact Ht].
Qed.

Lemma ex_merged_reachable : sys_reachable ex_config ex_merged.
Proof.
  exists Registry.ex_new. split; [done|]. unfold ex_merged. cbn [foldl].
  assert (∀ s i, rtc sys_step s (ex_turn s i)) as Hturn.
  { intros s i. destruct (ex_turn_step s i) as [?| ->]; [by apply rtc_once|done]. }
  etrans; [|apply Hturn]. etrans; [|apply Hturn].
  eapply rtc_l; [apply (sys_acquire background ex_acquire_plan)|].
  apply rtc_once, (sys_acquire background ex_acquire_plan).
Qed.

Lemma ex_merged_phases : map c_phase (callers ex_merged) = [Building 0; Waiting 0].
Proof. vm_compute. reflexivity. Qed.
Lemma ex_leased_phases :
  map c_phase (callers ex_leased) = [Returned (Ok 0%nat); Returned (Ok 1%nat)]
  ∧ leases (registry ex_leased) = [(0%nat, false); (0%nat, false)].
Proof. vm_compute. auto. Qed.

Definition ex_can_turn (s : system) (i : nat) : bool := bool_decide (is_Some (turn i true (ex_moment s) s)).

Lemma ex_turns_cons n s i s' : ex_can_turn s i = true → turns n (ex_turn s i) s' → turns (S n) s s'.
Proof.
  intros [s1 Ht]%bool_decide_eq_true. unfold ex_turn. rewrite Ht. eapply turns_turn; [apply ex_orderly|exact Ht].
Qed.

Lemma ex_turns_enabled :
  (ex_can_turn ex_merged 0 && ex_can_turn (ex_turn ex_merged 0) 1
   && ex_can_turn (ex_turn (ex_turn ex_merged 0) 1) 1)%nat = true.
Proof. vm_compute. reflexivity. Qed.

Lemma ex_turns : turns 3 ex_merged ex_leased.
Proof.
  pose proof ex_turns_enabled as Hen. apply andb_true_iff in Hen as [[H0 H1]%andb_true_iff H2].
  unfold ex_leased. cbn [foldl]. apply (ex_turns_cons 2 ex_merged 0); [exact H0|].
  apply (ex_turns_cons 1 (ex_turn ex_merged 0) 1); [exact H1|].
  apply (ex_turns_cons 0 (ex_turn (ex_turn ex_merged 0) 1) 1); [exact H2|]. apply turns_nil.
Qed.

Lemma acquire_merged_witness :
  ∃ key, callers ex_merged !! 1%nat = Some (mkCaller key (Waiting 0))
    ∧ (dones ex_merged !! 0%nat = Some true ∨ ∃ j, callers ex_merged !! j = Some (mkCaller key (Building 0))).
Proof.
  assert (c_phase <$> callers ex_merged !! 1%nat = Some (Waiting 0)) as Hp.
  { rewrite <- list_lookup_fmap. change (c_phase <$> callers ex_merged) with (map c_phase (callers ex_merged)).
    by rewrite ex_merged_phases. }
  apply fmap_Some in Hp as ([key ph] & Hc & Hw). cbn in Hw. subst ph. exists key. split; [exact Hc|].
  exact (proj1 (proj2 (acquire_merged ex_config ex_merged ex_merged_reachable)) 1%nat key 0%nat Hc).
Defined.

Lemma acquire_terminates_witness :
  (3 ≤ budget ex_merged)%nat ∧ map c_phase (callers ex_leased) = [Returned (Ok 0%nat); Returned (Ok 1%nat)].
Proof.
  split; [|exact (proj1 ex_leased_phases)].
  exact (proj1 (acquire_terminates ex_config ex_merged 3 ex_leased ex_merged_reachable ex_turns)).
Defined.
