(* ===== verification/AuditLog.v ===== *)
(** The audit log, [trpcservice/audit]: events and their validation ([audit.go]), the digest
    that makes appending idempotent, the tenant-scoped in-memory store with its listing and
    usage aggregation, the recorder of outcomes ([producer.go]) and the hand-off records of
    executions ([handoff.go]).

    A [Backend] is shared by the stores of all tenants; a store is the tenant it was made for.
    Every operation holds the lock of the backend for its access, so it is one step.  Cloning
    is the identity on values.  [time.Time] values are stamps: an instant and whether the
    location is UTC. *)
From Stdlib Require Import Ascii String.
From S2P Require Import Prelude GoStrings Sha256 Bindings.
Local Open Scope Z_scope.

(** * Vocabulary *)

Inductive error :=
| ErrInvalid | ErrTenantScope | ErrNotFound | ErrConflict
| ErrHandoffNotFound | ErrHandoffConflict
| ErrContext (e : ctx_error)
| ErrMarshal.
#[export] Instance error_eq_dec : EqDecision error.
Proof. solve_decision. Defined.

Definition SchemaVersion : Z := 1.

Definition EventControlPlaneChanged : string := "control_plane.changed".
Definition EventExecutionStarted : string := "execution.started".
Definition EventExecutionCompleted : string := "execution.completed".
Definition EventExecutionFailed : string := "execution.failed".
Definition EventExecutionCanceled : string := "execution.canceled".
Definition EventExecutionTimedOut : string := "execution.timed_out".
Definition EventExecutionFallback : string := "execution.fallback".
Definition EventCanarySelected : string := "execution.canary_selected".
Definition EventToolAllowed : string := "tool.allowed".
Definition EventToolDenied : string := "tool.denied".
Definition EventToolApprovalRequired : string := "tool.approval_required".
Definition EventIMAuthorizationAllowed : string := "im.authorization_allowed".
Definition EventIMAuthorizationDenied : string := "im.authorization_denied".
Definition EventIMIngressAccepted : string := "im.ingress_accepted".
Definition EventIMIngressDuplicate : string := "im.ingress_duplicate".
Definition EventIMDeliverySent : string := "im.delivery_sent".
Definition EventIMDeliveryRetryScheduled : string := "im.delivery_retry_scheduled".
Definition EventIMDeliveryDeadLettered : string := "im.delivery_dead_lettered".
Definition EventIMDeliveryReconciled : string := "im.delivery_reconciled".
Definition EventBudgetRejected : string := "budget.rejected".
Definition EventContentRedacted : string := "content.redacted".
Definition EventAuditIncomplete : string := "audit_incomplete".
Definition DecisionAllow : string := "allow".
Definition DecisionDeny : string := "deny".
Definition DecisionApprovalRequired : string := "approval_required".
Definition DecisionAccepted : string := "accepted".
Definition DecisionDuplicate : string := "duplicate".
Definition DecisionRejected : string := "rejected".
Definition ResultSuccess : string := "success".
Definition ResultFailure : string := "failure".
Definition ResultCanceled : string := "canceled".
Definition ResultTimeout : string := "timeout".
Definition ResultRejected : string := "rejected".
Definition ErrorCanceled : string := "canceled".
Definition ErrorTimeout : string := "timeout".
Definition ErrorInvalid : string := "invalid".
Definition ErrorUnauthenticated : string := "unauthenticated".
Definition ErrorRateLimited : string := "rate_limited".
Definition ErrorDuplicate : string := "duplicate".
Definition ErrorUnavailable : string := "unavailable".
Definition ErrorStorage : string := "storage".
Definition ErrorModel : string := "model".
Definition ErrorTool : string := "tool".
Definition ErrorProvider : string := "provider_error".
Definition ErrorBudget : string := "budget".
Definition ErrorRedacted : string := "redacted".
Definition ErrorConflict : string := "conflict".

Definition one_of (values : list string) (value : string) : bool := existsb (String.eqb value) values.

Definition validEventType : string → bool := one_of
  [EventControlPlaneChanged; EventExecutionStarted; EventExecutionCompleted;
   EventExecutionFailed; EventExecutionCanceled; EventExecutionTimedOut;
   EventExecutionFallback; EventCanarySelected; EventToolAllowed; EventToolDenied;
   EventToolApprovalRequired; EventIMAuthorizationAllowed; EventIMAuthorizationDenied;
   EventIMIngressAccepted; EventIMIngressDuplicate; EventIMDeliverySent;
   EventIMDeliveryRetryScheduled; EventIMDeliveryDeadLettered; EventIMDeliveryReconciled;
   EventBudgetRejected; EventContentRedacted; EventAuditIncomplete].
Definition validDecision : string → bool := one_of
  [DecisionAllow; DecisionDeny; DecisionApprovalRequired; DecisionAccepted; DecisionDuplicate;
   DecisionRejected].
Definition validResult : string → bool := one_of
  [ResultSuccess; ResultFailure; ResultCanceled; ResultTimeout; ResultRejected].
Definition validErrorType : string → bool := one_of
  [ErrorCanceled; ErrorTimeout; ErrorInvalid; ErrorUnauthenticated; ErrorRateLimited;
   ErrorDuplicate; ErrorUnavailable; ErrorStorage; ErrorModel; ErrorTool; ErrorProvider;
   ErrorBudget; ErrorRedacted; ErrorConflict].

Definition iso4217 : list string := [
    "AED"; "AFN"; "ALL"; "AMD"; "ANG"; "AOA"; "ARS"; "AUD"; "AWG"; "AZN"; "BAM"; "BBD"; "BDT"; "BGN";
    "BHD"; "BIF"; "BMD"; "BND"; "BOB"; "BOV"; "BRL"; "BSD"; "BTN"; "BWP"; "BYN"; "BZD"; "CAD"; "CDF";
    "CHE"; "CHF"; "CHW"; "CLF"; "CLP"; "CNY"; "COP"; "COU"; "CRC"; "CUC"; "CUP"; "CVE"; "CZK"; "DJF";
    "DKK"; "DOP"; "DZD"; "EGP"; "ERN"; "ETB"; "EUR"; "FJD"; "FKP"; "GBP"; "GEL"; "GHS"; "GIP"; "GMD";
    "GNF"; "GTQ"; "GYD"; "HKD"; "HNL"; "HTG"; "HUF"; "IDR"; "ILS"; "INR"; "IQD"; "IRR"; "ISK"; "JMD";
    "JOD"; "JPY"; "KES"; "KGS"; "KHR"; "KMF"; "KPW"; "KRW"; "KWD"; "KYD"; "KZT"; "LAK"; "LBP"; "LKR";
    "LRD"; "LSL"; "LYD"; "MAD"; "MDL"; "MGA"; "MKD"; "MMK"; "MNT"; "MOP"; "MRU"; "MUR"; "MVR"; "MWK";
    "MXN"; "MXV"; "MYR"; "MZN"; "NAD"; "NGN"; "NIO"; "NOK"; "NPR"; "NZD"; "OMR"; "PAB"; "PEN"; "PGK";
    "PHP"; "PKR"; "PLN"; "PYG"; "QAR"; "RON"; "RSD"; "RUB"; "RWF"; "SAR"; "SBD"; "SCR"; "SDG"; "SEK";
    "SGD"; "SHP"; "SLE"; "SLL"; "SOS"; "SRD"; "SSP"; "STN"; "SVC"; "SYP"; "SZL"; "THB"; "TJS"; "TMT";
    "TND"; "TOP"; "TRY"; "TTD"; "TWD"; "TZS"; "UAH"; "UGX"; "USD"; "USN"; "UYI"; "UYU"; "UYW"; "UZS";
    "VED"; "VES"; "VND"; "VUV"; "WST"; "XAF"; "XAG"; "XAU"; "XBA"; "XBB"; "XBC"; "XBD"; "XCD"; "XDR";
    "XOF"; "XPD"; "XPF"; "XPT"; "XSU"; "XTS"; "XUA"; "XXX"; "YER"; "ZAR"; "ZMW"; "ZWG"].
Definition validCurrency : string → bool := one_of iso4217.

Definition GroupTenant : string := "tenant".
Definition GroupApp : string := "app".
Definition GroupChannel : string := "channel".
Definition GroupProvider : string := "provider".
Definition GroupModel : string := "model".
Definition validGroup : string → bool := one_of [GroupTenant; GroupApp; GroupChannel; GroupProvider; GroupModel].

Record Usage := mkUsage {
  InputTokens : option Z; OutputTokens : option Z; ModelCostMinor : option Z; ToolCostMinor : option Z;
  Currency : string; BudgetUsedTokens : option Z; BudgetUsedMinor : option Z;
  u_ExecutionResult : string; Provider : string; Model : string }.

Record Event := mkEvent {
  ae_SchemaVersion : Z; ae_EventID : string; EventType : string; ae_TenantID : string;
  ae_Channel : string; ae_UserID : string; ae_SessionID : string; ae_AgentAppID : string;
  ae_Revision : option Z; ae_ModelProfileID : string; ToolName : string; ae_Decision : string;
  LatencyMS : option Z; ErrorType : string; Cost : option Usage; ae_RequestID : string;
  ae_TraceID : string; CorrelationID : string; ActorType : string; ActorID : string;
  Reason : string; PreviousVersion : option Z; NextVersion : option Z; OccurredAt : stamp }.

(** * Validation *)

Definition clean (value : string) : string := trim_space value.
Definition hasControl (value : string) : bool := existsb is_control (runes value).

(** [strings.FieldsFunc]; [field] is the field being read, last rune
    first. *)
Fixpoint fields_func (separator : Z → bool) (field rs : list Z) : list string :=
  let flush := match field with [] => [] | _ => [string_of_runes (rev field)] end in
  match rs with
  | [] => flush
  | r :: rs' =>
      if separator r then flush ++ fields_func separator [] rs'
      else fields_func separator (r :: field) rs'
  end.

Definition containsSensitivePhrase (value : string) : bool :=
  existsb (contains value) ["://"; "authorization"; "bearer "; "api_key"; "api-key"; "token="; "secret=";
    "secret_ref"; "password="; "dsn="; "provider error"].

(** A sensitive word counts only when another word follows it. *)
Fixpoint sensitive_words (words : list string) : bool :=
  match words with
  | word :: ((next :: _) as rest) =>
      one_of ["bearer"; "authorization"; "token"; "secret"; "password"; "dsn"] word
      || ((word =? "api")%string && (next =? "key")%string) || sensitive_words rest
  | _ => false
  end.
Definition containsSensitiveWords (value : string) : bool :=
  sensitive_words (fields_func (λ r, (r <? 97) || (122 <? r)) [] (runes value)).

Definition containsSensitive (values : list string) : bool :=
  existsb (λ value, containsSensitivePhrase (to_lower value) || containsSensitiveWords (to_lower value)) values.

Definition negative (v : option Z) : bool := match v with Some z => z <? 0 | None => false end.

Definition Usage_Validate (u : Usage) : result error unit :=
  if existsb negative [InputTokens u; OutputTokens u; ModelCostMinor u; ToolCostMinor u; BudgetUsedTokens u;
       BudgetUsedMinor u] then Err ErrInvalid
  else if ((negb (opt_is_nil (ModelCostMinor u)) || negb (opt_is_nil (ToolCostMinor u))
            || negb (opt_is_nil (BudgetUsedMinor u))) && negb (validCurrency (Currency u)))
          || (negb (u_ExecutionResult u =? "")%string && negb (validResult (u_ExecutionResult u)))
  then Err ErrInvalid
  else if existsb (λ value, hasControl value || contains value "://" || containsSensitive [value])
            [Currency u; Provider u; Model u] then Err ErrInvalid
  else Ok ().

Definition validIdentity (e : Event) : bool :=
  (ae_SchemaVersion e =? SchemaVersion) && (ae_EventID e =? clean (ae_EventID e))%string
  && (ae_TenantID e =? clean (ae_TenantID e))%string && negb (clean (ae_EventID e) =? "")%string
  && negb (clean (ae_TenantID e) =? "")%string && validEventType (EventType e)
  && negb (stamp_zero (OccurredAt e)) && utc (OccurredAt e).

(** The free-text fields that are searched for control characters and sensitive text. *)
Definition text_fields (e : Event) : list string :=
  [ae_EventID e; ae_TenantID e; ae_Channel e; ae_UserID e; ae_SessionID e; ae_AgentAppID e;
   ae_ModelProfileID e; ToolName e; ErrorType e; ae_RequestID e; ae_TraceID e; CorrelationID e;
   ActorType e; ActorID e; Reason e].

Definition validFields (e : Event) : bool :=
  negb (existsb hasControl (text_fields e)) && negb (negative (LatencyMS e) || negative (ae_Revision e)).

Definition validVersions (e : Event) : bool :=
  match PreviousVersion e, NextVersion e with
  | None, None => true
  | Some p, Some n => (0 <=? p) && negb (p =? int64_max) && (n =? incr64 p)
  | _, _ => false
  end.

Definition validControlPlaneMetadata (e : Event) : bool :=
  negb (EventType e =? EventControlPlaneChanged)%string
  || (negb (clean (ActorType e) =? "")%string && negb (clean (ActorID e) =? "")%string
      && negb (clean (Reason e) =? "")%string && negb (clean (CorrelationID e) =? "")%string
      && negb (opt_is_nil (PreviousVersion e))).

Definition validMetadata (e : Event) : bool :=
  (rune_count (trim_space (Reason e)) <=? 1000)
  && ((ae_Decision e =? "")%string || validDecision (ae_Decision e))
  && ((ErrorType e =? "")%string || validErrorType (ErrorType e))
  && negb (containsSensitive (text_fields e))
  && match Cost e with None => true | Some u => is_ok (Usage_Validate u) end.

Definition Event_Validate (e : Event) : result error unit :=
  if negb (validIdentity e) then Err ErrInvalid
  else if negb (validFields e) || negb (validVersions e) || negb (validControlPlaneMetadata e)
  then Err ErrInvalid
  else if negb (validMetadata e) then Err ErrInvalid
  else Ok ().

(** * The digest *)

(** Calendar date of a day count from 0000-03-01 of the proleptic Gregorian calendar: years
    start in March, so that the leap day ends a year. *)
Definition civil (day : Z) : Z * Z * Z :=
  let era := day / 146097 in
  let doe := day mod 146097 in
  let yoe := (doe - doe / 1460 + doe / 36524 - doe / 146096) / 365 in
  let doy := doe - (365 * yoe + yoe / 4 - yoe / 100) in
  let mp := (5 * doy + 2) / 153 in
  let month := if mp <? 10 then mp + 3 else mp - 9 in
  (yoe + 400 * era + (if month <=? 2 then 1 else 0), month, doy - (153 * mp + 2) / 5 + 1).

(** [z] in decimal, at least [n] digits. *)
Definition padded (n : nat) (z : Z) : string :=
  let digits := itoa z in
  (String.concat "" (replicate (n - String.length digits) "0") ++ digits)%string.
Fixpoint trim_zeros (fuel : nat) (digits : Z) (width : nat) : string :=
  match fuel with
  | O => ""
  | S fuel' =>
      if digits mod 10 =? 0 then trim_zeros fuel' (digits / 10) (width - 1)
      else ("." ++ padded width digits)%string
  end.

(** [time.Time.MarshalJSON] of a time in UTC: RFC 3339 with the fraction of the second, if
    any, and an error outside the years 0 to 9999.  Instants count from 0001-01-01, the
    306th day after 0000-03-01. *)
Definition json_time (t : time) : option string :=
  let seconds := t / second in
  let '(year, month, day) := civil (seconds / 86400 + 306) in
  let clock_ := seconds mod 86400 in
  if (year <? 0) || (9999 <? year) then None
  else Some (quote ++ padded 4 year ++ "-" ++ padded 2 month ++ "-" ++ padded 2 day ++ "T"
    ++ padded 2 (clock_ / 3600) ++ ":" ++ padded 2 (clock_ / 60 mod 60) ++ ":" ++ padded 2 (clock_ mod 60)
    ++ trim_zeros 9 (t mod second) 9 ++ "Z" ++ quote)%string.

Example json_time_examples :
  (json_time zero_time, json_time (63835596800 * second + 120 * millisecond), json_time (-second * 31622401))
  = (Some (quote ++ "0001-01-01T00:00:00Z" ++ quote)%string,
     Some (quote ++ "2023-11-14T22:13:20.12Z" ++ quote)%string, None).
Proof. vm_compute. reflexivity. Qed.

Definition json_int (v : option Z) : string := match v with Some z => itoa z | None => "null" end.

Definition json_usage (u : Usage) : string := json_object [
  ("InputTokens", json_int (InputTokens u)); ("OutputTokens", json_int (OutputTokens u));
  ("ModelCostMinor", json_int (ModelCostMinor u)); ("ToolCostMinor", json_int (ToolCostMinor u));
  ("Currency", json_string (Currency u)); ("BudgetUsedTokens", json_int (BudgetUsedTokens u));
  ("BudgetUsedMinor", json_int (BudgetUsedMinor u)); ("ExecutionResult", json_string (u_ExecutionResult u));
  ("Provider", json_string (Provider u)); ("Model", json_string (Model u))].

Definition json_event (e : Event) (occurred : string) : string := json_object [
  ("SchemaVersion", itoa (ae_SchemaVersion e)); ("EventID", json_string (ae_EventID e));
  ("EventType", json_string (EventType e)); ("TenantID", json_string (ae_TenantID e));
  ("Channel", json_string (ae_Channel e)); ("UserID", json_string (ae_UserID e));
  ("SessionID", json_string (ae_SessionID e)); ("AgentAppID", json_string (ae_AgentAppID e));
  ("Revision", json_int (ae_Revision e)); ("ModelProfileID", json_string (ae_ModelProfileID e));
  ("ToolName", json_string (ToolName e)); ("Decision", json_string (ae_Decision e));
  ("LatencyMS", json_int (LatencyMS e)); ("ErrorType", json_string (ErrorType e));
  ("Cost", match Cost e with Some u => json_usage u | None => "null" end);
  ("RequestID", json_string (ae_RequestID e)); ("TraceID", json_string (ae_TraceID e));
  ("CorrelationID", json_string (CorrelationID e)); ("ActorType", json_string (ActorType e));
  ("ActorID", json_string (ActorID e)); ("Reason", json_string (Reason e));
  ("PreviousVersion", json_int (PreviousVersion e)); ("NextVersion", json_int (NextVersion e));
  ("OccurredAt", occurred)].

Definition Digest (e : Event) : result error string :=
  _ ← Event_Validate e;
  match json_time (instant (OccurredAt e)) with
  | None => Err ErrMarshal
  | Some occurred => Ok (sha256_hex (json_event e occurred))
  end.

(** [audit.NewEventID]: the parts, each after its length in four bytes. *)
Definition NewEventID (parts : list string) : string :=
  ("audit_" ++ String.substring 0 32 (hex_encode (sum256 (parts ≫= λ part,
     app (be_bytes 4 (len part)) (bytes part)))))%string.

(** * The store *)

Record AppendResult := mkAppend { ar_Event : Event; Duplicate : bool; ar_Digest : string }.
Record Query := mkQuery { EventTypes : list string; Since : stamp; Until : stamp }.
Record UsageQuery := mkUsageQuery { uq_Query : Query; GroupBy : list string }.

Record UsageTotal := mkTotal {
  ut_TenantID : string; ut_AppID : string; ut_Channel : string; ut_Provider : string; ut_Model : string;
  ut_InputTokens : Z; ut_OutputTokens : Z; ut_ModelCostMinor : Z; ut_ToolCostMinor : Z;
  ut_BudgetUsedTokens : Z; ut_BudgetUsedMinor : Z; EventCount : Z; ut_Currency : string }.

(** The records by tenant and event identifier, each with its digest. *)
Definition Backend : Type := gmap (string * string) (Event * string).
Definition empty_backend : Backend := ∅.
(** A store is the tenant that it was made for; [None] is the nil pointer. *)
Definition Store : Type := option string.

Definition NewInMemoryWithBackend (tenantID : string) (backend : option Backend) : result error Store :=
  let tenantID := clean tenantID in
  if (tenantID =? "")%string || hasControl tenantID || opt_is_nil backend then Err ErrInvalid
  else Ok (Some tenantID).

Definition scope (s : Store) (tenantID : string) : result error unit :=
  match s with
  | None => Err ErrTenantScope
  | Some own =>
      if (own =? "")%string || negb (tenantID =? own)%string then Err ErrTenantScope else Ok ()
  end.

Definition check (ctx : context) : result error unit :=
  match ctx with
  | None => Err ErrInvalid
  | Some c => match c 0%nat with Some e => Err (ErrContext e) | None => Ok () end
  end.

Definition Append (s : Store) (ctx : context) (event : Event) : act Backend error AppendResult :=
  _ ← lift (check ctx);
  _ ← lift (scope s (ae_TenantID event));
  digest ← lift (Digest event);
  _ ← lift (check (ctx_from 1 ctx));
  backend ← get;
  let k := (ae_TenantID event, ae_EventID event) in
  match backend !! k with
  | Some (existing, d) =>
      if negb (d =? digest)%string then throw ErrConflict
      else mret (mkAppend existing true digest)
  | None =>
      _ ← put (<[k := (event, digest)]> backend);
      mret (mkAppend event false digest)
  end.

(** The guard [s == nil || s.scope(s.tenantID) != nil]. *)
Definition own_tenant (s : Store) : result error string :=
  match s with
  | None => Err ErrTenantScope
  | Some own => _ ← scope s own; Ok own
  end.

Definition Get (s : Store) (ctx : context) (eventID : string) (backend : Backend) : result error Event :=
  _ ← check ctx;
  own ← own_tenant s;
  if (clean eventID =? "")%string then Err ErrTenantScope
  else match backend !! (own, clean eventID) with
       | None => Err ErrNotFound
       | Some (event, _) => Ok event
       end.

Definition selected (own : string) (q : Query) (event : Event) : bool :=
  (ae_TenantID event =? own)%string
  && (match EventTypes q with [] => true | types => one_of types (EventType event) end)
  && (stamp_zero (Since q) || negb (stamp_before (OccurredAt event) (Since q)))
  && (stamp_zero (Until q) || negb (stamp_before (Until q) (OccurredAt event))).

Definition event_le (x y : Event) : Prop :=
  instant (OccurredAt x) < instant (OccurredAt y)
  ∨ (instant (OccurredAt x) = instant (OccurredAt y) ∧ String.le (ae_EventID x) (ae_EventID y)).
#[export] Instance event_le_dec : RelDecision event_le.
Proof. intros x y. unfold event_le. apply _. Defined.

(** Event identifiers are unique within a tenant, so the unstable [sort.Slice] has one
    possible result. *)
Definition List (s : Store) (ctx : context) (q : Query) (backend : Backend) : result error (list Event) :=
  _ ← check ctx;
  own ← own_tenant s;
  if negb (forallb validEventType (EventTypes q)) then Err ErrInvalid
  else Ok (merge_sort event_le (filter (λ e, selected own q e = true) ((map_to_list backend).*2.*1))).

(** * Usage *)

Definition add_opt (total : Z) (v : option Z) : Z := match v with Some z => wrap64 (total + z) | None => total end.

Definition addUsage (total : UsageTotal) (u : Usage) : UsageTotal :=
  mkTotal (ut_TenantID total) (ut_AppID total) (ut_Channel total) (ut_Provider total) (ut_Model total)
    (add_opt (ut_InputTokens total) (InputTokens u)) (add_opt (ut_OutputTokens total) (OutputTokens u))
    (add_opt (ut_ModelCostMinor total) (ModelCostMinor u)) (add_opt (ut_ToolCostMinor total) (ToolCostMinor u))
    (add_opt (ut_BudgetUsedTokens total) (BudgetUsedTokens u))
    (add_opt (ut_BudgetUsedMinor total) (BudgetUsedMinor u))
    (incr64 (EventCount total)) (ut_Currency total).

(** [strings.Join(parts, "\x00")]. *)
Definition join_nul (parts : list string) : string := String.concat nul parts.

(** The parts of a key: the currency and the dimensions named by the groups. *)
Definition key_parts (currency : string) (dimension : string → option string) (groups : list string) : list string :=
  currency :: omap dimension groups.

Definition dimension (tenant app channel provider model group : string) : option string :=
  if (group =? GroupTenant)%string then Some tenant
  else if (group =? GroupApp)%string then Some app
  else if (group =? GroupChannel)%string then Some channel
  else if (group =? GroupProvider)%string then Some provider
  else if (group =? GroupModel)%string then Some model
  else None.

Definition event_parts (event : Event) (cost : Usage) (groups : list string) : list string :=
  key_parts (Currency cost) (dimension (ae_TenantID event) (ae_AgentAppID event) (ae_Channel event)
    (Provider cost) (Model cost)) groups.
Definition aggregateKey (event : Event) (cost : Usage) (groups : list string) : string :=
  join_nul (event_parts event cost groups).

Definition aggregateKeyTotal (total : UsageTotal) (groups : list string) : string :=
  join_nul (key_parts (ut_Currency total) (dimension (ut_TenantID total) (ut_AppID total) (ut_Channel total)
    (ut_Provider total) (ut_Model total)) groups).

(** The total that the first event of a group starts. *)
Definition new_total (own : string) (event : Event) (cost : Usage) : UsageTotal :=
  mkTotal own (ae_AgentAppID event) (ae_Channel event) (Provider cost) (Model cost) 0 0 0 0 0 0 0 (Currency cost).

(** One round of the loop over the events. *)
Definition aggregate_event (own : string) (groups : list string) (totals : gmap string UsageTotal) (event : Event)
    : gmap string UsageTotal :=
  match Cost event with
  | None => totals
  | Some cost =>
      let k := aggregateKey event cost groups in
      let total := match totals !! k with Some total => total | None => new_total own event cost end in
      <[k := addUsage total cost]> totals
  end.

Definition total_le (groups : list string) (x y : UsageTotal) : Prop :=
  String.le (aggregateKeyTotal x groups) (aggregateKeyTotal y groups).
#[export] Instance total_le_dec groups : RelDecision (total_le groups).
Proof. intros x y. unfold total_le. apply _. Defined.

Definition AggregateUsage (s : Store) (ctx : context) (q : UsageQuery) (backend : Backend)
    : result error (list UsageTotal) :=
  _ ← check ctx;
  if negb (forallb validGroup (GroupBy q)) then Err ErrInvalid
  else
    events ← List s (ctx_from 1 ctx) (uq_Query q) backend;
    let own := match s with Some own => own | None => "" end in
    let totals := foldl (aggregate_event own (GroupBy q)) ∅ events in
    Ok (merge_sort (total_le (GroupBy q)) ((map_to_list totals).*2)).

(** * The recorder *)

(** [ErrWriteFailed], joined with the cause when there is one, and errors of the validation. *)
Inductive record_error := WriteFailed (cause : option error) | Rejected (e : error).

(** [Now] is the recorder's clock, which may be nil. *)
Record Recorder := mkRecorder { Writer : option Store; r_TenantID : string; Now : option stamp }.

Definition default (value replacement : string) : string := if (value =? "")%string then replacement else value.

(** The event that [Record] completes; [now] is [time.Now]. *)
Definition completed (r : Recorder) (now : stamp) (e : Event) : Event :=
  mkEvent (if ae_SchemaVersion e =? 0 then SchemaVersion else ae_SchemaVersion e)
    (default (ae_EventID e)
       (NewEventID [EventType e; ae_RequestID e; ae_TraceID e; CorrelationID e]))
    (EventType e) (default (ae_TenantID e) (trim_space (r_TenantID r))) (ae_Channel e) (ae_UserID e)
    (ae_SessionID e) (ae_AgentAppID e) (ae_Revision e) (ae_ModelProfileID e) (ToolName e) (ae_Decision e)
    (LatencyMS e) (ErrorType e) (Cost e) (ae_RequestID e) (ae_TraceID e) (CorrelationID e) (ActorType e)
    (ActorID e) (Reason e) (PreviousVersion e) (NextVersion e)
    (if stamp_zero (OccurredAt e) then to_utc (match Now r with Some t => t | None => now end)
     else OccurredAt e).

(** [Record] of the source. *)
Definition Record_ (r : Recorder) (ctx : context) (now : stamp) (event : Event) : act Backend record_error unit :=
  λ backend,
  match Writer r with
  | None => (backend, Ok ())
  | Some store =>
      if opt_is_nil ctx then (backend, Err (WriteFailed None))
      else
        let event := completed r now event in
        match Event_Validate event with
        | Err e => (backend, Err (Rejected e))
        | Ok _ =>
            match Append store ctx event backend with
            | (backend', Err e) => (backend', Err (WriteFailed (Some e)))
            | (backend', Ok _) => (backend', Ok ())
            end
        end
  end.

Definition zero_stamp : stamp := mkStamp zero_time true.
(** An event with the given type, request, trace and outcome and no other field. *)
Definition outcome_event (eventType requestID traceID userID sessionID toolName decision errorType : string) : Event :=
  mkEvent 0 "" eventType "" "" userID sessionID "" None "" toolName decision None errorType None requestID
    traceID "" "" "" "" None None zero_stamp.

Definition ControlPlane (r : Recorder) (ctx : context) (now : stamp)
    (eventID tenantID actorType actorID reason correlationID : string) (previous next : Z) :=
  Record_ r ctx now (mkEvent 0 eventID EventControlPlaneChanged tenantID "" "" "" "" None "" "" "" None "" None
    "" "" correlationID actorType actorID reason (Some previous) (Some next) zero_stamp).
Definition ToolDecision (r : Recorder) ctx now eventType requestID traceID toolName decision errorType :=
  Record_ r ctx now (outcome_event eventType requestID traceID "" "" toolName decision errorType).
Definition BudgetRejected (r : Recorder) ctx now requestID traceID :=
  Record_ r ctx now (outcome_event EventBudgetRejected requestID traceID "" "" "" DecisionRejected ErrorBudget).
Definition Redacted (r : Recorder) ctx now requestID traceID :=
  Record_ r ctx now (outcome_event EventContentRedacted requestID traceID "" "" "" DecisionAccepted ErrorRedacted).
Definition Fallback (r : Recorder) ctx now requestID traceID :=
  Record_ r ctx now (outcome_event EventExecutionFallback requestID traceID "" "" "" DecisionAccepted "").
Definition IM (r : Recorder) ctx now eventType requestID traceID userID sessionID decision errorType :=
  Record_ r ctx now (outcome_event eventType requestID traceID userID sessionID "" decision errorType).
Definition IMAuthorization (r : Recorder) ctx now requestID traceID userID sessionID (allowed : bool) :=
  let '(eventType, decision) :=
    if allowed then (EventIMAuthorizationAllowed, DecisionAccepted)
    else (EventIMAuthorizationDenied, DecisionRejected) in
  IM r ctx now eventType requestID traceID userID sessionID decision "".
Definition IMReconciled (r : Recorder) ctx now requestID traceID errorType :=
  IM r ctx now EventIMDeliveryReconciled requestID traceID "" ""
    (if (errorType =? "")%string then DecisionAccepted else DecisionRejected) errorType.

(** * Hand-offs *)

Definition HandoffPending : string := "pending".
Definition HandoffFinalized : string := "finalized".
Definition HandoffRepairable : string := "repairable".

Record ExecutionHandoff := mkHandoff {
  h_TenantID : string; HandoffID : string; h_RequestID : string; h_TraceID : string; h_EventID : string;
  h_State : string; h_Result : string; h_ErrorType : string; h_LatencyMS : option Z; h_Cost : option Usage;
  h_CreatedAt : time; h_UpdatedAt : time }.

Definition HandoffStore : Type := gmap string ExecutionHandoff.
Definition NewInMemoryHandoffStore : HandoffStore := ∅.
Definition handoff_key (tenantID handoffID : string) : string := (tenantID ++ nul ++ handoffID)%string.
Definition handoffContext (ctx : context) : result error unit := check ctx.

Definition Reserve (ctx : context) (now : time) (value : ExecutionHandoff) : act HandoffStore error ExecutionHandoff :=
  _ ← lift (handoffContext ctx);
  _ ← ensure (negb ((h_TenantID value =? "")%string || (HandoffID value =? "")%string
                    || (h_RequestID value =? "")%string || negb (h_State value =? HandoffPending)%string))
        ErrInvalid;
  let value := mkHandoff (h_TenantID value) (HandoffID value) (h_RequestID value) (h_TraceID value)
    (h_EventID value) (h_State value) (h_Result value) (h_ErrorType value) (h_LatencyMS value) (h_Cost value)
    now now in
  values ← get;
  let k := handoff_key (h_TenantID value) (HandoffID value) in
  match values !! k with
  | Some old =>
      if (h_RequestID old =? h_RequestID value)%string then mret old else throw ErrHandoffConflict
  | None => _ ← put (<[k := value]> values); mret value
  end.

Definition Finalize (ctx : context) (now : time) (value : ExecutionHandoff) : act HandoffStore error ExecutionHandoff :=
  _ ← lift (handoffContext ctx);
  _ ← ensure (negb ((h_TenantID value =? "")%string || (HandoffID value =? "")%string
                    || negb (h_State value =? HandoffFinalized)%string)) ErrInvalid;
  values ← get;
  let k := handoff_key (h_TenantID value) (HandoffID value) in
  match values !! k with
  | None => throw ErrHandoffNotFound
  | Some old =>
      if (h_State old =? HandoffFinalized)%string then mret old
      else
        let value := mkHandoff (h_TenantID value) (HandoffID value) (h_RequestID old) (h_TraceID old)
          (h_EventID old) (h_State value) (h_Result value) (h_ErrorType value) (h_LatencyMS value)
          (h_Cost value) (h_CreatedAt old) now in
        _ ← put (<[k := value]> values); mret value
  end.

Definition GetHandoff (ctx : context) (tenantID handoffID : string) (values : HandoffStore)
    : result error ExecutionHandoff :=
  _ ← handoffContext ctx;
  match values !! handoff_key tenantID handoffID with
  | None => Err ErrHandoffNotFound
  | Some value => Ok value
  end.

(** * The log only grows *)

(** Each record is stored under its tenant and identifier, is valid, and has its digest. *)
Definition record_ok (k : string * string) (v : Event * string) : Prop :=
  k = (ae_TenantID v.1, ae_EventID v.1) ∧ Digest v.1 = Ok v.2.
Definition log_ok (b : Backend) : Prop := map_Forall record_ok b.

Inductive audit_op :=
| OpAppend (s : Store) (ctx : context) (e : Event)
| OpRecord (r : Recorder) (ctx : context) (now : stamp) (e : Event).

Definition exec_audit (o : audit_op) (b : Backend) : Backend :=
  match o with
  | OpAppend s ctx e => (Append s ctx e b).1
  | OpRecord r ctx now e => (Record_ r ctx now e b).1
  end.
Definition run_audit (os : list audit_op) (b : Backend) : Backend := foldl (λ b o, exec_audit o b) b os.

(** What an append does, in one of three ways. *)
Lemma Append_cases s ctx e b :
  (∃ err, Append s ctx e b = (b, Err err))
  ∨ (∃ d, s = Some (ae_TenantID e) ∧ Digest e = Ok d
      ∧ ((b !! (ae_TenantID e, ae_EventID e) = None
          ∧ Append s ctx e b = (<[(ae_TenantID e, ae_EventID e) := (e, d)]> b, Ok (mkAppend e false d)))
         ∨ ∃ e0, b !! (ae_TenantID e, ae_EventID e) = Some (e0, d)
                 ∧ Append s ctx e b = (b, Ok (mkAppend e0 true d)))).
Proof.
  unfold Append, scope. go_unfold. destruct (check ctx) as [[]|]; [|by left; eauto].
  destruct s as [own|]; [|by left; eauto].
  destruct (own =? "")%string; simpl; [by left; eauto|].
  destruct (String.eqb_spec (ae_TenantID e) own) as [<-|]; simpl; [|by left; eauto].
  destruct (Digest e) as [d|]; [|by left; eauto].
  destruct (check (ctx_from 1 ctx)) as [[]|]; [|by left; eauto].
  destruct (b !! _) as [[e0 d0]|] eqn:Hb; [|right; eauto 8].
  destruct (String.eqb_spec d0 d) as [->|]; simpl; [right; eauto 9|by left; eauto].
Qed.

Lemma exec_audit_cases o b :
  exec_audit o b = b
  ∨ ∃ e d, Digest e = Ok d ∧ b !! (ae_TenantID e, ae_EventID e) = None
      ∧ exec_audit o b = <[(ae_TenantID e, ae_EventID e) := (e, d)]> b.
Proof.
  destruct o as [s ctx e|r ctx now e]; simpl.
  - destruct (Append_cases s ctx e b) as [(err & ->)|(d & _ & Hd & [[Hn ->]|(e0 & _ & ->)])]; eauto 6.
  - unfold Record_. destruct (Writer r) as [s|]; [|by left].
    destruct (opt_is_nil ctx); [by left|]. destruct (Event_Validate _); [|by left].
    destruct (Append_cases s ctx (completed r now e) b) as [(err & ->)|(d & _ & Hd & [[Hn ->]|(e0 & _ & ->)])];
      simpl; eauto 6.
Qed.

Lemma run_audit_ok os b : log_ok b → log_ok (run_audit os b).
Proof.
  revert b. induction os as [|o os IH]; intros b Hb; [done|]. apply IH. simpl.
  destruct (exec_audit_cases o b) as [->|(e & d & Hd & _ & ->)]; [done|].
  by apply map_Forall_insert_at.
Qed.

Lemma run_audit_grows os b : b ⊆ run_audit os b.
Proof.
  revert b. induction os as [|o os IH]; intros b; [done|]. etrans; [|apply IH]. simpl.
  destruct (exec_audit_cases o b) as [->|(e & d & _ & Hn & ->)]; [done|]. by apply insert_subseteq.
Qed.

Lemma Digest_valid e d : Digest e = Ok d → Event_Validate e = Ok ().
Proof. unfold Digest. go_unfold. by destruct (Event_Validate e) as [[]|]. Qed.

Lemma Event_Validate_Ok e :
  Event_Validate e = Ok () →
  validIdentity e = true ∧ validFields e = true ∧ validVersions e = true
  ∧ validControlPlaneMetadata e = true ∧ validMetadata e = true.
Proof. unfold Event_Validate. intros. repeat case_match; bool_prop; done. Qed.

Lemma valid_event_id e :
  Event_Validate e = Ok () → clean (ae_EventID e) = ae_EventID e ∧ ae_EventID e ≠ "" ∧ ae_TenantID e ≠ "".
Proof.
  intros (Hi & _)%Event_Validate_Ok. unfold validIdentity in Hi. bool_prop.
  repeat match goal with H : ae_EventID e = clean _ |- _ => rewrite <- H in *
    | H : ae_TenantID e = clean _ |- _ => rewrite <- H in * end. done.
Qed.

(** An event of a well-formed log is read by its own tenant, under its own identifier. *)
Lemma Get_stored b e d ctx :
  log_ok b → b !! (ae_TenantID e, ae_EventID e) = Some (e, d) → check ctx = Ok () →
  Get (Some (ae_TenantID e)) ctx (ae_EventID e) b = Ok e.
Proof.
  intros Hb He Hc. destruct (Hb _ _ He) as [_ (Hid & Hne & Htn)%Digest_valid%valid_event_id]. simpl in *.
  unfold Get, own_tenant, scope. go_unfold. rewrite Hc, Hid, String.eqb_refl.
  apply String.eqb_neq in Hne, Htn. rewrite Htn, Hne. simpl. by rewrite He.
Qed.

Lemma List_elem s ctx q b es e :
  List s ctx q b = Ok es → e ∈ es → ∃ k d own, s = Some own ∧ b !! k = Some (e, d) ∧ selected own q e = true.
Proof.
  unfold List, own_tenant. go_unfold. intros H He. repeat (case_match; simplify_eq/=).
  rewrite merge_sort_Permutation, list_elem_of_filter in He.
  destruct He as (Hs & (p & -> & ([k [e' d]] & -> & Hk%elem_of_map_to_list)%list_elem_of_fmap)%list_elem_of_fmap).
  simpl in *. eauto 6.
Qed.

(** After an accepted append the event is stored under its key. *)
Lemma Append_stored s ctx e b b1 r :
  log_ok b → Append s ctx e b = (b1, Ok r) →
  s = Some (ae_TenantID e) ∧ ae_EventID (ar_Event r) = ae_EventID e ∧ Digest e = Ok (ar_Digest r) ∧ log_ok b1
  ∧ b1 !! (ae_TenantID e, ae_EventID e) = Some (ar_Event r, ar_Digest r).
Proof.
  intros Hb Ha. destruct (Append_cases s ctx e b) as [(err & Hr)|(d & -> & Hd & [[Hn Hr]|(e0 & He0 & Hr)])];
    rewrite Hr in Ha; [done|injection Ha as <- <-..]; simpl.
  - split_and!; [done..|by apply map_Forall_insert_at|apply lookup_insert_eq].
  - destruct (Hb _ _ He0) as [[= _ <-] _]. done.
Qed.

Lemma Append_known own e b e0 d0 ctx :
  own ≠ ""%string → own = ae_TenantID e → b !! (own, ae_EventID e) = Some (e0, d0) →
  check ctx = Ok () → check (ctx_from 1 ctx) = Ok () →
  (Digest e = Ok d0 → Append (Some own) ctx e b = (b, Ok (mkAppend e0 true d0)))
  ∧ (Digest e ≠ Ok d0 → Append (Some own) ctx e b = (b, Err (match Digest e with Ok _ => ErrConflict | Err err => err end))).
Proof.
  intros Hne%String.eqb_neq -> He0 Hc Hc'. unfold Append, scope. go_unfold. rewrite Hc, Hne, String.eqb_refl.
  simpl. destruct (Digest e) as [d|]; [|by split; [intros [=]|]]. rewrite Hc', He0.
  destruct (String.eqb_spec d0 d) as [->|Hd]; simpl; split; [done|by intros []|by intros [= <-]|done].
Qed.

Lemma stored_forever b e r os ctx :
  log_ok b → b !! (ae_TenantID e, ae_EventID e) = Some (ar_Event r, ar_Digest r) → Digest e = Ok (ar_Digest r) →
  check ctx = Ok () → check (ctx_from 1 ctx) = Ok () →
  let b' := run_audit os b in
  Get (Some (ae_TenantID e)) ctx (ae_EventID e) b' = Ok (ar_Event r)
  ∧ Append (Some (ae_TenantID e)) ctx e b' = (b', Ok (mkAppend (ar_Event r) true (ar_Digest r)))
  ∧ ∀ e', ae_TenantID e' = ae_TenantID e → ae_EventID e' = ae_EventID e →
      Digest e' ≠ Ok (ar_Digest r) →
      Append (Some (ae_TenantID e)) ctx e' b' = (b', Err (match Digest e' with Ok _ => ErrConflict | Err err => err end)).
Proof.
  intros Hb He Hd Hc Hc' b'. pose proof (run_audit_ok os b Hb) as Hb'.
  pose proof (lookup_weaken _ _ _ _ He (run_audit_grows os b)) as He'.
  destruct (Hb' _ _ He') as [[= Ht Hi] _]. simpl in *.
  destruct (valid_event_id _ (Digest_valid _ _ Hd)) as (_ & _ & Hne).
  split_and!.
  - rewrite Ht, Hi. eapply Get_stored; [done| |done]. by rewrite <- Ht, <- Hi.
  - by apply (Append_known (ae_TenantID e) e).
  - intros e' Ht' Hi' Hd'. eapply (Append_known (ae_TenantID e) e'); try done. by rewrite Hi'.
Qed.

Lemma Get_elem s ctx id b e :
  Get s ctx id b = Ok e → ∃ own d, s = Some own ∧ b !! (own, clean id) = Some (e, d).
Proof. unfold Get, own_tenant. go_unfold. intros. repeat (case_match; simplify_eq/=); eauto. Qed.

(** C24: the audit log is append-only, tenant-scoped and idempotent.  In every state that any
    interleaving of appends and recorded outcomes reaches: every record is a valid event
    stored under its own tenant and identifier with its digest; later operations keep every
    record as it is; an accepted append belongs to the store's own tenant, is read back under
    its identifier ever after, is answered as a duplicate when repeated, and is never replaced
    by an event with the same identifier and another digest, which is a conflict (or, when it
    is not even valid, refused with the error of its validation); and a store reads and lists
    only events of its own tenant. *)
Theorem audit_log_append_only os :
  let b := run_audit os empty_backend in
  log_ok b
  ∧ (∀ os', b ⊆ run_audit os' b)
  ∧ (∀ s ctx e b1 r, Append s ctx e b = (b1, Ok r) →
       s = Some (ae_TenantID e) ∧ ae_EventID (ar_Event r) = ae_EventID e
       ∧ ∀ os' ctx', check ctx' = Ok () → check (ctx_from 1 ctx') = Ok () →
           let b2 := run_audit os' b1 in
           Get s ctx' (ae_EventID e) b2 = Ok (ar_Event r)
           ∧ Append s ctx' e b2 = (b2, Ok (mkAppend (ar_Event r) true (ar_Digest r)))
           ∧ ∀ e', ae_TenantID e' = ae_TenantID e → ae_EventID e' = ae_EventID e →
               Digest e' ≠ Ok (ar_Digest r) →
               Append s ctx' e' b2 = (b2, Err (match Digest e' with Ok _ => ErrConflict | Err err => err end)))
  ∧ (∀ s ctx id e, Get s ctx id b = Ok e → s = Some (ae_TenantID e) ∧ Event_Validate e = Ok ())
  ∧ (∀ s ctx q es e, List s ctx q b = Ok es → e ∈ es →
       s = Some (ae_TenantID e) ∧ Event_Validate e = Ok ()).
Proof.
  intros b. assert (log_ok b) as Hb by (apply run_audit_ok, map_Forall_empty).
  split_and!; [done|intros; apply run_audit_grows| | |].
  - intros s ctx e b1 r Ha. destruct (Append_stored _ _ _ _ _ _ Hb Ha) as (-> & Hid & Hd & Hb1 & He1).
    split_and!; [done|done|]. intros os' ctx' Hc Hc'. by apply stored_forever.
  - intros s ctx id e (own & d & -> & Hk)%Get_elem. destruct (Hb _ _ Hk) as [[= <- _] Hd].
    split; [done|by eapply Digest_valid].
  - intros s ctx q es e Hl He. destruct (List_elem _ _ _ _ _ _ Hl He) as (k & d & own & -> & Hk & Hs).
    destruct (Hb _ _ Hk) as [_ Hd]. unfold selected in Hs. bool_prop. subst own.
    split; [done|by eapply Digest_valid].
Qed.

(** * Usage totals *)

(** ** The key of a group is unambiguous *)

Lemma join_nul_inj ps qs :
  length ps = length qs → Forall (λ p, nul_free p = true) ps → Forall (λ p, nul_free p = true) qs →
  join_nul ps = join_nul qs → ps = qs.
Proof.
  unfold join_nul. revert qs. induction ps as [|p ps IH]; intros [|q qs] Hl Hp Hq; try done.
  apply Forall_cons in Hp as [Hp Hps], Hq as [Hq Hqs]. injection Hl as Hl.
  destruct ps as [|p' ps], qs as [|q' qs]; try done; [cbn; by intros ->|].
  intros H. change (p ++ String Ascii.zero (String.concat nul (p' :: ps)) =
    q ++ String Ascii.zero (String.concat nul (q' :: qs)))%string in H.
  apply nul_split_inj in H as [-> H]; [|done..]. f_equal. by apply IH.
Qed.

Lemma omap_dimension_length a b c d e a' b' c' d' e' groups :
  length (omap (dimension a b c d e) groups) = length (omap (dimension a' b' c' d' e') groups).
Proof.
  induction groups as [|g gs IH]; [done|]. csimpl.
  assert (is_Some (dimension a b c d e g) ↔ is_Some (dimension a' b' c' d' e' g)) as [H1 H2]
    by (unfold dimension; repeat case_match; done).
  destruct (dimension a b c d e g), (dimension a' b' c' d' e' g); simpl; auto.
  - destruct H1; eauto; done.
  - destruct H2; eauto; done.
Qed.

Lemma omap_dimension_all (P : string → Prop) a b c d e groups :
  P a → P b → P c → P d → P e → Forall P (omap (dimension a b c d e) groups).
Proof.
  intros. induction groups as [|g gs IH]; [constructor|]. csimpl. unfold dimension at 1.
  repeat case_match; simplify_eq; auto.
Qed.

Lemma Usage_Validate_text u :
  Usage_Validate u = Ok () →
  nul_free (Currency u) = true ∧ nul_free (Provider u) = true ∧ nul_free (Model u) = true.
Proof.
  unfold Usage_Validate. intros. repeat case_match; try done. simpl in *. bool_prop.
  by split_and!; apply control_free_nul_free.
Qed.

Lemma valid_event_parts e u groups :
  Event_Validate e = Ok () → Cost e = Some u → Forall (λ p, nul_free p = true) (event_parts e u groups).
Proof.
  intros (_ & Hf & _ & _ & Hm)%Event_Validate_Ok Hu. unfold validFields, text_fields, validMetadata in *.
  rewrite Hu in Hm. simpl in Hf. bool_prop. destruct (Usage_Validate u) as [[]|] eqn:Hv; [|done].
  apply Usage_Validate_text in Hv as (? & ? & ?). constructor; [done|].
  apply omap_dimension_all; try done; by apply control_free_nul_free.
Qed.

Lemma aggregateKey_inj e1 u1 e2 u2 groups :
  Event_Validate e1 = Ok () → Cost e1 = Some u1 → Event_Validate e2 = Ok () → Cost e2 = Some u2 →
  aggregateKey e1 u1 groups = aggregateKey e2 u2 groups → event_parts e1 u1 groups = event_parts e2 u2 groups.
Proof.
  intros. eapply join_nul_inj; try done; try by apply valid_event_parts.
  unfold event_parts, key_parts. simpl. f_equal. apply omap_dimension_length.
Qed.

(** ** Reference: sums over the events of a group *)

Definition costed (es : list Event) : list (Event * Usage) := omap (λ e, (e,.) <$> Cost e) es.

Definition sum_of (f : Usage → option Z) (us : list Usage) : Z :=
  wrap64 (foldr Z.add 0 ((λ u, match f u with Some z => z | None => 0 end) <$> us)).

(** The total of a group: its dimensions from the first member, the sums over all. *)
Definition group_total (own : string) (first : Event * Usage) (members : list (Event * Usage)) : UsageTotal :=
  let us := members.*2 in
  mkTotal own (ae_AgentAppID first.1) (ae_Channel first.1) (Provider first.2) (Model first.2)
    (sum_of InputTokens us) (sum_of OutputTokens us) (sum_of ModelCostMinor us) (sum_of ToolCostMinor us)
    (sum_of BudgetUsedTokens us) (sum_of BudgetUsedMinor us) (wrap64 (Z.of_nat (length us))) (Currency first.2).

Definition group (parts groups : list string) (es : list Event) : list (Event * Usage) :=
  filter (λ eu, event_parts eu.1 eu.2 groups = parts) (costed es).

Lemma sum_of_snoc f us u : sum_of f (us ++ [u]) = add_opt (sum_of f us) (f u).
Proof.
  unfold sum_of, add_opt. rewrite fmap_app, foldr_app. simpl.
  assert (∀ l z, foldr Z.add z l = foldr Z.add 0 l + z) as ->
    by (intros l z; induction l as [|x l IH]; simpl; [|rewrite IH]; lia).
  destruct (f u) as [z|]; [by rewrite wrap64_add, Z.add_0_r|by rewrite !Z.add_0_r].
Qed.

Lemma group_total_snoc own first members e u :
  group_total own first (members ++ [(e, u)]) = addUsage (group_total own first members) u.
Proof.
  unfold group_total, addUsage. cbn [ut_TenantID ut_AppID ut_Channel ut_Provider ut_Model ut_InputTokens
    ut_OutputTokens ut_ModelCostMinor ut_ToolCostMinor ut_BudgetUsedTokens ut_BudgetUsedMinor EventCount
    ut_Currency]. rewrite fmap_app. cbn [fmap list_fmap snd]. rewrite !sum_of_snoc. f_equal.
  unfold incr64. rewrite wrap64_add, length_app. f_equal. simpl. lia.
Qed.

(** The loop computes the sums of every group. *)
Lemma aggregate_fold own groups es k :
  foldl (aggregate_event own groups) ∅ es !! k =
  match filter (λ eu, aggregateKey eu.1 eu.2 groups = k) (costed es) with
  | [] => None
  | first :: rest => Some (group_total own first (first :: rest))
  end.
Proof.
  induction es as [|e es IH] using rev_ind; [done|].
  rewrite foldl_app. unfold costed. rewrite omap_app, filter_app. fold (costed es). simpl.
  unfold aggregate_event at 1. destruct (Cost e) as [u|]; simpl; [|by rewrite filter_nil, app_nil_r].
  rewrite filter_cons, filter_nil. case_decide as Hk; simpl in Hk.
  - subst k. rewrite lookup_insert_eq, IH. destruct (filter _ _) as [|first rest]; simpl; f_equal; symmetry.
    + apply (group_total_snoc own (e, u) []).
    + apply (group_total_snoc own first (first :: rest)).
  - rewrite lookup_insert_ne, IH by done. by rewrite app_nil_r.
Qed.

Lemma elem_of_costed es e u : (e, u) ∈ costed es ↔ e ∈ es ∧ Cost e = Some u.
Proof.
  unfold costed. rewrite list_elem_of_omap. split.
  - intros (e' & He & Hu). destruct (Cost e') eqn:?; by simplify_eq/=.
  - intros [He Hu]. exists e. by rewrite Hu.
Qed.

(** Grouping by the joined key is grouping by its parts. *)
Lemma group_by_key groups es e u :
  (∀ e, e ∈ es → Event_Validate e = Ok ()) → (e, u) ∈ costed es →
  filter (λ eu, aggregateKey eu.1 eu.2 groups = aggregateKey e u groups) (costed es)
  = group (event_parts e u groups) groups es.
Proof.
  intros Hv [He Hu]%elem_of_costed. apply filter_ext_in. intros [e' u'] [He' Hu']%elem_of_costed. simpl.
  split; [|by unfold aggregateKey; intros ->]. apply aggregateKey_inj; auto.
Qed.

(** A total stands under the key of its group. *)
Lemma group_total_key own groups e u members :
  ae_TenantID e = own → aggregateKeyTotal (group_total own (e, u) members) groups = aggregateKey e u groups.
Proof. by intros <-. Qed.

#[export] Instance total_le_trans groups : Transitive (total_le groups).
Proof. intros x y z. unfold total_le. apply transitivity. Qed.
#[export] Instance total_le_total groups : Total (total_le groups).
Proof. intros x y. apply (total String.le). Qed.

(** C25: usage aggregation reports exactly the sums of each group.  Over any reachable log,
    the totals are one per combination of currency and group-by values that occurs among the
    listed events with a cost; each holds the number and the sums (modulo [2^64], as the
    counters wrap) of exactly the events of its group; and they come in strictly increasing
    order of their keys. *)
Theorem usage_totals_exact os own ctx q totals :
  AggregateUsage (Some own) ctx q (run_audit os empty_backend) = Ok totals →
  ∃ es, List (Some own) (ctx_from 1 ctx) (uq_Query q) (run_audit os empty_backend) = Ok es
    ∧ (∀ t, t ∈ totals ↔ ∃ parts first rest,
         group parts (GroupBy q) es = first :: rest ∧ t = group_total own first (first :: rest))
    ∧ NoDup ((λ t, aggregateKeyTotal t (GroupBy q)) <$> totals)
    ∧ StronglySorted (total_le (GroupBy q)) totals.
Proof.
  set (b := run_audit os empty_backend). assert (log_ok b) as Hb by (apply run_audit_ok, map_Forall_empty).
  unfold AggregateUsage. go_unfold. intros H. destruct (check ctx); [|done]. case_match; [done|].
  destruct (List _ _ _ _) as [es|] eqn:Hl; [|done]. injection H as <-. exists es.
  set (m := foldl _ ∅ es).
  assert (∀ e, e ∈ es → Event_Validate e = Ok () ∧ ae_TenantID e = own) as Hes.
  { intros e He. destruct (List_elem _ _ _ _ _ _ Hl He) as (k & d & own' & [= <-] & Hk & Hs).
    destruct (Hb _ _ Hk) as [_ Hd]. unfold selected in Hs. bool_prop. split; [by eapply Digest_valid|done]. }
  assert (∀ k t, m !! k = Some t → ∃ e u rest, k = aggregateKey e u (GroupBy q)
    ∧ group (event_parts e u (GroupBy q)) (GroupBy q) es = (e, u) :: rest
    ∧ t = group_total own (e, u) ((e, u) :: rest) ∧ ae_TenantID e = own) as Hm.
  { intros k t. unfold m. rewrite aggregate_fold. destruct (filter _ _) as [|[e u] rest] eqn:Hf; [done|].
    intros [= <-]. assert ((e, u) ∈ filter (λ eu, aggregateKey eu.1 eu.2 (GroupBy q) = k) (costed es)) as Hin
      by (rewrite Hf; left). apply list_elem_of_filter in Hin as [Hk Hin]. simpl in Hk. subst k.
    rewrite group_by_key in Hf; [|by intros; apply Hes|done]. exists e, u, rest. split_and!; try done.
    apply elem_of_costed in Hin as [Hin _]. by apply Hes. }
  split_and!; [done| | |apply (StronglySorted_merge_sort _)].
  - intros t. rewrite merge_sort_Permutation, elem_of_values. split.
    + intros [k (e & u & rest & _ & Hg & -> & _)%Hm]. eauto 6.
    + intros (parts & [e u] & rest & Hg & ->). exists (aggregateKey e u (GroupBy q)).
      assert ((e, u) ∈ group parts (GroupBy q) es) as Hin by (rewrite Hg; left).
      apply list_elem_of_filter in Hin as [Hp Hin]. simpl in Hp. subst parts. unfold m.
      rewrite aggregate_fold, group_by_key; [by rewrite Hg|by intros; apply Hes|done].
  - eapply (keyed_NoDup m); [|apply merge_sort_Permutation].
    intros k t (e & u & rest & -> & _ & -> & He)%Hm. by apply group_total_key.
Qed.

(** * Hand-offs are finalized once *)

Inductive handoff_op :=
| OpReserve (ctx : context) (now : time) (value : ExecutionHandoff)
| OpFinalize (ctx : context) (now : time) (value : ExecutionHandoff).
Definition exec_handoff (o : handoff_op) (values : HandoffStore) : HandoffStore :=
  match o with
  | OpReserve ctx now value => (Reserve ctx now value values).1
  | OpFinalize ctx now value => (Finalize ctx now value values).1
  end.

(** A finalized hand-off never changes, and every later [Finalize] of it reports the first
    outcome, whatever outcome it carries itself. *)
Lemma handoff_final os values k v ctx now value :
  values !! k = Some v → h_State v = HandoffFinalized →
  let values' := foldl (λ m o, exec_handoff o m) values os in
  values' !! k = Some v
  ∧ (k = handoff_key (h_TenantID value) (HandoffID value) → check ctx = Ok () →
     h_TenantID value ≠ "" → HandoffID value ≠ "" → h_State value = HandoffFinalized →
     Finalize ctx now value values' = (values', Ok v)).
Proof.
  intros Hv Hs values'. assert (values' !! k = Some v) as Hv'.
  { subst values'. clear ctx now value. revert values Hv. induction os as [|o os IH]; intros values Hv; [done|].
    apply IH. destruct o as [ctx now value|ctx now value]; simpl.
    - unfold Reserve. go_step; try done.
      etrans; [apply lookup_insert_ne|done]. intros <-. congruence.
    - unfold Finalize. go_step; try done. bool_prop.
      etrans; [apply lookup_insert_ne|done]. intros <-. congruence. }
  split; [done|]. intros -> Hc Ht%String.eqb_neq Hi%String.eqb_neq Hf.
  unfold Finalize, handoffContext. go_unfold. by rewrite Hc, Ht, Hi, Hf, Hv', Hs.
Qed.

(** * Witnesses *)

Definition ex_cost (tokens : Z) (provider : string) : Usage :=
  mkUsage (Some tokens) (Some 1) (Some 5) None "USD" None None ResultSuccess provider "m".
Definition ex_audit_event (id : string) (cost : option Usage) : Event :=
  mkEvent 1 id EventExecutionCompleted "t1" "telegram" "u" "s" "app" None "" "" "" None "" cost "r" "" "" "" "" ""
    None None (mkStamp (63835596800 * second) true).
Definition ex_audit_ops : list audit_op :=
  (λ e, OpAppend (Some "t1"%string) background e) <$>
  [ex_audit_event "e1" (Some (ex_cost 10 "openai")); ex_audit_event "e2" (Some (ex_cost 7 "local"));
   ex_audit_event "e3" None; ex_audit_event "e4" (Some (ex_cost 30 "openai"))].
Definition ex_usage_query : UsageQuery := mkUsageQuery (mkQuery [] zero_stamp zero_stamp) [GroupProvider].
Definition ex_totals : list UsageTotal := Eval vm_compute in
  match AggregateUsage (Some "t1"%string) background ex_usage_query (run_audit ex_audit_ops empty_backend) with
  | Ok totals => totals
  | Err _ => []
  end.

Lemma usage_totals_exact_witness :
  ((λ t, (ut_Provider t, ut_InputTokens t, EventCount t)) <$> ex_totals)
    = [("local"%string, 7, 1); ("openai"%string, 40, 2)]
  ∧ NoDup ((λ t, aggregateKeyTotal t [GroupProvider]) <$> ex_totals).
Proof.
  split; [reflexivity|].
  assert (AggregateUsage (Some "t1"%string) background ex_usage_query (run_audit ex_audit_ops empty_backend)
    = Ok ex_totals) as H by (vm_compute; reflexivity).
  destruct (usage_totals_exact ex_audit_ops "t1" background ex_usage_query ex_totals H) as (_ & _ & _ & Hd & _).
  exact Hd.
Defined.

(** The digest covers the time of the event, which the recorder takes from its clock: the
    same outcome recorded again a second later has the same identifier and is refused as a
    conflict instead of being recognized as a duplicate. *)
Example record_retry_conflicts :
  let r := mkRecorder (Some (Some "t1"%string)) "t1" None in
  let at_ n := mkStamp ((63835596800 + n) * second) true in
  let first := BudgetRejected r background (at_ 0) "request" "" empty_backend in
  match first.2, (BudgetRejected r background (at_ 0) "request" "" first.1).2,
        (BudgetRejected r background (at_ 1) "request" "" first.1).2 with
  | Ok _, Ok _, Err (WriteFailed (Some ErrConflict)) => True
  | _, _, _ => False
  end.
Proof. vm_compute. exact I. Qed.
