(* ===== verification/Migration.v ===== *)
(** Moving a tenant to another backend: [trpcservice/runtime/migration/migration.go] (the phases
    of a migration over interfaces of a source, a destination and a router) and [memory.go] (the
    adapters in memory).

    The calls of one tool do not overlap.  Clients may write to the source at any time; such a
    write commutes with every step of a phase but its one reading of the source, so a phase is
    one atomic action and writes happen between phases.  [sort.Slice] is documented not to be
    stable: it is a parameter, [Sorter] is what the documentation promises.  A context is
    observed once per phase; the adapters in memory ignore it. *)
From Stdlib Require Import Ascii String.
From S2P Require Import Prelude GoStrings Sha256.
Local Open Scope Z_scope.

(** * Data *)

Inductive error := ErrInvalid | ErrConflict | ErrValidation | ErrNotFound | ErrContext (e : ctx_error).
#[export] Instance error_eq_dec : EqDecision error.
Proof. solve_decision. Defined.

Definition PhaseDualWrite : string := "dual_write".
Definition PhaseCopy : string := "copy".
Definition PhaseCatchUp : string := "catch_up".
Definition PhaseValidate : string := "validate".
Definition PhaseCutover : string := "cutover".
Definition PhaseRollback : string := "rollback".
Definition BackendSource : string := "source".
Definition BackendDestination : string := "destination".

(** A nil payload and an empty one are the same after every copy. *)
Record MRecord := mkRecord {
  r_TenantID : string; r_Kind : string; r_Key : string; r_Payload : string; r_Version : Z }.
#[export] Instance record_eq_dec : EqDecision MRecord.
Proof. solve_decision. Defined.

Record Change := mkChange { c_Sequence : Z; c_Record : MRecord }.
Record Snapshot := mkSnapshot { sn_Records : list MRecord; sn_Watermark : Z }.

Record Report := mkReport {
  rp_TenantID : string; rp_Phase : string; rp_Copied : Z; rp_CaughtUp : Z; rp_SourceWatermark : Z;
  rp_DestinationWatermark : Z; rp_SourceDigest : string; rp_DestinationDigest : string;
  rp_CutoverBackend : string; rp_RollbackAllowed : bool; rp_Validated : bool }.

Class Source (S : Type) := {
  BeginDualWrite : string → act S error Z;
  source_Snapshot : string → act S error Snapshot;
  source_Changes : string → Z → act S error (list Change * Z) }.
Class Destination (D : Type) := {
  destination_Apply : list MRecord → act D error unit;
  destination_Snapshot : string → act D error Snapshot }.
Class Router (R : Type) := {
  router_Current : string → act R error string;
  router_Set : string → string → act R error unit }.

(** * Canonical records *)

Definition with_tenant (tenantID : string) (r : MRecord) : MRecord :=
  mkRecord tenantID (r_Kind r) (r_Key r) (r_Payload r) (r_Version r).

(** The order by tenant, kind and key. *)
Definition record_less (x y : MRecord) : bool :=
  if negb (r_TenantID x =? r_TenantID y)%string then (r_TenantID x <? r_TenantID y)%string
  else if negb (r_Kind x =? r_Kind y)%string then (r_Kind x <? r_Kind y)%string
  else (r_Key x <? r_Key y)%string.

Class Sorter (sort : list MRecord → list MRecord) : Prop := {
  sort_Permutation l : sort l ≡ₚ l;
  sort_Sorted l : StronglySorted (λ x y, record_less y x = false) (sort l) }.

(** Base64 with padding, as [encoding/json] writes a byte slice; nil is [null]. *)
Definition base64_char (d : Z) : string :=
  String (byte_of (if d <? 26 then 65 + d else if d <? 52 then 71 + d else if d <? 62 then d - 4
    else if d =? 62 then 43 else 47)) "".
Fixpoint base64 (l : list Z) : string :=
  match l with
  | a :: b :: c :: l' =>
      (base64_char (Z.shiftr a 2) ++ base64_char (Z.lor (Z.shiftl (Z.land a 3) 4) (Z.shiftr b 4))
       ++ base64_char (Z.lor (Z.shiftl (Z.land b 15) 2) (Z.shiftr c 6)) ++ base64_char (Z.land c 63)
       ++ base64 l')%string
  | [a; b] =>
      (base64_char (Z.shiftr a 2) ++ base64_char (Z.lor (Z.shiftl (Z.land a 3) 4) (Z.shiftr b 4))
       ++ base64_char (Z.shiftl (Z.land b 15) 2) ++ "=")%string
  | [a] => (base64_char (Z.shiftr a 2) ++ base64_char (Z.shiftl (Z.land a 3) 4) ++ "==")%string
  | [] => ""%string
  end.
Definition json_bytes (payload : string) : string :=
  if (payload =? "")%string then "null" else json_string (base64 (bytes payload)).
Definition json_record (r : MRecord) : string :=
  json_object [("tenant_id", json_string (r_TenantID r)); ("kind", json_string (r_Kind r));
    ("key", json_string (r_Key r)); ("payload", json_bytes (r_Payload r));
    ("version", itoa (r_Version r))]%string.

Section tool.
Context (sort : list MRecord → list MRecord).

Definition normalizeRecords (tenantID : string) (records : list MRecord) : list MRecord :=
  sort (if (tenantID =? "")%string then records else with_tenant tenantID <$> records).

Definition Digest (records : list MRecord) : string :=
  hex_encode (sum256 (normalizeRecords "" records ≫= λ r, bytes (json_record r) ++ [0])).

(** * The tool *)

Context {S D R : Type} `{!Source S, !Destination D, !Router R}.

Record Tool := mkTool {
  barriers : gmap string Z; copied : gmap string bool; caughtUp : gmap string bool;
  cutovers : gmap string string }.

(** The tool with its adapters. *)
Record world := mkWorld { w_source : S; w_destination : D; w_router : R; w_tool : Tool }.
Definition new_world (source : S) (destination : D) (router : R) : world :=
  mkWorld source destination router (mkTool ∅ ∅ ∅ ∅).
(** A nil adapter is [None]. *)
Definition NewTool (source : option S) (destination : option D) (router : option R) : result error world :=
  match source, destination, router with
  | Some s, Some d, Some r => Ok (new_world s d r)
  | _, _, _ => Err ErrInvalid
  end.

Definition on_source {A} (m : act S error A) : act world error A := λ w,
  let '(s, r) := m (w_source w) in (mkWorld s (w_destination w) (w_router w) (w_tool w), r).
Definition on_destination {A} (m : act D error A) : act world error A := λ w,
  let '(d, r) := m (w_destination w) in (mkWorld (w_source w) d (w_router w) (w_tool w), r).
Definition on_router {A} (m : act R error A) : act world error A := λ w,
  let '(r, x) := m (w_router w) in (mkWorld (w_source w) (w_destination w) r (w_tool w), x).
Definition read_tool : act world error Tool := λ w, (w, Ok (w_tool w)).
Definition write_tool (t : Tool) : act world error unit := λ w,
  (mkWorld (w_source w) (w_destination w) (w_router w) t, Ok ()).

Definition validate (ctx : context) (tenantID : string) : result error unit :=
  match ctx with
  | None => Err ErrInvalid
  | Some ctx =>
      if (tenantID =? "")%string then Err ErrInvalid
      else match ctx 0%nat with Some e => Err (ErrContext e) | None => Ok () end
  end.

Definition flag (m : gmap string bool) (tenantID : string) : bool := default false (m !! tenantID).

Definition Begin (ctx : context) (tenantID : string) : act world error Report :=
  _ ← lift (validate ctx tenantID);
  watermark ← on_source (BeginDualWrite tenantID);
  t ← read_tool;
  _ ← write_tool (mkTool (<[tenantID := watermark]> (barriers t)) (<[tenantID := false]> (copied t))
        (<[tenantID := false]> (caughtUp t)) (delete tenantID (cutovers t)));
  mret (mkReport tenantID PhaseDualWrite 0 0 watermark 0 "" "" "" false false).

Definition Copy (ctx : context) (tenantID : string) : act world error Report :=
  _ ← lift (validate ctx tenantID);
  t ← read_tool;
  match barriers t !! tenantID with
  | None => throw ErrConflict
  | Some barrier =>
      snapshot ← on_source (source_Snapshot tenantID);
      if sn_Watermark snapshot <? barrier then throw ErrConflict
      else
        let records := normalizeRecords tenantID (sn_Records snapshot) in
        _ ← on_destination (destination_Apply records);
        _ ← write_tool (mkTool (barriers t) (<[tenantID := true]> (copied t))
              (<[tenantID := false]> (caughtUp t)) (cutovers t));
        mret (mkReport tenantID PhaseCopy (Z.of_nat (length records)) 0 (sn_Watermark snapshot) 0 "" "" "" false false)
  end.

Definition CatchUp (ctx : context) (tenantID : string) : act world error Report :=
  _ ← lift (validate ctx tenantID);
  t ← read_tool;
  match barriers t !! tenantID with
  | None => throw ErrConflict
  | Some barrier =>
      if negb (flag (copied t) tenantID) then throw ErrConflict
      else
        '(changes, watermark) ← on_source (source_Changes tenantID barrier);
        let records := c_Record <$> filter (λ c, barrier < c_Sequence c) changes in
        _ ← on_destination (destination_Apply (normalizeRecords tenantID records));
        _ ← write_tool (mkTool (barriers t) (copied t) (<[tenantID := true]> (caughtUp t)) (cutovers t));
        mret (mkReport tenantID PhaseCatchUp 0 (Z.of_nat (length records)) watermark watermark "" "" "" false false)
  end.

(** The report of a failed validation is returned with the error. *)
Definition validation_report (tenantID : string) (source destination : Snapshot) : Report :=
  let sourceDigest := Digest (sn_Records source) in
  let destinationDigest := Digest (sn_Records destination) in
  mkReport tenantID PhaseValidate 0 0 (sn_Watermark source) (sn_Watermark destination) sourceDigest
    destinationDigest "" false
    ((sourceDigest =? destinationDigest)%string
     && (length (normalizeRecords tenantID (sn_Records source))
         =? length (normalizeRecords tenantID (sn_Records destination)))%nat).

Definition Validate (ctx : context) (tenantID : string) : act world error Report :=
  _ ← lift (validate ctx tenantID);
  source ← on_source (source_Snapshot tenantID);
  destination ← on_destination (destination_Snapshot tenantID);
  let report := validation_report tenantID source destination in
  if negb (rp_Validated report) then throw ErrValidation else mret report.

Definition as_cutover (v : Report) : Report :=
  mkReport (rp_TenantID v) PhaseCutover (rp_Copied v) (rp_CaughtUp v) (rp_SourceWatermark v)
    (rp_DestinationWatermark v) (rp_SourceDigest v) (rp_DestinationDigest v) BackendDestination true (rp_Validated v).

(** [call] is the context that the inner validation observes. *)
Definition Cutover (ctx call : context) (tenantID : string) : act world error Report :=
  _ ← lift (validate ctx tenantID);
  t ← read_tool;
  if opt_is_nil (barriers t !! tenantID) || negb (flag (copied t) tenantID) || negb (flag (caughtUp t) tenantID)
  then throw ErrConflict
  else
    validation ← Validate call tenantID;
    previous ← on_router (router_Current tenantID);
    if (previous =? BackendDestination)%string then
      if opt_is_nil (cutovers t !! tenantID) then throw ErrConflict else mret (as_cutover validation)
    else
      _ ← on_router (router_Set tenantID BackendDestination);
      _ ← write_tool (mkTool (barriers t) (copied t) (caughtUp t) (<[tenantID := previous]> (cutovers t)));
      mret (as_cutover validation).

Definition Rollback (ctx call : context) (tenantID : string) : act world error Report :=
  _ ← lift (validate ctx tenantID);
  t ← read_tool;
  match cutovers t !! tenantID with
  | None => throw ErrConflict
  | Some previous =>
      if (previous =? BackendDestination)%string then throw ErrConflict
      else
        _ ← Validate call tenantID;
        _ ← on_router (router_Set tenantID previous);
        mret (mkReport tenantID PhaseRollback 0 0 0 0 "" "" previous false true)
  end.
End tool.
Arguments world : clear implicits.
Arguments mkWorld {S D R}.
Arguments w_source {S D R}.
Arguments w_destination {S D R}.
Arguments w_router {S D R}.
Arguments w_tool {S D R}.

(** * The adapters in memory *)

(** [kind + "\x00" + key]. *)
Definition map_key (r : MRecord) : string := (r_Kind r ++ String (byte_of 0) (r_Key r))%string.

Record MemorySource := mkSource {
  s_records : gmap string (gmap string MRecord); s_changes : gmap string (list Change);
  s_seq : gmap string Z; s_dual : gmap string bool }.
Definition NewMemorySource : MemorySource := mkSource ∅ ∅ ∅ ∅.
Definition seq_of (s : MemorySource) (t : string) : Z := default 0 (s_seq s !! t).
Definition records_of (s : MemorySource) (t : string) : gmap string MRecord := default ∅ (s_records s !! t).
Definition changes_of (s : MemorySource) (t : string) : list Change := default [] (s_changes s !! t).

Definition memory_BeginDualWrite (tenantID : string) : act MemorySource error Z :=
  s ← get;
  if (tenantID =? "")%string then throw ErrInvalid
  else
    _ ← put (mkSource (s_records s) (s_changes s) (s_seq s) (<[tenantID := true]> (s_dual s)));
    mret (seq_of s tenantID).

Definition Put (tenantID : string) (record : MRecord) : act MemorySource error unit :=
  if (tenantID =? "")%string || (r_Kind record =? "")%string || (r_Key record =? "")%string then throw ErrInvalid
  else
    s ← get;
    let seq := incr64 (seq_of s tenantID) in
    let record := mkRecord tenantID (r_Kind record) (r_Key record) (r_Payload record) seq in
    put (mkSource (<[tenantID := <[map_key record := record]> (records_of s tenantID)]> (s_records s))
           (<[tenantID := changes_of s tenantID ++ [mkChange seq record]]> (s_changes s))
           (<[tenantID := seq]> (s_seq s)) (s_dual s)).

(** Go visits the map in an unspecified order; the order of [map_to_list] stands for it, and
    [Digest_Permutation] shows that the digest does not depend on it. *)
Definition memory_source_Snapshot (tenantID : string) : act MemorySource error Snapshot :=
  s ← get;
  if (tenantID =? "")%string then throw ErrInvalid
  else mret (mkSnapshot (map_to_list (records_of s tenantID)).*2 (seq_of s tenantID)).

Definition memory_Changes (tenantID : string) (after : Z) : act MemorySource error (list Change * Z) :=
  s ← get;
  if (tenantID =? "")%string || (after <? 0) then throw ErrInvalid
  else mret (filter (λ c, after < c_Sequence c) (changes_of s tenantID), seq_of s tenantID).

#[export] Instance memory_source : Source MemorySource := {
  BeginDualWrite := memory_BeginDualWrite; source_Snapshot := memory_source_Snapshot;
  source_Changes := memory_Changes }.

Record MemoryDestination := mkDestination {
  d_records : gmap string (gmap string MRecord); d_water : gmap string Z }.
Definition NewMemoryDestination : MemoryDestination := mkDestination ∅ ∅.
Definition stored_of (d : MemoryDestination) (t : string) : gmap string MRecord := default ∅ (d_records d !! t).
Definition water_of (d : MemoryDestination) (t : string) : Z := default 0 (d_water d !! t).

Definition apply_record (r : MRecord) (d : MemoryDestination) : MemoryDestination :=
  mkDestination (<[r_TenantID r := <[map_key r := r]> (stored_of d (r_TenantID r))]> (d_records d))
    (if water_of d (r_TenantID r) <? r_Version r then <[r_TenantID r := r_Version r]> (d_water d) else d_water d).

(** An invalid record ends the loop; the records before it stay applied. *)
Fixpoint memory_Apply (records : list MRecord) : act MemoryDestination error unit :=
  match records with
  | [] => mret ()
  | r :: records' =>
      if (r_TenantID r =? "")%string || (r_Kind r =? "")%string || (r_Key r =? "")%string then throw ErrInvalid
      else
        d ← get;
        _ ← put (apply_record r d);
        memory_Apply records'
  end.

Definition memory_destination_Snapshot (tenantID : string) : act MemoryDestination error Snapshot :=
  d ← get;
  if (tenantID =? "")%string then throw ErrInvalid
  else mret (mkSnapshot (map_to_list (stored_of d tenantID)).*2 (water_of d tenantID)).

#[export] Instance memory_destination : Destination MemoryDestination := {
  destination_Apply := memory_Apply; destination_Snapshot := memory_destination_Snapshot }.

Definition MemoryRouter : Type := gmap string string.
Definition NewMemoryRouter : MemoryRouter := ∅.
Definition memory_Current (tenantID : string) : act MemoryRouter error string :=
  r ← get;
  if (tenantID =? "")%string then throw ErrInvalid else mret (default BackendSource (r !! tenantID)).
Definition memory_Set (tenantID backend : string) : act MemoryRouter error unit :=
  if (tenantID =? "")%string
    || (negb (backend =? BackendSource)%string && negb (backend =? BackendDestination)%string)
  then throw ErrInvalid
  else r ← get; put (<[tenantID := backend]> r).

#[export] Instance memory_router : Router MemoryRouter := {
  router_Current := memory_Current; router_Set := memory_Set }.

(** * Sorted records *)

Lemma ltb_total a b : (a <? b)%string = false → (b <? a)%string = false → a = b.
Proof.
  unfold String.ltb. rewrite (String.compare_antisym b a). intros H1 H2. apply String.compare_eq_iff.
  by destruct (a ?= b)%string.
Qed.

Lemma record_less_total x y :
  record_less x y = false → record_less y x = false →
  r_TenantID x = r_TenantID y ∧ r_Kind x = r_Kind y ∧ r_Key x = r_Key y.
Proof.
  unfold record_less. rewrite (String.eqb_sym (r_TenantID y)), (String.eqb_sym (r_Kind y)).
  destruct (String.eqb_spec (r_TenantID x) (r_TenantID y)); cbn [negb];
    [|intros H1 H2; by pose proof (ltb_total _ _ H1 H2)].
  destruct (String.eqb_spec (r_Kind x) (r_Kind y)); cbn [negb];
    [|intros H1 H2; by pose proof (ltb_total _ _ H1 H2)].
  intros H1 H2. by pose proof (ltb_total _ _ H1 H2).
Qed.

(** The digest of records that their keys tell apart does not depend on their order. *)
Lemma Digest_Permutation sort `{!Sorter sort} l1 l2 :
  (∀ x y, x ∈ l1 → y ∈ l1 → r_TenantID x = r_TenantID y → map_key x = map_key y → x = y) →
  l1 ≡ₚ l2 → Digest sort l1 = Digest sort l2.
Proof.
  intros Hkey Hp. unfold Digest, normalizeRecords. cbn. f_equal. f_equal. f_equal.
  apply (StronglySorted_unique_strong (λ x y, record_less y x = false)).
  - intros x y Hx Hy H1 H2. rewrite sort_Permutation in Hx. rewrite sort_Permutation, <- Hp in Hy.
    destruct (record_less_total _ _ H2 H1) as (? & ? & ?). apply Hkey; try done. unfold map_key. congruence.
  - apply sort_Sorted.
  - apply sort_Sorted.
  - by rewrite !sort_Permutation.
Qed.

(** * Applying records *)

Definition insert_all (m : gmap string MRecord) (rs : list MRecord) : gmap string MRecord :=
  foldl (λ m r, <[map_key r := r]> m) m rs.

Lemma insert_all_other rs m k : k ∉ map_key <$> rs → insert_all m rs !! k = m !! k.
Proof.
  revert m. induction rs as [|r rs IH]; intros m; cbn; [done|]. intros [Hne Hin]%not_elem_of_cons.
  etrans; [by apply IH|]. by apply lookup_insert_ne.
Qed.

Lemma insert_all_lookup rs m k r :
  insert_all m rs !! k = Some r → (r ∈ rs ∧ map_key r = k) ∨ (k ∉ map_key <$> rs ∧ m !! k = Some r).
Proof.
  revert m. induction rs as [|x rs IH]; intros m; cbn; [right; split; [apply not_elem_of_nil|done]|].
  intros [[? ?]|[Hk Hl]]%IH; [left; split; [by right|done]|].
  destruct (decide (map_key x = k)) as [<-|Hne].
  - rewrite lookup_insert_eq in Hl. injection Hl as ->. left. split; [by left|done].
  - rewrite lookup_insert_ne in Hl by done. right. split; [|done]. apply not_elem_of_cons. by split.
Qed.

Lemma insert_all_distinct rs m r :
  NoDup (map_key <$> rs) → r ∈ rs → insert_all m rs !! map_key r = Some r.
Proof.
  revert m. induction rs as [|x rs IH]; intros m; cbn; [by intros _ ?%not_elem_of_nil|].
  intros [Hx Hnd]%NoDup_cons [->|Hr]%elem_of_cons; [|by apply IH].
  etrans; [by apply insert_all_other|]. apply lookup_insert_eq.
Qed.

Lemma insert_all_dom rs m k : k ∈ map_key <$> rs → k ∈ dom (insert_all m rs).
Proof.
  revert m. induction rs as [|r rs IH]; intros m; cbn; [by intros ?%not_elem_of_nil|].
  intros [->|Hk]%elem_of_cons; [|by apply IH].
  destruct (decide (map_key r ∈ map_key <$> rs)); [by apply IH|].
  apply elem_of_dom. exists r. etrans; [by apply insert_all_other|]. apply lookup_insert_eq.
Qed.

Definition record_valid (t : string) (r : MRecord) : Prop :=
  r_TenantID r = t ∧ t ≠ ""%string ∧ r_Kind r ≠ ""%string ∧ r_Key r ≠ ""%string.

Lemma apply_record_stored r d t' :
  stored_of (apply_record r d) t'
  = if decide (r_TenantID r = t') then <[map_key r := r]> (stored_of d t') else stored_of d t'.
Proof.
  unfold apply_record, stored_of. cbn. case_decide as E.
  - subst. by rewrite lookup_insert_eq.
  - by rewrite lookup_insert_ne.
Qed.

Lemma memory_Apply_valid t rs d :
  Forall (record_valid t) rs →
  ∃ d', memory_Apply rs d = (d', Ok ()) ∧ stored_of d' t = insert_all (stored_of d t) rs
    ∧ ∀ t', t' ≠ t → stored_of d' t' = stored_of d t'.
Proof.
  intros Hrs. revert d. induction Hrs as [|r rs (Ht & Hne & Hk & Hy) _ IH]; intros d; cbn [memory_Apply].
  { by exists d. }
  rewrite Ht, (proj2 (String.eqb_neq _ _) Hne), (proj2 (String.eqb_neq _ _) Hk), (proj2 (String.eqb_neq _ _) Hy).
  cbn [orb]. go_unfold. destruct (IH (apply_record r d)) as (d' & -> & Hd & Ho). exists d'. split; [done|].
  rewrite apply_record_stored, decide_True in Hd by done. split; [done|].
  intros t' Ht'. rewrite Ho by done. rewrite apply_record_stored, decide_False; [done|]. congruence.
Qed.

(** * Reachable states *)

Notation memory_world := (world MemorySource MemoryDestination MemoryRouter).
Definition start : memory_world := new_world NewMemorySource NewMemoryDestination NewMemoryRouter.

Inductive op :=
| OPut (t : string) (r : MRecord)
| OBegin (ctx : context) (t : string)
| OCopy (ctx : context) (t : string)
| OCatchUp (ctx : context) (t : string)
| OValidate (ctx : context) (t : string)
| OCutover (ctx call : context) (t : string)
| ORollback (ctx call : context) (t : string).

Section reachable.
Context (sort : list MRecord → list MRecord) `{!Sorter sort}.

Definition exec (o : op) (w : memory_world) : memory_world :=
  match o with
  | OPut t r => (on_source (Put t r) w).1
  | OBegin ctx t => (Begin ctx t w).1
  | OCopy ctx t => (Copy sort ctx t w).1
  | OCatchUp ctx t => (CatchUp sort ctx t w).1
  | OValidate ctx t => (Validate sort ctx t w).1
  | OCutover ctx call t => (Cutover sort ctx call t w).1
  | ORollback ctx call t => (Rollback sort ctx call t w).1
  end.
Definition run (os : list op) (w : memory_world) : memory_world := foldl (λ w o, exec o w) w os.

Notation log w t := (changes_of (w_source w) t).
Notation current w t := (records_of (w_source w) t).
Notation stored w t := (stored_of (w_destination w) t).

(** The changes of a tenant after a watermark. *)
Definition later (s : MemorySource) (t : string) (b : Z) : list MRecord :=
  c_Record <$> filter (λ c, b < c_Sequence c) (changes_of s t).

(** The source: its records are what its log of increasing sequence numbers leaves. *)
Record source_ok (n : Z) (s : MemorySource) : Prop := {
  so_records t : records_of s t = insert_all ∅ (c_Record <$> changes_of s t);
  so_sorted t : StronglySorted (λ a b, c_Sequence a < c_Sequence b) (changes_of s t);
  so_valid t : Forall (λ c, c_Sequence c ≤ seq_of s t ∧ record_valid t (c_Record c)) (changes_of s t);
  so_seq t : 0 ≤ seq_of s t ≤ n }.

(** The destination holds nothing but versions of the source, and once the snapshot was
    copied it agrees with the source on every key that did not change after the barrier. *)
Record inv (n : Z) (w : memory_world) : Prop := {
  inv_source : source_ok n (w_source w);
  inv_barrier t b : barriers (w_tool w) !! t = Some b → 0 ≤ b ≤ seq_of (w_source w) t;
  inv_stored t k r : stored w t !! k = Some r → r ∈ c_Record <$> log w t ∧ map_key r = k;
  inv_copied t b k : barriers (w_tool w) !! t = Some b → flag (copied (w_tool w)) t = true →
    k ∉ map_key <$> later (w_source w) t b → stored w t !! k = current w t !! k }.

Lemma inv_start : inv 0 start.
Proof using.
  split; cbn; unfold stored_of, flag; cbn.
  - split; intros t; unfold records_of, changes_of, seq_of; cbn; rewrite ?lookup_empty; cbn; try done; constructor.
  - intros t b. by rewrite lookup_empty.
  - intros t k r. rewrite lookup_empty. cbn. by rewrite lookup_empty.
  - intros t b k. by rewrite lookup_empty.
Qed.

Lemma source_ok_mono n m s : n ≤ m → source_ok n s → source_ok m s.
Proof using. intros Hnm [? ? ? Hs]. split; try done. intros t. specialize (Hs t). lia. Qed.

(** What a write does. *)
Lemma Put_spec n s t r :
  source_ok n s → n < int64_max → (Put t r s).1 = s ∨ ∃ c,
    record_valid t (c_Record c) ∧ c_Sequence c = seq_of s t + 1
    ∧ ∀ t', (t' ≠ t → records_of (Put t r s).1 t' = records_of s t' ∧ changes_of (Put t r s).1 t' = changes_of s t'
               ∧ seq_of (Put t r s).1 t' = seq_of s t')
      ∧ (t' = t → records_of (Put t r s).1 t' = <[map_key (c_Record c) := c_Record c]> (records_of s t')
               ∧ changes_of (Put t r s).1 t' = changes_of s t' ++ [c] ∧ seq_of (Put t r s).1 t' = seq_of s t' + 1).
Proof using.
  intros Hs Hn. unfold Put. destruct (_ || _) eqn:E; [by left|]. bool_prop. go_unfold. cbv zeta. right.
  pose proof (so_seq _ _ Hs t) as Hseq.
  assert (incr64 (seq_of s t) = seq_of s t + 1) as ->.
  { unfold incr64. apply wrap64_id. unfold int64_min, int64_max in *. lia. }
  eexists (mkChange _ (mkRecord t (r_Kind r) (r_Key r) (r_Payload r) (seq_of s t + 1))). cbn.
  split; [done|]. split; [done|]. intros t'. unfold records_of, changes_of, seq_of. cbn. split; intros Ht.
  - by rewrite !lookup_insert_ne.
  - subst t'. by rewrite !lookup_insert_eq.
Qed.

Lemma Put_source_ok n s t r : source_ok n s → n < int64_max → source_ok (n + 1) (Put t r s).1.
Proof using.
  intros Hs Hn. destruct (Put_spec n s t r Hs Hn) as [->|(c & Hv & Hc & H)]; [eapply source_ok_mono; [|done]; lia|].
  split; intros t'; destruct (H t') as [Hne Heq]; destruct (decide (t' = t)) as [Ht|Ht].
  - destruct (Heq Ht) as (-> & -> & _). rewrite fmap_app, (so_records _ _ Hs t'). unfold insert_all.
    by rewrite foldl_app.
  - destruct (Hne Ht) as (-> & -> & _). apply Hs.
  - destruct (Heq Ht) as (_ & -> & _). apply StronglySorted_app_2; [|apply Hs|repeat constructor].
    intros x y Hx ->%list_elem_of_singleton. pose proof (so_valid _ _ Hs t') as Hall. rewrite Forall_forall in Hall.
    destruct (Hall x Hx) as [? _]. subst. lia.
  - destruct (Hne Ht) as (_ & -> & _). apply Hs.
  - destruct (Heq Ht) as (_ & -> & ->). apply Forall_app. split.
    + eapply Forall_impl; [apply Hs|]. intros x [? ?]. split; [lia|done].
    + constructor; [|constructor]. subst. split; [lia|done].
  - destruct (Hne Ht) as (_ & -> & ->). apply Hs.
  - destruct (Heq Ht) as (_ & _ & ->). pose proof (so_seq _ _ Hs t'). lia.
  - destruct (Hne Ht) as (_ & _ & ->). pose proof (so_seq _ _ Hs t'). lia.
Qed.

Lemma inv_put n w t r : inv n w → n < int64_max → inv (n + 1) (on_source (Put t r) w).1.
Proof using.
  intros [Hs Hb Hst Hco] Hn. pose proof (Put_source_ok n (w_source w) t r Hs Hn) as Hs'.
  pose proof (Put_spec n (w_source w) t r Hs Hn) as Hput. unfold on_source. destruct (Put t r (w_source w)) as [s' res].
  cbn in *. split; cbn; [done|..].
  - intros t' b H. specialize (Hb t' b H). destruct Hput as [->|(c & _ & _ & Hp)]; [done|].
    destruct (Hp t') as [Hne Heq]. destruct (decide (t' = t)) as [Ht|Ht];
      [destruct (Heq Ht) as (_ & _ & ->)|destruct (Hne Ht) as (_ & _ & ->)]; lia.
  - intros t' k x H. specialize (Hst t' k x H). destruct Hput as [->|(c & _ & _ & Hp)]; [done|].
    destruct (Hp t') as [Hne Heq]. destruct (decide (t' = t)) as [Ht|Ht];
      [destruct (Heq Ht) as (_ & -> & _)|destruct (Hne Ht) as (_ & -> & _)]; [|done].
    rewrite fmap_app. destruct Hst as [? ?]. split; [apply elem_of_app; by left|done].
  - intros t' b k H Hf. destruct Hput as [->|(c & _ & Hc & Hp)]; [by apply Hco|].
    destruct (Hp t') as [Hne Heq]. unfold later. destruct (decide (t' = t)) as [Ht|Ht].
    + destruct (Heq Ht) as (-> & -> & _). rewrite filter_app, fmap_app, fmap_app. intros [Hk1 Hk2]%not_elem_of_app.
      rewrite (Hco t' b k H Hf Hk1). symmetry. apply lookup_insert_ne. intros <-. apply Hk2.
      rewrite filter_cons_True by (specialize (Hb t' b H); subst; lia). left.
    + destruct (Hne Ht) as (-> & -> & _). by apply Hco.
Qed.

(** A phase that changes neither records nor barriers. *)
Lemma inv_frame n w w' :
  inv n w → w_source w' = w_source w → w_destination w' = w_destination w →
  barriers (w_tool w') = barriers (w_tool w) → copied (w_tool w') = copied (w_tool w) → inv n w'.
Proof using. intros [Hs Hb Hst Hco] E1 E2 E3 E4. split; rewrite ?E1, ?E2, ?E3, ?E4; done. Qed.
Lemma validate_nonempty ctx t : validate ctx t = Ok () → t ≠ ""%string.
Proof using. unfold validate. destruct ctx; [|done]. destruct (String.eqb_spec t ""); done. Qed.

Lemma inv_begin n w ctx t : inv n w → inv n (Begin ctx t w).1.
Proof using.
  intros Hw. unfold Begin. go_unfold. destruct (validate ctx t) as [[]|] eqn:Ev; [|done].
  apply validate_nonempty in Ev. unfold on_source, BeginDualWrite. cbn [memory_source]. unfold memory_BeginDualWrite.
  go_unfold. rewrite (proj2 (String.eqb_neq _ _) Ev). cbn. destruct Hw as [[Hr Hso Hv Hq] Hb Hst Hco].
  split; cbn; [by split|..].
  - intros t' b. destruct (decide (t = t')) as [<-|Ht].
    + rewrite lookup_insert_eq. intros [= <-]. specialize (Hq t). unfold seq_of in *. cbn. lia.
    + rewrite lookup_insert_ne by done. apply Hb.
  - exact Hst.
  - intros t' b k. destruct (decide (t = t')) as [<-|Ht].
    + unfold flag. rewrite !lookup_insert_eq. done.
    + unfold flag. rewrite !lookup_insert_ne by done. apply Hco.
Qed.

(** The records of a tenant are keyed by themselves and come from the log. *)
Lemma current_keyed n s t k r :
  source_ok n s → records_of s t !! k = Some r → map_key r = k ∧ r ∈ c_Record <$> changes_of s t.
Proof using.
  intros Hs. rewrite (so_records _ _ Hs t). intros [[? ?]|[_ H]]%insert_all_lookup; [by split|].
  by rewrite lookup_empty in H.
Qed.

Lemma log_valid n s t r : source_ok n s → r ∈ c_Record <$> changes_of s t → record_valid t r.
Proof using.
  intros Hs (c & -> & Hc)%list_elem_of_fmap. pose proof (so_valid _ _ Hs t) as H. rewrite Forall_forall in H. by apply H.
Qed.

Lemma with_tenant_id t r : record_valid t r → with_tenant t r = r.
Proof using. intros (<- & _). by destruct r. Qed.

Lemma normalizeRecords_valid t l :
  t ≠ ""%string → Forall (record_valid t) l → normalizeRecords sort t l ≡ₚ l.
Proof using Sorter0.
  intros Ht Hl. unfold normalizeRecords. rewrite (proj2 (String.eqb_neq _ _) Ht), sort_Permutation.
  assert (with_tenant t <$> l = l) as ->; [|done].
  induction Hl as [|r l Hr _ IH]; [done|]. cbn. by rewrite IH, with_tenant_id.
Qed.

(** Applying records of the log keeps the invariant of the destination. *)
Lemma apply_log n w t rs :
  inv n w → t ≠ ""%string → (∀ r, r ∈ rs → r ∈ c_Record <$> log w t) →
  ∃ d', memory_Apply (normalizeRecords sort t rs) (w_destination w) = (d', Ok ())
    ∧ (∀ k, k ∉ map_key <$> rs → stored_of d' t !! k = stored w t !! k)
    ∧ (NoDup (map_key <$> rs) → ∀ r, r ∈ rs → stored_of d' t !! map_key r = Some r)
    ∧ (∀ t', t' ≠ t → stored_of d' t' = stored w t')
    ∧ (∀ t' k r, stored_of d' t' !! k = Some r → r ∈ c_Record <$> log w t' ∧ map_key r = k).
Proof using Sorter0.
  intros Hw Ht Hrs. assert (Forall (record_valid t) rs) as Hv.
  { apply Forall_forall. intros r Hr. eapply log_valid; [apply Hw|by apply Hrs]. }
  pose proof (normalizeRecords_valid t rs Ht Hv) as Hp.
  destruct (memory_Apply_valid t (normalizeRecords sort t rs) (w_destination w)) as (d' & Hd & Hs & Ho); [by rewrite Hp|].
  exists d'. split; [done|]. rewrite Hs. split_and!.
  - intros k Hk. apply insert_all_other. by rewrite Hp.
  - intros Hnd r Hr. apply insert_all_distinct; by rewrite Hp.
  - done.
  - intros t' k r. destruct (decide (t' = t)) as [->|Hne]; [|rewrite Ho by done; apply Hw]. rewrite Hs.
    intros [[Hr ?]|[_ H]]%insert_all_lookup; [|by apply Hw]. split; [|done]. apply Hrs. by rewrite <- Hp.
Qed.

Lemma snapshot_distinct n s t :
  source_ok n s → NoDup (map_key <$> (map_to_list (records_of s t)).*2).
Proof using.
  intros Hs. apply (keyed_NoDup (records_of s t)); [|done]. intros k r H. by eapply current_keyed.
Qed.

Lemma inv_copy n w ctx t : inv n w → inv n (Copy sort ctx t w).1.
Proof using Sorter0.
  intros Hw. unfold Copy. go_unfold. destruct (validate ctx t) as [[]|] eqn:Ev; [|done].
  apply validate_nonempty in Ev. cbn [read_tool].
  destruct (barriers (w_tool w) !! t) as [b|] eqn:Eb; [|done].
  unfold on_source. cbn [source_Snapshot memory_source]. unfold memory_source_Snapshot. go_unfold.
  rewrite (proj2 (String.eqb_neq _ _) Ev). cbn [sn_Watermark sn_Records]. destruct (_ <? b); [by eapply inv_frame|].
  destruct (apply_log n w t (map_to_list (current w t)).*2 Hw Ev) as (d' & Hd & H1 & H2 & H3 & H4).
  { intros r [k Hk]%elem_of_values. by eapply current_keyed; [apply Hw|]. }
  unfold on_destination. cbn [w_destination w_source w_tool w_router destination_Apply memory_destination].
  rewrite Hd. cbn. pose proof Hw as [Hs Hb Hst Hco]. split; cbn; [done|done|exact H4|].
  intros t' b' k. unfold flag. destruct (decide (t = t')) as [<-|Ht].
  - intros _ _ _. destruct (current w t !! k) as [r|] eqn:Ek.
    + destruct (current_keyed _ _ _ _ _ Hs Ek) as [<- _]. apply H2; [by eapply snapshot_distinct|].
      apply elem_of_values. by eexists.
    + rewrite H1.
      * destruct (stored w t !! k) as [r|] eqn:Er; [|done]. exfalso. destruct (Hst _ _ _ Er) as [Hr Hk].
        rewrite (so_records _ _ Hs t) in Ek. apply not_elem_of_dom in Ek. apply Ek.
        assert (k ∈ map_key <$> (c_Record <$> log w t)) as Hin by (rewrite <- Hk; by apply list_elem_of_fmap_2).
        clear -Hin. revert Hin. generalize (c_Record <$> log w t). intros l. apply insert_all_dom.
      * intros (r & -> & [k' Hk']%elem_of_values)%list_elem_of_fmap.
        destruct (current_keyed _ _ _ _ _ Hs Hk') as [<- _]. congruence.
  - rewrite lookup_insert_ne by done. intros. rewrite H3 by done. by eapply Hco.
Qed.
(** What catching up does to a tenant whose snapshot was copied. *)
Lemma CatchUp_spec n w ctx t b :
  inv n w → validate ctx t = Ok () → barriers (w_tool w) !! t = Some b → flag (copied (w_tool w)) t = true →
  ∃ d' report, CatchUp sort ctx t w
      = (mkWorld (w_source w) d' (w_router w) (mkTool (barriers (w_tool w)) (copied (w_tool w))
           (<[t := true]> (caughtUp (w_tool w))) (cutovers (w_tool w))), Ok report)
    ∧ memory_Apply (normalizeRecords sort t (later (w_source w) t b)) (w_destination w) = (d', Ok ()).
Proof using Sorter0.
  intros Hw Hv Eb Ec. pose proof (validate_nonempty _ _ Hv) as Ht.
  destruct (apply_log n w t (later (w_source w) t b) Hw Ht) as (d' & Hd & _).
  { intros r (c & -> & Hc)%list_elem_of_fmap. apply list_elem_of_filter in Hc as [_ Hc]. by apply list_elem_of_fmap_2. }
  exists d'. unfold CatchUp. go_unfold. rewrite Hv. cbn [read_tool]. rewrite Eb, Ec. cbn [negb].
  unfold on_source. cbn [source_Changes memory_source]. unfold memory_Changes. go_unfold.
  rewrite (proj2 (String.eqb_neq _ _) Ht). destruct (inv_barrier _ _ Hw _ _ Eb) as [Hb0 _].
  rewrite (proj2 (Z.ltb_ge b 0)) by lia. cbn [orb]. unfold on_destination.
  cbn [w_destination w_source w_tool w_router destination_Apply memory_destination].
  assert (filter (λ c, b < c_Sequence c) (filter (λ c, b < c_Sequence c) (log w t))
    = filter (λ c, b < c_Sequence c) (log w t)) as ->.
  { rewrite list_filter_filter. apply filter_ext_in. intros c _. tauto. }
  change (c_Record <$> filter (λ c, b < c_Sequence c) (log w t)) with (later (w_source w) t b). rewrite Hd.
  eexists. split; [reflexivity|done].
Qed.

Lemma inv_catch_up n w ctx t : inv n w → inv n (CatchUp sort ctx t w).1.
Proof using Sorter0.
  intros Hw. destruct (validate ctx t) as [[]|] eqn:Ev.
  2:{ unfold CatchUp. go_unfold. by rewrite Ev. }
  destruct (barriers (w_tool w) !! t) as [b|] eqn:Eb.
  2:{ unfold CatchUp. go_unfold. rewrite Ev. cbn [read_tool]. by rewrite Eb. }
  destruct (flag (copied (w_tool w)) t) eqn:Ec.
  2:{ unfold CatchUp. go_unfold. rewrite Ev. cbn [read_tool]. by rewrite Eb, Ec. }
  destruct (CatchUp_spec n w ctx t b Hw Ev Eb Ec) as (d' & report & -> & Hd).
  apply validate_nonempty in Ev.
  destruct (apply_log n w t (later (w_source w) t b) Hw Ev) as (d'' & Hd' & H1 & _ & H3 & H4).
  { intros r (c & -> & Hc)%list_elem_of_fmap. apply list_elem_of_filter in Hc as [_ Hc]. by apply list_elem_of_fmap_2. }
  rewrite Hd in Hd'. injection Hd' as <-. destruct Hw as [Hs Hb Hst Hco]. split; cbn; [done|done|exact H4|].
  intros t' b' k Eb' Hf Hk. destruct (decide (t' = t)) as [->|Hne]; [|rewrite H3 by done; by eapply Hco].
  assert (b' = b) as -> by congruence. rewrite H1 by done. by eapply Hco.
Qed.

(** A validation reads. *)
Lemma Validate_frame ctx t (w : memory_world) : (Validate sort ctx t w).1 = w.
Proof using.
  unfold Validate. go_unfold. destruct (validate ctx t) as [[]|]; [|done]. unfold on_source, on_destination.
  cbn [source_Snapshot memory_source]. unfold memory_source_Snapshot. go_unfold.
  destruct (t =? "")%string eqn:Et; [by destruct w|]. cbn [destination_Snapshot memory_destination w_destination].
  unfold memory_destination_Snapshot. go_unfold. rewrite Et. cbv zeta. destruct (negb _); by destruct w.
Qed.

(** Switching touches the router and the record of switches only. *)
Definition same_data (w w' : memory_world) : Prop :=
  w_source w' = w_source w ∧ w_destination w' = w_destination w
  ∧ barriers (w_tool w') = barriers (w_tool w) ∧ copied (w_tool w') = copied (w_tool w).

Lemma Cutover_frame ctx call t w : same_data w (Cutover sort ctx call t w).1.
Proof using.
  unfold Cutover, same_data. go_unfold. destruct (validate ctx t) as [[]|]; [|done]. cbn [read_tool].
  destruct (_ || _); [done|]. pose proof (Validate_frame call t w) as Hv.
  destruct (Validate sort call t w) as [w1 [v|]]; cbn in Hv; subst w1; [|done].
  unfold on_router. destruct (router_Current t (w_router w)) as [r1 [previous|]]; [|done].
  destruct (previous =? BackendDestination)%string; [by destruct (opt_is_nil _)|].
  cbn [w_router w_source w_destination w_tool].
  destruct (router_Set t BackendDestination r1) as [r2 [[]|]]; done.
Qed.

Lemma Rollback_frame ctx call t w : same_data w (Rollback sort ctx call t w).1.
Proof using.
  unfold Rollback, same_data. go_unfold. destruct (validate ctx t) as [[]|]; [|done]. cbn [read_tool].
  destruct (cutovers (w_tool w) !! t) as [previous|]; [|done]. destruct (_ =? _)%string; [done|].
  pose proof (Validate_frame call t w) as Hv.
  destruct (Validate sort call t w) as [w1 [v|]]; cbn in Hv; subst w1; [|done].
  unfold on_router. destruct (router_Set t previous (w_router w)) as [r2 [[]|]]; done.
Qed.

Lemma inv_mono n m w : n ≤ m → inv n w → inv m w.
Proof using. intros Hnm [Hs ? ? ?]. split; try done. by eapply source_ok_mono. Qed.

Lemma inv_exec n o w : inv n w → n < int64_max → inv (n + 1) (exec o w).
Proof using Sorter0.
  intros Hw Hn. destruct o as [t r|ctx t|ctx t|ctx t|ctx t|ctx call t|ctx call t]; cbn [exec];
    [by apply inv_put|eapply inv_mono; [by apply Z.le_succ_diag_r|]..].
  - by apply inv_begin.
  - by apply inv_copy.
  - by apply inv_catch_up.
  - by rewrite Validate_frame.
  - destruct (Cutover_frame ctx call t w) as (? & ? & ? & ?). by eapply inv_frame.
  - destruct (Rollback_frame ctx call t w) as (? & ? & ? & ?). by eapply inv_frame.
Qed.

Lemma inv_run os : Z.of_nat (length os) ≤ int64_max → inv (Z.of_nat (length os)) (run os start).
Proof using Sorter0.
  induction os as [|o os IH] using rev_ind; intros Hn; [apply inv_start|].
  rewrite length_app in *. cbn [length] in *. unfold run. rewrite foldl_app. cbn [foldl].
  replace (Z.of_nat (length os + 1)) with (Z.of_nat (length os) + 1) by lia.
  apply inv_exec; [apply IH; lia|lia].
Qed.

(** The changes after a watermark decide the keys they are about. *)
Lemma later_current n s t b r :
  source_ok n s → NoDup (map_key <$> later s t b) → r ∈ later s t b → records_of s t !! map_key r = Some r.
Proof using.
  intros Hs Hnd Hr. rewrite (so_records _ _ Hs t).
  assert (changes_of s t = filter (λ c, ¬ b < c_Sequence c) (changes_of s t)
    ++ filter (λ c, b < c_Sequence c) (changes_of s t)) as E.
  { pose proof (so_sorted _ _ Hs t) as Hso. induction Hso as [|c l _ IH Hall]; [done|].
    rewrite !filter_cons. destruct (decide (b < c_Sequence c)) as [Hc|Hc].
    - rewrite decide_False by tauto. rewrite filter_none, filter_all; [done|..];
        (eapply Forall_impl; [exact Hall|]); intros x Hx; cbn in *; intuition lia.
    - rewrite decide_True by done. cbn. by rewrite <- IH. }
  rewrite E, fmap_app. unfold insert_all. rewrite foldl_app. by apply insert_all_distinct.
Qed.

Lemma catch_up_equal n w ctx t b :
  inv n w → validate ctx t = Ok () → barriers (w_tool w) !! t = Some b → flag (copied (w_tool w)) t = true →
  NoDup (map_key <$> later (w_source w) t b) →
  stored (CatchUp sort ctx t w).1 t = current (CatchUp sort ctx t w).1 t.
Proof using Sorter0.
  intros Hw Hv Eb Ec Hnd. destruct (CatchUp_spec n w ctx t b Hw Hv Eb Ec) as (d' & report & -> & Hd). cbn.
  destruct (apply_log n w t (later (w_source w) t b) Hw (validate_nonempty _ _ Hv)) as (d'' & Hd' & H1 & H2 & _).
  { intros r (c & -> & Hc)%list_elem_of_fmap. apply list_elem_of_filter in Hc as [_ Hc]. by apply list_elem_of_fmap_2. }
  rewrite Hd in Hd'. injection Hd' as <-. apply map_eq. intros k.
  destruct (decide (k ∈ map_key <$> later (w_source w) t b)) as [(r & -> & Hr)%list_elem_of_fmap|Hk].
  - rewrite H2 by done. symmetry. eapply later_current; [apply Hw|done|done].
  - rewrite H1 by done. by eapply Hw.
Qed.
End reachable.

(** * Properties *)

Section cutover.
Context (sort : list MRecord → list MRecord).
Context {S D R : Type} `{!Source S, !Destination D, !Router R}.

(** What a successful validation has read. *)
Lemma Validate_Ok ctx t (w w' : world S D R) report :
  Validate sort ctx t w = (w', Ok report) →
  w_router w' = w_router w ∧ w_tool w' = w_tool w
  ∧ ∃ s d source destination,
    source_Snapshot t (w_source w) = (s, Ok source) ∧ destination_Snapshot t (w_destination w) = (d, Ok destination)
    ∧ Digest sort (sn_Records source) = Digest sort (sn_Records destination)
    ∧ report = validation_report sort t source destination.
Proof.
  unfold Validate. go_unfold. destruct (validate ctx t) as [[]|]; [|done]. unfold on_source, on_destination.
  destruct (source_Snapshot t (w_source w)) as [s [source|]] eqn:Es; [|done]. cbn [w_destination].
  destruct (destination_Snapshot t (w_destination w)) as [d [destination|]] eqn:Ed; [|done]. cbv zeta.
  destruct (rp_Validated _) eqn:Ev; [|done]. intros [= <- <-]. split; [done|]. split; [done|].
  exists s, d, source, destination. split_and!; try done. cbn in Ev. by apply andb_true_iff in Ev as [?%String.eqb_eq _].
Qed.

(** Over any source, destination and router, traffic of a tenant is moved only after a
    barrier, a copy and a catch-up of the present migration, and only when the digests of what
    the source and the destination then hold are equal; the backend that was active before
    is remembered, and a repeated cutover changes nothing.  Going back needs a remembered
    backend and equal digests again. *)
Theorem cutover_validated ctx call t (w w' : world S D R) report :
  (Cutover sort ctx call t w = (w', Ok report) →
     is_Some (barriers (w_tool w) !! t) ∧ flag (copied (w_tool w)) t = true ∧ flag (caughtUp (w_tool w)) t = true
     ∧ (∃ s d source destination,
          source_Snapshot t (w_source w) = (s, Ok source) ∧ destination_Snapshot t (w_destination w) = (d, Ok destination)
          ∧ Digest sort (sn_Records source) = Digest sort (sn_Records destination))
     ∧ ∃ r previous, router_Current t (w_router w) = (r, Ok previous)
       ∧ (previous = BackendDestination ∧ is_Some (cutovers (w_tool w) !! t) ∧ w_router w' = r ∧ w_tool w' = w_tool w
          ∨ previous ≠ BackendDestination ∧ router_Set t BackendDestination r = (w_router w', Ok ())
            ∧ cutovers (w_tool w') !! t = Some previous))
  ∧ (Rollback sort ctx call t w = (w', Ok report) →
     (∃ s d source destination,
        source_Snapshot t (w_source w) = (s, Ok source) ∧ destination_Snapshot t (w_destination w) = (d, Ok destination)
        ∧ Digest sort (sn_Records source) = Digest sort (sn_Records destination))
     ∧ ∃ previous, cutovers (w_tool w) !! t = Some previous ∧ previous ≠ BackendDestination
       ∧ router_Set t previous (w_router w) = (w_router w', Ok ())).
Proof.
  split.
  - unfold Cutover. go_unfold. destruct (validate ctx t) as [[]|]; [|done]. cbn [read_tool].
    destruct (barriers (w_tool w) !! t) as [b|] eqn:Eb; [|done]. cbn [opt_is_nil orb].
    destruct (flag (copied (w_tool w)) t) eqn:Ec; [|done]. destruct (flag (caughtUp (w_tool w)) t) eqn:Eu; [|done].
    cbn [negb orb]. destruct (Validate sort call t w) as [w1 [v|]] eqn:Ev; [|done].
    apply Validate_Ok in Ev as (Hr & Ht & s & d & source & destination & Hs & Hd & Hdig & _).
    unfold on_router. rewrite Hr. destruct (router_Current t (w_router w)) as [r [previous|]] eqn:Er; [|done].
    destruct (String.eqb_spec previous BackendDestination).
    + destruct (cutovers (w_tool w) !! t) as [p|] eqn:Ep; [|done]. cbn [opt_is_nil]. intros [= <- <-]. cbn.
      split_and!; [by eexists|done|done|by eauto 10|]. exists r, previous. split; [done|]. left. split_and!; try done; by eexists.
    + cbn [w_router]. destruct (router_Set t BackendDestination r) as [r2 [[]|]] eqn:Eset; [|done]. intros [= <- <-]. cbn.
      split_and!; [by eexists|done|done|by eauto 10|]. exists r, previous. split; [done|]. right. split_and!; try done.
      apply lookup_insert_eq.
  - unfold Rollback. go_unfold. destruct (validate ctx t) as [[]|]; [|done]. cbn [read_tool].
    destruct (cutovers (w_tool w) !! t) as [previous|] eqn:Ep; [|done].
    destruct (String.eqb_spec previous BackendDestination); [done|].
    destruct (Validate sort call t w) as [w1 [v|]] eqn:Ev; [|done].
    apply Validate_Ok in Ev as (Hr & Ht & s & d & source & destination & Hs & Hd & Hdig & _).
    unfold on_router. rewrite Hr. destruct (router_Set t previous (w_router w)) as [r2 [[]|]] eqn:Eset; [|done].
    intros [= <- <-]. cbn. split; [by eauto 10|]. by exists previous.
Qed.
End cutover.

Notation quiet := (Some (λ _ : nat, @None ctx_error)) (only parsing).

(** C23: a migration that is caught up can be finished.  Whatever has happened before, when the
    snapshot was copied after the barrier and every key was written at most once since, catching
    up leaves the destination with exactly the records of the source, whichever order
    [sort.Slice] gives to equal elements.  If the tenant is not routed to the destination yet,
    the validation that follows succeeds and the cutover moves the tenant and remembers where
    it came from.  If it already is, a cutover leaves the router alone; it succeeds when the
    earlier cutover is still known and is a conflict when a later [Begin] has forgotten it. *)
Theorem migration_completes sort `{!Sorter sort} os t b :
  Z.of_nat (length os) ≤ int64_max → let w := run sort os start in
  t ≠ ""%string → barriers (w_tool w) !! t = Some b → flag (copied (w_tool w)) t = true →
  NoDup (map_key <$> later (w_source w) t b) →
  let w1 := (CatchUp sort quiet t w).1 in
  let w2 := (Cutover sort quiet quiet t w1).1 in
  let answer := (Cutover sort quiet quiet t w1).2 in
  stored_of (w_destination w1) t = records_of (w_source w1) t
  ∧ ∃ report, rp_Validated report = true ∧ rp_CutoverBackend report = BackendDestination
    ∧ (w_router w !! t ≠ Some BackendDestination →
        answer = Ok report ∧ w_router w2 !! t = Some BackendDestination
        ∧ cutovers (w_tool w2) !! t = Some (default BackendSource (w_router w !! t)))
    ∧ (w_router w !! t = Some BackendDestination →
        w_router w2 = w_router w
        ∧ answer = match cutovers (w_tool w) !! t with Some _ => Ok report | None => Err ErrConflict end).
Proof.
  intros Hn w Ht Eb Ec Hnd w1 w2 answer. pose proof (inv_run sort os Hn) as Hw. fold w in Hw.
  assert (validate quiet t = Ok ()) as Hv by (unfold validate; by rewrite (proj2 (String.eqb_neq _ _) Ht)).
  pose proof (catch_up_equal sort _ w quiet t b Hw Hv Eb Ec Hnd) as Heq. split; [exact Heq|].
  destruct (CatchUp_spec sort _ w quiet t b Hw Hv Eb Ec) as (d' & rep & E & _). subst w2 answer w1. rewrite E in Heq |- *.
  cbn in Heq |- *.
  unfold Cutover. go_unfold. rewrite Hv. cbn [read_tool w_tool barriers copied caughtUp cutovers]. rewrite Eb, Ec.
  unfold flag. rewrite lookup_insert_eq. cbn [default from_option id opt_is_nil negb orb].
  unfold Validate. go_unfold. rewrite Hv. unfold on_source, on_destination, on_router.
  cbn [source_Snapshot memory_source w_source]. unfold memory_source_Snapshot. go_unfold.
  rewrite (proj2 (String.eqb_neq _ _) Ht). cbn [w_destination destination_Snapshot memory_destination].
  unfold memory_destination_Snapshot. go_unfold. rewrite (proj2 (String.eqb_neq _ _) Ht). cbv zeta.
  unfold validation_report. cbn [sn_Records sn_Watermark]. rewrite Heq, String.eqb_refl, Nat.eqb_refl. cbn [andb rp_Validated negb].
  cbn [router_Current router_Set memory_router w_router]. unfold memory_Current, memory_Set. go_unfold.
  rewrite (proj2 (String.eqb_neq _ _) Ht). cbn [orb].
  destruct (String.eqb_spec (default BackendSource (w_router w !! t)) BackendDestination) as [Hd|Hd].
  - assert (w_router w !! t = Some BackendDestination) as Hr.
    { destruct (w_router w !! t) as [x|]; [cbn in Hd; by subst x|discriminate Hd]. }
    rewrite Hr. destruct (cutovers (w_tool w) !! t); cbn.
    + eexists. split; [|split; [|split; [done|intros _; split; [done|reflexivity]]]]; done.
    + by exists (mkReport t PhaseCutover 0 0 0 0 "" "" BackendDestination true true).
  - assert (w_router w !! t ≠ Some BackendDestination) as Hr by (intros Hr; by rewrite Hr in Hd).
    cbn. eexists.
    split; [|split; [|split; [intros _; split; [reflexivity|split; apply lookup_insert_eq]|done]]]; done.
Qed.

(** * Concrete sorts *)

Definition record_le (x y : MRecord) : Prop := record_less y x = false.
#[export] Instance record_le_dec : RelDecision record_le.
Proof. intros x y. unfold record_le. apply _. Defined.

Lemma ltb_le a b : (b <? a)%string = false ↔ String.le a b.
Proof.
  unfold String.ltb, String.le, String.leb. rewrite (String.compare_antisym a b).
  by destruct (b ?= a)%string.
Qed.

Lemma record_le_spec x y :
  record_le x y ↔ String.le (r_TenantID x) (r_TenantID y) ∧ (r_TenantID x = r_TenantID y →
    String.le (r_Kind x) (r_Kind y) ∧ (r_Kind x = r_Kind y → String.le (r_Key x) (r_Key y))).
Proof.
  unfold record_le, record_less. destruct (String.eqb_spec (r_TenantID y) (r_TenantID x)) as [->|H1]; cbn [negb].
  - destruct (String.eqb_spec (r_Kind y) (r_Kind x)) as [->|H2]; cbn [negb]; rewrite ltb_le.
    + split; [done|]. intros [_ H]. by apply H.
    + split; [|intros [_ H]; by apply H]. intros. split; [done|]. intros _. split; [done|]. by intros ?%symmetry.
  - rewrite ltb_le. split; [|by intros [? _]]. intros. split; [done|]. by intros ?%symmetry.
Qed.

#[export] Instance record_le_transitive : Transitive record_le.
Proof.
  intros x y z. rewrite !record_le_spec. intros [A1 A2] [B1 B2]. split; [by etrans|]. intros E.
  assert (r_TenantID x = r_TenantID y) as E1 by (apply (anti_symm String.le); [done|by rewrite E]).
  destruct (A2 E1) as [A3 A4]. destruct B2 as [B3 B4]; [congruence|]. split; [by etrans|]. intros F.
  assert (r_Kind x = r_Kind y) as F1 by (apply (anti_symm String.le); [done|by rewrite F]).
  etrans; [by apply A4|]. apply B4. congruence.
Qed.

#[export] Instance record_le_total : Total record_le.
Proof.
  intros x y. unfold record_le. destruct (record_less y x) eqn:E; [right|by left].
  destruct (record_less x y) eqn:F; [|done]. exfalso. unfold record_less in E, F.
  rewrite (String.eqb_sym (r_TenantID y)), (String.eqb_sym (r_Kind y)) in E.
  assert (∀ a b, (a <? b)%string = true → (b <? a)%string = true → False) as Hasym.
  { intros a b. unfold String.ltb. rewrite (String.compare_antisym b a). by destruct (a ?= b)%string. }
  destruct (negb _); [by eapply Hasym|]. destruct (negb _); by eapply Hasym.
Qed.

(** Insertion in the given order keeps equal elements in order, after a reversal it turns
    them around; both are allowed. *)
#[export] Instance merge_sorter : Sorter (merge_sort record_le).
Proof. split; intros l; [apply merge_sort_Permutation|apply StronglySorted_merge_sort; apply _]. Qed.
#[export] Instance reverse_sorter : Sorter (λ l, merge_sort record_le (reverse l)).
Proof.
  split; intros l; [|apply StronglySorted_merge_sort; apply _].
  by rewrite merge_sort_Permutation, reverse_Permutation.
Qed.

Definition ex_put (kind key payload : string) : op := OPut "tenant-a" (mkRecord "" kind key payload 0).
Definition ex_migration : list op :=
  [ex_put "session" "s1" "one"; OBegin quiet "tenant-a"; ex_put "memory" "m1" "hello"; OCopy quiet "tenant-a";
   ex_put "session" "s1" "two"].

(** An order of equal elements that [sort.Slice] may choose: a key that was written twice after
    the barrier is left at the older version, and the migration can never be validated, however
    often it is caught up. *)
Example unstable_sort_blocks_migration :
  let sort := λ l, merge_sort record_le (reverse l) in
  let w := run sort (ex_migration ++ [ex_put "session" "s1" "three"]) start in
  let w1 := run sort [OCatchUp quiet "tenant-a"] w in
  let w2 := run sort [OCatchUp quiet "tenant-a"; OCatchUp quiet "tenant-a"] w in
  is_ok (CatchUp sort quiet "tenant-a" w).2 = true
  ∧ (r_Payload <$> stored_of (w_destination w1) "tenant-a" !! map_key (mkRecord "" "session" "s1" "" 0)) = Some "two"%string
  ∧ (r_Payload <$> records_of (w_source w1) "tenant-a" !! map_key (mkRecord "" "session" "s1" "" 0)) = Some "three"%string
  ∧ (Validate sort quiet "tenant-a" w1).2 = Err ErrValidation
  ∧ (Validate sort quiet "tenant-a" w2).2 = Err ErrValidation.
Proof. vm_compute. by split_and!. Qed.

(** A migration that is begun again after its cutover is caught up as before, but can neither
    be cut over nor rolled back: the backend that the tenant came from is forgotten. *)
Example begin_forgets_cutover :
  let sort := merge_sort record_le in
  let again := [OCatchUp quiet "tenant-a"; OCutover quiet quiet "tenant-a"; OBegin quiet "tenant-a";
                OCopy quiet "tenant-a"; OCatchUp quiet "tenant-a"] in
  let w := run sort (ex_migration ++ again) start in
  w_router w !! "tenant-a"%string = Some BackendDestination
  ∧ is_ok (Validate sort quiet "tenant-a" w).2 = true
  ∧ (Cutover sort quiet quiet "tenant-a" w).2 = Err ErrConflict
  ∧ (Rollback sort quiet quiet "tenant-a" w).2 = Err ErrConflict.
Proof. vm_compute. by split_and!. Qed.

Lemma migration_completes_witness :
  let w := run (merge_sort record_le) ex_migration start in
  w_router (Cutover (merge_sort record_le) quiet quiet "tenant-a" (CatchUp (merge_sort record_le) quiet "tenant-a" w).1).1
    !! "tenant-a"%string = Some BackendDestination.
Proof.
  intros w. destruct (migration_completes (merge_sort record_le) ex_migration "tenant-a" 1) as (_ & report & _ & _ & H & _).
  - done.
  - done.
  - vm_compute. reflexivity.
  - vm_compute. reflexivity.
  - apply (bool_decide_unpack _). vm_compute. exact I.
  - apply H. vm_compute. discriminate.
Defined.

Lemma cutover_validated_witness :
  let w := run (merge_sort record_le) (ex_migration ++ [OCatchUp quiet "tenant-a"]) start in
  ∃ w' report, Cutover (merge_sort record_le) quiet quiet "tenant-a" w = (w', Ok report)
    ∧ flag (caughtUp (w_tool w)) "tenant-a" = true.
Proof.
  intros w. destruct (Cutover (merge_sort record_le) quiet quiet "tenant-a" w) as [w' [report|e]] eqn:E.
  - destruct (proj1 (cutover_validated (merge_sort record_le) quiet quiet "tenant-a" w w' report) E) as (_ & _ & H & _).
    exists w', report. split; [reflexivity|exact H].
  - exfalso. assert (is_ok (Cutover (merge_sort record_le) quiet quiet "tenant-a" w).2 = true) as H by (vm_compute; reflexivity).
    rewrite E in H. discriminate.
Defined.
