(* ===== verification/DispatchClaim.v ===== *)
(** Durable inbound claims, the part of [trpcservice/gateway/dispatch.go] that composes the
    gateway with the runtime store: a message of a channel is recorded once, claimed for
    execution under a lease and settled with the token of that lease, and its reply is
    materialized into the outbox.

    Several gateways use one store.  An [Env] fixes what a dispatch meets: at its [n]-th
    store call, which operations others perform just before, and what the context and the
    clocks show.  The dispatch acts on a [World]: the store and the number of calls made.
    Identifiers drawn from [uuid] are arguments.  Metrics and spans carry no state. *)
From Stdlib Require Import Ascii String.
From S2P Require Import Prelude GoStrings Tenant Bindings Routing Gateway RuntimeStore StoreTheorems Materializer.
Local Open Scope Z_scope.

Inductive error := EGateway (e : Gateway.error) | EStore (e : RuntimeStore.error).
#[export] Instance dispatch_error_eq_dec : EqDecision error.
Proof. solve_decision. Defined.

Definition durableInboundLease : duration := 30 * second.
Definition maxDurableExternalMessageIDRunes : Z := 512.

Record durableExecution := mkDurable {
  d_tenantID : string; d_eventID : string; d_owner : string; d_fencingToken : Z;
  d_replyTarget : ReplyTarget }.

(** [reply_target] is the function [replyTarget] of the source. *)
Definition reply_target (target : RoutingTarget) (message : InboundMessage) : result error ReplyTarget :=
  let binding := Routing.rt_BindingID (target_fields target) in
  receiver ← (if (m_ConversationKind message =? ConversationDirect)%string
              then Ok (m_ExternalPeerID message)
              else if (m_ConversationKind message =? ConversationGroup)%string
              then Ok (m_ExternalChatID message)
              else Err (EGateway Gateway.ErrInvalid));
  let reply := mkReplyTarget binding (m_ConversationKind message) receiver (m_ExternalThreadID message) in
  match ValidateReplyTarget reply with
  | Err _ => Err (EGateway Gateway.ErrInvalid)
  | Ok _ => Ok reply
  end.

(** Less room than a hypothesis gives. *)
Ltac room_lia := eapply room_le; [|eassumption]; simpl; lia.

Section Claims.
Context `{Codec}.

Record Env := mkEnv {
  others : nat → list op;
  ctxs : nat → context;
  clks : nat → clock;
  (* [time.Now] between the store calls *)
  nows : nat → time }.
Notation World := (Store * nat)%type.

Variable env : Env.

(** One call of the store; errors of the store become errors of the dispatch. *)
Definition call {A} (f : context → clock → act Store RuntimeStore.error A) : act World error A :=
  λ w, let '(s, r) := f (ctxs env w.2) (clks env w.2) (run (others env w.2) w.1) in
       ((s, S w.2), match r with Ok a => Ok a | Err e => Err (EStore e) end).

Definition ensureInboundSession (tenantID sessionID : string) : act World error unit := λ w,
  match call (λ ctx _, GetSession ctx tenantID sessionID) w with
  | (w1, Ok _) => (w1, Ok ())
  | (w1, Err e) =>
      if negb (bool_decide (e = EStore ErrNotFound)) then (w1, Err e)
      else match call (λ ctx clk, CreateSession ctx clk tenantID sessionID NilMap) w1 with
           | (w2, Ok _) => (w2, Ok ())
           | (w2, Err e) => (w2, if bool_decide (e = EStore ErrDuplicate) then Ok () else Err e)
           end
  end.

Definition with_status (status : string) (e : MessageEvent) : MessageEvent :=
  mkMessageEvent (e_TenantID e) (e_EventID e) (e_SessionID e) (e_BindingID e) (e_ExternalMessageID e)
    (e_IdempotencyKey e) (e_EventSeq e) status (e_FencingToken e) (e_LeaseOwner e)
    (e_LeaseExpiresAt e) (e_ReplyID e) (e_SegmentCount e) (e_ReplyTarget e) (e_CreatedAt e) (e_UpdatedAt e).

Definition duplicate_message : error := EGateway ErrDuplicateMessage.

Definition prepareInboundEvent (tenantID : string) (event : MessageEvent) (duplicate : bool) (owner : string)
    : act World error MessageEvent := λ w,
  if negb duplicate then (w, Ok event)
  else if (e_Status event =? EventRunning)%string
       && match e_LeaseExpiresAt event with None => true | Some t => after t (nows env w.2) end
  then (w, Err duplicate_message)
  else
    let '(w1, r) :=
      if (e_Status event =? EventRunning)%string
      then match call (λ ctx clk, TransitionMessage ctx clk (mkMessageTransition tenantID (e_EventID event)
                   EventRunning EventExecutionReconciling owner 0 0 "" 0)) w with
           | (w1, Ok _) => (w1, Ok (with_status EventExecutionReconciling event))
           | (w1, Err _) => (w1, Err duplicate_message)
           end
      else (w, Ok event) in
    match r with
    | Err e => (w1, Err e)
    | Ok event =>
        if negb (e_Status event =? EventReceived)%string
           && negb (e_Status event =? EventExecutionReconciling)%string
        then (w1, Err duplicate_message) else (w1, Ok event)
    end.

(** The transition that starts the execution. *)
Definition start_execution (tenantID : string) (event : MessageEvent) (duplicate : bool) (owner : string)
    : act World error (option durableExecution) := λ w,
  match call (λ ctx clk, TransitionMessage ctx clk (mkMessageTransition tenantID (e_EventID event)
          (e_Status event) EventRunning owner 0 durableInboundLease "" 0)) w with
  | (w1, Ok running) =>
      (w1, Ok (Some (mkDurable tenantID (e_EventID event) owner (e_FencingToken running)
                 (e_ReplyTarget event))))
  | (w1, Err e) =>
      (w1, Err (if duplicate && bool_decide (e = EStore ErrConflict) then duplicate_message else e))
  end.

Definition claimInbound (has_store : bool) (principal : Principal) (message : InboundMessage)
    (identity : RunnerIdentity) (eventID ownerID : string) : act World error (option durableExecution) := λ w,
  if negb has_store || negb (p_kind principal =? PrincipalChannel)%string then (w, Ok None)
  else
    match Principal_RoutingTarget principal with
    | None => (w, Err (EGateway Gateway.ErrInvalid))
    | Some target =>
        if (m_ExternalMessageID message =? "")%string
           || (maxDurableExternalMessageIDRunes <? rune_count (m_ExternalMessageID message))
        then (w, Err (EGateway Gateway.ErrInvalid))
        else (
          reply ← lift (reply_target target message);
          _ ← ensureInboundSession (p_tenantID principal) (SessionID identity);
          recorded ← call (λ ctx clk, RecordMessage ctx clk (mkMessageEventInput (p_tenantID principal)
            eventID (SessionID identity) (Routing.rt_BindingID (target_fields target))
            (m_ExternalMessageID message) (m_ExternalMessageID message) reply));
          let owner := ("gateway-" ++ ownerID)%string in
          event ← prepareInboundEvent (p_tenantID principal) recorded.1 recorded.2 owner;
          start_execution (p_tenantID principal) event recorded.2 owner) w
    end.

(** * Settlement *)

Definition settlement (d : durableExecution) (to replyID : string) (segments : Z) : MessageTransition :=
  mkMessageTransition (d_tenantID d) (d_eventID d) EventRunning to (d_owner d) (d_fencingToken d) 0
    replyID segments.

(** Settlement runs in a context that is never canceled. *)
Definition settle_call {A} (f : context → clock → act Store RuntimeStore.error A) (w : World) : World :=
  ((f background (clks env w.2) (run (others env w.2) w.1)).1, S w.2).

Definition failDurable (durable : option durableExecution) (w : World) : World :=
  match durable with
  | None => w
  | Some d => settle_call (λ ctx clk, TransitionMessage ctx clk (settlement d EventFailed "" 0)) w
  end.

(** [failed] tells whether the execution ended with an error. *)
Definition finishDurable (m : option Materializer) (requestID traceID traceParent ambient : string)
    (durable : option durableExecution) (failed : bool) (reply : string) (w : World) : World :=
  match durable with
  | None => w
  | Some d =>
      let '(w1, (to, replyID, segments)) :=
        if negb failed && negb (opt_is_nil m) && negb (trim_space reply =? "")%string
        then
          let '(s, r) := Materialize m background (clks env w.2) ambient
            (mkMaterializeInput (d_tenantID d) (d_eventID d) (d_eventID d) requestID traceID traceParent
               reply (d_replyTarget d)) (run (others env w.2) w.1) in
          ((s, S w.2), match r with
                       | Ok n => (EventCompleted, d_eventID d, n)
                       | Err _ => (EventFailed, "", 0)
                       end)
        else (w, (if failed then EventFailed else EventCompleted, "", 0)) in
      settle_call (λ ctx clk, TransitionMessage ctx clk (settlement d to replyID segments)) w1
  end.

(** * What a claim does to the store *)

(** At most [b] operations of others, none of them a deletion, before each call. *)
Definition calm (b : nat) : Prop :=
  ∀ n, (length (others env n) ≤ b)%nat ∧ forallb (λ o, negb (deletes o)) (others env n) = true.

(** [s'] is reached from [s] by [k] calls among calm others. *)
Definition ran (b k : nat) (s s' : Store) : Prop :=
  ∃ os, s' = run os s ∧ (length os ≤ k * S b)%nat ∧ forallb (λ o, negb (deletes o)) os = true.

Lemma run_ops_app os os' s : run (os ++ os') s = run os' (run os s).
Proof. apply foldl_app. Qed.

Lemma ran_refl b k s : ran b k s s.
Proof. exists []. split_and!; simpl; [done|lia|done]. Qed.

Lemma ran_trans b j k s1 s2 s3 : ran b j s1 s2 → ran b k s2 s3 → ran b (j + k) s1 s3.
Proof.
  intros (os & -> & ? & ?) (os' & -> & ? & ?). exists (os ++ os').
  rewrite run_ops_app, length_app, forallb_app. split_and!; [done|lia|]. by apply andb_true_iff.
Qed.

Lemma ran_mono b j k s s' : (j ≤ k)%nat → ran b j s s' → ran b k s s'.
Proof. intros ? (os & -> & ? & ?). exists os. split_and!; [done|nia|done]. Qed.

Lemma ran_wf b k n s s' : wf s → room (k * S b + n) s → ran b k s s' → wf s' ∧ room n s'.
Proof.
  intros ? Hr (os & -> & ? & _). apply run_keeps_wf; [done|]. room_lia.
Qed.

Lemma ran_others b n s : calm b → ran b 1 s (run (others env n) s).
Proof. intros Hc. destruct (Hc n). eexists. split_and!; [done|lia|done]. Qed.

(** A call is the others' operations and one operation of its own. *)
Lemma call_ran {A} b (f : context → clock → act Store RuntimeStore.error A) w :
  calm b →
  (∀ ctx clk s, (f ctx clk s).1 = s ∨ ∃ o, deletes o = false ∧ (f ctx clk s).1 = exec o s) →
  ran b 1 w.1 (call f w).1.1.
Proof.
  intros Hc Hf. unfold call. destruct (Hc w.2) as [Hl Hd].
  destruct (f _ _ _) as [s r] eqn:Hr. pose proof (Hf (ctxs env w.2) (clks env w.2)
    (run (others env w.2) w.1)) as Hs. rewrite Hr in Hs. simpl in *.
  destruct Hs as [->|(o & Ho & ->)]; [by apply ran_others|].
  exists (others env w.2 ++ [o]). rewrite run_ops_app, length_app, forallb_app. simpl.
  split_and!; [done|lia|]. rewrite Hd, Ho. done.
Qed.

Lemma transition_ran b t w :
  calm b → ran b 1 w.1 (call (λ ctx clk, TransitionMessage ctx clk t) w).1.1.
Proof. intros Hc. apply call_ran; [done|]. intros. right. by exists (OpTransitionMessage ctx clk t). Qed.

Lemma session_ran b tn sid w : calm b → ran b 2 w.1 (ensureInboundSession tn sid w).1.1.
Proof.
  intros Hc. unfold ensureInboundSession.
  pose proof (call_ran b (λ ctx _, GetSession ctx tn sid) w Hc) as Hg.
  destruct (call _ w) as [w1 r1]. simpl in Hg.
  assert (ran b 1 w.1 w1.1) as H1.
  { apply Hg. intros. left. unfold GetSession. go_step; done. }
  pose proof (call_ran b (λ ctx clk, CreateSession ctx clk tn sid NilMap) w1 Hc) as Hs.
  destruct (call _ w1) as [w2 r2]. simpl in Hs.
  assert (ran b 2 w.1 w2.1) as H2.
  { apply (ran_trans b 1 1 _ _ _ H1), Hs. intros. right. by exists (OpCreateSession ctx clk tn sid NilMap). }
  apply (ran_mono b 1 2) in H1; [|lia]. by repeat case_match; simplify_eq/=.
Qed.

(** The event of a message: the stored event with the message's identity. *)
Definition event_of (tn binding ext ek : string) (s : Store) (e : MessageEvent) : Prop :=
  events s !! key [tn; ek] = Some e ∧ e_TenantID e = tn ∧ e_EventID e = ek
  ∧ e_BindingID e = binding ∧ e_ExternalMessageID e = ext.

(** The idempotency index leaves one event per message. *)
Lemma event_of_unique tn binding ext ek1 ek2 s e1 e2 :
  wf s → event_of tn binding ext ek1 s e1 → event_of tn binding ext ek2 s e2 → ek1 = ek2.
Proof.
  intros Hwf (He1 & ? & ? & ? & ?) (He2 & ? & ? & ? & ?).
  destruct (wf_events _ Hwf _ _ He1) as (_ & _ & Hm1 & _).
  destruct (wf_events _ Hwf _ _ He2) as (_ & _ & Hm2 & _). simplify_eq.
  assert (key [e_TenantID e1; e_EventID e1] = key [e_TenantID e1; e_EventID e2]) as Hk%key_inj by congruence.
  congruence.
Qed.

Lemma event_of_run tn binding ext ek s e os :
  wf s → room (length os) s → forallb (λ o, negb (deletes o)) os = true →
  event_of tn binding ext ek s e →
  ∃ e', event_of tn binding ext ek (run os s) e' ∧ e_FencingToken e ≤ e_FencingToken e'.
Proof.
  intros Hwf Hroom Hdel (He & ? & ? & ? & ?).
  destruct (run_event _ _ _ _ Hwf Hroom Hdel He) as (e' & ? & (? & ? & ? & ? & ? & _) & ? & _).
  exists e'. unfold event_of. split; [split_and!; congruence|done].
Qed.

Lemma event_of_ran b k tn binding ext ek s s' e :
  wf s → room (k * S b) s → ran b k s s' → event_of tn binding ext ek s e →
  ∃ e', event_of tn binding ext ek s' e' ∧ e_FencingToken e ≤ e_FencingToken e'.
Proof.
  intros ? Hroom (os & -> & ? & ?). apply event_of_run; try done. room_lia.
Qed.

Lemma RecordMessage_event ctx clk i s s1 e dup :
  wf s → RecordMessage ctx clk i s = (s1, Ok (e, dup)) →
  event_of (i_TenantID i) (i_BindingID i) (i_ExternalMessageID i) (e_EventID e) s1 e.
Proof.
  intros Hwf Hrec. unfold RecordMessage in Hrec. go_step.
  - match goal with Hu : messages _ !! _ = Some _ |- _ =>
      destruct (wf_messages _ Hwf _ _ Hu) as (e0 & ? & Hk) end. simplify_eq.
    match goal with He : events _ !! _ = Some _ |- _ =>
      destruct (wf_events _ Hwf _ _ He) as (Hek & _); rename He into Hev end.
    apply key_inj in Hk as [= -> -> ->]. rewrite Hek in Hev. unfold event_of. done.
  - match goal with Hu : messages _ !! _ = Some _ |- _ =>
      destruct (wf_messages _ Hwf _ _ Hu) as (e0 & ? & _) end. congruence.
  - unfold event_of. simpl. by rewrite lookup_insert_eq.
Qed.

Lemma record_ok b i w w' ev dup :
  calm b → wf w.1 → room (1 * S b + 0) w.1 →
  call (λ ctx clk, RecordMessage ctx clk i) w = (w', Ok (ev, dup)) →
  ran b 1 w.1 w'.1
  ∧ event_of (i_TenantID i) (i_BindingID i) (i_ExternalMessageID i) (e_EventID ev) w'.1 ev.
Proof.
  intros Hc Hwf Hroom Hcall. split.
  { change w' with (w', Ok (E := error) (ev, dup)).1. rewrite <- Hcall.
    apply call_ran; [done|]. intros. right. by exists (OpRecordMessage ctx clk i). }
  unfold call in Hcall. destruct (RecordMessage _ _ _ _) as [s2 [[ev2 dup2]|]] eqn:Hrec; [|done].
  injection Hcall as <- -> ->. eapply RecordMessage_event; [|done].
  by eapply (ran_wf b 1 0); [| |apply ran_others].
Qed.

Lemma prepare_ran b tn ev dup owner w w' ev' :
  calm b → prepareInboundEvent tn ev dup owner w = (w', Ok ev') →
  ran b 1 w.1 w'.1 ∧ e_EventID ev' = e_EventID ev.
Proof.
  intros Hc. unfold prepareInboundEvent. pose proof (ran_refl b 1 w.1).
  match goal with |- context [call (λ ctx clk, TransitionMessage ctx clk ?t) w] =>
    pose proof (transition_ran b t w Hc) end.
  repeat case_match; intros; simplify_eq/=; done.
Qed.

(** The last step of a claim gives the event the token that the claim returns. *)
Lemma start_ok b tn ev dup owner w w' d :
  calm b → start_execution tn ev dup owner w = (w', Ok (Some d)) →
  ran b 1 w.1 w'.1 ∧ ∃ s0 e0, ran b 1 w.1 s0 ∧ d_tenantID d = tn ∧ d_eventID d = e_EventID ev
    ∧ events s0 !! key [tn; e_EventID ev] = Some e0 ∧ e_Status e0 = e_Status ev
    ∧ d_fencingToken d = incr64 (e_FencingToken e0)
    ∧ ∃ e1, w'.1 = set_events (<[key [tn; e_EventID ev] := e1]> (events s0)) s0
        ∧ same_event e0 e1 ∧ e_FencingToken e1 = d_fencingToken d.
Proof.
  intros Hc Hs. split.
  { pose proof (transition_ran b (mkMessageTransition tn (e_EventID ev) (e_Status ev) EventRunning owner 0
      durableInboundLease "" 0) w Hc) as R. unfold start_execution in Hs. repeat case_match; by simplify_eq/=. }
  revert Hs. unfold start_execution, call.
  destruct (TransitionMessage _ _ _ _) as [s1 [e1|err]] eqn:Ht; intros [= <- <-].
  apply TransitionMessage_ok in Ht as (e0 & He0 & Hst & _ & _ & -> & ->).
  eexists _, e0. split; [apply (ran_others b w.2 w.1 Hc)|]. split_and!; try done.
  eexists. split_and!; [done|done|done].
Qed.

Definition claim_args_ok (principal : Principal) (message : InboundMessage) (tn binding ext : string) : Prop :=
  p_tenantID principal = tn ∧ m_ExternalMessageID message = ext
  ∧ ∃ target, Principal_RoutingTarget principal = Some target
              ∧ Routing.rt_BindingID (target_fields target) = binding.

(** A successful claim raises the token of the event of its message and returns it. *)
Lemma claim_ok b has principal message identity eventID ownerID w w' d tn binding ext :
  calm b → wf w.1 → room (5 * S b + 1) w.1 → claim_args_ok principal message tn binding ext →
  claimInbound has principal message identity eventID ownerID w = (w', Ok (Some d)) →
  d_tenantID d = tn
  ∧ ∃ s0 e0 e1, ran b 5 w.1 s0 ∧ event_of tn binding ext (d_eventID d) s0 e0
    ∧ d_fencingToken d = e_FencingToken e0 + 1
    ∧ event_of tn binding ext (d_eventID d) w'.1 e1 ∧ e_FencingToken e1 = d_fencingToken d
    ∧ ran b 5 w.1 w'.1.
Proof.
  intros Hc Hwf Hroom (Htn & Hext & target & Htarget & Hb). unfold claimInbound. rewrite Htarget, Htn, Hext, Hb.
  destruct (negb has || _); [intros [=]|]. destruct ((ext =? "")%string || _); [intros [=]|]. go_unfold.
  destruct (reply_target _ _) as [reply|]; [|done].
  pose proof (session_ran b tn (SessionID identity) w Hc) as R1.
  destruct (ensureInboundSession _ _ w) as [w1 [[]|]]; [|done]. simpl in R1.
  destruct (ran_wf b 2 (3 * S b + 1) w.1 w1.1) as [Hwf1 Hr1]; [done|room_lia|done|].
  destruct (call _ w1) as [w2 [[ev dup]|]] eqn:Hrec; [|done].
  apply (record_ok b) in Hrec as [R2 Hev]; [|done|done|room_lia]. simpl in Hev.
  destruct (prepareInboundEvent _ _ _ _ _) as [w3 [ev3|]] eqn:Hprep; [|done].
  apply (prepare_ran b) in Hprep as [R3 Hid]; [|done]. simpl in R3.
  intros Hs. pose proof (start_ok b _ _ _ _ _ _ _ Hc Hs) as
    (R4' & s0 & e0 & R4 & -> & -> & He0 & _ & Htok & e1 & Hw' & Hsame & He1).
  simpl in Hid. rewrite Hid in *. clear Hs.
  pose proof (ran_trans b 2 1 _ _ _ R1 R2) as R. pose proof (ran_trans b 1 1 _ _ _ R3 R4) as R'.
  destruct (ran_wf b 3 (2 * S b) w.1 w2.1) as [Hwf2 Hr2]; [done| |done|].
  { room_lia. }
  destruct (ran_wf b 5 1 w.1 s0) as [_ Hr0]; [done|done|by apply (ran_trans b 3 2 _ w2.1)|].
  destruct (event_of_ran b 2 _ _ _ _ w2.1 s0 ev Hwf2 Hr2 R' Hev) as (e & He & _).
  assert (e = e0) as -> by (destruct He; congruence).
  split; [done|]. exists s0, e0, e1. split_and!; try done.
  - by apply (ran_trans b 3 2 _ w2.1).
  - rewrite Htok. destruct Hr0 as (_ & _ & Htoks & _). specialize (Htoks _ _ He0). simpl in Htoks.
    apply incr64_small. unfold int64_min, int64_max in *. lia.
  - destruct He as (_ & ? & ? & ? & ?), Hsame as (? & ? & ? & ? & ? & _). rewrite Hw'.
    unfold event_of. simpl. rewrite lookup_insert_eq. split_and!; congruence.
  - apply (ran_trans b 3 2 _ w2.1); [done|]. by apply (ran_trans b 1 1 _ w3.1).
Qed.

(** * A claim that meets a running event *)

Definition same_events (s s' : Store) : Prop := events s' = events s ∧ messages s' = messages s.

Lemma session_keeps_events tn sid w :
  (∀ n, others env n = []) → same_events w.1 (ensureInboundSession tn sid w).1.1.
Proof.
  intros Hn. unfold ensureInboundSession, call. rewrite !Hn. simpl.
  destruct (GetSession _ _ _ _) as [s1 r1] eqn:Hg.
  assert (s1 = w.1) as -> by (unfold GetSession in Hg; go_step; done).
  destruct r1; [done|]. case_match; [done|]. rewrite Hn. simpl.
  destruct (CreateSession _ _ _ _ _ _) as [s2 r2] eqn:Hs.
  assert (same_events w.1 s2) by (unfold CreateSession in Hs; go_step; done).
  by destruct r2.
Qed.

(** Alone on the store, a claim finds the event running under a lease that its clock shows
    unexpired, and fails without touching any event. *)
Lemma running_claim_refused has principal message identity eventID ownerID w tn binding ext ek e lease :
  (∀ n, others env n = []) → (∀ n, nows env n < lease) →
  claim_args_ok principal message tn binding ext → wf w.1 →
  event_of tn binding ext ek w.1 e → e_Status e = EventRunning → e_LeaseExpiresAt e = Some lease →
  (∀ d, (claimInbound has principal message identity eventID ownerID w).2 ≠ Ok (Some d))
  ∧ events (claimInbound has principal message identity eventID ownerID w).1.1 = events w.1.
Proof.
  intros Hn Hclk (Htn & Hext & target & Htarget & Hb) Hwf (He & Ht & Hk & Hbe & Hxe) Hst Hl.
  destruct (wf_events _ Hwf _ _ He) as (_ & _ & Hm & _). rewrite Ht, Hbe, Hxe in Hm.
  unfold claimInbound. rewrite Htarget, Htn, Hext, Hb.
  destruct (negb has || _); [done|]. destruct ((ext =? "")%string || _); [done|]. go_unfold.
  destruct (reply_target _ _) as [reply|]; [|done].
  pose proof (session_keeps_events tn (SessionID identity) w Hn) as [Hev Hmsg].
  destruct (ensureInboundSession _ _ w) as [w1 [[]|]]; [|done]. simpl in *.
  unfold call. rewrite Hn. simpl. destruct (RecordMessage _ _ _ _) as [s2 r2] eqn:Hrec.
  assert (s2 = w1.1 ∧ ∀ a, r2 = Ok a → a = (e, true)) as [-> Hr].
  { unfold RecordMessage in Hrec. go_unfold. simpl in Hrec. rewrite Hmsg, Hm, Hev, He in Hrec.
    go_step; (split; [done|intros; by simplify_eq]). }
  destruct r2 as [a|]; [|done]. rewrite (Hr a eq_refl). unfold prepareInboundEvent. simpl.
  rewrite Hst, Hl. simpl. assert (after lease (nows env (S w1.2)) = true) as -> by (apply Z.ltb_lt, Hclk).
  done.
Qed.
End Claims.

(** C26: a message of a channel is executed by one gateway at a time.  Two claims of the same
    message (tenant, binding and external message id), by any gateways with any sessions and
    identifiers, among any other operations short of deletions: if both succeed they name the
    same event, the second holds a greater token, and from then on the first can neither
    complete nor fail the event.  While the event runs under a lease that the second gateway's
    clock shows unexpired, and no one else interferes, the second claim does not succeed and
    touches no event. *)
Theorem inbound_executed_once `{Codec} env1 env2 b has1 has2 p1 p2 m1 m2 id1 id2 ev1 ev2 ow1 ow2
    s n1 n2 w1 d1 os tn binding ext :
  calm env1 b → calm env2 b → forallb (λ o, negb (deletes o)) os = true →
  wf s → room (10 * S b + length os + 2) s →
  claim_args_ok p1 m1 tn binding ext → claim_args_ok p2 m2 tn binding ext →
  claimInbound env1 has1 p1 m1 id1 ev1 ow1 (s, n1) = (w1, Ok (Some d1)) →
  (∀ w2 d2, claimInbound env2 has2 p2 m2 id2 ev2 ow2 (run os w1.1, n2) = (w2, Ok (Some d2)) →
     d_eventID d2 = d_eventID d1 ∧ d_fencingToken d1 < d_fencingToken d2
     ∧ ∀ ctx clk to replyID segments os',
         to ≠ EventExecutionReconciling → room (length os') w2.1 →
         forallb (λ o, negb (deletes o)) os' = true →
         ∃ err, TransitionMessage ctx clk (settlement d1 to replyID segments) (run os' w2.1)
                = (run os' w2.1, Err err))
  ∧ (∀ e lease, (∀ n, others env2 n = []) → (∀ n, nows env2 n < lease) →
     event_of tn binding ext (d_eventID d1) (run os w1.1) e →
     e_Status e = EventRunning → e_LeaseExpiresAt e = Some lease →
     (∀ d2, (claimInbound env2 has2 p2 m2 id2 ev2 ow2 (run os w1.1, n2)).2 ≠ Ok (Some d2))
     ∧ events (claimInbound env2 has2 p2 m2 id2 ev2 ow2 (run os w1.1, n2)).1.1
       = events (run os w1.1)).
Proof.
  intros Hc1 Hc2 Hdel Hwf Hroom Ha1 Ha2 Hcl1.
  destruct (claim_ok env1 b _ _ _ _ _ _ (s, n1) w1 d1 _ _ _ Hc1 Hwf ltac:(room_lia) Ha1 Hcl1)
    as (Htn1 & _ & _ & e1 & _ & _ & _ & He1 & Htok1 & R1). simpl in R1.
  destruct (ran_wf b 5 (length os + (5 * S b + 1)) s w1.1 Hwf) as [Hwf1 Hroom1]; [|done|].
  { room_lia. }
  destruct (run_keeps_wf os _ w1.1 Hwf1 Hroom1) as [Hwf2 Hroom2].
  split; [|intros; by eapply running_claim_refused].
  intros w2 d2 Hcl2.
  destruct (claim_ok env2 b _ _ _ _ _ _ (run os w1.1, n2) w2 d2 _ _ _ Hc2 Hwf2 Hroom2 Ha2 Hcl2)
    as (Htn2 & s0 & e0 & e2 & R2 & He0 & Htok & He2 & Htok2 & R2'). simpl in *.
  destruct (event_of_run _ _ _ _ w1.1 e1 os Hwf1 ltac:(room_lia) Hdel He1) as (e1' & He1' & ?).
  destruct (event_of_ran b 5 _ _ _ _ _ s0 e1' Hwf2 ltac:(room_lia) R2 He1') as (e1'' & He1'' & ?).
  destruct (ran_wf b 5 1 _ s0 Hwf2 Hroom2 R2) as [Hwf0 _].
  destruct (ran_wf b 5 1 _ w2.1 Hwf2 Hroom2 R2') as [Hwf3 _].
  pose proof (event_of_unique _ _ _ _ _ _ _ _ Hwf0 He0 He1'') as Heq. rewrite Heq in *.
  assert (e0 = e1'') as -> by (destruct He0, He1''; congruence).
  assert (d_fencingToken d1 < d_fencingToken d2) by lia.
  split_and!; [done..|]. intros ctx clk to rid segs os' Hto Hr Hd.
  apply (stale_settlement_fails w2.1 e2); try done; simpl; [|lia]. rewrite Htn1. apply He2.
Qed.

(** * Witness *)

#[local] Instance ex_codec : Codec := {|
  json_value := string;
  json_valid d := negb (str_empty d);
  json_unmarshal d := Some d;
  NormalizeTraceParent v := v
|}.

(** A gateway alone on the store, from time [t] on. *)
Definition ex_env (t : time) : Env := mkEnv (λ _, []) (λ _, background)
  (λ _ i, t + Z.of_nat i) (λ _, t).
Definition ex_channel : Principal := mkPrincipal PrincipalChannel ex_tenant_id ex_app_id "" None ex_target.
Definition ex_claim (t : time) (eventID ownerID : string) (w : Store * nat) :=
  claimInbound (ex_env t) true ex_channel ex_inbound (mkRunnerIdentity "u" "s") eventID ownerID w.
Definition ex_execution (r : result error (option durableExecution)) : durableExecution :=
  match r with Ok (Some d) => d | _ => mkDurable "" "" "" 0 zero_target end.

(** The first gateway claims; its lease runs out; the second takes over. *)
Definition ex_first := ex_claim 1000 "e1" "g1" (newStore, O).
Definition ex_second := ex_claim (100 * second) "e2" "g2" (ex_first.1.1, O).
Definition ex_d1 : durableExecution := ex_execution ex_first.2.
Definition ex_d2 : durableExecution := ex_execution ex_second.2.

Lemma ex_first_ok : ex_first = (ex_first.1, Ok (Some ex_d1)).
Proof.
  assert (ex_first.2 = Ok (Some ex_d1)) as <- by (vm_compute; reflexivity). apply surjective_pairing.
Defined.
Lemma ex_second_ok : ex_second = (ex_second.1, Ok (Some ex_d2)).
Proof.
  assert (ex_second.2 = Ok (Some ex_d2)) as <- by (vm_compute; reflexivity). apply surjective_pairing.
Defined.

Lemma inbound_executed_once_witness :
  d_eventID ex_d2 = "e1"%string ∧ d_fencingToken ex_d1 < d_fencingToken ex_d2
  ∧ ∀ d2, (ex_claim 2000 "e2" "g2" (ex_first.1.1, O)).2 ≠ Ok (Some d2).
Proof.
  assert (∀ t, calm (ex_env t) 0) as Hcalm by (intros t n; simpl; split; [lia|done]).
  assert (claim_args_ok ex_channel ex_inbound ex_tenant_id (Routing.rt_BindingID (target_fields ex_target)) "m-1")
    as Hargs by (split_and!; [done..|]; by exists ex_target).
  assert (room (10 * 1 + 0 + 2) newStore) as Hroom by (apply newStore_room; vm_compute; discriminate).
  split_and!.
  - destruct (proj1 (inbound_executed_once (ex_env 1000) (ex_env (100 * second)) 0 true true ex_channel
      ex_channel ex_inbound ex_inbound (mkRunnerIdentity "u" "s") (mkRunnerIdentity "u" "s") "e1" "e2" "g1" "g2"
      newStore 0 0 ex_first.1 ex_d1 [] _ _ _ (Hcalm _) (Hcalm _) eq_refl newStore_wf Hroom Hargs Hargs
      ex_first_ok) ex_second.1 ex_d2 ex_second_ok) as [-> _]. vm_compute. reflexivity.
  - vm_compute. reflexivity.
  - assert (∃ e, events ex_first.1.1 !! key [ex_tenant_id; "e1"] = Some e ∧ event_of ex_tenant_id
      (Routing.rt_BindingID (target_fields ex_target)) "m-1" "e1" ex_first.1.1 e
      ∧ e_Status e = EventRunning ∧ e_LeaseExpiresAt e = Some (1001 + 30 * second)) as (e & _ & He & Hs & Hl).
    { destruct (events ex_first.1.1 !! key [ex_tenant_id; "e1"]) as [e|] eqn:He; [|by vm_compute in He].
      exists e. vm_compute in He. injection He as <-. unfold event_of. split_and!; vm_compute; reflexivity. }
    refine (proj1 (proj2 (inbound_executed_once (ex_env 1000) (ex_env 2000) 0 true true ex_channel
      ex_channel ex_inbound ex_inbound (mkRunnerIdentity "u" "s") (mkRunnerIdentity "u" "s") "e1" "e2" "g1" "g2"
      newStore 0 0 ex_first.1 ex_d1 [] _ _ _ (Hcalm _) (Hcalm _) eq_refl newStore_wf Hroom Hargs Hargs
      ex_first_ok) e _ _ _ He Hs Hl)); [done|].
    intros n. vm_compute. reflexivity.
Defined.

(** The lease is never renewed and the reply is materialized before the settlement that the
    token guards.  A gateway that outlived its lease still leaves its reply in the outbox; the
    gateway that took over then cannot materialize its own (same reply identifier, another
    text) and the event ends as failed with the first gateway's reply attached. *)
Definition ex_finish (t : time) (request reply : string) (d : durableExecution) (s : Store) : Store :=
  (finishDurable (ex_env t) (Some (mkMaterializer 512)) request "" "" "" (Some d) false reply (s, O)).1.

Example late_reply_fails_takeover :
  let s1 := ex_finish (101 * second) "r1" "slow answer" ex_d1 ex_second.1.1 in
  let s2 := ex_finish (102 * second) "r2" "new answer" ex_d2 s1 in
  match (GetReply background ex_tenant_id "e1" 0 s2).2 with Ok r => r_Payload r | Err _ => "" end
    = "slow answer"%string
  ∧ match (GetMessage background ex_tenant_id "e1" s2).2 with Ok e => e_Status e | Err _ => "" end
    = EventFailed.
Proof. vm_compute. by split. Qed.
