(* ===== verification/Dispatch.v ===== *)
(** One execution, the rest of [trpcservice/gateway/dispatch.go]: a request is normalized,
    resolved to a plan, claimed, audited and run, and the events of the Runner are translated
    into a redacted stream, with the audit, hand-off, reply and lease settled at its end.

    The parties of an execution answer through [Peers]: the [n]-th call of the stream is
    answered by the [n]-th entry of the respective field.  What the dispatcher does to them is
    recorded in order as a trace of [effect]s.  The loop of [forward] is driven by the list of
    what it meets: a canceled context, an event of the Runner or the end of its channel.
    Metrics, spans and the third-party Runner are not modelled; plans, Runner leases and the
    Runner's events appear through what the dispatcher reads of them. *)
From Stdlib Require Import Ascii String.
From S2P Require Import Prelude GoStrings Plan Tenant Bindings Routing Registry Gateway RuntimeStore StoreTheorems Materializer AuditLog DispatchClaim.
Local Open Scope Z_scope.

(** * The dispatcher *)

Definition defaultDispatchDrainTimeout : duration := 250 * millisecond.

Record DispatchConfig := mkDispatchConfig {
  cfg_Resolver : option PlanResolver; cfg_Registry : option RunnerRegistry; cfg_DrainTimeout : duration;
  cfg_RuntimeStore : bool; cfg_Materializer : option Materializer; cfg_AuditWriter : bool;
  cfg_HandoffStore : bool }.
Record Dispatcher := mkDispatcher {
  resolver : option PlanResolver; registry : option RunnerRegistry; drainTimeout : duration;
  runtimeStore : bool; materializer : option Materializer; auditWriter : bool; handoffStore : bool }.

(** The audit writer is wrapped for its metrics, and is there when it was. *)
Definition NewDispatcher (config : DispatchConfig) : result (Gateway.error + merror) Dispatcher :=
  match cfg_Resolver config, cfg_Registry config with
  | Some _, Some _ =>
      let drain := if cfg_DrainTimeout config =? 0 then defaultDispatchDrainTimeout
                   else cfg_DrainTimeout config in
      if drain <? 0 then Err (inl Gateway.ErrInvalid)
      else
        m ← (match cfg_Materializer config with
             | None => if cfg_RuntimeStore config
                       then match NewMaterializer (mkMaterializerConfig (cfg_RuntimeStore config) 0) with
                            | Ok m => Ok (Some m)
                            | Err e => Err (inr e)
                            end
                       else Ok None
             | Some m => Ok (Some m)
             end);
        Ok (mkDispatcher (cfg_Resolver config) (cfg_Registry config) drain (cfg_RuntimeStore config) m
              (cfg_AuditWriter config) (cfg_HandoffStore config))
  | _, _ => Err (inl Gateway.ErrInvalid)
  end.

Definition dispatcher_Ready (dispatcher : option Dispatcher) : bool :=
  match dispatcher with
  | None => false
  | Some d =>
      Plan.Ready (resolver d)
      && match registry d with Some r => Registry.Ready r | None => false end
  end.

(** A dispatcher that was constructed can drain, materializes what its store keeps, and is
    ready as long as its resolver is complete and its registry open. *)
Lemma NewDispatcher_ok config d :
  NewDispatcher config = Ok d →
  0 < drainTimeout d ∧ (runtimeStore d = true → is_Some (materializer d))
  ∧ ∃ res reg, cfg_Resolver config = Some res ∧ cfg_Registry config = Some reg
    ∧ dispatcher_Ready (Some d) = Plan.Ready (Some res) && negb (Registry.closed reg).
Proof.
  unfold NewDispatcher. destruct (cfg_Resolver config) as [res|], (cfg_Registry config) as [reg|]; try done.
  cbv zeta. destruct (Z.ltb_spec (if cfg_DrainTimeout config =? 0 then defaultDispatchDrainTimeout
    else cfg_DrainTimeout config) 0) as [|Hd]; [done|].
  assert (0 < if cfg_DrainTimeout config =? 0 then defaultDispatchDrainTimeout else cfg_DrainTimeout config) as Hpos.
  { destruct (Z.eqb_spec (cfg_DrainTimeout config) 0); [done|lia]. }
  destruct (cfg_Materializer config), (cfg_RuntimeStore config); intros [= <-]; cbn; naive_solver.
Qed.

(** * Runner events *)

(** What the dispatcher reads of an event of the third-party Runner. *)
Record Choice := mkChoice { delta_content : string; message_content : string }.
Record Response := mkResponse {
  resp_error : bool; resp_done : bool; resp_partial : bool; choices : list Choice }.
(** A nil event, or one with a nil response. *)
Notation runner_event := (option (option Response)).

Definition DispatchEventMessage : string := "message".
Definition DispatchEventStatus : string := "status".
Definition DispatchEventError : string := "error".
Definition DispatchEventDone : string := "done".

Definition text_execution : string := "execution failed".
Definition text_canceled : string := "execution canceled".
Definition text_audit : string := "audit_write_failed".

Definition choice_text (c : Choice) : string :=
  if (delta_content c =? "")%string then message_content c else delta_content c.
Definition responseText (r : option Response) : string :=
  match r with
  | None => ""
  | Some r => String.concat "" (choice_text <$> choices r)
  end.

Definition error_event (requestID traceID text : string) : DispatchEvent :=
  mkDispatchEvent DispatchEventError requestID traceID "" "" text false.
Definition done_event (requestID traceID status : string) : DispatchEvent :=
  mkDispatchEvent DispatchEventDone requestID traceID "" status "" true.

Definition mapRunnerEvent (event : runner_event) (requestID traceID : string) : list DispatchEvent * bool :=
  let status s := mkDispatchEvent DispatchEventStatus requestID traceID "" s "" false in
  match event with
  | None | Some None => ([status "progress"], false)
  | Some (Some response) =>
      if resp_error response then
        ([error_event requestID traceID text_execution; done_event requestID traceID "error"], true)
      else
        let text := responseText (Some response) in
        let result := if (text =? "")%string then []
          else [mkDispatchEvent DispatchEventMessage requestID traceID text "" "" false] in
        if resp_done response then (result ++ [done_event requestID traceID "complete"], true)
        else match result with
             | [] => ([status (if resp_partial response then "partial" else "progress")], false)
             | _ => (result, false)
             end
  end.

(** * Identities *)

Definition normalizeCorrelationID (value : string) (generate : bool) (uuid : string)
    : result Gateway.error string :=
  if (value =? "")%string then Ok (if generate then uuid else "")
  else if (trim_space value =? "")%string || Gateway.hasControl value || (maxPrincipalIDRunes <? rune_count value)
  then Err Gateway.ErrInvalid
  else Ok value.

Definition encodeDispatchIdentity (parts : list string) : string := len_prefixed_all parts.

(** Errors of [channels] and [tenant], or an unauthenticated principal. *)
Inductive identity_error := IdentityUnauthenticated | IdentityChannel (e : Bindings.error) | IdentityTenant (e : Tenant.error).

Definition dispatchRunnerIdentity (principal : Principal) (message : InboundMessage)
    : result identity_error RunnerIdentity :=
  if (p_kind principal =? PrincipalChannel)%string then
    match Principal_RoutingTarget principal with
    | None => Err IdentityUnauthenticated
    | Some target =>
        map_error IdentityChannel (target_RunnerIdentity target (mkIdentityInput (m_ExternalUserID message)
          (m_ConversationKind message) (m_ExternalPeerID message) (m_ExternalChatID message)
          (m_ExternalThreadID message)))
    end
  else if (p_kind principal =? PrincipalAPI)%string then
    let conversation := if (m_ConversationKind message =? ConversationGroup)%string
                        then m_ExternalChatID message else m_ExternalPeerID message in
    let sessionID := encodeDispatchIdentity ["api"; p_appID principal; m_ConversationKind message; conversation;
                       m_ExternalThreadID message] in
    let userID := encodeDispatchIdentity ["api"; p_appID principal; p_subjectID principal] in
    map_error IdentityTenant (NewRunnerIdentity (p_tenantID principal) userID sessionID)
  else Err IdentityUnauthenticated.

(** * The stream *)

Inductive stream_error := SContext (e : ctx_error) | SExecution | SAuditWrite.
(** [IsContextCancellation]. *)
Definition is_cancellation (e : stream_error) : bool := match e with SContext _ => true | _ => false end.

Inductive effect :=
| Sent (e : DispatchEvent)
| Audited (e : AuditLog.Event) (ok : bool)
| Finalized (h : ExecutionHandoff) (ok : bool)
| Drained
| Settled (failed : bool) (reply : string)
| LeaseReleased
| Closed.

Record Peers := mkPeers {
  (* is there an audit writer, a hand-off store *)
  has_audit : bool; has_handoff : bool;
  (* a blocking send: taken, or the context is done first *)
  send_answer : nat → option ctx_error;
  (* a send that gives up when the buffer is full *)
  try_answer : nat → bool;
  audit_answer : nat → bool;
  handoff_answer : nat → bool;
  audit_clock : nat → stamp }.

Record stream := mkStream {
  calls : nat;
  auditFinalized : bool;
  reply : string;
  terminalErr : option stream_error;
  terminalEventType : string;
  terminalErrorType : string;
  trace : list effect }.

Definition new_stream : stream := mkStream 0 false "" None "" "" [].
Definition counted (effects : list effect) (s : stream) : stream :=
  mkStream (S (calls s)) (auditFinalized s) (reply s) (terminalErr s) (terminalEventType s) (terminalErrorType s)
    (trace s ++ effects).
Definition set_finalized (b : bool) (s : stream) : stream :=
  mkStream (calls s) b (reply s) (terminalErr s) (terminalEventType s) (terminalErrorType s) (trace s).
Definition set_reply (r : string) (s : stream) : stream :=
  mkStream (calls s) (auditFinalized s) r (terminalErr s) (terminalEventType s) (terminalErrorType s) (trace s).
Definition set_error (e : option stream_error) (s : stream) : stream :=
  mkStream (calls s) (auditFinalized s) (reply s) e (terminalEventType s) (terminalErrorType s) (trace s).
Definition set_terminal (eventType errorType : string) (s : stream) : stream :=
  mkStream (calls s) (auditFinalized s) (reply s) (terminalErr s) eventType errorType (trace s).

Section Execution.
Variable peers : Peers.
Variables (principal : Principal) (message : InboundMessage) (identity : RunnerIdentity).
Variables (requestID traceID : string).

(** The event that [writeExecutionAuditRevision] appends. *)
Definition execution_event (eventType errorType : string) (revision : option Z) (now : stamp) : AuditLog.Event :=
  let channel := match Principal_RoutingTarget principal with
                 | Some target => rt_Channel (target_fields target)
                 | None => p_kind principal
                 end in
  mkEvent SchemaVersion (NewEventID [requestID; eventType]) eventType (p_tenantID principal) channel
    (m_ExternalUserID message) (SessionID identity) (p_appID principal) revision "" "" "" None errorType None
    requestID traceID "" (p_kind principal) (p_subjectID principal) "" None None (to_utc now).

Definition writeExecutionAuditRevision (eventType errorType : string) (revision : option Z) (s : stream)
    : stream * bool :=
  if negb (has_audit peers) then (s, true)
  else
    let ok := audit_answer peers (calls s) in
    (counted [Audited (execution_event eventType errorType revision (audit_clock peers (calls s))) ok] s, ok).
Definition writeExecutionAudit (eventType errorType : string) := writeExecutionAuditRevision eventType errorType None.

(** The closure [finalizeAudit] of [forward]: true when it returns nil. *)
Definition finalizeAudit (eventType errorType : string) (s : stream) : stream * bool :=
  if auditFinalized s then (s, true)
  else
    let '(s1, ok) := writeExecutionAudit eventType errorType s in
    (if ok then set_finalized true s1 else s1, ok).

Definition handoff_record (state result errorType : string) : ExecutionHandoff :=
  mkHandoff (p_tenantID principal) (NewEventID [requestID; "handoff"]) "" "" "" state result errorType None None
    zero_time zero_time.

Definition finalizeHandoff (result errorType : string) (s : stream) : stream * bool :=
  if negb (has_handoff peers) then (s, true)
  else
    let ok := handoff_answer peers (calls s) in
    (counted [Finalized (handoff_record HandoffFinalized result errorType) ok] s, ok).

Definition sendDispatchEvent (e : DispatchEvent) (s : stream) : stream * option ctx_error :=
  match send_answer peers (calls s) with
  | None => (counted [Sent e] s, None)
  | Some cause => (counted [] s, Some cause)
  end.
Definition trySendDispatchEvent (e : DispatchEvent) (s : stream) : stream :=
  counted (if try_answer peers (calls s) then [Sent e] else []) s.
Definition drainRunnerEvents (s : stream) : stream := counted [Drained] s.

Definition finishAuditFailure (s : stream) : stream :=
  trySendDispatchEvent (done_event requestID traceID "error")
    (trySendDispatchEvent (error_event requestID traceID text_audit) (drainRunnerEvents s)).

Definition cancellationStatus (cause : ctx_error) : string :=
  match cause with DeadlineExceeded => "deadline_exceeded" | Canceled => "canceled" end.
Definition finishCanceled (cause : ctx_error) (s : stream) : stream :=
  trySendDispatchEvent (done_event requestID traceID (cancellationStatus cause))
    (trySendDispatchEvent (error_event requestID traceID text_canceled) (drainRunnerEvents s)).

(** [result] of the three handlers is the error that they return or leave in [terminalErr]. *)
Definition handleForwardCancellation (cause : ctx_error) (s : stream) : stream :=
  let '(s1, ok) := finalizeAudit EventExecutionCanceled ErrorCanceled s in
  if negb ok then set_error (Some SAuditWrite) (finishAuditFailure s1)
  else
    let '(s2, ok) := finalizeHandoff ResultCanceled ErrorCanceled s1 in
    if negb ok then set_error (Some SAuditWrite) (finishAuditFailure s2)
    else set_error (Some (SContext cause)) (finishCanceled cause s2).

Definition handleForwardStreamClosed (s : stream) : stream :=
  let '(s1, ok) := finalizeAudit EventExecutionCompleted "" s in
  if negb ok then set_error (Some SAuditWrite) (finishAuditFailure s1)
  else
    let '(s2, ok) := finalizeHandoff ResultSuccess "" s1 in
    if negb ok then set_error (Some SAuditWrite) (finishAuditFailure s2)
    else set_error None (trySendDispatchEvent (done_event requestID traceID "complete") s2).

Definition is_type (t : string) (e : DispatchEvent) : bool := (ev_Type e =? t)%string.

(** The first loop over the mapped events; an error is the cause of a failed send. *)
Fixpoint send_items (done : bool) (items : list DispatchEvent) (s : stream) : stream * option ctx_error :=
  match items with
  | [] => (s, None)
  | item :: items' =>
      if done && is_type DispatchEventDone item then send_items done items' s
      else
        let s := if is_type DispatchEventMessage item then set_reply (reply s ++ ev_Text item)%string s else s in
        let s := if is_type DispatchEventError item then set_error (Some SExecution) s else s in
        match sendDispatchEvent item s with
        | (s', Some cause) => (s', Some cause)
        | (s', None) => send_items done items' s'
        end
  end.

(** The last loop: the done events. *)
Fixpoint send_done (items : list DispatchEvent) (s : stream) : stream :=
  match items with
  | [] => s
  | item :: items' =>
      send_done items' (if is_type DispatchEventDone item then (sendDispatchEvent item s).1 else s)
  end.

(** True when the stream is over. *)
Definition handleForwardRunnerEvent (event : runner_event) (s : stream) : stream * bool :=
  let '(mapped, done) := mapRunnerEvent event requestID traceID in
  let '(s, audit_failed) :=
    if negb done then (s, false)
    else
      let failed := existsb (is_type DispatchEventError) mapped in
      let s := set_error (if failed then Some SExecution else None) s in
      let '(eventType, errorType) :=
        if failed then (EventExecutionFailed, ErrorUnavailable) else (EventExecutionCompleted, "") in
      let '(s, ok) := finalizeAudit eventType errorType (set_terminal eventType errorType s) in
      (s, negb ok) in
  if audit_failed then (finishAuditFailure (set_error (Some SExecution) s), true)
  else
    match send_items done mapped s with
    | (s, Some cause) => (drainRunnerEvents (set_error (Some (SContext cause)) s), true)
    | (s, None) =>
        if negb done then (s, false)
        else
          let result := if negb (opt_is_nil (terminalErr s)) then ResultFailure else ResultSuccess in
          let '(s, ok) := finalizeHandoff result (terminalErrorType s) s in
          if negb ok then (finishAuditFailure (set_error (Some SAuditWrite) s), true)
          else (drainRunnerEvents (send_done mapped s), true)
    end.

Definition terminalAuditError (e : option stream_error) : string :=
  match e with
  | None => ""
  | Some e => if is_cancellation e then ErrorCanceled else ErrorUnavailable
  end.

(** [finalizeForward] up to [finishDurable], which the [Settled] effect stands for. *)
Definition finalizeForward (s : stream) : stream :=
  let eventType :=
    if negb (terminalEventType s =? "")%string then terminalEventType s
    else match terminalErr s with
         | None => EventExecutionCompleted
         | Some e => if is_cancellation e then EventExecutionCanceled else EventExecutionFailed
         end in
  let errorType := if (terminalErrorType s =? "")%string then terminalAuditError (terminalErr s)
                   else terminalErrorType s in
  let result := match terminalErr s with
                | None => ResultSuccess
                | Some e => if is_cancellation e then ResultCanceled else ResultFailure
                end in
  let '(s, ok) := finalizeHandoff result errorType s in
  let s := if negb ok && opt_is_nil (terminalErr s) then set_error (Some SAuditWrite) s else s in
  let '(s, ok) := finalizeAudit eventType errorType s in
  let s := if negb ok && opt_is_nil (terminalErr s) then set_error (Some SExecution) s else s in
  counted [Settled (negb (opt_is_nil (terminalErr s))) (reply s)] s.

(** The deferred calls, last deferred first. *)
Definition finish_forward (s : stream) : stream := counted [LeaseReleased; Closed] (finalizeForward s).

(** What one round of the loop meets: [ctx.Err()] before or [ctx.Done()] in the select, an
    event of the Runner, the end of its channel. *)
Inductive stimulus := CtxDone (cause : ctx_error) | RunnerEvent (event : runner_event) | RunnerClosed.

(** [None]: the stream is still open after these stimuli. *)
Fixpoint forward_loop (stimuli : list stimulus) (s : stream) : option stream :=
  match stimuli with
  | [] => None
  | CtxDone cause :: _ =>
      Some (handleForwardCancellation cause (set_terminal EventExecutionCanceled ErrorCanceled s))
  | RunnerClosed :: _ => Some (handleForwardStreamClosed (set_terminal EventExecutionCompleted "" s))
  | RunnerEvent event :: stimuli' =>
      let '(s', over) := handleForwardRunnerEvent event s in
      if over then Some s' else forward_loop stimuli' s'
  end.

Definition forward (stimuli : list stimulus) : option stream :=
  finish_forward <$> forward_loop stimuli new_stream.
End Execution.

(** * Reading a trace *)

Definition sent_event (x : effect) : option DispatchEvent := match x with Sent e => Some e | _ => None end.
Definition accepted_audit (x : effect) : option string :=
  match x with Audited e true => Some (EventType e) | _ => None end.
Definition accepted_handoff (x : effect) : option string :=
  match x with Finalized h true => Some (h_Result h) | _ => None end.
Definition ending (x : effect) : option effect :=
  match x with Settled _ _ | LeaseReleased | Closed => Some x | _ => None end.

Definition sent (t : list effect) : list DispatchEvent := omap sent_event t.
Definition accepted_audits (t : list effect) : list string := omap accepted_audit t.
Definition accepted_handoffs (t : list effect) : list string := omap accepted_handoff t.
Definition endings (t : list effect) : list effect := omap ending t.
Definition texts (es : list DispatchEvent) : string := String.concat "" (ev_Text <$> es).

Section Streams.
Variable peers : Peers.
Variables (principal : Principal) (message : InboundMessage) (identity : RunnerIdentity).
Variables (requestID traceID : string).

Notation forward := (forward peers principal message identity requestID traceID).
Notation forward_loop := (forward_loop peers principal message identity requestID traceID).

(** An event that may leave the service: it carries the identifiers of the request, the only
    error texts are three constants, and each kind fills its own fields. *)
Definition redacted (e : DispatchEvent) : Prop :=
  ev_RequestID e = requestID ∧ ev_TraceID e = traceID
  ∧ ev_Error e ∈ [""; text_execution; text_canceled; text_audit]%string
  ∧ (ev_Done e = true ↔ ev_Type e = DispatchEventDone)
  ∧ (ev_Error e ≠ ""%string ↔ ev_Type e = DispatchEventError)
  ∧ ev_Type e ∈ [DispatchEventMessage; DispatchEventStatus; DispatchEventError; DispatchEventDone]
  ∧ (ev_Text e ≠ ""%string → ev_Type e = DispatchEventMessage).

(** A done event comes at most once and last. *)
Definition done_last (es : list DispatchEvent) : Prop :=
  ∃ body last, es = body ++ last ∧ Forall (λ e, ev_Done e = false) body
    ∧ (last = [] ∨ ∃ e, last = [e] ∧ ev_Done e = true).

(** The stream while its loop runs: only progress and messages were sent. *)
Record running (s : stream) : Prop := {
  run_error : terminalErr s = None;
  run_audit : auditFinalized s = false;
  run_type : terminalEventType s = ""%string;
  run_error_type : terminalErrorType s = ""%string;
  run_trace : trace s = Sent <$> sent (trace s);
  run_events : Forall redacted (sent (trace s));
  run_kinds : Forall (λ e, ev_Done e = false ∧ ev_Error e = ""%string) (sent (trace s));
  run_reply : reply s = texts (sent (trace s)) }.

(** The stream when its loop is over, before the deferred calls. *)
Record ended (s : stream) : Prop := {
  end_events : Forall redacted (sent (trace s));
  end_shape : done_last (sent (trace s));
  end_audit : accepted_audits (trace s)
    = if has_audit peers && auditFinalized s then [terminalEventType s] else [];
  end_open : endings (trace s) = [];
  end_success : terminalErr s = None →
    auditFinalized s = true ∧ terminalEventType s = EventExecutionCompleted
    ∧ reply s = texts (sent (trace s)) ∧ Forall (λ e, ev_Error e = ""%string) (sent (trace s))
    ∧ (has_handoff peers = true → ResultSuccess ∈ accepted_handoffs (trace s)) }.

Lemma texts_app es es' : texts (es ++ es') = (texts es ++ texts es')%string.
Proof.
  unfold texts. rewrite fmap_app. induction (ev_Text <$> es) as [|x l IH]; [done|].
  assert (∀ x l, String.concat "" (x :: l) = (x ++ String.concat "" l)%string) as Hc.
  { intros y [|z l']; [|done]. simpl. by rewrite string_app_nil_r. }
  simpl app. by rewrite !Hc, IH, string_app_assoc.
Qed.

Lemma new_stream_running : running new_stream.
Proof. split; simpl; try done; by constructor. Qed.

Lemma Sent_projections es :
  sent (Sent <$> es) = es ∧ accepted_audits (Sent <$> es) = [] ∧ accepted_handoffs (Sent <$> es) = []
  ∧ endings (Sent <$> es) = [].
Proof. induction es as [|e es (IH & ? & ? & ?)]; [done|]. csimpl. by rewrite IH. Qed.

Lemma redacted_error text :
  text ∈ [text_execution; text_canceled; text_audit] → redacted (error_event requestID traceID text).
Proof.
  intros Ht. unfold redacted, error_event. simpl. split_and!; [done|done|by right|done| |set_solver|done].
  split; [done|]. intros _ ->. repeat (apply elem_of_cons in Ht as [Hx|Ht]; [discriminate Hx|]).
  by apply not_elem_of_nil in Ht.
Qed.

Lemma redacted_done status : redacted (done_event requestID traceID status).
Proof. unfold redacted, done_event. simpl. split_and!; [done|done|left|done| |set_solver|done]. split; [by intros []|done]. Qed.

(** A stream that was running and then did [tail] is over. *)
Lemma ended_intro s0 s tail :
  running s0 → trace s = trace s0 ++ tail →
  Forall redacted (sent tail) → done_last (sent tail) → endings tail = [] →
  accepted_audits tail = (if has_audit peers && auditFinalized s then [terminalEventType s] else []) →
  (terminalErr s = None →
     auditFinalized s = true ∧ terminalEventType s = EventExecutionCompleted
     ∧ reply s = (reply s0 ++ texts (sent tail))%string ∧ Forall (λ e, ev_Error e = ""%string) (sent tail)
     ∧ (has_handoff peers = true → ResultSuccess ∈ accepted_handoffs tail)) →
  ended s.
Proof.
  intros R Ht Hr Hd He Ha Hs. destruct (Sent_projections (sent (trace s0))) as (P1 & P2 & P3 & P4).
  rewrite <- (run_trace _ R) in P1, P2, P3, P4. split; rewrite Ht.
  - unfold sent. rewrite omap_app. apply Forall_app. split; [apply R|done].
  - unfold sent. rewrite omap_app. fold (sent (trace s0)) (sent tail). destruct Hd as (body & last & Hd & Hb & Hl).
    exists (sent (trace s0) ++ body), last. split_and!; [|apply Forall_app; split; [|done]|done].
    + rewrite <- app_assoc. f_equal. exact Hd.
    + eapply Forall_impl; [apply (run_kinds _ R)|]. by intros e [].
  - unfold accepted_audits in *. by rewrite omap_app, P2, Ha.
  - unfold endings in *. by rewrite omap_app, P4, He.
  - intros Hn. destruct (Hs Hn) as (? & ? & Hre & Hf & Hh). split_and!; [done..| | |].
    + unfold sent. rewrite omap_app. rewrite texts_app, Hre. f_equal. apply R.
    + unfold sent. rewrite omap_app. apply Forall_app. split; [|done].
      eapply Forall_impl; [apply (run_kinds _ R)|]. by intros e [].
    + intros Hx. unfold accepted_handoffs in *. rewrite omap_app. apply elem_of_app. auto.
Qed.

Lemma done_last_nil : done_last [].
Proof. exists [], []. split_and!; [done|constructor|by left]. Qed.
Lemma done_last_snoc es e : Forall (λ e, ev_Done e = false) es → ev_Done e = true → done_last (es ++ [e]).
Proof. exists es, [e]. split_and!; [done|done|by right; eauto]. Qed.
Lemma done_last_open es : Forall (λ e, ev_Done e = false) es → done_last es.
Proof. exists es, []. split_and!; [by rewrite app_nil_r|done|by left]. Qed.

Definition status_event (status : string) : DispatchEvent :=
  mkDispatchEvent DispatchEventStatus requestID traceID "" status "" false.
Definition message_event (text : string) : DispatchEvent :=
  mkDispatchEvent DispatchEventMessage requestID traceID text "" "" false.

Lemma redacted_status status : redacted (status_event status).
Proof. unfold redacted. simpl. split_and!; [done|done|left|done| |set_solver|done]. split; [by intros []|done]. Qed.
Lemma redacted_message text : redacted (message_event text).
Proof. unfold redacted. simpl. split_and!; [done|done|left|done| |set_solver|done]. split; [by intros []|done]. Qed.

(** Run a handler with every answer decided, and collect what it appended to the trace. *)
Ltac run_handler :=
  unfold finalizeAudit, writeExecutionAudit, writeExecutionAuditRevision, finalizeHandoff, finishAuditFailure,
    finishCanceled, trySendDispatchEvent, drainRunnerEvents in *;
  simpl; repeat (case_match; simplify_eq/=); bool_prop.

(** The obligations of [ended_intro] for a concrete tail. *)
Ltac answers :=
  repeat match goal with
  | H : audit_answer _ _ = _ |- _ => rewrite H in *
  | H : handoff_answer _ _ = _ |- _ => rewrite H in *
  | H : has_audit _ = _ |- _ => rewrite H in *
  | H : has_handoff _ = _ |- _ => rewrite H in *
  | H : auditFinalized _ = _ |- _ => rewrite H in *
  end.
Ltac tail_events :=
  first [ apply done_last_nil
        | apply done_last_open; by repeat constructor
        | apply (done_last_snoc []); by repeat constructor
        | eapply (done_last_snoc [_]); by repeat constructor
        | eapply (done_last_snoc [_; _]); by repeat constructor ].
Ltac redacted_all :=
  repeat match goal with
  | |- Forall _ (_ :: _) => apply Forall_cons; split
  | |- Forall _ [] => apply Forall_nil_2
  | |- redacted (done_event _ _ _) => apply redacted_done
  | |- redacted (message_event _) => apply redacted_message
  | |- redacted (error_event _ _ _) => apply redacted_error; set_solver
  end.
Ltac over s :=
  eapply (ended_intro s);
    [done|simpl; rewrite <- ?app_assoc; simpl; reflexivity
    |simpl; redacted_all
    |simpl; tail_events|done|simpl; answers; by rewrite ?andb_false_r|simpl; try done].

Ltac success :=
  intros _; answers; split_and!;
    [done|done|unfold texts; simpl; by rewrite ?string_app_nil_r|simpl; by repeat constructor|intros; done || left].

Lemma cancellation_ended cause s :
  running s → ended (handleForwardCancellation peers principal message identity requestID traceID cause
    (set_terminal EventExecutionCanceled ErrorCanceled s)).
Proof.
  intros R. pose proof (run_audit _ R) as Ha. unfold handleForwardCancellation. run_handler; over s.
Qed.

Lemma closed_ended s :
  running s → ended (handleForwardStreamClosed peers principal message identity requestID traceID
    (set_terminal EventExecutionCompleted "" s)).
Proof.
  intros R. pose proof (run_audit _ R) as Ha. unfold handleForwardStreamClosed. run_handler; over s; success.
Qed.

Lemma mapRunnerEvent_cases event :
  (∃ status, mapRunnerEvent event requestID traceID = ([status_event status], false))
  ∨ (∃ text, mapRunnerEvent event requestID traceID = ([message_event text], false))
  ∨ mapRunnerEvent event requestID traceID
    = ([error_event requestID traceID text_execution; done_event requestID traceID "error"], true)
  ∨ mapRunnerEvent event requestID traceID = ([done_event requestID traceID "complete"], true)
  ∨ (∃ text, mapRunnerEvent event requestID traceID
       = ([message_event text; done_event requestID traceID "complete"], true)).
Proof.
  unfold mapRunnerEvent. destruct event as [[r|]|]; [|by left; eauto|by left; eauto].
  destruct (resp_error r); [by auto|]. destruct (responseText (Some r) =? "")%string, (resp_done r); simpl; eauto 6.
Qed.

Lemma set_reply_id s : set_reply (reply s) s = s.
Proof. by destruct s. Qed.

(** An event that goes on: what was sent is one progress or message event more. *)
Lemma running_send s e r :
  running s → redacted e → ev_Done e = false → ev_Error e = ""%string → r = (reply s ++ ev_Text e)%string →
  running (counted [Sent e] (set_reply r s)).
Proof.
  intros R He Hd Hn ->. destruct R. split; simpl; try done; unfold sent in *; rewrite omap_app; simpl.
  - rewrite fmap_app. simpl. by f_equal.
  - apply Forall_app. split; [done|]. by apply Forall_singleton.
  - apply Forall_app. split; [done|]. by apply Forall_singleton.
  - by rewrite texts_app, <- run_reply0.
Qed.

Lemma runner_event_step event s s' over :
  running s →
  handleForwardRunnerEvent peers principal message identity requestID traceID event s = (s', over) →
  if over then ended s' else running s'.
Proof.
  intros R. pose proof (run_audit _ R) as Ha. pose proof (run_error _ R) as He.
  unfold handleForwardRunnerEvent.
  destruct (mapRunnerEvent_cases event) as [(st & ->)|[(tx & ->)|[->|[->|(tx & ->)]]]]; simpl;
    unfold sendDispatchEvent; run_handler; intros; simplify_eq;
    match goal with
    | |- ended _ => over s; success
    | |- running (counted _ (set_reply _ _)) => by apply running_send; [|apply redacted_message|..]
    | |- _ => idtac
    end.
  rewrite <- (set_reply_id s) at 1. apply running_send; [done|apply redacted_status|done..|].
  by rewrite string_app_nil_r.
Qed.
Lemma forward_loop_ended stimuli s s' : running s → forward_loop stimuli s = Some s' → ended s'.
Proof.
  revert s. induction stimuli as [|x stimuli IH]; intros s R Hf; [done|].
  destruct x as [cause|event|]; simpl in Hf.
  - injection Hf as <-. by apply cancellation_ended.
  - destruct (handleForwardRunnerEvent _ _ _ _ _ _ _ _) as [s1 [|]] eqn:Hs;
      apply runner_event_step in Hs; try done; [by simplify_eq|by apply (IH s1)].
  - injection Hf as <-. by apply closed_ended.
Qed.

(** The two finalizers append to the trace, send nothing and end nothing. *)
Lemma finalizeHandoff_spec result errorType s s' ok :
  finalizeHandoff peers principal requestID result errorType s = (s', ok) →
  ∃ tail, trace s' = trace s ++ tail ∧ sent tail = [] ∧ endings tail = [] ∧ accepted_audits tail = []
    ∧ auditFinalized s' = auditFinalized s ∧ terminalErr s' = terminalErr s ∧ reply s' = reply s
    ∧ terminalEventType s' = terminalEventType s.
Proof.
  unfold finalizeHandoff. case_match; intros [= <- <-]; simpl.
  - exists []. by rewrite app_nil_r.
  - eexists. split_and!; [done|..]; done.
Qed.

Lemma finalizeAudit_spec eventType errorType s s' ok :
  finalizeAudit peers principal message identity requestID traceID eventType errorType s = (s', ok) →
  ∃ tail, trace s' = trace s ++ tail ∧ sent tail = [] ∧ endings tail = []
    ∧ accepted_audits tail = (if has_audit peers && ok && negb (auditFinalized s) then [eventType] else [])
    ∧ terminalErr s' = terminalErr s ∧ reply s' = reply s.
Proof.
  unfold finalizeAudit, writeExecutionAudit, writeExecutionAuditRevision. intros Hf.
  destruct (auditFinalized s).
  { injection Hf as <- <-. exists []. rewrite app_nil_r, !andb_false_r. done. }
  destruct (has_audit peers); simpl in Hf.
  - destruct (audit_answer peers (calls s)); injection Hf as <- <-; simpl; eexists; split_and!; done.
  - injection Hf as <- <-. exists []. by rewrite app_nil_r.
Qed.

(** The end of a stream: what the deferred calls make of it. *)
Lemma finish_forward_spec s :
  ended s →
  let s' := finish_forward peers principal message identity requestID traceID s in
  sent (trace s') = sent (trace s) ∧ (length (accepted_audits (trace s')) ≤ 1)%nat
  ∧ ∃ failed r, endings (trace s') = [Settled failed r; LeaseReleased; Closed]
     ∧ (failed = false → r = texts (sent (trace s)) ∧ Forall (λ e, ev_Error e = ""%string) (sent (trace s))
        ∧ (has_audit peers = true → accepted_audits (trace s') = [EventExecutionCompleted])
        ∧ (has_handoff peers = true → ResultSuccess ∈ accepted_handoffs (trace s'))).
Proof.
  intros E. pose proof (end_audit _ E) as Ha. pose proof (end_open _ E) as Ho.
  unfold finish_forward, finalizeForward.
  destruct (finalizeHandoff _ _ _ _ _ _) as [s1 ok1] eqn:H1.
  apply finalizeHandoff_spec in H1 as (t1 & Ht1 & Q1 & Q2 & Q3 & Q4 & Q5 & Q6 & _).
  set (s2 := if negb ok1 && _ then _ else s1).
  assert (trace s2 = trace s1 ∧ auditFinalized s2 = auditFinalized s1 ∧ reply s2 = reply s1
    ∧ (terminalErr s2 = None → terminalErr s = None)) as (T2 & F2 & R2 & N2)
    by (subst s2; destruct (negb ok1 && _); simpl; rewrite ?Q5; by split_and!).
  destruct (finalizeAudit _ _ _ _ _ _ _ _ s2) as [s3 ok3] eqn:H3.
  apply finalizeAudit_spec in H3 as (t3 & Ht3 & P1 & P2 & P3 & P5 & P6).
  set (s4 := if negb ok3 && _ then _ else s3).
  assert (trace s4 = trace s3 ∧ reply s4 = reply s3 ∧ (terminalErr s4 = None → terminalErr s = None))
    as (T4 & R4 & N4) by (subst s4; destruct (negb ok3 && _); simpl; rewrite ?P5; split_and!; auto; done).
  cbv zeta. simpl. rewrite T4, Ht3, T2, Ht1. rewrite F2, Q4 in P3.
  unfold sent, accepted_audits, endings, accepted_handoffs in *. rewrite !omap_app, Q1, Q2, Q3, P1, P2, P3, Ha, Ho. simpl.
  rewrite !app_nil_r. split_and!; [done| |].
  { destruct (has_audit peers), (auditFinalized s), ok3; simpl; lia. }
  do 2 eexists. split; [done|]. intros Hf.
  destruct (end_success _ E) as (F & Ty & Re & Er & Hh).
  { apply N4. by destruct (terminalErr s4). }
  split_and!; [by rewrite R4, P6, R2, Q6|done| |].
  - intros Hp. by rewrite Hp, F, Ty, andb_false_r.
  - intros Hp. pose proof (Hh Hp) as Hin. unfold accepted_handoffs in Hin. rewrite ?omap_app, !elem_of_app. tauto.
Qed.

(** * Theorems *)

Lemma forward_shape stimuli s :
  forward stimuli = Some s → Forall redacted (sent (trace s)) ∧ done_last (sent (trace s))
  ∧ (length (accepted_audits (trace s)) ≤ 1)%nat.
Proof.
  unfold Dispatch.forward. intros Hf.
  destruct (forward_loop stimuli new_stream) as [s0|] eqn:Hl; [|done]. injection Hf as <-.
  pose proof (forward_loop_ended _ _ _ new_stream_running Hl) as E.
  destruct (finish_forward_spec s0 E) as (-> & Hn & _). split_and!; [apply E|apply E|done].
Qed.

(** The durable message is settled as successful only with the streamed text. *)
Lemma forward_settled stimuli s :
  forward stimuli = Some s →
  ∃ failed r, endings (trace s) = [Settled failed r; LeaseReleased; Closed]
     ∧ (failed = false →
        r = texts (sent (trace s)) ∧ Forall (λ e, ev_Error e = ""%string) (sent (trace s))
        ∧ (has_audit peers = true → accepted_audits (trace s) = [EventExecutionCompleted])
        ∧ (has_handoff peers = true → ResultSuccess ∈ accepted_handoffs (trace s))).
Proof.
  unfold Dispatch.forward. intros Hf.
  destruct (forward_loop stimuli new_stream) as [s0|] eqn:Hl; [|done]. injection Hf as <-.
  pose proof (forward_loop_ended _ _ _ new_stream_running Hl) as E.
  destruct (finish_forward_spec s0 E) as (Hs & _ & Hend). rewrite Hs. exact Hend.
Qed.

(** C27: the event stream of an execution is sound.  Whatever the Runner produces, whichever
    sends, audit writes and hand-offs fail, and whenever the context ends: every event that
    leaves carries the identifiers of the request and no error text but three constants; a
    done event comes at most once and last; at most one terminal audit fact is accepted; and
    at the end the durable message is settled once, the Runner lease released and the channel
    closed, in this order.  It is settled as successful only if no error was sent, the
    completion was audited and handed off, and with exactly the text that was streamed. *)
Theorem stream_sound stimuli s :
  forward stimuli = Some s →
  Forall redacted (sent (trace s)) ∧ done_last (sent (trace s))
  ∧ (length (accepted_audits (trace s)) ≤ 1)%nat
  ∧ ∃ failed r, endings (trace s) = [Settled failed r; LeaseReleased; Closed]
     ∧ (failed = false →
        r = texts (sent (trace s)) ∧ Forall (λ e, ev_Error e = ""%string) (sent (trace s))
        ∧ (has_audit peers = true → accepted_audits (trace s) = [EventExecutionCompleted])
        ∧ (has_handoff peers = true → ResultSuccess ∈ accepted_handoffs (trace s))).
Proof.
  intros Hf. destruct (forward_shape _ _ Hf) as (? & ? & ?). pose proof (forward_settled _ _ Hf). by split_and!.
Qed.
(** * Termination *)

Lemma runner_event_goes_on event s s' over :
  handleForwardRunnerEvent peers principal message identity requestID traceID event s = (s', over) →
  if over then (mapRunnerEvent event requestID traceID).2 = true ∨ send_answer peers (calls s) ≠ None
  else (mapRunnerEvent event requestID traceID).2 = false ∧ send_answer peers (calls s) = None
       ∧ calls s' = S (calls s).
Proof.
  unfold handleForwardRunnerEvent.
  destruct (mapRunnerEvent_cases event) as [(st & ->)|[(tx & ->)|[->|[->|(tx & ->)]]]]; simpl;
    unfold sendDispatchEvent; simpl.
  1,2: destruct (send_answer peers (calls s)); intros [= <- <-]; eauto.
  all: intros Hs; destruct over; [by left|exfalso];
    repeat (destruct (finalizeAudit _ _ _ _ _ _ _ _) as [? []] in Hs || destruct (finalizeHandoff _ _ _ _ _ _) as [? []] in Hs
            || destruct (send_answer _ _) in Hs; simpl in Hs; try discriminate Hs).
Qed.

(** A stream goes on exactly as long as the Runner produces events that do not end it,
    the context lives and the consumer takes what is sent: the first stimulus of any other
    kind ends it.  In particular a canceled context, a closed Runner channel, an error or a
    final response always end the execution. *)
Theorem stream_terminates stimuli :
  forward stimuli = None ↔
  ∀ i x, stimuli !! i = Some x →
    ∃ event, x = RunnerEvent event ∧ (mapRunnerEvent event requestID traceID).2 = false
             ∧ send_answer peers i = None.
Proof.
  unfold Dispatch.forward. rewrite fmap_None.
  assert (∀ s, forward_loop stimuli s = None ↔ ∀ i x, stimuli !! i = Some x →
    ∃ event, x = RunnerEvent event ∧ (mapRunnerEvent event requestID traceID).2 = false
             ∧ send_answer peers (calls s + i)%nat = None) as Hl; [|apply (Hl new_stream)].
  induction stimuli as [|x stimuli IH]; intros s; [done|]. split.
  - intros Hn i y Hy. destruct x as [cause|event|]; simpl in Hn; try done.
    destruct (handleForwardRunnerEvent _ _ _ _ _ _ _ _) as [s' [|]] eqn:Hs; [done|].
    apply runner_event_goes_on in Hs as (Hd & Ha & Hc). destruct i as [|i]; simpl in Hy.
    + injection Hy as <-. rewrite Nat.add_0_r. eauto.
    + destruct (proj1 (IH s') Hn i y Hy) as (e & ? & ? & ?). exists e. split_and!; try done.
      by rewrite <- Nat.add_succ_comm, <- Hc.
  - intros Hall. destruct (Hall 0%nat x eq_refl) as (event & -> & Hd & Ha). rewrite Nat.add_0_r in Ha. simpl.
    destruct (handleForwardRunnerEvent _ _ _ _ _ _ _ _) as [s' [|]] eqn:Hs;
      apply runner_event_goes_on in Hs; [by destruct Hs; congruence|]. destruct Hs as (_ & _ & Hc).
    apply IH. intros i y Hy. rewrite Hc, Nat.add_succ_comm. by apply (Hall (S i)).
Qed.
End Streams.

(** * Starting an execution *)

Inductive dispatch_error :=
| DGateway (e : Gateway.error) | DIdentity (e : identity_error) | DClaim (e : DispatchClaim.error)
| DRegistry (e : Registry.error) | DRunnerUnavailable | DExecution | DAuditWriteFailed | DContext (e : ctx_error).

Record DispatchRequest := mkRequest {
  dr_Principal : Principal; dr_Message : InboundMessage; dr_RequestID : string; dr_TraceID : string;
  (* is there a channel to notify *)
  dr_Accepted : bool }.

(** What the dispatcher reads of a plan: the selected revision and the app's canary. *)
Record plan_view := mkPlan { plan_revision : Z; plan_canary : option Z }.
(** [Runner.Run]: an error, which may be a cancellation, a nil channel, or a channel. *)
Inductive run_answer := RunError (cancellation : option ctx_error) | RunNil | RunStarted.

(** The answers of the parties to one request: the resolver, the audit writer for the three
    kinds of facts, the hand-off store, the registry (does the lease hold a Runner) and the
    Runner; and the identifiers drawn on the way.  [present] says that dispatcher, resolver
    and registry are not nil. *)
Record Parties := mkParties {
  present : bool;
  resolve : result Gateway.error plan_view;
  dp_audit : option (string → bool);
  dp_reserve : option bool;
  acquire : result Registry.error bool;
  start : run_answer;
  dp_clock : stamp;
  new_request_id : string; new_event_id : string; new_owner_id : string }.

(** [AcceptedNotified] is a send that gives up when nobody waits. *)
Inductive action :=
| InboundClaimed (d : durableExecution)
| AuditWritten (e : AuditLog.Event) (ok : bool)
| HandoffReserved (h : ExecutionHandoff) (ok : bool)
| AcceptedNotified
| LeaseAcquired
| LeaseReturned
| DurableFailed (d : durableExecution)
| RunnerStarted.

Definition normalizeDispatchRequest (ctx : context) (request : DispatchRequest) (uuid : string)
    : result Gateway.error (InboundMessage * string * string) :=
  match ctx with
  | None => Err Gateway.ErrInvalid
  | Some c =>
      match c 0%nat with
      | Some e => Err (Gateway.ErrContext e)
      | None =>
          if negb (is_ok (Principal_Validate (dr_Principal request))) then Err Gateway.ErrUnauthenticated
          else
            message ← Gateway.Normalize (dr_Message request);
            requestID ← normalizeCorrelationID (dr_RequestID request) true uuid;
            traceID ← normalizeCorrelationID (dr_TraceID request) false "";
            Ok (message, requestID, traceID)
      end
  end.

Section Start.
Context `{Codec}.
Variable env : Env.
Variable parties : Parties.
Variable has_store : bool.
Notation World := (RuntimeStore.Store * nat)%type.
Notation outcome := (World * list action * result dispatch_error (option durableExecution))%type.

Definition write_audit (principal : Principal) (message : InboundMessage) (identity : RunnerIdentity)
    (requestID traceID eventType errorType : string) (revision : option Z) : list action * bool :=
  match dp_audit parties with
  | None => ([], true)
  | Some answer =>
      ([AuditWritten (execution_event principal message identity requestID traceID eventType errorType revision
          (dp_clock parties)) (answer eventType)], answer eventType)
  end.

Definition fail_durable (durable : option durableExecution) : list action :=
  match durable with Some d => [DurableFailed d] | None => [] end.

Definition reserve_handoff (principal : Principal) (requestID traceID : string) : list action * bool :=
  match dp_reserve parties with
  | None => ([], true)
  | Some ok =>
      ([HandoffReserved (mkHandoff (p_tenantID principal) (NewEventID [requestID; "handoff"]) requestID traceID
          (NewEventID [requestID; EventExecutionStarted]) HandoffPending "" "" None None zero_time zero_time) ok], ok)
  end.

(** The end of a request that was accepted but cannot run: fail the durable message, write
    the terminal fact, and fail the message again when that write fails. *)
Definition abandon (write : string → string → list action * bool) (durable : option durableExecution)
    (eventType errorType : string) (err : dispatch_error) (log : list action) (w : World) : outcome :=
  let w := failDurable env durable w in
  let '(written, ok) := write eventType errorType in
  if ok then (w, log ++ fail_durable durable ++ written, Err err)
  else (failDurable env durable w, log ++ fail_durable durable ++ written ++ fail_durable durable,
        Err DAuditWriteFailed).

(** From the registry on. *)
Definition run_plan (write : string → string → list action * bool) (durable : option durableExecution)
    (log : list action) (w : World) : outcome :=
  match acquire parties with
  | Err e => abandon write durable EventExecutionFailed ErrorUnavailable (DRegistry e) log w
  | Ok false =>
      abandon write durable EventExecutionFailed ErrorUnavailable DRunnerUnavailable
        (log ++ [LeaseAcquired; LeaseReturned]) w
  | Ok true =>
      match start parties with
      | RunError (Some cause) =>
          abandon write durable EventExecutionCanceled ErrorCanceled (DContext cause)
            (log ++ [LeaseAcquired; LeaseReturned]) w
      | RunError None | RunNil =>
          abandon write durable EventExecutionFailed ErrorUnavailable DExecution
            (log ++ [LeaseAcquired; LeaseReturned]) w
      | RunStarted => (w, log ++ [LeaseAcquired; RunnerStarted], Ok durable)
      end
  end.

(** From the claim on. *)
Definition run_claimed (principal : Principal) (message : InboundMessage) (identity : RunnerIdentity)
    (requestID traceID : string) (accepted : bool) (plan : plan_view) (durable : option durableExecution)
    (w : World) : outcome :=
  let write := write_audit principal message identity requestID traceID in
  let claimed := match durable with Some d => [InboundClaimed d] | None => [] end in
  let '(canary, ok) :=
    if bool_decide (plan_canary plan = Some (plan_revision plan))
    then write EventCanarySelected "" (Some (plan_revision plan)) else ([], true) in
  let canary := claimed ++ canary in
  if negb ok then (failDurable env durable w, canary ++ fail_durable durable, Err DAuditWriteFailed)
  else
    let '(started, ok) := write EventExecutionStarted "" None in
    if negb ok then (failDurable env durable w, canary ++ started ++ fail_durable durable, Err DAuditWriteFailed)
    else
      let '(reserved, ok) := reserve_handoff principal requestID traceID in
      if negb ok then (w, canary ++ started ++ reserved, Err DAuditWriteFailed)
      else
        run_plan (λ eventType errorType, write eventType errorType None) durable
          (canary ++ started ++ reserved ++ (if accepted then [AcceptedNotified] else [])) w.

Definition Dispatch (ctx : context) (request : DispatchRequest) (w : World) : outcome :=
  if negb (present parties) then (w, [], Err (DGateway ErrNotReady))
  else
  match normalizeDispatchRequest ctx request (new_request_id parties) with
  | Err e => (w, [], Err (DGateway e))
  | Ok (message, requestID, traceID) =>
      let principal := dr_Principal request in
      match resolve parties with
      | Err e => (w, [], Err (DGateway e))
      | Ok plan =>
          match dispatchRunnerIdentity principal message with
          | Err e => (w, [], Err (DIdentity e))
          | Ok identity =>
              match claimInbound env has_store principal message identity (new_event_id parties)
                      (new_owner_id parties) w with
              | (w, Err e) => (w, [], Err (DClaim e))
              | (w, Ok durable) =>
                  run_claimed principal message identity requestID traceID (dr_Accepted request) plan durable w
              end
          end
      end
  end.
End Start.

(** * What a request leaves behind *)

Definition lease_change (a : action) : Z :=
  match a with LeaseAcquired => 1 | LeaseReturned => -1 | _ => 0 end.
Fixpoint leases (log : list action) : Z :=
  match log with [] => 0 | a :: log' => lease_change a + leases log' end.

Lemma leases_app l1 l2 : leases (l1 ++ l2) = leases l1 + leases l2.
Proof. induction l1 as [|a l1 IH]; simpl; lia. Qed.

(** The log of a failed request. *)
Definition cleaned_up (audited : bool) (log : list action) : Prop :=
  leases log = 0 ∧ RunnerStarted ∉ log
  ∧ (∀ d, InboundClaimed d ∈ log → DurableFailed d ∈ log ∨ ∃ h, HandoffReserved h false ∈ log)
  ∧ (AcceptedNotified ∈ log → audited = true → ∃ e ok, AuditWritten e ok ∈ log
       ∧ EventType e ∈ [EventExecutionFailed; EventExecutionCanceled]).

(** The log of a request that started its Runner. *)
Definition started_up (audited : bool) (durable : option durableExecution) (log : list action) : Prop :=
  leases log = 1 ∧ RunnerStarted ∈ log
  ∧ (∀ d, InboundClaimed d ∈ log ↔ durable = Some d) ∧ (∀ d, DurableFailed d ∉ log)
  ∧ (audited = true → ∃ e, AuditWritten e true ∈ log ∧ EventType e = EventExecutionStarted).

Section StartTheorems.
Context `{Codec}.
Variable env : Env.
Variable parties : Parties.
Variable has_store : bool.

Ltac no_member :=
  unfold not; intros;
  repeat match goal with
  | H : _ ∈ _ :: _ |- _ => apply elem_of_cons in H as [H|H]
  | H : _ ∈ [] |- _ => by apply not_elem_of_nil in H
  end; by simplify_eq.

Notation audited := (negb (opt_is_nil (dp_audit parties))).

(** A log without a running Runner or an open lease, of a request that claimed [durable]. *)
Definition quiet (durable : option durableExecution) (log : list action) : Prop :=
  leases log = 0 ∧ RunnerStarted ∉ log ∧ ∀ d, InboundClaimed d ∈ log → durable = Some d.

Lemma quiet_app durable l1 l2 : quiet durable l1 → quiet durable l2 → quiet durable (l1 ++ l2).
Proof.
  intros (? & ? & ?) (? & ? & ?). unfold quiet. rewrite leases_app, elem_of_app. split_and!; [lia|tauto|].
  intros d. rewrite elem_of_app. naive_solver.
Qed.

Lemma quiet_write durable principal message identity requestID traceID eventType errorType revision l ok :
  write_audit parties principal message identity requestID traceID eventType errorType revision = (l, ok) →
  quiet durable l ∧ AcceptedNotified ∉ l ∧ (∀ d, DurableFailed d ∉ l)
  ∧ (audited = true → ∃ e, AuditWritten e ok ∈ l ∧ EventType e = eventType).
Proof.
  unfold write_audit, quiet. destruct (dp_audit parties) as [answer|]; intros [= <- <-]; simpl.
  - split_and!; try done; [no_member..|]. intros _. eexists. split; [left|done].
  - split_and!; try done; no_member.
Qed.

Lemma quiet_fail durable : quiet durable (fail_durable durable) ∧ AcceptedNotified ∉ fail_durable durable.
Proof. unfold quiet. destruct durable as [d|]; simpl; split_and!; try done; no_member. Qed.

Lemma cleaned_intro durable log :
  quiet durable log →
  (∀ d, durable = Some d → DurableFailed d ∈ log ∨ ∃ h, HandoffReserved h false ∈ log) →
  (AcceptedNotified ∈ log → audited = true → ∃ e ok, AuditWritten e ok ∈ log
     ∧ EventType e ∈ [EventExecutionFailed; EventExecutionCanceled]) →
  cleaned_up audited log.
Proof. intros (? & ? & Hc) Hd Ha. split_and!; auto. Qed.

Lemma abandon_outcome principal message identity requestID traceID durable eventType errorType err log w w' log' r :
  eventType ∈ [EventExecutionFailed; EventExecutionCanceled] → quiet durable log →
  abandon env (λ ty et, write_audit parties principal message identity requestID traceID ty et None)
    durable eventType errorType err log w = (w', log', r) →
  (∃ e, r = Err e) ∧ cleaned_up audited log'.
Proof.
  intros Hty Hq. unfold abandon. destruct (write_audit _ _ _ _ _ _ _ _ _) as [written ok] eqn:Hw.
  destruct (quiet_write durable _ _ _ _ _ _ _ _ _ _ Hw) as (Hqw & _ & _ & Hwa).
  destruct (quiet_fail durable) as [Hqf _].
  assert (∀ rest, quiet durable rest → cleaned_up audited (log ++ fail_durable durable ++ written ++ rest)) as Hclean.
  { intros rest Hqr. apply (cleaned_intro durable).
    - by repeat apply quiet_app.
    - intros d ->. left. rewrite !elem_of_app. right. left. left.
    - intros _ Ha. destruct (Hwa Ha) as (e & He & <-). exists e, ok. rewrite !elem_of_app. auto. }
  destruct ok; intros [= <- <- <-]; split; eauto.
  rewrite <- (app_nil_r written). apply Hclean. split_and!; [done|no_member..].
Qed.

Lemma run_plan_outcome principal message identity requestID traceID durable log w w' log' r :
  quiet durable log → (∀ d, durable = Some d → InboundClaimed d ∈ log) → (∀ d, DurableFailed d ∉ log) →
  (audited = true → ∃ e, AuditWritten e true ∈ log ∧ EventType e = EventExecutionStarted) →
  run_plan env parties (λ ty et, write_audit parties principal message identity requestID traceID ty et None)
    durable log w = (w', log', r) →
  match r with
  | Err _ => cleaned_up audited log'
  | Ok durable' => durable' = durable ∧ started_up audited durable log'
  end.
Proof.
  intros Hq Hc Hd Ha. unfold run_plan.
  assert (quiet durable (log ++ [LeaseAcquired; LeaseReturned])) as Hq'.
  { apply quiet_app; [done|]. split_and!; [done|no_member..]. }
  assert (EventExecutionFailed ∈ [EventExecutionFailed; EventExecutionCanceled]) as M1 by left.
  assert (EventExecutionCanceled ∈ [EventExecutionFailed; EventExecutionCanceled]) as M2 by (right; left).
  destruct (acquire parties) as [[]|e]; [destruct (start parties) as [[cause|]| |]|..];
    try (intros Hr; apply abandon_outcome in Hr as ((err & ->) & ?); done).
  intros [= <- <- <-]. split; [done|]. destruct Hq as (Hl & _ & Hi). split_and!.
  - rewrite leases_app, Hl. done.
  - rewrite elem_of_app. right. right. left.
  - intros d. rewrite elem_of_app. split; [|by auto]. intros [?|?]; [auto|no_member].
  - intros d. rewrite elem_of_app. intros [?|?]; [by eapply Hd|no_member].
  - intros Hau. destruct (Ha Hau) as (e & ? & ?). exists e. rewrite elem_of_app. auto.
Qed.
Lemma run_claimed_outcome principal message identity requestID traceID accepted plan durable w w' log r :
  run_claimed env parties principal message identity requestID traceID accepted plan durable w = (w', log, r) →
  match r with
  | Err _ => cleaned_up audited log
  | Ok durable' => durable' = durable ∧ started_up audited durable log
  end.
Proof.
  unfold run_claimed. destruct (if bool_decide _ then _ else _) as [canary ok0] eqn:Hcan.
  set (claimed := match durable with Some d => [InboundClaimed d] | None => [] end).
  assert (quiet durable claimed ∧ AcceptedNotified ∉ claimed ∧ (∀ d, DurableFailed d ∉ claimed)
    ∧ ∀ d, durable = Some d → InboundClaimed d ∈ claimed) as (Q1 & A1 & D1 & C1).
  { subst claimed. destruct durable as [d|]; (split_and!; [split_and!; [done|no_member..]|no_member..|]);
      [intros ? [= ->]; left|done]. }
  assert (quiet durable canary ∧ AcceptedNotified ∉ canary ∧ (∀ d, DurableFailed d ∉ canary)) as (Q2 & A2 & D2).
  { case_bool_decide; [by apply (quiet_write durable) in Hcan as (? & ? & ? & _)|].
    injection Hcan as <- <-. split_and!; [split_and!; [done|no_member..]|no_member..]. }
  destruct (quiet_fail durable) as [Qf Af].
  assert (∀ d, durable = Some d → DurableFailed d ∈ fail_durable durable) as Hf by (intros d ->; left).
  assert (∀ l, quiet durable l → AcceptedNotified ∉ l → (∀ d, durable = Some d → DurableFailed d ∈ l
    ∨ ∃ h, HandoffReserved h false ∈ l) → cleaned_up audited l) as Hclean
    by (intros l ???; by apply (cleaned_intro durable)).
  destruct ok0; simpl.
  2:{ intros [= <- <- <-]. apply Hclean; [by repeat apply quiet_app|by rewrite !elem_of_app; tauto|].
      intros d Hd. left. rewrite !elem_of_app. auto. }
  destruct (write_audit _ _ _ _ _ _ EventExecutionStarted _ _) as [started ok1] eqn:Hst.
  apply (quiet_write durable) in Hst as (Q3 & A3 & D3 & W3). destruct ok1; simpl.
  2:{ intros [= <- <- <-]. apply Hclean; [by repeat apply quiet_app|by rewrite !elem_of_app; tauto|].
      intros d Hd. left. rewrite !elem_of_app. auto. }
  destruct (reserve_handoff _ _ _ _) as [reserved ok2] eqn:Hre.
  assert (quiet durable reserved ∧ AcceptedNotified ∉ reserved ∧ (∀ d, DurableFailed d ∉ reserved)
    ∧ (ok2 = false → ∃ h, HandoffReserved h false ∈ reserved)) as (Q4 & A4 & D4 & R4).
  { unfold reserve_handoff in Hre. destruct (dp_reserve parties) as [[]|]; injection Hre as <- <-;
      (split_and!; [split_and!; [done|no_member..]|no_member..|]); try done. intros _. eexists. left. }
  destruct ok2; simpl.
  2:{ intros [= <- <- <-]. apply Hclean; [by repeat apply quiet_app|by rewrite !elem_of_app; tauto|].
      intros d Hd. right. destruct (R4 eq_refl) as [h ?]. exists h. rewrite !elem_of_app. auto. }
  apply run_plan_outcome.
  - repeat apply quiet_app; try done. destruct accepted; split_and!; done || no_member.
  - intros d Hd. rewrite !elem_of_app. auto.
  - intros d. rewrite !elem_of_app. intros [[Hd|Hd]|[Hd|[Hd|Hd]]];
      [by eapply D1|by eapply D2|by eapply D3|by eapply D4|]. destruct accepted; no_member.
  - intros Ha. destruct (W3 Ha) as (e & ? & ?). exists e. rewrite !elem_of_app. auto.
Qed.
End StartTheorems.

(** C28: a request that is refused leaves nothing behind.  When [Dispatch] returns an error,
    whatever part of the start failed: no Runner lease stays acquired and no Runner runs; a
    durable message that it had claimed was failed again, unless the hand-off store refused
    the reservation; and a request that was already reported as accepted gets a terminal
    audit fact.  When it succeeds, exactly one lease is held, the Runner runs, the claim is
    handed to the stream, and the start was audited. *)
Theorem dispatch_leaves_nothing `{Codec} env parties has_store ctx request w w' log r :
  Dispatch env parties has_store ctx request w = (w', log, r) →
  match r with
  | Err _ => cleaned_up (negb (opt_is_nil (dp_audit parties))) log
  | Ok durable => started_up (negb (opt_is_nil (dp_audit parties))) durable log
  end.
Proof.
  assert (cleaned_up (negb (opt_is_nil (dp_audit parties))) []) as Hnil.
  { split_and!; [done|apply not_elem_of_nil|by intros d ?%not_elem_of_nil|by intros ?%not_elem_of_nil]. }
  unfold Dispatch. destruct (present parties); [cbn [negb]|by intros [= <- <- <-]].
  destruct (normalizeDispatchRequest _ _ _) as [[[message requestID] traceID]|]; [|by intros [= <- <- <-]].
  destruct (resolve parties); [|by intros [= <- <- <-]].
  destruct (dispatchRunnerIdentity _ _); [|by intros [= <- <- <-]].
  destruct (claimInbound _ _ _ _ _ _ _ _) as [w1 [durable|]]; [|by intros [= <- <- <-]].
  intros Hr. apply run_claimed_outcome in Hr. destruct r; [by destruct Hr as [-> ?]|done].
Qed.

(** * Witnesses and examples *)

#[local] Instance ex_codec : Codec := {|
  json_value := string;
  json_valid d := negb (str_empty d);
  json_unmarshal d := Some d;
  NormalizeTraceParent v := v
|}.

Definition ex_stamp : stamp := mkStamp (63835596800 * second) true.
(** A consumer that takes everything, and an audit writer that answers as told. *)
Definition ex_peers (audit : nat → bool) : Peers :=
  mkPeers true true (λ _, None) (λ _, true) audit (λ _, true) (λ _, ex_stamp).
Definition ex_text (text : string) (done : bool) : stimulus :=
  RunnerEvent (Some (Some (mkResponse false done false [mkChoice text ""]))).
Definition ex_forward (audit : nat → bool) (stimuli : list stimulus) : option stream :=
  forward (ex_peers audit) ex_channel ex_inbound (mkRunnerIdentity "u" "s") "r1" "" stimuli.
Definition ex_stimuli : list stimulus := [ex_text "hi " false; RunnerEvent None; ex_text "there" true].
Definition ex_stream : stream := match ex_forward (λ _, true) ex_stimuli with Some s => s | None => new_stream end.

Lemma stream_sound_witness :
  endings (trace ex_stream) = [Settled false "hi there"; LeaseReleased; Closed]
  ∧ texts (sent (trace ex_stream)) = "hi there"%string ∧ done_last (sent (trace ex_stream)).
Proof.
  assert (ex_forward (λ _, true) ex_stimuli = Some ex_stream) as Hf by (vm_compute; reflexivity).
  destruct (stream_sound (ex_peers (λ _, true)) ex_channel ex_inbound (mkRunnerIdentity "u" "s") "r1" ""
    ex_stimuli ex_stream Hf) as (_ & Hd & _ & _).
  split_and!; [vm_compute; reflexivity|vm_compute; reflexivity|exact Hd].
Defined.

(** The audit of a completed response fails once and is repeated by the deferred calls: the
    caller is told that the audit failed and the durable message fails, while the log says
    that the execution completed. *)
Example failed_execution_audited_completed :
  match ex_forward (λ n, negb (n =? 0)%nat) [ex_text "hi" true] with
  | Some s => accepted_audits (trace s) = [EventExecutionCompleted]
      ∧ endings (trace s) = [Settled true ""; LeaseReleased; Closed]
      ∧ ev_Error <$> sent (trace s) = [text_audit; ""]
  | None => False
  end.
Proof. vm_compute. by split_and!. Qed.

Definition ex_parties (reserved : bool) (acquired : result Registry.error bool) : Parties :=
  mkParties true (Ok (mkPlan 3 (Some 3))) (Some (λ _, true)) (Some reserved) acquired RunStarted ex_stamp "r1" "e1" "g1".
Definition ex_request : DispatchRequest := mkRequest ex_channel ex_inbound "" "" true.
Definition ex_dispatch (reserved : bool) (acquired : result Registry.error bool) :=
  Dispatch (ex_env 1000) (ex_parties reserved acquired) true background ex_request (newStore, O).

Lemma dispatch_leaves_nothing_witness :
  cleaned_up true (ex_dispatch true (Err Registry.ErrRunnerCapacity)).1.2
  ∧ length (ex_dispatch true (Err Registry.ErrRunnerCapacity)).1.2 = 7%nat.
Proof.
  split; [|vm_compute; reflexivity].
  assert (∃ e, ex_dispatch true (Err Registry.ErrRunnerCapacity) =
    ((ex_dispatch true (Err Registry.ErrRunnerCapacity)).1.1, (ex_dispatch true (Err Registry.ErrRunnerCapacity)).1.2,
     Err e)) as (e & Hd).
  { exists (DRegistry Registry.ErrRunnerCapacity).
    assert ((ex_dispatch true (Err Registry.ErrRunnerCapacity)).2 = Err (DRegistry Registry.ErrRunnerCapacity)) as <-
      by (vm_compute; reflexivity). by rewrite <- !surjective_pairing. }
  exact (dispatch_leaves_nothing _ _ _ _ _ _ _ _ _ Hd).
Defined.

(** The one path that forgets the claim: when the hand-off cannot be reserved, the request is
    refused and the message stays claimed, so redeliveries are turned away as duplicates
    until the lease runs out. *)
Example refused_handoff_keeps_claim :
  let w := (ex_dispatch false (Ok true)).1.1 in
  match (ex_dispatch false (Ok true)).2 with Err DAuditWriteFailed => True | _ => False end
  ∧ match (GetMessage background ex_tenant_id "e1" w.1).2 with Ok e => e_Status e | Err _ => "" end = EventRunning
  ∧ match (ex_dispatch true (Ok true)).2 with Ok (Some d) => d_eventID d | _ => "" end = "e1"%string
  ∧ (ex_claim 2000 "e2" "g2" w).2 = Err duplicate_message.
Proof. vm_compute. by split_and!. Qed.
