(* ===== verification/Http.v ===== *)
(** The HTTP surface of the gateway, [trpcservice/gateway/http.go]: routing, readiness and
    shutdown, and a chat request from its headers to its JSON or server-sent answer.

    A request passes through phases; every phase ends with at most one atomic action on the
    state that requests share (the limiter and the idempotency store), so a run of the server
    is a sequence of arrivals and steps of requests in any order.  The parties of a request
    (authenticator, dispatcher, context, clocks, connection) answer through its [exchange].
    Spans and metrics are not modelled; the writes that fail are not part of the output, and
    the events of a stream count as written when the stream is over. *)
From Stdlib Require Import Ascii String.
From S2P Require Import Prelude GoStrings GoJson Sha256 Tenant Bindings Routing Registry Gateway RuntimeStore StoreTheorems Materializer AuditLog DispatchClaim Dispatch.
Local Open Scope Z_scope.

(** * Media types *)

(** [strings.TrimLeftFunc] with [unicode.IsSpace], and the classes of [mime]. *)
Definition trim_left (l : list Z) : list Z := join_chunks (drop_space (chunks l)).
Definition is_tspecial (b : Z) : bool := existsb (Z.eqb b) [40; 41; 60; 62; 64; 44; 59; 58; 92; 34; 47; 91; 93; 63; 61].
Definition is_token_char (b : Z) : bool := (32 <? b) && (b <? 127) && negb (is_tspecial b).

Fixpoint consume_token (l : list Z) : list Z * list Z :=
  match l with
  | b :: l' => if is_token_char b then let '(t, rest) := consume_token l' in (b :: t, rest) else ([], l)
  | [] => ([], [])
  end.

(** The rest of a quoted string; [None] when it has no end. *)
Fixpoint consume_quoted (l : list Z) : option (list Z * list Z) :=
  match l with
  | [] => None
  | b :: l1 =>
      if b =? 34 then Some ([], l1)
      else
        match l1 with
        | c :: l2 =>
            if (b =? 92) && is_tspecial c then '(v, t) ← consume_quoted l2; Some (c :: v, t)
            else if (b =? 13) || (b =? 10) then None
            else '(v, t) ← consume_quoted l1; Some (b :: v, t)
        | [] => None
        end
  end.

(** A value and what follows; [None] when nothing was consumed. *)
Definition consume_value (l : list Z) : option (list Z * list Z) :=
  match l with
  | [] => None
  | b :: l' =>
      if b =? 34 then consume_quoted l'
      else match consume_token l with ([], _) => None | p => Some p end
  end.

Definition cut_byte (b : Z) (l : list Z) : option (list Z) :=
  match l with c :: l' => if c =? b then Some l' else None | [] => None end.

Definition consume_param (l : list Z) : option (list Z * list Z * list Z) :=
  l ← cut_byte 59 (trim_left l);
  let '(name, l) := consume_token (trim_left l) in
  match name with
  | [] => None
  | _ =>
      l ← cut_byte 61 (trim_left l);
      '(value, l) ← consume_value (trim_left l);
      Some (lower_rune <$> name, value, l)
  end.

(** The parameters of a media type: a name may repeat with the same value, and a last
    semicolon is ignored. *)
Fixpoint params_ok (fuel : nat) (seen : list (list Z * list Z)) (l : list Z) : bool :=
  match fuel with
  | O => false
  | S fuel =>
      match trim_left l with
      | [] => true
      | l =>
          match consume_param l with
          | None => bool_decide (join_chunks (trim_chunks (chunks l)) = [59])
          | Some (name, value, rest) =>
              if existsb (λ p, bool_decide (p.1 = name) && negb (bool_decide (p.2 = value))) seen then false
              else params_ok fuel ((name, value) :: seen) rest
          end
      end
  end.

Fixpoint before_byte (b : Z) (l : list Z) : list Z :=
  match l with c :: l' => if c =? b then [] else c :: before_byte b l' | [] => [] end.

(** [mime.ParseMediaType] succeeds with application/json. *)
Definition isJSONContentType (value : string) : bool :=
  let base := before_byte 59 (bytes value) in
  let params := drop (length base) (bytes value) in
  (trim_space (to_lower (string_of_bytes base)) =? "application/json")%string
  && params_ok (S (length params)) [] params.

Example content_types :
  isJSONContentType <$> ["application/json"; " Application/JSON ; charset=utf-8"; "application/json;";
    "application/json; a=1; A=1"; "application/json; a=1; a=2"; "application/json; a"; "application/jsonp"; ""]%string
  = [true; true; true; true; false; false; false; false].
Proof. vm_compute. reflexivity. Qed.

(** * Requests, answers and errors *)

(** [rq_Header] is [Header.Get]; the body may break off before its end. *)
Record request := mkHTTPRequest {
  rq_Method : string; rq_Path : string; rq_Header : string → string; rq_Body : string; rq_complete : bool }.

(** What a handler does to the response. *)
Inductive write := SetHeader (name value : string) | WriteHeader (status : Z) | Write (data : string) | Flush.

(** An error of a party: its text, and the sentinels that [errors.Is] finds in it. *)
Inductive sentinel :=
| IsCanceled | IsDeadlineExceeded | IsUnauthenticated | IsInvalid | IsRateLimited | IsDuplicateMessage
| IsNotReady | IsClosed | IsIdempotencyCapacity | IsAuditWriteFailed | IsExecution | IsPlanUnavailable
| IsRunnerUnavailable.
#[export] Instance sentinel_eq_dec : EqDecision sentinel.
Proof. solve_decision. Defined.
Record go_error := mkGoError { ge_text : string; ge_is : list sentinel }.
Definition errors_Is (e : go_error) (s : sentinel) : bool := bool_decide (s ∈ ge_is e).

Definition context_error (e : ctx_error) : go_error :=
  match e with
  | Canceled => mkGoError "context canceled" [IsCanceled]
  | DeadlineExceeded => mkGoError "context deadline exceeded" [IsDeadlineExceeded]
  end.
Definition gateway_error (e : Gateway.error) : go_error :=
  match e with
  | Gateway.ErrInvalid => mkGoError "invalid gateway input" [IsInvalid]
  | Gateway.ErrUnauthenticated => mkGoError "gateway authentication failed" [IsUnauthenticated]
  | Gateway.ErrPlanUnavailable => mkGoError "execution plan unavailable" [IsPlanUnavailable]
  | Gateway.ErrNotReady => mkGoError "gateway is not ready" [IsNotReady]
  | Gateway.ErrClosed => mkGoError "gateway is closed" [IsClosed]
  | Gateway.ErrRateLimited => mkGoError "tenant rate limit exceeded" [IsRateLimited]
  | Gateway.ErrDuplicateMessage => mkGoError "duplicate message" [IsDuplicateMessage]
  | Gateway.ErrIdempotencyCapacity => mkGoError "idempotency store capacity exhausted" [IsIdempotencyCapacity]
  | Gateway.ErrContext e => context_error e
  end.

Definition mapHTTPError (err : option go_error) : Z * string :=
  match err with
  | None => (500, "gateway error")
  | Some e =>
      if errors_Is e IsCanceled then (408, "request canceled")
      else if errors_Is e IsDeadlineExceeded then (504, "request deadline exceeded")
      else if errors_Is e IsUnauthenticated then (401, "unauthenticated")
      else if errors_Is e IsInvalid then (400, "invalid request")
      else if errors_Is e IsRateLimited then (429, "rate limited")
      else if errors_Is e IsDuplicateMessage then (409, "duplicate message")
      else if errors_Is e IsNotReady || errors_Is e IsClosed then (503, "not ready")
      else if errors_Is e IsIdempotencyCapacity then (503, "gateway capacity unavailable")
      else if errors_Is e IsAuditWriteFailed then (502, text_audit)
      else if errors_Is e IsExecution || errors_Is e IsPlanUnavailable || errors_Is e IsRunnerUnavailable
        then (502, "execution failed")
      else (500, "gateway error")
  end%string.

Definition newline : string := String (byte_of 10) "".

(** [json.Encoder.Encode] ends its value with a newline. *)
Definition writeJSON (status : Z) (value : string) : list write :=
  [SetHeader "Content-Type" "application/json"; WriteHeader status; Write (value ++ newline)].

Definition omit_empty (name value : string) : list (string * flat) :=
  if (value =? "")%string then [] else [(name, FString value)].

Record httpErrorResponse := mkErrorResponse { er_RequestID : string; er_TraceID : string; er_Error : string }.
Definition error_json (r : httpErrorResponse) : string :=
  flat_object ([("request_id"%string, FString (er_RequestID r))] ++ omit_empty "trace_id" (er_TraceID r)
    ++ [("error"%string, FString (er_Error r))]).
Definition writeError (status : Z) (message requestID traceID : string) : list write :=
  writeJSON status (error_json (mkErrorResponse requestID traceID message)).
Definition writeMappedError (requestID traceID : string) (err : go_error) : list write :=
  let '(status, message) := mapHTTPError (Some err) in writeError status message requestID traceID.

Record chatResponse := mkChatResponse {
  cr_RequestID : string; cr_TraceID : string; cr_Text : string; cr_Status : string; cr_Error : string; cr_Done : bool }.
Definition response_json (r : chatResponse) : string :=
  flat_object ([("request_id"%string, FString (cr_RequestID r))] ++ omit_empty "trace_id" (cr_TraceID r)
    ++ omit_empty "text" (cr_Text r) ++ [("status"%string, FString (cr_Status r))]
    ++ omit_empty "error" (cr_Error r) ++ [("done"%string, FBool (cr_Done r))]).

(** * Events *)

Definition add_event (r : chatResponse) (e : DispatchEvent) : chatResponse :=
  let status := if (ev_Status e =? "")%string then cr_Status r else ev_Status e in
  if (ev_Type e =? DispatchEventMessage)%string then
    mkChatResponse (cr_RequestID r) (cr_TraceID r) (cr_Text r ++ ev_Text e) (cr_Status r) (cr_Error r) (cr_Done r)
  else if (ev_Type e =? DispatchEventStatus)%string then
    mkChatResponse (cr_RequestID r) (cr_TraceID r) (cr_Text r) status (cr_Error r) (cr_Done r)
  else if (ev_Type e =? DispatchEventError)%string then
    mkChatResponse (cr_RequestID r) (cr_TraceID r) (cr_Text r) "error" (ev_Error e) (cr_Done r)
  else if (ev_Type e =? DispatchEventDone)%string then
    mkChatResponse (cr_RequestID r) (cr_TraceID r) (cr_Text r) status (cr_Error r) (ev_Done e)
  else r.
Definition finalChatResponse (requestID traceID : string) (events : list DispatchEvent) : chatResponse :=
  foldl add_event (mkChatResponse requestID traceID "" "complete" "" true) events.
Definition writeFinalResponse (requestID traceID : string) (events : list DispatchEvent) : list write :=
  writeJSON 200 (response_json (finalChatResponse requestID traceID events)).

Definition rebind (requestID traceID : string) (e : DispatchEvent) : DispatchEvent :=
  mkDispatchEvent (ev_Type e) requestID traceID (ev_Text e) (ev_Status e) (ev_Error e) (ev_Done e).
Definition rebindDispatchEvents (events : list DispatchEvent) (requestID traceID : string) : list DispatchEvent :=
  rebind requestID traceID <$> events.

Definition event_json (e : DispatchEvent) : string :=
  flat_object ([("type"%string, FString (ev_Type e)); ("request_id"%string, FString (ev_RequestID e))]
    ++ omit_empty "trace_id" (ev_TraceID e) ++ omit_empty "text" (ev_Text e) ++ omit_empty "status" (ev_Status e)
    ++ omit_empty "error" (ev_Error e) ++ [("done"%string, FBool (ev_Done e))]).
Definition writeSSEEvent (e : DispatchEvent) : string :=
  ("event: " ++ ev_Type e ++ newline ++ "data: " ++ event_json e ++ newline ++ newline)%string.

(** What a reader of the event channel meets next. *)
Inductive receive := Received (e : DispatchEvent) | ChannelClosed | ContextDone (cause : ctx_error).

(** [None]: nothing to receive yet. *)
Fixpoint collect (receives : list receive) (collected : list DispatchEvent) : option (result go_error (list DispatchEvent)) :=
  match receives with
  | [] => None
  | Received e :: rest => collect rest (collected ++ [e])
  | ChannelClosed :: _ => Some (Ok collected)
  | ContextDone cause :: _ => Some (Err (context_error cause))
  end.
Definition collectHTTPEvents (receives : list receive) := collect receives [].

(** The events to record in the claim, if the stream completed. *)
Fixpoint stream_loop (write_ok : nat → bool) (receives : list receive) (collected : list DispatchEvent)
    : option (list write * option (list DispatchEvent)) :=
  match receives with
  | [] => None
  | Received e :: rest =>
      let collected' := collected ++ [e] in
      if negb (write_ok (length collected)) then Some ([], None)
      else
        let out := [Write (writeSSEEvent e); Flush] in
        if ev_Done e then Some (out, Some collected')
        else '(more, completed) ← stream_loop write_ok rest collected'; Some (out ++ more, completed)
  | ChannelClosed :: _ => Some ([], match collected with [] => None | _ => Some collected end)
  | ContextDone _ :: _ => Some ([], None)
  end.
Definition writeStream (write_ok : nat → bool) (receives : list receive)
    : option (list write * option (list DispatchEvent)) :=
  '(out, completed) ← stream_loop write_ok receives [];
  Some ([SetHeader "Content-Type" "text/event-stream; charset=utf-8"; SetHeader "Cache-Control" "no-cache";
         SetHeader "Connection" "keep-alive"; WriteHeader 200; Flush] ++ out, completed).

Fixpoint replay_loop (write_ok : nat → bool) (n : nat) (events : list DispatchEvent) : list write :=
  match events with
  | [] => []
  | e :: rest => if negb (write_ok n) then [] else [Write (writeSSEEvent e); Flush] ++ replay_loop write_ok (S n) rest
  end.
Definition writeReplayStream (flusher : bool) (write_ok : nat → bool) (events : list DispatchEvent) : list write :=
  if negb flusher then writeError 500 "gateway error" "" ""
  else [SetHeader "Content-Type" "text/event-stream; charset=utf-8"; SetHeader "Cache-Control" "no-cache";
        WriteHeader 200] ++ replay_loop write_ok 0 events.

(** * Messages *)

Definition requestIDHeader : string := "X-Request-ID".
Definition traceIDHeader : string := "X-Trace-ID".

(** The identifiers come back with the error, as far as they were read. *)
Definition requestCorrelation (rq : request) (uuid : string) : string * string * bool :=
  match normalizeCorrelationID (rq_Header rq requestIDHeader) true uuid with
  | Err _ => (""%string, ""%string, false)
  | Ok requestID =>
      match normalizeCorrelationID (rq_Header rq traceIDHeader) false "" with
      | Err _ => (requestID, ""%string, false)
      | Ok traceID => (requestID, traceID, true)
      end
  end.

Definition chat_fields : list string :=
  ["content"; "content_type"; "external_message_id"; "external_user_id"; "conversation_kind"; "external_peer_id";
   "external_chat_id"; "external_thread_id"]%string.
Definition set_field (name value : string) (m : InboundMessage) : InboundMessage :=
  let pick field old := if (name =? field)%string then value else old in
  mkMessage (pick "content"%string (m_Content m)) (pick "content_type"%string (m_ContentType m))
    (pick "external_message_id"%string (m_ExternalMessageID m)) (pick "external_user_id"%string (m_ExternalUserID m))
    (pick "conversation_kind"%string (m_ConversationKind m)) (pick "external_peer_id"%string (m_ExternalPeerID m))
    (pick "external_chat_id"%string (m_ExternalChatID m)) (pick "external_thread_id"%string (m_ExternalThreadID m)).
Definition empty_message : InboundMessage := mkMessage "" "" "" "" "" "" "" "".

(** A member with an unknown name or a value that is neither a string nor null is an error;
    null leaves the field alone, and the last of several members wins. *)
Definition decode_member (acc : option InboundMessage) (member : string * jvalue) : option InboundMessage :=
  m ← acc;
  name ← find_field chat_fields member.1;
  match member.2 with
  | JString s => Some (set_field name s m)
  | JNull => Some m
  | _ => None
  end.
Definition decode_chat (v : jvalue) : option InboundMessage :=
  match v with
  | JNull => Some empty_message
  | JObject members => foldl decode_member (Some empty_message) members
  | _ => None
  end.

(** Reading fails on a body that breaks off or is longer than the limit. *)
Definition decodeMessage (maxBodyBytes : Z) (rq : request) : result Gateway.error InboundMessage :=
  if negb (isJSONContentType (rq_Header rq "Content-Type")) then Err Gateway.ErrInvalid
  else if negb (rq_complete rq) || (maxBodyBytes <? len (rq_Body rq)) then Err Gateway.ErrInvalid
  else match json_document (rq_Body rq) ≫= decode_chat with
       | None => Err Gateway.ErrInvalid
       | Some input => Gateway.Normalize input
       end.

(** * The handler *)

Definition defaultHTTPMaxBodyBytes : Z := 1048576.
Definition defaultHTTPRequestTimeout : duration := 30 * second.

(** Of the dispatcher, the authenticator and the readiness function the configuration holds
    whether they are given. *)
Record HTTPConfig := mkHTTPConfig {
  cf_Dispatcher : bool; cf_Authenticator : bool; cf_Admin : option (request → list write);
  cf_WeCom : option (request → list write); cf_Ready : bool; cf_Limiter : option TenantLimiter;
  cf_Idempotency : option IdempotencyStore; cf_MaxBodyBytes : Z; cf_RequestTimeout : duration }.

Record HTTPHandler := mkHTTPHandler {
  dispatcher : bool; authenticator : bool; admin : option (request → list write);
  wecom : option (request → list write); custom_ready : bool; maxBodyBytes : Z; requestTimeout : duration;
  ownLimiter : bool; ownIdempotency : bool }.

(** What the requests share. *)
Record shared := mkShared { limiter : TenantLimiter; idempotency : IdempotencyStore; draining : bool }.

Definition NewHTTPHandler (config : HTTPConfig) : result Gateway.error (HTTPHandler * shared) :=
  let maxBody := if cf_MaxBodyBytes config =? 0 then defaultHTTPMaxBodyBytes else cf_MaxBodyBytes config in
  _ ← guard_ok (negb (maxBody <? 1)) Gateway.ErrInvalid;
  let timeout := if cf_RequestTimeout config =? 0 then defaultHTTPRequestTimeout else cf_RequestTimeout config in
  _ ← guard_ok (negb (timeout <? 0)) Gateway.ErrInvalid;
  l ← match cf_Limiter config with Some l => Ok l | None => NewTenantLimiter (mkLimiterConfig 0 0 0) end;
  i ← match cf_Idempotency config with Some i => Ok i | None => NewIdempotencyStore (mkIdempotencyConfig 0 0) end;
  Ok (mkHTTPHandler (cf_Dispatcher config) (cf_Authenticator config) (cf_Admin config) (cf_WeCom config)
        (cf_Ready config) maxBody timeout (opt_is_nil (cf_Limiter config)) (opt_is_nil (cf_Idempotency config)),
      mkShared l i false).

(** The answers that a request gets at one of its steps: from the readiness function, the
    identifier generator, the authenticator, the context and the clock of the step, the
    dispatcher and the connection. *)
Record exchange := mkExchange {
  x_ready : bool;
  x_uuid : string;
  x_authenticate : request → result go_error AuthenticatedAPI;
  x_ctx : context;
  x_clock : clock;
  x_dispatch : DispatchRequest → result go_error (option (list receive));
  x_flusher : bool;
  x_write : nat → bool }.

(** [ready] is the function of the configuration or tells whether the parties are given. *)
Definition ready (h : HTTPHandler) (x : exchange) : bool :=
  if custom_ready h then x_ready x else dispatcher h && authenticator h.
Definition Ready (h : HTTPHandler) (x : exchange) (s : shared) : bool :=
  if draining s || negb (dispatcher h) || negb (authenticator h) then false
  else if negb (Limiter_Ready (limiter s)) || negb (Idempotency_Ready (idempotency s)) then false
  else ready h x.

Definition BeginShutdown (s : shared) : shared := mkShared (limiter s) (idempotency s) true.
Definition Close (h : HTTPHandler) (s : shared) : shared :=
  let s := BeginShutdown s in
  mkShared (if ownLimiter h then Limiter_Close (limiter s) else limiter s)
    (if ownIdempotency h then Idempotency_Close (idempotency s) else idempotency s) (draining s).

Definition MethodGet : string := "GET".
Definition MethodPost : string := "POST".
Definition method_not_allowed (allowed : string) : list write :=
  SetHeader "Allow" allowed :: writeError 405 "method not allowed" "" "".
Definition write_text (text : string) : list write :=
  [SetHeader "Content-Type" "text/plain; charset=utf-8"; WriteHeader 200; Write (text ++ newline)].

Definition health (rq : request) : list write :=
  if negb (rq_Method rq =? MethodGet)%string then method_not_allowed MethodGet else write_text "ok".
Definition readyz (h : HTTPHandler) (x : exchange) (s : shared) (rq : request) : list write :=
  if negb (rq_Method rq =? MethodGet)%string then method_not_allowed MethodGet
  else if negb (Ready h x s) then writeError 503 "not ready" "" ""
  else write_text "ready".

(** * A chat request, phase by phase *)

(** Everything up to the limiter: an answer, or the identifiers, the principal and the
    message of the request. *)
Definition admission : Type := (string * string * Principal * InboundMessage)%type.
Definition chat_enter (h : HTTPHandler) (x : exchange) (s : shared) (rq : request) : list write + admission :=
  if negb (rq_Method rq =? MethodPost)%string then inl (method_not_allowed MethodPost)
  else
    let '(requestID, traceID, ok) := requestCorrelation rq (x_uuid x) in
    if negb ok then inl (writeError 400 "invalid request correlation" requestID traceID)
    else if negb (Ready h x s) then inl (writeError 503 "not ready" requestID traceID)
    else
      match x_authenticate x rq with
      | Err e => inl (writeMappedError requestID traceID e)
      | Ok authenticated =>
          match newAPIPrincipal authenticated with
          | Err e => inl (writeMappedError requestID traceID (gateway_error e))
          | Ok principal =>
              match decodeMessage (maxBodyBytes h) rq with
              | Err e => inl (writeMappedError requestID traceID (gateway_error e))
              | Ok m =>
                  let id := if (m_ExternalMessageID m =? "")%string then requestID else m_ExternalMessageID m in
                  inr (requestID, traceID, principal,
                    mkMessage (m_Content m) (m_ContentType m) id (m_ExternalUserID m) (m_ConversationKind m)
                      (m_ExternalPeerID m) (m_ExternalChatID m) (m_ExternalThreadID m))
              end
          end
      end.

(** What the request does while it holds a claim: the answer, and the events to record when
    it completed; [None] while it waits for events. *)
Definition chat_execute (x : exchange) (stream : bool) (a : admission)
    : option (list write * option (list DispatchEvent)) :=
  let '(requestID, traceID, principal, message) := a in
  match x_dispatch x (mkRequest principal message requestID traceID false) with
  | Err e => Some (writeMappedError requestID traceID e, None)
  | Ok None => Some (writeError 502 "execution failed" requestID traceID, None)
  | Ok (Some receives) =>
      if stream then
        if negb (x_flusher x) then Some (writeError 500 "streaming unavailable" requestID traceID, None)
        else writeStream (x_write x) receives
      else
        match collectHTTPEvents receives with
        | None => None
        | Some (Err e) => Some (writeMappedError requestID traceID e, None)
        | Some (Ok events) => Some (writeFinalResponse requestID traceID events, Some events)
        end
  end.

Inductive phase :=
| Entering
| Accepted (a : admission)
| Leased (a : admission) (lease : TenantLimitLease)
| Claimed (a : admission) (lease : TenantLimitLease) (claim : IdempotencyClaim)
| Leaving (lease : TenantLimitLease)
| Gone.

(** The deferred [Fail] does nothing to a claim that was completed. *)
Definition settle_claim (completed : option (list DispatchEvent)) (clk : clock) (claim : IdempotencyClaim)
    (s : IdempotencyStore) : IdempotencyStore :=
  match completed with
  | Some events => (Complete events clk claim s).1
  | None => (Fail_ clk claim s).1
  end.

(** One step of a request: the shared state, the next phase and what was written. *)
Definition advance (h : HTTPHandler) (x : exchange) (rq : request) (stream : bool) (ph : phase) (s : shared)
    : shared * phase * list write :=
  match ph with
  | Entering =>
      match chat_enter h x s rq with
      | inl out => (s, Gone, out)
      | inr a => (s, Accepted a, [])
      end
  | Accepted (requestID, traceID, principal, message) =>
      match Acquire (x_ctx x) (x_clock x) (p_tenantID principal) (limiter s) with
      | (l, Ok lease) => (mkShared l (idempotency s) (draining s), Leased (requestID, traceID, principal, message) lease, [])
      | (l, Err e) => (mkShared l (idempotency s) (draining s), Gone, writeMappedError requestID traceID (gateway_error e))
      end
  | Leased (requestID, traceID, principal, message) lease =>
      match Begin (x_ctx x) (x_clock x) principal message (idempotency s) with
      | (i, Ok (inl claim)) =>
          (mkShared (limiter s) i (draining s), Claimed (requestID, traceID, principal, message) lease claim, [])
      | (i, Ok (inr replay)) =>
          let replay := rebindDispatchEvents replay requestID traceID in
          (mkShared (limiter s) i (draining s), Leaving lease,
           if stream then writeReplayStream (x_flusher x) (x_write x) replay
           else writeFinalResponse requestID traceID replay)
      | (i, Err e) =>
          (mkShared (limiter s) i (draining s), Leaving lease, writeMappedError requestID traceID (gateway_error e))
      end
  | Claimed a lease claim =>
      match chat_execute x stream a with
      | None => (s, Claimed a lease claim, [])
      | Some (out, completed) =>
          (mkShared (limiter s) (settle_claim completed (x_clock x) claim (idempotency s)) (draining s), Leaving lease, out)
      end
  | Leaving lease => (mkShared (Release lease (limiter s)).1 (idempotency s) (draining s), Gone, [])
  | Gone => (s, Gone, [])
  end.

(** [ServeHTTP] up to the first step of a chat: the whole answer of another path, or whether
    the chat streams. *)
Definition ServeHTTP (h : HTTPHandler) (x : exchange) (s : shared) (rq : request) : list write + bool :=
  let not_found := writeError 404 "not found" "" "" in
  let serve (o : option (request → list write)) := match o with None => not_found | Some f => f rq end in
  if has_prefix (rq_Path rq) "/wecom/callback/" then inl (serve (wecom h))
  else if (rq_Path rq =? "/admin/v1")%string || has_prefix (rq_Path rq) "/admin/v1/" then inl (serve (admin h))
  else if (rq_Path rq =? "/healthz")%string then inl (health rq)
  else if (rq_Path rq =? "/readyz")%string then inl (readyz h x s rq)
  else if (rq_Path rq =? "/v1/chat")%string then inr false
  else if (rq_Path rq =? "/v1/chat/stream")%string then inr true
  else inl not_found.

(** [httpStatusWriter]: the first status that was written, 200 when a body came first, and 0
    when nothing was. *)
Definition status_write (status : Z) (w : write) : Z :=
  match w with
  | WriteHeader code => if status =? 0 then code else status
  | Write _ => if status =? 0 then 200 else status
  | _ => status
  end.
Definition observed_status (out : list write) : Z := foldl status_write 0 out.

(** * The server *)

Record session := mkSession { ss_request : request; ss_stream : bool; ss_phase : phase; ss_out : list write }.
Record server := mkServer { sv_shared : shared; sv_sessions : list session }.

Inductive server_op :=
| OArrive (rq : request) (x : exchange)
| OAdvance (i : nat) (x : exchange)
| OShutdown
| OClose.

Definition advance_session (h : HTTPHandler) (x : exchange) (ss : session) (s : shared) : shared * session :=
  let '(s', ph, out) := advance h x (ss_request ss) (ss_stream ss) (ss_phase ss) s in
  (s', mkSession (ss_request ss) (ss_stream ss) ph (ss_out ss ++ out)).

Definition server_exec (h : HTTPHandler) (o : server_op) (sv : server) : server :=
  match o with
  | OArrive rq x =>
      let ss := match ServeHTTP h x (sv_shared sv) rq with
                | inl out => mkSession rq false Gone out
                | inr stream => mkSession rq stream Entering []
                end in
      mkServer (sv_shared sv) (sv_sessions sv ++ [ss])
  | OAdvance i x =>
      match sv_sessions sv !! i with
      | None => sv
      | Some ss => let p := advance_session h x ss (sv_shared sv) in mkServer p.1 (<[i := p.2]> (sv_sessions sv))
      end
  | OShutdown => mkServer (BeginShutdown (sv_shared sv)) (sv_sessions sv)
  | OClose => mkServer (Close h (sv_shared sv)) (sv_sessions sv)
  end.
Definition server_run (h : HTTPHandler) (os : list server_op) (sv : server) : server :=
  foldl (λ sv o, server_exec h o sv) sv os.
