(* ===== verification/HttpTheorems.v ===== *)
(** What the HTTP surface guarantees under any interleaving of requests: slots and claims are
    always given back, every request is answered once and without foreign error texts, a
    repeated message is answered from the record, and what is written can be read back. *)
From Stdlib Require Import Ascii String.
From S2P Require Import Prelude GoStrings GoJson Sha256 Tenant Bindings Routing Registry Gateway RuntimeStore StoreTheorems Materializer AuditLog DispatchClaim Dispatch Http.
Local Open Scope Z_scope.

(** * Slots *)

(** The lease that a request holds; without one, a lease that was returned. *)
Definition no_lease : TenantLimitLease := mkLimitLease "" true.
Definition lease_of (ss : session) : TenantLimitLease :=
  match ss_phase ss with
  | Leased _ lease | Claimed _ lease _ | Leaving lease => lease
  | _ => no_lease
  end.
Definition leases (sv : server) : list TenantLimitLease := lease_of <$> sv_sessions sv.
Definition active_of (l : TenantLimiter) (t : string) : Z :=
  match limit_entries l !! t with Some e => active e | None => 0 end.

(** The slots of the limiter are those that the leases hold. *)
Record slots_held (n : Z) (l : TenantLimiter) (ls : list TenantLimitLease) : Prop := {
  held_limit : maxConcurrent l = n;
  held_active t : limit_closed l = false → active_of l t = outstanding t ls;
  held_closed : limit_closed l = true → limit_entries l = ∅;
  held_bound t : outstanding t ls ≤ n }.

Lemma active_set l t e t' :
  active_of (set_limit t e l) t' = if (t =? t')%string then active e else active_of l t'.
Proof.
  unfold active_of, set_limit. cbn. destruct (String.eqb_spec t t') as [<-|Hne].
  - by rewrite lookup_insert_eq.
  - by rewrite lookup_insert_ne.
Qed.

Lemma held_acquire n ctx clk t l l' r ls i old :
  slots_held n l ls → ls !! i = Some old → lease_done old = true → Acquire ctx clk t l = (l', r) →
  slots_held n l' (match r with Ok lease => <[i := lease]> ls | Err _ => ls end)
  ∧ match r with Ok lease => lease_done lease = false | Err _ => True end.
Proof.
  intros Hok Hi Hd Ha. pose proof Hok as [Hn Hact Hcl Hb].
  destruct (Acquire_cases ctx clk t l) as [[err He]|[(Hop & He & _)|(Hop & _ & Hlt & He)]];
    rewrite He in Ha; injection Ha as <- <-; [done|..]; split; try done.
  - split; cbn; try done; [|by rewrite Hop]. intros t' _. rewrite active_set, current_entry_active.
    change (match limit_entries l !! t with Some e => active e | None => 0 end) with (active_of l t).
    destruct (String.eqb_spec t t') as [<-|]; auto.
  - rewrite current_entry_active in Hlt.
    change (match limit_entries l !! t with Some e => active e | None => 0 end) with (active_of l t) in Hlt.
    assert (∀ t', outstanding t' (<[i := mkLimitLease t false]> ls)
      = outstanding t' ls + Z.b2z (t =? t')%string) as Hins.
    { intros t'. rewrite (outstanding_insert _ _ _ _ _ Hi), Hd. cbn. rewrite andb_false_r, andb_true_r. cbn. lia. }
    split; cbn; try done; [|by rewrite Hop|].
    + intros t' _. rewrite active_set, Hins. cbn. rewrite current_entry_active.
      change (match limit_entries l !! t with Some e => active e | None => 0 end) with (active_of l t).
      destruct (String.eqb_spec t t') as [<-|]; rewrite Hact by done; cbn; lia.
    + intros t'. rewrite Hins. pose proof (Hb t'). rewrite Hact in Hlt by done.
      destruct (String.eqb_spec t t') as [<-|]; cbn; lia.
Qed.

Lemma slots_release n l ls i lease :
  slots_held n l ls → ls !! i = Some lease → lease_done lease = false →
  slots_held n (Release lease l).1 (<[i := no_lease]> ls).
Proof.
  intros [Hn Hact Hcl Hb] Hi Hd. destruct lease as [t d]. cbn in Hd. subst d.
  assert (∀ t', outstanding t' (<[i := no_lease]> ls) = outstanding t' ls - Z.b2z (t =? t')%string) as Hins.
  { intros t'. rewrite (outstanding_insert _ _ _ _ _ Hi). cbn. rewrite andb_false_r, andb_true_r. cbn. lia. }
  pose proof (outstanding_pos t _ _ _ Hi eq_refl eq_refl) as Hpos.
  unfold Release. cbn [lease_done lease_tenant fst].
  assert (∀ t', outstanding t' (<[i := no_lease]> ls) ≤ n) as Hb'.
  { intros t'. rewrite Hins. specialize (Hb t'). destruct (_ =? _)%string; cbn; lia. }
  destruct (limit_entries l !! t) as [e|] eqn:He.
  - assert (limit_closed l = false) as Hop.
    { destruct (limit_closed l) eqn:E; [|done]. by rewrite (Hcl eq_refl) in He. }
    assert (active e = outstanding t ls) as Hae by (by rewrite <- Hact; [unfold active_of; rewrite He|]).
    rewrite (proj2 (Z.ltb_lt 0 (active e))) by lia. split; cbn; try done; [|by rewrite Hop].
    intros t' _. rewrite active_set, Hins. cbn.
    destruct (String.eqb_spec t t') as [<-|]; [|rewrite Hact by done]; cbn; lia.
  - split; try done. intros t' Hop. exfalso. specialize (Hact t Hop). unfold active_of in Hact. rewrite He in Hact. lia.
Qed.

Lemma held_same n l ls ls' : (∀ t, outstanding t ls' = outstanding t ls) → slots_held n l ls → slots_held n l ls'.
Proof. intros Heq [??? Hb]. split; try done; intros t; rewrite Heq; auto. Qed.

Lemma held_close n l ls : slots_held n l ls → slots_held n (Limiter_Close l) ls.
Proof. intros [????]. by split. Qed.

(** * Claims *)

(** Every pending entry belongs to a request that has not settled its claim. *)
Definition claims_held (i : IdempotencyStore) (sessions : list session) : Prop :=
  ∀ key e, entries i !! key = Some e → state e = IdempotencyPending →
    ∃ n ss a lease claim, sessions !! n = Some ss ∧ ss_phase ss = Claimed a lease claim ∧ claim_key claim = key.

(** A settled key is not pending. *)
Lemma settle_not_pending completed clk claim s e :
  claim_done claim = false → entries (settle_claim completed clk claim s) !! claim_key claim = Some e →
  state e ≠ IdempotencyPending.
Proof. intros Hd. destruct completed; by apply settle_settles. Qed.

Lemma settle_claim_other completed clk claim s key :
  claim_key claim ≠ key → entries (settle_claim completed clk claim s) !! key = entries s !! key.
Proof. intros. destruct completed; cbn; unfold Complete, Fail_; by apply settle_other. Qed.

Lemma claims_insert i i' sessions n ss ss' :
  claims_held i sessions → sessions !! n = Some ss →
  (∀ a lease claim, ss_phase ss = Claimed a lease claim → ss_phase ss' = ss_phase ss) →
  (∀ key e, entries i' !! key = Some e → state e = IdempotencyPending → 
     entries i !! key = Some e ∨ ∃ a lease claim, ss_phase ss' = Claimed a lease claim ∧ claim_key claim = key) →
  claims_held i' (<[n := ss']> sessions).
Proof.
  intros Hc Hn Hkeep Hent key e He Hst. pose proof (lookup_lt_Some _ _ _ Hn).
  destruct (Hent key e He Hst) as [He'|(a & lease & claim & Hph & Hk)].
  - destruct (Hc key e He' Hst) as (m & s1 & a & lease & claim & Hm & Hph & Hk).
    destruct (decide (m = n)) as [->|Hne].
    + rewrite Hn in Hm. injection Hm as <-. exists n, ss', a, lease, claim.
      rewrite list_lookup_insert_eq by done. split_and!; try done. by rewrite (Hkeep _ _ _ Hph).
    + exists m, s1, a, lease, claim. by rewrite list_lookup_insert_ne by done.
  - exists n, ss', a, lease, claim. by rewrite list_lookup_insert_eq by done.
Qed.

(** * The invariant of the server *)

(** What a request holds was not given back yet. *)
Definition unreturned (ss : session) : Prop :=
  match ss_phase ss with
  | Leased _ lease | Leaving lease => lease_done lease = false
  | Claimed _ lease claim => lease_done lease = false ∧ claim_done claim = false
  | _ => True
  end.

Record server_ok (n : Z) (sv : server) : Prop := {
  ok_slots : slots_held n (limiter (sv_shared sv)) (leases sv);
  ok_unreturned : Forall unreturned (sv_sessions sv);
  ok_claims : claims_held (idempotency (sv_shared sv)) (sv_sessions sv) }.

Lemma outstanding_replace t ls i l : ls !! i = Some l → outstanding t (<[i := l]> ls) = outstanding t ls.
Proof. intros Hi. by rewrite list_insert_id. Qed.

Ltac same_slots := eapply held_same; [intros; by apply outstanding_replace|eassumption].

Lemma advance_ok n h x i ss sv :
  server_ok n sv → sv_sessions sv !! i = Some ss → server_ok n (server_exec h (OAdvance i x) sv).
Proof.
  intros [Hs Hu Hc] Hi. cbn [server_exec]. rewrite Hi. unfold advance_session.
  assert (leases sv !! i = Some (lease_of ss)) as Hl by (unfold leases; rewrite list_lookup_fmap, Hi; done).
  pose proof (Forall_lookup_1 _ _ _ _ Hu Hi) as Hun. destruct ss as [rq stream ph out]. cbn [ss_request ss_stream ss_phase ss_out].
  unfold unreturned, lease_of in *. cbn [ss_phase] in *.
  assert (∀ s' ph' out', slots_held n (limiter s') (<[i := lease_of (mkSession rq stream ph' out')]> (leases sv)) →
    unreturned (mkSession rq stream ph' out') →
    claims_held (idempotency s') (<[i := mkSession rq stream ph' out']> (sv_sessions sv)) →
    server_ok n (mkServer s' (<[i := mkSession rq stream ph' out']> (sv_sessions sv)))) as Hmk.
  { intros s' ph' out' H1 H2 H3. split; [|by apply Forall_insert|done]. unfold leases. cbn. by rewrite list_fmap_insert. }
  assert (∀ ph' out', ph = Entering ∨ (∃ a, ph = Accepted a) ∨ (∃ l, ph = Leaving l) ∨ ph = Gone →
    claims_held (idempotency (sv_shared sv)) (<[i := mkSession rq stream ph' out']> (sv_sessions sv))) as Hk.
  { intros ph' out' Hph. eapply claims_insert; [done..| |auto]. cbn. intros. naive_solver. }
  destruct ph as [|[[[rid tid] p] m]|[[[rid tid] p] m] lease|a lease claim|lease|]; cbn [advance].
  - destruct (chat_enter _ _ _ _); apply Hmk; try done; try (by same_slots); auto 10.
  - destruct (Acquire _ _ _ _) as [l r] eqn:Ha. destruct (held_acquire n _ _ _ _ _ _ _ _ _ Hs Hl eq_refl Ha) as [Hh Hf].
    destruct r; apply Hmk; try done; eauto 10. same_slots.
  - destruct (Begin _ _ _ _ _) as [st r] eqn:Hb.
    assert (∀ ph' out', (∀ claim, r = Ok (inl claim) → ∃ a lease, ph' = Claimed a lease claim) →
      claims_held st (<[i := mkSession rq stream ph' out']> (sv_sessions sv))) as Hk'.
    { intros ph' out' Hph. eapply claims_insert; [done..|]. cbn. intros key e He _.
      destruct (Begin_entries _ _ _ _ _ _ _ _ _ Hb He) as [?|(claim & -> & Hkey & _)]; [by left|right].
      destruct (Hph claim eq_refl) as (a & l & ->). eauto. }
    destruct r as [[claim|evs]|err]; apply Hmk; cbn; try done; try (by same_slots).
    all: try (apply Hk'; intros ? [= <-]; by eauto).
    split; [done|]. by eapply Begin_claim_fresh.
  - destruct Hun as [Hd1 Hd2]. destruct (chat_execute _ _ _) as [[o completed]|].
    + apply Hmk; [by same_slots|done|].
      intros key e He Hst. cbn in He.
      destruct (decide (claim_key claim = key)) as [<-|Hne]; [by destruct (settle_not_pending _ _ _ _ _ Hd2 He)|].
      rewrite settle_claim_other in He by done.
      destruct (Hc key e He Hst) as (j & s1 & a' & l' & c' & Hj & Hph & Hkk).
      destruct (decide (j = i)) as [->|Hji]; [rewrite Hi in Hj; injection Hj as <-; cbn in Hph; naive_solver|].
      exists j, s1, a', l', c'. by rewrite list_lookup_insert_ne by done.
    + apply Hmk; [by same_slots|done|]. eapply claims_insert; [done..|auto].
  - apply Hmk; [|done|eauto 10]. cbn. by apply slots_release.
  - apply Hmk; [by same_slots|done|auto 10].
Qed.

Lemma server_step n h o sv : server_ok n sv → server_ok n (server_exec h o sv).
Proof.
  intros Hok. pose proof Hok as [Hs Hu Hc]. destruct o as [rq x|i x| |].
  - cbn. set (ss := match ServeHTTP _ _ _ _ with inl _ => _ | inr _ => _ end).
    assert (lease_of ss = no_lease ∧ unreturned ss) as [Hl Hun] by (unfold ss; by case_match).
    split; cbn.
    + unfold leases. cbn. rewrite fmap_app. eapply held_same; [|exact Hs]. intros t.
      rewrite outstanding_app. cbn. rewrite Hl. cbn. rewrite andb_false_r. cbn. unfold leases. lia.
    + by apply Forall_app_2; [|constructor].
    + intros key e He Hst. destruct (Hc key e He Hst) as (n' & s1 & a & l & c & Hn & ?).
      exists n', s1, a, l, c. by rewrite (lookup_app_l_Some _ _ _ _ Hn).
  - destruct (sv_sessions sv !! i) as [ss|] eqn:Hi; [by eapply advance_ok|]. cbn. by rewrite Hi.
  - by split.
  - split; cbn.
    + destruct (ownLimiter h); [by apply held_close|done].
    + done.
    + destruct (ownIdempotency h); [|done]. intros key e. cbn. by rewrite lookup_empty.
Qed.

Lemma server_run_ok n h os sv : server_ok n sv → server_ok n (server_run h os sv).
Proof. revert sv. induction os as [|o os IH]; intros sv Hok; [done|]. simpl. apply IH. by apply server_step. Qed.

(** The limiter and the store that a configuration brings along are new. *)
Definition fresh_config (config : HTTPConfig) : Prop :=
  match cf_Limiter config with Some l => ∃ c, NewTenantLimiter c = Ok l | None => True end
  ∧ match cf_Idempotency config with Some i => ∃ c, NewIdempotencyStore c = Ok i | None => True end.

Lemma new_handler_ok config h s :
  NewHTTPHandler config = Ok (h, s) → fresh_config config →
  server_ok (maxConcurrent (limiter s)) (mkServer s []).
Proof.
  intros Hn [Hl Hi]. unfold NewHTTPHandler in Hn. go_unfold.
  destruct (negb (_ <? 1)); [|discriminate]. destruct (negb (_ <? 0)); [|discriminate].
  assert (∃ c l, match cf_Limiter config with Some l => Ok l | None => NewTenantLimiter (mkLimiterConfig 0 0 0) end = Ok l
    ∧ NewTenantLimiter c = Ok l) as (c1 & l & Hl1 & Hl2).
  { destruct (cf_Limiter config) as [l|]; [destruct Hl as [c ?]; by exists c, l|].
    eexists (mkLimiterConfig 0 0 0), _. by split. }
  assert (∃ c i, match cf_Idempotency config with Some i => Ok i | None => NewIdempotencyStore (mkIdempotencyConfig 0 0) end
    = Ok i ∧ NewIdempotencyStore c = Ok i) as (c2 & i & Hi1 & Hi2).
  { destruct (cf_Idempotency config) as [i|]; [destruct Hi as [c ?]; by exists c, i|].
    eexists (mkIdempotencyConfig 0 0), _. by split. }
  rewrite Hl1, Hi1 in Hn. injection Hn as <- <-.
  apply NewTenantLimiter_ok in Hl2 as (Hpos & _ & _ & He & Ho). apply new_store_empty in Hi2 as [Hi2 _].
  split; cbn; [|constructor|].
  - split; cbn; try done; [|lia]. intros t _. unfold active_of. by rewrite He, lookup_empty.
  - intros key e. by rewrite Hi2, lookup_empty.
Qed.

Definition all_gone (sv : server) : Prop := Forall (λ ss, ss_phase ss = Gone) (sv_sessions sv).

(** C29: requests give back what they take.  In any run of the server, however requests
    interleave and whatever the authenticator, the dispatcher, the contexts and the
    connections answer: no more requests of a tenant hold a slot than the limiter allows, and
    the slots that the limiter counts are exactly those of requests in flight; a message is
    pending only while a request that claimed it is in flight.  So once all requests are
    gone, no slot is taken and no message is pending. *)
Theorem server_gives_back config h s os :
  NewHTTPHandler config = Ok (h, s) → fresh_config config →
  let sv := server_run h os (mkServer s []) in
  let l := limiter (sv_shared sv) in
  let pending key := ∃ e, entries (idempotency (sv_shared sv)) !! key = Some e ∧ state e = IdempotencyPending in
  (∀ t, outstanding t (leases sv) ≤ maxConcurrent (limiter s))
  ∧ (limit_closed l = false → ∀ t, active_of l t = outstanding t (leases sv))
  ∧ (∀ key, pending key → ∃ n ss a lease claim,
       sv_sessions sv !! n = Some ss ∧ ss_phase ss = Claimed a lease claim ∧ claim_key claim = key)
  ∧ (all_gone sv → (∀ t, active_of l t = 0) ∧ ∀ key, ¬ pending key).
Proof.
  intros Hn Hf sv l pending. destruct (server_run_ok _ h os _ (new_handler_ok _ _ _ Hn Hf)) as [Hs _ Hc].
  fold sv in Hs, Hc. split_and!; [apply Hs|intros; by apply Hs|intros key (e & He & Hst); eauto|].
  intros Hg. split.
  - intros t. destruct (limit_closed l) eqn:Hcl.
    + unfold active_of. by rewrite (held_closed _ _ _ Hs Hcl : limit_entries l = ∅), lookup_empty.
    + unfold l. rewrite (held_active _ _ _ Hs t Hcl). unfold leases.
      assert (∀ sss, Forall (λ ss, ss_phase ss = Gone) sss → outstanding t (lease_of <$> sss) = 0) as Hall;
        [|by apply Hall].
      induction 1 as [|ss sss Hss _ IH]; [done|]. cbn in *. unfold lease_of at 1 2. rewrite Hss, IH. cbn.
      by rewrite andb_false_r.
  - intros key (e & He & Hst). destruct (Hc key e He Hst) as (n & ss & a & lease & claim & Hss & Hph & _).
    pose proof (Forall_lookup_1 _ _ _ _ Hg Hss) as Hgone. cbn in Hgone. congruence.
Qed.

(** * Answers *)

Definition error_answers : list (Z * string) :=
  [(405, "method not allowed"); (400, "invalid request correlation"); (503, "not ready");
   (500, "gateway error"); (408, "request canceled"); (504, "request deadline exceeded");
   (401, "unauthenticated"); (400, "invalid request"); (429, "rate limited"); (409, "duplicate message");
   (503, "gateway capacity unavailable"); (502, text_audit); (502, "execution failed");
   (500, "streaming unavailable")]%string.
Definition frames (events : list DispatchEvent) : list write :=
  events ≫= λ e, [Write (writeSSEEvent e); Flush].

(** The answers of a chat whose events satisfy [P]: an error with one of the fixed texts, the
    summary of events, or a stream of events. *)
Inductive answer (P : DispatchEvent → Prop) : list write → Prop :=
| answer_error pre status text requestID traceID :
    pre = [] ∨ pre = [SetHeader "Allow" MethodPost] → (status, text) ∈ error_answers →
    answer P (pre ++ writeError status text requestID traceID)
| answer_final requestID traceID events :
    Forall P events → answer P (writeFinalResponse requestID traceID events)
| answer_stream headers flush events :
    Forall P events → Forall (λ w, ∃ name value, w = SetHeader name value) headers → flush = [] ∨ flush = [Flush] →
    answer P (headers ++ WriteHeader 200 :: flush ++ frames events).

(** The chat paths. *)
Definition chat_path (rq : request) : Prop := rq_Path rq = "/v1/chat"%string ∨ rq_Path rq = "/v1/chat/stream"%string.

Lemma ServeHTTP_chat h x s rq : chat_path rq ↔ ∃ stream, ServeHTTP h x s rq = inr stream.
Proof.
  unfold ServeHTTP, chat_path. split.
  - intros [-> | ->]; by eexists.
  - intros [stream H]. repeat (case_match; try discriminate); bool_prop; auto.
Qed.

Lemma mapped_error_known e : mapHTTPError (Some e) ∈ error_answers.
Proof.
  cbn [mapHTTPError].
  repeat match goal with |- context [if ?b then _ else _] => destruct b end;
    apply (bool_decide_unpack _); vm_compute; exact I.
Qed.

Section Answers.
Variable P : DispatchEvent → Prop.
Hypothesis P_rebind : ∀ requestID traceID e, P e → P (rebind requestID traceID e).

Definition dispatches (x : exchange) : Prop :=
  ∀ dr rs e, x_dispatch x dr = Ok (Some rs) → Received e ∈ rs → P e.
Definition op_dispatches (o : server_op) : Prop :=
  match o with OArrive _ x | OAdvance _ x => dispatches x | _ => True end.

Lemma error_answer status text requestID traceID :
  (status, text) ∈ error_answers → answer P (writeError status text requestID traceID).
Proof. intros H. apply (answer_error P [] status text requestID traceID); auto. Qed.

Lemma mapped_answer requestID traceID e : answer P (writeMappedError requestID traceID e).
Proof.
  unfold writeMappedError. pose proof (mapped_error_known e) as H. destruct (mapHTTPError (Some e)) as [st msg].
  by apply error_answer.
Qed.

Ltac fixed_error := apply error_answer, (bool_decide_unpack _); vm_compute; exact I.

Lemma enter_answer h x s rq out : chat_enter h x s rq = inl out → answer P out.
Proof.
  unfold chat_enter. destruct (negb (_ =? _)%string).
  { intros [= <-]. apply (answer_error P [SetHeader "Allow" MethodPost] 405 "method not allowed" "" ""); [auto|].
    apply (bool_decide_unpack _). vm_compute. exact I. }
  destruct (requestCorrelation _ _) as [[rid tid] ok]. destruct (negb ok); [intros [= <-]; fixed_error|].
  destruct (negb _); [intros [= <-]; fixed_error|].
  repeat (case_match; try discriminate); intros [= <-]; apply mapped_answer.
Qed.

Lemma collect_events rs acc evs : collect rs acc = Some (Ok evs) →
  Forall P acc → (∀ e, Received e ∈ rs → P e) → Forall P evs.
Proof.
  revert acc. induction rs as [|[e| |c] rs IH]; intros acc; cbn; try discriminate.
  - intros Hc Ha Hp. apply (IH _ Hc); [|intros e' ?; apply Hp; by right].
    apply Forall_app_2; [done|]. constructor; [apply Hp; left|done].
  - by intros [= <-].
Qed.

Lemma stream_events wok rs acc out done : stream_loop wok rs acc = Some (out, done) →
  Forall P acc → (∀ e, Received e ∈ rs → P e) →
  (∃ evs, out = frames evs ∧ Forall P evs) ∧ ∀ evs, done = Some evs → Forall P evs.
Proof.
  revert acc out done. induction rs as [|[e| |c] rs IH]; intros acc out done; cbn [stream_loop]; try discriminate.
  - intros Hs Ha Hp. assert (P e) as He by (apply Hp; left).
    assert (Forall P (acc ++ [e])) as Ha' by (by apply Forall_app_2; [|constructor]).
    destruct (negb _); [injection Hs as <- <-; split; [by exists []|done]|].
    destruct (ev_Done e).
    + injection Hs as <- <-. split; [exists [e]; split; [done|by constructor]|]. by intros ? [= <-].
    + apply bind_Some in Hs as ([more d] & Hs & [= <- <-]).
      destruct (IH _ _ _ Hs Ha') as [(evs & -> & Hev) Hd]; [intros e' ?; apply Hp; by right|].
      split; [|done]. exists (e :: evs). split; [done|by constructor].
  - intros [= <- <-] Ha _. split; [by exists []|]. destruct acc; [done|]. by intros ? [= <-].
  - intros [= <- <-] _ _. split; [by exists []|done].
Qed.

Lemma replay_frames wok k evs : Forall P evs → ∃ evs', replay_loop wok k evs = frames evs' ∧ Forall P evs'.
Proof.
  revert k. induction evs as [|e evs IH]; intros k Hp; cbn [replay_loop]; [by exists []|]. inversion_clear Hp.
  destruct (negb _); [by exists []|]. destruct (IH (S k)) as (evs' & -> & ?); [done|].
  exists (e :: evs'). split; [done|by constructor].
Qed.

Lemma execute_answer x stream a out done : dispatches x → chat_execute x stream a = Some (out, done) →
  answer P out ∧ ∀ evs, done = Some evs → Forall P evs.
Proof.
  intros Hd. destruct a as [[[rid tid] p] m]. unfold chat_execute.
  destruct (x_dispatch _ _) as [[rs|]|err] eqn:Hx.
  - assert (∀ e, Received e ∈ rs → P e) as Hp by (intros; by eapply Hd). destruct stream.
    + destruct (negb _); [intros [= <- <-]; split; [fixed_error|done]|]. unfold writeStream.
      intros ([o d] & Hs & [= <- <-])%bind_Some.
      destruct (stream_events _ _ _ _ _ Hs) as [(evs & -> & Hev) Hdone]; [done..|]. split; [|done].
      apply (answer_stream P [_; _; _] [Flush] evs); [done| |auto]. repeat constructor; eauto.
    + unfold collectHTTPEvents. destruct (collect rs []) as [[evs|err]|] eqn:Hc; [..|discriminate]; intros [= <- <-].
      * apply collect_events in Hc; [|done..]. split; [by constructor|]. by intros ? [= <-].
      * split; [apply mapped_answer|done].
  - intros [= <- <-]. split; [fixed_error|done].
  - intros [= <- <-]. split; [apply mapped_answer|done].
Qed.

Lemma replay_answer (stream flusher : bool) wok rid tid evs : Forall P evs →
  answer P (if stream then writeReplayStream flusher wok (rebindDispatchEvents evs rid tid)
            else writeFinalResponse rid tid (rebindDispatchEvents evs rid tid)).
Proof.
  intros Hp. assert (Forall P (rebindDispatchEvents evs rid tid)) as Hr
    by (apply Forall_fmap; eapply Forall_impl; [done|]; by intros; apply P_rebind).
  destruct stream; [|by constructor]. unfold writeReplayStream. destruct (negb _); [fixed_error|].
  destruct (replay_frames wok 0 _ Hr) as (evs' & -> & Hev).
  apply (answer_stream P [_; _] [] evs'); [done| |auto]. repeat constructor; eauto.
Qed.

(** A chat has written nothing until it leaves, and then one whole answer. *)
Definition answered (ss : session) : Prop :=
  match ss_phase ss with Leaving _ | Gone => chat_path (ss_request ss) → answer P (ss_out ss) | _ => ss_out ss = [] end.
Definition recorded (i : IdempotencyStore) : Prop :=
  ∀ key e, entries i !! key = Some e → Forall P (Gateway.events e).

Lemma Begin_recorded ctx clk p m s s' r : recorded s → Begin ctx clk p m s = (s', r) →
  recorded s' ∧ ∀ evs, r = Ok (inr evs) → Forall P evs.
Proof.
  intros Hrec Hb. split.
  - intros key e He. destruct (Begin_entries _ _ _ _ _ _ _ _ _ Hb He) as [?|(claim & -> & <- & _)]; [by eapply Hrec|].
    apply Begin_claim in Hb as (_ & _ & _ & _ & _ & He'). rewrite He in He'. injection He' as ->. constructor.
  - intros evs ->. revert Hb. rewrite Begin_eq. destruct ctx as [c|]; [|discriminate]. destruct (c 0%nat); [discriminate|].
    destruct (request_key p m) as [k|]; [|discriminate]. unfold begin_locked, reserve_key.
    destruct (closed s); [discriminate|]. cbv zeta.
    destruct (entries (pruneLocked _ s) !! k) as [e|] eqn:He; [destruct (state e)|]; try discriminate;
      try (by case_match).
    intros [= <- <-]. apply prune_lookup in He as [He _]. by eapply Hrec.
Qed.

Lemma settle_recorded done clk claim s : recorded s → (∀ evs, done = Some evs → Forall P evs) →
  recorded (settle_claim done clk claim s).
Proof.
  intros Hrec Hd key e. destruct done as [evs|]; cbn; unfold Complete, Fail_, settle;
    (destruct (claim_done claim); [by apply Hrec|]); cbn;
    (destruct (entries s !! claim_key claim) as [e'|] eqn:He; [|by apply Hrec]);
    (case_bool_decide; [|by apply Hrec]); cbn;
    (destruct (decide (claim_key claim = key)) as [<-|]; [rewrite lookup_insert_eq; intros [= <-]|
      rewrite lookup_insert_ne by done; by apply Hrec]); cbn; [by apply Hd|constructor].
Qed.

Record answers_ok (sv : server) : Prop := {
  ok_answered : Forall answered (sv_sessions sv);
  ok_recorded : recorded (idempotency (sv_shared sv)) }.

Lemma answers_step h o sv : op_dispatches o → answers_ok sv → answers_ok (server_exec h o sv).
Proof.
  intros Hd [Ha Hr]. destruct o as [rq x|i x| |]; cbn [server_exec].
  - split; cbn; [|done]. apply Forall_app_2; [done|]. constructor; [|done].
    destruct (ServeHTTP h x (sv_shared sv) rq) as [out|stream] eqn:Hs; [|done].
    intros [stream Hc]%(ServeHTTP_chat h x (sv_shared sv)). cbn in Hc. congruence.
  - destruct (sv_sessions sv !! i) as [ss|] eqn:Hi; [|done].
    pose proof (Forall_lookup_1 _ _ _ _ Ha Hi) as Hss. destruct ss as [rq stream ph out].
    unfold advance_session, answered in *. cbn [ss_request ss_stream ss_phase ss_out] in *.
    enough (∀ s' ph' out', advance h x rq stream ph (sv_shared sv) = (s', ph', out') →
      answered (mkSession rq stream ph' (out ++ out')) ∧ recorded (idempotency s')) as Hgoal.
    { destruct (advance h x rq stream ph (sv_shared sv)) as [[s' ph'] out'].
      destruct (Hgoal s' ph' out' eq_refl). split; cbn; [by apply Forall_insert|done]. }
    intros s' ph' out'. unfold answered. cbn [ss_phase ss_out ss_request].
    destruct ph as [|[[[rid tid] p] m]|[[[rid tid] p] m] lease|a lease claim|lease|]; cbn [advance]; try subst out.
    + destruct (chat_enter _ _ _ _) eqn:He; intros [= <- <- <-]; (split; [|done]); [intros _; by eapply enter_answer|done].
    + destruct (Acquire _ _ _ _) as [l [lease|err]]; intros [= <- <- <-]; (split; [|done]); [done|].
      intros _. apply mapped_answer.
    + destruct (Begin _ _ _ _ _) as [st r] eqn:Hb. destruct (Begin_recorded _ _ _ _ _ _ _ Hr Hb) as [Hst Hrep].
      destruct r as [[claim|evs]|err]; intros [= <- <- <-]; (split; [|done]); [done|intros _..].
      * apply replay_answer; auto.
      * apply mapped_answer.
    + destruct (chat_execute _ _ _) as [[o d]|] eqn:Hx; intros [= <- <- <-]; [|done].
      destruct (execute_answer _ _ _ _ _ Hd Hx) as [Hans Hdone]. split; [done|]. by apply settle_recorded.
    + intros [= <- <- <-]. by rewrite app_nil_r.
    + intros [= <- <- <-]. by rewrite app_nil_r.
  - by split.
  - split; [done|]. cbn. destruct (ownIdempotency h); [|done]. intros key e. cbn. by rewrite lookup_empty.
Qed.

Lemma answers_run h os sv : Forall op_dispatches os → answers_ok sv → answers_ok (server_run h os sv).
Proof.
  intros Hos. revert sv. induction Hos as [|o os Ho _ IH]; intros sv Hok; [done|]. simpl. apply IH.
  by apply answers_step.
Qed.
End Answers.

(** Exactly one status is written, and it says whether the answer is an error. *)
Definition header_status (w : write) : option Z := match w with WriteHeader status => Some status | _ => None end.
Definition statuses (out : list write) : list Z := omap header_status out.

Lemma observed_tail status out : status ≠ 0 → foldl status_write status out = status.
Proof.
  intros Hs. induction out as [|w out IH]; [done|]. simpl.
  destruct w; simpl; rewrite ?(proj2 (Z.eqb_neq status 0) Hs); done.
Qed.

Lemma observed_headers headers out :
  Forall (λ w, ∃ name value, w = SetHeader name value) headers →
  observed_status (headers ++ out) = observed_status out ∧ statuses (headers ++ out) = statuses out.
Proof. induction 1 as [|w headers (n & v & ->) _ [IH1 IH2]]; [done|]. split; [exact IH1|exact IH2]. Qed.

Lemma frames_statuses events : statuses (frames events) = [].
Proof. induction events as [|e events IH]; [done|]. exact IH. Qed.

Lemma answer_status P out : answer P out →
  statuses out = [observed_status out]
  ∧ (observed_status out = 200 ∨ 400 ≤ observed_status out ∧ observed_status out ∈ error_answers.*1).
Proof.
  intros [pre status text rid tid Hpre Hin|rid tid events Hev|headers flush events Hev Hh Hf].
  - assert (400 ≤ status ∧ status ∈ error_answers.*1) as [Hst Hel].
    { split.
      - assert (Forall (λ p, 400 ≤ p.1) error_answers) as Hall by (repeat constructor; simpl; lia).
        rewrite Forall_forall in Hall. exact (Hall _ Hin).
      - apply list_elem_of_fmap. by exists (status, text). }
    assert (statuses (pre ++ writeError status text rid tid) = [status]
      ∧ observed_status (pre ++ writeError status text rid tid) = status) as [-> ->].
    { destruct Hpre as [-> | ->]; unfold observed_status; cbn; rewrite (proj2 (Z.eqb_neq status 0)) by lia; done. }
    auto.
  - split; [reflexivity|by left].
  - destruct (observed_headers headers (WriteHeader 200 :: flush ++ frames events) Hh) as [-> ->].
    assert (observed_status (WriteHeader 200 :: flush ++ frames events) = 200) as ->
      by (unfold observed_status; cbn; by apply observed_tail).
    split; [|by left]. cbn. unfold statuses. rewrite omap_app. fold (statuses (frames events)).
    rewrite frames_statuses. by destruct Hf as [-> | ->].
Qed.

(** The dispatcher of an exchange is the one of [Dispatch]: the events on its channel are
    those that an execution of the request sent. *)
Definition execution_events (dr : DispatchRequest) (rs : list receive) : Prop :=
  ∃ peers identity stimuli s,
    forward peers (dr_Principal dr) (dr_Message dr) identity (dr_RequestID dr) (dr_TraceID dr) stimuli = Some s
    ∧ ∀ e, Received e ∈ rs → e ∈ sent (trace s).
Definition runs_dispatcher (o : server_op) : Prop :=
  match o with
  | OArrive _ x | OAdvance _ x => ∀ dr rs, x_dispatch x dr = Ok (Some rs) → execution_events dr rs
  | _ => True
  end.

(** No error text but the constants of the gateway. *)
Definition known_error (e : DispatchEvent) : Prop :=
  ev_Error e ∈ [""; text_execution; text_canceled; text_audit]%string.

Lemma runs_dispatcher_known o : runs_dispatcher o → op_dispatches known_error o.
Proof.
  intros Hd. destruct o as [rq x|i x| |]; try done; intros dr rs e Hx He;
    destruct (Hd dr rs Hx) as (peers & identity & stimuli & s & Hf & Hs);
    destruct (forward_shape _ _ _ _ _ _ _ _ Hf) as [Hr _]; rewrite Forall_forall in Hr;
    apply (Hr e (Hs e He)).
Qed.

Lemma new_handler_recorded P config h s :
  NewHTTPHandler config = Ok (h, s) → fresh_config config → answers_ok P (mkServer s []).
Proof.
  intros Hn [_ Hi]. split; [constructor|]. cbn. unfold NewHTTPHandler in Hn. go_unfold.
  destruct (negb (_ <? 1)); [|discriminate]. destruct (negb (_ <? 0)); [|discriminate].
  destruct (match cf_Limiter config with Some l => Ok l | None => _ end); [|discriminate].
  assert (∀ c i, NewIdempotencyStore c = Ok i → recorded P i) as Hnew.
  { intros c i Hc. apply new_store_empty in Hc as [Hc _]. intros key e. by rewrite Hc, lookup_empty. }
  destruct (cf_Idempotency config) as [i|].
  - injection Hn as <- <-. destruct Hi as [c Hc]. by apply (Hnew c).
  - injection Hn as <- <-. by apply (Hnew (mkIdempotencyConfig 0 0)).
Qed.

(** C30: answers are whole and redacted.  Whatever happens, a chat request that is still in
    flight has written nothing but the events of its stream, and one that is over has written
    exactly one status and one answer: a fixed text for the kind of error that occurred, or
    events that an execution sent, now or recorded earlier, whose only error texts are the
    gateway's own.  The text of an error of the authenticator, the dispatcher or the store
    never appears.  The recorded status is the one that was sent, and tells success from
    failure. *)
Theorem answers_redacted config h s os i ss :
  NewHTTPHandler config = Ok (h, s) → fresh_config config → Forall runs_dispatcher os →
  sv_sessions (server_run h os (mkServer s [])) !! i = Some ss → chat_path (ss_request ss) →
  match ss_phase ss with
  | Leaving _ | Gone =>
      answer known_error (ss_out ss) ∧ statuses (ss_out ss) = [observed_status (ss_out ss)]
      ∧ (observed_status (ss_out ss) = 200
         ∨ 400 ≤ observed_status (ss_out ss) ∧ observed_status (ss_out ss) ∈ error_answers.*1)
  | _ => ss_out ss = []
  end.
Proof.
  intros Hn Hf Hd Hi Hc.
  assert (Forall (op_dispatches known_error) os) as Hk by (eapply Forall_impl; [done|apply runs_dispatcher_known]).
  pose proof (answers_run known_error ltac:(done) h os _ Hk (new_handler_recorded _ _ _ _ Hn Hf)) as [Ha _].
  pose proof (Forall_lookup_1 _ _ _ _ Ha Hi) as Hss. unfold answered in Hss.
  destruct (ss_phase ss); try done; (split; [by apply Hss|]; apply (answer_status known_error); by apply Hss).
Qed.

(** * Requests come to an end *)

Definition ends (r : receive) : bool := match r with Received _ => false | _ => true end.
(** The event channel of a request is closed at last, or its context ends. *)
Definition comes_to_an_end (x : exchange) : Prop :=
  ∀ dr rs, x_dispatch x dr = Ok (Some rs) → existsb ends rs = true.
Definition is_step (i : nat) (o : server_op) : Prop := match o with OAdvance j _ => j = i | _ => False end.
#[export] Instance is_step_dec i o : Decision (is_step i o).
Proof. destruct o; unfold is_step; apply _. Defined.
Definition steps_of (i : nat) (os : list server_op) : nat := length (filter (is_step i) os).
Definition ends_at (i : nat) (o : server_op) : Prop :=
  match o with OAdvance j x => j = i → comes_to_an_end x | _ => True end.

Lemma collect_ends rs acc : existsb ends rs = true → is_Some (collect rs acc).
Proof. revert acc. induction rs as [|[e| |c] rs IH]; intros acc; cbn; try done; [apply IH|by eexists..]. Qed.

Lemma stream_ends wok rs acc : existsb ends rs = true → is_Some (stream_loop wok rs acc).
Proof.
  revert acc. induction rs as [|[e| |c] rs IH]; intros acc; cbn [stream_loop existsb ends orb]; try done; [|by eexists..].
  intros Hr. destruct (negb _); [by eexists|]. destruct (ev_Done e); [by eexists|].
  destruct (IH (acc ++ [e]) Hr) as [[more d] ->]. by eexists.
Qed.

Lemma execute_ends x stream a : comes_to_an_end x → is_Some (chat_execute x stream a).
Proof.
  intros Hx. destruct a as [[[rid tid] p] m]. unfold chat_execute.
  destruct (x_dispatch _ _) as [[rs|]|] eqn:Hd; [|by eexists..]. specialize (Hx _ _ Hd).
  destruct stream.
  - destruct (negb _); [by eexists|]. unfold writeStream. destruct (stream_ends (x_write x) rs [] Hx) as [[o d] ->].
    by eexists.
  - unfold collectHTTPEvents. destruct (collect_ends rs [] Hx) as [[]  ->]; by eexists.
Qed.

(** How far a request is from its end. *)
Definition remaining (ph : phase) : nat :=
  match ph with Entering => 5 | Accepted _ => 4 | Leased _ _ => 3 | Claimed _ _ _ => 2 | Leaving _ => 1 | Gone => 0 end.

Lemma advance_remaining h x rq stream ph s s' ph' out :
  comes_to_an_end x → advance h x rq stream ph s = (s', ph', out) → (remaining ph' ≤ pred (remaining ph))%nat.
Proof.
  intros Hx. destruct ph as [|[[[rid tid] p] m]|[[[rid tid] p] m] lease|a lease claim|lease|]; cbn [advance].
  4: destruct (execute_ends x stream a Hx) as [[o d] ->].
  all: repeat case_match; intros [= <- <- <-]; simpl; lia.
Qed.

Lemma steps_of_one i o : steps_of i [o] = if decide (is_step i o) then 1%nat else 0%nat.
Proof. unfold steps_of. cbn. by case_decide. Qed.

Lemma run_remaining h os sv i ss :
  sv_sessions sv !! i = Some ss → Forall (ends_at i) os →
  ∃ ss', sv_sessions (server_run h os sv) !! i = Some ss'
    ∧ (remaining (ss_phase ss') ≤ remaining (ss_phase ss) - steps_of i os)%nat.
Proof.
  intros Hi Hos. revert sv ss Hi. induction Hos as [|o os Ho _ IH]; intros sv ss Hi.
  { exists ss. split; [done|]. unfold steps_of. cbn. lia. }
  assert (∃ ss1, sv_sessions (server_exec h o sv) !! i = Some ss1
    ∧ (remaining (ss_phase ss1) ≤ remaining (ss_phase ss) - steps_of i [o])%nat) as (ss1 & Hi1 & Hle).
  { rewrite steps_of_one. destruct o as [rq x|j x| |]; cbn [server_exec]; case_decide as Hj; cbn [is_step] in Hj; try done.
    - exists ss. cbn. rewrite (lookup_app_l_Some _ _ _ _ Hi). split; [done|lia].
    - subst j. rewrite Hi. unfold advance_session.
      destruct (advance h x (ss_request ss) (ss_stream ss) (ss_phase ss) (sv_shared sv)) as [[s' ph] out] eqn:Ha.
      eexists. cbn [fst snd sv_sessions]. rewrite list_lookup_insert_eq by (by eapply lookup_lt_Some). split; [done|].
      apply advance_remaining in Ha; [cbn [ss_phase]; lia|by apply Ho].
    - exists ss. split; [|lia]. destruct (sv_sessions sv !! j); [|done]. cbn. by rewrite list_lookup_insert_ne.
    - exists ss. split; [done|lia].
    - exists ss. split; [done|lia]. }
  destruct (IH _ _ Hi1) as (ss2 & Hi2 & Hle2). exists ss2. split; [done|].
  assert (steps_of i (o :: os) = steps_of i [o] + steps_of i os)%nat as ->.
  { unfold steps_of. change (o :: os) with ([o] ++ os). by rewrite filter_app, length_app. }
  lia.
Qed.

(** Every request is answered.  Five steps bring a request to its end from wherever it
    is, whatever other requests, a shutdown or a close do in between, provided that the
    channel of its execution is closed or its context ends, which is so for every execution
    that [Dispatch] runs. *)
Theorem requests_finish h os sv i ss :
  sv_sessions sv !! i = Some ss → Forall (ends_at i) os → (5 ≤ steps_of i os)%nat →
  ∃ ss', sv_sessions (server_run h os sv) !! i = Some ss' ∧ ss_phase ss' = Gone.
Proof.
  intros Hi Hos Hn. destruct (run_remaining h os sv i ss Hi Hos) as (ss' & Hi' & Hle). exists ss'. split; [done|].
  assert (remaining (ss_phase ss) ≤ 5)%nat by (destruct (ss_phase ss); simpl; lia).
  destruct (ss_phase ss'); simpl in Hle; try lia. done.
Qed.

(** * Repeated messages *)

(** What a step of the server does to the idempotency store. *)
Definition store_ops (h : HTTPHandler) (o : server_op) (sv : server) : list idempotency_op :=
  match o with
  | OAdvance i x =>
      match sv_sessions sv !! i with
      | None => []
      | Some ss =>
          match ss_phase ss with
          | Leased (_, _, p, m) _ => [IBegin (x_ctx x) (x_clock x) p m]
          | Claimed a _ claim =>
              match chat_execute x (ss_stream ss) a with
              | Some (_, Some evs) => [IComplete evs (x_clock x) claim]
              | Some (_, None) => [IFail (x_clock x) claim]
              | None => []
              end
          | _ => []
          end
      end
  | OClose => if ownIdempotency h then [IClose] else []
  | _ => []
  end.

Lemma store_simulated h o sv :
  idempotency (sv_shared (server_exec h o sv)) = idempotency_run (store_ops h o sv) (idempotency (sv_shared sv)).
Proof.
  destruct o as [rq x|i x| |]; cbn [server_exec store_ops]; try done; [|cbn; by destruct (ownIdempotency h)].
  destruct (sv_sessions sv !! i) as [ss|]; [|done]. unfold advance_session.
  destruct (ss_phase ss) as [|[[[rid tid] p] m]|[[[rid tid] p] m] lease|a lease claim|lease|]; cbn [advance].
  - by destruct (chat_enter _ _ _ _).
  - by destruct (Acquire _ _ _ _) as [l []].
  - cbn. by destruct (Begin _ _ _ _ _) as [st [[]|]].
  - destruct (chat_execute _ _ _) as [[o [evs|]]|]; done.
  - done.
  - done.
Qed.

(** The steps fall between two times, and the store is not closed. *)
Definition between (a b : Z) (o : server_op) : Prop :=
  match o with OAdvance _ x => a ≤ store_now (x_clock x) < b | OClose => False | _ => True end.

Lemma between_ops a b h o sv : between a b o →
  Forall (during a b) (store_ops h o sv) ∧ Forall stays_open (store_ops h o sv).
Proof.
  intros Hb. destruct o as [rq x|i x| |]; cbn [store_ops] in *; try done.
  repeat case_match; split; repeat (apply Forall_nil || apply Forall_cons; split); unfold during; cbn; done || lia.
Qed.

Lemma completed_kept h os sv key until t0 e :
  closed (idempotency (sv_shared sv)) = false → entries (idempotency (sv_shared sv)) !! key = Some e →
  state e = IdempotencyCompleted → until ≤ expiresAt e → Forall (between t0 until) os →
  closed (idempotency (sv_shared (server_run h os sv))) = false
  ∧ entries (idempotency (sv_shared (server_run h os sv))) !! key = Some e.
Proof.
  intros Hc He Hst Hu Hos. revert sv Hc He. induction Hos as [|o os Ho _ IH]; intros sv Hc He; [done|]. simpl.
  destruct (between_ops t0 until h o sv Ho) as [Hd Hs].
  apply IH; rewrite store_simulated; by apply (completed_run key until _ _ e t0).
Qed.

(** The response under other identifiers. *)
Definition readdress (requestID traceID : string) (r : chatResponse) : chatResponse :=
  mkChatResponse requestID traceID (cr_Text r) (cr_Status r) (cr_Error r) (cr_Done r).

Lemma add_event_rebind rid tid r e :
  add_event (readdress rid tid r) (rebind rid tid e) = readdress rid tid (add_event r e).
Proof. unfold add_event. cbn. by repeat case_match. Qed.

Lemma final_rebind rid tid rid' tid' evs :
  finalChatResponse rid' tid' (rebindDispatchEvents evs rid' tid') = readdress rid' tid' (finalChatResponse rid tid evs).
Proof.
  unfold finalChatResponse, rebindDispatchEvents.
  change (mkChatResponse rid' tid' "" "complete" "" true)
    with (readdress rid' tid' (mkChatResponse rid tid "" "complete" "" true)).
  generalize (mkChatResponse rid tid "" "complete" "" true) as r.
  induction evs as [|e evs IH]; intros r; [done|]. cbn. rewrite add_event_rebind. apply IH.
Qed.

(** C31: a repeated message is answered from the record.  Let a request complete the message
    it claimed.  Until the time to live of the record is over, whatever requests come, finish
    or fail in between, a request of the same caller for the same conversation and message is
    not dispatched again: it is answered with the recorded events under its own identifiers,
    and if neither streams, with the response of the first under its own identifiers. *)
Theorem messages_replayed h sv i x ss a lease claim e out evs os j x' ss' rid' tid' p' m' lease' :
  let t0 := store_now (x_clock x) in
  let until := t0 + ttl (idempotency (sv_shared sv)) in
  let sv' := server_run h os (server_exec h (OAdvance i x) sv) in
  sv_sessions sv !! i = Some ss → ss_phase ss = Claimed a lease claim → claim_done claim = false →
  closed (idempotency (sv_shared sv)) = false →
  entries (idempotency (sv_shared sv)) !! claim_key claim = Some e → state e = IdempotencyPending →
  chat_execute x (ss_stream ss) a = Some (out, Some evs) →
  Forall (between t0 until) os →
  sv_sessions sv' !! j = Some ss' → ss_phase ss' = Leased (rid', tid', p', m') lease' →
  request_key p' m' = Ok (claim_key claim) →
  x_ctx x' = background → store_now (x_clock x') < until →
  ∃ s2 out', advance h x' (ss_request ss') (ss_stream ss') (ss_phase ss') (sv_shared sv') = (s2, Leaving lease', out')
    ∧ out' = (if ss_stream ss' then writeReplayStream (x_flusher x') (x_write x') (rebindDispatchEvents evs rid' tid')
              else writeFinalResponse rid' tid' (rebindDispatchEvents evs rid' tid'))
    ∧ (ss_stream ss = false → ss_stream ss' = false → ∃ r,
         out = writeJSON 200 (response_json r) ∧ out' = writeJSON 200 (response_json (readdress rid' tid' r))).
Proof.
  intros t0 until sv' Hi Hph Hcd Hop He Hst Hx Hos Hj Hph' Hkey Hctx Hnow.
  assert (idempotency (sv_shared (server_exec h (OAdvance i x) sv))
    = (Complete evs (x_clock x) claim (idempotency (sv_shared sv))).1) as Hs1.
  { rewrite store_simulated. cbn [store_ops]. by rewrite Hi, Hph, Hx. }
  set (e' := mkIdempotencyEntry IdempotencyCompleted evs until).
  destruct (completed_kept h os (server_exec h (OAdvance i x) sv) (claim_key claim) until t0 e') as [Hc2 He2]; try done.
  { rewrite Hs1. unfold Complete. by rewrite (proj2 (settle_ttl _ _ _ _ _)). }
  { rewrite Hs1. unfold Complete, settle. rewrite Hcd, He, Hst, bool_decide_eq_true_2 by done. cbn. by rewrite lookup_insert_eq. }
  fold sv' in Hc2, He2.
  assert (∃ st, Begin (x_ctx x') (x_clock x') p' m' (idempotency (sv_shared sv')) = (st, Ok (inr evs))) as [st Hb].
  { rewrite Begin_eq, Hctx. cbn [background]. rewrite Hkey. unfold begin_locked. rewrite Hc2. cbv zeta.
    rewrite (proj2 (prune_lookup (store_now (x_clock x')) _ (claim_key claim) e')) by (split; [done|]; cbn; lia).
    cbn. by eexists. }
  rewrite Hph'. cbn [advance]. rewrite Hb. eexists _, _. split_and!; [done..|]. intros Hs Hs'. rewrite Hs, Hs' in *.
  destruct a as [[[rid tid] p] m]. exists (finalChatResponse rid tid evs). split.
  - unfold chat_execute in Hx. destruct (x_dispatch _ _) as [[rs|]|]; try discriminate.
    unfold collectHTTPEvents in Hx. destruct (collect rs []) as [[evs'|]|]; try discriminate. by injection Hx as <- ->.
  - unfold writeFinalResponse. by rewrite (final_rebind rid tid).
Qed.

(** * What is written can be read *)

(** ** Server-sent events: a client that reads a stream line by line. *)
Fixpoint split_lines (l : list Z) : list (list Z) :=
  match l with
  | [] => [[]]
  | b :: l' =>
      if b =? 10 then [] :: split_lines l'
      else match split_lines l' with line :: rest => (b :: line) :: rest | [] => [[b]] end
  end.

(** The event type and the data of the event that is being read, and the events before it. *)
Record sse_client := mkClient { sse_type : list Z; sse_data : option (list Z); sse_done : list (list Z * list Z) }.
Fixpoint strip (prefix l : list Z) : option (list Z) :=
  match prefix, l with
  | [], _ => Some l
  | p :: prefix', b :: l' => if b =? p then strip prefix' l' else None
  | _ :: _, [] => None
  end.
Definition sse_line (c : sse_client) (line : list Z) : sse_client :=
  match line with
  | [] => match sse_data c with
          | Some data => mkClient [] None (sse_done c ++ [(sse_type c, data)])
          | None => mkClient [] None (sse_done c)
          end
  | _ =>
      match strip (bytes "event: ") line, strip (bytes "data: ") line with
      | Some t, _ => mkClient t (sse_data c) (sse_done c)
      | None, Some d => mkClient (sse_type c)
                          (Some (match sse_data c with Some old => old ++ 10 :: d | None => d end)) (sse_done c)
      | None, None => c
      end
  end.
Definition sse_read (text : string) : list (list Z * list Z) :=
  sse_done (foldl sse_line (mkClient [] None []) (split_lines (bytes text))).

Lemma split_lines_line line rest : 10 ∉ line → split_lines (line ++ 10 :: rest) = line :: split_lines rest.
Proof.
  induction line as [|b line IH]; intros Hn; [done|]. apply not_elem_of_cons in Hn as [Hb Hn]. cbn.
  rewrite (proj2 (Z.eqb_neq b 10)), IH by auto. done.
Qed.

Lemma encode_newline r : 10 ∈ encode_rune r → r = 10.
Proof.
  unfold encode_rune. destruct (scalar r) eqn:Hs; [|intros H; exfalso; revert H; apply (bool_decide_unpack _); vm_compute; exact I].
  apply scalar_spec in Hs. unfold encode_scalar.
  repeat case_match; bool_prop; rewrite ?elem_of_cons, elem_of_nil; intros; destruct_or?; try done; divlia.
Qed.

Lemma newline_free rs : 10 ∉ rs → 10 ∉ bytes (string_of_runes rs).
Proof.
  intros Hn. unfold string_of_runes. rewrite bytes_of_list.
  - intros (r & Hr & Hin)%list_elem_of_bind. apply encode_newline in Hr as ->. done.
  - apply Forall_bind, Forall_true. intros. apply encode_rune_range.
Qed.

Lemma quoted_newline_free s : 10 ∉ quoted_runes s.
Proof.
  unfold quoted_runes. rewrite elem_of_cons, elem_of_app, list_elem_of_singleton. intros [?|[Hb|?]]; [done| |done].
  apply list_elem_of_bind in Hb as (c & Hc & Hin).
  pose proof (chunks_ok _ (bytes_range s)) as Hok. rewrite Forall_forall in Hok. destruct (Hok c Hin) as [Hs%scalar_spec _].
  assert (0 ≤ Z.shiftr c.1 4 ∧ 0 ≤ Z.land c.1 15) as [Hhi Hlo].
  { split; [apply Z.shiftr_nonneg; lia|apply Z.land_nonneg; lia]. }
  revert Hc. unfold escape_runes, hex_rune.
  repeat case_match; bool_prop; rewrite ?elem_of_cons, elem_of_nil; intros; destruct_or?; try done; subst; try done; lia.
Qed.

Lemma object_newline_free ms : 10 ∉ bytes (flat_object ms).
Proof.
  rewrite flat_object_runes. apply newline_free. unfold object_runes.
  rewrite elem_of_cons, elem_of_app, list_elem_of_singleton. intros [?|[Hb|?]]; [done| |done]. revert Hb.
  assert (∀ v, 10 ∉ flat_runes v) as Hv.
  { intros [s|[]]; [apply quoted_newline_free|apply (bool_decide_unpack _); vm_compute; exact I..]. }
  induction ms as [|[k v] ms IH]; [apply not_elem_of_nil|].
  assert (member_runes ((k, v) :: ms) = quoted_runes k ++ 58 :: flat_runes v
    ++ match ms with [] => [] | _ => 44 :: member_runes ms end) as ->.
  { destruct ms; [|done]. cbn [member_runes fst snd]. by rewrite app_nil_r. }
  rewrite elem_of_app, elem_of_cons, elem_of_app. intros [?|[?|[?|Hm]]]; [by eapply quoted_newline_free|done|by eapply Hv|].
  destruct ms; [by apply not_elem_of_nil in Hm|]. apply elem_of_cons in Hm as [?|?]; [done|by apply IH].
Qed.

(** ** Reading an event back from its JSON. *)
Definition get_string (name : string) (ms : list (string * jvalue)) : string :=
  match find (λ m, (m.1 =? name)%string) ms with Some (_, JString s) => s | _ => "" end.
Definition get_bool (name : string) (ms : list (string * jvalue)) : bool :=
  match find (λ m, (m.1 =? name)%string) ms with Some (_, JBool b) => b | _ => false end.
Definition read_event (data : list Z) : option DispatchEvent :=
  match json_document (string_of_bytes data) with
  | Some (JObject ms) =>
      Some (mkDispatchEvent (get_string "type" ms) (get_string "request_id" ms) (get_string "trace_id" ms)
        (get_string "text" ms) (get_string "status" ms) (get_string "error" ms) (get_bool "done" ms))
  | _ => None
  end.

Lemma valid_keys ms : Forall (λ m : string * flat, to_valid m.1 = m.1) ms →
  (λ m : string * flat, (to_valid m.1, flat_value m.2)) <$> ms = (λ m, (m.1, flat_value m.2)) <$> ms.
Proof. induction 1 as [|m ms Hm _ IH]; [done|]. cbn. by rewrite Hm, IH. Qed.

Lemma omit_keys name value : to_valid name = name → Forall (λ m : string * flat, to_valid m.1 = m.1) (omit_empty name value).
Proof. intros. unfold omit_empty. case_match; by repeat constructor. Qed.

Ltac keys :=
  repeat match goal with
  | |- Forall _ (_ ++ _) => apply Forall_app_2
  | |- Forall _ (omit_empty _ _) => apply omit_keys; vm_compute; reflexivity
  | |- Forall _ (_ :: _) => apply Forall_cons; split; [vm_compute; reflexivity|]
  | |- Forall _ [] => apply Forall_nil_2
  end.

Definition valid_event (e : DispatchEvent) : DispatchEvent :=
  mkDispatchEvent (to_valid (ev_Type e)) (to_valid (ev_RequestID e)) (to_valid (ev_TraceID e)) (to_valid (ev_Text e))
    (to_valid (ev_Status e)) (to_valid (ev_Error e)) (ev_Done e).

Lemma read_event_json e : read_event (bytes (event_json e)) = Some (valid_event e).
Proof.
  unfold read_event. rewrite string_of_bytes_bytes. unfold event_json. rewrite json_document_flat, valid_keys by keys.
  destruct e as [ty rid tid tx st er dn]. cbn [ev_Type ev_RequestID ev_TraceID ev_Text ev_Status ev_Error ev_Done].
  unfold valid_event. cbn [ev_Type ev_RequestID ev_TraceID ev_Text ev_Status ev_Error ev_Done]. unfold omit_empty.
  destruct (String.eqb_spec tid ""), (String.eqb_spec tx ""), (String.eqb_spec st ""), (String.eqb_spec er "");
    subst; reflexivity.
Qed.

Lemma strip_app prefix l : strip prefix (prefix ++ l) = Some l.
Proof. induction prefix as [|b prefix IH]; [done|]. cbn. by rewrite Z.eqb_refl. Qed.

(** One event of a stream, whatever follows. *)
Lemma sse_frame e rest c : 10 ∉ bytes (ev_Type e) → sse_data c = None →
  foldl sse_line c (split_lines (bytes (writeSSEEvent e) ++ rest))
  = foldl sse_line (mkClient [] None (sse_done c ++ [(bytes (ev_Type e), bytes (event_json e))])) (split_lines rest).
Proof.
  intros Ht Hc. unfold writeSSEEvent. rewrite !bytes_app. change (bytes newline) with [10].
  assert (∀ (prefix : string) l, 10 ∉ bytes prefix → 10 ∉ l → 10 ∉ bytes prefix ++ l) as Hline.
  { intros prefix l H1 H2. by rewrite elem_of_app; intros [?|?]. }
  pose proof (Hline "event: "%string _ ltac:(apply (bool_decide_unpack _); vm_compute; exact I) Ht) as H1.
  pose proof (Hline "data: "%string (bytes (event_json e)) ltac:(apply (bool_decide_unpack _); vm_compute; exact I)
    (object_newline_free _)) as H2.
  rewrite <- !app_assoc. rewrite (app_assoc (bytes "event: ")), (app_assoc (bytes "data: ")). cbn [app].
  rewrite split_lines_line by done. rewrite split_lines_line by done.
  change (10 :: rest) with ([] ++ 10 :: rest). rewrite split_lines_line by apply not_elem_of_nil. cbn [foldl]. f_equal.
  assert (sse_line c (bytes "event: " ++ bytes (ev_Type e)) = mkClient (bytes (ev_Type e)) (sse_data c) (sse_done c)) as ->.
  { unfold sse_line. rewrite strip_app. reflexivity. }
  assert (sse_line (mkClient (bytes (ev_Type e)) (sse_data c) (sse_done c)) (bytes "data: " ++ bytes (event_json e))
    = mkClient (bytes (ev_Type e)) (Some (bytes (event_json e))) (sse_done c)) as ->.
  { unfold sse_line. rewrite strip_app. cbn. by rewrite Hc. }
  done.
Qed.

(** C32: a stream can be read.  A client that splits the body of a stream into lines, as the
    format of server-sent events prescribes, gets the events that were written, each under
    its type and with all its fields, whatever texts they carry; ill-formed UTF-8 is
    replaced. *)
Theorem stream_read_back events :
  Forall (λ e, ev_Type e ∈ [DispatchEventMessage; DispatchEventStatus; DispatchEventError; DispatchEventDone]) events →
  (λ p, (string_of_bytes p.1, read_event p.2)) <$> sse_read (String.concat "" (writeSSEEvent <$> events))
  = (λ e, (ev_Type e, Some (valid_event e))) <$> events.
Proof.
  intros Hty.
  assert (sse_read (String.concat "" (writeSSEEvent <$> events))
    = (λ e, (bytes (ev_Type e), bytes (event_json e))) <$> events) as ->.
  { unfold sse_read. change ((λ e, (bytes (ev_Type e), bytes (event_json e))) <$> events)
      with (sse_done (mkClient [] None []) ++ ((λ e, (bytes (ev_Type e), bytes (event_json e))) <$> events)).
    assert (sse_data (mkClient [] None []) = None) as Hd by done. revert Hd.
    generalize (mkClient [] None []) as c. induction Hty as [|e events He Hev IH]; intros c Hd.
    { cbn. rewrite Hd. cbn. by rewrite app_nil_r. }
    assert (bytes (String.concat "" (writeSSEEvent <$> e :: events))
      = bytes (writeSSEEvent e) ++ bytes (String.concat "" (writeSSEEvent <$> events))) as ->.
    { destruct events; cbn [fmap list_fmap String.concat]; [by rewrite app_nil_r|]. by rewrite !bytes_app. }
    rewrite sse_frame; [|apply elem_of_cons in He as [->|He]; [|revert He]|done].
    - rewrite IH by done. cbn. by rewrite <- app_assoc.
    - apply (bool_decide_unpack _). vm_compute. exact I.
    - rewrite !elem_of_cons, elem_of_nil. intros [->|[->|[->|[]]]]; apply (bool_decide_unpack _); vm_compute; exact I. }
  rewrite <- list_fmap_compose. apply list_fmap_ext. intros i e _.
  change ((string_of_bytes (bytes (ev_Type e)), read_event (bytes (event_json e))) = (ev_Type e, Some (valid_event e))).
  by rewrite string_of_bytes_bytes, read_event_json.
Qed.

(** ** Messages: the JSON that a client writes for a message. *)
Definition chat_json (m : InboundMessage) : string :=
  flat_object ([("content"%string, FString (m_Content m))] ++ omit_empty "content_type" (m_ContentType m)
    ++ omit_empty "external_message_id" (m_ExternalMessageID m) ++ [("external_user_id"%string, FString (m_ExternalUserID m))]
    ++ [("conversation_kind"%string, FString (m_ConversationKind m))] ++ omit_empty "external_peer_id" (m_ExternalPeerID m)
    ++ omit_empty "external_chat_id" (m_ExternalChatID m) ++ omit_empty "external_thread_id" (m_ExternalThreadID m)).
Definition valid_message (m : InboundMessage) : InboundMessage :=
  mkMessage (to_valid (m_Content m)) (to_valid (m_ContentType m)) (to_valid (m_ExternalMessageID m))
    (to_valid (m_ExternalUserID m)) (to_valid (m_ConversationKind m)) (to_valid (m_ExternalPeerID m))
    (to_valid (m_ExternalChatID m)) (to_valid (m_ExternalThreadID m)).

Lemma decode_members m0 ms1 ms2 :
  foldl decode_member m0 ((λ m : string * flat, (m.1, flat_value m.2)) <$> ms1 ++ ms2)
  = foldl decode_member (foldl decode_member m0 ((λ m, (m.1, flat_value m.2)) <$> ms1))
      ((λ m, (m.1, flat_value m.2)) <$> ms2).
Proof. by rewrite fmap_app, foldl_app. Qed.

Lemma decode_string m name value : name ∈ chat_fields →
  foldl decode_member (Some m) ((λ m : string * flat, (m.1, flat_value m.2)) <$> [(name, FString value)])
  = Some (set_field name (to_valid value) m).
Proof. intros Hn. cbn. unfold find_field. by rewrite bool_decide_eq_true_2. Qed.

Lemma decode_omitted m name value : name ∈ chat_fields → set_field name "" m = m →
  foldl decode_member (Some m) ((λ m : string * flat, (m.1, flat_value m.2)) <$> omit_empty name value)
  = Some (set_field name (to_valid value) m).
Proof.
  intros Hn Hm. unfold omit_empty. destruct (String.eqb_spec value "") as [->|]; [|by apply decode_string].
  change (to_valid "") with ""%string. by rewrite Hm.
Qed.

Lemma decode_chat_json m : json_document (chat_json m) ≫= decode_chat = Some (valid_message m).
Proof.
  unfold chat_json. rewrite json_document_flat, valid_keys by keys. cbn [mbind option_bind decode_chat].
  rewrite !decode_members. unfold empty_message.
  repeat match goal with
  | |- context [foldl decode_member (Some _) (_ <$> [(_, FString _)])] =>
      rewrite decode_string by (apply (bool_decide_unpack _); vm_compute; exact I); cbn [set_field String.eqb Ascii.eqb Bool.eqb]
  | |- context [foldl decode_member (Some _) (_ <$> omit_empty _ _)] =>
      rewrite decode_omitted by (reflexivity || (apply (bool_decide_unpack _); vm_compute; exact I)); cbn [set_field String.eqb Ascii.eqb Bool.eqb]
  end.
  reflexivity.
Qed.

(** A message can be sent.  A chat request whose body is the JSON of a message, within
    the limit of the handler, and whose content type is JSON in any spelling that names it,
    is decoded as exactly this message, up to the replacement of ill-formed UTF-8, and
    accepted if and only if the message is valid. *)
Theorem message_read_back limit rq m :
  rq_Body rq = chat_json m → rq_complete rq = true → isJSONContentType (rq_Header rq "Content-Type") = true →
  len (chat_json m) ≤ limit →
  decodeMessage limit rq = Gateway.Normalize (valid_message m)
  ∧ (Forall (λ s, valid_utf8 s = true) [m_Content m; m_ContentType m; m_ExternalMessageID m; m_ExternalUserID m;
       m_ConversationKind m; m_ExternalPeerID m; m_ExternalChatID m; m_ExternalThreadID m] → valid_message m = m).
Proof.
  intros Hb Hc Ht Hl. split.
  - unfold decodeMessage. rewrite Ht, Hc, Hb, (proj2 (Z.ltb_ge _ _) Hl). cbn [negb orb]. by rewrite decode_chat_json.
  - rewrite !Forall_cons. intros (? & ? & ? & ? & ? & ? & ? & ? & _). unfold valid_message.
    rewrite !to_valid_id by done. by destruct m.
Qed.

(** * The answer to an execution *)

(** What [redacted] says of the fields that the summary reads. *)
Definition proper_event (e : DispatchEvent) : Prop :=
  known_error e ∧ (ev_Done e = true ↔ ev_Type e = DispatchEventDone)
  ∧ (ev_Error e ≠ ""%string ↔ ev_Type e = DispatchEventError)
  ∧ ev_Type e ∈ [DispatchEventMessage; DispatchEventStatus; DispatchEventError; DispatchEventDone]
  ∧ (ev_Text e ≠ ""%string → ev_Type e = DispatchEventMessage).

Lemma add_event_proper r e : proper_event e →
  cr_Text (add_event r e) = (cr_Text r ++ ev_Text e)%string
  ∧ cr_Error (add_event r e) = (if (ev_Error e =? "")%string then cr_Error r else ev_Error e)
  ∧ (cr_Done r = true → cr_Done (add_event r e) = true)
  ∧ (ev_Error e ≠ ""%string → cr_Status (add_event r e) = "error"%string).
Proof.
  destruct e as [ty rid tid tx st er dn]. unfold proper_event, add_event. cbn.
  intros (_ & Hd & He & Hty & Htx).
  assert (ty ≠ DispatchEventMessage → tx = ""%string) as Htx' by (destruct (String.eqb_spec tx ""); [done|naive_solver]).
  assert (ty ≠ DispatchEventError → er = ""%string) as He' by (destruct (String.eqb_spec er ""); [done|naive_solver]).
  rewrite !elem_of_cons, elem_of_nil in Hty. destruct Hty as [->|[->|[->|[->|[]]]]]; cbn.
  - rewrite (He' ltac:(done)). done.
  - rewrite (He' ltac:(done)), (Htx' ltac:(done)), string_app_nil_r. done.
  - rewrite (Htx' ltac:(done)), string_app_nil_r. destruct (String.eqb_spec er "") as [->|]; [|done]. naive_solver.
  - rewrite (He' ltac:(done)), (Htx' ltac:(done)), string_app_nil_r. split_and!; try done. intros _. by apply Hd.
Qed.

Lemma add_events_proper r evs : Forall proper_event evs →
  cr_Text (foldl add_event r evs) = (cr_Text r ++ texts evs)%string
  ∧ (cr_Error (foldl add_event r evs) = ""%string ↔ cr_Error r = ""%string ∧ Forall (λ e, ev_Error e = ""%string) evs)
  ∧ (cr_Error (foldl add_event r evs) = cr_Error r ∨ ∃ e, e ∈ evs ∧ cr_Error (foldl add_event r evs) = ev_Error e)
  ∧ (cr_Done r = true → cr_Done (foldl add_event r evs) = true).
Proof.
  intros Hev. revert r. induction Hev as [|e evs He Hev IH]; intros r; cbn [foldl].
  { unfold texts. cbn. rewrite string_app_nil_r. split_and!; try done; [|by left]. split; [done|by intros []]. }
  destruct (add_event_proper r e He) as (Ht & Her & Hd & _). destruct (IH (add_event r e)) as (IH1 & IH2 & IH3 & IH4).
  rewrite Ht in IH1. rewrite Her in IH2, IH3. split_and!.
  - rewrite IH1, string_app_assoc. f_equal. change (e :: evs) with ([e] ++ evs). by rewrite texts_app.
  - rewrite IH2, Forall_cons. destruct (String.eqb_spec (ev_Error e) ""); naive_solver.
  - destruct (String.eqb_spec (ev_Error e) "").
    + destruct IH3 as [?|(e' & ? & ?)]; [by left|right]. exists e'. split; [by right|done].
    + right. destruct IH3 as [->|(e' & ? & ->)]; [exists e; split; [left|done]|exists e'; split; [by right|done]].
  - auto.
Qed.

(** The answer of a chat is the outcome of its execution.  For any execution of the
    dispatcher, the response that summarizes its events is done, has exactly the text that
    was streamed, and an error that is empty or one of the gateway's three texts, empty
    exactly if no error was sent.  If the durable message was settled as successful, then
    with the text of the response, and the response has no error. *)
Theorem response_of_execution peers principal message identity requestID traceID stimuli s :
  forward peers principal message identity requestID traceID stimuli = Some s →
  let r := finalChatResponse requestID traceID (sent (trace s)) in
  cr_Done r = true ∧ cr_Text r = texts (sent (trace s))
  ∧ cr_Error r ∈ [""; text_execution; text_canceled; text_audit]%string
  ∧ (cr_Error r = ""%string ↔ ¬ ∃ e, e ∈ sent (trace s) ∧ ev_Type e = DispatchEventError)
  ∧ ∃ failed reply, endings (trace s) = [Settled failed reply; LeaseReleased; Closed]
     ∧ (failed = false → cr_Text r = reply ∧ cr_Error r = ""%string).
Proof.
  intros Hf r. destruct (forward_shape _ _ _ _ _ _ _ _ Hf) as (Hr & _ & _).
  destruct (forward_settled _ _ _ _ _ _ _ _ Hf) as (failed & reply & Hend & Hok).
  assert (Forall proper_event (sent (trace s))) as Hp.
  { eapply Forall_impl; [exact Hr|]. intros e (_ & _ & ? & ? & ? & ? & ?). by split_and!. }
  destruct (add_events_proper (mkChatResponse requestID traceID "" "complete" "" true) _ Hp) as (Ht & He & Hin & Hd).
  change (foldl add_event _ (sent (trace s))) with r in Ht, He, Hin, Hd. cbn in Ht, He, Hin, Hd.
  rewrite Forall_forall in Hp.
  assert (cr_Error r = ""%string ↔ Forall (λ e, ev_Error e = ""%string) (sent (trace s))) as He' by (rewrite He; tauto).
  split_and!; [by apply Hd|done| | |].
  - destruct Hin as [->|(e & Hin & ->)]; [left|]. by apply (Hp e Hin).
  - rewrite He', Forall_forall. split.
    + intros Hall (e & Hin' & Hty). destruct (Hp e Hin') as (_ & _ & Hiff & _). apply Hiff in Hty. by apply Hty, Hall.
    + intros Hno e Hin'. destruct (String.eqb_spec (ev_Error e) "") as [|Hne]; [done|].
      destruct Hno. exists e. split; [done|]. by apply (Hp e Hin').
  - exists failed, reply. split; [done|]. intros Hfl. destruct (Hok Hfl) as (-> & Hall & _). split; [done|].
    by apply He'.
Qed.

(** * Witnesses and examples *)

Definition ex_config : HTTPConfig := mkHTTPConfig true true None None false None None 0 0.
Definition ex_handler : HTTPHandler :=
  mkHTTPHandler true true None None false defaultHTTPMaxBodyBytes defaultHTTPRequestTimeout true true.
Definition ex_shared : shared :=
  mkShared (mkLimiter 8 60 minute ∅ false) (mkIdempotencyStore (10 * minute) 4096 ∅ false) false.

(** A dispatcher that runs executions, with a Runner that answers in two parts. *)
Definition ex_execute (dr : DispatchRequest) : result go_error (option (list receive)) :=
  match forward (ex_peers (λ _, true)) (dr_Principal dr) (dr_Message dr) (mkRunnerIdentity "u" "s")
          (dr_RequestID dr) (dr_TraceID dr) ex_stimuli with
  | Some s => Ok (Some ((Received <$> sent (trace s)) ++ [ChannelClosed]))
  | None => Ok None
  end.
Definition ex_exchange (t : Z) (uuid : string) : exchange :=
  mkExchange true uuid (λ _, Ok (mkAuthenticated ex_api (Some ex_api))) background (ex_at t) ex_execute true (λ _, true).

Definition ex_message : InboundMessage := mkMessage "hello" "" "m-1" "user" "direct" "peer" "" "".
Definition ex_http (path : string) : request :=
  mkHTTPRequest MethodPost path (λ name, if (name =? "Content-Type")%string then "application/json" else ""%string)
    (chat_json ex_message) true.

Definition ex_op (i : nat) (t : Z) (uuid : string) : server_op := OAdvance i (ex_exchange t uuid).
(** Two requests for one message: the second comes while the first runs. *)
Definition ex_http_ops : list server_op :=
  [OArrive (ex_http "/v1/chat") (ex_exchange 5 "r1"); OArrive (ex_http "/v1/chat") (ex_exchange 5 "r2");
   ex_op 0 5 "r1"; ex_op 0 5 "r1"; ex_op 0 5 "r1"; ex_op 1 6 "r2"; ex_op 1 6 "r2"; ex_op 0 7 "r1"; ex_op 1 8 "r2";
   ex_op 0 9 "r1"; ex_op 1 9 "r2"].
Definition ex_server (n : nat) : server := server_run ex_handler (take n ex_http_ops) (mkServer ex_shared []).

Definition phase_name (ph : phase) : string :=
  match ph with
  | Entering => "entering" | Accepted _ => "accepted" | Leased _ _ => "leased" | Claimed _ _ _ => "claimed"
  | Leaving _ => "leaving" | Gone => "gone"
  end.

Example two_requests :
  (λ n, phase_name ∘ ss_phase <$> sv_sessions (ex_server n)) <$> [2; 5; 7; 8; 9; 11]%nat
  = [["entering"; "entering"]; ["claimed"; "entering"]; ["claimed"; "leased"]; ["leaving"; "leased"];
     ["leaving"; "leaving"]; ["gone"; "gone"]]%string
  ∧ (ss_out <$> sv_sessions (ex_server 11))
    = (λ rid, writeJSON 200 (response_json (mkChatResponse rid "" "hi there" "complete" "" true))) <$> ["r1"; "r2"]%string.
Proof. vm_compute. by split. Qed.

Lemma ex_new_handler : NewHTTPHandler ex_config = Ok (ex_handler, ex_shared).
Proof. reflexivity. Qed.

Lemma server_gives_back_witness :
  (∀ t, outstanding t (leases (ex_server 7)) ≤ 8)
  ∧ outstanding ex_tenant_id (leases (ex_server 7)) = 2
  ∧ (∀ t, active_of (limiter (sv_shared (ex_server 11))) t = 0).
Proof.
  destruct (server_gives_back ex_config ex_handler ex_shared (take 7 ex_http_ops) ex_new_handler ltac:(by split))
    as (Hb & _).
  destruct (server_gives_back ex_config ex_handler ex_shared (take 11 ex_http_ops) ex_new_handler ltac:(by split))
    as (_ & _ & _ & Hg).
  split_and!; [exact Hb|vm_compute; reflexivity|].
  refine (proj1 (Hg _)). unfold all_gone.
  assert ((λ ss, bool_decide (phase_name (ss_phase ss) = "gone"%string)) <$> sv_sessions (ex_server 11) = [true; true]) as Hn
    by (vm_compute; reflexivity).
  change (server_run ex_handler (take 11 ex_http_ops) (mkServer ex_shared [])) with (ex_server 11).
  destruct (sv_sessions (ex_server 11)) as [|s1 [|s2 [|]]]; try discriminate Hn.
  injection Hn as H1 H2. apply bool_decide_eq_true_1 in H1, H2.
  repeat constructor; [destruct (ss_phase s1)|destruct (ss_phase s2)]; done.
Defined.

Lemma ex_execution_events dr rs : ex_execute dr = Ok (Some rs) → execution_events dr rs.
Proof.
  unfold ex_execute. destruct (forward _ _ _ _ _ _ _) as [s|] eqn:Hf; [|discriminate]. intros [= <-].
  do 4 eexists. split; [exact Hf|]. intros e. rewrite elem_of_app, list_elem_of_fmap, list_elem_of_singleton.
  intros [(e' & [= ->] & ?)|?]; done.
Qed.

Lemma ex_runs_dispatcher n : Forall runs_dispatcher (take n ex_http_ops).
Proof. apply Forall_take. repeat constructor; exact ex_execution_events. Qed.

(** A request that is there. *)
Lemma ex_session n i : (i <? length (sv_sessions (ex_server n)))%nat = true → is_Some (sv_sessions (ex_server n) !! i).
Proof. intros Hi%Nat.ltb_lt. by apply lookup_lt_is_Some_2. Qed.

Lemma answers_redacted_witness :
  ∃ ss, sv_sessions (ex_server 11) !! 1%nat = Some ss ∧ answer known_error (ss_out ss)
    ∧ statuses (ss_out ss) = [200].
Proof.
  destruct (ex_session 11 1 ltac:(vm_compute; reflexivity)) as [ss Hi].
  assert (match sv_sessions (ex_server 11) !! 1%nat with
          | Some ss => bool_decide (rq_Path (ss_request ss) = "/v1/chat"%string) && bool_decide (phase_name (ss_phase ss) = "gone"%string)
                       && bool_decide (observed_status (ss_out ss) = 200)
          | None => false end = true) as Hc by (vm_compute; reflexivity).
  rewrite Hi in Hc. apply andb_true_iff in Hc as [[Hp Hg]%andb_true_iff Ho].
  apply bool_decide_eq_true_1 in Hp, Hg, Ho.
  pose proof (answers_redacted ex_config ex_handler ex_shared (take 11 ex_http_ops) 1 ss ex_new_handler
    ltac:(by split) (ex_runs_dispatcher 11) Hi (or_introl Hp)) as Ha.
  exists ss. split; [exact Hi|]. rewrite <- Ho. destruct (ss_phase ss); try discriminate Hg. destruct Ha as (? & ? & _). by split.
Defined.

Lemma requests_finish_witness :
  ∃ ss', sv_sessions (server_run ex_handler (OShutdown :: replicate 5 (ex_op 0 6 "r1")) (ex_server 1)) !! 0%nat = Some ss'
    ∧ ss_phase ss' = Gone.
Proof.
  destruct (ex_session 1 0 ltac:(vm_compute; reflexivity)) as [ss Hi].
  apply (requests_finish ex_handler _ _ 0 ss Hi).
  - constructor; [exact I|]. apply Forall_replicate. intros _ dr rs. unfold ex_exchange. cbn [x_dispatch]. unfold ex_execute.
    destruct (forward _ _ _ _ _ _ _); [|discriminate]. intros [= <-]. rewrite existsb_app. apply orb_true_r.
  - assert (5 <=? steps_of 0 (OShutdown :: replicate 5 (ex_op 0 6 "r1")))%nat as H by (vm_compute; reflexivity).
    by apply Nat.leb_le.
Defined.

(** The second request finds the record of the first. *)
Definition ex_response : string := response_json (mkChatResponse "r2" "" "hi there" "complete" "" true).
Definition ex_replay_ready (ss ss' : session) : bool :=
  match ss_phase ss, ss_phase ss' with
  | Claimed a _ claim, Leased (rid, tid, p, m) _ =>
      match entries (idempotency (sv_shared (ex_server 7))) !! claim_key claim,
            chat_execute (ex_exchange 7 "r1") (ss_stream ss) a with
      | Some e, Some (_, Some evs) =>
          negb (ss_stream ss') && negb (claim_done claim) && bool_decide (state e = IdempotencyPending)
          && bool_decide (request_key p m = Ok (claim_key claim)) && bool_decide (rid = "r2"%string) && bool_decide (tid = ""%string)
          && bool_decide (response_json (finalChatResponse "r2" "" (rebindDispatchEvents evs "r2" "")) = ex_response)
      | _, _ => false
      end
  | _, _ => false
  end.

Lemma messages_replayed_witness :
  ∃ ss lease s2, sv_sessions (ex_server 8) !! 1%nat = Some ss
    ∧ advance ex_handler (ex_exchange 8 "r2") (ss_request ss) (ss_stream ss) (ss_phase ss) (sv_shared (ex_server 8))
      = (s2, Leaving lease, writeJSON 200 ex_response).
Proof.
  destruct (ex_session 7 0 ltac:(vm_compute; reflexivity)) as [ss Hi].
  destruct (ex_session 8 1 ltac:(vm_compute; reflexivity)) as [ss' Hj].
  assert (match sv_sessions (ex_server 7) !! 0%nat, sv_sessions (ex_server 8) !! 1%nat with
    | Some ss, Some ss' => ex_replay_ready ss ss' | _, _ => false end = true) as Hc by (vm_compute; reflexivity).
  rewrite Hi, Hj in Hc. unfold ex_replay_ready in Hc.
  destruct (ss_phase ss) as [| | |a lease claim| |] eqn:Hph; [discriminate Hc..| |discriminate Hc|discriminate Hc].
  destruct (ss_phase ss') as [| |[[[rid tid] p] m] lease'| | |] eqn:Hph'; [discriminate Hc..| |discriminate Hc|discriminate Hc|discriminate Hc].
  destruct (entries (idempotency (sv_shared (ex_server 7))) !! claim_key claim) as [e|] eqn:He; [|discriminate Hc].
  destruct (chat_execute (ex_exchange 7 "r1") (ss_stream ss) a) as [[out [evs|]]|] eqn:Hx;
    [|discriminate Hc|discriminate Hc].
  repeat match type of Hc with (_ && _)%bool = true => apply andb_true_iff in Hc as [Hc ?] end.
  bool_prop. subst rid tid.
  assert (closed (idempotency (sv_shared (ex_server 7))) = false) as Hop by (vm_compute; reflexivity).
  assert (store_now (x_clock (ex_exchange 8 "r2"))
    < store_now (x_clock (ex_exchange 7 "r1")) + ttl (idempotency (sv_shared (ex_server 7)))) as Hnow by (vm_compute; reflexivity).
  destruct (messages_replayed ex_handler (ex_server 7) 0 (ex_exchange 7 "r1") ss a lease claim e out evs [] 1
    (ex_exchange 8 "r2") ss' "r2" "" p m lease' Hi Hph ltac:(assumption) Hop He ltac:(assumption) Hx
    (Forall_nil_2 _) Hj Hph' ltac:(assumption) eq_refl Hnow) as (s2 & out' & Hadv & Hout & _).
  exists ss', lease', s2. split; [exact Hj|].
  rewrite Hph' in Hadv |- *. etransitivity; [exact Hadv|]. rewrite Hout.
  match goal with H : ss_stream ss' = false |- _ => rewrite H end. unfold writeFinalResponse.
  match goal with H : response_json _ = ex_response |- _ => rewrite H end. reflexivity.
Defined.

Definition ex_events2 : list DispatchEvent :=
  [mkDispatchEvent DispatchEventMessage "r" "t" (newline ++ "data: x" ++ newline ++ newline) "" "" false;
   done_event "r" "t" "complete"].

Lemma stream_read_back_witness :
  (λ p, (string_of_bytes p.1, read_event p.2)) <$> sse_read (String.concat "" (writeSSEEvent <$> ex_events2))
  = [(DispatchEventMessage, Some (mkDispatchEvent DispatchEventMessage "r" "t" (newline ++ "data: x" ++ newline ++ newline) "" "" false));
     (DispatchEventDone, Some (done_event "r" "t" "complete"))].
Proof.
  etransitivity; [apply (stream_read_back ex_events2)|vm_compute; reflexivity].
  repeat constructor.
Defined.

Lemma message_read_back_witness :
  decodeMessage 1000 (ex_http "/v1/chat") = Gateway.Normalize ex_message ∧ is_ok (Gateway.Normalize ex_message) = true.
Proof.
  destruct (message_read_back 1000 (ex_http "/v1/chat") ex_message) as [Hd Hv];
    [reflexivity|reflexivity|vm_compute; reflexivity|vm_compute; discriminate|].
  split; [|vm_compute; reflexivity]. etransitivity; [exact Hd|]. rewrite (Hv ltac:(repeat constructor)). reflexivity.
Defined.

Lemma response_of_execution_witness :
  cr_Text (finalChatResponse "r1" "" (sent (trace ex_stream))) = "hi there"%string
  ∧ cr_Error (finalChatResponse "r1" "" (sent (trace ex_stream))) = ""%string.
Proof.
  assert (ex_forward (λ _, true) ex_stimuli = Some ex_stream) as Hf by (vm_compute; reflexivity).
  destruct (response_of_execution _ _ _ _ _ _ _ _ Hf) as (_ & Ht & _ & _ & failed & reply & Hend & Hok).
  assert (endings (trace ex_stream) = [Settled false "hi there"; LeaseReleased; Closed]) as He by (vm_compute; reflexivity).
  rewrite He in Hend. injection Hend as <- <-. exact (Hok eq_refl).
Defined.
