(* ===== verification/Capabilities.v ===== *)
(** The optional capabilities of the runtime store: memories with their asynchronous vector
    index, knowledge documents, artifacts, stored audit facts, vectors and objects
    ([trpcservice/runtime/storage/capabilities.go] and [storage/inmemory/capabilities.go]),
    and the life cycle of shared backends ([inmemory.go]).

    [Caps] holds the maps of [Store] that these methods use; [RuntimeStore] has the others.
    A method that takes the store mutex is one atomic action; [PutMemory] is two, since it
    sends to the index queue after it released the mutex.  Embeddings are lists of binary64
    numbers and scores are computed in binary64 without fused operations.  [sort.Slice] is a
    parameter, [SliceSort] is what its documentation promises.  Maps of metadata are as in
    [RuntimeStore]: nil, a JSON document or something that JSON cannot represent. *)
From Stdlib Require Import Ascii String.
From Corelib Require Import SpecFloat.
From S2P Require Import Prelude GoStrings GoFloat Ranking Sha256 RuntimeStore.
Local Open Scope Z_scope.

(** * The contract *)

Definition ValidateText (value : string) (max : Z) (requireNonEmpty : bool) : bool :=
  if str_empty (trim_space value) then negb requireNonEmpty && str_empty value
  else (max <=? 0) || (rune_count value <=? max).

Definition finite (x : spec_float) : bool :=
  match x with S754_nan | S754_infinity _ => false | _ => true end.
Definition ValidateEmbedding (values : list spec_float) : bool := forallb finite values.

Record MemoryRecord := mkMemory {
  me_TenantID : string; me_MemoryID : string; me_UserID : string; me_SessionID : string; me_Content : string;
  me_Topics : list string; me_Metadata : any_map; me_Embedding : list spec_float; me_Version : Z;
  me_DeletedAt : option time; me_CreatedAt : time; me_UpdatedAt : time }.

Record MemoryInput := mkMemoryInput {
  mi_TenantID : string; mi_MemoryID : string; mi_UserID : string; mi_SessionID : string; mi_Content : string;
  mi_Topics : list string; mi_Metadata : any_map; mi_Embedding : list spec_float }.

Record KnowledgeDocument := mkKnowledge {
  kn_TenantID : string; kn_DocumentID : string; kn_Content : string; kn_Metadata : any_map;
  kn_Embedding : list spec_float; kn_Version : Z; kn_Digest : string; kn_CreatedAt : time; kn_UpdatedAt : time }.

Record ArtifactRecord := mkArtifact {
  ar_TenantID : string; ar_ArtifactID : string; ar_SessionID : string; ar_Name : string; ar_MimeType : string;
  ar_Content : string; ar_Version : Z; ar_CreatedAt : time; ar_UpdatedAt : time }.

(** A payload may hold Go values that JSON does not give back, such as integers: then it is
    not [normal], and [reflect.DeepEqual] tells it from the stored copy. *)
Inductive payload := NilPayload | Payload (doc : string) (normal : bool) | BadPayload.
#[export] Instance payload_eq_dec : EqDecision payload.
Proof. solve_decision. Defined.

Record AuditRecord := mkAuditRecord {
  au_TenantID : string; au_AuditID : string; au_EventType : string; au_Payload : payload; au_OccurredAt : time }.

Definition VectorSourceGeneric : string := "generic".
Definition VectorSourceMemory : string := "memory".
Definition VectorSourceKnowledge : string := "knowledge".

Record VectorRecord := mkVector {
  ve_TenantID : string; ve_Source : string; ve_DocumentID : string; ve_Content : string; ve_Metadata : any_map;
  ve_Embedding : list spec_float; ve_Version : Z; ve_UpdatedAt : time }.

Record ObjectInfo := mkObjectInfo {
  ob_TenantID : string; ob_ObjectKey : string; ob_ContentType : string; ob_Size : Z; ob_ETag : string;
  ob_CreatedAt : time }.

#[export] Instance MemoryRecord_eq_dec : EqDecision MemoryRecord.
Proof. solve_decision. Defined.
#[export] Instance VectorRecord_eq_dec : EqDecision VectorRecord.
Proof. solve_decision. Defined.

(** * The state *)

Record Caps := mkCaps {
  memories : gmap string MemoryRecord;
  knowledge : gmap string KnowledgeDocument;
  artifacts : gmap string ArtifactRecord;
  audits : gmap string (list AuditRecord);
  vectors : gmap string VectorRecord;
  objects : gmap string ObjectInfo;
  objectData : gmap string string;
  indexQueue : list MemoryRecord;
  indexDone : bool }.
Definition newCaps : Caps := mkCaps ∅ ∅ ∅ ∅ ∅ ∅ ∅ [] false.
Definition indexQueueCapacity : Z := 128.

Definition set_memories m s := mkCaps m (knowledge s) (artifacts s) (audits s) (vectors s) (objects s) (objectData s) (indexQueue s) (indexDone s).
Definition set_knowledge m s := mkCaps (memories s) m (artifacts s) (audits s) (vectors s) (objects s) (objectData s) (indexQueue s) (indexDone s).
Definition set_artifacts m s := mkCaps (memories s) (knowledge s) m (audits s) (vectors s) (objects s) (objectData s) (indexQueue s) (indexDone s).
Definition set_audits m s := mkCaps (memories s) (knowledge s) (artifacts s) m (vectors s) (objects s) (objectData s) (indexQueue s) (indexDone s).
Definition set_vectors m s := mkCaps (memories s) (knowledge s) (artifacts s) (audits s) m (objects s) (objectData s) (indexQueue s) (indexDone s).
Definition set_objects m d s := mkCaps (memories s) (knowledge s) (artifacts s) (audits s) (vectors s) m d (indexQueue s) (indexDone s).
Definition set_queue q s := mkCaps (memories s) (knowledge s) (artifacts s) (audits s) (vectors s) (objects s) (objectData s) q (indexDone s).
Definition set_done s := mkCaps (memories s) (knowledge s) (artifacts s) (audits s) (vectors s) (objects s) (objectData s) (indexQueue s) true.

Definition empty_map : any_map := JSONMap "{}".
(** [if m == nil { m = map[string]any{} }]. *)
Definition or_empty (m : any_map) : any_map := match m with NilMap => empty_map | m => m end.
(** [m != nil && cloneMap(m) == nil]. *)
Definition not_json (m : any_map) : bool := bool_decide (m = NotJSON).

(** * Memories *)

Definition valid_memory (input : MemoryInput) : bool :=
  is_ok (ValidateTenant (mi_TenantID input)) && ValidateText (mi_UserID input) 256 true
  && ValidateText (mi_Content input) 0 true && ValidateText (mi_MemoryID input) 256 false
  && ValidateText (mi_SessionID input) 256 false && ValidateEmbedding (mi_Embedding input)
  && negb (not_json (mi_Metadata input)).

(** The part of [PutMemory] under the mutex: the record to return and to index.  A memory
    that was deleted comes back with the next version. *)
Definition put_memory (clk : clock) (uuid : string) (input : MemoryInput) (s : Caps) : Caps * MemoryRecord :=
  let id := if str_empty (mi_MemoryID input) then ("mem_" ++ uuid)%string else mi_MemoryID input in
  let now := clk 0%nat in
  let k := key [mi_TenantID input; id] in
  let record version created :=
    mkMemory (mi_TenantID input) id (mi_UserID input) (mi_SessionID input) (mi_Content input) (mi_Topics input)
      (cloneMap (or_empty (mi_Metadata input))) (mi_Embedding input) version None created now in
  let value := match memories s !! k with
               | Some existing => record (wrap64 (me_Version existing + 1)) (me_CreatedAt existing)
               | None => record 1 now
               end in
  (set_memories (<[k := value]> (memories s)) s, value).

(** What the blocking send of [enqueueIndex] meets: room in the queue, or the end of the
    context.  A closed index always wins the first select; in the second, any ready case may
    be chosen, so a done context may win over a free place. *)
Definition enqueueIndex (ctx_done : option ctx_error) (value : MemoryRecord) (s : Caps) : option (Caps * result error unit) :=
  if indexDone s then Some (s, Err ErrStorage)
  else match ctx_done with
       | Some e => Some (s, Err (ErrContext e))
       | None => if Z.of_nat (length (indexQueue s)) <? indexQueueCapacity
                 then Some (set_queue (indexQueue s ++ [value]) s, Ok ())
                 else None
       end.

(** Both parts, when nothing comes between them; [None] is a send that waits. *)
Definition PutMemory (ctx : context) (clk : clock) (uuid : string) (ctx_done : option ctx_error) (input : MemoryInput)
    (s : Caps) : option (Caps * result error MemoryRecord * option MemoryRecord) :=
  match check ctx with
  | Err e => Some (s, Err e, None)
  | Ok _ =>
      if negb (valid_memory input) then Some (s, Err ErrInvalid, None)
      else
        let '(s1, value) := put_memory clk uuid input s in
        '(s2, r) ← enqueueIndex ctx_done value s1;
        Some (s2, match r with Ok _ => Ok value | Err e => Err e end, Some value)
  end.

Definition live (m : MemoryRecord) : bool := opt_is_nil (me_DeletedAt m).

Definition GetMemory (ctx : context) (tenantID memoryID : string) : act Caps error MemoryRecord :=
  _ ← lift (check ctx);
  _ ← ensure (is_ok (ValidateTenant tenantID) && negb (str_empty memoryID)) ErrInvalid;
  s ← get;
  match memories s !! key [tenantID; memoryID] with
  | Some value => if live value then mret value else throw ErrNotFound
  | None => throw ErrNotFound
  end.

Definition DeleteMemory (ctx : context) (clk : clock) (tenantID memoryID : string) : act Caps error unit :=
  _ ← lift (check ctx);
  _ ← ensure (is_ok (ValidateTenant tenantID) && negb (str_empty memoryID)) ErrInvalid;
  s ← get;
  let k := key [tenantID; memoryID] in
  match memories s !! k with
  | Some m =>
      if live m then
        let now := clk 0%nat in
        let m' := mkMemory (me_TenantID m) (me_MemoryID m) (me_UserID m) (me_SessionID m) (me_Content m) (me_Topics m)
          (me_Metadata m) (me_Embedding m) (wrap64 (me_Version m + 1)) (Some now) (me_CreatedAt m) now in
        put (set_vectors (delete (key [tenantID; VectorSourceMemory; memoryID]) (vectors s))
               (set_memories (<[k := m']> (memories s)) s))
      else throw ErrNotFound
  | None => throw ErrNotFound
  end.

(** The checks of [EnqueueMemoryIndex]: the record to send. *)
Definition index_request (ctx : context) (value : MemoryRecord) (s : Caps) : result error MemoryRecord :=
  _ ← check ctx;
  _ ← guard_ok (is_ok (ValidateTenant (me_TenantID value)) && negb (str_empty (me_MemoryID value))
        && (1 <=? me_Version value)) ErrInvalid;
  match memories s !! key [me_TenantID value; me_MemoryID value] with
  | Some current => if negb (live current) then Err ErrNotFound
                    else if negb (me_Version current =? me_Version value) then Err ErrConflict
                    else Ok current
  | None => Err ErrNotFound
  end.
Definition EnqueueMemoryIndex (ctx : context) (ctx_done : option ctx_error) (value : MemoryRecord) (s : Caps)
    : option (Caps * result error unit) :=
  match index_request ctx value s with
  | Err e => Some (s, Err e)
  | Ok current => enqueueIndex ctx_done current s
  end.

(** The vector of a memory. *)
Definition memory_vector (m : MemoryRecord) : VectorRecord :=
  mkVector (me_TenantID m) VectorSourceMemory (me_MemoryID m) (me_Content m) (cloneMap (me_Metadata m)) (me_Embedding m)
    (me_Version m) (me_UpdatedAt m).

(** One turn of the worker; when the index is closed it may stop or take another record. *)
Definition index_record (value : MemoryRecord) (s : Caps) : Caps :=
  if negb (live value) then s
  else
    match memories s !! key [me_TenantID value; me_MemoryID value] with
    | Some current =>
        if (me_Version current =? me_Version value) && live current then
          let vectorKey := key [me_TenantID value; VectorSourceMemory; me_MemoryID value] in
          match me_Embedding current with
          | [] => set_vectors (delete vectorKey (vectors s)) s
          | _ => set_vectors (<[vectorKey := memory_vector current]> (vectors s)) s
          end
        else s
    | None => s
    end.
Definition indexWorker (stop : bool) (s : Caps) : Caps :=
  if indexDone s && stop then s
  else match indexQueue s with
       | [] => s
       | value :: rest => index_record value (set_queue rest s)
       end.

(** The polling loop of [WaitForMemoryIndex]: what each poll finds in the store and what ends
    the wait after it.  [None]: still waiting. *)
Inductive wake := Tick | WokenByContext (e : ctx_error) | WokenByDone.
Definition indexed (tenantID memoryID : string) (version : Z) (s : Caps) : bool :=
  match vectors s !! key [tenantID; VectorSourceMemory; memoryID] with
  | Some v => version <=? ve_Version v
  | None => false
  end.
Fixpoint wait_loop (tenantID memoryID : string) (version : Z) (polls : list (Caps * wake)) : option (result error unit) :=
  match polls with
  | [] => None
  | (s, w) :: rest =>
      if indexed tenantID memoryID version s then Some (Ok ())
      else match w with
           | WokenByContext e => Some (Err (ErrContext e))
           | WokenByDone => Some (Err ErrStorage)
           | Tick => wait_loop tenantID memoryID version rest
           end
  end.
Definition WaitForMemoryIndex (ctx : context) (tenantID memoryID : string) (version : Z) (polls : list (Caps * wake))
    : option (result error unit) :=
  match check ctx with
  | Err e => Some (Err e)
  | Ok _ =>
      if negb (is_ok (ValidateTenant tenantID)) || str_empty memoryID || (version <? 1) then Some (Err ErrInvalid)
      else wait_loop tenantID memoryID version polls
  end.

(** * Listing and searching *)

(** [strings.Fields]: the words between runs of space. *)
Fixpoint words (cs : list (Z * list Z)) (word : list (Z * list Z)) : list string :=
  let close := match word with [] => [] | _ => [string_of_bytes (join_chunks word)] end in
  match cs with
  | [] => close
  | c :: cs' => if is_space c.1 then close ++ words cs' [] else words cs' (word ++ [c])
  end.
Definition strings_Fields (s : string) : list string := words (chunks (bytes s)) [].

(** Go's string comparison is bytewise. *)
Definition str_less (a b : string) : bool :=
  (a <? b)%string.

(** [dot += l*r] and so on, in binary64. *)
Definition f64_add : spec_float → spec_float → spec_float := SFadd 53 1024.
Definition f64_mul : spec_float → spec_float → spec_float := SFmul 53 1024.
Definition f64_div : spec_float → spec_float → spec_float := SFdiv 53 1024.
Definition f64_sqrt : spec_float → spec_float := SFsqrt 53 1024.
Definition f64_zero : spec_float := S754_zero false.
Fixpoint cosine_sums (left right : list spec_float) (dot nl nr : spec_float) : spec_float * spec_float * spec_float :=
  match left, right with
  | l :: left', r :: right' =>
      cosine_sums left' right' (f64_add dot (f64_mul l r)) (f64_add nl (f64_mul l l)) (f64_add nr (f64_mul r r))
  | _, _ => (dot, nl, nr)
  end.
Definition cosine (left right : list spec_float) : option spec_float :=
  if (length left =? 0)%nat || negb (length left =? length right)%nat then None
  else
    let '(dot, nl, nr) := cosine_sums left right f64_zero f64_zero f64_zero in
    if f64_eqb nl f64_zero || f64_eqb nr f64_zero then None
    else Some (f64_div dot (f64_mul (f64_sqrt nl) (f64_sqrt nr))).

(** Higher scores first. *)
Definition score_less {A} (tie : A → A → bool) (x y : A * spec_float) : bool :=
  if f64_eqb x.2 y.2 then tie x.1 y.1 else f64_gtb x.2 y.2.

Definition limited {A} (limit : Z) (l : list A) : list A :=
  if (0 <? limit) && (limit <? Z.of_nat (length l)) then take (Z.to_nat limit) l else l.

Section Search.
Context (sort : ∀ A, (A → A → bool) → list A → list A).

Definition values {A} (m : gmap string A) : list A := (map_to_list m).*2.

Definition newer (x y : MemoryRecord) : bool :=
  if me_UpdatedAt x =? me_UpdatedAt y then str_less (me_MemoryID x) (me_MemoryID y)
  else after (me_UpdatedAt x) (me_UpdatedAt y).
Definition memory_of (tenantID userID : string) (m : MemoryRecord) : bool :=
  (me_TenantID m =? tenantID)%string && (me_UserID m =? userID)%string && live m.
Definition ListMemories (ctx : context) (tenantID userID : string) (limit : Z) : act Caps error (list MemoryRecord) :=
  _ ← lift (check ctx);
  _ ← ensure (is_ok (ValidateTenant tenantID) && negb (str_empty (trim_space userID)) && (0 <=? limit)) ErrInvalid;
  s ← get;
  mret (limited limit (sort _ newer (filter (λ m, memory_of tenantID userID m = true) (values (memories s))))).

Definition hits (terms : list string) (m : MemoryRecord) : Z :=
  Z.of_nat (length (filter (λ term, contains (to_lower (me_Content m)) term = true) terms)).
Definition memory_score (terms : list string) (m : MemoryRecord) : option (MemoryRecord * spec_float) :=
  if 0 <? hits terms m then Some (m, f64_ratio (hits terms m) (Z.of_nat (length terms))) else None.
Definition SearchMemories (ctx : context) (tenantID userID query : string) (limit : Z)
    : act Caps error (list (MemoryRecord * spec_float)) :=
  _ ← lift (check ctx);
  _ ← ensure (is_ok (ValidateTenant tenantID) && negb (str_empty (trim_space userID)) && negb (str_empty (trim_space query))
        && (0 <=? limit)) ErrInvalid;
  let terms := strings_Fields (to_lower query) in
  s ← get;
  mret (limited limit (sort _ (score_less (λ x y, str_less (me_MemoryID x) (me_MemoryID y)))
    (omap (memory_score terms) (filter (λ m, memory_of tenantID userID m = true) (values (memories s)))))).

(** * Summaries *)

(** [PutSummary] itself is part of [RuntimeStore]. *)
Definition EnqueueSummary (ctx : context) (clk : clock) (value : SummaryRecord) : act Store error unit :=
  _ ← PutSummary ctx clk value;
  mret tt.

(** * Knowledge *)

Definition knowledge_vector (d : KnowledgeDocument) : VectorRecord :=
  mkVector (kn_TenantID d) VectorSourceKnowledge (kn_DocumentID d) (kn_Content d) (cloneMap (kn_Metadata d)) (kn_Embedding d)
    (kn_Version d) (kn_UpdatedAt d).
Definition PutKnowledge (ctx : context) (clk : clock) (value : KnowledgeDocument) : act Caps error KnowledgeDocument :=
  _ ← lift (check ctx);
  _ ← ensure (is_ok (ValidateTenant (kn_TenantID value)) && ValidateText (kn_DocumentID value) 256 true
        && ValidateText (kn_Content value) 0 true && ValidateText (kn_Digest value) 128 false
        && ValidateEmbedding (kn_Embedding value)) ErrInvalid;
  _ ← ensure (negb (not_json (kn_Metadata value))) ErrInvalid;
  let now := clk 0%nat in
  s ← get;
  let k := key [kn_TenantID value; kn_DocumentID value] in
  let '(version, created) := match knowledge s !! k with
                             | Some existing => (wrap64 (kn_Version existing + 1), kn_CreatedAt existing)
                             | None => (1, now)
                             end in
  let digest := if str_empty (kn_Digest value) then sha256_hex (kn_Content value) else kn_Digest value in
  let d := mkKnowledge (kn_TenantID value) (kn_DocumentID value) (kn_Content value) (or_empty (cloneMap (kn_Metadata value)))
    (kn_Embedding value) version digest created now in
  let vk := key [kn_TenantID value; VectorSourceKnowledge; kn_DocumentID value] in
  _ ← put (set_vectors (match kn_Embedding d with [] => delete vk (vectors s) | _ => <[vk := knowledge_vector d]> (vectors s) end)
        (set_knowledge (<[k := d]> (knowledge s)) s));
  mret d.

Definition GetKnowledge (ctx : context) (tenantID documentID : string) : act Caps error KnowledgeDocument :=
  _ ← lift (check ctx);
  _ ← ensure (is_ok (ValidateTenant tenantID) && negb (str_empty documentID)) ErrInvalid;
  s ← get;
  match knowledge s !! key [tenantID; documentID] with Some d => mret d | None => throw ErrNotFound end.

Definition scored {A} (embedding : A → list spec_float) (query : list spec_float) (x : A) : option (A * spec_float) :=
  score ← cosine query (embedding x); Some (x, score).
Definition SearchKnowledge (ctx : context) (tenantID : string) (embedding : list spec_float) (limit : Z)
    : act Caps error (list (KnowledgeDocument * spec_float)) :=
  _ ← lift (check ctx);
  _ ← ensure (is_ok (ValidateTenant tenantID) && negb (length embedding =? 0)%nat && (0 <=? limit)) ErrInvalid;
  s ← get;
  mret (limited limit (sort _ (score_less (λ x y, str_less (kn_DocumentID x) (kn_DocumentID y)))
    (omap (scored kn_Embedding embedding)
      (filter (λ d, kn_TenantID d = tenantID ∧ kn_Embedding d ≠ []) (values (knowledge s)))))).

Definition DeleteKnowledge (ctx : context) (tenantID documentID : string) : act Caps error unit :=
  _ ← lift (check ctx);
  _ ← ensure (is_ok (ValidateTenant tenantID) && negb (str_empty documentID)) ErrInvalid;
  s ← get;
  let k := key [tenantID; documentID] in
  match knowledge s !! k with
  | None => throw ErrNotFound
  | Some _ => put (set_vectors (delete (key [tenantID; VectorSourceKnowledge; documentID]) (vectors s))
                     (set_knowledge (delete k (knowledge s)) s))
  end.

(** * Artifacts *)

Definition PutArtifact (ctx : context) (clk : clock) (value : ArtifactRecord) : act Caps error ArtifactRecord :=
  _ ← lift (check ctx);
  _ ← ensure (is_ok (ValidateTenant (ar_TenantID value)) && ValidateText (ar_ArtifactID value) 256 true
        && ValidateText (ar_SessionID value) 256 false && ValidateText (ar_Name value) 512 false
        && ValidateText (ar_MimeType value) 256 false && negb (str_empty (ar_Content value))) ErrInvalid;
  s ← get;
  let k := key [ar_TenantID value; ar_ArtifactID value] in
  let '(version, created, updated) := match artifacts s !! k with
                             | Some existing => (wrap64 (ar_Version existing + 1), ar_CreatedAt existing, clk 0%nat)
                             | None => (1, clk 0%nat, clk 1%nat)
                             end in
  let a := mkArtifact (ar_TenantID value) (ar_ArtifactID value) (ar_SessionID value) (ar_Name value) (ar_MimeType value)
    (ar_Content value) version created updated in
  _ ← put (set_artifacts (<[k := a]> (artifacts s)) s);
  mret a.

Definition GetArtifact (ctx : context) (tenantID artifactID : string) : act Caps error ArtifactRecord :=
  _ ← lift (check ctx);
  _ ← ensure (is_ok (ValidateTenant tenantID) && negb (str_empty artifactID)) ErrInvalid;
  s ← get;
  match artifacts s !! key [tenantID; artifactID] with Some a => mret a | None => throw ErrNotFound end.

Definition ListArtifacts (ctx : context) (tenantID sessionID : string) : act Caps error (list ArtifactRecord) :=
  _ ← lift (check ctx);
  _ ← ensure (is_ok (ValidateTenant tenantID)) ErrInvalid;
  s ← get;
  mret (sort _ (λ x y, str_less (ar_ArtifactID x) (ar_ArtifactID y))
    (filter (λ a, ar_TenantID a = tenantID ∧ (sessionID = ""%string ∨ ar_SessionID a = sessionID)) (values (artifacts s)))).

Definition DeleteArtifact (ctx : context) (tenantID artifactID : string) : act Caps error unit :=
  _ ← lift (check ctx);
  _ ← ensure (is_ok (ValidateTenant tenantID) && negb (str_empty artifactID)) ErrInvalid;
  s ← get;
  let k := key [tenantID; artifactID] in
  match artifacts s !! k with
  | None => throw ErrNotFound
  | Some _ => put (set_artifacts (delete k (artifacts s)) s)
  end.

(** * Stored audit facts *)

(** The copy of a payload through JSON. *)
Definition clone_payload (p : payload) : payload :=
  match p with Payload doc _ => Payload doc true | _ => NilPayload end.
Definition stored_payload (p : payload) : payload :=
  match clone_payload p with NilPayload => Payload "{}" true | p => p end.

Definition AppendAudit (ctx : context) (clk : clock) (uuid : string) (value : AuditRecord) : act Caps error AuditRecord :=
  _ ← lift (check ctx);
  _ ← ensure (is_ok (ValidateTenant (au_TenantID value)) && ValidateText (au_EventType value) 128 true
        && ValidateText (au_AuditID value) 256 false) ErrInvalid;
  _ ← ensure (negb (bool_decide (au_Payload value = BadPayload))) ErrInvalid;
  let id := if str_empty (au_AuditID value) then uuid else au_AuditID value in
  let occurred := if is_zero (au_OccurredAt value) then clk 0%nat else au_OccurredAt value in
  s ← get;
  let rows := default [] (audits s !! au_TenantID value) in
  match find (λ row, (au_AuditID row =? id)%string) rows with
  | Some row =>
      if negb (bool_decide (au_Payload row = au_Payload value)) || negb (au_EventType row =? au_EventType value)%string
      then throw ErrConflict else mret row
  | None =>
      let row := mkAuditRecord (au_TenantID value) id (au_EventType value) (stored_payload (au_Payload value)) occurred in
      _ ← put (set_audits (<[au_TenantID value := rows ++ [row]]> (audits s)) s);
      mret row
  end.

Definition earlier (x y : AuditRecord) : bool :=
  if au_OccurredAt x =? au_OccurredAt y then str_less (au_AuditID x) (au_AuditID y)
  else before (au_OccurredAt x) (au_OccurredAt y).
Definition ListAudit (ctx : context) (tenantID : string) (since : time) (limit : Z) : act Caps error (list AuditRecord) :=
  _ ← lift (check ctx);
  _ ← ensure (is_ok (ValidateTenant tenantID) && (0 <=? limit)) ErrInvalid;
  s ← get;
  mret (limited limit (sort _ earlier
    (filter (λ row, is_zero since = true ∨ before (au_OccurredAt row) since = false) (default [] (audits s !! tenantID))))).

(** * Vectors *)

Definition UpsertVector (ctx : context) (clk : clock) (value : VectorRecord) : act Caps error unit :=
  _ ← lift (check ctx);
  _ ← ensure (is_ok (ValidateTenant (ve_TenantID value)) && ValidateText (ve_DocumentID value) 256 true
        && negb (length (ve_Embedding value) =? 0)%nat && ValidateEmbedding (ve_Embedding value)
        && ValidateText (ve_Source value) 128 false) ErrInvalid;
  _ ← ensure (negb (not_json (ve_Metadata value))) ErrInvalid;
  s ← get;
  let source := if str_empty (ve_Source value) then VectorSourceGeneric else ve_Source value in
  _ ← ensure (negb (str_empty (trim_space source))) ErrInvalid;
  let v := mkVector (ve_TenantID value) source (ve_DocumentID value) (ve_Content value) (or_empty (cloneMap (ve_Metadata value)))
    (ve_Embedding value) (if ve_Version value <? 1 then 1 else ve_Version value)
    (if is_zero (ve_UpdatedAt value) then clk 0%nat else ve_UpdatedAt value) in
  let k := key [ve_TenantID v; ve_Source v; ve_DocumentID v] in
  match vectors s !! k with
  | Some existing => if ve_Version v <? ve_Version existing then throw ErrConflict
                     else put (set_vectors (<[k := v]> (vectors s)) s)
  | None => put (set_vectors (<[k := v]> (vectors s)) s)
  end.

Definition vector_tie (x y : VectorRecord) : bool :=
  if (ve_DocumentID x =? ve_DocumentID y)%string then str_less (ve_Source x) (ve_Source y)
  else str_less (ve_DocumentID x) (ve_DocumentID y).
Definition SearchVectors (ctx : context) (tenantID : string) (embedding : list spec_float) (limit : Z)
    : act Caps error (list (VectorRecord * spec_float)) :=
  _ ← lift (check ctx);
  _ ← ensure (is_ok (ValidateTenant tenantID) && negb (length embedding =? 0)%nat && (0 <=? limit)) ErrInvalid;
  s ← get;
  mret (limited limit (sort _ (score_less vector_tie)
    (omap (scored ve_Embedding embedding) (filter (λ v, ve_TenantID v = tenantID) (values (vectors s)))))).

(** A vector of the document, in whichever source. *)
Definition of_document (tenantID documentID : string) (p : string * VectorRecord) : Prop :=
  ve_TenantID p.2 = tenantID ∧ ve_DocumentID p.2 = documentID.
#[export] Instance of_document_dec t d p : Decision (of_document t d p).
Proof. unfold of_document. apply _. Defined.
Definition DeleteVector (ctx : context) (tenantID documentID : string) : act Caps error unit :=
  _ ← lift (check ctx);
  _ ← ensure (is_ok (ValidateTenant tenantID) && negb (str_empty documentID)) ErrInvalid;
  s ← get;
  if bool_decide (filter (of_document tenantID documentID) (vectors s) = ∅) then throw ErrNotFound
  else put (set_vectors (filter (λ p, ¬ of_document tenantID documentID p) (vectors s)) s).

(** * Objects *)

(** [content] is what the reader yields: its bytes, or an error before their end. *)
Definition PutObject (ctx : context) (clk : clock) (tenantID objectKey : string) (content : option (option string))
    (contentType : string) : act Caps error ObjectInfo :=
  _ ← lift (check ctx);
  _ ← ensure (is_ok (ValidateTenant tenantID) && ValidateText objectKey 1024 true && ValidateText contentType 256 false
        && negb (opt_is_nil content)) ErrInvalid;
  match content with
  | Some (Some data) =>
      s ← get;
      let k := key [tenantID; objectKey] in
      let created := match objects s !! k with Some existing => ob_CreatedAt existing | None => clk 0%nat end in
      let value := mkObjectInfo tenantID objectKey contentType (len data) (sha256_hex data) created in
      _ ← put (set_objects (<[k := value]> (objects s)) (<[k := data]> (objectData s)) s);
      mret value
  | _ => throw ErrStorage
  end.

Definition GetObject (ctx : context) (tenantID objectKey : string) : act Caps error (string * ObjectInfo) :=
  _ ← lift (check ctx);
  _ ← ensure (is_ok (ValidateTenant tenantID) && negb (str_empty objectKey)) ErrInvalid;
  s ← get;
  let k := key [tenantID; objectKey] in
  match objects s !! k with
  | Some value => mret (default ""%string (objectData s !! k), value)
  | None => throw ErrNotFound
  end.

Definition DeleteObject (ctx : context) (tenantID objectKey : string) : act Caps error unit :=
  _ ← lift (check ctx);
  _ ← ensure (is_ok (ValidateTenant tenantID) && negb (str_empty objectKey)) ErrInvalid;
  s ← get;
  let k := key [tenantID; objectKey] in
  match objects s !! k with
  | None => throw ErrNotFound
  | Some _ => put (set_objects (delete k (objects s)) (delete k (objectData s)) s)
  end.
End Search.

(** * Shared backends *)

(** [done_closes] counts the calls of [close(done)]; a second one would panic. *)
Record backendLifecycle := mkLifecycle { refs : Z; lc_closed : bool; done_closes : nat }.
Definition newLifecycle : backendLifecycle := mkLifecycle 1 false 0.
Definition retain (l : backendLifecycle) : backendLifecycle * bool :=
  if lc_closed l then (l, false) else (mkLifecycle (refs l + 1) (lc_closed l) (done_closes l), true).
Definition release (l : backendLifecycle) : backendLifecycle :=
  let n := if 0 <? refs l then refs l - 1 else refs l in
  if negb (n =? 0) || lc_closed l then mkLifecycle n (lc_closed l) (done_closes l)
  else mkLifecycle n true (S (done_closes l)).

(** The owner of a backend and its views, each with whether its [closeOnce] ran; a view that
    was made after the end does not hold a reference.  The zero value of a backend gets its
    state with the first view. *)
Record view := mkView { vw_retained : bool; vw_closed : bool }.
Record Backend := mkBackend { lifecycle : option backendLifecycle; owner_closed : bool; views : list view }.
Definition ZeroBackend : Backend := mkBackend None false [].
Definition NewBackend : Backend := mkBackend (Some newLifecycle) false [].
Definition NewWithBackend (b : Backend) : Backend :=
  let '(l, ok) := retain (default newLifecycle (lifecycle b)) in
  mkBackend (Some l) (owner_closed b) (views b ++ [mkView ok false]).
Definition Backend_Close (b : Backend) : Backend :=
  match lifecycle b with
  | None => b
  | Some l => if owner_closed b then b else mkBackend (Some (release l)) true (views b)
  end.
Definition view_Close (i : nat) (b : Backend) : Backend :=
  match views b !! i with
  | Some v => if vw_closed v then b
              else mkBackend (release <$> lifecycle b) (owner_closed b) (<[i := mkView (vw_retained v) true]> (views b))
  | None => b
  end.
(** A store of its own, also [NewWithBackend(nil)]: its only owner is the store. *)
Definition New : Backend := NewBackend.

Inductive backend_op := BNewView | BCloseView (i : nat) | BCloseOwner.
Definition backend_exec (o : backend_op) (b : Backend) : Backend :=
  match o with BNewView => NewWithBackend b | BCloseView i => view_Close i b | BCloseOwner => Backend_Close b end.
Definition backend_run (os : list backend_op) (b : Backend) : Backend := foldl (λ b o, backend_exec o b) b os.

(** * The store under use *)

(** The store with the records that a [PutMemory] or [EnqueueMemoryIndex] has still to send,
    and those whose send failed. *)
Record system := mkSystem { caps : Caps; waiting : list MemoryRecord; lost : list MemoryRecord }.

Inductive cap_op :=
| CPut (ctx : context) (clk : clock) (uuid : string) (input : MemoryInput)
| CRequest (ctx : context) (value : MemoryRecord)
| CSend (i : nat) (ctx_done : option ctx_error)
| CWorker (stop : bool)
| CDelete (ctx : context) (clk : clock) (tenantID memoryID : string)
| CPutKnowledge (ctx : context) (clk : clock) (value : KnowledgeDocument)
| CDeleteKnowledge (ctx : context) (tenantID documentID : string)
| CPutArtifact (ctx : context) (clk : clock) (value : ArtifactRecord)
| CDeleteArtifact (ctx : context) (tenantID artifactID : string)
| CAppendAudit (ctx : context) (clk : clock) (uuid : string) (value : AuditRecord)
| CUpsertVector (ctx : context) (clk : clock) (value : VectorRecord)
| CDeleteVector (ctx : context) (tenantID documentID : string)
| CPutObject (ctx : context) (clk : clock) (tenantID objectKey : string) (content : option (option string)) (contentType : string)
| CDeleteObject (ctx : context) (tenantID objectKey : string)
| CClose.

Definition on_caps (f : Caps → Caps) (w : system) : system := mkSystem (f (caps w)) (waiting w) (lost w).

Definition cap_exec (o : cap_op) (w : system) : system :=
  match o with
  | CPut ctx clk uuid input =>
      if is_ok (check ctx) && valid_memory input then
        let '(s, value) := put_memory clk uuid input (caps w) in mkSystem s (waiting w ++ [value]) (lost w)
      else w
  | CRequest ctx value =>
      match index_request ctx value (caps w) with
      | Ok current => mkSystem (caps w) (waiting w ++ [current]) (lost w)
      | Err _ => w
      end
  | CSend i ctx_done =>
      match waiting w !! i with
      | None => w
      | Some value =>
          match enqueueIndex ctx_done value (caps w) with
          | None => w
          | Some (s, Ok _) => mkSystem s (delete i (waiting w)) (lost w)
          | Some (s, Err _) => mkSystem s (delete i (waiting w)) (lost w ++ [value])
          end
      end
  | CWorker stop => on_caps (indexWorker stop) w
  | CDelete ctx clk t m => on_caps (λ s, (DeleteMemory ctx clk t m s).1) w
  | CPutKnowledge ctx clk v => on_caps (λ s, (PutKnowledge ctx clk v s).1) w
  | CDeleteKnowledge ctx t d => on_caps (λ s, (DeleteKnowledge ctx t d s).1) w
  | CPutArtifact ctx clk v => on_caps (λ s, (PutArtifact ctx clk v s).1) w
  | CDeleteArtifact ctx t a => on_caps (λ s, (DeleteArtifact ctx t a s).1) w
  | CAppendAudit ctx clk uuid v => on_caps (λ s, (AppendAudit ctx clk uuid v s).1) w
  | CUpsertVector ctx clk v => on_caps (λ s, (UpsertVector ctx clk v s).1) w
  | CDeleteVector ctx t d => on_caps (λ s, (DeleteVector ctx t d s).1) w
  | CPutObject ctx clk t k c ty => on_caps (λ s, (PutObject ctx clk t k c ty s).1) w
  | CDeleteObject ctx t k => on_caps (λ s, (DeleteObject ctx t k s).1) w
  | CClose => on_caps set_done w
  end.
Definition cap_run (os : list cap_op) (w : system) : system := foldl (λ w o, cap_exec o w) w os.
Definition new_system : system := mkSystem newCaps [] [].
