(* ===== verification/CapabilityTheorems.v ===== *)
(** What the capabilities of the runtime store guarantee: tenants do not see each other, the
    asynchronous index of memories converges, searches return exactly what matches in the
    promised order, and a shared backend ends once, with its last owner. *)
From Stdlib Require Import Ascii String.
From Corelib Require Import SpecFloat.
From S2P Require Import Prelude GoStrings GoFloat Ranking Sha256 RuntimeStore Capabilities.
Local Open Scope Z_scope.

(** * Changes for one tenant *)

(** What an operation of tenant [t] may do to the store. *)
Inductive change (t : string) : Caps → Caps → Prop :=
| change_memory id m s : me_TenantID m = t → me_MemoryID m = id →
    change t s (set_memories (<[key [t; id] := m]> (memories s)) s)
| change_knowledge id d s : kn_TenantID d = t → kn_DocumentID d = id →
    change t s (set_knowledge (<[key [t; id] := d]> (knowledge s)) s)
| change_no_knowledge doc s : change t s (set_knowledge (delete (key [t; doc]) (knowledge s)) s)
| change_artifact id a s : ar_TenantID a = t → ar_ArtifactID a = id →
    change t s (set_artifacts (<[key [t; id] := a]> (artifacts s)) s)
| change_no_artifact id s : change t s (set_artifacts (delete (key [t; id]) (artifacts s)) s)
| change_audit row s : au_TenantID row = t →
    change t s (set_audits (<[t := default [] (audits s !! t) ++ [row]]> (audits s)) s)
| change_vector src doc v s : ve_TenantID v = t → ve_Source v = src → ve_DocumentID v = doc →
    change t s (set_vectors (<[key [t; src; doc] := v]> (vectors s)) s)
| change_no_vector src doc s : change t s (set_vectors (delete (key [t; src; doc]) (vectors s)) s)
| change_no_vectors doc s : change t s (set_vectors (filter (λ p, ¬ of_document t doc p) (vectors s)) s)
| change_object id o data s : ob_TenantID o = t → ob_ObjectKey o = id →
    change t s (set_objects (<[key [t; id] := o]> (objects s)) (<[key [t; id] := data]> (objectData s)) s)
| change_no_object k s :
    change t s (set_objects (delete (key [t; k]) (objects s)) (delete (key [t; k]) (objectData s)) s)
| change_queue q s : change t s (set_queue q s)
| change_done s : change t s (set_done s).

(** Every record is stored under its own key. *)
Record own_keys (s : Caps) : Prop := {
  own_memories k m : memories s !! k = Some m → k = key [me_TenantID m; me_MemoryID m];
  own_knowledge k d : knowledge s !! k = Some d → k = key [kn_TenantID d; kn_DocumentID d];
  own_artifacts k a : artifacts s !! k = Some a → k = key [ar_TenantID a; ar_ArtifactID a];
  own_audits t rows : audits s !! t = Some rows → Forall (λ r, au_TenantID r = t) rows;
  own_vectors k v : vectors s !! k = Some v → k = key [ve_TenantID v; ve_Source v; ve_DocumentID v];
  own_objects k o : objects s !! k = Some o → k = key [ob_TenantID o; ob_ObjectKey o];
  own_data k : is_Some (objects s !! k) ↔ is_Some (objectData s !! k) }.

Lemma new_own_keys : own_keys newCaps.
Proof. split; cbn; intros *; rewrite ?lookup_empty; try done. Qed.

Ltac own :=
  repeat match goal with
  | H : <[_ := _]> _ !! _ = Some _ |- _ => apply lookup_insert_Some in H as [[<- <-]|[_ H]]
  | H : delete _ _ !! _ = Some _ |- _ => apply lookup_delete_Some in H as [_ H]
  | H : filter _ _ !! _ = Some _ |- _ => apply map_lookup_filter_Some in H as [H _]
  end; subst; eauto.

Lemma change_own t s s' : own_keys s → change t s s' → own_keys s'.
Proof.
  intros [O1 O2 O3 O4 O5 O6 O7] Hc. destruct Hc; split; cbn; try done; intros; own.
  - apply Forall_app. split; [|by apply Forall_singleton]. destruct (audits s !! _) eqn:E; [by eapply O4|constructor].
  - destruct (decide (key [ob_TenantID o; ob_ObjectKey o] = k)) as [<-|Hne].
    + by rewrite !lookup_insert_eq.
    + by rewrite !lookup_insert_ne.
  - destruct (decide (key [t; k] = k0)) as [<-|Hne].
    + rewrite !lookup_delete_eq. done.
    + by rewrite !lookup_delete_ne.
Qed.

(** What tenant [t] can find is the same. *)
Record agree (t : string) (s s' : Caps) : Prop := {
  agree_memories id : memories s' !! key [t; id] = memories s !! key [t; id];
  agree_knowledge id : knowledge s' !! key [t; id] = knowledge s !! key [t; id];
  agree_artifacts id : artifacts s' !! key [t; id] = artifacts s !! key [t; id];
  agree_audits : audits s' !! t = audits s !! t;
  agree_vectors src doc : vectors s' !! key [t; src; doc] = vectors s !! key [t; src; doc];
  agree_objects id : objects s' !! key [t; id] = objects s !! key [t; id];
  agree_data id : objectData s' !! key [t; id] = objectData s !! key [t; id] }.

#[export] Instance agree_preorder t : PreOrder (agree t).
Proof.
  split; [by split|]. intros s1 s2 s3 [A1 A2 A3 A4 A5 A6 A7] [B1 B2 B3 B4 B5 B6 B7].
  split; intros; congruence.
Qed.

Lemma other_key t t' ps qs : t ≠ t' → key (t :: ps) ≠ key (t' :: qs).
Proof. intros Hne [= ?]%key_inj. done. Qed.

Lemma change_agree t t' s s' : own_keys s → t ≠ t' → change t s s' → agree t' s s'.
Proof.
  intros O Hne Hc. destruct Hc; split; cbn; try done; intros;
    rewrite ?lookup_insert_ne, ?lookup_delete_ne by (done || by apply other_key); try done.
  destruct (vectors s !! key [t'; src; doc0]) as [v|] eqn:E.
  - apply map_lookup_filter_Some. split; [done|]. intros [Ht _]. cbn in Ht.
    apply (own_vectors _ O) in E. apply key_inj in E. injection E as -> _ _. done.
  - apply map_lookup_filter_None. by left.
Qed.

Definition changes (t : string) : Caps → Caps → Prop := rtc (change t).

Lemma changes_own t s s' : own_keys s → changes t s s' → own_keys s'.
Proof. intros O Hc. induction Hc as [|s s1 s2 H1 _ IH]; [done|]. apply IH. by eapply change_own. Qed.

Lemma changes_agree t t' s s' : own_keys s → t ≠ t' → changes t s s' → agree t' s s'.
Proof.
  intros O Hne Hc. induction Hc as [|s s1 s2 H1 _ IH]; [reflexivity|].
  transitivity s1; [by eapply change_agree|]. apply IH. by eapply change_own.
Qed.

(** * Operations are changes *)

Ltac op_cases := go_unfold; repeat (case_match; simplify_eq/=); try reflexivity.
Lemma put_memory_changes clk uuid input s : changes (mi_TenantID input) s (put_memory clk uuid input s).1.
Proof. apply rtc_once, change_memory; by case_match. Qed.

Lemma index_record_changes m s : own_keys s → changes (me_TenantID m) s (index_record m s).
Proof.
  intros O. unfold index_record. op_cases; apply rtc_once; [apply change_no_vector|].
  match goal with H : memories s !! _ = Some _ |- _ => pose proof (own_memories _ O _ _ H) as [= ? ?]%key_inj end.
  by apply change_vector.
Qed.

Lemma DeleteMemory_changes ctx clk t id s : own_keys s → changes t s (DeleteMemory ctx clk t id s).1.
Proof.
  intros O. unfold DeleteMemory. op_cases.
  match goal with H : memories s !! _ = Some _ |- _ => pose proof (own_memories _ O _ _ H) as [= -> ->]%key_inj end.
  eapply rtc_l; [|exact (rtc_once _ _ (change_no_vector _ _ _ (set_memories _ s)))]. by apply change_memory.
Qed.

Lemma PutKnowledge_changes ctx clk d s : changes (kn_TenantID d) s (PutKnowledge ctx clk d s).1.
Proof.
  unfold PutKnowledge. op_cases; (eapply rtc_l; [|first
    [ exact (rtc_once _ _ (change_no_vector _ _ _ (set_knowledge _ s)))
    | refine (rtc_once _ _ (change_vector _ _ _ _ (set_knowledge _ s) _ _ _)); reflexivity]]); by apply change_knowledge.
Qed.

Lemma DeleteKnowledge_changes ctx t id s : changes t s (DeleteKnowledge ctx t id s).1.
Proof.
  unfold DeleteKnowledge. op_cases.
  eapply rtc_l; [|exact (rtc_once _ _ (change_no_vector _ _ _ (set_knowledge _ s)))]. apply change_no_knowledge.
Qed.

Lemma PutArtifact_changes ctx clk a s : changes (ar_TenantID a) s (PutArtifact ctx clk a s).1.
Proof. unfold PutArtifact. op_cases; by apply rtc_once, change_artifact. Qed.

Lemma DeleteArtifact_changes ctx t id s : changes t s (DeleteArtifact ctx t id s).1.
Proof. unfold DeleteArtifact. op_cases; apply rtc_once, change_no_artifact. Qed.

Lemma AppendAudit_changes ctx clk uuid a s : changes (au_TenantID a) s (AppendAudit ctx clk uuid a s).1.
Proof. unfold AppendAudit. op_cases; by apply rtc_once, change_audit. Qed.

Lemma UpsertVector_changes ctx clk v s : changes (ve_TenantID v) s (UpsertVector ctx clk v s).1.
Proof. unfold UpsertVector. op_cases; by apply rtc_once, change_vector. Qed.

Lemma DeleteVector_changes ctx t id s : changes t s (DeleteVector ctx t id s).1.
Proof. unfold DeleteVector. op_cases; apply rtc_once, change_no_vectors. Qed.

Lemma PutObject_changes ctx clk t k c ty s : changes t s (PutObject ctx clk t k c ty s).1.
Proof. unfold PutObject. op_cases; by apply rtc_once, change_object. Qed.

Lemma DeleteObject_changes ctx t k s : changes t s (DeleteObject ctx t k s).1.
Proof. unfold DeleteObject. op_cases; apply rtc_once, change_no_object. Qed.

(** * Isolation of tenants *)

(** The tenant for which an operation changes data: the worker acts for the owner of the
    record at the head of the queue; requests, sends and [Close] change none. *)
Definition op_tenant (o : cap_op) (w : system) : option string :=
  match o with
  | CPut _ _ _ input => Some (mi_TenantID input)
  | CRequest _ _ | CSend _ _ | CClose => None
  | CWorker _ => me_TenantID <$> head (indexQueue (caps w))
  | CDelete _ _ t _ | CDeleteKnowledge _ t _ | CDeleteArtifact _ t _ | CDeleteVector _ t _
  | CPutObject _ _ t _ _ _ | CDeleteObject _ t _ => Some t
  | CPutKnowledge _ _ d => Some (kn_TenantID d)
  | CPutArtifact _ _ a => Some (ar_TenantID a)
  | CAppendAudit _ _ _ a => Some (au_TenantID a)
  | CUpsertVector _ _ v => Some (ve_TenantID v)
  end.

Lemma indexWorker_changes stop m q s : own_keys s → indexQueue s = m :: q →
  changes (me_TenantID m) s (indexWorker stop s).
Proof.
  intros O Hq. unfold indexWorker. case_match; [reflexivity|]. rewrite Hq.
  eapply rtc_l; [apply (change_queue _ q)|]. apply index_record_changes. eapply (change_own (me_TenantID m)); [done|constructor].
Qed.

Lemma cap_exec_changes o w : own_keys (caps w) →
  match op_tenant o w with
  | Some t => changes t (caps w) (caps (cap_exec o w))
  | None => ∀ t, changes t (caps w) (caps (cap_exec o w))
  end.
Proof.
  intros O. destruct o; cbn;
    eauto using DeleteMemory_changes, PutKnowledge_changes, DeleteKnowledge_changes, PutArtifact_changes,
      DeleteArtifact_changes, AppendAudit_changes, UpsertVector_changes, DeleteVector_changes, PutObject_changes, DeleteObject_changes.
  - case_match; [|reflexivity]. apply (put_memory_changes clk uuid input).
  - intros t. case_match; reflexivity.
  - intros t. case_match; [|reflexivity]. unfold enqueueIndex. op_cases. apply rtc_once, change_queue.
  - unfold indexWorker. destruct (indexQueue (caps w)) as [|m q] eqn:Hq; cbn.
    + intros t. case_match; reflexivity.
    + pose proof (indexWorker_changes stop m q _ O Hq) as H. unfold indexWorker in H. by rewrite Hq in H.
  - intros t. apply rtc_once, change_done.
Qed.

Lemma cap_exec_own o w : own_keys (caps w) → own_keys (caps (cap_exec o w)).
Proof.
  intros O. pose proof (cap_exec_changes o w O) as H. destruct (op_tenant o w); [|specialize (H ""%string)];
    by eapply changes_own.
Qed.
Lemma cap_run_own os w : own_keys (caps w) → own_keys (caps (cap_run os w)).
Proof. revert w. induction os as [|o os IH]; intros w O; [done|]. by apply IH, cap_exec_own. Qed.

Lemma cap_exec_agree t o w : own_keys (caps w) → op_tenant o w ≠ Some t → agree t (caps w) (caps (cap_exec o w)).
Proof.
  intros O Hne. pose proof (cap_exec_changes o w O) as H. destruct (op_tenant o w) as [t'|].
  - eapply changes_agree; [done| |done]. congruence.
  - destruct (decide (t = ""%string)) as [->|Ht]; [apply (changes_agree "x")|apply (changes_agree "")]; auto.
Qed.

(** No operation of the sequence is for [t], in the state it meets. *)
Fixpoint others_only (t : string) (os : list cap_op) (w : system) : Prop :=
  match os with
  | [] => True
  | o :: os' => op_tenant o w ≠ Some t ∧ others_only t os' (cap_exec o w)
  end.
#[export] Instance others_only_dec t os w : Decision (others_only t os w).
Proof. revert w. induction os as [|o os IH]; intros w; cbn; apply _. Defined.

Lemma cap_run_agree t os w : own_keys (caps w) → others_only t os w → agree t (caps w) (caps (cap_run os w)).
Proof.
  revert w. induction os as [|o os IH]; intros w O; [reflexivity|]. intros [Ho Hos].
  transitivity (caps (cap_exec o w)); [by apply cap_exec_agree|]. by apply IH; [apply cap_exec_own|].
Qed.

(** * Listing *)

(** The values of a map whose keys the values determine. *)
Section Values.
Context {A : Type} (own : A → string) (m : gmap string A) (Hown : ∀ k a, m !! k = Some a → k = own a).

Lemma elem_of_own_values a : a ∈ values m ↔ m !! own a = Some a.
Proof.
  unfold values. rewrite elem_of_values. split; [|eauto]. intros [k Hk]. by rewrite <-(Hown k a Hk).
Qed.

Lemma NoDup_values : NoDup (values m).
Proof.
  apply NoDup_fmap_2_strong, NoDup_map_to_list. intros [k x] [k' y] Hx%elem_of_map_to_list Hy%elem_of_map_to_list E.
  cbn in E. subst y. by rewrite (Hown k x Hx), (Hown k' x Hy).
Qed.
End Values.

Lemma values_agree {A} (own : A → string) (m m' : gmap string A) P `{!∀ a, Decision (P a)} :
  (∀ k a, m !! k = Some a → k = own a) → (∀ k a, m' !! k = Some a → k = own a) →
  (∀ a, P a → m' !! own a = m !! own a) → filter P (values m') ≡ₚ filter P (values m).
Proof.
  intros Hm Hm' Heq. apply NoDup_Permutation; [by eapply NoDup_filter, NoDup_values..|]. intros a.
  rewrite !list_elem_of_filter, !(elem_of_own_values own) by done. split; intros [Pa Ha]; (split; [done|]).
  - by rewrite <-Heq.
  - by rewrite Heq.
Qed.

Lemma limited_prefix {A} limit (l : list A) : 0 ≤ limit →
  limited limit l `prefix_of` l ∧ (limit = 0 → limited limit l = l) ∧ (limit ≠ 0 → length (limited limit l) = (length l `min` Z.to_nat limit)%nat).
Proof.
  intros Hl. unfold limited. destruct (Z.ltb_spec 0 limit), (Z.ltb_spec limit (Z.of_nat (length l))); cbn;
    split_and!; intros; try done; try lia; rewrite ?length_take; try lia. apply prefix_take.
Qed.

(** Newest first, then by memory. *)
Definition newest : MemoryRecord → MemoryRecord → comparison :=
  lex (λ x y, on me_UpdatedAt Z.compare y x) (on me_MemoryID String.compare).
(** Best first, then by identifier. *)
Definition best {A} (id : A → string) : A * spec_float → A * spec_float → comparison :=
  lex (λ x y, on snd float_compare y x) (on (λ x, id x.1) String.compare).
Definition scored_ok {A} (x : A * spec_float) : Prop := not_nan x.2.

Lemma ranking_newest P : ranking P newest.
Proof.
  apply ranking_lex; [apply ranking_flip|]; (apply (ranking_on _ (λ _, True)); [done|]); [apply ranking_Z|apply ranking_string].
Qed.
Lemma newer_spec x y : newer x y = lt_of newest x y.
Proof.
  unfold newer, newest, lt_of, lex, on, after, str_less, String.ltb. destruct (Z.eqb_spec (me_UpdatedAt x) (me_UpdatedAt y)) as [->|Hne].
  - by rewrite Z.compare_refl.
  - destruct (Z.compare_spec (me_UpdatedAt y) (me_UpdatedAt x)), (Z.ltb_spec (me_UpdatedAt y) (me_UpdatedAt x)); lia || done.
Qed.

Lemma ranking_best {A} (id : A → string) : ranking scored_ok (best id).
Proof.
  apply ranking_lex; [apply ranking_flip, (ranking_on _ not_nan); [done|apply ranking_float]|].
  apply (ranking_on _ (λ _, True)); [done|apply ranking_string].
Qed.
Lemma score_less_spec {A} (id : A → string) x y : scored_ok x → scored_ok y →
  score_less (λ a b, str_less (id a) (id b)) x y = lt_of (best id) x y.
Proof.
  intros Hx Hy. unfold score_less, f64_eqb, f64_gtb, SFeqb, SFltb, lt_of, best, lex, on, str_less, String.ltb.
  rewrite !SFcompare_float by done. rewrite (rank_opp _ _ ranking_float y.2 x.2) by done.
  by destruct (float_compare y.2 x.2).
Qed.

Section Searching.
Context (sort : ∀ A, (A → A → bool) → list A → list A) `{!SliceSort sort}.

Lemma hits_bounds terms m : 0 ≤ hits terms m ≤ Z.of_nat (length terms).
Proof. unfold hits. pose proof (length_filter (λ term, contains (to_lower (me_Content m)) term = true) terms). lia. Qed.

Lemma elem_of_memory_hits terms (ms : list MemoryRecord) m sc :
  (m, sc) ∈ omap (memory_score terms) ms ↔
  m ∈ ms ∧ 0 < hits terms m ∧ sc = f64_ratio (hits terms m) (Z.of_nat (length terms)).
Proof.
  rewrite list_elem_of_omap. split.
  - intros (x & Hx & E). unfold memory_score in E. destruct (Z.ltb_spec 0 (hits terms x)); by simplify_eq.
  - intros (Hm & Hh & ->). exists m. split; [done|]. unfold memory_score. by destruct (Z.ltb_spec 0 (hits terms m)); [|lia].
Qed.

Lemma omap_keeps_NoDup {A B} (f : A → option (A * B)) (l : list A) : (∀ x y, f x = Some y → y.1 = x) → NoDup l → NoDup (omap f l).*1.
Proof.
  intros Hf. induction 1 as [|x l Hx _ IH]; cbn; [constructor|]. destruct (f x) as [y|] eqn:E; [|done].
  rewrite fmap_cons, (Hf _ _ E). constructor; [|done]. intros (z & Hz & (x' & Hx' & E')%list_elem_of_omap)%list_elem_of_fmap.
  apply Hf in E'. congruence.
Qed.

Definition search_ok (tenantID userID query : string) (limit : Z) : bool :=
  is_ok (ValidateTenant tenantID) && negb (str_empty (trim_space userID)) && negb (str_empty (trim_space query)) && (0 <=? limit).

Lemma memory_hits_not_nan terms ms : Z.of_nat (length terms) < 2 ^ 53 → Forall scored_ok (omap (memory_score terms) ms).
Proof.
  intros Ht. apply Forall_forall. intros [m sc] (_ & Hh & ->)%elem_of_memory_hits. pose proof (hits_bounds terms m).
  apply f64_ratio_not_nan; lia.
Qed.

(** C35: a search in the memories of any history of the store, with fewer than 2^53 terms,
    returns the [limit] best of exactly the live memories of this tenant and user in which
    some term occurs, each once, with the fraction of terms found, best score first and
    then by identifier. *)
Theorem memory_search_ranked os ctx tenantID userID query limit :
  let s := caps (cap_run os new_system) in
  let terms := strings_Fields (to_lower query) in
  check ctx = Ok () → search_ok tenantID userID query limit = true → Z.of_nat (length terms) < 2 ^ 53 →
  ∃ found, SearchMemories sort ctx tenantID userID query limit s = (s, Ok (limited limit found))
    ∧ NoDup found.*1 ∧ StronglySorted (λ x y, best me_MemoryID x y ≠ Gt) found
    ∧ ∀ m sc, (m, sc) ∈ found ↔
        memories s !! key [tenantID; me_MemoryID m] = Some m ∧ memory_of tenantID userID m = true
        ∧ 0 < hits terms m ∧ sc = f64_ratio (hits terms m) (Z.of_nat (length terms)).
Proof.
  intros s terms Hctx Hok Hterms. set (own := λ m, key [me_TenantID m; me_MemoryID m]).
  assert (own_keys s) as O by apply cap_run_own, new_own_keys.
  set (mine := filter (λ m, memory_of tenantID userID m = true) (values (memories s))).
  pose proof (memory_hits_not_nan terms mine Hterms) as Hnan.
  eexists. split_and!.
  - unfold SearchMemories. unfold search_ok in Hok. go_unfold. rewrite Hctx. cbn. by rewrite Hok.
  - rewrite slice_Permutation. apply omap_keeps_NoDup.
    + intros x y. unfold memory_score. case_match; by intros [= <-].
    + apply NoDup_filter. apply (NoDup_values own). apply (own_memories _ O).
  - exact (slice_ranked sort _ _ _ (ranking_best me_MemoryID) (score_less_spec me_MemoryID) _ Hnan).
  - intros m sc. rewrite slice_Permutation, elem_of_memory_hits. unfold mine. rewrite list_elem_of_filter.
    rewrite (elem_of_own_values own) by apply (own_memories _ O). unfold own.
    unfold memory_of. destruct (String.eqb_spec (me_TenantID m) tenantID) as [->|]; naive_solver.
Qed.

(** * What other tenants do not change *)

Lemma compare_Eq_string a b : (a ?= b)%string = Eq → a = b.
Proof. apply String.compare_eq_iff. Qed.
Lemma lex_Eq {A} (c1 c2 : A → A → comparison) x y : lex c1 c2 x y = Eq → c1 x y = Eq ∧ c2 x y = Eq.
Proof. unfold lex. by destruct (c1 x y). Qed.

Lemma mine_agree t u s s' : own_keys s → own_keys s' → agree t s s' →
  filter (λ m, memory_of t u m = true) (values (memories s')) ≡ₚ filter (λ m, memory_of t u m = true) (values (memories s)).
Proof.
  intros O O' Ag. apply (values_agree (λ m, key [me_TenantID m; me_MemoryID m])); [apply (own_memories _ O)|apply (own_memories _ O')|].
  intros m Hm. unfold memory_of in Hm. destruct (String.eqb_spec (me_TenantID m) t) as [->|]; [|done]. apply (agree_memories _ _ _ Ag).
Qed.

(** The memories of a tenant and user have different identifiers. *)
Lemma mine_inj t u s x y : own_keys s →
  x ∈ filter (λ m, memory_of t u m = true) (values (memories s)) →
  y ∈ filter (λ m, memory_of t u m = true) (values (memories s)) → me_MemoryID x = me_MemoryID y → x = y.
Proof.
  intros O. rewrite !list_elem_of_filter, !(elem_of_own_values (λ m, key [me_TenantID m; me_MemoryID m])) by apply (own_memories _ O).
  unfold memory_of. intros [Hx Sx] [Hy Sy] E.
  destruct (String.eqb_spec (me_TenantID x) t), (String.eqb_spec (me_TenantID y) t); try done. congruence.
Qed.

Lemma ListMemories_agree ctx t u limit s s' : own_keys s → own_keys s' → agree t s s' →
  (ListMemories sort ctx t u limit s').2 = (ListMemories sort ctx t u limit s).2.
Proof.
  intros O O' Ag. unfold ListMemories. go_unfold. repeat (case_match; [|done]). cbn. do 2 f_equal.
  apply (slice_unique sort (λ _, True) newest newer (ranking_newest _) (λ x y _ _, newer_spec x y)).
  - by apply Forall_true.
  - intros x y Hx Hy [_ E]%lex_Eq. apply (mine_inj t u s' x y O' Hx Hy). by apply compare_Eq_string.
  - by apply mine_agree.
Qed.

Lemma SearchMemories_agree ctx t u query limit s s' : own_keys s → own_keys s' → agree t s s' →
  Z.of_nat (length (strings_Fields (to_lower query))) < 2 ^ 53 →
  (SearchMemories sort ctx t u query limit s').2 = (SearchMemories sort ctx t u query limit s).2.
Proof.
  intros O O' Ag Ht. unfold SearchMemories. go_unfold. repeat (case_match; [|done]). cbn. do 2 f_equal.
  apply (slice_unique sort _ _ _ (ranking_best me_MemoryID) (score_less_spec me_MemoryID)); [by apply memory_hits_not_nan|..].
  - intros [x sx] [y sy] (Hx & _ & ->)%elem_of_memory_hits (Hy & _ & ->)%elem_of_memory_hits E.
    unfold best in E. apply lex_Eq in E as [_ E].
    by rewrite (mine_inj t u s' x y O' Hx Hy (compare_Eq_string _ _ E)).
  - by rewrite mine_agree.
Qed.

Lemma ListArtifacts_agree ctx t session s s' : own_keys s → own_keys s' → agree t s s' →
  (ListArtifacts sort ctx t session s').2 = (ListArtifacts sort ctx t session s).2.
Proof.
  intros O O' Ag. unfold ListArtifacts. go_unfold. repeat (case_match; [|done]). cbn. f_equal.
  set (own := λ a, key [ar_TenantID a; ar_ArtifactID a]).
  apply (slice_unique sort (λ _, True) (on ar_ArtifactID String.compare)); [| |by apply Forall_true|..].
  - apply (ranking_on _ (λ _, True)); [done|apply ranking_string].
  - done.
  - intros x y. rewrite !list_elem_of_filter, !(elem_of_own_values own) by apply (own_artifacts _ O').
    intros [[Tx _] Sx] [[Ty _] Sy] E%compare_Eq_string. unfold own in *. congruence.
  - apply (values_agree own); [apply (own_artifacts _ O)|apply (own_artifacts _ O')|].
    intros x [Hx _]. unfold own. rewrite Hx. apply (agree_artifacts _ _ _ Ag).
Qed.

(** The same error, or the same hits in some order. *)
Definition same_hits {A} (r r' : result error (list A)) : Prop :=
  match r, r' with Ok l, Ok l' => l ≡ₚ l' | Err e, Err e' => e = e' | _, _ => False end.

Lemma SearchKnowledge_agree ctx t query s s' : own_keys s → own_keys s' → agree t s s' →
  same_hits (SearchKnowledge sort ctx t query 0 s').2 (SearchKnowledge sort ctx t query 0 s).2.
Proof.
  intros O O' Ag. unfold SearchKnowledge. go_unfold. repeat (case_match; [|done]). cbn.
  rewrite !slice_Permutation. apply omap_Permutation. set (own := λ d, key [kn_TenantID d; kn_DocumentID d]).
  apply (values_agree own); [apply (own_knowledge _ O)|apply (own_knowledge _ O')|].
  intros x [Hx _]. unfold own. rewrite Hx. apply (agree_knowledge _ _ _ Ag).
Qed.

Lemma SearchVectors_agree ctx t query s s' : own_keys s → own_keys s' → agree t s s' →
  same_hits (SearchVectors sort ctx t query 0 s').2 (SearchVectors sort ctx t query 0 s).2.
Proof.
  intros O O' Ag. unfold SearchVectors. go_unfold. repeat (case_match; [|done]). cbn.
  rewrite !slice_Permutation. apply omap_Permutation. set (own := λ v, key [ve_TenantID v; ve_Source v; ve_DocumentID v]).
  apply (values_agree own); [apply (own_vectors _ O)|apply (own_vectors _ O')|].
  intros x Hx. unfold own. rewrite Hx. apply (agree_vectors _ _ _ Ag).
Qed.

(** C33: whatever the other tenants do with memories, the index, knowledge, artifacts, audit
    facts, vectors and objects, in any interleaving and at any point of the history of a
    shared store, tenant [t] reads the same: every record, every listing and every search
    of memories; searches by embedding find the same documents and vectors with the same
    scores. *)
Theorem capability_isolated os os' t ctx :
  let w := cap_run os new_system in
  let s := caps w in let s' := caps (cap_run os' w) in
  others_only t os' w →
  (∀ id, (GetMemory ctx t id s').2 = (GetMemory ctx t id s).2 ∧ (GetKnowledge ctx t id s').2 = (GetKnowledge ctx t id s).2
    ∧ (GetArtifact ctx t id s').2 = (GetArtifact ctx t id s).2 ∧ (GetObject ctx t id s').2 = (GetObject ctx t id s).2
    ∧ ∀ version, indexed t id version s' = indexed t id version s)
  ∧ (∀ u limit, (ListMemories sort ctx t u limit s').2 = (ListMemories sort ctx t u limit s).2)
  ∧ (∀ u query limit, Z.of_nat (length (strings_Fields (to_lower query))) < 2 ^ 53 →
      (SearchMemories sort ctx t u query limit s').2 = (SearchMemories sort ctx t u query limit s).2)
  ∧ (∀ session, (ListArtifacts sort ctx t session s').2 = (ListArtifacts sort ctx t session s).2)
  ∧ (∀ since limit, (ListAudit sort ctx t since limit s').2 = (ListAudit sort ctx t since limit s).2)
  ∧ (∀ query, same_hits (SearchKnowledge sort ctx t query 0 s').2 (SearchKnowledge sort ctx t query 0 s).2
      ∧ same_hits (SearchVectors sort ctx t query 0 s').2 (SearchVectors sort ctx t query 0 s).2).
Proof.
  intros w s s' Hos. assert (own_keys s) as O by apply cap_run_own, new_own_keys.
  assert (own_keys s') as O' by by apply cap_run_own. assert (agree t s s') as Ag by by apply cap_run_agree.
  split_and!; eauto using ListMemories_agree, SearchMemories_agree, ListArtifacts_agree, SearchKnowledge_agree, SearchVectors_agree.
  - intros id. unfold GetMemory, GetKnowledge, GetArtifact, GetObject, indexed. go_unfold.
    rewrite (agree_memories _ _ _ Ag), (agree_knowledge _ _ _ Ag), (agree_artifacts _ _ _ Ag), (agree_objects _ _ _ Ag),
      (agree_data _ _ _ Ag), (agree_vectors _ _ _ Ag). split_and!; intros; repeat case_match; simplify_eq; done.
  - intros since limit. unfold ListAudit. go_unfold. rewrite (agree_audits _ _ _ Ag). by repeat case_match.
Qed.
End Searching.

(** * The index of memories converges *)

(** What the index should hold for a memory. *)
Definition index_entry (m : option MemoryRecord) : option VectorRecord :=
  m ← m;
  if live m then match me_Embedding m with [] => None | _ => Some (memory_vector m) end else None.
Definition index_exact (t id : string) (s : Caps) : Prop :=
  vectors s !! key [t; VectorSourceMemory; id] = index_entry (memories s !! key [t; id]).

(** A record that, when it is indexed, brings the index of [m] up to date. *)
Definition fresh (m r : MemoryRecord) : Prop :=
  me_TenantID r = me_TenantID m ∧ me_MemoryID r = me_MemoryID m ∧ me_Version r = me_Version m ∧ live r = true.
#[export] Instance fresh_dec m r : Decision (fresh m r).
Proof. unfold fresh. apply _. Defined.

(** Either the index is exact for a memory, or the memory is live and a fresh record of it is
    still on its way or was lost. *)
Definition index_due (w : system) (t id : string) : Prop :=
  index_exact t id (caps w) ∨
  ∃ m, memories (caps w) !! key [t; id] = Some m ∧ live m = true
    ∧ Exists (fresh m) (indexQueue (caps w) ++ waiting w ++ lost w).

(** Clients that leave the index of memories to the store. *)
Definition leaves_index (o : cap_op) : bool :=
  match o with
  | CDeleteVector _ _ _ => false
  | CUpsertVector _ _ v => negb (ve_Source v =? VectorSourceMemory)%string
  | _ => true
  end.

Definition same_index (s s' : Caps) : Prop :=
  memories s' = memories s ∧ indexQueue s' = indexQueue s
  ∧ ∀ t id, vectors s' !! key [t; VectorSourceMemory; id] = vectors s !! key [t; VectorSourceMemory; id].

Lemma same_index_due w s' t id : same_index (caps w) s' → index_due w t id → index_due (on_caps (λ _, s') w) t id.
Proof. intros (Hm & Hq & Hv) Hd. unfold index_due, index_exact, on_caps in *. cbn. by rewrite Hm, Hq, Hv. Qed.

Lemma other_source t src doc t' doc' : src ≠ VectorSourceMemory → key [t; src; doc] ≠ key [t'; VectorSourceMemory; doc'].
Proof. intros Hne [= _ ? _]%key_inj. done. Qed.

(** The operations that touch neither memories nor their vectors. *)
Lemma neutral_same_index o w : leaves_index o = true →
  match o with CPut _ _ _ _ | CRequest _ _ | CSend _ _ | CWorker _ | CDelete _ _ _ _ => False | _ => True end →
  ∃ s', cap_exec o w = on_caps (λ _, s') w ∧ same_index (caps w) s'.
Proof.
  intros Hl Ho. destruct o; try done; cbn [cap_exec]; eexists; (split; [reflexivity|]); cbn in Hl;
    unfold PutKnowledge, DeleteKnowledge, PutArtifact, DeleteArtifact, AppendAudit, UpsertVector, PutObject, DeleteObject;
    op_cases; split_and!; try done; intros; cbn [vectors set_vectors];
    rewrite ?lookup_insert_ne, ?lookup_delete_ne by (apply other_source; first [done|by apply String.eqb_neq, negb_true_iff]); done.
Qed.

Lemma index_record_frame r s : memories (index_record r s) = memories s ∧ indexQueue (index_record r s) = indexQueue s.
Proof. unfold index_record. repeat case_match; done. Qed.

Lemma index_entry_live m : live m = true →
  index_entry (Some m) = match me_Embedding m with [] => None | _ => Some (memory_vector m) end.
Proof. intros H. unfold index_entry. cbn. by rewrite H. Qed.

Lemma index_record_key r s t id : (me_TenantID r, me_MemoryID r) ≠ (t, id) →
  vectors (index_record r s) !! key [t; VectorSourceMemory; id] = vectors s !! key [t; VectorSourceMemory; id].
Proof.
  intros Hne. assert (key [me_TenantID r; VectorSourceMemory; me_MemoryID r] ≠ key [t; VectorSourceMemory; id]) as Hk.
  { intros [= ? ?]%key_inj. congruence. }
  unfold index_record. repeat case_match; cbn [vectors set_vectors]; by rewrite ?lookup_insert_ne, ?lookup_delete_ne.
Qed.

Lemma index_record_fresh m r s t id : own_keys s → memories s !! key [t; id] = Some m → live m = true → fresh m r →
  index_exact t id (index_record r s).
Proof.
  intros O Hm Hl (Ht & Hi & Hv & Hr). pose proof (own_memories _ O _ _ Hm) as [= -> ->]%key_inj.
  unfold index_exact. rewrite (proj1 (index_record_frame r s)), Hm, index_entry_live by done.
  unfold index_record. rewrite Hr, Ht, Hi, Hm, Hv, Z.eqb_refl, Hl. cbn [negb andb].
  destruct (me_Embedding m); cbn [vectors set_vectors]; [apply lookup_delete_eq|apply lookup_insert_eq].
Qed.

Lemma index_record_exact r s t id : index_exact t id s → index_exact t id (index_record r s).
Proof.
  intros He. unfold index_exact. rewrite (proj1 (index_record_frame r s)).
  destruct (decide ((me_TenantID r, me_MemoryID r) = (t, id))) as [[= <- <-]|Hne]; [|by rewrite index_record_key].
  unfold index_exact in He. unfold index_record. destruct (live r); [|done]. cbn [negb].
  destruct (memories s !! _) as [m|] eqn:Hm; [|done]. destruct (_ && live m) eqn:E; [|done].
  apply andb_true_iff in E as [_ E]. rewrite index_entry_live in * by done.
  destruct (me_Embedding m); cbn [vectors set_vectors]; [apply lookup_delete_eq|apply lookup_insert_eq].
Qed.

Definition pending (w : system) : list MemoryRecord := indexQueue (caps w) ++ waiting w ++ lost w.

Lemma due_mono w w' t id :
  memories (caps w') !! key [t; id] = memories (caps w) !! key [t; id] →
  vectors (caps w') !! key [t; VectorSourceMemory; id] = vectors (caps w) !! key [t; VectorSourceMemory; id] →
  pending w ⊆ pending w' → index_due w t id → index_due w' t id.
Proof.
  intros Hm Hv Hp [He|(m & H1 & H2 & H3)]; [left; unfold index_exact in *; congruence|].
  right. exists m. rewrite Hm. split_and!; [done..|]. apply Exists_exists in H3 as (r & Hr & Hf). apply Exists_exists.
  exists r. split; [by apply Hp|done].
Qed.

Lemma put_due ctx clk uuid input w t id : index_due w t id → index_due (cap_exec (CPut ctx clk uuid input) w) t id.
Proof.
  cbn. intros Hd. case_match; [|done]. unfold put_memory. cbn.
  set (id0 := if str_empty (mi_MemoryID input) then _ else _). set (value := match memories (caps w) !! _ with Some _ => _ | None => _ end).
  destruct (decide (key [mi_TenantID input; id0] = key [t; id])) as [[= -> ->]%key_inj|Hne].
  - right. exists value. cbn. rewrite lookup_insert_eq. split_and!; [done|by subst value; case_match|].
    apply Exists_exists. exists value. split; [set_solver|]. unfold fresh. subst value. by case_match.
  - eapply due_mono, Hd; cbn; [by rewrite lookup_insert_ne|done|set_solver].
Qed.

Lemma request_due ctx value w t id : index_due w t id → index_due (cap_exec (CRequest ctx value) w) t id.
Proof. intros Hd. cbn. case_match; [|done]. eapply due_mono, Hd; cbn; [done..|]. set_solver. Qed.

Lemma send_due i ctx_done w t id : index_due w t id → index_due (cap_exec (CSend i ctx_done) w) t id.
Proof.
  intros Hd. cbn. destruct (waiting w !! i) as [r|] eqn:Hi; [|done].
  assert (∀ x, x ∈ waiting w → x = r ∨ x ∈ delete i (waiting w)) as Hw.
  { intros x. rewrite (delete_Permutation _ _ _ Hi) at 1. by rewrite elem_of_cons. }
  unfold enqueueIndex. repeat (case_match; simplify_eq/=); try done; eapply due_mono, Hd; cbn; try done;
    intros x; unfold pending; cbn; rewrite !elem_of_app; specialize (Hw x); set_solver.
Qed.

Lemma worker_due stop w t id : own_keys (caps w) → index_due w t id → index_due (cap_exec (CWorker stop) w) t id.
Proof.
  intros O Hd. unfold cap_exec, on_caps, indexWorker. case_match; [by destruct w|].
  destruct (indexQueue (caps w)) as [|r q] eqn:Hq; [by destruct w|].
  assert (own_keys (set_queue q (caps w))) as O' by (eapply (change_own ""); [done|constructor]).
  destruct Hd as [He|(m & Hm & Hl & Hf)]; [left; by apply index_record_exact|].
  rewrite Hq in Hf. apply Exists_cons in Hf as [Hf|Hf]; [left; by eapply index_record_fresh|].
  right. exists m. cbn [caps waiting lost]. destruct (index_record_frame r (set_queue q (caps w))) as [-> ->]. done.
Qed.

Lemma delete_due ctx clk t0 id0 w t id : index_due w t id → index_due (cap_exec (CDelete ctx clk t0 id0) w) t id.
Proof.
  intros Hd. unfold cap_exec, on_caps, DeleteMemory. op_cases; try (by destruct w).
  destruct (decide (key [t0; id0] = key [t; id])) as [[= -> ->]%key_inj|Hne].
  - left. unfold index_exact. cbn. by rewrite lookup_delete_eq, lookup_insert_eq.
  - eapply due_mono, Hd; cbn; [by rewrite lookup_insert_ne| |done].
    rewrite lookup_delete_ne; [done|]. intros [= -> ->]%key_inj. done.
Qed.

Lemma cap_exec_due o w t id : own_keys (caps w) → leaves_index o = true → index_due w t id → index_due (cap_exec o w) t id.
Proof.
  intros O Hl Hd. destruct o;
    lazymatch goal with
    | |- index_due (cap_exec (CPut _ _ _ _) _) _ _ => by apply put_due
    | |- index_due (cap_exec (CRequest _ _) _) _ _ => by apply request_due
    | |- index_due (cap_exec (CSend _ _) _) _ _ => by apply send_due
    | |- index_due (cap_exec (CWorker _) _) _ _ => by apply worker_due
    | |- index_due (cap_exec (CDelete _ _ _ _) _) _ _ => by apply delete_due
    | |- _ => edestruct neutral_same_index as (s' & -> & Hs); [exact Hl|exact I|]; by apply same_index_due
    end.
Qed.

Lemma cap_run_due os w t id : own_keys (caps w) → Forall (λ o, leaves_index o = true) os → index_due w t id →
  index_due (cap_run os w) t id.
Proof.
  revert w. induction os as [|o os IH]; intros w O; [done|]. intros [Ho Hos]%Forall_cons Hd.
  apply IH; [by apply cap_exec_own|done|]. by apply cap_exec_due.
Qed.

(** [n] turns of the worker. *)
Definition drain (n : nat) (w : system) : system := cap_run (replicate n (CWorker false)) w.

Lemma drain_empties n w : (length (indexQueue (caps w)) ≤ n)%nat →
  indexQueue (caps (drain n w)) = [] ∧ memories (caps (drain n w)) = memories (caps w)
  ∧ waiting (drain n w) = waiting w ∧ lost (drain n w) = lost w.
Proof.
  revert w. induction n as [|n IH]; intros w Hn.
  { change (drain 0 w) with w. destruct (indexQueue (caps w)); [done|]. cbn in Hn. lia. }
  assert (∀ w', drain (S n) w' = drain n (cap_exec (CWorker false) w')) as -> by done.
  edestruct (IH (cap_exec (CWorker false) w)) as (H1 & H2 & H3 & H4).
  - unfold cap_exec, on_caps, indexWorker. rewrite andb_false_r. cbn.
    destruct (indexQueue (caps w)) as [|r q] eqn:Hq; [rewrite Hq; cbn; lia|].
    rewrite (proj2 (index_record_frame _ _)). cbn in *. lia.
  - split_and!; try done. rewrite H2. unfold cap_exec, on_caps, indexWorker. rewrite andb_false_r. cbn.
    destruct (indexQueue (caps w)); [done|]. by rewrite (proj1 (index_record_frame _ _)).
Qed.

(** C34: the index of memories converges.  In any history of puts, deletions, requests, sends
    that wait, succeed or fail, turns of the worker and other operations of any tenants, as
    long as clients leave the vectors of memories alone: once no send is waiting and the
    worker has had as many turns as records are queued, the index holds for every memory
    whose current version was not lost exactly the vector of that version, and nothing for
    memories that were deleted, never put or have no embedding; a wait for the current
    version of an embedded memory then succeeds. *)
Theorem index_converges os t id :
  let w := cap_run os new_system in
  let w' := drain (length (indexQueue (caps w))) w in
  Forall (λ o, leaves_index o = true) os → waiting w = [] →
  (∀ m, memories (caps w) !! key [t; id] = Some m → Forall (λ r, ¬ fresh m r) (lost w)) →
  memories (caps w') = memories (caps w)
  ∧ index_exact t id (caps w')
  ∧ (∀ m ctx polls wk, memories (caps w') !! key [t; id] = Some m → live m = true → me_Embedding m ≠ [] → check ctx = Ok () →
      is_ok (ValidateTenant t) = true → str_empty id = false → 1 ≤ me_Version m →
      WaitForMemoryIndex ctx t id (me_Version m) ((caps w', wk) :: polls) = Some (Ok ())).
Proof.
  intros w w' Hos Hw Hlost. destruct (drain_empties _ w (Nat.le_refl _)) as (Hq & Hm & Hw' & Hl').
  assert (index_exact t id (caps w')) as Hex.
  { assert (index_due w' t id) as [He|(m & Hmem & Hlive & Hf)]; [|done|].
    - apply cap_run_due; [apply cap_run_own, new_own_keys|by apply Forall_replicate|].
      apply cap_run_due; [apply new_own_keys|done|]. by left.
    - exfalso. fold w' in Hq, Hm, Hw', Hl'. rewrite Hq, Hw', Hl', Hw in Hf. rewrite Hm in Hmem. cbn in Hf.
      apply Exists_exists in Hf as (r & Hr & Hf). specialize (Hlost m Hmem). rewrite Forall_forall in Hlost. by apply (Hlost r). }
  split_and!; [done..|]. intros m ctx polls wk Hmem Hlive Hemb Hc Ht Hi Hv. unfold WaitForMemoryIndex. rewrite Hc, Ht, Hi. cbn.
  destruct (Z.ltb_spec (me_Version m) 1); [lia|]. unfold indexed. rewrite Hex, Hmem, index_entry_live by done.
  destruct (me_Embedding m); [done|]. cbn. by rewrite Z.leb_refl.
Qed.

(** * Shared backends *)

(** The owners that still hold a reference. *)
Definition holds (v : view) : bool := vw_retained v && negb (vw_closed v).
Definition open_owners (b : Backend) : Z :=
  (if owner_closed b then 0 else 1) + Z.of_nat (length (filter (λ v, holds v = true) (views b))).

Definition the_lifecycle (b : Backend) : backendLifecycle := default newLifecycle (lifecycle b).

Record backend_inv (b : Backend) : Prop := {
  inv_refs : refs (the_lifecycle b) = open_owners b;
  inv_closed : lc_closed (the_lifecycle b) = (refs (the_lifecycle b) =? 0);
  inv_once : done_closes (the_lifecycle b) = if lc_closed (the_lifecycle b) then 1%nat else 0%nat;
  inv_unretained : Exists (λ v, vw_retained v = false) (views b) → lc_closed (the_lifecycle b) = true;
  inv_none : lifecycle b = None → owner_closed b = false ∧ views b = [] }.

Lemma count_close (vs : list view) i v : vs !! i = Some v → vw_closed v = false →
  Z.of_nat (length (filter (λ v, holds v = true) (<[i := mkView (vw_retained v) true]> vs)))
  = Z.of_nat (length (filter (λ v, holds v = true) vs)) - (if vw_retained v then 1 else 0).
Proof.
  revert i. induction vs as [|x vs IH]; intros [|i] Hi Hv; try done.
  - injection Hi as ->. destruct v as [r c]. cbn in Hv. subst c. cbn [insert list_insert vw_retained]. rewrite !filter_cons.
    change (holds (mkView r true)) with (r && false). change (holds (mkView r false)) with (r && true).
    destruct r; cbn [andb]; repeat case_decide; done || (cbn [length]; lia).
  - change (<[S i := ?y]> (x :: vs)) with (x :: <[i := y]> vs). rewrite !filter_cons. specialize (IH i Hi Hv).
    case_decide; cbn [length]; lia.
Qed.

(** Giving one reference back: the last one closes the index. *)
Lemma release_spec l : lc_closed l = (refs l =? 0) → done_closes l = (if lc_closed l then 1%nat else 0%nat) → 0 < refs l →
  refs (release l) = refs l - 1 ∧ lc_closed (release l) = (refs l - 1 =? 0)
  ∧ done_closes (release l) = (if refs l - 1 =? 0 then 1%nat else 0%nat).
Proof.
  intros Hc Hd Hr. unfold release. destruct (Z.ltb_spec 0 (refs l)); [|lia]. rewrite Hd, Hc.
  destruct (Z.eqb_spec (refs l) 0); [lia|]. by destruct (Z.eqb_spec (refs l - 1) 0).
Qed.
Lemma release_closed l : refs l = 0 → lc_closed l = true → release l = l.
Proof. intros Hr Hc. unfold release. rewrite Hr, Hc. cbn. destruct l; cbn in *. by subst. Qed.

Lemma new_view_inv b : backend_inv b → backend_inv (NewWithBackend b).
Proof.
  intros [Hr Hc Hd Hu _]. unfold NewWithBackend, retain. fold (the_lifecycle b). destruct (lc_closed (the_lifecycle b)) eqn:E;
    split; unfold the_lifecycle at 1; cbn; rewrite ?E; try done; unfold open_owners in *; cbn; rewrite ?filter_app, ?length_app; cbn.
  - case_decide; [done|]. cbn. lia.
  - case_decide; [|done]. cbn. lia.
  - symmetry. apply Z.eqb_neq. destruct (owner_closed b); lia.
  - rewrite Exists_app, Exists_cons, Exists_nil. naive_solver.
Qed.

(** Closing an owner that holds a reference. *)
Lemma release_inv b l oc vs : backend_inv b → lifecycle b = Some l → open_owners b = open_owners (mkBackend (Some l) oc vs) + 1 →
  (Exists (λ v, vw_retained v = false) vs → Exists (λ v, vw_retained v = false) (views b)) →
  backend_inv (mkBackend (Some (release l)) oc vs).
Proof.
  intros [Hr Hc Hd Hu _] El Ho Hv. unfold the_lifecycle in *. rewrite El in *. cbn in Hr, Hc, Hd, Hu. assert (0 < refs l) as Hpos.
  { rewrite Hr, Ho. unfold open_owners. cbn. destruct oc; lia. }
  destruct (release_spec _ Hc Hd Hpos) as (R1 & R2 & R3). split; cbn.
  - rewrite R1, Hr, Ho. unfold open_owners. cbn. lia.
  - by rewrite R1, R2.
  - by rewrite R3, R2.
  - intros Hx. specialize (Hu (Hv Hx)). rewrite Hc in Hu. apply Z.eqb_eq in Hu. lia.
  - done.
Qed.

Lemma close_view_inv i b : backend_inv b → backend_inv (view_Close i b).
Proof.
  intros I. unfold view_Close. destruct (views b !! i) as [v|] eqn:Hi; [|done]. destruct (vw_closed v) eqn:Hv; [done|].
  destruct (lifecycle b) as [l|] eqn:El; [|by destruct (inv_none _ I El) as [_ E]; rewrite E in Hi]. cbn [fmap option_fmap option_map].
  pose proof (count_close _ _ _ Hi Hv) as Hcount.
  assert (Exists (λ v, vw_retained v = false) (<[i := mkView (vw_retained v) true]> (views b)) →
    Exists (λ v, vw_retained v = false) (views b)) as Hex.
  { rewrite !Exists_exists. intros (x & Hx & Hxr). apply list_elem_of_lookup in Hx as [j Hj].
    apply list_lookup_insert_Some in Hj as [(-> & <- & _)|[_ Hj]].
    - exists v. split; [by eapply list_elem_of_lookup_2|done].
    - exists x. split; [by eapply list_elem_of_lookup_2|done]. }
  destruct (vw_retained v) eqn:Hret.
  - eapply release_inv; [done..| |done]. unfold open_owners. cbn. rewrite Hcount. lia.
  - destruct I as [Hr Hc Hd Hu _]. unfold the_lifecycle in *. rewrite El in *. cbn in Hr, Hc, Hd, Hu.
    assert (lc_closed l = true) as Hcl.
    { apply Hu, Exists_exists. exists v. split; [by eapply list_elem_of_lookup_2|done]. }
    assert (refs l = 0) as Hz. { rewrite Hcl in Hc. by apply Z.eqb_eq. }
    rewrite release_closed by done. split; cbn; try done.
    rewrite Hr. unfold open_owners. cbn. rewrite Hcount. lia.
Qed.

Lemma close_owner_inv b : backend_inv b → backend_inv (Backend_Close b).
Proof.
  intros I. unfold Backend_Close. destruct (lifecycle b) as [l|] eqn:El; [|done]. destruct (owner_closed b) eqn:E; [done|].
  eapply release_inv; [done..| |done]. unfold open_owners. rewrite E. cbn. lia.
Qed.

Lemma backend_run_inv os b : backend_inv b → backend_inv (backend_run os b).
Proof.
  revert b. induction os as [|o os IH]; intros b I; [done|]. apply IH.
  destruct o as [|i|]; [by apply new_view_inv|by apply close_view_inv|by apply close_owner_inv].
Qed.
Lemma start_inv b : b = NewBackend ∨ b = ZeroBackend → backend_inv b.
Proof. intros [-> | ->]; split; cbn; try done; by rewrite Exists_nil. Qed.

(** A shared backend counts its open owners: in any sequence of new views, closings of
    views (also repeated, also of views made after the end) and closings of the backend,
    also from the zero value, the count never goes below zero, the index is closed exactly
    when no owner that holds a reference is open, and the channel that announces it is
    closed once, so that closing never panics. *)
Theorem lifecycle_closes_once os b0 :
  b0 = NewBackend ∨ b0 = ZeroBackend →
  let b := backend_run os b0 in
  refs (the_lifecycle b) = open_owners b
  ∧ (lc_closed (the_lifecycle b) = true ↔ owner_closed b = true ∧ Forall (λ v, vw_retained v = true → vw_closed v = true) (views b))
  ∧ done_closes (the_lifecycle b) = if lc_closed (the_lifecycle b) then 1%nat else 0%nat.
Proof.
  intros H0 b. destruct (backend_run_inv os b0 (start_inv b0 H0)) as [Hr Hc Hd _ _]. fold b in Hr, Hc, Hd. split_and!; [done| |done].
  rewrite Hc, Z.eqb_eq, Hr. unfold open_owners.
  assert (length (filter (λ v, holds v = true) (views b)) = 0%nat ↔ Forall (λ v, vw_retained v = true → vw_closed v = true) (views b)) as <-.
  { rewrite length_zero_iff_nil, Forall_forall. split.
    - intros Hn v Hv Hret. destruct (vw_closed v) eqn:E; [done|]. exfalso. apply (filter_nil_not_elem_of _ _ v Hn); [|done].
      unfold holds. by rewrite Hret, E.
    - intros Hall. destruct (filter _ (views b)) as [|v vs] eqn:E; [done|]. exfalso.
      assert (v ∈ filter (λ v, holds v = true) (views b)) as [Hh Hv]%list_elem_of_filter by (rewrite E; left).
      unfold holds in Hh. destruct (vw_retained v) eqn:Hret; [|done]. by rewrite (Hall v Hv Hret) in Hh. }
  destruct (owner_closed b); split; [lia..|]. naive_solver lia.
Qed.

(** Two views and the owner close, one of them twice, and a late view comes and goes. *)
Lemma lifecycle_closes_once_witness :
  let b := backend_run [BNewView; BCloseOwner; BNewView; BCloseView 0; BCloseView 0; BCloseView 1; BNewView; BCloseView 2] ZeroBackend in
  refs (the_lifecycle b) = 0 ∧ lc_closed (the_lifecycle b) = true ∧ done_closes (the_lifecycle b) = 1%nat.
Proof.
  destruct (lifecycle_closes_once [BNewView; BCloseOwner; BNewView; BCloseView 0; BCloseView 0; BCloseView 1; BNewView; BCloseView 2]
    ZeroBackend (or_intror eq_refl)) as (H1 & _ & H3).
  split_and!; [exact H1|reflexivity|exact H3].
Defined.

(** * Concrete histories *)

Definition bg : context := Some (λ _, None).
Definition one64 : spec_float := S754_finite false 4503599627370496 (-52).
Definition at_ (t : time) : clock := λ i, t + Z.of_nat i.
Definition tea (t id user text : string) : MemoryInput :=
  mkMemoryInput t id user "" text [] NilMap [one64; one64].

(** Two memories of one tenant and one of another; the first is put twice before the worker
    runs, so that its first record is stale when its turn comes. *)
Definition history : list cap_op :=
  [ CPut bg (at_ 10) "u1" (tea "acme" "m1" "ann" "green tea"); CSend 0 None
  ; CPut bg (at_ 20) "u2" (tea "acme" "m1" "ann" "black tea"); CSend 0 None
  ; CPut bg (at_ 30) "u3" (tea "acme" "m2" "ann" "tea and black coffee"); CSend 0 None
  ; CPut bg (at_ 40) "u4" (tea "beta" "m1" "ann" "black tea"); CSend 0 None
  ; CWorker false; CDelete bg (at_ 50) "acme" "m2" ].
(** The work of the other tenant and of the worker for it. *)
Definition beta_work : list cap_op :=
  [ CUpsertVector bg (at_ 60) (mkVector "beta" "" "m1" "x" NilMap [one64] 0 0)
  ; CPutArtifact bg (at_ 61) (mkArtifact "beta" "m1" "" "n" "text/plain" "data" 0 0 0)
  ; CDeleteVector bg "beta" "m1"; CDelete bg (at_ 62) "beta" "m1" ].

Lemma memory_search_ranked_witness : ∃ found,
  SearchMemories insertion_sort bg "acme" "ann" "Black TEA" 1 (caps (cap_run history new_system))
    = (caps (cap_run history new_system), Ok (limited 1 found)) ∧ NoDup found.*1.
Proof.
  destruct (memory_search_ranked insertion_sort history bg "acme" "ann" "Black TEA" 1) as (found & H1 & H2 & _).
  - reflexivity.
  - vm_compute. reflexivity.
  - vm_compute. reflexivity.
  - exists found. split; [exact H1|exact H2].
Defined.

Lemma capability_isolated_witness :
  (GetMemory bg "acme" "m1" (caps (cap_run beta_work (cap_run history new_system)))).2
  = (GetMemory bg "acme" "m1" (caps (cap_run history new_system))).2.
Proof.
  destruct (capability_isolated insertion_sort history beta_work "acme" bg) as (H & _).
  - apply (bool_decide_unpack _). vm_compute. exact I.
  - exact (proj1 (H "m1"%string)).
Defined.

Lemma index_converges_witness :
  let w := drain 3 (cap_run history new_system) in
  vectors (caps w) !! key ["acme"; VectorSourceMemory; "m1"]%string
  = index_entry (memories (caps w) !! key ["acme"; "m1"]%string).
Proof.
  destruct (index_converges history "acme" "m1") as (_ & H & _).
  - apply (bool_decide_unpack _). vm_compute. exact I.
  - vm_compute. reflexivity.
  - intros m _. vm_compute. constructor.
  - exact H.
Defined.

(** The stale record was skipped, the current version is indexed, the deleted memory is not. *)
Example history_indexed :
  let s := caps (drain 3 (cap_run history new_system)) in
  (ve_Content <$> vectors s !! key ["acme"; VectorSourceMemory; "m1"]%string) = Some "black tea"%string
  ∧ (ve_Version <$> vectors s !! key ["acme"; VectorSourceMemory; "m1"]%string) = Some 2
  ∧ vectors s !! key ["acme"; VectorSourceMemory; "m2"]%string = None.
Proof. vm_compute. split_and!; reflexivity. Qed.

(** * Audit facts, scores and deletions of vectors *)

Lemma find_snoc {A} (f : A → bool) l x : find f l = None → f x = true → find f (l ++ [x]) = Some x.
Proof. intros Hl Hx. induction l as [|y l IH]; cbn in *; [by rewrite Hx|]. by destruct (f y); [|apply IH]. Qed.

(** Appending a fact again with a payload as JSON gives it back finds the stored row and
    changes nothing. *)
Lemma AppendAudit_again ctx clk uuid clk' uuid' t id ev doc at' s s' row :
  str_empty id = false →
  AppendAudit ctx clk uuid (mkAuditRecord t id ev (Payload doc true) at') s = (s', Ok row) →
  AppendAudit ctx clk' uuid' (mkAuditRecord t id ev (Payload doc true) at') s' = (s', Ok row).
Proof.
  intros Hid. unfold AppendAudit. cbn [au_TenantID au_AuditID au_EventType au_Payload au_OccurredAt]. rewrite Hid. go_unfold.
  repeat (case_match; [|done]). destruct (find _ (default [] (audits s !! t))) as [r|] eqn:Hf.
  - destruct (_ || _) eqn:Hc; [done|]. intros [= <- <-]. by rewrite Hf, Hc.
  - intros [= <- <-]. cbn. rewrite lookup_insert_eq. cbn. rewrite find_snoc; [|done|apply String.eqb_refl].
    cbn. by rewrite bool_decide_true, String.eqb_refl.
Qed.

(** A fact without a payload is stored with an empty one, which differs from none: the same
    append again is a conflict. *)
Example audit_nil_payload_conflicts :
  let fact := mkAuditRecord "acme" "a1" "login" NilPayload 5 in
  let '(s, r) := AppendAudit bg (at_ 0) "u" fact newCaps in
  r = Ok (mkAuditRecord "acme" "a1" "login" (Payload "{}" true) 5) ∧ (AppendAudit bg (at_ 1) "u" fact s).2 = Err ErrConflict.
Proof. vm_compute. split; reflexivity. Qed.

(** An accepted embedding of large numbers has no score: its norm overflows, and the score is
    NaN, which no order of the results accounts for. *)
Example large_embedding_scores_nan :
  let large := binary_normalize 53 1024 (10 ^ 200) 0 false in
  ValidateEmbedding [large] = true ∧ cosine [large] [large] = Some S754_nan
  ∧ score_less str_less ("a"%string, S754_nan) ("b"%string, one64) = false
  ∧ score_less str_less ("b"%string, one64) ("a"%string, S754_nan) = false.
Proof. vm_compute. split_and!; reflexivity. Qed.

(** Deleting the vectors of a document also takes those of a live memory with that
    identifier, and no record is queued that would bring them back. *)
Example delete_vector_takes_memory :
  let w := cap_exec (CDeleteVector bg "acme" "m1") (drain 3 (cap_run history new_system)) in
  (live <$> memories (caps w) !! key ["acme"; "m1"]%string) = Some true
  ∧ vectors (caps w) !! key ["acme"; VectorSourceMemory; "m1"]%string = None ∧ pending w = [].
Proof. vm_compute. split_and!; reflexivity. Qed.
