(* ===== verification/Telegram.v ===== *)
(** The Telegram channel, [trpcservice/channels/telegram] with [channels/replies]: its
    configuration and identity check, the classification of updates, the handling of one
    update over the idempotency store and the audit log, the webhook in front of it and the
    provider that delivers stored reply segments.

    An update passes through phases; each ends with at most one action on the state that
    updates share, so runs interleave the phases of updates in any order.  The bot library
    is a parameter: what it decodes is a record with the fields that the adapter reads (of
    those that are only tested for presence, the names of the fields that are set), and what
    its calls return, like the answers of the dispatcher and of the context, is given by an
    [exchange].  Spans and metrics are not modelled. *)
From Stdlib Require Import Ascii String.
From S2P Require Import Outbox.
From S2P Require Import Prelude GoStrings GoURL GoIP Bindings Routing Gateway RuntimeStore Materializer AuditLog DispatchClaim Dispatch.
Local Open Scope Z_scope.

(** * Replies *)

Definition KindText : string := "text".
Definition KindFallback : string := "fallback".
Definition StableFallback : string := "Sorry, I couldn't process that message.".
Record Reply := mkReply { rp_Kind : string; rp_Text : string }.

(** The text so far; [None] is the return with the fallback. *)
Fixpoint render_loop (events : list DispatchEvent) (b : string) : option string :=
  match events with
  | [] => Some b
  | event :: rest =>
      if (ev_Type event =? DispatchEventError)%string then None
      else if (ev_Type event =? DispatchEventMessage)%string then render_loop rest (b ++ ev_Text event)
      else if (ev_Type event =? DispatchEventStatus)%string || (ev_Type event =? DispatchEventDone)%string then render_loop rest b
      else None
  end.
Definition Render (events : list DispatchEvent) : Reply :=
  match render_loop events "" with
  | None => mkReply KindFallback StableFallback
  | Some b => let text := trim_space b in
              if str_empty text then mkReply KindFallback StableFallback else mkReply KindText text
  end.

(** * Errors *)

Definition defaultPollTimeout : duration := minute.
Definition minimumPollTimeout : duration := 2 * second.
Definition maximumPollTimeout : duration := 10 * minute.
Definition maximumTokenRunes : Z := 1024.
Definition maximumReplyRunes : Z := 4096.
Definition failureReply : string := "Sorry, I couldn't process that message.".

Inductive terror :=
| TInvalid | TNotReady | TClosed | TAlreadyRunning | TInitialization | TBotIdentityMismatch
| TInvalidUpdate | TUnsupportedUpdate | TDuplicateUpdate | TDispatch | TSendMessage | TPolling
| TContext (e : ctx_error).
#[export] Instance terror_eq_dec : EqDecision terror.
Proof. solve_decision. Defined.

Inductive ErrorOperation :=
| ErrorOperationInitialization | ErrorOperationPolling | ErrorOperationUpdate | ErrorOperationDispatch
| ErrorOperationSend.
Record ErrorEvent := mkErrorEvent { Operation : ErrorOperation; Err_ : terror }.

(** * The data of the bot library *)

Record BotUser := mkBotUser { u_ID : Z; u_IsBot : bool }.
Inductive ChatType := ChatTypePrivate | ChatTypeGroup | ChatTypeSupergroup | OtherChatType.
Inductive EntityType := EntityBotCommand | OtherEntity.
Record BotMessage := mkBotMessage {
  bm_Text : string;
  bm_Caption : string;
  bm_Photo : list string;
  bm_Entities : list EntityType;
  bm_From : option BotUser;
  bm_ChatID : Z;
  bm_ChatType : ChatType;
  bm_MessageThreadID : Z;
  bm_set : list string }.
Record Update := mkUpdate { up_ID : Z; up_Message : option BotMessage; up_set : list string }.

(** A field that is not nil, empty or zero. *)
Definition any_set (fields set : list string) : bool := existsb (λ f, existsb (String.eqb f) set) fields.

(** * Classification *)

Definition hasPrimaryMedia (m : BotMessage) : bool :=
  any_set ["Animation"; "Audio"; "Document"; "PaidMedia"; "Sticker"; "Story"; "Video"; "VideoNote"; "Voice"; "Checklist";
    "Contact"]%string (bm_set m).
Definition hasSecondaryMedia (m : BotMessage) : bool :=
  any_set ["Dice"; "Game"; "Poll"; "Venue"; "Location"; "Invoice"; "SuccessfulPayment"; "RefundedPayment"; "UsersShared";
    "ChatShared"; "Gift"; "UniqueGift"; "GiftUpgradeSent"; "LivePhoto"]%string (bm_set m).
Definition hasMedia (m : BotMessage) : bool :=
  existsb (λ file, negb (str_empty (trim_space file))) (bm_Photo m) || hasPrimaryMedia m || hasSecondaryMedia m.

Definition hasUnsupportedMessageRoutingMetadata (m : BotMessage) : bool :=
  any_set ["DirectMessagesTopic"; "SenderChat"; "SenderBusinessBot"; "ReceiverUser"; "BusinessConnectionID"]%string (bm_set m).
Definition hasUnsupportedMessageReplyMetadata (m : BotMessage) : bool :=
  any_set ["HasMediaSpoiler"; "MediaGroupID"; "ReplyToStore"; "SuggestedPostInfo"; "EffectID"; "EditDate"; "GuestQueryID";
    "ReplyToPollOptionID"]%string (bm_set m).
Definition hasUnsupportedMessageMetadata (m : BotMessage) : bool :=
  hasUnsupportedMessageRoutingMetadata m || hasUnsupportedMessageReplyMetadata m.
Definition hasUnsupportedMessageChatLifecycleCore (m : BotMessage) : bool :=
  any_set ["NewChatMembers"; "LeftChatMember"; "NewChatTitle"; "NewChatPhoto"; "DeleteChatPhoto"; "GroupChatCreated";
    "SupergroupChatCreated"; "ChannelChatCreated"; "MessageAutoDeleteTimerChanged"; "MigrateToChatID"; "MigrateFromChatID"]%string (bm_set m).
Definition hasUnsupportedMessageChatLifecycleMetadata (m : BotMessage) : bool :=
  any_set ["PinnedMessage"; "ConnectedWebsite"; "WriteAccessAllowed"; "PassportData"; "ProximityAlertTriggered"; "BoostAdded";
    "ChatBackgroundSet"; "ChecklistTasksDone"; "ChecklistTasksAdded"; "DirectMessagePriceChanged"]%string (bm_set m).
Definition hasUnsupportedMessageChatLifecycle (m : BotMessage) : bool :=
  hasUnsupportedMessageChatLifecycleCore m || hasUnsupportedMessageChatLifecycleMetadata m.
Definition hasUnsupportedMessageChatTopics (m : BotMessage) : bool :=
  any_set ["ForumTopicCreated"; "ForumTopicEdited"; "ForumTopicClosed"; "ForumTopicReopened"; "GeneralForumTopicHidden";
    "GeneralForumTopicUnhidden"; "GiveawayCreated"; "Giveaway"; "GiveawayWinners"; "GiveawayCompleted"; "PaidMessagePriceChanged";
    "ChatOwnerLeft"; "ChatOwnerChanged"; "CommunityChatAdded"; "CommunityChatRemoved"]%string (bm_set m).
Definition hasUnsupportedMessageChatCommerce (m : BotMessage) : bool :=
  any_set ["SuggestedPostApproved"; "SuggestedPostApprovalFailed"; "SuggestedPostDeclined"; "SuggestedPostPaid";
    "SuggestedPostRefunded"; "VideoChatScheduled"; "VideoChatStarted"; "VideoChatEnded"; "VideoChatParticipantsInvited"; "WebAppData";
    "ManagedBotCreated"; "PollOptionAdded"; "PollOptionDeleted"; "GuestBotCallerUser"; "GuestBotCallerChat"]%string (bm_set m).
Definition hasUnsupportedMessageChatEvents (m : BotMessage) : bool :=
  hasUnsupportedMessageChatLifecycle m || hasUnsupportedMessageChatTopics m || hasUnsupportedMessageChatCommerce m.
Definition is_command (e : EntityType) : bool := match e with EntityBotCommand => true | OtherEntity => false end.
Definition hasUnsupportedMessage (m : BotMessage) : bool :=
  existsb is_command (bm_Entities m) || hasUnsupportedMessageMetadata m || hasUnsupportedMessageChatEvents m.

Definition hasUnsupportedUpdateMessages (u : Update) : bool :=
  any_set ["EditedMessage"; "ChannelPost"; "EditedChannelPost"; "BusinessConnection"; "BusinessMessage"; "EditedBusinessMessage";
    "DeletedBusinessMessages"]%string (up_set u).
Definition hasUnsupportedUpdateInteractions (u : Update) : bool :=
  any_set ["MessageReaction"; "MessageReactionCount"; "InlineQuery"; "ChosenInlineResult"; "CallbackQuery"; "ShippingQuery";
    "PreCheckoutQuery"; "PurchasedPaidMedia"; "Poll"; "PollAnswer"; "ManagedBot"; "GuestMessage"]%string (up_set u).
Definition hasUnsupportedUpdateMembership (u : Update) : bool :=
  any_set ["MyChatMember"; "ChatMember"; "ChatJoinRequest"; "ChatBoost"; "RemovedChatBoost"; "Subscription"]%string (up_set u).
Definition hasUnsupportedUpdate (u : Update) : bool :=
  hasUnsupportedUpdateMessages u || hasUnsupportedUpdateInteractions u || hasUnsupportedUpdateMembership u.

Definition messageContent (m : BotMessage) : option (string * string) :=
  if negb (str_empty (trim_space (bm_Text m))) then Some (bm_Text m, ContentTypeText)
  else if negb (str_empty (trim_space (bm_Caption m))) && hasMedia m then Some (bm_Caption m, ContentTypeMedia)
  else if hasMedia m then Some ("[telegram media]"%string, ContentTypeMedia)
  else if any_set ["RichMessage"]%string (bm_set m) then Some ("[telegram rich message]"%string, ContentTypeRich)
  else None.

Definition encodeParts (parts : list string) : string := len_prefixed_all parts.
Definition externalMessageID (target : RoutingTarget) (updateID : Z) : string :=
  encodeParts ["telegram-update"%string; Routing.rt_BindingID (target_fields target); itoa updateID].

Definition normalizeUpdate (target : RoutingTarget) (update : option Update) : result terror InboundMessage :=
  match update with
  | None => Err TInvalidUpdate
  | Some u =>
      if up_ID u <? 0 then Err TInvalidUpdate
      else if hasUnsupportedUpdate u then Err TUnsupportedUpdate
      else
        match up_Message u with
        | None => Err TUnsupportedUpdate
        | Some m =>
            if hasUnsupportedMessage m then Err TUnsupportedUpdate
            else
              match messageContent m, bm_From m with
              | None, _ => Err TUnsupportedUpdate
              | Some _, None => Err TInvalidUpdate
              | Some (content, contentType), Some from =>
                  if (u_ID from <=? 0) || (bm_ChatID m =? 0) || (bm_MessageThreadID m <? 0) then Err TInvalidUpdate
                  else
                    let chat := itoa (bm_ChatID m) in
                    match match bm_ChatType m with
                          | ChatTypePrivate => Some (ConversationDirect, chat, ""%string)
                          | ChatTypeGroup | ChatTypeSupergroup => Some (ConversationGroup, ""%string, chat)
                          | OtherChatType => None
                          end with
                    | None => Err TUnsupportedUpdate
                    | Some (kind, peer, group) =>
                        match Gateway.Normalize (mkMessage content contentType (externalMessageID target (up_ID u)) (itoa (u_ID from))
                                kind peer group (if 0 <? bm_MessageThreadID m then itoa (bm_MessageThreadID m) else ""%string)) with
                        | Err _ => Err TInvalidUpdate
                        | Ok normalized => Ok normalized
                        end
                    end
              end
        end
  end.

(** * Text *)

(** The runes, [maximum] at a time; short texts are sent as they are. *)
Definition splitText (text : string) (maximum : Z) : list string :=
  if str_empty text then []
  else if rune_count text <=? maximum then [text]
  else split_loop (length (runes text)) maximum (runes text).

Definition hasControl (value : string) : bool := existsb (λ r, (r <? 32) || (r =? 127)) (runes value).

Definition normalizeToken (token : string) : result terror string :=
  if str_empty token || negb (trim_space token =? token)%string || (maximumTokenRunes <? rune_count token) || hasControl token
  then Err TInvalid else Ok token.

(** [strings.TrimRight(value, "/")]. *)
Fixpoint drop_slashes (l : list Z) : list Z :=
  match l with b :: l' => if b =? 47 then drop_slashes l' else l | [] => [] end.
Definition trim_slashes (value : string) : string := string_of_bytes (rev (drop_slashes (rev (bytes value)))).

Definition normalizeAPIBaseURL (value : string) : result terror string :=
  let value := trim_space value in
  if str_empty value then Ok ""%string
  else
    match url_Parse value with
    | None => Err TInvalid
    | Some u =>
        if negb (Scheme u =? "https")%string || str_empty (Host u) || negb (opt_is_nil (User u))
          || (negb (str_empty (Path u)) && negb (Path u =? "/")%string) || negb (str_empty (RawPath u))
          || negb (str_empty (RawQuery u)) || negb (str_empty (Fragment u)) || hasControl value
        then Err TInvalid else Ok (trim_slashes value)
    end.

Definition normalizePollTimeout (value : duration) : result terror duration :=
  if value =? 0 then Ok defaultPollTimeout
  else if (value <? minimumPollTimeout) || (maximumPollTimeout <? value) then Err TInvalid else Ok value.
Definition normalizeWorkers (value : Z) : result terror Z :=
  if value =? 0 then Ok 1 else if value <? 1 then Err TInvalid else Ok value.

(** * Construction *)

(** Of the functions and interfaces only whether they are set; [Config.Factory] is the
    parameter [factory] below. *)
Record Config := mkConfig {
  c_BotToken : string;
  c_Target : RoutingTarget;
  c_Dispatcher : bool;
  c_Idempotency : option IdempotencyStore;
  c_APIBaseURL : string;
  c_PollTimeout : duration;
  c_Workers : Z;
  c_ErrorHook : bool;
  c_AuditWriter : option AuditLog.Store }.

Record normalizedConfig := mkNormalized {
  n_token : string; n_target : RoutingTarget; n_principal : Principal; n_apiBaseURL : string; n_pollTimeout : duration;
  n_workers : Z; n_providerAcctID : string }.

Definition normalizeConfig (ctx : context) (config : Config) : result terror normalizedConfig :=
  match ctx with
  | None => Err TInvalid
  | Some c =>
      match c 0%nat with
      | Some e => Err (TContext e)
      | None =>
          token ← normalizeToken (c_BotToken config);
          _ ← guard_ok (is_ok (RoutingTarget_Validate (c_Target config))) TInvalid;
          let r := target_fields (c_Target config) in
          _ ← guard_ok (rt_Channel r =? ChannelTelegram)%string TInvalid;
          match ParseInt64 (rt_ProviderAccountID r) with
          | None => Err TInvalid
          | Some account =>
              _ ← guard_ok (negb ((account <=? 0) || negb (itoa account =? rt_ProviderAccountID r)%string)) TInvalid;
              _ ← guard_ok (c_Dispatcher config) TInvalid;
              apiBaseURL ← normalizeAPIBaseURL (c_APIBaseURL config);
              pollTimeout ← normalizePollTimeout (c_PollTimeout config);
              workers ← normalizeWorkers (c_Workers config);
              match NewChannelPrincipal (c_Target config) with
              | Err _ => Err TInvalid
              | Ok principal => Ok (mkNormalized token (c_Target config) principal apiBaseURL pollTimeout workers (itoa account))
              end
          end
      end
  end.

(** [runCancel] is set while a run polls; [canceled] tells whether [Close] canceled it. *)
Record Adapter := mkAdapter {
  a_client : bool; a_principal : Principal; a_target : RoutingTarget; a_ownIdempotency : bool; a_errorHook : bool;
  a_audit : Recorder; a_closed : bool; a_runCancel : option bool }.

(** The events that reach the hook. *)
Definition report (hook : bool) (operation : ErrorOperation) (e : terror) : list ErrorEvent :=
  if hook then [mkErrorEvent operation e] else [].

(** What [GetMe] returns: a user or nil, or an error; [ctx.Err()] is read after an error. *)
Definition verifyIdentity (hook : bool) (ctxErr : option ctx_error) (me : option (option BotUser)) (providerAccountID : string)
    : list ErrorEvent * result terror unit :=
  match me with
  | None => match ctxErr with
            | Some e => ([], Err (TContext e))
            | None => (report hook ErrorOperationInitialization TInitialization, Err TInitialization)
            end
  | Some user =>
      if match user with
         | None => true
         | Some u => negb (u_IsBot u) || (u_ID u <=? 0) || negb (itoa (u_ID u) =? providerAccountID)%string
         end
      then (report hook ErrorOperationInitialization TBotIdentityMismatch, Err TBotIdentityMismatch)
      else ([], Ok ())
  end.

(** The factory gets the token and the options and returns a client, whose [GetMe] answers
    later, or fails.  The second component is the idempotency store that the adapter uses,
    or that was closed on failure. *)
Definition New (factory : string → normalizedConfig → option (option (option BotUser))) (ctx : context) (config : Config)
    : list ErrorEvent * option IdempotencyStore * result terror Adapter :=
  match normalizeConfig ctx config with
  | Err e => ([], c_Idempotency config, Err e)
  | Ok n =>
      match match c_Idempotency config with
            | Some s => Ok (s, false)
            | None => match NewIdempotencyStore (mkIdempotencyConfig 0 0) with Ok s => Ok (s, true) | Err _ => Err TInvalid end
            end with
      | Err e => ([], None, Err e)
      | Ok (store, own) =>
          let hook := c_ErrorHook config in
          let adapter := mkAdapter true (n_principal n) (n_target n) own hook
            (mkRecorder (c_AuditWriter config) (Routing.rt_TenantID (target_fields (n_target n))) None) false None in
          let given_up := Some (if own then Idempotency_Close store else store) in
          match factory (n_token n) n with
          | None => (report hook ErrorOperationInitialization TInitialization, given_up, Err TInitialization)
          | Some me =>
              match verifyIdentity hook (c ← ctx; c 1%nat) me (n_providerAcctID n) with
              | (reports, Err e) => (reports, given_up, Err e)
              | (reports, Ok _) => (reports, Some store, Ok adapter)
              end
          end
      end
  end.

(** The options of the library; [configuredHTTPClient] gives a default client its timeout. *)
Definition sdk_options_ok (handler : bool) (workers : Z) (pollTimeout : duration) : bool :=
  negb (negb handler || (workers <? 1) || (pollTimeout <? minimumPollTimeout)).
Definition configuredHTTPClient (given : bool) (pollTimeout : duration) : option duration :=
  if given then None else Some (wrap64 (pollTimeout + 5 * second)).

(** * Runs *)

Definition set_run (r : option bool) (a : Adapter) : Adapter :=
  mkAdapter (a_client a) (a_principal a) (a_target a) (a_ownIdempotency a) (a_errorHook a) (a_audit a) (a_closed a) r.

(** [Run] up to the blocking [Start], and its deferred function. *)
Definition run_start (ctx : context) (a : option Adapter) : option Adapter * result terror unit :=
  match ctx with
  | None => (a, Err TInvalid)
  | Some c =>
      match c 0%nat, a with
      | Some e, _ => (a, Err (TContext e))
      | None, None => (a, Err TNotReady)
      | None, Some ad =>
          if a_closed ad then (a, Err TClosed)
          else if negb (a_client ad) then (a, Err TNotReady)
          else match a_runCancel ad with
               | Some _ => (a, Err TAlreadyRunning)
               | None => (Some (set_run (Some false) ad), Ok ())
               end
      end
  end.
Definition run_end (a : Adapter) : Adapter := set_run None a.

(** [Close], with the idempotency store. *)
Definition closeOwnedIdempotency (own : bool) (s : IdempotencyStore) : IdempotencyStore :=
  if own then Idempotency_Close s else s.
Definition adapter_Close (a : Adapter) (s : IdempotencyStore) : Adapter * IdempotencyStore :=
  if a_closed a then (a, s)
  else
    (mkAdapter (a_client a) (a_principal a) (a_target a) (a_ownIdempotency a) (a_errorHook a) (a_audit a) true
       (match a_runCancel a with Some _ => Some true | None => None end),
     closeOwnedIdempotency (a_ownIdempotency a) s).

(** * One update *)

Inductive stream_end := StreamClosed | StreamContext (e : ctx_error).
(** What [Dispatch] returns: an error, of the context or another, or a channel. *)
Inductive dispatch_answer :=
| DispatchRefused (e : option ctx_error)
| DispatchNil
| DispatchStream (received : list DispatchEvent) (ending : stream_end).

(** The parties of one update: the readings of [ctx.Err()] (first the entry, then
    [Begin], then before each message sent), the clocks of the idempotency store, the
    contexts and times of the audit writes, the dispatcher, and whether each
    [SendMessage] succeeds. *)
Record exchange := mkExchange {
  x_ctx : context;
  x_begin : clock;
  x_settle : clock;
  x_actx : nat → context;
  x_now : nat → stamp;
  x_dispatch : dispatch_answer;
  x_send : nat → bool }.

Record SendMessageParams := mkParams { ChatID : Z; MessageThreadID : Z; SendText : string }.
Inductive action :=
| ADispatch (p : Principal) (m : InboundMessage) (requestID : string)
| ASend (params : SendMessageParams) (sent : bool)
| AReport (event : ErrorEvent).
Definition reports (hook : bool) (operation : ErrorOperation) (e : terror) : list action :=
  AReport <$> report hook operation e.

Definition is_context (e : terror) : bool := match e with TContext _ => true | _ => false end.

Fixpoint dispatch_loop (rest : list DispatchEvent) (ending : stream_end) (events : list DispatchEvent) (done failed : bool)
    : result terror (list DispatchEvent) :=
  match rest with
  | [] => match ending with
          | StreamContext e => Err (TContext e)
          | StreamClosed => if negb done || failed then Err TDispatch else Ok events
          end
  | event :: rest' =>
      dispatch_loop rest' ending (events ++ [event]) (done || ev_Done event)
        (failed || (ev_Type event =? DispatchEventError)%string)
  end.
Definition dispatch (answer : dispatch_answer) : result terror (list DispatchEvent) :=
  match answer with
  | DispatchRefused (Some e) => Err (TContext e)
  | DispatchRefused None | DispatchNil => Err TDispatch
  | DispatchStream received ending => dispatch_loop received ending [] false false
  end.

Fixpoint send_chunks (x : exchange) (m : BotMessage) (i : nat) (chunks : list string) : list action * result terror unit :=
  match chunks with
  | [] => ([], Ok ())
  | chunk :: rest =>
      match c ← x_ctx x; c (2 + i)%nat with
      | Some e => ([], Err (TContext e))
      | None =>
          let params := mkParams (bm_ChatID m) (bm_MessageThreadID m) chunk in
          if x_send x i then
            let '(sent, r) := send_chunks x m (S i) rest in (ASend params true :: sent, r)
          else ([ASend params false], Err TSendMessage)
      end
  end.
Definition sendText (client : bool) (x : exchange) (message : option BotMessage) (text : string) : list action * result terror unit :=
  match message with
  | None => ([], Err TInvalidUpdate)
  | Some m => if negb client then ([], Err TNotReady) else send_chunks x m 0 (splitText text maximumReplyRunes)
  end.
Definition sendEvents (client : bool) (x : exchange) (message : option BotMessage) (events : list DispatchEvent) :=
  sendText client x message (rp_Text (Render events)).

(** After [sendEvents]: failures other than of the context are reported. *)
Definition send_outcome (hook : bool) (r : result terror unit) : list action :=
  match r with
  | Err e => if is_context e then [] else reports hook ErrorOperationSend TSendMessage
  | Ok _ => []
  end.

(** The errors of [Begin] that [beginUpdate] passes on or maps. *)
Definition begin_error (e : Gateway.error) : terror :=
  match e with
  | Gateway.ErrContext c => TContext c
  | Gateway.ErrClosed => TClosed
  | _ => TInvalid
  end.

(** Where an update stands: before [Begin]; a duplicate, a recorded reply or a claim to be
    audited; a claim to be executed or given up; a reply to be sent; the delivery to be
    audited; or the end. *)
Inductive phase :=
| PEnter (update : option Update)
| PDuplicate (inbound : InboundMessage)
| PReplay (message : option BotMessage) (inbound : InboundMessage) (replay : list DispatchEvent)
| PClaimed (message : option BotMessage) (inbound : InboundMessage) (claim : IdempotencyClaim)
| PAudited (message : option BotMessage) (inbound : InboundMessage) (claim : IdempotencyClaim)
| PGiveUp (claim : IdempotencyClaim)
| PReply (message : option BotMessage) (inbound : InboundMessage) (events : list DispatchEvent)
| PSent (inbound : InboundMessage)
| PEnd (r : result terror unit).

Definition beginUpdate (message : option BotMessage) (inbound : InboundMessage)
    (r : result Gateway.error (IdempotencyClaim + list DispatchEvent)) : phase :=
  match r with
  | Ok (inl claim) => PClaimed message inbound claim
  | Ok (inr replay) => PReplay message inbound replay
  | Err Gateway.ErrDuplicateMessage => PDuplicate inbound
  | Err e => PEnd (Err (begin_error e))
  end.

Record tstate := mkTState { t_adapter : Adapter; t_idem : IdempotencyStore; t_audit : AuditLog.Backend }.
Definition set_idem (i : IdempotencyStore) (s : tstate) : tstate := mkTState (t_adapter s) i (t_audit s).
Definition set_audit (b : AuditLog.Backend) (s : tstate) : tstate := mkTState (t_adapter s) (t_idem s) b.

(** One audit write of the update: the state and whether it was stored. *)
Definition audit_im (x : exchange) (i : nat) (eventType : string) (inbound : InboundMessage) (decision errorType : string) (s : tstate)
    : tstate * bool :=
  let '(b, r) := IM (a_audit (t_adapter s)) (x_actx x i) (x_now x i) eventType (m_ExternalMessageID inbound) "" (m_ExternalUserID inbound) ""
    decision errorType (t_audit s) in
  (set_audit b s, is_ok r).

(** One phase. *)
Definition advance (x : exchange) (ph : phase) (s : tstate) : tstate * phase * list action :=
  let a := t_adapter s in
  let hook := a_errorHook a in
  match ph with
  | PEnter update =>
      match x_ctx x with
      | None => (s, PEnd (Err TInvalid), reports hook ErrorOperationUpdate TInvalid)
      | Some c =>
          match c 0%nat with
          | Some e => (s, PEnd (Err (TContext e)), [])
          | None =>
              if a_closed a then (s, PEnd (Err TClosed), [])
              else if negb (a_client a) then (s, PEnd (Err TNotReady), [])
              else
                match normalizeUpdate (a_target a) update with
                | Err e => (s, PEnd (Err e), reports hook ErrorOperationUpdate e)
                | Ok inbound =>
                    let message := u ← update; up_Message u in
                    let '(i, r) := Begin (Some (λ i, c (S i))) (x_begin x) (a_principal a) inbound (t_idem s) in
                    (set_idem i s, beginUpdate message inbound r, [])
                end
          end
      end
  | PDuplicate inbound =>
      match audit_im x 0 EventIMIngressDuplicate inbound DecisionDuplicate AuditLog.ErrorDuplicate s with
      | (s', false) => (s', PEnd (Err TDispatch), reports hook ErrorOperationUpdate TDispatch)
      | (s', true) => (s', PEnd (Err TDuplicateUpdate), [])
      end
  | PReplay message inbound replay =>
      match audit_im x 0 EventIMIngressAccepted inbound DecisionAccepted "" s with
      | (s', false) => (s', PEnd (Err TDispatch), [])
      | (s', true) =>
          let '(sent, r) := sendEvents (a_client a) x message replay in
          (s', PEnd r, sent ++ send_outcome hook r)
      end
  | PClaimed message inbound claim =>
      match audit_im x 0 EventIMIngressAccepted inbound DecisionAccepted "" s with
      | (s', false) => (s', PGiveUp claim, [])
      | (s', true) => (s', PAudited message inbound claim, [])
      end
  | PGiveUp claim => (set_idem (Fail_ (x_settle x) claim (t_idem s)).1 s, PEnd (Err TDispatch), [])
  | PAudited message inbound claim =>
      let asked := ADispatch (a_principal a) inbound (m_ExternalMessageID inbound) in
      match dispatch (x_dispatch x) with
      | Ok events => (set_idem (Complete events (x_settle x) claim (t_idem s)).1 s, PReply message inbound events, [asked])
      | Err e =>
          let s' := set_idem (Fail_ (x_settle x) claim (t_idem s)).1 s in
          if is_context e then (s', PEnd (Err e), [asked])
          else
            let '(sent, r) := sendText (a_client a) x message failureReply in
            (s', PEnd (Err TDispatch), asked :: reports hook ErrorOperationDispatch TDispatch ++ sent ++ send_outcome hook r)
      end
  | PReply message inbound events =>
      let '(sent, r) := sendEvents (a_client a) x message events in
      (s, match r with Ok _ => PSent inbound | Err e => PEnd (Err e) end, sent ++ send_outcome hook r)
  | PSent inbound =>
      match audit_im x 1 EventIMDeliverySent inbound DecisionAccepted "" s with
      | (s', false) => (s', PEnd (Err TDispatch), [])
      | (s', true) => (s', PEnd (Ok ()), [])
      end
  | PEnd r => (s, PEnd r, [])
  end.

(** The phases one after the other; five reach the end from any phase. *)
Fixpoint run_phases (n : nat) (x : exchange) (ph : phase) (s : tstate) : tstate * phase * list action :=
  match n with
  | O => (s, ph, [])
  | S n' =>
      let '(s1, ph1, out1) := advance x ph s in
      let '(s2, ph2, out2) := run_phases n' x ph1 s1 in
      (s2, ph2, out1 ++ out2)
  end.
(** [HandleUpdate] without interference. *)
Definition HandleUpdate (x : exchange) (update : option Update) (s : tstate) : tstate * result terror unit * list action :=
  match run_phases 5 x (PEnter update) s with
  | (s', PEnd r, out) => (s', r, out)
  | (s', _, out) => (s', Err TNotReady, out)
  end.

(** Updates in flight on one adapter, with whatever else uses the idempotency store. *)
Record twork := mkWork { tw_state : tstate; tw_flights : list (exchange * phase); tw_log : list (nat * action) }.
Inductive t_op :=
| TArrive (x : exchange) (update : option Update)
| TStep (i : nat)
| TClose
| TOther (o : idempotency_op)
| TAudit (b : AuditLog.Backend).
Definition t_exec (o : t_op) (w : twork) : twork :=
  match o with
  | TArrive x update => mkWork (tw_state w) (tw_flights w ++ [(x, PEnter update)]) (tw_log w)
  | TStep i =>
      match tw_flights w !! i with
      | None => w
      | Some (x, ph) =>
          let '(s, ph', out) := advance x ph (tw_state w) in
          mkWork s (<[i := (x, ph')]> (tw_flights w)) (tw_log w ++ (pair i <$> out))
      end
  | TClose =>
      let '(a, i) := adapter_Close (t_adapter (tw_state w)) (t_idem (tw_state w)) in
      mkWork (mkTState a i (t_audit (tw_state w))) (tw_flights w) (tw_log w)
  | TOther o => mkWork (set_idem (idempotency_exec o (t_idem (tw_state w))) (tw_state w)) (tw_flights w) (tw_log w)
  | TAudit b => mkWork (set_audit b (tw_state w)) (tw_flights w) (tw_log w)
  end.
Definition t_run (os : list t_op) (w : twork) : twork := foldl (λ w o, t_exec o w) w os.

(** * The webhook *)

Record WebhookConfig := mkWebhookConfig {
  wc_Path : string; wc_SecretToken : string; wc_Secret : string; wc_MaxBodyBytes : Z }.
Record Webhook := mkWebhook { wh_path : string; wh_secret : string; wh_maxBody : Z }.

Definition NewWebhook (adapter : bool) (config : WebhookConfig) : result terror Webhook :=
  let secret := if str_empty (wc_SecretToken config) then wc_Secret config else wc_SecretToken config in
  if negb adapter || str_empty (trim_space (wc_Path config)) || negb (has_prefix (wc_Path config) "/")
    || has_byte 63 (wc_Path config) || has_byte 35 (wc_Path config)
    || str_empty (trim_space secret) || negb (trim_space secret =? secret)%string
  then Err TInvalid
  else
    let maxBody := if wc_MaxBodyBytes config =? 0 then 1048576 else wc_MaxBodyBytes config in
    if (maxBody <? 1) || (maximumTokenRunes <? rune_count secret) || hasControl secret then Err TInvalid
    else
      let path := trim_slashes (wc_Path config) in
      if str_empty path then Err TInvalid else Ok (mkWebhook path secret maxBody).

(** A request as the handler reads it; the body is [None] when reading it fails. *)
Record hook_request := mkHookRequest { hr_path : string; hr_method : string; hr_secret : string; hr_body : option string }.
Record hook_response := mkHookResponse { hs_status : Z; hs_text : string; hs_allow : bool }.
Definition refuse (status : Z) (text : string) : hook_response := mkHookResponse status text false.
Definition bad_request : hook_response := refuse 400 "bad request".
Definition unavailable : hook_response := refuse 503 "unavailable".

Section Webhook.
(** Decoding a body as exactly one update: [None] when the first [Decode] fails or the
    second does not find the end. *)
Context (decode : string → option Update).

(** Up to the admission. *)
Definition hook_enter (w : Webhook) (rq : hook_request) : hook_response + Update :=
  if negb (hr_path rq =? wh_path w)%string then inl (refuse 404 "404 page not found")
  else if negb (hr_method rq =? "POST")%string then inl (mkHookResponse 405 "method not allowed" true)
  else if negb (hr_secret rq =? wh_secret w)%string then inl (refuse 403 "forbidden")
  else
    match hr_body rq with
    | None => inl bad_request
    | Some body =>
        let body := string_of_bytes (take (Z.to_nat (wrap64 (wh_maxBody w + 1))) (bytes body)) in
        if wh_maxBody w <? len body then inl bad_request
        else match decode body with None => inl bad_request | Some update => inr update end
    end.

Definition hook_answer (r : result terror unit) : hook_response :=
  match r with
  | Ok _ | Err TDuplicateUpdate => refuse 200 ""
  | Err TClosed | Err (TContext _) => unavailable
  | Err TUnsupportedUpdate => refuse 200 ""
  | Err TInvalidUpdate => bad_request
  | Err _ => unavailable
  end.

(** Requests, the admission flag and the updates that were accepted and not answered yet;
    [Close] waits for those before it closes the adapter. *)
Record hook_state := mkHookState {
  hk_work : twork; hk_closing : bool; hk_closed : bool; hk_open : list nat; hk_answers : list hook_response }.
Inductive hook_op :=
| HRequest (rq : hook_request) (x : exchange)
| HAdapter (o : t_op)
| HAnswer (flight : nat)
| HBeginShutdown
| HClose.
Definition hook_exec (w : Webhook) (o : hook_op) (s : hook_state) : hook_state :=
  match o with
  | HRequest rq x =>
      match hook_enter w rq with
      | inl answer => mkHookState (hk_work s) (hk_closing s) (hk_closed s) (hk_open s) (hk_answers s ++ [answer])
      | inr update =>
          if hk_closing s then mkHookState (hk_work s) true (hk_closed s) (hk_open s) (hk_answers s ++ [unavailable])
          else
            mkHookState (t_exec (TArrive x (Some update)) (hk_work s)) false (hk_closed s)
              (length (tw_flights (hk_work s)) :: hk_open s) (hk_answers s)
      end
  | HAdapter o => mkHookState (t_exec o (hk_work s)) (hk_closing s) (hk_closed s) (hk_open s) (hk_answers s)
  | HAnswer i =>
      match tw_flights (hk_work s) !! i with
      | Some (_, PEnd r) =>
          if bool_decide (i ∈ hk_open s)
          then mkHookState (hk_work s) (hk_closing s) (hk_closed s) (filter (λ j, j ≠ i) (hk_open s)) (hk_answers s ++ [hook_answer r])
          else s
      | _ => s
      end
  | HBeginShutdown => mkHookState (hk_work s) true (hk_closed s) (hk_open s) (hk_answers s)
  | HClose =>
      match hk_open s with
      | [] => mkHookState (t_exec TClose (hk_work s)) true true [] (hk_answers s)
      | _ => mkHookState (hk_work s) true (hk_closed s) (hk_open s) (hk_answers s)
      end
  end.
Definition hook_run (w : Webhook) (os : list hook_op) (s : hook_state) : hook_state := foldl (λ s o, hook_exec w o s) s os.
End Webhook.

(** * The provider of the outbox *)

(** [&outbox.DeliveryError{Class, Retryable}]. *)
Definition delivery_error (class : string) (retryable : bool) : perror := mkPError false false (Some (class, retryable)).

(** The receipts; the client and the destination do not change. *)
Notation Receipts := (gmap string string).
Record Provider := mkProvider { pv_chatID : Z; pv_threadID : Z }.
Definition NewProvider (client : bool) (chatID threadID : Z) : option Provider :=
  if negb client || (chatID =? 0) || (threadID <? 0) then None else Some (mkProvider chatID threadID).

Definition deliveryKey (v : ReplyOutbox) : string :=
  (RuntimeStore.r_TenantID v ++ GoStrings.nul ++ r_ReplyID v ++ GoStrings.nul ++ itoa (r_SegmentIndex v))%string.

(** What [SendMessage] returns: an error (canceled or another), no message, or its number. *)
Inductive send_answer := SendCanceled | SendFailed | SendNil | SendID (id : Z).

(** [Deliver] up to the call of the library, and from its return on. *)
Definition deliver_start (v : ReplyOutbox) (rs : Receipts) : option string :=
  receipt ← rs !! deliveryKey v;
  if str_empty receipt then None else Some receipt.
Definition deliver_end (v : ReplyOutbox) (answer : send_answer) (rs : Receipts) : Receipts * result perror string :=
  match answer with
  | SendCanceled => (rs, Err (delivery_error "canceled" true))
  | SendFailed => (rs, Err (delivery_error "provider_error" true))
  | SendNil => (rs, Err (delivery_error "provider_invalid_receipt" false))
  | SendID id =>
      if id <=? 0 then (rs, Err (delivery_error "provider_invalid_receipt" false))
      else (<[deliveryKey v := itoa id]> rs, Ok (itoa id))
  end.
Definition Deliver (p : option Provider) (ctx : bool) (v : ReplyOutbox) (answer : send_answer) (rs : Receipts)
    : Receipts * result perror string * list SendMessageParams :=
  match p with
  | None => (rs, Err (delivery_error "invalid" false), [])
  | Some p =>
      if negb ctx then (rs, Err (delivery_error "invalid" false), [])
      else
        match deliver_start v rs with
        | Some receipt => (rs, Ok receipt, [])
        | None => (deliver_end v answer rs, [mkParams (pv_chatID p) (pv_threadID p) (r_Payload v)])
        end
  end.
Definition Reconcile (p : option Provider) (v : ReplyOutbox) (rs : Receipts) : DeliveryStatus * string :=
  match p with
  | None => (DeliveryUnknown, ""%string)
  | Some _ => match deliver_start v rs with Some receipt => (DeliveryAccepted, receipt) | None => (DeliveryUnknown, ""%string) end
  end.
