(* ===== verification/TelegramTheorems.v ===== *)
(** What the Telegram channel guarantees: the bot is the one of the binding, exactly the updates in
    scope become messages of their chat, an update is executed once at a time and its claim
    is always settled, replies arrive whole, the webhook admits only authenticated updates
    and closes the adapter after the last of them, and stored segments are not sent again
    once a receipt is known. *)
From Stdlib Require Import Ascii String.
From S2P Require Import Outbox.
From S2P Require Import Prelude GoStrings GoURL GoIP Bindings Routing Gateway RuntimeStore Materializer AuditLog DispatchClaim Dispatch Telegram.
Local Open Scope Z_scope.

(** * Identifiers *)







(** * Classification *)


























(** * Texts and sends *)

Lemma splitText_spec text :
  runes (String.concat "" (splitText text maximumReplyRunes)) = runes text
  ∧ Forall (λ c, 1 ≤ rune_count c ≤ maximumReplyRunes) (splitText text maximumReplyRunes)
  ∧ (text ≠ ""%string → splitText text maximumReplyRunes ≠ []).
Proof.
  unfold splitText. destruct (str_empty text) eqn:He.
  { destruct text; [|discriminate]. split_and!; [done|constructor|done]. }
  destruct (Z.leb_spec (rune_count text) maximumReplyRunes) as [Hle|Hgt].
  - split_and!; [done| |done]. constructor; [|constructor]. split; [|done].
    unfold rune_count. destruct (runes text) eqn:Hr; [|cbn; lia]. exfalso.
    unfold runes in Hr. apply fmap_nil_inv, chunks_nil_inv in Hr. by destruct text.
  - destruct (split_loop_spec maximumReplyRunes ltac:(done) (length (runes text)) (runes text)) as (H1 & H2 & H3);
      [lia|apply runes_scalar|]. split_and!; [|done|].
    + rewrite H1. apply runes_of_string_of_runes. apply forallb_forall. intros r Hr.
      pose proof (runes_scalar text) as Hs. rewrite Forall_forall in Hs. by apply Hs, list_elem_of_In.
    + intros _ E. rewrite E in H3. unfold rune_count in Hgt. unfold maximumReplyRunes in *.
      pose proof (Z.div_le_lower_bound (Z.of_nat (length (runes text)) + 4096 - 1) 4096 1). cbn in H3. lia.
Qed.

Lemma Render_nonempty events : rp_Text (Render events) ≠ ""%string.
Proof. unfold Render. destruct (render_loop events "") as [b|]; [|done]. cbv zeta. by destruct (trim_space b). Qed.

Definition params_for (m : BotMessage) (text : string) : SendMessageParams := mkParams (bm_ChatID m) (bm_MessageThreadID m) text.

(** Every action is a report or a send to the chat, of one of the pieces; success sends all. *)
Lemma send_chunks_spec x m i chunks out r :
  send_chunks x m i chunks = (out, r) →
  (∀ act, act ∈ out → ∃ c ok, c ∈ chunks ∧ act = ASend (params_for m c) ok)
  ∧ (r = Ok () → out = (λ c, ASend (params_for m c) true) <$> chunks)
  ∧ (∀ e, r = Err e → e = TSendMessage ∨ is_context e = true).
Proof.
  revert i out r. induction chunks as [|c chunks IH]; intros i out r; cbn.
  { intros [= <- <-]. split_and!; try done. intros act. by rewrite elem_of_nil. }
  destruct (x_ctx x ≫= _) as [e|].
  { intros [= <- <-]. split_and!; try done; [intros act; by rewrite elem_of_nil|]. intros e' [= <-]. by right. }
  destruct (x_send x i).
  - destruct (send_chunks x m (S i) chunks) as [sent r'] eqn:E. intros [= <- <-].
    destruct (IH _ _ _ E) as (H1 & H2 & H3). split_and!; [|intros Hr; by rewrite (H2 Hr)|done].
    intros act [->|Hact]%elem_of_cons; [exists c, true; split; [left|done]|].
    destruct (H1 act Hact) as (c' & ok & ? & ->). exists c', ok. split; [by right|done].
  - intros [= <- <-]. split_and!; [|done|intros e [= <-]; by left].
    intros act ->%list_elem_of_singleton. exists c, false. split; [left|done].
Qed.

Lemma reports_elem hook op e act : act ∈ reports hook op e → act = AReport (mkErrorEvent op e).
Proof.
  unfold reports, report. destruct hook; cbn; [|by rewrite elem_of_nil]. by intros ->%list_elem_of_singleton.
Qed.
Lemma send_outcome_elem hook r act : act ∈ send_outcome hook r → act = AReport (mkErrorEvent ErrorOperationSend TSendMessage).
Proof.
  unfold send_outcome. destruct r as [|e]; [by rewrite elem_of_nil|]. destruct (is_context e); [by rewrite elem_of_nil|].
  apply reports_elem.
Qed.

(** The piece of a text that may be sent to the chat of [message]. *)
Definition good_send (message : option BotMessage) (act : action) : Prop :=
  match act with
  | ASend params _ => ∃ m c, message = Some m ∧ params = params_for m c ∧ 1 ≤ rune_count c ≤ maximumReplyRunes
  | _ => True
  end.

Lemma sendText_spec client x message text out r :
  sendText client x message text = (out, r) →
  Forall (good_send message) out
  ∧ (r = Ok () → ∃ m, message = Some m ∧ out = (λ c, ASend (params_for m c) true) <$> splitText text maximumReplyRunes)
  ∧ (∀ act, act ∈ out → ∃ p ok, act = ASend p ok).
Proof.
  unfold sendText. destruct message as [m|]; [|intros [= <- <-]; split_and!; [constructor|done|intros act; by rewrite elem_of_nil]].
  destruct client; cbn [negb]; [|intros [= <- <-]; split_and!; [constructor|done|intros act; by rewrite elem_of_nil]].
  intros (H1 & H2 & _)%send_chunks_spec. destruct (splitText_spec text) as (_ & Hall & _). rewrite Forall_forall in Hall. split_and!.
  - apply Forall_forall. intros act Hact. destruct (H1 act Hact) as (c & ok & Hc & ->). exists m, c. auto.
  - intros Hr. exists m. split; [done|]. by apply H2.
  - intros act Hact. destruct (H1 act Hact) as (c & ok & _ & ->). eauto.
Qed.

(** * The phases of an update *)

Definition the_message (update : option Update) : option BotMessage := u ← update; up_Message u.

Definition only_reports (out : list action) : Prop := ∀ act, act ∈ out → ∃ ev, act = AReport ev.
Lemma only_reports_reports hook op e : only_reports (reports hook op e).
Proof. intros act ->%reports_elem. eauto. Qed.
Lemma only_reports_nil : only_reports [].
Proof. intros act. by rewrite elem_of_nil. Qed.

(** Entering ends at once with an error and reports, or goes through [Begin]. *)
Lemma advance_enter x update s s' ph out :
  advance x (PEnter update) s = (s', ph, out) →
  (s' = s ∧ (∃ e, ph = PEnd (Err e)) ∧ only_reports out)
  ∨ (∃ c inbound r, x_ctx x = Some c ∧ a_closed (t_adapter s) = false ∧ a_client (t_adapter s) = true
      ∧ normalizeUpdate (a_target (t_adapter s)) update = Ok inbound
      ∧ Begin (Some (λ i, c (S i))) (x_begin x) (a_principal (t_adapter s)) inbound (t_idem s) = (t_idem s', r)
      ∧ t_adapter s' = t_adapter s ∧ t_audit s' = t_audit s
      ∧ ph = beginUpdate (the_message update) inbound r ∧ out = []).
Proof.
  cbn -[Begin normalizeUpdate]. destruct (x_ctx x) as [c|]; [|intros [= <- <- <-]; left; eauto using only_reports_reports].
  destruct (c 0%nat); [intros [= <- <- <-]; left; eauto using only_reports_nil|].
  destruct (a_closed (t_adapter s)) eqn:Hc; [intros [= <- <- <-]; left; eauto using only_reports_nil|].
  destruct (a_client (t_adapter s)) eqn:Hcl; cbn [negb]; [|intros [= <- <- <-]; left; eauto using only_reports_nil].
  destruct (normalizeUpdate _ _) as [inbound|e] eqn:Hn; [|intros [= <- <- <-]; left; eauto using only_reports_reports].
  destruct (Begin _ _ _ _ _) as [i r] eqn:Hb. intros [= <- <- <-]. right. exists c, inbound, r. cbn. split_and!; done.
Qed.

Lemma beginUpdate_cases m inbound r :
  (∃ claim, r = Ok (inl claim) ∧ beginUpdate m inbound r = PClaimed m inbound claim)
  ∨ (∃ evs, r = Ok (inr evs) ∧ beginUpdate m inbound r = PReplay m inbound evs)
  ∨ (∃ e, r = Err e) ∧ (beginUpdate m inbound r = PDuplicate inbound ∨ ∃ e, beginUpdate m inbound r = PEnd (Err e)).
Proof. destruct r as [[claim|evs]|e]; cbn; [by eauto..|]. right. right. split; [eauto|]. destruct e; eauto. Qed.

(** The update a phase belongs to. *)
Definition phase_of (update : option Update) (ph : phase) : Prop :=
  match ph with
  | PEnter u => u = update
  | PReplay m _ _ | PClaimed m _ _ | PAudited m _ _ | PReply m _ _ => m = the_message update
  | _ => True
  end.

Lemma good_reports message hook op e : Forall (good_send message) (reports hook op e).
Proof. apply Forall_forall. by intros act ->%reports_elem. Qed.
Lemma good_outcome message hook r : Forall (good_send message) (send_outcome hook r).
Proof. apply Forall_forall. by intros act ->%send_outcome_elem. Qed.

Lemma advance_good x update ph s s' ph' out :
  advance x ph s = (s', ph', out) → phase_of update ph → phase_of update ph' ∧ Forall (good_send (the_message update)) out.
Proof.
  intros Ha Hp. destruct ph; [|cbn in Ha, Hp; subst..].
  - cbn in Hp. subst. apply advance_enter in Ha as [(_ & (e & ->) & Ho)|(c & inbound & r & _ & _ & _ & _ & _ & _ & _ & -> & ->)].
    + split; [done|]. apply Forall_forall. intros act Hact. by destruct (Ho act Hact) as [ev ->].
    + split; [|constructor]. by destruct (beginUpdate_cases (the_message update) inbound r) as [(? & _ & ->)|[(? & _ & ->)|[_ [-> |[? ->]]]]].
  - repeat case_match; simplify_eq; split; try done; try constructor; apply good_reports.
  - unfold sendEvents in Ha. destruct (audit_im _ _ _ _ _ _ _) as [s1 []]; [|simplify_eq; by split].
    destruct (sendText _ _ _ _) as [sent r] eqn:E. simplify_eq. split; [done|]. apply Forall_app. split; [|apply good_outcome].
    by apply sendText_spec in E as [? _].
  - repeat case_match; simplify_eq; split; try done; constructor.
  - destruct (dispatch _) as [events|e]; [simplify_eq; split; [done|by repeat constructor]|].
    destruct (is_context e); [simplify_eq; split; [done|by repeat constructor]|].
    destruct (sendText _ _ _ _) as [sent r] eqn:E. simplify_eq. split; [done|]. constructor; [done|].
    rewrite !Forall_app. split_and!; [apply good_reports|by apply sendText_spec in E as [? _]|apply good_outcome].
  - simplify_eq. by split.
  - unfold sendEvents in Ha. destruct (sendText _ _ _ _) as [sent r] eqn:E. simplify_eq.
    split; [by destruct r|]. apply Forall_app. split; [by apply sendText_spec in E as [? _]|apply good_outcome].
  - repeat case_match; simplify_eq; split; try done; constructor.
  - simplify_eq. by split.
Qed.

Definition phases_left (ph : phase) : nat :=
  match ph with
  | PEnter _ => 5 | PClaimed _ _ _ => 4 | PAudited _ _ _ => 3 | PReply _ _ _ => 2
  | PDuplicate _ | PReplay _ _ _ | PGiveUp _ | PSent _ => 1 | PEnd _ => 0
  end.
Lemma advance_left x ph s : phases_left ph ≠ 0%nat → (phases_left (advance x ph s).1.2 < phases_left ph)%nat.
Proof.
  intros Hn. destruct (advance x ph s) as [[s' ph'] out] eqn:E. cbn. destruct ph; [|cbn in *; repeat case_match; simplify_eq; cbn; lia || done..].
  apply advance_enter in E as [(_ & (e & ->) & _)|(c & inbound & r & _ & _ & _ & _ & _ & _ & _ & -> & _)]; cbn; [lia|].
  destruct (beginUpdate_cases (the_message update) inbound r) as [(? & _ & ->)|[(? & _ & ->)|[_ [-> |[? ->]]]]]; cbn; lia.
Qed.
Lemma run_phases_S n x ph s :
  run_phases (S n) x ph s
  = let '(s1, ph1, out1) := advance x ph s in let '(s2, ph2, out2) := run_phases n x ph1 s1 in (s2, ph2, out1 ++ out2).
Proof. done. Qed.
Lemma run_phases_end n x ph s : (phases_left ph ≤ n)%nat → ∃ s' r out, run_phases n x ph s = (s', PEnd r, out).
Proof.
  revert ph s. induction n as [|n IH]; intros ph s Hn.
  { destruct ph; cbn in Hn; try lia. by eexists _, _, _. }
  cbn. destruct (advance x ph s) as [[s1 ph1] out1] eqn:E.
  destruct (IH ph1 s1) as (s2 & r & out2 & ->); [|by eexists _, _, _].
  destruct (decide (phases_left ph = 0%nat)) as [Hz|Hnz].
  - destruct ph; try done. cbn in E. simplify_eq. cbn. lia.
  - pose proof (advance_left x ph s Hnz) as Hl. rewrite E in Hl. cbn in Hl. lia.
Qed.

Lemma run_phases_good n x update ph s s' ph' out :
  run_phases n x ph s = (s', ph', out) → phase_of update ph → Forall (good_send (the_message update)) out.
Proof.
  revert ph s out. induction n as [|n IH]; intros ph s out; cbn; [by intros [= <- <- <-]|].
  destruct (advance x ph s) as [[s1 ph1] out1] eqn:E. destruct (run_phases n x ph1 s1) as [[s2 ph2] out2] eqn:E2.
  intros [= <- <- <-] Hp. destruct (advance_good _ _ _ _ _ _ _ E Hp) as [Hp1 Hg]. apply Forall_app. split; [done|]. by eapply IH.
Qed.

(** The actions of sends that succeeded, in order. *)
Definition sent_texts (out : list action) : list string :=
  omap (λ act, match act with ASend p true => Some (SendText p) | _ => None end) out.
Definition dispatches (out : list action) : nat :=
  length (filter (λ act, match act with ADispatch _ _ _ => true | _ => false end = true) out).

Lemma sent_texts_app a b : sent_texts (a ++ b) = sent_texts a ++ sent_texts b.
Proof. apply omap_app. Qed.
Lemma sent_texts_all m cs : sent_texts ((λ c, ASend (params_for m c) true) <$> cs) = cs.
Proof. unfold sent_texts. induction cs as [|c cs IH]; cbn; [done|]. by f_equal. Qed.
Lemma sent_texts_quiet out : (∀ act, act ∈ out → ∃ ev, act = AReport ev) → sent_texts out = [].
Proof.
  intros H. induction out as [|act out IH]; [done|]. destruct (H act) as [ev ->]; [left|]. cbn. apply IH. intros a Ha. apply H. by right.
Qed.
Lemma sent_outcome_quiet hook r : sent_texts (send_outcome hook r) = [].
Proof. apply sent_texts_quiet. intros act ->%send_outcome_elem. eauto. Qed.

(** What ends an update well: the recorded reply or the fresh one was sent completely. *)
Lemma phases_ok n x ph s s' out :
  run_phases n x ph s = (s', PEnd (Ok ()), out) →
  match ph with
  | PEnd r => r = Ok () ∧ out = []
  | PSent _ => sent_texts out = []
  | PReply _ _ events | PReplay _ _ events => sent_texts out = splitText (rp_Text (Render events)) maximumReplyRunes
  | PAudited _ _ _ | PClaimed _ _ _ =>
      ∃ events, dispatch (x_dispatch x) = Ok events ∧ sent_texts out = splitText (rp_Text (Render events)) maximumReplyRunes
  | PDuplicate _ | PGiveUp _ => False
  | PEnter _ => True
  end.
Proof.
  revert ph s out. induction n as [|n IH]; intros ph s out; cbn; [by intros [= <- -> <-]|].
  destruct (advance x ph s) as [[s1 ph1] out1] eqn:E. destruct (run_phases n x ph1 s1) as [[s2 ph2] out2] eqn:E2.
  intros [= -> -> <-]. apply IH in E2. destruct ph; cbn in E; try done.
  - destruct (audit_im _ _ _ _ _ _ _) as [s3 []]; simplify_eq; by destruct E2.
  - unfold sendEvents in E. destruct (audit_im _ _ _ _ _ _ _) as [s3 []]; [|simplify_eq; by destruct E2].
    destruct (sendText _ _ _ _) as [sent r] eqn:Et. simplify_eq. destruct E2 as [-> ->].
    apply sendText_spec in Et as (_ & Hr & _). destruct (Hr eq_refl) as (m & _ & ->).
    by rewrite app_nil_r, sent_texts_app, sent_texts_all, sent_outcome_quiet, app_nil_r.
  - destruct (audit_im _ _ _ _ _ _ _) as [s3 []]; simplify_eq; [done|]. by destruct E2.
  - destruct (dispatch (x_dispatch x)) as [events|e] eqn:Ed; [simplify_eq; exists events; by rewrite sent_texts_app|].
    exfalso. destruct (is_context e); [simplify_eq; by destruct E2|].
    destruct (sendText _ _ _ _) as [sent r]. simplify_eq. by destruct E2.
  - simplify_eq. by destruct E2.
  - unfold sendEvents in E. destruct (sendText _ _ _ _) as [sent r] eqn:Et. simplify_eq.
    apply sendText_spec in Et as (_ & Hr & _). destruct r as [[]|e]; [|by destruct E2]. destruct (Hr eq_refl) as (m & _ & ->).
    by rewrite !sent_texts_app, sent_texts_all, sent_outcome_quiet, E2, !app_nil_r.
  - destruct (audit_im _ _ _ _ _ _ _) as [s3 []]; simplify_eq; destruct E2; by subst.
  - simplify_eq. by destruct E2 as [-> ->].
Qed.

Lemma Begin_replay ctx clk p m s s' evs :
  Begin ctx clk p m s = (s', Ok (inr evs)) →
  ∃ key e, request_key p m = Ok key ∧ entries s !! key = Some e ∧ state e = IdempotencyCompleted ∧ Gateway.events e = evs.
Proof.
  rewrite Begin_eq. destruct ctx as [c|]; [|discriminate]. destruct (c 0%nat); [discriminate|].
  destruct (request_key p m) as [key|]; [|discriminate]. unfold begin_locked. destruct (closed s); [discriminate|]. cbv zeta.
  assert (∀ s2, reserve_key key (store_now clk) s2 ≠ (s', Ok (inr evs))) as Hr by (intros s2; unfold reserve_key; by case_match).
  destruct (entries (pruneLocked (store_now clk) s) !! key) as [e|] eqn:He; [|by intros ?%Hr].
  apply prune_lookup in He as [He _]. destruct (state e) eqn:Hst; [discriminate| |by intros ?%Hr]. intros [= _ <-]. by exists key, e.
Qed.

(** May the phase still dispatch? *)
Definition may_dispatch (ph : phase) : nat :=
  match ph with PEnter _ | PClaimed _ _ _ | PAudited _ _ _ => 1 | _ => 0 end.
Lemma dispatches_app a b : dispatches (a ++ b) = (dispatches a + dispatches b)%nat.
Proof. unfold dispatches. by rewrite filter_app, length_app. Qed.
Lemma dispatches_cons a b : dispatches (a :: b) = (dispatches [a] + dispatches b)%nat.
Proof. apply (dispatches_app [a]). Qed.
Lemma dispatches_none out : (∀ act, act ∈ out → ∀ p m r, act ≠ ADispatch p m r) → dispatches out = 0%nat.
Proof.
  intros H. unfold dispatches. apply length_zero_iff_nil. destruct (filter _ out) as [|act l] eqn:E; [done|]. exfalso.
  assert (act ∈ filter (λ act, match act with ADispatch _ _ _ => true | _ => false end = true) out) as Ha by (rewrite E; left).
  apply list_elem_of_filter in Ha as [Hm Ha]. destruct act; try done. by eapply H.
Qed.

Lemma advance_dispatches x ph s s' ph' out :
  advance x ph s = (s', ph', out) → (dispatches out + may_dispatch ph' ≤ may_dispatch ph)%nat.
Proof.
  assert (∀ hook op e, dispatches (reports hook op e) = 0%nat) as Hrep.
  { intros. apply dispatches_none. intros act ->%reports_elem. done. }
  assert (∀ hook r, dispatches (send_outcome hook r) = 0%nat) as Hout.
  { intros. apply dispatches_none. intros act ->%send_outcome_elem. done. }
  assert (∀ client x message text sent r, sendText client x message text = (sent, r) → dispatches sent = 0%nat) as Hsend.
  { intros * (_ & _ & H)%sendText_spec. apply dispatches_none. intros act Hact. destruct (H act Hact) as (p & ok & ->). done. }
  assert (∀ p m r, dispatches [ADispatch p m r] = 1%nat) as H1 by done.
  intros Ha. destruct ph; [|cbn in Ha..].
  - apply advance_enter in Ha as [(_ & (e & ->) & Ho)|(c & inbound & r & _ & _ & _ & _ & _ & _ & _ & -> & ->)];
      [rewrite dispatches_none; [cbn; lia|]; intros act Hact; by destruct (Ho act Hact) as [ev ->]|].
    destruct (beginUpdate_cases (the_message update) inbound r) as [(? & _ & ->)|[(? & _ & ->)|[_ [-> |[? ->]]]]]; cbn; lia.
  - repeat case_match; simplify_eq; cbn; rewrite ?Hrep; lia.
  - unfold sendEvents in Ha. destruct (audit_im _ _ _ _ _ _ _) as [s1 []]; [|simplify_eq; cbn; lia].
    destruct (sendText _ _ _ _) as [sent r] eqn:E. simplify_eq. rewrite dispatches_app, (Hsend _ _ _ _ _ _ E), Hout. cbn. lia.
  - repeat case_match; simplify_eq; cbn; lia.
  - destruct (dispatch _) as [events|e]; [simplify_eq; rewrite H1; cbn; lia|].
    destruct (is_context e); [simplify_eq; rewrite H1; cbn; lia|]. destruct (sendText _ _ _ _) as [sent r] eqn:E. simplify_eq.
    rewrite dispatches_cons, !dispatches_app, Hrep, (Hsend _ _ _ _ _ _ E), Hout, H1. cbn. lia.
  - simplify_eq. cbn. lia.
  - unfold sendEvents in Ha. destruct (sendText _ _ _ _) as [sent r] eqn:E. simplify_eq.
    rewrite dispatches_app, (Hsend _ _ _ _ _ _ E), Hout. destruct r; cbn; lia.
  - repeat case_match; simplify_eq; cbn; lia.
  - simplify_eq. cbn. lia.
Qed.

Lemma run_phases_dispatches n x ph s s' ph' out :
  run_phases n x ph s = (s', ph', out) → (dispatches out + may_dispatch ph' ≤ may_dispatch ph)%nat.
Proof.
  revert ph s out. induction n as [|n IH]; intros ph s out; cbn; [by intros [= <- <- <-]|].
  destruct (advance x ph s) as [[s1 ph1] out1] eqn:E. destruct (run_phases n x ph1 s1) as [[s2 ph2] out2] eqn:E2.
  intros [= <- <- <-]. apply advance_dispatches in E. apply IH in E2. rewrite dispatches_app. lia.
Qed.

(** C38: one update ends, dispatches at most once, and sends only to the chat and thread of
    its message, in pieces of 1 to 4096 runes.  When it succeeds, at least one message was
    sent and the pieces together are the rendered reply, rune by rune, of the events that
    the dispatcher streamed or that the idempotency store recorded for the message. *)
Theorem reply_sent_whole x update s :
  ∃ s' r out, HandleUpdate x update s = (s', r, out) ∧ run_phases 5 x (PEnter update) s = (s', PEnd r, out)
  ∧ (dispatches out ≤ 1)%nat
  ∧ (∀ params ok, ASend params ok ∈ out →
       ∃ m text, the_message update = Some m ∧ params = params_for m text ∧ 1 ≤ rune_count text ≤ maximumReplyRunes)
  ∧ (r = Ok () → ∃ events, sent_texts out ≠ []
       ∧ runes (String.concat "" (sent_texts out)) = runes (rp_Text (Render events))
       ∧ (dispatch (x_dispatch x) = Ok events
          ∨ ∃ key e, entries (t_idem s) !! key = Some e ∧ state e = IdempotencyCompleted ∧ Gateway.events e = events)).
Proof.
  destruct (run_phases_end 5 x (PEnter update) s ltac:(done)) as (s' & r & out & Hrun). exists s', r, out.
  split; [unfold HandleUpdate; by rewrite Hrun|]. split; [done|]. split; [|split].
  - apply run_phases_dispatches in Hrun. cbn in Hrun. lia.
  - intros params ok Hin. pose proof (run_phases_good _ _ update _ _ _ _ _ Hrun eq_refl) as Hg. rewrite Forall_forall in Hg.
    by apply (Hg _ Hin).
  - intros ->. rewrite run_phases_S in Hrun. destruct (advance x (PEnter update) s) as [[s1 ph1] out1] eqn:E1.
    destruct (run_phases 4 x ph1 s1) as [[s2 ph2] out2] eqn:E2. injection Hrun as -> -> <-.
    assert (∃ events, sent_texts (out1 ++ out2) = splitText (rp_Text (Render events)) maximumReplyRunes
      ∧ (dispatch (x_dispatch x) = Ok events
         ∨ ∃ key e, entries (t_idem s) !! key = Some e ∧ state e = IdempotencyCompleted ∧ Gateway.events e = events))
      as (events & -> & Hev).
    { apply phases_ok in E2. apply advance_enter in E1 as
        [(_ & (e & ->) & _)|(c & inbound & r & _ & _ & _ & _ & Hb & _ & _ & -> & ->)]; [by destruct E2|].
      destruct (beginUpdate_cases (the_message update) inbound r) as [(cl & _ & Hp)|[(evs & -> & Hp)|[_ [Hp|[? Hp]]]]];
        rewrite Hp in E2; [|apply Begin_replay in Hb as (key & e & _ & ? & ? & ?)|done|by destruct E2].
      - destruct E2 as (events & ? & ?). eauto.
      - exists evs. split; [exact E2|]. right. by exists key, e. }
    exists events. destruct (splitText_spec (rp_Text (Render events))) as (H1 & _ & H3).
    split_and!; [apply H3, Render_nonempty|done|done].
Qed.

(** * Claims *)

Definition held_claim (ph : phase) : option IdempotencyClaim :=
  match ph with PClaimed _ _ c | PAudited _ _ c | PGiveUp c => Some c | _ => None end.
Definition holds (ph : phase) (key : string) : Prop := ∃ c, held_claim ph = Some c ∧ claim_key c = key.
(** A held claim is not settled yet, and stands for the message of its phase. *)
Definition claim_ok (p : Principal) (ph : phase) : Prop :=
  (∀ c, held_claim ph = Some c → claim_done c = false)
  ∧ match ph with PClaimed _ inbound c | PAudited _ inbound c => request_key p inbound = Ok (claim_key c) | _ => True end.

(** What a phase does to the idempotency store. *)
Inductive idem_effect (x : exchange) (ph : phase) (s : tstate) (s' : tstate) (ph' : phase) : Prop :=
| EffNone : t_idem s' = t_idem s → (∀ c, held_claim ph' = Some c → held_claim ph = Some c) →
    (∀ c, held_claim ph = Some c → held_claim ph' = Some c) → idem_effect x ph s s' ph'
| EffBegin c inbound r : Begin (Some (λ i, c (S i))) (x_begin x) (a_principal (t_adapter s)) inbound (t_idem s) = (t_idem s', r) →
    (∃ update, ph = PEnter update) → held_claim ph' = (match r with Ok (inl claim) => Some claim | _ => None end) →
    idem_effect x ph s s' ph'
| EffComplete evs m inbound claim : ph = PAudited m inbound claim → held_claim ph' = None →
    t_idem s' = (Complete evs (x_settle x) claim (t_idem s)).1 → idem_effect x ph s s' ph'
| EffFail claim : held_claim ph = Some claim → held_claim ph' = None →
    t_idem s' = (Fail_ (x_settle x) claim (t_idem s)).1 →
    (ph = PGiveUp claim ∨ ∃ m i e, ph = PAudited m i claim ∧ dispatch (x_dispatch x) = Err e) → idem_effect x ph s s' ph'.

Lemma audit_im_frame x i ev inbound d et s s' ok :
  audit_im x i ev inbound d et s = (s', ok) → t_idem s' = t_idem s ∧ t_adapter s' = t_adapter s.
Proof. unfold audit_im. destruct (IM _ _ _ _ _ _ _ _ _ _ _) as [b r]. by intros [= <- _]. Qed.

Lemma advance_effect x ph s s' ph' out :
  advance x ph s = (s', ph', out) →
  t_adapter s' = t_adapter s ∧ idem_effect x ph s s' ph' ∧ (claim_ok (a_principal (t_adapter s)) ph → claim_ok (a_principal (t_adapter s)) ph').
Proof.
  intros Ha. destruct ph as [update|inbound|m inbound replay|m inbound claim|m inbound claim|claim|m inbound events|inbound|r]; [|cbn in Ha..].
  - apply advance_enter in Ha as [(-> & (e & ->) & _)|(c & inbound & r & _ & _ & _ & _ & Hb & Ha & _ & -> & _)].
    { split_and!; [done|by apply EffNone|done]. }
    split; [done|]. destruct (beginUpdate_cases (the_message update) inbound r) as [(cl & -> & Hp)|[(evs & -> & Hp)|[[e ->] Hp]]].
    + rewrite Hp. split; [by eapply EffBegin; eauto|]. intros _. apply Begin_claim in Hb as (Hk & Hd & _).
      split; [|done]. by intros c' [= <-].
    + rewrite Hp. split; [by eapply EffBegin; eauto|]. by split.
    + split; [|by destruct Hp as [-> |[? ->]]]. eapply EffBegin; [done|by eauto|]. by destruct Hp as [-> |[? ->]].
  - destruct (audit_im _ _ _ _ _ _ _) as [s1 ok] eqn:E. apply audit_im_frame in E as [E1 E2].
    destruct ok; simplify_eq; (split_and!; [done|by apply EffNone|by split]).
  - destruct (audit_im _ _ _ _ _ _ _) as [s1 ok] eqn:E. apply audit_im_frame in E as [E1 E2].
    destruct ok; [destruct (sendEvents _ _ _ _)|]; simplify_eq; (split_and!; [done|by apply EffNone|by split]).
  - destruct (audit_im _ _ _ _ _ _ _) as [s1 ok] eqn:E. apply audit_im_frame in E as [E1 E2].
    destruct ok; simplify_eq; (split_and!; [done|by apply EffNone|]); intros [H1 H2]; by split.
  - destruct (dispatch _) as [events|e] eqn:Ed.
    + simplify_eq. split_and!; [done| |by split]. by eapply (EffComplete _ _ _ _ _ events).
    + assert (t_adapter s' = t_adapter s ∧ t_idem s' = (Fail_ (x_settle x) claim (t_idem s)).1 ∧ ∃ r, ph' = PEnd r) as (H1 & H2 & r & ->).
      { destruct (is_context e); [|destruct (sendText _ _ _ _)]; simplify_eq; by eauto. }
      split_and!; [done| |by split]. apply (EffFail _ _ _ _ _ claim); try done. right. eauto.
  - simplify_eq. split_and!; [done| |by split]. apply (EffFail _ _ _ _ _ claim); try done. by left.
  - destruct (sendEvents _ _ _ _) as [sent r]. simplify_eq. split_and!; [done|by apply EffNone; destruct r|by destruct r; split].
  - destruct (audit_im _ _ _ _ _ _ _) as [s1 ok] eqn:E. apply audit_im_frame in E as [E1 E2].
    destruct ok; simplify_eq; (split_and!; [done|by apply EffNone|by split]).
  - simplify_eq. split_and!; [done|by apply EffNone|by split].
Qed.

Definition principal_of (w : twork) : Principal := a_principal (t_adapter (tw_state w)).
Definition claims_ok (w : twork) : Prop := Forall (λ f, claim_ok (principal_of w) f.2) (tw_flights w).
Definition pending_held (w : twork) : Prop :=
  ∀ key e, entries (t_idem (tw_state w)) !! key = Some e → state e = IdempotencyPending →
    ∃ i x ph, tw_flights w !! i = Some (x, ph) ∧ holds ph key.

Lemma t_exec_principal o w : principal_of (t_exec o w) = principal_of w.
Proof.
  unfold principal_of. destruct o; cbn; try done.
  - destruct (tw_flights w !! i) as [[x ph]|]; [|done]. destruct (advance x ph _) as [[s' ph'] out] eqn:E.
    cbn. by apply advance_effect in E as [-> _].
  - unfold adapter_Close. by destruct (a_closed _).
Qed.

Lemma t_exec_claims o w : claims_ok w → claims_ok (t_exec o w).
Proof.
  unfold claims_ok. rewrite t_exec_principal. intros Hok. destruct o; cbn; try done.
  - apply Forall_app_2; [done|]. by repeat constructor.
  - destruct (tw_flights w !! i) as [[x ph]|] eqn:Hi; [|done]. destruct (advance x ph _) as [[s' ph'] out] eqn:E. cbn.
    apply Forall_insert; [done|]. apply advance_effect in E as (_ & _ & H). apply H. by apply (Forall_lookup_1 _ _ _ _ Hok Hi).
  - by destruct (adapter_Close _ _).
Qed.
Lemma t_run_claims os w : claims_ok w → claims_ok (t_run os w).
Proof. revert w. induction os as [|o os IH]; intros w Hok; [done|]. by apply IH, t_exec_claims. Qed.

(** Replacing a phase by one that holds the same claims. *)
Lemma pending_insert (fs : list (exchange * phase)) i x ph ph' key :
  fs !! i = Some (x, ph) → (holds ph key → holds ph' key) →
  (∃ j y p, fs !! j = Some (y, p) ∧ holds p key) → ∃ j y p, <[i := (x, ph')]> fs !! j = Some (y, p) ∧ holds p key.
Proof.
  intros Hi Hh (j & y & p & Hj & Hp). pose proof (lookup_lt_Some _ _ _ Hi). destruct (decide (j = i)) as [->|Hne].
  - rewrite Hi in Hj. simplify_eq. exists i, y, ph'. rewrite list_lookup_insert_eq by done. auto.
  - exists j, y, p. by rewrite list_lookup_insert_ne by done.
Qed.

Lemma settled_pending next evs clk claim w i x ph ph' key e :
  pending_held w → tw_flights w !! i = Some (x, ph) → held_claim ph = Some claim → claim_done claim = false → next ≠ IdempotencyPending →
  entries (settle next evs clk claim (t_idem (tw_state w))).1 !! key = Some e → state e = IdempotencyPending →
  ∃ j y p, <[i := (x, ph')]> (tw_flights w) !! j = Some (y, p) ∧ holds p key.
Proof.
  intros Hp Hi Hh Hd Hne He Hst. destruct (decide (claim_key claim = key)) as [<-|Hk]; [by destruct (settle_settles _ _ _ _ _ _ Hne Hd He)|].
  rewrite settle_other in He by done. eapply pending_insert; [done| |by eapply Hp]. intros (cl & Hc & Hkk). congruence.
Qed.

Lemma step_pending i w : claims_ok w → pending_held w → pending_held (t_exec (TStep i) w).
Proof.
  intros Hok Hp. cbn. destruct (tw_flights w !! i) as [[x ph]|] eqn:Hi; [|done].
  destruct (advance x ph _) as [[s' ph'] out] eqn:E. intros key e He Hst. cbn in *. pose proof (lookup_lt_Some _ _ _ Hi).
  pose proof (Forall_lookup_1 _ _ _ _ Hok Hi) as [Hdone _].
  apply advance_effect in E as (_ & [Hs Hh1 Hh2|c inbound r Hb [u ->] Hh|evs m inbound claim -> Hh' Hs|claim Hh Hh' Hs _] & _).
  - rewrite Hs in He. eapply pending_insert; [done| |by eapply Hp]. intros (cl & Hc & Hk). exists cl. split; [by apply Hh2|done].
  - destruct (Begin_entries _ _ _ _ _ _ _ _ _ Hb He) as [He'|(claim & -> & Hk & _)].
    + eapply pending_insert; [done| |by eapply Hp]. by intros (cl & Hc & _).
    + exists i, x, ph'. rewrite list_lookup_insert_eq by done. split; [done|]. by exists claim.
  - rewrite Hs in He. eapply (settled_pending IdempotencyCompleted); eauto.
  - rewrite Hs in He. eapply (settled_pending IdempotencyFailed); eauto.
Qed.

Definition own_store (o : t_op) : Prop := match o with TOther _ => False | _ => True end.
Lemma t_run_pending os w : claims_ok w → pending_held w → Forall own_store os → pending_held (t_run os w).
Proof.
  revert w. induction os as [|o os IH]; intros w Hok Hp; [done|]. intros [Ho Hos]%Forall_cons. apply IH; [by apply t_exec_claims| |done].
  destruct o; try done; [|by apply step_pending|].
  - intros key e He Hst. destruct (Hp key e He Hst) as (i & y & ph & Hi & Hh). exists i, y, ph. cbn. by rewrite (lookup_app_l_Some _ _ _ _ Hi).
  - intros key e. cbn. unfold adapter_Close, closeOwnedIdempotency. destruct (a_closed _); [by apply Hp|].
    destruct (a_ownIdempotency _); cbn; [by rewrite lookup_empty|by apply Hp].
Qed.

Definition idle (s : tstate) : twork := mkWork s [] [].

(** C37: updates give their claims back.  However the phases of updates interleave, whatever
    the dispatcher, the audit log, the contexts and the bot answer, and also when the
    adapter is closed in between: a message is pending in the store of the adapter only
    while an update that claimed it is in flight, every update in flight ends within five
    phases, and when all of them have ended nothing is pending. *)
Theorem updates_settle_claims s os :
  entries (t_idem s) = ∅ → Forall own_store os →
  let w := t_run os (idle s) in
  (∀ key e, entries (t_idem (tw_state w)) !! key = Some e → state e = IdempotencyPending →
     ∃ i x ph claim, tw_flights w !! i = Some (x, ph) ∧ held_claim ph = Some claim ∧ claim_key claim = key ∧ claim_done claim = false)
  ∧ (∀ i x ph st, tw_flights w !! i = Some (x, ph) → ∃ st' r out, run_phases 5 x ph st = (st', PEnd r, out))
  ∧ (Forall (λ f, phases_left f.2 = 0%nat) (tw_flights w) → ∀ key e,
       entries (t_idem (tw_state w)) !! key = Some e → state e ≠ IdempotencyPending).
Proof.
  intros Hs Hos w. assert (claims_ok (idle s)) as H0 by constructor. pose proof (t_run_claims os _ H0) as Hok. fold w in Hok.
  assert (pending_held w) as Hp. { apply t_run_pending; [done| |done]. intros key e. cbn. by rewrite Hs, lookup_empty. }
  split_and!.
  - intros key e He Hst. destruct (Hp key e He Hst) as (i & x & ph & Hi & claim & Hc & Hk). exists i, x, ph, claim.
    split_and!; try done. by apply (Forall_lookup_1 _ _ _ _ Hok Hi).
  - intros i x ph st _. apply run_phases_end. destruct ph; cbn; lia.
  - intros Hend key e He Hst. destruct (Hp key e He Hst) as (i & x & ph & Hi & claim & Hc & _).
    pose proof (Forall_lookup_1 _ _ _ _ Hend Hi) as Hz. by destruct ph.
Qed.

(** * One execution at a time *)

Lemma taken_refuses key until ctx clk p m s s' claim :
  taken key until s → store_now clk < until → Begin ctx clk p m s = (s', Ok (inl claim)) → claim_key claim ≠ key.
Proof.
  intros Ht Hnow Hb <-. pose proof (Begin_claim _ _ _ _ _ _ _ Hb) as (Hk & _). rewrite Begin_eq in Hb.
  destruct ctx as [c|]; [|discriminate]. destruct (c 0%nat); [discriminate|]. rewrite Hk in Hb. unfold begin_locked in Hb.
  destruct (closed s) eqn:Hcl; [discriminate|]. cbv zeta in Hb. destruct Ht as [?|(e & He & Hst & Hexp)]; [congruence|].
  assert (entries (pruneLocked (store_now clk) s) !! claim_key claim = Some e) as Hp by (apply prune_lookup; split; [done|lia]).
  rewrite Hp in Hb. by destruct (state e).
Qed.

Lemma advance_dispatch_from x ph s s' ph' out p m r :
  advance x ph s = (s', ph', out) → ADispatch p m r ∈ out →
  ∃ message claim, ph = PAudited message m claim ∧ p = a_principal (t_adapter s).
Proof.
  intros Ha Hin. destruct ph as [update|inbound|msg inbound replay|msg inbound claim|msg inbound claim|claim|msg inbound events|inbound|r0].
  5: { cbn in Ha. assert (∀ l, (∀ act, act ∈ l → ∀ p m r, act ≠ ADispatch p m r) →
         ADispatch p m r ∈ ADispatch (a_principal (t_adapter s)) inbound (m_ExternalMessageID inbound) :: l →
         m = inbound ∧ p = a_principal (t_adapter s)) as Hl.
       { intros l Hl [[= -> -> _]|H]%elem_of_cons; [done|]. by destruct (Hl _ H p m r). }
       assert (m = inbound ∧ p = a_principal (t_adapter s)) as [-> ->]; [|eauto].
       destruct (dispatch _) as [events|e]; [simplify_eq; apply (Hl []); [intros act; by rewrite elem_of_nil|done]|].
       destruct (is_context e); [simplify_eq; apply (Hl []); [intros act; by rewrite elem_of_nil|done]|].
       destruct (sendText _ _ _ _) as [sent rr] eqn:E. simplify_eq. eapply Hl; [|exact Hin].
       intros act. rewrite !elem_of_app. intros [H|[H|H]]; [by apply reports_elem in H as ->| |by apply send_outcome_elem in H as ->].
       apply sendText_spec in E as (_ & _ & E). destruct (E act H) as (? & ? & ->). done. }
  all: exfalso; pose proof (advance_dispatches _ _ _ _ _ _ Ha) as Hd; cbn [may_dispatch] in Hd.
  all: assert (1 ≤ dispatches out)%nat as H1 by (unfold dispatches; apply Nat.neq_0_lt_0; intros Hz%length_zero_iff_nil;
         by apply (filter_nil_not_elem_of _ _ _ Hz) in Hin).
  all: try lia.
  - apply advance_enter in Ha as [(_ & _ & Ho)|(c & inbound & rr & _ & _ & _ & _ & _ & _ & _ & _ & ->)]; [|by apply elem_of_nil in Hin].
    by destruct (Ho _ Hin).
  - cbn in Ha. destruct (audit_im _ _ _ _ _ _ _) as [s1 []]; simplify_eq; by apply elem_of_nil in Hin.
Qed.

#[local] Instance holds_dec ph key : Decision (holds ph key).
Proof.
  unfold holds. destruct (held_claim ph) as [c|]; [|right; naive_solver].
  destruct (decide (claim_key c = key)); [left; eauto|right; naive_solver].
Defined.

(** The updates in flight that hold a claim on a message. *)
Definition claimant (key : string) (w : twork) (j : nat) : Prop :=
  ∃ y ph, tw_flights w !! j = Some (y, ph) ∧ holds ph key.
#[local] Instance claimant_dec key w j : Decision (claimant key w j).
Proof.
  unfold claimant. destruct (tw_flights w !! j) as [[y ph]|]; [|right; naive_solver].
  destruct (decide (holds ph key)); [left; eauto|right; naive_solver].
Defined.

(** The clock readings of the idempotency store that an operation takes are in the
    lifetime that begins at [t0], and others report no failure of the message. *)
Definition op_within (key : string) (t0 T : Z) (w : twork) (o : t_op) : Prop :=
  match o with
  | TStep j =>
      match tw_flights w !! j with
      | Some (x, PEnter _) => t0 ≤ store_now (x_begin x) < t0 + T
      | Some (x, PAudited _ _ _) | Some (x, PGiveUp _) => t0 ≤ store_now (x_settle x) < t0 + T
      | _ => True
      end
  | TOther o => during t0 (t0 + T) o ∧ no_failure key o
  | _ => True
  end.
Fixpoint within (key : string) (t0 T : Z) (os : list t_op) (w : twork) : Prop :=
  match os with
  | [] => True
  | o :: os' => op_within key t0 T w o ∧ within key t0 T os' (t_exec o w)
  end.

(** The update in flight [j] is about to report that it failed. *)
Definition gives_up (j : nat) (w : twork) : Prop :=
  ∃ x ph, tw_flights w !! j = Some (x, ph)
    ∧ ((∃ c, ph = PGiveUp c) ∨ ∃ m inbound c e, ph = PAudited m inbound c ∧ dispatch (x_dispatch x) = Err e).
#[local] Instance gives_up_dec j w : Decision (gives_up j w).
Proof.
  unfold gives_up. destruct (tw_flights w !! j) as [[x ph]|]; [|right; naive_solver].
  destruct ph; try (right; naive_solver).
  - destruct (dispatch (x_dispatch x)) eqn:E; [right|left; by eauto 10].
    intros (x' & ph' & [= <- <-] & [[c Hc]|(m & inb & c & e & _ & He)]); congruence.
  - left. eauto 10.
Defined.

(** How often an update was dispatched. *)
Definition dispatched (j : nat) (log : list (nat * action)) : nat :=
  dispatches (filter (λ e, e.1 = j) log).*2.

Lemma dispatched_app j a b : dispatched j (a ++ b) = (dispatched j a + dispatched j b)%nat.
Proof. unfold dispatched. by rewrite filter_app, fmap_app, dispatches_app. Qed.
Lemma dispatched_step j i out : dispatched j (pair i <$> out) = if decide (i = j) then dispatches out else 0%nat.
Proof.
  unfold dispatched. induction out as [|a out IH]; [by destruct (decide (i = j))|]. rewrite fmap_cons. destruct (decide (i = j)) as [->|Hne].
  - rewrite filter_cons_True by done. rewrite fmap_cons, dispatches_cons, (dispatches_cons a out). cbn [snd]. by rewrite IH.
  - by rewrite filter_cons_False.
Qed.

(** What an update may still dispatch. *)
Definition may_still (j : nat) (w : twork) : nat :=
  match tw_flights w !! j with Some (_, ph) => may_dispatch ph | None => 1 end.

Lemma t_exec_dispatched j o w :
  (dispatched j (tw_log w) + may_still j w ≤ 1)%nat → (dispatched j (tw_log (t_exec o w)) + may_still j (t_exec o w) ≤ 1)%nat.
Proof.
  unfold may_still. intros Hle. destruct o as [x update|i| |o|b]; cbn -[dispatched]; try done.
  - destruct (tw_flights w !! j) as [[y ph]|] eqn:Hj; [by rewrite (lookup_app_l_Some _ _ _ _ Hj)|].
    destruct ((tw_flights w ++ [(x, PEnter update)]) !! j) as [[y ph]|] eqn:Hj'; [|done].
    apply lookup_app_Some in Hj' as [?|[_ Hj']]; [congruence|]. apply list_lookup_singleton_Some in Hj' as [_ [= <- <-]]. done.
  - destruct (tw_flights w !! i) as [[x ph]|] eqn:Hi; [|done]. destruct (advance x ph (tw_state w)) as [[s' ph'] out] eqn:E. cbn -[dispatched].
    rewrite dispatched_app, dispatched_step. apply advance_dispatches in E. destruct (decide (i = j)) as [<-|].
    + rewrite list_lookup_insert_eq by (by eapply lookup_lt_Some). rewrite Hi in Hle. lia.
    + rewrite list_lookup_insert_ne by done. lia.
  - by destruct (adapter_Close _ _).
Qed.
Lemma t_run_dispatched j os w :
  (dispatched j (tw_log w) + may_still j w ≤ 1)%nat → (dispatched j (tw_log (t_run os w)) + may_still j (t_run os w) ≤ 1)%nat.
Proof. revert w. induction os as [|o os IH]; intros w Hle; [done|]. by apply IH, t_exec_dispatched. Qed.

Section Once.
Context (team : nat → Prop) `{!∀ j, Decision (team j)} (key : string) (t0 T : Z).

Record once_inv (log : list (nat * action)) (w : twork) : Prop := {
  oi_claims : claims_ok w;
  oi_taken : taken key (t0 + T) (t_idem (tw_state w));
  oi_ttl : ttl (t_idem (tw_state w)) = T;
  oi_others j : claimant key w j → team j;
  oi_log : ∃ new, tw_log w = log ++ new
    ∧ ∀ j p m r, (j, ADispatch p m r) ∈ new → request_key p m = Ok key → team j }.

Lemma once_step log j w :
  once_inv log w → op_within key t0 T w (TStep j) → (team j → ¬ gives_up j w) → once_inv log (t_exec (TStep j) w).
Proof.
  intros [Hc Ht Httl Hoth (new & Hlog & Hnew)] Hwin Hng. pose proof (t_exec_claims (TStep j) w Hc) as Hc'. cbn in *.
  destruct (tw_flights w !! j) as [[x ph]|] eqn:Hj; [|by split; eauto].
  destruct (advance x ph (tw_state w)) as [[s' ph'] out] eqn:E. cbn in *. pose proof (lookup_lt_Some _ _ _ Hj).
  pose proof (Forall_lookup_1 _ _ _ _ Hc Hj) as [Hok1 Hok2]. cbn in *.
  assert (holds ph key → team j) as Hown by (intros Hh; apply Hoth; by exists x, ph).
  assert (∃ new', tw_log w ++ (pair j <$> out) = log ++ new'
    ∧ ∀ j p m r, (j, ADispatch p m r) ∈ new' → request_key p m = Ok key → team j) as Hlog'.
  { exists (new ++ (pair j <$> out)). split; [by rewrite Hlog, app_assoc|]. intros j' p m r. rewrite elem_of_app.
    intros [H'|H'] Hk; [by eapply Hnew|]. apply list_elem_of_fmap in H' as (act & [= -> <-] & Hact).
    destruct (advance_dispatch_from _ _ _ _ _ _ _ _ _ E Hact) as (msg & cl & -> & ->).
    apply Hown. exists cl. split; [done|]. cbn in Hok2. unfold principal_of in Hok2. congruence. }
  apply advance_effect in E as (_ & Heff & _).
  assert (taken key (t0 + T) (t_idem s') ∧ ttl (t_idem s') = T ∧ (holds ph' key → team j)) as (H1 & H2 & H3).
  { destruct Heff as [Hs Hh1 Hh2|c inbound r Hb [u ->] Hh|evs m inbound claim -> Hh' Hs|claim Hh Hh' Hs Hf].
    - rewrite Hs. split_and!; [done..|]. intros (cl & Hcl & Hk). apply Hown. exists cl. auto.
    - destruct (taken_step key t0 T (IBegin (Some (λ i, c (S i))) (x_begin x) (a_principal (t_adapter (tw_state w))) inbound)
        (t_idem (tw_state w)) Ht Httl) as [H1 H2]; [done|done|]. cbn [idempotency_exec] in H1, H2. rewrite Hb in H1, H2. split_and!; [done..|].
      intros (cl & Hcl & Hk). rewrite Hh in Hcl. destruct r as [[claim|]|]; try done. injection Hcl as ->.
      exfalso. eapply taken_refuses; [exact Ht| |exact Hb|done]. lia.
    - destruct (taken_step key t0 T (IComplete evs (x_settle x) claim) (t_idem (tw_state w)) Ht Httl) as [H1 H2]; [done|done|].
      rewrite Hs. split_and!; [done..|]. intros (cl & Hcl & _). congruence.
    - assert (claim_key claim ≠ key) as Hk.
      { intros Hk. apply (Hng (Hown (ex_intro _ claim (conj Hh Hk)))). exists x, ph. split; [done|].
        destruct Hf as [->|(m & inb & e & -> & He)]; eauto 10. }
      destruct (taken_step key t0 T (IFail (x_settle x) claim) (t_idem (tw_state w)) Ht Httl) as [H1 H2];
        [by destruct Hf as [->|(m & inb & e & -> & He)]|done|].
      rewrite Hs. split_and!; [done..|]. intros (cl & Hcl & _). congruence. }
  split; cbn; try done. intros j' (y & p & Hj' & Hp). cbn in Hj'. destruct (decide (j' = j)) as [->|Hne].
  - rewrite list_lookup_insert_eq in Hj' by done. injection Hj' as <- <-. auto.
  - rewrite list_lookup_insert_ne in Hj' by done. apply Hoth. by exists y, p.
Qed.

Lemma once_exec log o w :
  once_inv log w → op_within key t0 T w o → (∀ j, o = TStep j → team j → ¬ gives_up j w) → once_inv log (t_exec o w).
Proof.
  intros I Ho Hng. pose proof (t_exec_claims o w (oi_claims _ _ I)) as Hc'. destruct o as [x update|j| |o|b].
  - destruct I as [Hc Ht Httl Hoth Hlog]. split; cbn; try done.
    intros j (y & ph & Hj & Hh). cbn in Hj. apply lookup_app_Some in Hj as [Hj|[_ Hj]]; [apply Hoth; by exists y, ph|].
    apply list_lookup_singleton_Some in Hj as [_ [= <- <-]]. by destruct Hh as (cl & Hcl & _).
  - apply once_step; [done..|]. by apply Hng.
  - destruct I as [Hc Ht Httl Hoth Hlog]. cbn in *. unfold adapter_Close, closeOwnedIdempotency in *.
    destruct (a_closed _); [by split|]. destruct (a_ownIdempotency _); [|by split].
    split; cbn; try done. by left.
  - destruct I as [Hc Ht Httl Hoth Hlog]. cbn in Ho. destruct Ho as [Hd Hn].
    destruct (taken_step key t0 T o (t_idem (tw_state w)) Ht Httl Hd Hn) as [H1 H2]. by split.
  - destruct I as [Hc Ht Httl Hoth Hlog]. by split.
Qed.

Lemma once_run log os w : once_inv log w → within key t0 T os w →
  (∃ os1 j os2, os = os1 ++ TStep j :: os2 ∧ team j ∧ gives_up j (t_run os1 w)) ∨ once_inv log (t_run os w).
Proof.
  revert w. induction os as [|o os IH]; intros w I; [by right|]. intros [Ho Hos].
  assert ((∃ j, o = TStep j ∧ team j ∧ gives_up j w) ∨ (∀ j, o = TStep j → team j → ¬ gives_up j w)) as [(j & -> & Hj & Hg)|Hng].
  { destruct o as [|j| | |]; try (right; discriminate).
    destruct (decide (team j ∧ gives_up j w)) as [[? ?]|Hn]; [by eauto|]. right. intros j' [= <-] ? ?. by apply Hn. }
  - left. exists [], j, os. done.
  - destruct (IH (t_exec o w)) as [(os1 & j & os2 & -> & Hg)|I']; [by apply once_exec|done| |by right].
    left. exists (o :: os1), j, os2. done.
Qed.
End Once.

(** C36: an update is executed once at a time.  From the moment update [i] claims its message
    until the lifetime of the claim is over - that is, while the clock readings of the store
    are in that lifetime - whatever arrives (also the same update again), however the phases
    interleave and whoever else uses the store without failing this message: either one of
    the updates that hold a claim on the message when [i] claims it reported a failure, or
    only these updates dispatch the message and hold claims on it.  These are [i] itself and
    updates still in flight whose own earlier claim on the message ran out before; when there
    are none of those, [i] alone dispatches it.  No update dispatches more than once. *)
Theorem update_executed_once s before i x update m inbound claim os :
  let w0 := t_run before (idle s) in
  let w1 := t_exec (TStep i) w0 in
  let w2 := t_run os w1 in
  let key := claim_key claim in
  tw_flights w0 !! i = Some (x, PEnter update) →
  tw_flights w1 !! i = Some (x, PClaimed m inbound claim) →
  within key (store_now (x_begin x)) (ttl (t_idem (tw_state w0))) os w1 →
  (∀ j, (dispatched j (tw_log w2) ≤ 1)%nat)
  ∧ ((∃ os1 j os2, os = os1 ++ TStep j :: os2 ∧ claimant key w1 j ∧ gives_up j (t_run os1 w1))
     ∨ ((∀ j, claimant key w2 j → claimant key w1 j)
        ∧ ∃ new, tw_log w2 = tw_log w1 ++ new
            ∧ ∀ j p msg r, (j, ADispatch p msg r) ∈ new → request_key p msg = Ok key → claimant key w1 j)).
Proof.
  intros w0 w1 w2 key Hi Hw1 Hwin. split.
  { intros j. assert (dispatched j (tw_log w2) + may_still j w2 ≤ 1)%nat; [|lia].
    by apply t_run_dispatched, t_exec_dispatched, t_run_dispatched. }
  assert (claims_ok w0) as Hc by (apply t_run_claims; constructor).
  assert (once_inv (claimant key w1) key (store_now (x_begin x)) (ttl (t_idem (tw_state w0))) (tw_log w1) w1) as I1.
  { pose proof (t_exec_claims (TStep i) w0 Hc) as Hc1. fold w1 in Hc1.
    assert (taken key (store_now (x_begin x) + ttl (t_idem (tw_state w0))) (t_idem (tw_state w1))
      ∧ ttl (t_idem (tw_state w1)) = ttl (t_idem (tw_state w0))) as [H1 H2].
    { unfold w1 in *. cbn in *. rewrite Hi in *. pose proof (lookup_lt_Some _ _ _ Hi) as Hlt.
      destruct (advance x (PEnter update) (tw_state w0)) as [[s1 ph1] out1] eqn:E. cbn in *. rewrite list_lookup_insert_eq in Hw1 by done.
      injection Hw1 as ->. apply advance_enter in E as [(_ & (e & He) & _)|(c & inb & r & _ & _ & _ & _ & Hb & _ & _ & Hp & _)]; [done|].
      destruct (beginUpdate_cases (the_message update) inb r) as [(cl & -> & Hp')|[(evs & -> & Hp')|[_ [Hp'|[? Hp']]]]]; try congruence.
      rewrite Hp' in Hp. injection Hp as -> -> ->. apply Begin_claim in Hb as (_ & _ & Hcl & Httl & _ & Hent).
      split; [|done]. right. eexists. split; [exact Hent|]. by split. }
    split; try done. exists []. split; [by rewrite app_nil_r|]. intros ? ? ? ?. by rewrite elem_of_nil. }
  destruct (once_run _ _ _ _ _ _ _ I1 Hwin) as [?|[_ _ _ Hoth2 Hlog2]]; [by left|right]. split; [exact Hoth2|exact Hlog2].
Qed.

(** * Construction *)

Lemma normalizeConfig_Ok ctx config n :
  normalizeConfig ctx config = Ok n →
  n_token n = c_BotToken config ∧ n_target n = c_Target config ∧ RoutingTarget_Validate (c_Target config) = Ok ()
  ∧ rt_Channel (target_fields (c_Target config)) = ChannelTelegram
  ∧ n_providerAcctID n = rt_ProviderAccountID (target_fields (c_Target config))
  ∧ Principal_Validate (n_principal n) = Ok () ∧ p_routingTarget (n_principal n) = c_Target config.
Proof.
  unfold normalizeConfig. destruct ctx as [c|]; [|done]. destruct (c 0%nat); [done|]. go_unfold.
  unfold normalizeToken. destruct (_ || _ || _ || _); [done|].
  destruct (RoutingTarget_Validate (c_Target config)) as [[]|] eqn:Hv; [|done]. cbn.
  destruct (String.eqb_spec (rt_Channel (target_fields (c_Target config))) ChannelTelegram) as [Hch|]; [|done].
  destruct (ParseInt64 _) as [account|]; [|done]. destruct (negb (_ || _)) eqn:Hacc; [|done].
  apply negb_true_iff, orb_false_iff in Hacc as [_ Hacc]. apply negb_false_iff, String.eqb_eq in Hacc.
  destruct (c_Dispatcher config); [|done]. destruct (normalizeAPIBaseURL _); [|done]. destruct (normalizePollTimeout _); [|done].
  destruct (normalizeWorkers _); [|done]. destruct (NewChannelPrincipal _) as [p|] eqn:Hp; [|done]. intros [= <-]. cbn.
  unfold NewChannelPrincipal in Hp. rewrite Hv in Hp. injection Hp as <-. split_and!; try done.
  unfold Principal_Validate. cbn. by rewrite Hv, !String.eqb_refl.
Qed.

Lemma verifyIdentity_Ok hook ctxErr me account events :
  verifyIdentity hook ctxErr me account = (events, Ok ()) →
  ∃ u, me = Some (Some u) ∧ u_IsBot u = true ∧ 0 < u_ID u ∧ itoa (u_ID u) = account ∧ events = [].
Proof.
  unfold verifyIdentity. destruct me as [[u|]|]; [|done|by repeat case_match]. destruct (_ || _ || _) eqn:Hu; [done|]. intros [= <-].
  apply orb_false_iff in Hu as [[Hm1%negb_false_iff Hm2%Z.leb_gt]%orb_false_iff Hm3%negb_false_iff%String.eqb_eq]. by exists u.
Qed.

(** An adapter is only made for the bot of its binding: the token has its form, the
    target is a valid Telegram route, [GetMe] of the client made with that token returned a
    bot whose number is the canonical account of the route, and the principal of the adapter
    is that of the route.  A construction that fails closes the store it made and leaves one
    it was given as it was. *)
Theorem adapter_identified factory ctx config events store r :
  New factory ctx config = (events, store, r) →
  match r with
  | Ok a => ∃ n me, normalizeConfig ctx config = Ok n ∧ factory (c_BotToken config) n = Some (Some (Some me))
      ∧ u_IsBot me = true ∧ 0 < u_ID me ∧ itoa (u_ID me) = rt_ProviderAccountID (target_fields (a_target a))
      ∧ a_target a = c_Target config ∧ RoutingTarget_Validate (a_target a) = Ok ()
      ∧ rt_Channel (target_fields (a_target a)) = ChannelTelegram
      ∧ Principal_Validate (a_principal a) = Ok () ∧ p_routingTarget (a_principal a) = a_target a
      ∧ a_closed a = false ∧ a_client a = true ∧ events = []
      ∧ match c_Idempotency config with
        | Some s => store = Some s ∧ a_ownIdempotency a = false
        | None => a_ownIdempotency a = true ∧ ∃ s, store = Some s ∧ closed s = false ∧ entries s = ∅
        end
  | Err _ => match c_Idempotency config with
             | Some s => store = Some s
             | None => ∀ s, store = Some s → closed s = true
             end
  end.
Proof.
  unfold New. destruct (normalizeConfig ctx config) as [n|e] eqn:Hn.
  2: { intros [= <- <- <-]. destruct (c_Idempotency config); [done|]. by intros. }
  pose proof (normalizeConfig_Ok _ _ _ Hn) as (H1 & H2 & H3 & H4 & H5 & H6 & H7). rewrite H1.
  destruct (c_Idempotency config) as [s|] eqn:Hs; cbn.
  - destruct (factory _ n) as [me|] eqn:Hf; [|by intros [= <- <- <-]].
    destruct (verifyIdentity _ _ me _) as [reps [[]|e]] eqn:Hv; [|by intros [= <- <- <-]]. intros [= <- <- <-].
    apply verifyIdentity_Ok in Hv as (u & -> & ? & ? & Ha & ->). exists n, u. cbn. rewrite H2. split_and!; try done. congruence.
  - destruct (factory _ n) as [me|] eqn:Hf; [|intros [= <- <- <-]; by intros s [= <-]].
    destruct (verifyIdentity _ _ me _) as [reps [[]|e]] eqn:Hv; [|intros [= <- <- <-]; by intros s [= <-]]. intros [= <- <- <-].
    apply verifyIdentity_Ok in Hv as (u & -> & ? & ? & Ha & ->). exists n, u. cbn. rewrite H2.
    split_and!; try done; [congruence|]. by eexists.
Qed.

(** * The webhook *)

Section Hook.
Context (decode : string → option Update) (w : Webhook).

(** The request carries the secret to the right place, with one update of allowed size. *)
Definition authentic (rq : hook_request) : Prop :=
  hr_path rq = wh_path w ∧ hr_method rq = "POST"%string ∧ hr_secret rq = wh_secret w
  ∧ ∃ body u, hr_body rq = Some body ∧ len (string_of_bytes (take (Z.to_nat (wrap64 (wh_maxBody w + 1))) (bytes body))) ≤ wh_maxBody w
    ∧ decode (string_of_bytes (take (Z.to_nat (wrap64 (wh_maxBody w + 1))) (bytes body))) = Some u.

Lemma hook_enter_authentic rq u : hook_enter decode w rq = inr u → authentic rq.
Proof.
  unfold hook_enter, authentic. destruct (String.eqb_spec (hr_path rq) (wh_path w)); [|done].
  destruct (String.eqb_spec (hr_method rq) "POST"); [|done]. destruct (String.eqb_spec (hr_secret rq) (wh_secret w)); [|done]. cbn.
  destruct (hr_body rq) as [body|]; [|done]. destruct (Z.ltb_spec (wh_maxBody w) (len (string_of_bytes
    (take (Z.to_nat (wrap64 (wh_maxBody w + 1))) (bytes body))))); [done|]. case_match; [|done]. intros [= ->]. eauto 10.
Qed.

Definition admitted (rq : hook_request) : bool := match hook_enter decode w rq with inr _ => true | inl _ => false end.
Definition is_request (o : hook_op) : bool := match o with HRequest _ _ => true | _ => false end.
Definition authentic_op (o : hook_op) : bool := match o with HRequest rq _ => admitted rq | _ => false end.
Definition count (f : hook_op → bool) (os : list hook_op) : nat := length (filter (λ o, f o = true) os).
(** Updates arrive through the webhook only, and it alone closes the adapter. *)
Definition hook_owned (o : hook_op) : Prop :=
  match o with HAdapter (TArrive _ _) | HAdapter TClose => False | _ => True end.

Record hook_inv (os : list hook_op) (s : hook_state) : Prop := {
  hi_answers : (length (hk_answers s) + length (hk_open s) = count is_request os)%nat;
  hi_flights : (length (tw_flights (hk_work s)) ≤ count authentic_op os)%nat;
  hi_nodup : NoDup (hk_open s);
  hi_known i : i ∈ hk_open s → (i < length (tw_flights (hk_work s)))%nat;
  hi_ended i x ph : tw_flights (hk_work s) !! i = Some (x, ph) → i ∈ hk_open s ∨ phases_left ph = 0%nat;
  hi_closed : a_closed (t_adapter (tw_state (hk_work s))) = true → hk_closing s = true ∧ hk_open s = [] }.

Lemma count_snoc f os o : count f (os ++ [o]) = (count f os + if f o then 1 else 0)%nat.
Proof. unfold count. rewrite filter_app, length_app, filter_cons, filter_nil. destruct (f o); by case_decide. Qed.

Lemma filter_removes (l : list nat) i : NoDup l → i ∈ l → S (length (filter (λ j, j ≠ i) l)) = length l.
Proof.
  intros Hd Hi. induction l as [|j l IH]; [by apply elem_of_nil in Hi|]. apply NoDup_cons in Hd as [Hj Hd].
  rewrite filter_cons. case_decide as Hc.
  - cbn. f_equal. apply IH; [done|]. by apply elem_of_cons in Hi as [->|].
  - assert (j = i) as -> by (destruct (decide (j = i)); [done|by destruct Hc]). cbn. f_equal. f_equal.
    clear -Hj. induction l as [|k l IH]; [done|]. apply not_elem_of_cons in Hj as [Hk Hj]. rewrite filter_cons_True by done. by rewrite IH.
Qed.

Lemma adapter_op_flights o t : hook_owned (HAdapter o) →
  length (tw_flights (t_exec o t)) = length (tw_flights t)
  ∧ a_closed (t_adapter (tw_state (t_exec o t))) = a_closed (t_adapter (tw_state t))
  ∧ ∀ i x ph, tw_flights (t_exec o t) !! i = Some (x, ph) → ∃ ph0, tw_flights t !! i = Some (x, ph0) ∧ (phases_left ph0 = 0%nat → phases_left ph = 0%nat).
Proof.
  intros Ho. destruct o as [| j | |o|b]; try done; cbn; try (split_and!; [done..|]; by eauto).
  destruct (tw_flights t !! j) as [[x ph]|] eqn:Hj; [|split_and!; [done..|]; by eauto].
  destruct (advance x ph _) as [[s' ph'] out] eqn:E. cbn. pose proof (lookup_lt_Some _ _ _ Hj).
  split_and!; [by rewrite length_insert|by apply advance_effect in E as [-> _]|].
  intros i y p. destruct (decide (i = j)) as [->|Hne]; [|rewrite list_lookup_insert_ne by done; by eauto].
  rewrite list_lookup_insert_eq by done. intros [= <- <-]. exists ph. split; [done|]. intros Hz. destruct ph; try done.
  cbn in E. by simplify_eq.
Qed.

Lemma hook_step os o s : hook_owned o → hook_inv os s → hook_inv (os ++ [o]) (hook_exec decode w o s).
Proof.
  intros Ho [Ha Hf Hn Hk He Hc]. destruct o as [rq x|o|i| |]; cbn [hook_exec].
  - unfold admitted. destruct (hook_enter decode w rq) as [answer|u] eqn:E; [|destruct (hk_closing s) eqn:Hcl].
    + split; cbn; rewrite ?count_snoc, ?length_app; cbn; unfold admitted; rewrite ?E; cbn; try done; lia.
    + split; cbn; rewrite ?count_snoc, ?length_app; cbn; unfold admitted; rewrite ?E; cbn; try done; lia.
    + split; cbn; rewrite ?count_snoc, ?length_app; cbn; unfold admitted; rewrite ?E; cbn; try lia.
      * constructor; [|done]. intros Hin%Hk. lia.
      * intros i [->|Hi%Hk]%elem_of_cons; lia.
      * intros i y ph. rewrite lookup_app_Some, list_lookup_singleton_Some. intros [H|[Hge [Hz [= <- <-]]]].
        -- destruct (He _ _ _ H) as [?|?]; [left; by right|by right].
        -- left. apply elem_of_cons. left. lia.
      * intros Hcl'. destruct (Hc Hcl') as [? _]. congruence.
  - destruct (adapter_op_flights o (hk_work s) Ho) as (H1 & H2 & H3).
    split; cbn; rewrite ?count_snoc, ?H1, ?H2; cbn; try done; try lia.
    intros i x ph Hi. destruct (H3 _ _ _ Hi) as (ph0 & Hi0 & Hz). destruct (He _ _ _ Hi0); auto.
  - assert (hook_inv (os ++ [HAnswer i]) s) as Hsame by (split; rewrite ?count_snoc; cbn; try done; lia).
    destruct (tw_flights (hk_work s) !! i) as [[x ph]|] eqn:Hi; [|done]. destruct ph as [| | | | | | | |r]; try done.
    case_bool_decide as Hin; [|done]. pose proof (filter_removes _ _ Hn Hin) as Hlen.
    split; cbn; rewrite ?count_snoc, ?length_app; cbn; try lia.
    + by apply NoDup_filter.
    + intros j [_ Hj]%list_elem_of_filter. auto.
    + intros j y ph Hj. destruct (decide (j = i)) as [->|Hne]; [rewrite Hi in Hj; injection Hj as <- <-; by right|].
      destruct (He _ _ _ Hj) as [?|?]; [left; by apply list_elem_of_filter|by right].
    + intros Hcl. destruct (Hc Hcl) as [? Hnil]. rewrite Hnil in *. by apply elem_of_nil in Hin.
  - split; cbn; rewrite ?count_snoc; cbn; try done; try lia. intros Hcl. by destruct (Hc Hcl).
  - destruct (hk_open s) as [|i open] eqn:Hop.
    + assert (tw_flights (let '(a, i) := adapter_Close (t_adapter (tw_state (hk_work s))) (t_idem (tw_state (hk_work s))) in
        mkWork (mkTState a i (t_audit (tw_state (hk_work s)))) (tw_flights (hk_work s)) (tw_log (hk_work s)))
        = tw_flights (hk_work s)) as Hfl by (by destruct (adapter_Close _ _)).
      split; cbn [hk_answers hk_open hk_work hk_closing t_exec]; rewrite ?Hfl, ?count_snoc; cbn [is_request authentic_op]; try done; try lia.
    + cbn in Ha. split; cbn; rewrite ?count_snoc, ?Hop; cbn; try done; try lia. intros Hcl. by destruct (Hc Hcl).
Qed.

Lemma hook_run_inv os0 os s : Forall hook_owned os → hook_inv os0 s → hook_inv (os0 ++ os) (hook_run decode w os s).
Proof.
  revert os0 s. induction os as [|o os IH]; intros os0 s; [by rewrite app_nil_r|]. intros [Ho Hos]%Forall_cons I.
  rewrite cons_middle, app_assoc. apply IH; [done|]. by apply hook_step.
Qed.

Lemma closing_admits_none os s : Forall hook_owned os → hk_closing s = true →
  hk_closing (hook_run decode w os s) = true
  ∧ length (tw_flights (hk_work (hook_run decode w os s))) = length (tw_flights (hk_work s)).
Proof.
  revert s. induction os as [|o os IH]; intros s; [done|]. intros [Ho Hos]%Forall_cons Hcl.
  assert (hk_closing (hook_exec decode w o s) = true
    ∧ length (tw_flights (hk_work (hook_exec decode w o s))) = length (tw_flights (hk_work s))) as [H1 H2].
  { destruct o as [rq x|o|i| |]; cbn [hook_exec].
    - destruct (hook_enter decode w rq); [done|]. by rewrite Hcl.
    - split; [done|]. by apply adapter_op_flights.
    - repeat case_match; done.
    - done.
    - destruct (hk_open s); [|done]. split; [done|]. cbn. by destruct (adapter_Close _ _). }
  destruct (IH _ Hos H1) as [H3 H4]. split; [exact H3|]. etrans; [exact H4|exact H2].
Qed.

Definition new_hook (st : tstate) : hook_state := mkHookState (idle st) false false [] [].

(** C40: the webhook in any interleaving of requests, phases of updates, answers and its
    shutdown: every request is answered or still open, an update only reaches the adapter
    with a request that carried the secret to the path by POST with one update of allowed
    size, an update that is not open any more has been handled to its end, after the
    shutdown began none is admitted, and the adapter is closed only when no update is open,
    so that no accepted update meets a closed adapter. *)
Theorem webhook_admission os st :
  a_closed (t_adapter st) = false → Forall hook_owned os →
  let s := hook_run decode w os (new_hook st) in
  (length (hk_answers s) + length (hk_open s) = count is_request os)%nat
  ∧ (length (tw_flights (hk_work s)) ≤ count authentic_op os)%nat
  ∧ (∀ rq x, authentic_op (HRequest rq x) = true → authentic rq)
  ∧ (∀ i x ph, tw_flights (hk_work s) !! i = Some (x, ph) → i ∈ hk_open s ∨ ∃ r, ph = PEnd r)
  ∧ (a_closed (t_adapter (tw_state (hk_work s))) = true →
       hk_closing s = true ∧ hk_open s = [] ∧ Forall (λ f, ∃ r, f.2 = PEnd r) (tw_flights (hk_work s)))
  ∧ (hk_closing s = true → ∀ os', Forall hook_owned os' →
       length (tw_flights (hk_work (hook_run decode w os' s))) = length (tw_flights (hk_work s))).
Proof.
  intros Hst Hos s. assert (hook_inv [] (new_hook st)) as I0.
  { split; cbn; try done; [constructor|intros i; by rewrite elem_of_nil|congruence]. }
  pose proof (hook_run_inv [] os _ Hos I0) as [Ha Hf Hn Hk He Hc]. cbn [app] in *. fold s in Ha, Hf, Hn, Hk, He, Hc.
  assert (∀ ph, phases_left ph = 0%nat → ∃ r, ph = PEnd r) as Hend by (intros []; cbn; try done; by eauto).
  split_and!; try done.
  - intros rq x. cbn. unfold admitted. destruct (hook_enter decode w rq) as [|u] eqn:E; [done|]. intros _. by eapply hook_enter_authentic.
  - intros i x ph Hi. destruct (He _ _ _ Hi) as [?|?]; [by left|right; auto].
  - intros Hcl. destruct (Hc Hcl) as [H1 H2]. split_and!; [done..|]. apply Forall_forall. intros [x ph] Hin.
    apply list_elem_of_lookup in Hin as [i Hi]. destruct (He _ _ _ Hi) as [Hop|?]; [rewrite H2 in Hop; by apply elem_of_nil in Hop|auto].
  - intros Hcl os' Hos'. by apply closing_admits_none.
Qed.
End Hook.

(** * The provider *)

(** Once a segment has a receipt, it is not sent again, and reconciling it confirms this
    receipt, whatever is delivered under other keys. *)
Lemma Deliver_again p v answer rs rs' receipt sent others answer' :
  Deliver (Some p) true v answer rs = (rs', Ok receipt, sent) →
  Forall (λ o, deliveryKey o.1 ≠ deliveryKey v) others →
  let rs2 := foldl (λ rs o, (deliver_end o.1 o.2 rs).1) rs' others in
  Deliver (Some p) true v answer' rs2 = (rs2, Ok receipt, []) ∧ Reconcile (Some p) v rs2 = (DeliveryAccepted, receipt).
Proof.
  intros Hd Hoth rs2. assert (deliver_start v rs' = Some receipt) as Hs.
  { unfold Deliver in Hd. cbn in Hd. destruct (deliver_start v rs) as [r|] eqn:E; [by simplify_eq|].
    destruct answer as [| | |id]; cbn in Hd; try by simplify_eq. destruct (id <=? 0); simplify_eq.
    unfold deliver_start. rewrite lookup_insert_eq. cbn. pose proof (itoa_nonempty id). by destruct (itoa id). }
  assert (deliver_start v rs2 = Some receipt) as Hs2.
  { clear Hd. unfold rs2. clear rs2. revert rs' Hs. induction others as [|o others IH]; intros rs' Hs; [done|].
    apply Forall_cons in Hoth as [Ho Hoth]. cbn. apply IH; [done|]. rewrite <-Hs.
    destruct o as [v' [| | |id]]; cbn in Ho |- *; try done. destruct (id <=? 0); [done|]. unfold deliver_start. cbn. by rewrite lookup_insert_ne. }
  unfold Deliver, Reconcile. cbn. by rewrite Hs2.
Qed.

(** Keys of segments whose identifiers hold no NUL are different. *)
Lemma deliveryKey_inj v v' :
  nul_free (RuntimeStore.r_TenantID v) = true → nul_free (RuntimeStore.r_TenantID v') = true →
  nul_free (r_ReplyID v) = true → nul_free (r_ReplyID v') = true →
  deliveryKey v = deliveryKey v' →
  RuntimeStore.r_TenantID v = RuntimeStore.r_TenantID v' ∧ r_ReplyID v = r_ReplyID v' ∧ r_SegmentIndex v = r_SegmentIndex v'.
Proof. intros H1 H2 H3 H4 [-> [-> ?%itoa_inj]%nul_split_inj]%nul_split_inj; done. Qed.

(** * Concrete updates *)

Definition tg_route : route :=
  let r := target_fields ex_target in
  mkRoute (Routing.rt_TenantID r) (Routing.rt_BindingID r) (Routing.rt_BindingVersion r) (Routing.rt_AppID r) ChannelTelegram "4242"
    (Routing.rt_ConfigDigest r).
Definition tg_target : RoutingTarget := mkTarget tg_route (Some (mkVerified tg_route (Some tg_route))).
Definition tg_config (audit : option AuditLog.Store) : Config := mkConfig "12:token" tg_target true None "https://api.example/" 0 0 true audit.
Definition tg_factory (token : string) (n : normalizedConfig) : option (option (option BotUser)) := Some (Some (Some (mkBotUser 4242 true))).
Definition tg_made (audit : option AuditLog.Store) := New tg_factory background (tg_config audit).
Definition tg_state (audit : option AuditLog.Store) : option tstate :=
  match tg_made audit with
  | (_, Some s, Ok a) => Some (mkTState a s AuditLog.empty_backend)
  | _ => None
  end.
Example tg_made_ok : (λ a, a_target a) <$> (match (tg_made None).2 with Ok a => Some a | Err _ => None end) = Some tg_target.
Proof. vm_compute. reflexivity. Qed.

Definition tg_message (text : string) : BotMessage := mkBotMessage text "" [] [] (Some (mkBotUser 77 false)) (-100) ChatTypeGroup 3 [].
Definition tg_update : Update := mkUpdate 9 (Some (tg_message " hi ")) [].
Definition tg_stream : list DispatchEvent :=
  [mkDispatchEvent DispatchEventMessage "r" "" "hello" "" "" false; mkDispatchEvent DispatchEventDone "r" "" "" "complete" "" true].
Definition tg_exchange (t : Z) (answer : dispatch_answer) : exchange :=
  mkExchange background (λ _, t) (λ _, t + 1) (λ _, background) (λ i, mkStamp (t + Z.of_nat i) true) answer (λ _, true).

(** Updates one after the other: the outcome and the texts sent for each. *)
Fixpoint tg_handle (xs : list exchange) (s : tstate) : list (result terror unit * list string) :=
  match xs with
  | [] => []
  | x :: xs' => let '(s', r, out) := HandleUpdate x (Some tg_update) s in (r, sent_texts out) :: tg_handle xs' s'
  end.
Definition tg_good (t : Z) : exchange := tg_exchange t (DispatchStream tg_stream StreamClosed).
Definition tg_bad (t : Z) : exchange := tg_exchange t (DispatchRefused None).

(** Without an audit log a failed update is executed when it comes again, and an update that
    succeeded is answered from the record. *)
Example redelivery_without_audit :
  tg_handle [tg_bad 5; tg_good 15; tg_good 25] <$> tg_state None
  = Some [(Err TDispatch, [failureReply]); (Ok (), ["hello"%string]); (Ok (), ["hello"%string])].
Proof. vm_compute. reflexivity. Qed.

(** With the audit log, the fact that an update was accepted has an identifier made from the
    update alone but a digest that covers the time: the same update at a later time is a
    conflict, so it is refused, and neither executed again after a failure nor answered
    from the record. *)
Example redelivery_refused_by_audit :
  let audit := Some (Some ex_tenant_id) in
  tg_handle [tg_bad 5; tg_good 15; tg_good 25] <$> tg_state audit
    = Some [(Err TDispatch, [failureReply]); (Err TDispatch, []); (Err TDispatch, [])]
  ∧ tg_handle [tg_good 5; tg_good 15] <$> tg_state audit = Some [(Ok (), ["hello"%string]); (Err TDispatch, [])].
Proof. vm_compute. split; reflexivity. Qed.

(** The base URL is documented as an HTTPS origin, but an empty fragment or query is kept. *)
Example base_url_with_fragment :
  normalizeAPIBaseURL "https://api.example/#" = Ok "https://api.example/#"%string
  ∧ normalizeAPIBaseURL "https://api.example?" = Ok "https://api.example?"%string
  ∧ normalizeAPIBaseURL "https://api.example/" = Ok "https://api.example"%string.
Proof. vm_compute. split_and!; reflexivity. Qed.

Definition tg_start : tstate := Eval vm_compute in
  match tg_state None with
  | Some s => s
  | None => mkTState (mkAdapter false ex_principal ex_target false false (mkRecorder None "" None) true None) ex_store AuditLog.empty_backend
  end.


(** Two deliveries of one update, the second while the first runs, and a close. *)
Definition tg_ops : list t_op :=
  [TArrive (tg_good 5) (Some tg_update); TStep 0; TStep 0; TArrive (tg_good 6) (Some tg_update); TStep 1; TStep 0; TStep 1; TClose; TStep 0; TStep 0].

Lemma updates_settle_claims_witness :
  (phases_left ∘ snd <$> tw_flights (t_run tg_ops (idle tg_start))) = [0; 0]%nat
  ∧ ∀ key e, entries (t_idem (tw_state (t_run tg_ops (idle tg_start)))) !! key = Some e → state e ≠ IdempotencyPending.
Proof.
  destruct (updates_settle_claims tg_start tg_ops) as (_ & _ & H).
  - reflexivity.
  - repeat constructor.
  - split; [vm_compute; reflexivity|]. apply H. apply (bool_decide_unpack _). vm_compute. exact I.
Defined.

Definition tg_entered : twork := t_exec (TArrive (tg_good 5) (Some tg_update)) (idle tg_start).
Definition tg_inbound : InboundMessage := Eval vm_compute in
  match normalizeUpdate tg_target (Some tg_update) with Ok m => m | Err _ => ex_inbound end.
Definition tg_claim : IdempotencyClaim := Eval vm_compute in
  mkClaim (match request_key (a_principal (t_adapter tg_start)) tg_inbound with Ok k => k | Err _ => "" end) false.

(** An update whose claim ran out while it was in flight is not stopped: the same update is
    claimed again, and both are dispatched. *)
Example stale_claimant_dispatches :
  let late := 5 + ttl (t_idem tg_start) in
  let w := t_run [TArrive (tg_good 5) (Some tg_update); TStep 0; TArrive (tg_good late) (Some tg_update); TStep 1;
                  TStep 0; TStep 0; TStep 1; TStep 1] (idle tg_start) in
  dispatched 0 (tw_log w) = 1%nat ∧ dispatched 1 (tw_log w) = 1%nat.
Proof. vm_compute. by split. Qed.

Lemma update_executed_once_witness :
  (phases_left ∘ snd <$> tw_flights (t_run [TArrive (tg_good 6) (Some tg_update); TStep 1] (t_exec (TStep 0) tg_entered))) = [4; 1]%nat
  ∧ ∀ j, (dispatched j (tw_log (t_run [TArrive (tg_good 6) (Some tg_update); TStep 1] (t_exec (TStep 0) tg_entered))) ≤ 1)%nat
    ∧ (claimant (claim_key tg_claim) (t_run [TArrive (tg_good 6) (Some tg_update); TStep 1] (t_exec (TStep 0) tg_entered)) j →
       claimant (claim_key tg_claim) (t_exec (TStep 0) tg_entered) j).
Proof.
  destruct (update_executed_once tg_start [TArrive (tg_good 5) (Some tg_update)] 0 (tg_good 5) (Some tg_update)
    (Some (tg_message " hi ")) tg_inbound tg_claim [TArrive (tg_good 6) (Some tg_update); TStep 1])
    as [Hd [(os1 & j & os2 & Hos & Hj & _)|[H _]]].
  - reflexivity.
  - vm_compute. reflexivity.
  - split; [exact I|]. split; [vm_compute; repeat split; congruence|exact I].
  - exfalso. destruct os1 as [|o [|o' os1]]; [discriminate Hos| |].
    + injection Hos as _ <- _. destruct Hj as (y & ph & Hy & _). vm_compute in Hy. discriminate Hy.
    + apply (f_equal length) in Hos. rewrite length_app in Hos. cbn [length] in Hos. lia.
  - split; [vm_compute; reflexivity|]. intros j. split; [apply Hd|apply H].
Defined.

Lemma adapter_identified_witness :
  ∃ a, (tg_made None).2 = Ok a ∧ rt_Channel (target_fields (a_target a)) = ChannelTelegram.
Proof.
  pose proof (adapter_identified tg_factory background (tg_config None) (tg_made None).1.1 (tg_made None).1.2 (tg_made None).2) as H.
  assert (∃ a, (tg_made None).2 = Ok a) as [a Ha] by (eexists; vm_compute; reflexivity).
  exists a. split; [exact Ha|]. rewrite Ha in H. destruct H as (n & me & H).
  - rewrite <-Ha. unfold tg_made. destruct (New _ _ _) as [[? ?] ?]. reflexivity.
  - decompose [and] H. assumption.
Defined.

Definition tg_hook : Webhook := mkWebhook "/hook" "s3cret" 100.
Definition tg_request (secret : string) : hook_request := mkHookRequest "/hook" "POST" secret (Some "{}"%string).
Definition tg_decode (body : string) : option Update := if (body =? "{}")%string then Some tg_update else None.
(** A forged request, one that is accepted and handled while the shutdown begins, and one
    that comes too late. *)
Definition tg_hook_ops : list hook_op :=
  [HRequest (tg_request "guess") (tg_good 4); HRequest (tg_request "s3cret") (tg_good 5); HAdapter (TStep 0); HBeginShutdown; HClose;
   HRequest (tg_request "s3cret") (tg_good 6); HAdapter (TStep 0); HAdapter (TStep 0); HAdapter (TStep 0); HAdapter (TStep 0); HAnswer 0; HClose].

Lemma webhook_admission_witness :
  let s := hook_run tg_decode tg_hook tg_hook_ops (new_hook tg_start) in
  (length (tw_flights (hk_work s)) ≤ 2)%nat ∧ hk_open s = []
  ∧ (hs_status <$> hk_answers s) = [403; 503; 200].
Proof.
  destruct (webhook_admission tg_decode tg_hook tg_hook_ops tg_start) as (H1 & H2 & _ & _ & H5 & _).
  - reflexivity.
  - repeat constructor.
  - split_and!; [exact H2| |vm_compute; reflexivity].
    refine (proj1 (proj2 (H5 _))). vm_compute. reflexivity.
Defined.
